(* ===== verification/_CoqProject ===== *)
-Q . S2P
Prelude.v
Utf8.v
Wire.v
Frames.v
Message.v
MessageFacts.v
MessageStream.v
Text.v
Value.v
Art.v
ArtNode.v
ArtFacts.v
ArtMap.v
Json.v
JsonFacts.v
Deque.v
DequeFacts.v
DequeSort.v
Config.v
Hba.v
ConfText.v
ConfTextFacts.v
Settings.v
Scram.v
ScramFacts.v
Pipeline.v
PipelineFacts.v
Limits.v
Effects.v
Server.v
ServerFacts.v
Pool.v
ConfFile.v
ConfFileFacts.v
ConfReload.v
ConfStart.v
ConfSet.v
ConfReloadFacts.v
ConfSetFacts.v
Compress.v
CompressFacts.v
Aes.v
AesFacts.v
Management.v
ManagementFacts.v
MainProcess.v
MainFacts.v
EventLoop.v
EventLoopFacts.v
Transfer.v
TransferFacts.v
Tls.v
TlsFacts.v
AuthQuery.v
Auth.v
AuthFacts.v
AuthQueryFacts.v
Queries.v
QueriesFacts.v
Health.v
HealthFacts.v
Metrics.v
MetricsFacts.v
PoolFacts.v
PoolConc.v
PoolSafe.v
PoolExamples.v
