(* ===== verification/Prelude.v ===== *)
(** * A verification development for pgagroal

    pgagroal is a connection pool for PostgreSQL.  A main process accepts clients and
    forks a worker for each; the workers and some periodic processes share one memory
    segment ([struct main_configuration] in [src/src/include/pgagroal.h]) that holds a
    table of slots, one per backend connection, with atomic state fields and counters.
    There are no locks: the protocol that keeps the table consistent is the use of
    compare-and-swap on [states[i]] and of fetch-and-add on the counters.  That protocol
    is the centre of this development.  Around it stand what a worker does with a
    connection (authentication, pipelines, TLS records), how the main process keeps the descriptors and
    serves the management requests, the event loop, the health check and the metrics, the configuration
    with its files, and the containers and the byte and text routines that this code is built on.

    ** Files

    All sources are under [src/src/libpgagroal] unless a directory is given.

    - [Prelude] (this file): wrap-around of machine integers, string equality,
      truncation, loop ranges, tactics and the hint databases [pgagroal] and [pgbool].
    - [Utf8]: [utf8.c], all of it.
    - [Wire]: the readers and writers of integers of [utils.c] on a byte buffer.
      The byte order of the host ([pgagroal_bigendian]) is a parameter.
    - [Frames]: [pgagroal_get_request], [pgagroal_extract_username_database],
      [pgagroal_extract_message], [pgagroal_extract_message_offset] and
      [pgagroal_extract_error_message] of [utils.c], on a little endian host.  A read
      outside the buffer is the result [Undefined] (or [None]).
    - [Message], [MessageFacts], [MessageStream]: [message.c].  [Message] has the buffer of
      every message pgagroal builds, the loops that send and receive, the read of a
      complete message, the requests that wait for an answer, the parser of a stream of
      chunks and the callback that follows transactions; what a socket answers is a list.
    - [Text]: comparison, append, escaping, path expansion, durations, versions and
      [parse_command] of [utils.c].
    - [Value]: [value.c] and [include/value.h]; a value's data is a word or a string.
    - [Art], [ArtNode], [ArtFacts], [ArtMap]: [art.c].  Nodes have the key and child arrays
      of the four sizes; a read or write outside an array is [None].  [ArtNode] has the
      lemmas on one node, [ArtFacts] those on a tree, [ArtMap] the theorems.
    - [Json], [JsonFacts]: [json.c] and the [to_string] functions of [value.c], [art.c] and
      [deque.c] that a document is printed with.
    - [Deque], [DequeFacts], [DequeSort]: [deque.c].  Nodes live in a heap (a finite map
      from locations) and every operation is a program in a state monad that fails on a
      dangling or null pointer; [rep h d ls] relates a heap to the list of values.
    - [Config]: the data of [include/pgagroal.h]; [config] is the part of
      [struct main_configuration] that is fixed at run time, [shm] the part that changes.
      The class [ValidLimits] is what the configuration promises to the pool.
    - [Pipeline], [PipelineFacts]: [pipeline_transaction.c], [pipeline_session.c],
      [pipeline_perf.c] and the part of [worker.c] around the pipeline.  A handler is a
      function of the state of the process and of what the pool and the sockets answer;
      the calls it makes are a list of actions.
    - [Limits]: [pgagroal_validate_limit_configuration] of [configuration.c], which
      establishes [ValidLimits]; the theorems of [PoolSafe] are proved against the class.
    - [Effects]: programs.  A process is a tree [prog] of single accesses to the segment
      and calls answered by the environment; [run] executes one process alone, [wp] is
      its weakest precondition for all answers.  A test on several fields of a
      connection reads it once, and consecutive assignments to one connection are one
      write; the atomic fields ([states], the counters, server states) are accessed one
      by one as in the code.
    - [Server], [ServerFacts]: [server.c].
    - [Pool], [PoolFacts]: [pool.c], with its callees [pgagroal_user_known],
      [pgagroal_prefill_auth] and [resolve_database_alias] ([security.c]),
      [pgagroal_can_prefill] ([configuration.c]) and the reserved names of [utils.c].
      The label of a [goto] is a definition: [attempt_connection] is one pass from
      [start], [retry_again] is [retry2], [finish_timeout] and [finish_error] are
      [timeout] and [error], [return_kill] is [kill_connection].
    - [Hba]: the host-based rules of [security.c]: addresses, users, databases, methods.
    - [Scram], [ScramFacts]: the exchanges of [security.c] with a client and with a server
      (trust, password, SCRAM-SHA-256, passthrough), and [pgagroal_authenticate] around
      them.  Hash functions, random numbers and base64 are the record [crypto], with laws in a
      class.  [Auth] and [AuthQuery] with their [Facts] have the whole login and the query for
      a password that the superuser sends.
    - [ConfText], [ConfTextFacts]: the lines, keys and values of [configuration.c], in both directions.
      [Settings]: [struct main_configuration] with a field for every setting.
      [ConfFile], [ConfFileFacts]: the readers of pgagroal.conf, of the rules, the limits and the
      users, and the application of a setting.  [ConfReload], [ConfStart], [ConfReloadFacts]: the
      validation, the start of [main.c], the test for a restart and the reload.  [ConfSet],
      [ConfSetFacts]: the request conf set.
    - [Compress], [CompressFacts]: [gzip_compression.c], [zstandard_compression.c],
      [lz4_compression.c] and [bzip2_compression.c] over the libraries, which are a record with laws.
    - [Aes], [AesFacts]: [aes.c] and the file with the master key of [security.c].
    - [Management], [ManagementFacts]: [management.c]: documents on the wire, requests, outcomes.
    - [MainProcess], [MainFacts]: from [main.c] the handler of the management socket, the
      timers, the list of clients and the callbacks for a shutdown.
    - [Transfer], [TransferFacts]: [connection.c], and [accept_transfer_cb] of [main.c] with the
      descriptor table of the main process.  [TransferFacts] has the step relation of a
      system in which messages overtake each other.
    - [EventLoop], [EventLoopFacts]: [ev.c]: the table of watchers, with epoll and io_uring as two records of
      operations ([backend]); what a callback does to the loop is a list of operations next to the event.
    - [Tls], [TlsFacts]: [tls.c]: the records that pgagroal seals and opens itself, the context that is
      kept in a slot, the reads and writes of such a connection, and the loops between OpenSSL and a socket.
    - [Queries], [QueriesFacts]: the queries that pgagroal sends itself ([server.c], [queries.c]) with
      the login and the probe of [health.c].  [Health], [HealthFacts]: the loop of [health.c].
    - [Metrics], [MetricsFacts]: [prometheus.c]: counters, the page with its containers, its chunks and its cache.
    - [PoolConc]: the interleaving of processes as a step relation, a logic of owned
      slots and counter tokens ([vc], [wpg]) and its soundness.
    - [PoolSafe]: every session-mode operation of the pool follows the protocol, and the
      theorems on systems of processes.
    - [PoolExamples]: concrete pools and servers on which the theorems are instantiated.

    ** What the theorems show

    - Interleavings ([PoolSafe]): for workers in session mode, idle, age and validation
      sweeps and removals that start with an empty pool and are fewer than 2^16 together with
      [max_connections], any schedule, and any answers of the environment, the idle
      connections of a limit rule and the clients served over one never exceed its
      [max_size], the 16 bit counters never wrap, two processes never write the same
      slot, and when all have ended no counter has leaked.  A step is one atomic access; another kind of step changes whatever
      the protocol does not rely on (server states, the shutdown flags).
    - Limits: the entries that pass the validation satisfy [ValidLimits].
    - One process ([PoolFacts], [ServerFacts]): the exact effect of a kill, of the sweeps
      and of a flush; the choice of the limit rule and of the database name; the
      sequence of retry delays; termination of the acquisition; the choice of the
      primary, failover, switch and the removal of duplicate servers.
    - Pipelines ([PipelineFacts]): a transaction worker returns every connection it took
      exactly once when nothing fails, and it returns it when the server reports the end
      of a transaction and not before.  After a failed call of the pool it holds nothing, but may give
      back the slot that the call left ([failed_get_returned]).
    - Messages ([MessageFacts], [MessageStream]): the layout of what is sent, the startup
      packet read back, a message sent once and whole or not at all, the bounds and the
      result of a complete read, and the parser of the stream against the list of
      messages, wherever the chunks are cut.
    - Radix tree ([ArtMap]): it refines a finite map, its nodes keep their shape, it is
      visited in the order of the keys, a prefix search visits exactly the keys with that
      prefix, and its destruction frees every value once.
    - JSON ([JsonFacts]): a printed document is parsed to itself, the parser ends, and the
      changes of an item are those of a map.
    - Containers ([DequeFacts], [DequeSort]): every operation refines its list, frees
      exactly the nodes it takes out and leaves the rest of the heap alone; the merge
      sort sorts.
    - Authentication ([AuthFacts], [ScramFacts], [AuthQueryFacts]): a client that is admitted
      has proved its password or its rule asks for none; the two ends of a SCRAM exchange agree; the
      stored key of the server verifies the proof; an address matches its network.
    - Configuration ([ConfFileFacts], [ConfReloadFacts], [ConfSetFacts]): a file means the list of
      its assignments; limits and users that are written are read back; the invariant of the running
      configuration over starts, reloads and conf set; what conf set answers.
    - Encryption, compression and management: a document is read back with every code of
      compression and encryption for which the code allows it; encryption does not depend on what is
      in the cache of keys; a request is served as the command that it is.
    - Main process ([MainFacts]): the alarm of the flush timeouts is set for the earliest one
      and handles it, unless the start of a timer has failed; the event loop ends only when it is asked to, databases are
      disabled and enabled.
    - Descriptors ([TransferFacts]): a process that may use a slot by its generation has the
      connection of the slot, whatever the order of the messages, and the main process keeps no
      descriptor of a connection that is gone, except for slots that were killed while their descriptor was
      under way ([late_transfer_reached]) or whose kill could not be told; a descriptor that is fetched is the right one.
    - Event loop ([EventLoopFacts]): what epoll may announce is in the table of watchers, unless its
      descriptor was closed or replaced while it was there ([closed_still_announced]); a worker that was
      stopped is not called by io_uring; a callback that asks for the end ends the loop with the batch.
    - TLS ([TlsFacts]): what one side writes the other side reads, however the bytes are cut; no key seals two
      records with the same nonce, also across the processes that hand a connection on.
    - Queries and health ([QueriesFacts], [HealthFacts]): the verdict of a probe for every reply, the row that is
      read is the row that was sent, and the reported state as a function of the verdicts.
    - Metrics ([MetricsFacts]): the gauge of the waiting clients is exact in every interleaving, the histogram
      counts every session, and a page has every metric once and is read back from its chunks.
    - Bytes and text: UTF-8 against the encoding of RFC 3629, round trips of integers and
      durations, the messages and parameters found in well formed buffers, the command
      line parser.
    - Places where the code does not do what it means to are theorems too:
      [prefill_kills_foreign_slot], [broken_socket_releases_twice],
      [request_flush_without_database], [alias_names_agree], [determine_loser_spec],
      [database_named_user], [extract_message_stuck],
      [resolve_path_trailing_variable], [stale_slot_killed], [failed_return_repeated], [failed_get_returned],
      [unbound_worker_forgets], [statement_tracking_inverted], [performance_drops_chunk],
      [error_messages_open], [json_truncated_accepted], [iterator_remove_repeats],
      [hostssl_alias_without_tls], [long_appname_crashes], [long_nounce_truncated],
      [reload_forgets_counters], [short_limit_dropped], [gunzip_truncated_hangs],
      [largest_length_undefined], [header_number_undefined], [disabledb_surprises],
      [kill_notice_lost], [late_transfer_overwrites], [late_transfer_reached], [full_records_refused], [second_record_waits],
      [silent_server_stalls], [cut_message_lost], [clear_breaks_gauge], [cached_answer], [cached_tail],
      [reloaded_cache_undefined], [stopped_in_batch_called], [closed_still_announced] and [failed_start_registered].

    ** Parameters

    Code that is not part of the repository is an argument: the functions of OpenSSL ([crypto],
    [evp], [tls_library], [engine]), the compression libraries ([libraries]), epoll ([epoll]), the environment, the clock and the random numbers,
    the answers of sockets and of the system.  What is used of them is a class of laws next to
    the record ([CryptoLaws], [evp_laws], [library_laws], [EpollLaws], the laws of [tls_library]); the examples instantiate each of
    them.

    ** Fuel

    [get_connection] takes the number of passes it may make; [None] is running out, and
    [get_connection_terminates] shows that [max_retries + 1] passes are enough in session
    mode without a blocking timeout.  With a blocking timeout the number depends on the
    clock, and in transaction mode the code retries for ever; both are left to the
    caller's choice of fuel.  The rounds of a prefill depend on the other processes and
    take fuel too.  The loops of [Frames] take fuel because their progress
    depends on the bytes: the result [Running] is running out, excluded for well formed
    buffers by [extract_message_first] and [error_text_extracted], and shown to happen by
    [extract_message_stuck].  The loops of [Deque] use the number of cells of the heap
    plus one; the theorems show that the loops end within it.  The loops of [Utf8] use
    the length of the buffer.  A descent in [Art] takes the height of the tree, the
    iterator twice the number of entries per round; running out is [None], which
    [art_refines_map] and [art_iterate_in_order] exclude.  The JSON parser takes the
    length of its text ([json_parse_terminates]), the stream parser the length of the
    chunk plus one ([parse_total]).  The loops of [Message] and of [Management] over a socket end
    as [Running] when the list of answers ends.  The loop over the buffers of zlib takes fuel; more than the length
    of the output is enough ([stream_loop_spec]), and a truncated stream never ends.  The aliases of a
    limit take the length of their text plus one, the attempts to take the
    connection of the superuser and to read a password are a number that the caller gives, as in the code.  The read of a TLS record is bounded by the buffer of a
    record, the walk over a reply by its bytes, and the loops of the event loop and of the health check by the list of what
    the kernel announces.

    ** What is not modelled

    - Log output and tracker files: the calls are recorded, their output is not.  The reader of metrics in C, the home page
      of the metrics port and the metrics of certificates.
    - The flush modes that take a slot away from its owner with a plain store
      ([FLUSH_GRACEFULLY], [FLUSH_ALL] and failed servers) and transaction mode have
      definitions and sequential theorems but are not jobs of the interleaving theorems;
      nor is the prefill.  The protocol as stated does not hold for them
      ([broken_socket_releases_twice], [prefill_kills_foreign_slot]).
    - The set-up of TLS and of certificates, the set-up of an event backend, kqueue, and sockets: calls
      answered by the environment.
    - In [TransferFacts] what a process does to a slot that it does not hold any more, after a flush of all
      has taken it away, is one step that writes anything to the slot; the theorems say nothing of such a slot.
    - The overflow of a signed number where the code does not exclude it is [None] ([fits64] in
      [MainProcess]), as is a read outside a buffer ([verify_client_proof] of a short proof).
    - The read-write lock of a deque, the files and iterators of JSON documents, the
      branches of [message.c] that go through [tls.c], and the multishot receive of io_uring, which is switched off.
    - The configuration of the vault, the documents of conf get and of the status, remote
      management, the web console and the command line tools. *)

From Stdlib Require Import ZArith Lia Ascii String.
From stdpp Require Export base gmap list strings.

Open Scope Z_scope.

(** ** Machine integers

    A C integer of width [w] is a [Z]; an operation that can leave the width
    is written with the wrap below.  [atomic_ushort] counters use [u16]. *)

Definition wrapu (w : Z) (x : Z) : Z := x `mod` 2 ^ w.

Definition wraps (w : Z) (x : Z) : Z := (x + 2 ^ (w - 1)) `mod` 2 ^ w - 2 ^ (w - 1).

Abbreviation u8 := (wrapu 8).
Abbreviation u16 := (wrapu 16).
Abbreviation u32 := (wrapu 32).
Abbreviation u64 := (wrapu 64).
Abbreviation i8 := (wraps 8).
Abbreviation i16 := (wraps 16).
Abbreviation i32 := (wraps 32).
Abbreviation i64 := (wraps 64).

Definition in_u (w x : Z) : Prop := 0 <= x < 2 ^ w.
Definition in_i (w x : Z) : Prop := - 2 ^ (w - 1) <= x < 2 ^ (w - 1).

Lemma wrapu_id (w x : Z) : in_u w x -> wrapu w x = x.
Proof. intros H; apply Z.mod_small, H. Qed.

Lemma wrapu_range (w x : Z) : 0 <= w -> in_u w (wrapu w x).
Proof. intros Hw; apply Z.mod_pos_bound. apply Z.pow_pos_nonneg; lia. Qed.

Lemma wraps_id (w x : Z) : 0 < w -> in_i w x -> wraps w x = x.
Proof.
  intros Hw [Hl Hu]; unfold wraps.
  assert (2 ^ w = 2 * 2 ^ (w - 1)) by (rewrite <- Z.pow_succ_r by lia; f_equal; lia).
  rewrite Z.mod_small; lia.
Qed.

Lemma wraps_range (w x : Z) : 0 < w -> in_i w (wraps w x).
Proof.
  intros Hw; unfold wraps, in_i.
  assert (2 ^ w = 2 * 2 ^ (w - 1)) by (rewrite <- Z.pow_succ_r by lia; f_equal; lia).
  pose proof (Z.mod_pos_bound (x + 2 ^ (w - 1)) (2 ^ w) ltac:(lia)); lia.
Qed.

(** The low [w] bits of a sum do not see a wrap of a summand. *)
Lemma wrapu_add_l (w x y : Z) : wrapu w (wrapu w x + y) = wrapu w (x + y).
Proof. apply Zplus_mod_idemp_l. Qed.

Lemma wraps_wrapu (w x : Z) : 0 < w -> wraps w (wrapu w x) = wraps w x.
Proof. intros Hw. unfold wraps, wrapu. by rewrite Zplus_mod_idemp_l. Qed.

(** ** Strings *)

(** [pgagroal_strcmp]: equality of two C strings neither of which is NULL. *)
Definition streq (a b : string) : bool := bool_decide (a = b).

Lemma streq_true (a b : string) : streq a b = true <-> a = b.
Proof. apply bool_decide_eq_true. Qed.

Lemma streq_false (a b : string) : streq a b = false <-> a <> b.
Proof. apply bool_decide_eq_false. Qed.

Lemma streq_refl (a : string) : streq a a = true.
Proof. by apply streq_true. Qed.

Lemma sapp_assoc (a b c : string) : (a +:+ b) +:+ c = a +:+ (b +:+ c).
Proof. induction a as [|x a IH]; [done|]. apply (f_equal (String x)), IH. Qed.

Lemma sapp_nil_r (a : string) : a +:+ "" = a.
Proof. induction a as [|x a IH]; [done|]. apply (f_equal (String x)), IH. Qed.

Lemma slength_app (a b : string) : String.length (a +:+ b) = (String.length a + String.length b)%nat.
Proof. induction a as [|x a IH]; [done|]. apply (f_equal S), IH. Qed.

(** [memcpy(dst, src, MIN(strlen(src), n - 1))] into a zeroed [char dst[n]]. *)
Definition strtrunc (n : nat) (s : string) : string := String.substring 0 (n - 1) s.

(** ** Arrays

    A C array is a list; a read takes the default of an [Inhabited] element
    type outside the array, a write outside it changes nothing. *)

Lemma lookup_total_insert_eq `{Inhabited A} (l : list A) (i : nat) (x : A) :
  (i < length l)%nat -> <[i:=x]> l !!! i = x.
Proof. intros. by apply list_lookup_total_insert_eq. Qed.

Lemma lookup_total_insert_ne `{Inhabited A} (l : list A) (i j : nat) (x : A) :
  i <> j -> <[i:=x]> l !!! j = l !!! j.
Proof. intros. by apply list_lookup_total_insert_ne. Qed.

Lemma insert_lookup_total `{Inhabited A} (l : list A) (i : nat) :
  <[i:=l !!! i]> l = l.
Proof.
  destruct (decide (i < length l)%nat) as [Hi|Hi].
  - apply list_insert_id, list_lookup_lookup_total_lt, Hi.
  - apply list_insert_ge; lia.
Qed.

(** The index list of a loop [for (i = 0; i < n; i++)] and of the loop
    [for (i = n - 1; i >= 0; i--)]. *)
Definition upto (n : Z) : list nat := seq 0 (Z.to_nat n).
Definition downfrom (n : Z) : list nat := reverse (upto n).

Lemma elem_of_upto (n : Z) (i : nat) : i ∈ upto n <-> Z.of_nat i < n.
Proof. unfold upto; rewrite elem_of_seq; lia. Qed.

Lemma elem_of_downfrom (n : Z) (i : nat) : i ∈ downfrom n <-> Z.of_nat i < n.
Proof. unfold downfrom; rewrite elem_of_reverse; apply elem_of_upto. Qed.

Lemma NoDup_upto (n : Z) : NoDup (upto n).
Proof. apply NoDup_seq. Qed.

Lemma NoDup_downfrom (n : Z) : NoDup (downfrom n).
Proof. unfold downfrom. rewrite reverse_Permutation. apply NoDup_upto. Qed.

(** ** Automation *)

Create HintDb pgagroal.
Create Rewrite HintDb pgbool.

#[export] Hint Resolve wrapu_id wrapu_range wraps_id wraps_range streq_refl
  NoDup_upto NoDup_downfrom : pgagroal.
#[export] Hint Rewrite streq_true streq_false bool_decide_eq_true bool_decide_eq_false
  Bool.andb_true_iff Bool.orb_false_iff Bool.negb_true_iff Bool.negb_false_iff
  Z.leb_le Z.ltb_lt Z.leb_gt Z.ltb_ge Z.eqb_eq Z.eqb_neq : pgbool.

(** Turn the boolean tests of the code, in hypotheses, into propositions. *)
Ltac bool_prop := autorewrite with pgbool in *.

(** Split the innermost [if] or [match] scrutinee of the goal. *)
Ltac case_if :=
  match goal with
  | |- context [if ?b then _ else _] =>
      lazymatch b with
      | context [if _ then _ else _] => fail
      | _ => let E := fresh "E" in destruct b eqn:E
      end
  end.
