(* ===== verification/Utf8.v ===== *)
(** * UTF-8 ([libpgagroal/utf8.c])

    The validator of user names and passwords.  A buffer is a list of bytes
    (integers in [0..255]); the loops keep the index [i] of the code and take fuel,
    one unit per iteration, for which the length of the buffer is always enough.
    The theorems relate the validator to the encoding of RFC 3629, given here by
    [encode]: a buffer is accepted exactly when it is the encoding of some
    sequence of Unicode scalar values, and then [pgagroal_utf8_char_length] is the
    number of these values. *)

From S2P Require Import Prelude.

Local Open Scope Z_scope.

(** ** The code *)

(** [pgagroal_utf8_sequence_valid]: the cases of the outer [switch] fall through. *)
Definition utf8_continuation (a : Z) : bool := negb ((a <? 0x80) || (0xBF <? a)).

Definition utf8_first_valid (source : list Z) : bool :=
  let a := source !!! 0%nat in
  if (0x80 <=? a) && (a <? 0xC2) then false
  else if 0xF4 <? a then false
  else true.

Definition utf8_second_valid (source : list Z) : bool :=
  let a := source !!! 1%nat in
  let s0 := source !!! 0%nat in
  if s0 =? 0xE0 then negb ((a <? 0xA0) || (0xBF <? a))
  else if s0 =? 0xED then negb ((a <? 0x80) || (0x9F <? a))
  else if s0 =? 0xF0 then negb ((a <? 0x90) || (0xBF <? a))
  else if s0 =? 0xF4 then negb ((a <? 0x80) || (0x8F <? a))
  else utf8_continuation a.

Definition utf8_sequence_valid (source : list Z) (length : Z) : bool :=
  if length =? 4 then
    utf8_continuation (source !!! 3%nat) && (utf8_continuation (source !!! 2%nat)
      && (utf8_second_valid source && utf8_first_valid source))
  else if length =? 3 then
    utf8_continuation (source !!! 2%nat) && (utf8_second_valid source && utf8_first_valid source)
  else if length =? 2 then utf8_second_valid source && utf8_first_valid source
  else if length =? 1 then utf8_first_valid source
  else false.

(** [pgagroal_utf8_sequence_length]. *)
Definition utf8_sequence_length (first_byte : Z) : Z :=
  if first_byte <? 0x80 then 1
  else if Z.land first_byte 0xE0 =? 0xC0 then 2
  else if Z.land first_byte 0xF0 =? 0xE0 then 3
  else if Z.land first_byte 0xF8 =? 0xF0 then 4
  else -1.

(** The loop of [pgagroal_utf8_char_length]; [None] is the invalid return [(size_t)-1]. *)
Fixpoint utf8_char_length_loop (fuel : nat) (buf : list Z) (count i : Z) : option Z :=
  if i <? Z.of_nat (length buf) then
    match fuel with
    | O => None
    | S fuel =>
        let seq_length := utf8_sequence_length (buf !!! Z.to_nat i) in
        if seq_length <? 0 then None
        else if Z.of_nat (length buf) <? i + seq_length then None
        else if negb (utf8_sequence_valid (drop (Z.to_nat i) buf) seq_length) then None
        else utf8_char_length_loop fuel buf (count + 1) (i + seq_length)
    end
  else Some count.

Definition utf8_char_length (buf : list Z) : option Z :=
  utf8_char_length_loop (length buf) buf 0 0.

(** The loop of [pgagroal_utf8_valid]. *)
Fixpoint utf8_valid_loop (fuel : nat) (buf : list Z) (i : Z) : bool :=
  if i <? Z.of_nat (length buf) then
    match fuel with
    | O => false
    | S fuel =>
        let seq_length := utf8_sequence_length (buf !!! Z.to_nat i) in
        if seq_length <? 0 then false
        else if Z.of_nat (length buf) <? i + seq_length then false
        else if negb (utf8_sequence_valid (drop (Z.to_nat i) buf) seq_length) then false
        else utf8_valid_loop fuel buf (i + seq_length)
    end
  else true.

Definition utf8_valid (buf : list Z) : bool := utf8_valid_loop (length buf) buf 0.

(** [pgagroal_is_ascii]. *)
Definition is_ascii (buf : list Z) : bool := forallb (fun c => negb (127 <? c)) buf.

(** ** The encoding of RFC 3629 *)

Definition scalar (cp : Z) : Prop := 0 <= cp < 0xD800 \/ 0xE000 <= cp <= 0x10FFFF.

Definition encode (cp : Z) : list Z :=
  if cp <? 0x80 then [cp]
  else if cp <? 0x800 then [0xC0 + cp / 64; 0x80 + cp mod 64]
  else if cp <? 0x10000 then [0xE0 + cp / 4096; 0x80 + (cp / 64) mod 64; 0x80 + cp mod 64]
  else [0xF0 + cp / 262144; 0x80 + (cp / 4096) mod 64; 0x80 + (cp / 64) mod 64; 0x80 + cp mod 64].

Definition bytes (buf : list Z) : Prop := Forall (fun b => 0 <= b < 256) buf.

(** ** One sequence *)

Definition sequence_length_ranges (a : Z) : Z :=
  if a <? 0x80 then 1
  else if a <? 0xC0 then -1
  else if a <? 0xE0 then 2
  else if a <? 0xF0 then 3
  else if a <? 0xF8 then 4
  else -1.

(** The bit masks select ranges of the first byte. *)
Lemma sequence_length_eq (a : Z) :
  0 <= a < 256 -> utf8_sequence_length a = sequence_length_ranges a.
Proof.
  intros Ha.
  assert (forallb (fun n => utf8_sequence_length (Z.of_nat n) =? sequence_length_ranges (Z.of_nat n))
    (seq 0 256) = true) as H by (vm_compute; reflexivity).
  rewrite forallb_forall in H. specialize (H (Z.to_nat a)).
  rewrite Z2Nat.id in H by lia. apply Z.eqb_eq, H, in_seq. lia.
Qed.

(** The tests on single bytes, as ranges. *)
Lemma continuation_spec (a : Z) : utf8_continuation a = true <-> 0x80 <= a <= 0xBF.
Proof. unfold utf8_continuation. bool_prop. lia. Qed.

Lemma first_valid_spec (source : list Z) :
  utf8_first_valid source = true <-> source !!! 0%nat < 0x80 \/ 0xC2 <= source !!! 0%nat <= 0xF4.
Proof.
  unfold utf8_first_valid. destruct (_ && _) eqn:E; [bool_prop; split; [done|lia]|].
  rewrite Bool.andb_false_iff, Z.leb_gt, Z.ltb_ge in E.
  destruct (Z.ltb_spec 0xF4 (source !!! 0%nat)); split; try done; lia.
Qed.

Lemma second_valid_spec (source : list Z) :
  let s0 := source !!! 0%nat in let a := source !!! 1%nat in
  utf8_second_valid source = true <->
  0x80 <= a <= 0xBF /\ (s0 = 0xE0 -> 0xA0 <= a) /\ (s0 = 0xED -> a <= 0x9F) /\
  (s0 = 0xF0 -> 0x90 <= a) /\ (s0 = 0xF4 -> a <= 0x8F).
Proof.
  simpl. unfold utf8_second_valid.
  destruct (Z.eqb_spec (source !!! 0%nat) 0xE0); [bool_prop; lia|].
  destruct (Z.eqb_spec (source !!! 0%nat) 0xED); [bool_prop; lia|].
  destruct (Z.eqb_spec (source !!! 0%nat) 0xF0); [bool_prop; lia|].
  destruct (Z.eqb_spec (source !!! 0%nat) 0xF4); [bool_prop; lia|].
  rewrite continuation_spec. lia.
Qed.

#[local] Hint Rewrite continuation_spec first_valid_spec second_valid_spec : pgbool.

(** An encoded scalar value is a sequence the validator accepts, whatever follows. *)
Lemma sequence_accepts (cp : Z) (rest : list Z) :
  scalar cp ->
  utf8_sequence_length ((encode cp ++ rest) !!! 0%nat) = Z.of_nat (length (encode cp)) /\
  utf8_sequence_valid (encode cp ++ rest) (Z.of_nat (length (encode cp))) = true.
Proof.
  intros Hs. unfold scalar in Hs. unfold encode.
  destruct (Z.ltb_spec cp 0x80); [|destruct (Z.ltb_spec cp 0x800); [|destruct (Z.ltb_spec cp 0x10000)]];
    (split; [cbn [app length]; rewrite sequence_length_eq; unfold sequence_length_ranges; simpl;
             Z.to_euclidean_division_equations;
             repeat (case_if; bool_prop); lia|]);
    unfold utf8_sequence_valid; simpl; bool_prop; simpl; Z.to_euclidean_division_equations; lia.
Qed.

(** Recompose a scalar value from its bytes. *)
Ltac recompose :=
  split; [unfold scalar; lia|]; unfold encode; repeat (case_if; bool_prop); try lia; split; [|done];
  repeat (apply f_equal2; [Z.to_euclidean_division_equations; lia|]); done.

(** A sequence the validator accepts encodes a scalar value. *)
Lemma sequence_decodes (source : list Z) :
  bytes source -> (0 < length source)%nat ->
  let n := utf8_sequence_length (source !!! 0%nat) in
  n <= Z.of_nat (length source) -> utf8_sequence_valid source n = true ->
  exists cp, scalar cp /\ take (Z.to_nat n) source = encode cp /\ n = Z.of_nat (length (encode cp)).
Proof.
  intros Hb Hl n Hn Hv. unfold n in *; clear n.
  assert (0 <= source !!! 0%nat < 256) as Ha.
  { destruct source as [|a source]; [simpl in Hl; lia|]. by inversion Hb. }
  rewrite sequence_length_eq in * by done. unfold sequence_length_ranges in *.
  destruct (Z.ltb_spec (source !!! 0%nat) 0x80); [|destruct (Z.ltb_spec (source !!! 0%nat) 0xC0);
    [done|destruct (Z.ltb_spec (source !!! 0%nat) 0xE0); [|destruct (Z.ltb_spec (source !!! 0%nat) 0xF0);
      [|destruct (Z.ltb_spec (source !!! 0%nat) 0xF8); [|done]]]]].
  - destruct source as [|a l]; [done|]. simpl in *. exists a. unfold scalar, encode.
    replace (a <? 0x80) with true by (symmetry; apply Z.ltb_lt; lia). repeat split; try done; lia.
  - destruct source as [|a [|b l]]; [done..|]. unfold utf8_sequence_valid in Hv. simpl in *. bool_prop. simpl in *.
    exists ((a - 0xC0) * 64 + (b - 0x80)). recompose.
  - destruct source as [|a [|b [|c l]]]; [done..|]. unfold utf8_sequence_valid in Hv. simpl in *. bool_prop. simpl in *.
    exists ((a - 0xE0) * 4096 + (b - 0x80) * 64 + (c - 0x80)). recompose.
  - destruct source as [|a [|b [|c [|d l]]]]; [done..|]. unfold utf8_sequence_valid in Hv. simpl in *. bool_prop.
    simpl in *. exists ((a - 0xF0) * 262144 + (b - 0x80) * 4096 + (c - 0x80) * 64 + (d - 0x80)).
    recompose.
Qed.

(** ** Whole buffers *)

Definition encode_all (cps : list Z) : list Z := concat (map encode cps).

Lemma encode_length (cp : Z) : (0 < length (encode cp))%nat.
Proof. unfold encode. repeat case_if; simpl; lia. Qed.

Lemma total_lookup_app_here (pre rest : list Z) : (pre ++ rest) !!! length pre = rest !!! 0%nat.
Proof. rewrite <- (Nat.add_0_r (length pre)). rewrite lookup_total_app_r by lia. f_equal; lia. Qed.

(** One iteration on an encoded value. *)
Lemma char_length_loop_step (fuel : nat) (pre rest : list Z) (cp count : Z) :
  scalar cp ->
  utf8_char_length_loop (S fuel) (pre ++ encode cp ++ rest) count (Z.of_nat (length pre)) =
  utf8_char_length_loop fuel ((pre ++ encode cp) ++ rest) (count + 1) (Z.of_nat (length (pre ++ encode cp))).
Proof.
  intros Hs. destruct (sequence_accepts cp rest Hs) as [Hn Hv]. pose proof (encode_length cp).
  cbn [utf8_char_length_loop]. rewrite Nat2Z.id, total_lookup_app_here, Hn, drop_app_length, Hv.
  rewrite <- !app_assoc, !length_app.
  replace (_ <? _) with true by (symmetry; apply Z.ltb_lt; lia).
  replace (Z.of_nat (length (encode cp)) <? 0) with false by (symmetry; apply Z.ltb_ge; lia).
  replace (_ <? _ + _) with false by (symmetry; apply Z.ltb_ge; lia).
  cbn [negb]. f_equal. lia.
Qed.

Lemma char_length_complete (cps pre : list Z) (fuel : nat) (count : Z) :
  Forall scalar cps -> (length (encode_all cps) <= fuel)%nat ->
  utf8_char_length_loop fuel (pre ++ encode_all cps) count (Z.of_nat (length pre))
  = Some (count + Z.of_nat (length cps)).
Proof.
  intros Hs. revert pre fuel count. induction Hs as [|cp cps Hcp Hs IH]; intros pre fuel count Hf.
  - unfold encode_all; simpl. rewrite app_nil_r. destruct fuel; simpl; rewrite Z.ltb_irrefl; f_equal; lia.
  - unfold encode_all in *; simpl in *. rewrite length_app in Hf. pose proof (encode_length cp).
    destruct fuel as [|fuel]; [lia|]. rewrite char_length_loop_step by done.
    rewrite IH by lia. f_equal. lia.
Qed.

Lemma char_length_sound (fuel : nat) (pre rest : list Z) (count n : Z) :
  bytes rest -> utf8_char_length_loop fuel (pre ++ rest) count (Z.of_nat (length pre)) = Some n ->
  exists cps, Forall scalar cps /\ rest = encode_all cps /\ n = count + Z.of_nat (length cps).
Proof.
  revert pre rest count. induction fuel as [|fuel IH]; intros pre rest count Hb H.
  { simpl in H. destruct (Z.ltb_spec (Z.of_nat (length pre)) (Z.of_nat (length (pre ++ rest)))) as [|Hl]; [done|].
    rewrite length_app in Hl. destruct rest; [|simpl in Hl; lia]. exists []. simplify_eq. repeat split; [done|simpl; lia]. }
  destruct rest as [|b rest'] eqn:Er.
  { simpl in H. rewrite app_nil_r, Z.ltb_irrefl in H. exists []. simplify_eq. repeat split; [done|simpl; lia]. }
  rewrite <- Er in *. assert (0 < length rest)%nat as Hl by (rewrite Er; simpl; lia). clear b rest' Er.
  cbn [utf8_char_length_loop] in H. rewrite Nat2Z.id, total_lookup_app_here, drop_app_length, length_app in H.
  destruct (_ <? _) eqn:E in H; bool_prop; [clear E|lia].
  destruct (Z.ltb_spec (utf8_sequence_length (rest !!! 0%nat)) 0) as [|_]; [done|].
  destruct (Z.ltb_spec (Z.of_nat (length pre + length rest)) (Z.of_nat (length pre) + utf8_sequence_length (rest !!! 0%nat)))
    as [|Hle]; [done|].
  destruct (utf8_sequence_valid rest _) eqn:Ev; [|done]. cbn [negb] in H.
  destruct (sequence_decodes rest Hb Hl ltac:(lia) Ev) as (cp & Hs & Ht & Hn).
  rewrite Hn, Nat2Z.id in Ht. rewrite Hn in H.
  rewrite <- (take_drop (length (encode cp)) rest), Ht in H |- *.
  rewrite app_assoc in H.
  replace (Z.of_nat (length pre) + Z.of_nat (length (encode cp))) with (Z.of_nat (length (pre ++ encode cp))) in H
    by (rewrite length_app; lia).
  apply IH in H as (cps & Hcps & -> & ->); [|by apply Forall_drop].
  exists (cp :: cps). repeat split; [by constructor|simpl; lia].
Qed.

(** [pgagroal_utf8_char_length] accepts exactly the encodings of sequences of
    Unicode scalar values, and answers how many values were encoded. *)
Theorem utf8_char_length_spec (buf : list Z) (n : Z) (Hb : bytes buf) :
  utf8_char_length buf = Some n <->
  exists cps, Forall scalar cps /\ buf = encode_all cps /\ n = Z.of_nat (length cps).
Proof.
  unfold utf8_char_length. split.
  - intros H. apply (char_length_sound _ [] buf 0 n Hb) in H as (cps & ? & ? & ->). by exists cps.
  - intros (cps & Hs & -> & ->). by apply (char_length_complete cps [] _ 0).
Qed.

Lemma utf8_valid_char_length_loop (fuel : nat) (buf : list Z) (count i : Z) :
  utf8_valid_loop fuel buf i = bool_decide (is_Some (utf8_char_length_loop fuel buf count i)).
Proof.
  revert count i. induction fuel as [|fuel IH]; intros count i; simpl; destruct (_ <? _); try done.
  destruct (_ <? 0); [done|]. destruct (_ <? _); [done|]. destruct (negb _); [done|]. apply IH.
Qed.

(** C40: [pgagroal_utf8_valid] accepts a buffer exactly when it is the RFC 3629
    encoding of some sequence of Unicode scalar values: overlong forms, surrogates,
    values above U+10FFFF, stray continuation bytes and truncation are refused. *)
Theorem utf8_valid_spec (buf : list Z) (Hb : bytes buf) :
  utf8_valid buf = true <-> exists cps, Forall scalar cps /\ buf = encode_all cps.
Proof.
  unfold utf8_valid. rewrite (utf8_valid_char_length_loop _ _ 0), bool_decide_eq_true.
  split.
  - intros [n H]. apply (char_length_sound _ [] buf 0 n Hb) in H as (cps & ? & ? & _). by exists cps.
  - intros (cps & Hs & ->). eexists. by apply (char_length_complete cps [] _ 0).
Qed.

Lemma ascii_encode (buf : list Z) :
  bytes buf -> is_ascii buf = true -> Forall scalar buf /\ encode_all buf = buf.
Proof.
  unfold is_ascii. induction 1 as [|b buf Hb Hbs IH]; [done|]. simpl. intros H. bool_prop. destruct H as [H1 H2].
  destruct (IH H2) as [IH1 IH2]. split; [constructor; [unfold scalar; lia|done]|].
  unfold encode_all in *; simpl. rewrite IH2. unfold encode.
  by replace (b <? 0x80) with true by (symmetry; apply Z.ltb_lt; lia).
Qed.

(** Every ASCII buffer is valid UTF-8 with one character per byte. *)
Theorem ascii_is_utf8 (buf : list Z) (Hb : bytes buf) (Ha : is_ascii buf = true) :
  utf8_valid buf = true /\ utf8_char_length buf = Some (Z.of_nat (length buf)).
Proof.
  destruct (ascii_encode buf Hb Ha) as [Hs He].
  pose proof (char_length_complete buf [] (length buf) 0 Hs) as H. rewrite He in H. specialize (H ltac:(lia)).
  unfold utf8_valid. rewrite (utf8_valid_char_length_loop _ _ 0). unfold utf8_char_length.
  change (Z.of_nat (length [])) with 0 in H. simpl app in H. rewrite H. split; [by apply bool_decide_eq_true|done].
Qed.

(** ** Instances *)

(** "e-acute, euro sign, an emoji": 2, 3 and 4 bytes. *)
Definition utf8_example : list Z := [0xC3; 0xA9; 0xE2; 0x82; 0xAC; 0xF0; 0x9F; 0x98; 0x80].

Lemma utf8_example_bytes : bytes utf8_example.
Proof. repeat constructor; lia. Qed.

Lemma utf8_char_length_spec_witness :
  exists cps, Forall scalar cps /\ utf8_example = encode_all cps /\ 3 = Z.of_nat (length cps).
Proof. apply (utf8_char_length_spec utf8_example 3 utf8_example_bytes). reflexivity. Defined.

(** The overlong form of "/" encodes nothing. *)
Lemma utf8_valid_spec_witness :
  ~ (exists cps, Forall scalar cps /\ [0xC0; 0xAF] = encode_all cps).
Proof.
  rewrite <- (utf8_valid_spec [0xC0; 0xAF]); [discriminate|]. repeat constructor; lia.
Defined.

Lemma ascii_is_utf8_witness : utf8_valid [65; 66; 10] = true /\ utf8_char_length [65; 66; 10] = Some 3.
Proof. apply (ascii_is_utf8 [65; 66; 10]); [repeat constructor; lia|reflexivity]. Defined.
