(* ===== verification/Wire.v ===== *)
(** * The wire: integers in network order ([libpgagroal/utils.c])

    A block of memory is a list of bytes (integers in [0..255]).  A read or a write
    outside the block is undefined behaviour and ends the model's computation with
    [None]. *)

From S2P Require Import Prelude.

Local Open Scope Z_scope.

(** ** Memory *)

Definition bytes_ok (l : list Z) : Prop := Forall (fun b => 0 <= b < 256) l.

(** [memcpy(dst, data + off, n)] as the bytes read. *)
Definition region (data : list Z) (off n : Z) : option (list Z) :=
  if (0 <=? off) && (0 <=? n) && (off + n <=? Z.of_nat (length data))
  then Some (take (Z.to_nat n) (drop (Z.to_nat off) data))
  else None.

(** [memcpy(data + off, bs, n)]. *)
Definition store (data : list Z) (off : Z) (bs : list Z) : option (list Z) :=
  if (0 <=? off) && (off + Z.of_nat (length bs) <=? Z.of_nat (length data))
  then Some (take (Z.to_nat off) data ++ bs ++ drop (Z.to_nat off + length bs) data)
  else None.

(** The bytes of an [n]-byte integer, lowest first, and back. *)
Fixpoint le_bytes (n : nat) (v : Z) : list Z :=
  match n with O => [] | S n => v mod 256 :: le_bytes n (v / 256) end.

Fixpoint le_value (bs : list Z) : Z :=
  match bs with [] => 0 | b :: bs => b + 256 * le_value bs end.

(** How the host lays an integer out in memory. *)
Definition host_bytes (big : bool) (n : nat) (v : Z) : list Z :=
  if big then rev (le_bytes n v) else le_bytes n v.

Definition host_value (big : bool) (bs : list Z) : Z :=
  le_value (if big then rev bs else bs).

(** [htonl], [ntohl], [htons], [ntohs]: nothing on a big-endian host, a reversal of
    the [n] bytes on the others. *)
Definition swap_to_network (big : bool) (n : nat) (v : Z) : Z :=
  if big then v else le_value (rev (le_bytes n v)).

(** ** Integers *)

Section integers.
(** [pgagroal_bigendian]. *)
Context (bigendian : bool).

Definition read_byte (data : list Z) (off : Z) : option Z :=
  bs ← region data off 1; Some (i8 (le_value bs)).

Definition read_uint8 (data : list Z) (off : Z) : option Z :=
  bs ← region data off 1; Some (u8 (le_value bs)).

Definition read_int16 (data : list Z) (off : Z) : option Z :=
  bs ← region data off 2;
  Some (i16 (swap_to_network bigendian 2 (host_value bigendian bs))).

Definition read_int32 (data : list Z) (off : Z) : option Z :=
  bs ← region data off 4;
  Some (i32 (swap_to_network bigendian 4 (host_value bigendian bs))).

Definition read_uint32 (data : list Z) (off : Z) : option Z :=
  bs ← region data off 4;
  Some (u32 (swap_to_network bigendian 4 (host_value bigendian bs))).

(** [pgagroal_read_long]: the little-endian branch shifts and ors the bytes. *)
Definition read_long (data : list Z) (off : Z) : option Z :=
  bs ← region data off 8;
  Some (if bigendian then i64 (host_value true bs)
        else i64 (Z.lor (Z.shiftl (bs !!! 0%nat) 56) (Z.lor (Z.shiftl (bs !!! 1%nat) 48)
                 (Z.lor (Z.shiftl (bs !!! 2%nat) 40) (Z.lor (Z.shiftl (bs !!! 3%nat) 32)
                 (Z.lor (Z.shiftl (bs !!! 4%nat) 24) (Z.lor (Z.shiftl (bs !!! 5%nat) 16)
                 (Z.lor (Z.shiftl (bs !!! 6%nat) 8) (bs !!! 7%nat))))))))).

Definition write_byte (data : list Z) (off b : Z) : option (list Z) := store data off [u8 b].
Definition write_uint8 (data : list Z) (off b : Z) : option (list Z) := store data off [u8 b].

Definition write_int16 (data : list Z) (off i : Z) : option (list Z) :=
  store data off (host_bytes bigendian 2 (swap_to_network bigendian 2 i)).

Definition write_int32 (data : list Z) (off i : Z) : option (list Z) :=
  store data off (host_bytes bigendian 4 (swap_to_network bigendian 4 i)).

Definition write_uint32 (data : list Z) (off i : Z) : option (list Z) :=
  store data off (host_bytes bigendian 4 (swap_to_network bigendian 4 i)).

(** [pgagroal_write_long]: the other branch copies byte [k] of [l] to [data + 7 - k]. *)
Definition write_long (data : list Z) (off l : Z) : option (list Z) :=
  if bigendian then store data off (host_bytes true 8 l)
  else
    let ptr := host_bytes false 8 l in
    foldl (fun d k => d ← d; store d (off + 7 - Z.of_nat k) [ptr !!! k]) (Some data) (seq 0 8).

(** [pgagroal_write_string]. *)
Definition write_string (data : list Z) (off : Z) (s : list Z) : option (list Z) := store data off s.
End integers.

(** [pgagroal_swap]. *)
Definition swap (i : Z) : Z :=
  Z.lor (Z.lor (Z.lor (Z.land (u32 (Z.shiftl i 24)) 0xff000000) (Z.land (u32 (Z.shiftl i 8)) 0x00ff0000))
           (Z.land (Z.shiftr i 8) 0x0000ff00)) (Z.land (Z.shiftr i 24) 0x000000ff).

(** ** Lemmas on memory and byte order *)

Lemma length_le_bytes (n : nat) (v : Z) : length (le_bytes n v) = n.
Proof. revert v; induction n; intros; simpl; auto. Qed.

Lemma le_bytes_ok (n : nat) (v : Z) : bytes_ok (le_bytes n v).
Proof. revert v; induction n; intros; constructor; [apply Z.mod_pos_bound; lia|apply IHn]. Qed.

Lemma le_value_bytes (n : nat) (v : Z) : le_value (le_bytes n v) = v mod 256 ^ Z.of_nat n.
Proof.
  revert v; induction n as [|n IH]; intros v; [by rewrite Z.mod_1_r|].
  cbn [le_bytes le_value]. rewrite IH, Nat2Z.inj_succ, Z.pow_succ_r by lia.
  assert (0 < 256 ^ Z.of_nat n) by (apply Z.pow_pos_nonneg; lia).
  rewrite Z.rem_mul_r by lia. lia.
Qed.

Lemma le_value_range (bs : list Z) : bytes_ok bs -> 0 <= le_value bs < 256 ^ Z.of_nat (length bs).
Proof.
  induction 1 as [|b bs Hb Hbs IH]; [simpl; lia|].
  cbn [le_value length]. rewrite Nat2Z.inj_succ, Z.pow_succ_r by lia. lia.
Qed.

Lemma le_bytes_value (bs : list Z) : bytes_ok bs -> le_bytes (length bs) (le_value bs) = bs.
Proof.
  induction 1 as [|b bs Hb Hbs IH]; [done|]. cbn [length le_bytes le_value].
  rewrite (Z.mul_comm 256), Z.mod_add, Z.mod_small, Z.div_add, Z.div_small, Z.add_0_l, IH by lia. done.
Qed.

Lemma bytes_ok_rev (bs : list Z) : bytes_ok bs -> bytes_ok (rev bs).
Proof. apply List.Forall_rev. Qed.

(** Integers travel with the highest byte first, whatever the host. *)
Lemma host_network_bytes (big : bool) (n : nat) (v : Z) :
  host_bytes big n (swap_to_network big n v) = rev (le_bytes n v).
Proof.
  unfold host_bytes, swap_to_network. destruct big; [done|].
  rewrite <- (le_bytes_value (rev (le_bytes n v))) at 2 by (apply bytes_ok_rev, le_bytes_ok).
  by rewrite length_rev, length_le_bytes.
Qed.

Lemma network_host_value (big : bool) (n : nat) (bs : list Z) :
  bytes_ok bs -> length bs = n -> swap_to_network big n (host_value big bs) = le_value (rev bs).
Proof.
  intros Hb <-. unfold host_value, swap_to_network. destruct big; [done|]. by rewrite le_bytes_value.
Qed.

Lemma region_store (data data' bs : list Z) (off : Z) :
  store data off bs = Some data' -> region data' off (Z.of_nat (length bs)) = Some bs.
Proof.
  unfold store, region. case_if; [|done]. intros [= <-]. bool_prop.
  rewrite !length_app, length_take, length_drop.
  case_if; [|rewrite !Bool.andb_false_iff, !Z.leb_gt in E0; lia].
  rewrite drop_app_length' by (rewrite length_take; lia). by rewrite Nat2Z.id, take_app_length.
Qed.

(** A store leaves the bytes before and after it alone. *)
Lemma store_frame (data data' bs : list Z) (off : Z) (i : nat) :
  store data off bs = Some data' ->
  (Z.of_nat i < off \/ off + Z.of_nat (length bs) <= Z.of_nat i) -> data' !! i = data !! i.
Proof.
  unfold store. case_if; [|done]. intros [= <-] Hi. bool_prop. destruct Hi.
  - rewrite lookup_app_l by (rewrite length_take; lia). apply lookup_take_lt; lia.
  - rewrite lookup_app_r by (rewrite length_take; lia).
    rewrite lookup_app_r by (rewrite length_take; lia). rewrite length_take, lookup_drop. f_equal; lia.
Qed.

Lemma store_length (data data' bs : list Z) (off : Z) :
  store data off bs = Some data' -> length data' = length data.
Proof.
  unfold store. case_if; [|done]. intros [= <-]. bool_prop. rewrite !length_app, length_take, length_drop. lia.
Qed.

Lemma store_ok (data bs : list Z) (off : Z) :
  0 <= off -> off + Z.of_nat (length bs) <= Z.of_nat (length data) -> is_Some (store data off bs).
Proof. intros. unfold store. case_if; [done|]. rewrite Bool.andb_false_iff, !Z.leb_gt in E. lia. Qed.

(** [lor] of a shifted byte and smaller bits is a sum. *)
Lemma lor_shiftl (b r k : Z) : 0 <= k -> 0 <= r < 2 ^ k -> Z.lor (Z.shiftl b k) r = 2 ^ k * b + r.
Proof.
  intros Hk Hr. assert (Z.land (Z.shiftl b k) r = 0) as Hz.
  { apply Z.bits_inj'. intros n Hn. rewrite Z.land_spec, Z.bits_0.
    destruct (Z.ltb_spec n k); [by rewrite Z.shiftl_spec_low|].
    rewrite <- (Z.mod_small r (2 ^ k)), Z.mod_pow2_bits_high by lia. apply Bool.andb_false_r. }
  rewrite <- Z.lxor_lor, <- Z.add_nocarry_lxor, Z.shiftl_mul_pow2 by done. lia.
Qed.

(** What a reader finds where a writer stored [v], on any two hosts. *)
Lemma network_read_write (big : bool) (n : nat) (v : Z) :
  swap_to_network big n (host_value big (rev (le_bytes n v))) = v mod 256 ^ Z.of_nat n.
Proof.
  rewrite network_host_value by (rewrite ?length_rev, ?length_le_bytes; auto using bytes_ok_rev, le_bytes_ok).
  by rewrite rev_involutive, le_value_bytes.
Qed.

(** The shifts and ors of [pgagroal_read_long] assemble the eight bytes. *)
Lemma read_long_value (big : bool) (data bs : list Z) (off : Z) :
  bytes_ok bs -> region data off 8 = Some bs -> length bs = 8%nat ->
  read_long big data off = Some (i64 (le_value (rev bs))).
Proof.
  intros Hb Hr Hl. unfold read_long. rewrite Hr. simpl. destruct big; [done|].
  destruct bs as [|b0 [|b1 [|b2 [|b3 [|b4 [|b5 [|b6 [|b7 [|]]]]]]]]]; try done.
  unfold bytes_ok in Hb. rewrite !Forall_cons in Hb.
  do 2 f_equal. cbn [lookup_total list_lookup_total rev app le_value].
  rewrite (lor_shiftl b6 b7 8), (lor_shiftl b5 _ 16), (lor_shiftl b4 _ 24), (lor_shiftl b3 _ 32),
    (lor_shiftl b2 _ 40), (lor_shiftl b1 _ 48), (lor_shiftl b0 _ 56) by lia. lia.
Qed.

Lemma store_mid (pre mid post : list Z) (p b : Z) :
  0 <= p < Z.of_nat (length mid) ->
  store (pre ++ mid ++ post) (Z.of_nat (length pre) + p) [b] = Some (pre ++ <[Z.to_nat p := b]> mid ++ post).
Proof.
  intros Hp. unfold store. simpl length. rewrite !length_app.
  case_if; [|rewrite Bool.andb_false_iff, !Z.leb_gt in E; lia]. f_equal. clear E.
  rewrite (insert_take_drop mid) by lia.
  rewrite take_app_ge, drop_app_ge by lia.
  replace (Z.to_nat (Z.of_nat (length pre) + p) - length pre)%nat with (Z.to_nat p) by lia.
  replace (Z.to_nat (Z.of_nat (length pre) + p) + 1 - length pre)%nat with (S (Z.to_nat p)) by lia.
  rewrite take_app_le, drop_app_le by lia. by rewrite <- !app_assoc.
Qed.

Lemma store_all (pre mid post bs : list Z) :
  length bs = length mid -> store (pre ++ mid ++ post) (Z.of_nat (length pre)) bs = Some (pre ++ bs ++ post).
Proof.
  intros Hl. unfold store. rewrite !length_app. case_if; [|rewrite Bool.andb_false_iff, !Z.leb_gt in E; lia].
  rewrite Nat2Z.id, take_app_length, Hl, <- drop_drop, drop_app_length, drop_app_length. done.
Qed.

(** Both branches of [pgagroal_write_long] store the bytes highest first. *)
Lemma write_long_store (big : bool) (data : list Z) (off l : Z) :
  0 <= off -> off + 8 <= Z.of_nat (length data) ->
  write_long big data off l = store data off (rev (le_bytes 8 l)).
Proof.
  intros Ho Hl. unfold write_long. destruct big; [done|].
  unfold host_bytes. cbv [seq foldl].
  assert (exists pre d0 d1 d2 d3 d4 d5 d6 d7 post,
    data = pre ++ [d0; d1; d2; d3; d4; d5; d6; d7] ++ post /\ Z.of_nat (length pre) = off) as
    (pre & d0 & d1 & d2 & d3 & d4 & d5 & d6 & d7 & post & -> & <-).
  { exists (take (Z.to_nat off) data).
    destruct (drop (Z.to_nat off) data) as [|d0 [|d1 [|d2 [|d3 [|d4 [|d5 [|d6 [|d7 post]]]]]]]] eqn:E;
      try (apply (f_equal length) in E; rewrite length_drop in E; simpl in E; lia).
    exists d0, d1, d2, d3, d4, d5, d6, d7, post. rewrite length_take. split; [|lia].
    simpl. rewrite <- E. symmetry. apply take_drop. }
  rewrite store_all by done. cbn [mbind option_bind].
  rewrite <- !Z.add_sub_assoc.
  do 8 (rewrite store_mid by (simpl; lia); cbn [mbind option_bind]). done.
Qed.

(** A 16, 32 or 64 bit integer written by one process is read back unchanged by
    another, whatever the byte order of the two hosts, and the write touches no byte
    around it. *)
Theorem integers_round_trip (big big' : bool) (data : list Z) (off v16 v32 w32 v64 : Z)
  (H16 : in_i 16 v16) (H32 : in_i 32 v32) (Hu32 : in_u 32 w32) (H64 : in_i 64 v64)
  (Ho : 0 <= off) (Hl : off + 8 <= Z.of_nat (length data)) :
  (exists d, write_int16 big data off v16 = Some d /\ read_int16 big' d off = Some v16 /\
     forall i, (Z.of_nat i < off \/ off + 2 <= Z.of_nat i) -> d !! i = data !! i) /\
  (exists d, write_int32 big data off v32 = Some d /\ read_int32 big' d off = Some v32 /\
     forall i, (Z.of_nat i < off \/ off + 4 <= Z.of_nat i) -> d !! i = data !! i) /\
  (exists d, write_uint32 big data off w32 = Some d /\ read_uint32 big' d off = Some w32 /\
     forall i, (Z.of_nat i < off \/ off + 4 <= Z.of_nat i) -> d !! i = data !! i) /\
  (exists d, write_long big data off v64 = Some d /\ read_long big' d off = Some v64 /\
     forall i, (Z.of_nat i < off \/ off + 8 <= Z.of_nat i) -> d !! i = data !! i).
Proof.
  assert (forall n v, (n <= 8)%nat -> exists d, store data off (rev (le_bytes n v)) = Some d /\
    region d off (Z.of_nat n) = Some (rev (le_bytes n v)) /\
    forall i, (Z.of_nat i < off \/ off + Z.of_nat n <= Z.of_nat i) -> d !! i = data !! i) as Hst.
  { intros n v Hn. assert (length (rev (le_bytes n v)) = n) as Hlen by (by rewrite length_rev, length_le_bytes).
    destruct (store_ok data (rev (le_bytes n v)) off) as [d Hd]; [done|lia|]. exists d. split; [done|].
    rewrite <- Hlen at 1. split; [by apply (region_store data)|]. intros i Hi.
    apply (store_frame _ _ _ _ _ Hd). lia. }
  unfold write_int16, write_int32, write_uint32, read_int16, read_int32, read_uint32.
  rewrite !host_network_bytes, write_long_store by done. repeat split.
  - destruct (Hst 2%nat v16) as (d & -> & Hr & Hf); [lia|]. change (Z.of_nat 2) with 2 in *. exists d. split; [done|]. split; [|done].
    rewrite Hr. cbn [mbind option_bind]. rewrite network_read_write. change (_ mod _) with (u16 v16). by rewrite wraps_wrapu, wraps_id.
  - destruct (Hst 4%nat v32) as (d & -> & Hr & Hf); [lia|]. change (Z.of_nat 4) with 4 in *. exists d. split; [done|]. split; [|done].
    rewrite Hr. cbn [mbind option_bind]. rewrite network_read_write. change (_ mod _) with (u32 v32). by rewrite wraps_wrapu, wraps_id.
  - destruct (Hst 4%nat w32) as (d & -> & Hr & Hf); [lia|]. change (Z.of_nat 4) with 4 in *. exists d. split; [done|]. split; [|done].
    rewrite Hr. cbn [mbind option_bind]. rewrite network_read_write. change (_ mod _) with (u32 w32). by rewrite !(wrapu_id 32 w32) by done.
  - destruct (Hst 8%nat v64) as (d & -> & Hr & Hf); [lia|]. change (Z.of_nat 8) with 8 in *. exists d. split; [done|]. split; [|done].
    rewrite (read_long_value big' d (rev (le_bytes 8 v64))); auto using bytes_ok_rev, le_bytes_ok.
    rewrite rev_involutive, le_value_bytes. change (_ mod _) with (u64 v64). by rewrite wraps_wrapu, wraps_id.
Qed.

(** A byte mask selects a byte. *)
Lemma land_byte (x k : Z) : 0 <= k -> Z.land x (Z.shiftl 255 k) = Z.shiftl ((x / 2 ^ k) mod 256) k.
Proof.
  intros Hk. change 255 with (Z.ones 8). change 256 with (2 ^ 8).
  rewrite <- Z.land_ones, <- Z.shiftr_div_pow2 by lia.
  apply Z.bits_inj'. intros n Hn. rewrite Z.land_spec. destruct (Z.ltb_spec n k).
  - rewrite !Z.shiftl_spec_low by lia. apply Bool.andb_false_r.
  - rewrite !Z.shiftl_spec_high, Z.land_spec, Z.shiftr_spec by lia. do 2 f_equal; lia.
Qed.

(** [pgagroal_swap] reverses the four bytes of an unsigned integer, so it is its
    own inverse. *)
Theorem swap_reverses (i : Z) (Hi : in_u 32 i) :
  swap i = le_value (rev (le_bytes 4 i)) /\ swap (swap i) = i.
Proof.
  assert (forall j, in_u 32 j -> swap j = le_value (rev (le_bytes 4 j))) as Hs.
  { intros j Hj. unfold in_u in Hj. unfold swap, wrapu. change 0xff000000 with (Z.shiftl 255 24).
    change 0x00ff0000 with (Z.shiftl 255 16). change 0x0000ff00 with (Z.shiftl 255 8).
    change 0x000000ff with (Z.shiftl 255 0).
    rewrite !land_byte by lia. cbn [le_bytes rev app le_value].
    assert ((Z.shiftl j 24 mod 2 ^ 32) / 2 ^ 24 mod 256 = j mod 256) as ->
      by (rewrite Z.shiftl_mul_pow2 by lia; Z.to_euclidean_division_equations; lia).
    assert ((Z.shiftl j 8 mod 2 ^ 32) / 2 ^ 16 mod 256 = (j / 256) mod 256) as ->
      by (rewrite Z.shiftl_mul_pow2 by lia; Z.to_euclidean_division_equations; lia).
    assert (Z.shiftr j 8 / 2 ^ 8 mod 256 = (j / 256 / 256) mod 256) as ->
      by (rewrite Z.shiftr_div_pow2 by lia; Z.to_euclidean_division_equations; lia).
    assert (Z.shiftr j 24 / 2 ^ 0 mod 256 = (j / 256 / 256 / 256) mod 256) as ->
      by (rewrite Z.shiftr_div_pow2 by lia; Z.to_euclidean_division_equations; lia).
    pose proof (Z.mod_pos_bound j 256). pose proof (Z.mod_pos_bound (j / 256) 256).
    pose proof (Z.mod_pos_bound (j / 256 / 256) 256). pose proof (Z.mod_pos_bound (j / 256 / 256 / 256) 256).
    rewrite <- !Z.lor_assoc, Z.shiftl_0_r, (lor_shiftl _ _ 8), (lor_shiftl _ _ 16), (lor_shiftl _ _ 24) by lia.
    lia. }
  split; [by apply Hs|]. rewrite (Hs i Hi).
  assert (bytes_ok (rev (le_bytes 4 i))) as Hb by (apply bytes_ok_rev, le_bytes_ok).
  pose proof (le_value_range _ Hb) as Hr. rewrite length_rev, length_le_bytes in Hr.
  rewrite Hs by exact Hr.
  rewrite <- (length_le_bytes 4 i) at 1. rewrite <- length_rev, le_bytes_value, rev_involutive, le_value_bytes by done.
  apply Z.mod_small, Hi.
Qed.

(** ** Instances *)

Definition block_example : list Z := replicate 12 0.

Lemma integers_round_trip_witness :
  exists d, write_int32 true block_example 3 (-5) = Some d /\ read_int32 false d 3 = Some (-5).
Proof.
  destruct (integers_round_trip true false block_example 3 7 (-5) 9 (-1)) as (_ & (d & H1 & H2 & _) & _);
    [unfold in_i, in_u; simpl; lia..|eauto].
Defined.

Lemma swap_reverses_witness : swap 0x01020304 = 0x04030201 /\ swap (swap 0x01020304) = 0x01020304.
Proof.
  destruct (swap_reverses 0x01020304) as [H1 H2]; [unfold in_u; simpl; lia|].
  split; [rewrite H1; reflexivity|exact H2].
Defined.
