(* ===== verification/Frames.v ===== *)
(** * PostgreSQL messages as they arrive ([libpgagroal/utils.c])

    The functions that take apart the startup packet of a client, the error messages
    of a server and a buffer with several messages.  They trust the lengths and the
    layout of the bytes they are given; the theorems say what they compute on well
    formed messages and what happens on two kinds of input they do not guard
    against. *)

From S2P Require Import Prelude Wire.
From Stdlib Require Import Ascii.

Local Open Scope Z_scope.

(** The bytes of a string literal. *)
Definition str (s : string) : list Z := map (fun c => Z.of_nat (nat_of_ascii c)) (String.list_ascii_of_string s).

(** [struct message]. *)
Record message := Message { m_kind : Z; m_length : Z; m_data : list Z }.

(** The outcome of a loop. *)
Inductive result (A : Type) : Type :=
| Done (a : A)
| Undefined
| Running.
Arguments Done {A} a.
Arguments Undefined {A}.
Arguments Running {A}.

(** ** The code *)

(** [pgagroal_get_request]. *)
Definition get_request (msg : option message) : option Z :=
  match msg with
  | None => Some (-1)
  | Some msg => if m_length msg <? 8 then Some (-1) else read_int32 false (m_data msg) 4
  end.

(** The first two loops of [pgagroal_extract_username_database]: the strings ended by
    a zero byte, each copied from [start] to [end]; [cur] holds the bytes from
    [start] on, last first. *)
Fixpoint startup_array (bs cur : list Z) : list (list Z) :=
  match bs with
  | [] => []
  | c :: bs => if c =? 0 then reverse cur :: startup_array bs [] else startup_array bs (c :: cur)
  end.

(** The three values the parameters are copied to. *)
Record startup := Startup { s_username : option (list Z); s_database : option (list Z); s_appname : option (list Z) }.

(** The third loop: entry [i] is compared with the names of the parameters, the value
    is entry [i + 1]. *)
Fixpoint startup_scan (array : list (list Z)) (r : startup) : option startup :=
  match array with
  | [] => Some r
  | a :: rest =>
      if bool_decide (a = str "user") then
        v ← head rest; startup_scan rest (Startup (Some v) (s_database r) (s_appname r))
      else if bool_decide (a = str "database") then
        v ← head rest; startup_scan rest (Startup (s_username r) (Some v) (s_appname r))
      else if bool_decide (a = str "application_name") then
        v ← head rest; startup_scan rest (Startup (s_username r) (s_database r) (Some v))
      else startup_scan rest r
  end.

(** [pgagroal_extract_username_database]: the database defaults to a copy of the user
    name, which [strdup] requires to be there. *)
Definition extract_username_database (msg : message) : option startup :=
  bs ← (if m_length msg - 1 <=? 8 then Some [] else region (m_data msg) 8 (m_length msg - 1 - 8));
  r ← startup_scan (startup_array bs []) (Startup None None None);
  match s_database r, s_username r with
  | Some _, _ => Some r
  | None, Some u => Some (Startup (Some u) (Some u) (s_appname r))
  | None, None => None
  end.

(** [pgagroal_extract_message]; [Done None] is the return value 1.  An [int] offset that
    overflows is undefined. *)
Fixpoint extract_message_loop (fuel : nat) (type : Z) (msg : message) (offset : Z) : result (option message) :=
  if offset <? m_length msg then
    match fuel with
    | O => Running
    | S fuel =>
        match read_byte (m_data msg) offset with
        | None => Undefined
        | Some t =>
            if type =? t then
              match m_length' ← read_int32 false (m_data msg) (offset + 1);
                    data ← region (m_data msg) offset (1 + m_length');
                    kind ← read_byte data 0;
                    Some (Message kind (1 + m_length') data) with
              | Some m => Done (Some m)
              | None => Undefined
              end
            else
              match read_int32 false (m_data msg) (offset + 1) with
              | None => Undefined
              | Some n =>
                  if offset + 1 + n <? 2 ^ 31 then extract_message_loop fuel type msg (offset + 1 + n)
                  else Undefined
              end
        end
    end
  else Done None.

Definition extract_message (fuel : nat) (type : Z) (msg : message) : result (option message) :=
  extract_message_loop fuel type msg 0.

(** [pgagroal_extract_message_offset]: the message and the next offset. *)
Definition extract_message_offset (offset : Z) (data : list Z) : option (Z * message) :=
  type ← read_byte data offset;
  m_length' ← read_int32 false data (offset + 1);
  m_data' ← region data offset (1 + m_length');
  Some (offset + 1 + m_length', Message type (1 + m_length') m_data').

(** [pgagroal_read_string]: the bytes up to the zero. *)
Fixpoint c_string (bs : list Z) : option (list Z) :=
  match bs with
  | [] => None
  | b :: bs => if b =? 0 then Some [] else s ← c_string bs; Some (b :: s)
  end.

Definition read_string (data : list Z) (off : Z) : option (list Z) :=
  if (0 <=? off) && (off <=? Z.of_nat (length data)) then c_string (drop (Z.to_nat off) data) else None.

(** The loop of [pgagroal_extract_error_message]; [Done None] leaves [*error] NULL. *)
Fixpoint extract_error_loop (fuel : nat) (msg : message) (max offset : Z) : result (option (list Z)) :=
  if offset <? max then
    match fuel with
    | O => Running
    | S fuel =>
        match read_byte (m_data msg) offset, read_string (m_data msg) (offset + 1) with
        | Some type, Some s =>
            if type =? 77 then Done (Some s)
            else extract_error_loop fuel msg max (offset + (1 + Z.of_nat (length s) + 1))
        | _, _ => Undefined
        end
    end
  else Done None.

(** [pgagroal_extract_error_message]; the outer [None] is the return value 1. *)
Definition extract_error_message (fuel : nat) (msg : message) : result (option (option (list Z))) :=
  if m_kind msg =? 69 then
    match read_int32 false (m_data msg) 1 with
    | None => Undefined
    | Some max =>
        match extract_error_loop fuel msg max 5 with
        | Done e => Done (Some e)
        | Undefined => Undefined
        | Running => Running
        end
    end
  else Done None.

(** ** Startup packets *)

Definition text (s : list Z) : Prop := Forall (fun b => 0 < b < 256) s.

(** The parameters as a client sends them: name, zero, value, zero. *)
Definition encode_params (ps : list (list Z * list Z)) : list Z :=
  concat (map (fun p => p.1 ++ [0] ++ p.2 ++ [0]) ps).

(** A startup packet: length, protocol version, parameters, a final zero. *)
Definition startup_message (version : Z) (ps : list (list Z * list Z)) : message :=
  let n := 8 + Z.of_nat (length (encode_params ps)) + 1 in
  Message 0 n (rev (le_bytes 4 n) ++ rev (le_bytes 4 version) ++ encode_params ps ++ [0]).

Lemma startup_array_text (s cur bs : list Z) :
  text s -> startup_array (s ++ 0 :: bs) cur = (reverse cur ++ s) :: startup_array bs [].
Proof.
  intros Hs. revert cur. induction Hs as [|b s Hb Hs IH]; intros cur; simpl; [by rewrite app_nil_r|].
  destruct (Z.eqb_spec b 0); [lia|]. rewrite IH, reverse_cons, <- app_assoc. done.
Qed.

Definition flatten (ps : list (list Z * list Z)) : list (list Z) := concat (map (fun p => [p.1; p.2]) ps).

Definition texts (ps : list (list Z * list Z)) : Prop := Forall (fun p => text p.1 /\ text p.2) ps.

Lemma startup_array_params (ps : list (list Z * list Z)) :
  texts ps -> startup_array (encode_params ps) [] = flatten ps.
Proof.
  induction 1 as [|[k v] ps [Hk Hv] Hps IH]; [done|]. unfold encode_params, flatten in *; simpl in *.
  rewrite <- app_assoc. simpl. rewrite startup_array_text by done. simpl.
  rewrite <- app_assoc. simpl. by rewrite startup_array_text, IH by done.
Qed.

Lemma extract_startup (version : Z) (ps : list (list Z * list Z)) :
  texts ps ->
  extract_username_database (startup_message version ps) =
    r ← startup_scan (flatten ps) (Startup None None None);
    match s_database r, s_username r with
    | Some _, _ => Some r
    | None, Some u => Some (Startup (Some u) (Some u) (s_appname r))
    | None, None => None
    end.
Proof.
  intros Hps. unfold extract_username_database, startup_message; cbn [m_length m_data].
  set (n := 8 + Z.of_nat (length (encode_params ps)) + 1).
  assert ((if n - 1 <=? 8 then Some []
           else region (rev (le_bytes 4 n) ++ rev (le_bytes 4 version) ++ encode_params ps ++ [0]) 8 (n - 1 - 8))
          = Some (encode_params ps)) as ->.
  { unfold n. destruct (Z.leb_spec (8 + Z.of_nat (length (encode_params ps)) + 1 - 1) 8).
    - destruct (encode_params ps); [done|simpl in *; lia].
    - unfold region. rewrite !length_app, !length_rev, !length_le_bytes. simpl length.
      case_if; [|rewrite !Bool.andb_false_iff, !Z.leb_gt in E; lia]. f_equal.
      rewrite app_assoc, drop_app_length' by (rewrite length_app, !length_rev, !length_le_bytes; done).
      apply take_app_length'. lia. }
  cbn [mbind option_bind]. by rewrite startup_array_params.
Qed.

(** The value of parameter [k], the last one if it is repeated. *)
Definition param_from (acc : option (list Z)) (ps : list (list Z * list Z)) (k : list Z) : option (list Z) :=
  foldl (fun acc p => if decide (p.1 = k) then Some p.2 else acc) acc ps.
Definition param := param_from None.

Definition keyword (s : list Z) : Prop := s = str "user" \/ s = str "database" \/ s = str "application_name".

Lemma startup_scan_other (a : list Z) (rest : list (list Z)) (r : startup) :
  ~ keyword a -> startup_scan (a :: rest) r = startup_scan rest r.
Proof. unfold keyword. intros H. cbn [startup_scan]. by rewrite !bool_decide_eq_false_2 by tauto. Qed.

Lemma startup_scan_user (v : list Z) (rest : list (list Z)) (r : startup) :
  startup_scan (str "user" :: v :: rest) r =
  startup_scan (v :: rest) (Startup (Some v) (s_database r) (s_appname r)).
Proof. reflexivity. Qed.

Lemma startup_scan_database (v : list Z) (rest : list (list Z)) (r : startup) :
  startup_scan (str "database" :: v :: rest) r =
  startup_scan (v :: rest) (Startup (s_username r) (Some v) (s_appname r)).
Proof. reflexivity. Qed.

Lemma startup_scan_application (v : list Z) (rest : list (list Z)) (r : startup) :
  startup_scan (str "application_name" :: v :: rest) r =
  startup_scan (v :: rest) (Startup (s_username r) (s_database r) (Some v)).
Proof. reflexivity. Qed.

Lemma startup_scan_params (ps : list (list Z * list Z)) (r : startup) :
  Forall (fun p => ~ keyword p.2) ps ->
  startup_scan (flatten ps) r =
    Some (Startup (param_from (s_username r) ps (str "user")) (param_from (s_database r) ps (str "database"))
            (param_from (s_appname r) ps (str "application_name"))).
Proof.
  intros H. revert r. induction H as [|[k v] ps Hv Hps IH]; intros r; [by destruct r|].
  change (flatten ((k, v) :: ps)) with (k :: v :: flatten ps). simpl in Hv.
  unfold param_from; cbn [foldl fst snd].
  destruct (decide (k = str "user")) as [->|Hu]; [|destruct (decide (k = str "database")) as [->|Hd];
    [|destruct (decide (k = str "application_name")) as [->|Ha]]].
  - by rewrite startup_scan_user, startup_scan_other, IH by done.
  - by rewrite startup_scan_database, startup_scan_other, IH by done.
  - by rewrite startup_scan_application, startup_scan_other, IH by done.
  - rewrite startup_scan_other by (unfold keyword; tauto). by rewrite startup_scan_other, IH by done.
Qed.

(** From a startup packet whose parameter values are not themselves named "user",
    "database" or "application_name", exactly the three parameters are extracted, the
    database defaulting to the user. *)
Theorem startup_extracted (version : Z) (ps : list (list Z * list Z)) (u : list Z)
  (Ht : texts ps) (Hv : Forall (fun p => ~ keyword p.2) ps) (Hu : param ps (str "user") = Some u) :
  extract_username_database (startup_message version ps) =
  Some (Startup (Some u) (Some (default u (param ps (str "database")))) (param ps (str "application_name"))).
Proof.
  rewrite extract_startup, startup_scan_params by done. cbn [mbind option_bind s_database s_username s_appname].
  unfold param in *. rewrite Hu. by destruct (param_from None ps (str "database")).
Qed.

(** A database that is called "user" is taken for the name of a parameter: the next
    name in the packet becomes the user name, and without a next one the scan reads past
    the end of its array. *)
Theorem database_named_user (version : Z) (u a : list Z) (Htu : text u) (Hta : text a)
  (Hu : ~ keyword u) (Ha : ~ keyword a) :
  extract_username_database
    (startup_message version [(str "user", u); (str "database", str "user"); (str "application_name", a)])
  = Some (Startup (Some (str "application_name")) (Some (str "user")) (Some a)) /\
  extract_username_database (startup_message version [(str "user", u); (str "database", str "user")]) = None.
Proof.
  assert (forall s, bool_decide (text (str s)) = true -> text (str s)) as Hs by (intros; by eapply bool_decide_eq_true).
  split; (rewrite extract_startup; [|repeat (apply Forall_cons; split); simpl; try split; try done; apply Hs; done]).
  - change (flatten _) with [str "user"; u; str "database"; str "user"; str "application_name"; a].
    rewrite startup_scan_user, startup_scan_other, startup_scan_database, startup_scan_user,
      startup_scan_application, startup_scan_other by done. done.
  - change (flatten _) with [str "user"; u; str "database"; str "user"].
    rewrite startup_scan_user, startup_scan_other, startup_scan_database by done. done.
Qed.

(** ** Several messages in one buffer *)

Lemma region_app (pre mid post : list Z) (off n : Z) :
  off = Z.of_nat (length pre) -> n = Z.of_nat (length mid) -> region (pre ++ mid ++ post) off n = Some mid.
Proof.
  intros -> ->. unfold region. rewrite !length_app.
  case_if; [|rewrite !Bool.andb_false_iff, !Z.leb_gt in E; lia].
  by rewrite !Nat2Z.id, drop_app_length, take_app_length.
Qed.

(** A message: its kind, the length of the rest, the payload. *)
Definition frame (f : Z * list Z) : list Z := f.1 :: rev (le_bytes 4 (4 + Z.of_nat (length f.2))) ++ f.2.
Definition frames (fs : list (Z * list Z)) : list Z := concat (map frame fs).

Definition frame_ok (f : Z * list Z) : Prop := 0 <= f.1 < 128 /\ Z.of_nat (length f.2) < 2 ^ 31 - 5.

Lemma length_frame (f : Z * list Z) : length (frame f) = (5 + length f.2)%nat.
Proof. unfold frame. cbn [length]. rewrite length_app, length_rev, length_le_bytes. lia. Qed.

Lemma read_byte_at (pre post : list Z) (b off : Z) :
  off = Z.of_nat (length pre) -> 0 <= b < 128 -> read_byte (pre ++ b :: post) off = Some b.
Proof.
  intros -> Hb. unfold read_byte. change (b :: post) with ([b] ++ post). rewrite (region_app pre [b] post) by done.
  simpl. f_equal. rewrite Z.add_0_r. apply wraps_id; [lia|]. unfold in_i. simpl. lia.
Qed.

Lemma read_int32_at (pre post : list Z) (v off : Z) :
  off = Z.of_nat (length pre) -> in_i 32 v ->
  read_int32 false (pre ++ rev (le_bytes 4 v) ++ post) off = Some v.
Proof.
  intros -> Hv. unfold read_int32.
  rewrite (region_app pre (rev (le_bytes 4 v)) post) by (rewrite ?length_rev, ?length_le_bytes; done).
  cbn [mbind option_bind]. rewrite network_read_write. change (_ mod _) with (u32 v). by rewrite wraps_wrapu, wraps_id.
Qed.

(** The header of a message at [offset]. *)
Lemma frame_header (pre post : list Z) (f : Z * list Z) (off : Z) :
  frame_ok f -> off = Z.of_nat (length pre) ->
  read_byte (pre ++ frame f ++ post) off = Some f.1 /\
  read_int32 false (pre ++ frame f ++ post) (off + 1) = Some (4 + Z.of_nat (length f.2)) /\
  region (pre ++ frame f ++ post) off (1 + (4 + Z.of_nat (length f.2))) = Some (frame f).
Proof.
  intros [Hk Hl] ->. split; [|split].
  - by apply read_byte_at.
  - unfold frame. cbn [app]. rewrite <- app_assoc, cons_middle, app_assoc.
    apply read_int32_at; [rewrite length_app; simpl; lia|]. unfold in_i; simpl; lia.
  - apply region_app; [done|]. rewrite length_frame. lia.
Qed.

Definition as_message (f : Z * list Z) : message := Message f.1 (Z.of_nat (length (frame f))) (frame f).

Lemma extract_message_frames (fs : list (Z * list Z)) (pre : list Z) (type kind : Z) (fuel : nat) :
  Forall frame_ok fs -> Z.of_nat (length (pre ++ frames fs)) < 2 ^ 31 -> (length fs <= fuel)%nat ->
  extract_message_loop fuel type
    (Message kind (Z.of_nat (length (pre ++ frames fs))) (pre ++ frames fs)) (Z.of_nat (length pre))
  = Done (as_message <$> List.find (fun f => type =? f.1) fs).
Proof.
  intros Hf. revert pre fuel. induction Hf as [|f fs Hok Hfs IH]; intros pre fuel Hlen Hfuel.
  { unfold frames; simpl. rewrite app_nil_r. destruct fuel; simpl; by rewrite Z.ltb_irrefl. }
  destruct fuel as [|fuel]; [simpl in Hfuel; lia|].
  change (frames (f :: fs)) with (frame f ++ frames fs) in *.
  destruct (frame_header pre (frames fs) f _ Hok eq_refl) as (Hb & Hn & Hr).
  cbn [extract_message_loop m_length m_data]. rewrite Hb, Hn.
  replace (_ <? _) with true by (symmetry; apply Z.ltb_lt; rewrite !length_app, length_frame; lia).
  simpl List.find. destruct (type =? f.1) eqn:Et.
  - cbn [mbind option_bind]. rewrite Hr. cbn [mbind option_bind].
    pose proof (read_byte_at [] _ f.1 0 eq_refl (proj1 Hok) : read_byte (frame f) 0 = _) as ->. cbn [mbind option_bind fmap option_fmap option_map].
    unfold as_message. rewrite length_frame. do 3 f_equal. lia.
  - replace (Z.of_nat (length pre) + 1 + (4 + Z.of_nat (length f.2))) with (Z.of_nat (length (pre ++ frame f)))
      by (rewrite length_app, length_frame; lia).
    rewrite app_assoc in *. rewrite length_app in Hlen.
    replace (_ <? _) with true by (symmetry; apply Z.ltb_lt; lia).
    apply IH; [by rewrite length_app|simpl in Hfuel; lia].
Qed.

(** In a buffer of well formed messages [pgagroal_extract_message] ends after at
    most one step per message, and returns the first one of the kind asked for, whole,
    or says that there is none. *)
Theorem extract_message_first (type kind : Z) (fs : list (Z * list Z)) (fuel : nat)
  (Hf : Forall frame_ok fs) (Hlen : Z.of_nat (length (frames fs)) < 2 ^ 31) (Hfuel : (length fs <= fuel)%nat) :
  extract_message fuel type (Message kind (Z.of_nat (length (frames fs))) (frames fs))
  = Done (as_message <$> List.find (fun f => type =? f.1) fs).
Proof. by apply (extract_message_frames fs []). Qed.

(** A message of another kind whose length field is -1 keeps the loop at the same
    offset for ever. *)
Theorem extract_message_stuck (type kind k : Z) (rest : list Z) (fuel : nat)
  (Hk : 0 <= k < 128) (Hne : type <> k) :
  extract_message fuel type
    (Message kind (5 + Z.of_nat (length rest)) (k :: rev (le_bytes 4 (-1)) ++ rest)) = Running.
Proof.
  unfold extract_message. induction fuel as [|fuel IH]; cbn [extract_message_loop m_length m_data].
  - by replace (_ <? _) with true by (symmetry; apply Z.ltb_lt; lia).
  - replace (_ <? _) with true by (symmetry; apply Z.ltb_lt; lia).
    pose proof (read_byte_at [] (rev (le_bytes 4 (-1)) ++ rest) k 0 eq_refl Hk : read_byte (k :: _) 0 = _) as ->.
    replace (type =? k) with false by (symmetry; by apply Z.eqb_neq).
    change (k :: ?l) with ([k] ++ l). rewrite (read_int32_at [k]) by (done || unfold in_i; simpl; lia).
    apply IH.
Qed.

(** ** Error messages *)

Definition field (f : Z * list Z) : list Z := f.1 :: f.2 ++ [0].
Definition fields (fs : list (Z * list Z)) : list Z := concat (map field fs).

(** An ErrorResponse: the fields and a final zero. *)
Definition error_message (fs : list (Z * list Z)) : message :=
  let n := 4 + Z.of_nat (length (fields fs)) + 1 in
  Message 69 (1 + n) (69 :: rev (le_bytes 4 n) ++ fields fs ++ [0]).

Definition field_ok (f : Z * list Z) : Prop := 0 < f.1 < 128 /\ text f.2.

Lemma c_string_text (s post : list Z) : text s -> c_string (s ++ 0 :: post) = Some s.
Proof.
  induction 1 as [|b s Hb Hs IH]; [done|]. simpl. destruct (Z.eqb_spec b 0); [lia|]. by rewrite IH.
Qed.

Lemma read_string_at (pre s post : list Z) (off : Z) :
  off = Z.of_nat (length pre) -> text s -> read_string (pre ++ s ++ 0 :: post) off = Some s.
Proof.
  intros -> Hs. unfold read_string. rewrite !length_app. case_if.
  - by rewrite Nat2Z.id, drop_app_length, c_string_text.
  - rewrite Bool.andb_false_iff, !Z.leb_gt in E. lia.
Qed.

Lemma length_field (f : Z * list Z) : length (field f) = (2 + length f.2)%nat.
Proof. unfold field. cbn [length]. rewrite length_app. simpl. lia. Qed.

Lemma extract_error_fields (fs : list (Z * list Z)) (pre : list Z) (kind len : Z) (fuel : nat) :
  Forall field_ok fs -> (length fs <= fuel)%nat ->
  extract_error_loop fuel (Message kind len (pre ++ fields fs ++ [0]))
    (Z.of_nat (length (pre ++ fields fs))) (Z.of_nat (length pre))
  = Done (snd <$> List.find (fun f => f.1 =? 77) fs).
Proof.
  intros Hf. revert pre fuel. induction Hf as [|f fs [Hk Ht] Hfs IH]; intros pre fuel Hfuel.
  { unfold fields; simpl. rewrite app_nil_r. destruct fuel; simpl; by rewrite Z.ltb_irrefl. }
  destruct fuel as [|fuel]; [simpl in Hfuel; lia|].
  change (fields (f :: fs)) with (field f ++ fields fs).
  cbn [extract_error_loop m_data].
  replace (_ <? _) with true by (symmetry; apply Z.ltb_lt; rewrite !length_app, length_field; lia).
  assert (pre ++ (field f ++ fields fs) ++ [0] = pre ++ f.1 :: (f.2 ++ 0 :: (fields fs ++ [0]))) as E1
    by (unfold field; simpl; by rewrite <- !app_assoc).
  assert (pre ++ (field f ++ fields fs) ++ [0] = (pre ++ [f.1]) ++ f.2 ++ 0 :: (fields fs ++ [0])) as E2
    by (rewrite E1, <- !app_assoc; done).
  rewrite E1 at 1. rewrite read_byte_at by (done || lia).
  rewrite E2 at 1. rewrite read_string_at by (rewrite ?length_app; simpl; done || lia).
  simpl List.find. destruct (f.1 =? 77); [done|].
  replace (Z.of_nat (length pre) + (1 + Z.of_nat (length f.2) + 1)) with (Z.of_nat (length (pre ++ field f)))
    by (rewrite length_app, length_field; lia).
  rewrite <- (app_assoc (field f)), !app_assoc, <- app_assoc. apply IH. simpl in Hfuel; lia.
Qed.

(** From an ErrorResponse [pgagroal_extract_error_message] copies the text of the
    first [M] field, or nothing when it has none, in at most one step per field. *)
Theorem error_text_extracted (fs : list (Z * list Z)) (fuel : nat) (Hf : Forall field_ok fs)
  (Hlen : Z.of_nat (length (fields fs)) < 2 ^ 31 - 5) (Hfuel : (length fs <= fuel)%nat) :
  extract_error_message fuel (error_message fs) = Done (Some (snd <$> List.find (fun f => f.1 =? 77) fs)).
Proof.
  unfold extract_error_message, error_message. cbn [m_kind m_data].
  set (n := 4 + Z.of_nat (length (fields fs)) + 1).
  change (69 :: rev (le_bytes 4 n) ++ fields fs ++ [0]) with ([69] ++ rev (le_bytes 4 n) ++ fields fs ++ [0]).
  rewrite read_int32_at by (done || unfold in_i, n; simpl; lia). cbn [Z.eqb Pos.eqb].
  assert (n = Z.of_nat (length (([69] ++ rev (le_bytes 4 n)) ++ fields fs))) as En.
  { rewrite !length_app, length_rev, length_le_bytes. unfold n. simpl. lia. }
  pose proof (extract_error_fields fs ([69] ++ rev (le_bytes 4 n)) 69 (1 + n) fuel Hf Hfuel) as H.
  rewrite <- En, <- app_assoc in H. change 5 with (Z.of_nat (length ([69] ++ rev (le_bytes 4 n)))). by rewrite H.
Qed.

(** ** Instances *)

Lemma startup_extracted_witness :
  extract_username_database (startup_message 196608 [(str "user", str "bob"); (str "options", str "-x")])
  = Some (Startup (Some (str "bob")) (Some (str "bob")) None).
Proof.
  apply (startup_extracted 196608 [(str "user", str "bob"); (str "options", str "-x")] (str "bob")).
  - repeat constructor; simpl; lia.
  - repeat constructor; intros [H|[H|H]]; discriminate.
  - reflexivity.
Defined.

Lemma database_named_user_witness :
  extract_username_database (startup_message 196608
    [(str "user", str "bob"); (str "database", str "user"); (str "application_name", str "psql")])
  = Some (Startup (Some (str "application_name")) (Some (str "user")) (Some (str "psql"))).
Proof.
  apply (database_named_user 196608 (str "bob") (str "psql"));
    [repeat constructor; lia|repeat constructor; lia|intros [H|[H|H]]; discriminate..].
Defined.

Lemma extract_message_first_witness :
  extract_message 2 90 (Message 0 16 (frames [(67, [1; 2]); (90, [73; 0; 0; 0])]))
  = Done (Some (as_message (90, [73; 0; 0; 0]))).
Proof.
  apply (extract_message_first 90 0 [(67, [1; 2]); (90, [73; 0; 0; 0])] 2);
    [repeat constructor; simpl; lia|simpl; lia|simpl; lia].
Defined.

Lemma extract_message_stuck_witness :
  extract_message 1000 90 (Message 0 5 (67 :: rev (le_bytes 4 (-1)) ++ [])) = Running.
Proof. apply (extract_message_stuck 90 0 67 [] 1000); lia. Defined.

Lemma error_text_extracted_witness :
  extract_error_message 2 (error_message [(83, str "FATAL"); (77, str "no")]) = Done (Some (Some (str "no"))).
Proof.
  apply (error_text_extracted [(83, str "FATAL"); (77, str "no")] 2);
    [repeat constructor; simpl; lia|simpl; lia|simpl; lia].
Defined.
