(* ===== verification/Message.v ===== *)
(** * Messages to and from clients and servers ([libpgagroal/message.c])

    The buffers of the messages that pgagroal writes itself, the loops that read and
    write sockets, and the parser that follows the messages in a stream of chunks.

    A buffer is zeroed and then filled by writes at offsets; a write outside of it is
    undefined behaviour and makes the result [None].  A socket is the list of what its
    next calls answer: how many bytes a [write] takes, which bytes a [read] brings, or the
    error.  A loop that asks for more answers than the list holds is still [Running].
    The TLS branches that go through [tls.c] are not modelled; the [SSL_write] loop is. *)

From S2P Require Import Prelude Wire Frames.
From Stdlib Require Import Ascii.

Local Open Scope Z_scope.

Definition MESSAGE_STATUS_ZERO : Z := 0.
Definition MESSAGE_STATUS_OK : Z := 1.
Definition MESSAGE_STATUS_ERROR : Z := 2.
Definition PARSE_BUFFER_LIMIT : Z := 8192.
Definition DEFAULT_BUFFER_SIZE : Z := 131072.
Definition RECV_BUFFER_HEADROOM : Z := 8.
Definition MESSAGE_PARSE_BUFFER_SIZE : Z := DEFAULT_BUFFER_SIZE - RECV_BUFFER_HEADROOM.

(** A character as an integer. *)
Definition chr (c : ascii) : Z := Z.of_nat (nat_of_ascii c).

Definition len (s : list Z) : Z := Z.of_nat (length s).

(** [memset(&buffer, 0, size)] and [calloc(1, size)]. *)
Definition zeroed (size : Z) : list Z := replicate (Z.to_nat size) 0.

(** ** The messages that are written *)

Section builders.
Context (bigendian : bool).

Definition put_int32 (off v : Z) (b : list Z) : option (list Z) := write_int32 bigendian b off v.
Definition put_byte (off v : Z) (b : list Z) : option (list Z) := write_byte b off v.
Definition put_string (off : Z) (s : list Z) (b : list Z) : option (list Z) := write_string b off s.

Definition write_empty : option message := Some (Message 0 1 (zeroed 1)).

Definition write_notice : option message :=
  b ← put_byte 0 (chr "N") (zeroed 1); Some (Message (chr "N") 1 b).

Definition write_tls : option message :=
  b ← put_byte 0 (chr "S") (zeroed 1); Some (Message (chr "S") 1 b).

(** The severity and the code that start every error message. *)
Definition error_head (size : Z) (code : list Z) : option (list Z) :=
  b ← put_byte 0 (chr "E") (zeroed size);
  b ← put_int32 1 (size - 1) b;
  b ← put_string 5 (str "SFATAL") b;
  b ← put_string 12 (str "VFATAL") b;
  put_string 19 code b.

Definition write_pool_full : option message :=
  let size := 51 in
  b ← error_head size (str "C53300");
  b ← put_string 26 (str "Mconnection pool is full") b;
  Some (Message (chr "E") size b).

Definition write_connection_refused : option message :=
  let size := 46 in
  b ← error_head size (str "C53300");
  b ← put_string 26 (str "Mconnection refused") b;
  Some (Message (chr "E") size b).

Definition write_connection_refused_old : option message :=
  let size := 20 in
  b ← put_byte 0 (chr "E") (zeroed size);
  b ← put_string 1 (str "connection refused") b;
  Some (Message (chr "E") size b).

Definition dquote : list Z := [34].

Definition write_bad_password (username : list Z) : option message :=
  let size := len username + 84 in
  b ← error_head size (str "C28P01");
  b ← put_string 26 (str "Mpassword authentication failed for user " ++ dquote) b;
  b ← put_string 68 username b;
  b ← put_string (68 + len username) dquote b;
  b ← put_string (68 + len username + 2) (str "Rauth_failed") b;
  Some (Message (chr "E") size b).

Definition write_bad_certificate (username : list Z) : option message :=
  let size := len username + 87 in
  b ← error_head size (str "C28000");
  b ← put_string 26 (str "Mcertificate authentication failed for user " ++ dquote) b;
  b ← put_string 71 username b;
  b ← put_string (71 + len username) dquote b;
  b ← put_string (71 + len username + 2) (str "Rauth_failed") b;
  Some (Message (chr "E") size b).

Definition write_unsupported_security_model (username : list Z) : option message :=
  let size := len username + 66 in
  b ← error_head size (str "C28000");
  b ← put_string 26 (str "Munsupported security model for user " ++ dquote) b;
  b ← put_string 64 username b;
  b ← put_string (size - 2) dquote b;
  Some (Message (chr "E") size b).

Definition write_no_hba_entry (username database address : list Z) : option message :=
  let size := len username + len database + len address + 88 in
  b ← error_head size (str "C28000");
  b ← put_string 26 (str "Mno pgagroal_hba.conf entry for host " ++ dquote) b;
  b ← put_string 64 address b;
  let offset := 64 + len address in
  b ← put_string offset (dquote ++ str ", user " ++ dquote) b;
  let offset := offset + 9 in
  b ← put_string offset username b;
  let offset := offset + len username in
  b ← put_string offset (dquote ++ str ", database " ++ dquote) b;
  let offset := offset + 13 in
  b ← put_string offset database b;
  let offset := offset + len database in
  b ← put_string offset dquote b;
  Some (Message (chr "E") size b).

Definition write_client_failover : option message :=
  let size := 57 in
  b ← error_head size (str "C53300");
  b ← put_string 26 (str "Mserver failover") b;
  b ← put_string 43 (str "Rauth_failed") b;
  Some (Message (chr "E") size b).

(** The simple queries that pgagroal sends on its own. *)
Definition query_message (size : Z) (query : list Z) : option message :=
  b ← put_byte 0 (chr "Q") (zeroed size);
  b ← put_int32 1 (size - 1) b;
  b ← put_string 5 query b;
  Some (Message (chr "Q") size b).

Definition deallocate_all_message : option message := query_message 21 (str "DEALLOCATE ALL;").
Definition rollback_message : option message := query_message 15 (str "ROLLBACK;").
Definition isvalid_message : option message := query_message 15 (str "SELECT 1;").
Definition reset_query_message (server_reset_query : list Z) : option message :=
  query_message (5 + len server_reset_query + 1) server_reset_query.

Definition write_terminate : option message :=
  b ← put_byte 0 (chr "X") (zeroed 5);
  b ← put_byte 4 4 b;
  Some (Message (chr "X") 5 b).

Definition write_auth_password : option message :=
  b ← put_byte 0 (chr "R") (zeroed 9);
  b ← put_int32 1 8 b;
  b ← put_int32 5 3 b;
  Some (Message (chr "R") 9 b).

Definition write_auth_success : option message :=
  b ← put_byte 0 (chr "R") (zeroed 9);
  b ← put_int32 1 8 b;
  b ← put_int32 5 0 b;
  Some (Message (chr "R") 9 b).

(** [pgagroal_write_auth_scram256]: the length of the message is known at the end. *)
Definition write_auth_scram256 (ssl channel_binding : bool) : option message :=
  b ← put_byte 0 (chr "R") (zeroed 43);
  b ← put_int32 5 10 b;
  let offset := 9 in
  '(b, offset) ← (if channel_binding && ssl
    then b ← put_string offset (str "SCRAM-SHA-256-PLUS") b; Some (b, offset + len (str "SCRAM-SHA-256-PLUS") + 1)
    else Some (b, offset));
  b ← put_string offset (str "SCRAM-SHA-256") b;
  let offset := offset + len (str "SCRAM-SHA-256") + 1 in
  let offset := offset + 1 in
  b ← put_int32 1 (offset - 1) b;
  Some (Message (chr "R") offset (take (Z.to_nat offset) b)).

Definition create_auth_password_response (password : list Z) : option message :=
  let size := 6 + len password in
  b ← put_byte 0 (chr "p") (zeroed size);
  b ← put_int32 1 (size - 1) b;
  b ← put_string 5 password b;
  Some (Message (chr "p") size b).

Definition create_auth_scram256_response (nounce : list Z) : option message :=
  let size := 1 + 4 + 13 + 4 + 9 + len nounce in
  b ← put_byte 0 (chr "p") (zeroed size);
  b ← put_int32 1 (size - 1) b;
  b ← put_string 5 (str "SCRAM-SHA-256") b;
  b ← put_string 22 (str " n,,n=,r=") b;
  b ← put_string 31 nounce b;
  Some (Message (chr "p") size b).

Definition create_auth_scram256_plus_response (nounce : list Z) : option message :=
  let mechanism := str "SCRAM-SHA-256-PLUS" in
  let initial := str "p=tls-server-end-point,,n=,r=" in
  let ir_len := len initial + len nounce in
  let size := 1 + 4 + len mechanism + 1 + 4 + len initial + len nounce in
  let offset := 0 in
  b ← put_byte offset (chr "p") (zeroed size);
  let offset := offset + 1 in
  b ← put_int32 offset (size - 1) b;
  let offset := offset + 4 in
  b ← put_string offset mechanism b;
  let offset := offset + (len mechanism + 1) in
  b ← put_int32 offset ir_len b;
  let offset := offset + 4 in
  b ← put_string offset initial b;
  let offset := offset + len initial in
  b ← put_string offset nounce b;
  Some (Message (chr "p") size b).

Definition create_auth_scram256_continue (cn sn salt : list Z) : option message :=
  let size := 1 + 4 + 4 + 2 + len cn + len sn + 3 + len salt + 7 in
  b ← put_byte 0 (chr "R") (zeroed size);
  b ← put_int32 1 (size - 1) b;
  b ← put_int32 5 11 b;
  b ← put_string 9 (str "r=") b;
  b ← put_string 11 cn b;
  b ← put_string (11 + len cn) sn b;
  b ← put_string (11 + len cn + len sn) (str ",s=") b;
  b ← put_string (11 + len cn + len sn + 3) salt b;
  b ← put_string (11 + len cn + len sn + 3 + len salt) (str ",i=4096") b;
  Some (Message (chr "R") size b).

Definition create_auth_scram256_continue_response (wp p : list Z) : option message :=
  let size := 1 + 4 + len wp + 3 + len p in
  b ← put_byte 0 (chr "p") (zeroed size);
  b ← put_int32 1 (size - 1) b;
  b ← put_string 5 wp b;
  b ← put_string (5 + len wp) (str ",p=") b;
  b ← put_string (5 + len wp + 3) p b;
  Some (Message (chr "p") size b).

Definition create_auth_scram256_final (ss : list Z) : option message :=
  let size := 1 + 4 + 4 + 2 + len ss in
  b ← put_byte 0 (chr "R") (zeroed size);
  b ← put_int32 1 (size - 1) b;
  b ← put_int32 5 12 b;
  b ← put_string 9 (str "v=") b;
  b ← put_string 11 ss b;
  Some (Message (chr "R") size b).

Definition create_ssl_message : option message :=
  let size := 8 in
  b ← put_int32 0 size (zeroed size);
  b ← put_int32 4 80877103 b;
  Some (Message 0 size b).

Definition create_startup_message (username database : list Z) : option message :=
  let us := len username in
  let ds := len database in
  let size := 4 + 4 + 4 + 1 + us + 1 + 8 + 1 + ds + 1 + 17 + 9 + 1 in
  b ← put_int32 0 size (zeroed size);
  b ← put_int32 4 196608 b;
  b ← put_string 8 (str "user") b;
  b ← put_string 13 username b;
  b ← put_string (13 + us + 1) (str "database") b;
  b ← put_string (13 + us + 1 + 9) database b;
  b ← put_string (13 + us + 1 + 9 + ds + 1) (str "application_name") b;
  b ← put_string (13 + us + 1 + 9 + ds + 1 + 17) (str "pgagroal") b;
  Some (Message 0 size b).

Definition create_cancel_request_message (pid secret : Z) : option message :=
  let size := 16 in
  b ← put_int32 0 size (zeroed size);
  b ← put_int32 4 80877102 b;
  b ← put_int32 8 pid b;
  b ← put_int32 12 secret b;
  Some (Message 0 size b).
End builders.

(** [pgagroal_create_message] and [pgagroal_copy_message], when memory is available. *)
Definition create_message (data : list Z) (length : Z) : option message :=
  kind ← read_byte data 0;
  d ← region data 0 length;
  Some (Message kind length d).

Definition copy_message (msg : message) : option message :=
  d ← region (m_data msg) 0 (m_length msg);
  Some (Message (m_kind msg) (m_length msg) d).

(** ** Sockets *)

Inductive errno := EAGAIN | EOTHER.

(** What [write] does: it takes at most the given number of bytes, or fails. *)
Inductive wres := Wrote (n : N) | WFail (e : errno).

(** The loop of [write_message]: the status, the bytes that were sent and the answers
    that are left. *)
Fixpoint write_loop (rs : list wres) (msg : message) (offset totalbytes remaining : Z) (sent : list Z)
  : result (Z * list Z * list wres) :=
  match rs with
  | [] => Running
  | Wrote n :: rs =>
      let numbytes := Z.min (Z.of_N n) remaining in
      match region (m_data msg) offset numbytes with
      | None => Undefined
      | Some bs =>
          let sent := sent ++ bs in
          if numbytes =? m_length msg then Done (MESSAGE_STATUS_OK, sent, rs)
          else
            let offset := offset + numbytes in
            let totalbytes := totalbytes + numbytes in
            let remaining := remaining - numbytes in
            if totalbytes =? m_length msg then Done (MESSAGE_STATUS_OK, sent, rs)
            else write_loop rs msg offset totalbytes remaining sent
      end
  | WFail EAGAIN :: rs => write_loop rs msg offset totalbytes remaining sent
  | WFail EOTHER :: rs => Done (MESSAGE_STATUS_ERROR, sent, rs)
  end.

Definition write_message (rs : list wres) (msg : message) : result (Z * list Z * list wres) :=
  write_loop rs msg 0 0 (m_length msg) [].

(** [SSL_get_error]: nothing to report, an operation to retry, or a failure. *)
Inductive ssl_error := SSL_NONE | SSL_RETRY | SSL_FAILURE.
Inductive swres := SWrote (n : positive) | SFail (e : ssl_error).

(** The loop of [ssl_write_message] with [SSL_write]. *)
Fixpoint ssl_write_loop (rs : list swres) (msg : message) (offset totalbytes remaining : Z) (sent : list Z)
  : result (Z * list Z * list swres) :=
  match rs with
  | [] => Running
  | SWrote n :: rs =>
      let numbytes := Z.min (Zpos n) remaining in
      match region (m_data msg) offset numbytes with
      | None => Undefined
      | Some bs =>
          let sent := sent ++ bs in
          if numbytes =? m_length msg then Done (MESSAGE_STATUS_OK, sent, rs)
          else if 0 <? numbytes then
            let offset := offset + numbytes in
            let totalbytes := totalbytes + numbytes in
            let remaining := remaining - numbytes in
            if totalbytes =? m_length msg then Done (MESSAGE_STATUS_OK, sent, rs)
            else ssl_write_loop rs msg offset totalbytes remaining sent
          else Done (MESSAGE_STATUS_ERROR, sent, rs)
      end
  | SFail SSL_RETRY :: rs => ssl_write_loop rs msg offset totalbytes remaining sent
  | SFail _ :: rs => Done (MESSAGE_STATUS_ERROR, sent, rs)
  end.

Definition ssl_write_message (rs : list swres) (msg : message) : result (Z * list Z * list swres) :=
  ssl_write_loop rs msg 0 0 (m_length msg) [].

(** What [read] answers: bytes that have arrived, the end of the stream, or an error. *)
Inductive rres := RData (b : Z) (bs : list Z) | REof | RFail (e : errno).

(** [read(socket, ., cap)] of arrived bytes: what does not fit stays for the next call. *)
Definition read_data (cap : Z) (bs : list Z) (rs : list rres) : list Z * list rres :=
  (take (Z.to_nat cap) bs, match drop (Z.to_nat cap) bs with [] => rs | b :: bs => RData b bs :: rs end).

(** [read_message] on a socket, with the value of [errno] that the call finds: the
    message, if there is one, the answers that are left and [errno]. *)
Fixpoint read_message (rs : list rres) (block : bool) (err : option errno)
  : result (Z * option message * list rres * option errno) :=
  match rs with
  | [] => Running
  | RData b bs :: rs =>
      let '(data, rs) := read_data MESSAGE_PARSE_BUFFER_SIZE (b :: bs) rs in
      Done (MESSAGE_STATUS_OK, Some (Message (i8 b) (len data) data), rs, err)
  | REof :: rs =>
      match err with
      | Some EAGAIN => if block then read_message rs block None else Done (MESSAGE_STATUS_ZERO, None, rs, err)
      | _ => Done (MESSAGE_STATUS_ZERO, None, rs, err)
      end
  | RFail EAGAIN :: rs =>
      if block then read_message rs block None else Done (MESSAGE_STATUS_ERROR, None, rs, Some EAGAIN)
  | RFail EOTHER :: rs => Done (MESSAGE_STATUS_ERROR, None, rs, Some EOTHER)
  end.

(** [read_append] on a socket: reads until the message has [needed] bytes; a call with no
    room in the buffer answers 0. *)
Fixpoint read_append (rs : list rres) (m : message) (needed : Z) : result (Z * message * list rres) :=
  if m_length m <? needed then
    match rs with
    | [] => Running
    | RData b bs :: rs' =>
        let cap := MESSAGE_PARSE_BUFFER_SIZE - m_length m in
        if cap <? len (b :: bs) then
          let '(data, rest) := read_data cap (b :: bs) rs' in
          let m := Message (m_kind m) (m_length m + len data) (m_data m ++ data) in
          Done (if m_length m <? needed then MESSAGE_STATUS_ZERO else MESSAGE_STATUS_OK, m, rest)
        else read_append rs' (Message (m_kind m) (m_length m + len (b :: bs)) (m_data m ++ b :: bs)) needed
    | REof :: rs' => Done (MESSAGE_STATUS_ZERO, m, rs')
    | RFail EAGAIN :: rs' => read_append rs' m needed
    | RFail EOTHER :: rs' => Done (MESSAGE_STATUS_ERROR, m, rs')
    end
  else Done (MESSAGE_STATUS_OK, m, rs).

(** [pgagroal_read_complete_message] without TLS. *)
Definition read_complete_message (bigendian : bool) (rs : list rres) (err : option errno)
  : result (Z * option message * list rres) :=
  match read_message rs true err with
  | Running => Running
  | Undefined => Undefined
  | Done (status, m, rs, _) =>
      match m with
      | None => Done (status, None, rs)
      | Some m =>
          match read_append rs m 5 with
          | Running => Running
          | Undefined => Undefined
          | Done (status, m, rs) =>
              if negb (status =? MESSAGE_STATUS_OK) then Done (status, None, rs)
              else
                match read_int32 bigendian (m_data m) 1 with
                | None => Undefined
                | Some length =>
                    if (length <? 4) || (MESSAGE_PARSE_BUFFER_SIZE <? length + 1)
                    then Done (MESSAGE_STATUS_ERROR, None, rs)
                    else
                      match read_append rs m (length + 1) with
                      | Running => Running
                      | Undefined => Undefined
                      | Done (status, m, rs) =>
                          if negb (status =? MESSAGE_STATUS_OK) then Done (status, None, rs)
                          else Done (MESSAGE_STATUS_OK, Some m, rs)
                      end
                end
          end
      end
  end.

(** A request and its reply, as in [pgagroal_write_deallocate_all] and
    [pgagroal_write_reset_query]: the status and what was sent.  [refused] tells which
    replies are failures. *)
Definition request (ws : list wres) (rs : list rres) (err : option errno) (refused : Z -> bool)
  (msg : option message) : result (bool * list Z) :=
  match msg with
  | None => Undefined
  | Some msg =>
      match write_message ws msg with
      | Running => Running
      | Undefined => Undefined
      | Done (status, sent, _) =>
          if negb (status =? MESSAGE_STATUS_OK) then Done (true, sent)
          else
            match read_message rs true err with
            | Running => Running
            | Undefined => Undefined
            | Done (status, reply, _, _) =>
                if negb (status =? MESSAGE_STATUS_OK) then Done (true, sent)
                else
                  match reply with
                  | None => Undefined
                  | Some reply => Done (refused (m_kind reply), sent)
                  end
            end
      end
  end.

Definition write_deallocate_all (big : bool) (ws : list wres) (rs : list rres) (err : option errno) : result (bool * list Z) :=
  request ws rs err (fun kind => kind =? chr "E") (deallocate_all_message big).

Definition write_reset_query (big : bool) (query : list Z) (ws : list wres) (rs : list rres) (err : option errno)
  : result (bool * list Z) :=
  request ws rs err (fun kind => kind =? chr "E") (reset_query_message big query).

Definition write_rollback (big : bool) (ws : list wres) (rs : list rres) (err : option errno) : result (bool * list Z) :=
  request ws rs err (fun _ => false) (rollback_message big).

(** [pgagroal_connection_isvalid] answers the negation. *)
Definition connection_isvalid (big : bool) (ws : list wres) (rs : list rres) (err : option errno) : result (bool * list Z) :=
  match request ws rs err (fun kind => (kind =? chr "E") || (kind =? chr "e")) (isvalid_message big) with
  | Done (failed, sent) => Done (negb failed, sent)
  | Running => Running
  | Undefined => Undefined
  end.

(** ** The parser of a stream *)

(** [struct pgagroal_message_state]. *)
Record message_state := MessageState {
  header : list Z; header_len : Z; payload_remaining : Z;
  msg_buffer : list Z; msg_buffer_len : Z; msg_target_len : Z }.

(** [memset(&state, 0, sizeof(state))]. *)
Definition zero_state : message_state :=
  MessageState (zeroed 5) 0 0 (zeroed PARSE_BUFFER_LIMIT) 0 0.

Section parser.
Context (bigendian : bool) {A : Type} (callback : Z -> list Z -> Z -> A -> A).

(** 2. and 3. of the loop, on what is left of the chunk: the payload is consumed, and
    the callback sees a message that is complete. *)
Definition parse_payload (state : message_state) (data : list Z) (a : A) : option (message_state * list Z * A) :=
  '(state, data) ←
    (if 0 <? payload_remaining state then
       let to_consume := Z.min (payload_remaining state) (len data) in
       let to_copy := Z.min (PARSE_BUFFER_LIMIT - msg_buffer_len state) to_consume in
       bs ← region data 0 to_copy;
       buffer ← store (msg_buffer state) (msg_buffer_len state) bs;
       Some (MessageState (header state) (header_len state) (payload_remaining state - to_consume)
               buffer (msg_buffer_len state + to_copy) (msg_target_len state),
             drop (Z.to_nat to_consume) data)
     else Some (state, data));
  if (payload_remaining state =? 0) && (header_len state =? 5) then
    a ← (if 0 <? msg_buffer_len state
         then kind ← read_byte (header state) 0; Some (callback kind (msg_buffer state) (msg_target_len state) a)
         else Some a);
    Some (MessageState (header state) 0 (payload_remaining state) (msg_buffer state) 0 0, data, a)
  else Some (state, data, a).

(** One round of the loop; a [break] leaves no data. *)
Definition parse_round (state : message_state) (data : list Z) (a : A) : option (message_state * list Z * A) :=
  if header_len state <? 5 then
    let n := Z.min (5 - header_len state) (len data) in
    bs ← region data 0 n;
    h ← store (header state) (header_len state) bs;
    let data := drop (Z.to_nat n) data in
    let state := MessageState h (header_len state + n) (payload_remaining state) (msg_buffer state)
                   (msg_buffer_len state) (msg_target_len state) in
    if header_len state <? 5 then Some (state, [], a)
    else
      msglen ← read_int32 bigendian h 1;
      if (msglen <? 4) || (2 ^ 31 - 1 - 4 <? msglen) then Some (MessageState h 0 0 (msg_buffer state) 0 0, [], a)
      else
        let msglen := msglen + 1 in
        buffer ← store (msg_buffer state) 0 h;
        parse_payload (MessageState h 5 (msglen - 5) buffer 5 msglen) data a
  else parse_payload state data a.

Fixpoint parse_loop (fuel : nat) (state : message_state) (data : list Z) (a : A) : result (message_state * A) :=
  match data with
  | [] => Done (state, a)
  | _ =>
      match fuel with
      | O => Running
      | S fuel =>
          match parse_round state data a with
          | None => Undefined
          | Some (state, data, a) => parse_loop fuel state data a
          end
      end
  end.

(** [pgagroal_parse_message]. *)
Definition parse_message (state : message_state) (data : list Z) (a : A) : result (message_state * A) :=
  parse_loop (S (length data)) state data a.

(** One call for each chunk that arrives. *)
Fixpoint parse_chunks (state : message_state) (chunks : list (list Z)) (a : A) : result (message_state * A) :=
  match chunks with
  | [] => Done (state, a)
  | c :: chunks =>
      match parse_message state c a with
      | Done (state, a) => parse_chunks state chunks a
      | Undefined => Undefined
      | Running => Running
      end
  end.
End parser.

(** [struct pipeline_server_state]: a flag without a value is a NULL pointer. *)
Record pipeline_server_state := PipelineServerState {
  p_in_tx : option bool; p_saw_rfq : option bool; p_fatal : option bool; p_tx_count : Z }.

(** [strncmp(msg + off, s, n) == 0] for a [s] of [n] characters. *)
Definition bytes_at (msg : list Z) (off : nat) (s : list Z) : bool :=
  bool_decide (take (length s) (drop off msg) = s).

(** [pgagroal_pipeline_server_rfq]; [None] is a NULL [arg]. *)
Definition pipeline_server_rfq (kind : Z) (msg : list Z) (msglen : Z) (arg : option pipeline_server_state)
  : option pipeline_server_state :=
  match arg with
  | None => None
  | Some state =>
      match p_in_tx state with
      | None => Some state
      | Some in_tx =>
          if kind =? chr "Z" then
            let tx_state := i8 (msg !!! 5%nat) in
            let idle := tx_state =? chr "I" in
            Some (PipelineServerState (Some (negb idle))
                    (match p_saw_rfq state with Some b => Some (b || idle) | None => None end)
                    (p_fatal state)
                    (p_tx_count state + (if negb idle && negb in_tx then 1 else 0)))
          else if kind =? chr "E" then
            Some (PipelineServerState (p_in_tx state) (p_saw_rfq state)
                    (match p_fatal state with
                     | Some b =>
                         Some (b || ((i8 (msg !!! 5%nat) =? chr "S") && (12 <=? msglen) &&
                                     (bytes_at msg 6 (str "FATAL") || bytes_at msg 6 (str "PANIC"))))
                     | None => None
                     end) (p_tx_count state))
          else Some state
      end
  end.
