(* ===== verification/MessageFacts.v ===== *)
(** * Facts about messages

    The messages that pgagroal writes fit their buffers and have the layout of the
    protocol; a message that is written is sent as a whole, and one that is read is
    complete, however the bytes are cut; the parser of a stream sees every message once,
    whatever the chunks. *)

From S2P Require Import Prelude Wire Frames Message.
From Stdlib Require Import Ascii.

Local Open Scope Z_scope.

(** ** Buffers that are filled from left to right *)

Lemma len_app (a b : list Z) : len (a ++ b) = len a + len b.
Proof. unfold len. rewrite length_app. lia. Qed.

Lemma len_nonneg (a : list Z) : 0 <= len a.
Proof. unfold len. lia. Qed.

Lemma len_zeroed (n : Z) : len (zeroed n) = Z.max 0 n.
Proof. unfold len, zeroed. rewrite length_replicate. lia. Qed.

Lemma zeroed_app (a b : Z) : 0 <= a -> 0 <= b -> zeroed (a + b) = zeroed a ++ zeroed b.
Proof. intros Ha Hb. unfold zeroed. by rewrite Z2Nat.inj_add, replicate_add. Qed.

Lemma store_app (pre mid post s : list Z) (off : Z) :
  off = len pre -> length mid = length s -> store (pre ++ mid ++ post) off s = Some (pre ++ s ++ post).
Proof.
  intros -> Hl. unfold store, len. rewrite !length_app.
  destruct (_ && _) eqn:Hc; [|rewrite !Bool.andb_false_iff, !Z.leb_gt in Hc; lia]. f_equal.
  rewrite Nat2Z.id, take_app_length. f_equal. f_equal.
  rewrite <- Hl, <- (length_app pre mid), app_assoc. apply drop_app_length.
Qed.

(** A write into the part of the buffer that is still zero, after a gap. *)
Lemma store_next (gap : Z) (pre s : list Z) (size off : Z) :
  off = len pre + gap -> 0 <= gap -> off + len s <= size ->
  store (pre ++ zeroed (size - len pre)) off s =
    Some ((pre ++ zeroed gap ++ s) ++ zeroed (size - len (pre ++ zeroed gap ++ s))).
Proof.
  intros -> Hg Hs. pose proof (len_nonneg s) as Hn. pose proof (len_nonneg pre) as Hp.
  assert (Hz : zeroed (size - len pre) = zeroed gap ++ zeroed (len s) ++ zeroed (size - (len pre + gap + len s))).
  { rewrite <- !zeroed_app by lia. f_equal. lia. }
  rewrite Hz, app_assoc.
  rewrite store_app; [|rewrite len_app, len_zeroed; lia|unfold zeroed, len; rewrite length_replicate; lia].
  rewrite !len_app, len_zeroed, <- !app_assoc. do 5 f_equal. lia.
Qed.

Lemma store_next_0 (pre s : list Z) (size off : Z) :
  off = len pre -> off + len s <= size ->
  store (pre ++ zeroed (size - len pre)) off s = Some ((pre ++ s) ++ zeroed (size - len (pre ++ s))).
Proof. intros -> Hs. by rewrite (store_next 0) by lia. Qed.

(** An integer in network order. *)
Definition be32 (v : Z) : list Z := rev (le_bytes 4 v).

Lemma len_be32 (v : Z) : len (be32 v) = 4.
Proof. unfold be32, len. by rewrite length_rev, length_le_bytes. Qed.

Lemma len_cons (a : Z) (s : list Z) : len (a :: s) = 1 + len s.
Proof. unfold len. cbn [length]. lia. Qed.

Create HintDb msg_len discriminated.
#[export] Hint Rewrite len_app len_be32 len_cons : msg_len.

Lemma put_int32_store (big : bool) (off v : Z) (b : list Z) : put_int32 big off v b = store b off (be32 v).
Proof. unfold put_int32, write_int32. by rewrite host_network_bytes. Qed.

Lemma put_byte_store (off v : Z) (b : list Z) : 0 <= v < 256 -> put_byte off v b = store b off [v].
Proof. intros H. unfold put_byte, write_byte. by rewrite wrapu_id by (unfold in_u; simpl; lia). Qed.

Lemma put_string_store (off : Z) (s b : list Z) : put_string off s b = store b off s.
Proof. done. Qed.

Lemma zeroed_start (size : Z) : zeroed size = [] ++ zeroed (size - len []).
Proof. change (len []) with 0. by rewrite Z.sub_0_r. Qed.

Ltac len_consts :=
  repeat match goal with
  | |- context [len ?l] =>
      let v := eval vm_compute in (len l) in
      match v with Z0 => idtac | Zpos _ => idtac end; change (len l) with v
  end.

Ltac len_solve :=
  autorewrite with msg_len; len_consts;
  repeat match goal with |- context [len ?l] => lazymatch goal with H : 0 <= len l |- _ => fail | _ => pose proof (len_nonneg l) end end;
  lia.

(** Runs the writes of a builder; the gap before a write is at most four bytes. *)
Ltac put :=
  rewrite ?put_int32_store, ?put_string_store, ?put_byte_store by done;
  first [rewrite store_next_0 by len_solve
        |rewrite (store_next 1) by len_solve; change (zeroed 1) with [0]
        |rewrite (store_next 2) by len_solve; change (zeroed 2) with [0; 0]
        |rewrite (store_next 4) by len_solve; change (zeroed 4) with [0; 0; 0; 0]];
  cbn [mbind option_bind].

Ltac build := rewrite zeroed_start; repeat put.

(** What is left of the buffer after the last write. *)
Ltac rest :=
  match goal with |- context [zeroed ?e] =>
    first [replace e with 0 by len_solve; change (zeroed 0) with (@nil Z)
          |replace e with 1 by len_solve; change (zeroed 1) with [0]
          |replace e with 2 by len_solve; change (zeroed 2) with [0; 0]]
  end.

(** The characters of the literals. *)
Ltac literals :=
  unfold dquote; repeat match goal with |- context [str ?s] => let v := eval vm_compute in (str s) in change (str s) with v end;
  repeat match goal with |- context [chr ?c] => let v := eval vm_compute in (chr c) in change (chr c) with v end.

Ltac built :=
  try rest; literals; unfold fields, field; cbn [app map concat fst snd];
  repeat (progress (rewrite <- ?app_assoc; cbn [app])); rewrite ?app_nil_r.

(** An error message without the zero that ends the fields. *)
Definition open_error_message (fs : list (Z * list Z)) : message :=
  let n := 4 + len (fields fs) in
  Message 69 (1 + n) (69 :: be32 n ++ fields fs).

Definition error_fields (code text : list Z) : list (Z * list Z) :=
  [(chr "S", str "FATAL"); (chr "V", str "FATAL"); (chr "C", code); (chr "M", text)].

Definition auth_failed : Z * list Z := (chr "R", str "auth_failed").

Lemma fields_app (a b : list (Z * list Z)) : fields (a ++ b) = fields a ++ fields b.
Proof. unfold fields. by rewrite map_app, concat_app. Qed.

Lemma len_fields_cons (f : Z * list Z) (fs : list (Z * list Z)) : len (fields (f :: fs)) = 2 + len f.2 + len (fields fs).
Proof. change (fields (f :: fs)) with (field f ++ fields fs). rewrite len_app. unfold len. rewrite length_field. lia. Qed.

Lemma error_message_intro (fs : list (Z * list Z)) (size : Z) (b : list Z) :
  size = 6 + len (fields fs) -> b = 69 :: be32 (size - 1) ++ fields fs ++ [0] -> Message 69 size b = error_message fs.
Proof.
  intros Hs ->. unfold error_message. fold (len (fields fs)). fold (be32 (4 + len (fields fs) + 1)).
  replace (size - 1) with (4 + len (fields fs) + 1) by lia. f_equal. lia.
Qed.

Lemma open_error_message_intro (fs : list (Z * list Z)) (size : Z) (b : list Z) :
  size = 5 + len (fields fs) -> b = 69 :: be32 (size - 1) ++ fields fs -> Message 69 size b = open_error_message fs.
Proof.
  intros Hs ->. unfold open_error_message. replace (size - 1) with (4 + len (fields fs)) by lia. f_equal. lia.
Qed.

(** The part of the buffer that [error_head] fills. *)
Definition error_start (size : Z) (code : list Z) : list Z :=
  69 :: be32 (size - 1) ++ fields [(chr "S", str "FATAL"); (chr "V", str "FATAL")] ++ chr "C" :: code.

Lemma len_error_start (size : Z) (code : list Z) : len (error_start size code) = 20 + len code.
Proof. unfold error_start. rewrite len_cons, !len_app, len_be32, len_cons. len_consts. lia. Qed.

#[export] Hint Rewrite len_error_start : msg_len.

Lemma error_head_start (big : bool) (size : Z) (code : list Z) :
  len code = 5 -> 25 <= size ->
  error_head big size (chr "C" :: code) = Some (error_start size code ++ zeroed (size - len (error_start size code))).
Proof.
  intros Hc Hs.
  unfold error_head. build.
  match goal with |- Some (?a ++ zeroed (size - len ?a)) = _ => replace a with (error_start size code); [done|] end.
  unfold error_start. built. done.
Qed.

Ltac build_error :=
  cbv zeta;
  match goal with |- context [error_head _ ?size (str ?c)] =>
    let code := eval vm_compute in (tail (str c)) in
    change (str c) with (chr "C" :: code); rewrite error_head_start by first [done|len_solve]; cbn [mbind option_bind]
  end;
  repeat put; apply (f_equal Some).

Ltac error_layout :=
  unfold error_fields, auth_failed; cbn [app]; rewrite ?len_fields_cons; cbn [fst snd];
  first [len_solve|unfold error_start; built; done].

Lemma bad_password_layout (big : bool) (u : list Z) :
  write_bad_password big u =
    Some (error_message (error_fields (str "28P01")
      (str "password authentication failed for user " ++ dquote ++ u ++ dquote) ++ [auth_failed])).
Proof. unfold write_bad_password. build_error. apply error_message_intro; error_layout. Qed.

Lemma bad_certificate_layout (big : bool) (u : list Z) :
  write_bad_certificate big u =
    Some (error_message (error_fields (str "28000")
      (str "certificate authentication failed for user " ++ dquote ++ u ++ dquote) ++ [auth_failed])).
Proof. unfold write_bad_certificate. build_error. apply error_message_intro; error_layout. Qed.

Lemma client_failover_layout (big : bool) :
  write_client_failover big = Some (error_message (error_fields (str "53300") (str "server failover") ++ [auth_failed])).
Proof. unfold write_client_failover. build_error. apply error_message_intro; error_layout. Qed.

Lemma unsupported_layout (big : bool) (u : list Z) :
  write_unsupported_security_model big u =
    Some (open_error_message (error_fields (str "28000")
      (str "unsupported security model for user " ++ dquote ++ u ++ dquote))).
Proof. unfold write_unsupported_security_model. build_error. apply open_error_message_intro; error_layout. Qed.

Lemma no_hba_layout (big : bool) (u d a : list Z) :
  write_no_hba_entry big u d a =
    Some (open_error_message (error_fields (str "28000")
      (str "no pgagroal_hba.conf entry for host " ++ dquote ++ a ++ dquote ++ str ", user " ++ dquote ++ u ++ dquote ++
       str ", database " ++ dquote ++ d ++ dquote))).
Proof. unfold write_no_hba_entry. build_error. apply open_error_message_intro; error_layout. Qed.

Lemma pool_full_layout (big : bool) :
  write_pool_full big = Some (open_error_message (error_fields (str "53300") (str "connection pool is full"))).
Proof. unfold write_pool_full. build_error. apply open_error_message_intro; error_layout. Qed.

Lemma connection_refused_layout (big : bool) :
  write_connection_refused big = Some (open_error_message (error_fields (str "53300") (str "connection refused"))).
Proof. unfold write_connection_refused. build_error. apply open_error_message_intro; error_layout. Qed.

(** ** Messages that are not errors *)

Lemma as_message_intro (kind size : Z) (payload b : list Z) :
  size = 5 + len payload -> b = kind :: be32 (size - 1) ++ payload -> Message kind size b = as_message (kind, payload).
Proof.
  intros Hs ->. unfold as_message, frame. cbn [fst snd]. fold (len payload). fold (be32 (4 + len payload)).
  replace (size - 1) with (4 + len payload) by lia. f_equal. fold (len (kind :: be32 (4 + len payload) ++ payload)). len_solve.
Qed.

Ltac frame_layout := first [len_solve|built; done].
Ltac build_frame := cbv zeta; build; apply (f_equal Some); apply as_message_intro; frame_layout.

Lemma query_layout (big : bool) (size : Z) (q : list Z) :
  size = 6 + len q -> query_message big size q = Some (as_message (chr "Q", q ++ [0])).
Proof. intros ->. unfold query_message. build_frame. Qed.

Lemma terminate_layout : write_terminate = Some (as_message (chr "X", [])).
Proof. reflexivity. Qed.

Lemma auth_request_layout (big : bool) :
  write_auth_password big = Some (as_message (chr "R", be32 3)) /\ write_auth_success big = Some (as_message (chr "R", be32 0)).
Proof. by destruct big. Qed.

Lemma auth_scram256_layout (big ssl binding : bool) :
  write_auth_scram256 big ssl binding =
    Some (as_message (chr "R", be32 10 ++ (if binding && ssl then str "SCRAM-SHA-256-PLUS" ++ [0] else []) ++
                               str "SCRAM-SHA-256" ++ [0] ++ [0])).
Proof. by destruct big, ssl, binding. Qed.

Lemma password_response_layout (big : bool) (p : list Z) :
  create_auth_password_response big p = Some (as_message (chr "p", p ++ [0])).
Proof. unfold create_auth_password_response. build_frame. Qed.

Lemma scram256_response_layout (big : bool) (n : list Z) :
  create_auth_scram256_response big n =
    Some (as_message (chr "p", str "SCRAM-SHA-256" ++ [0] ++ be32 32 ++ str "n,,n=,r=" ++ n)).
Proof. unfold create_auth_scram256_response. build_frame. Qed.

Lemma scram256_plus_response_layout (big : bool) (n : list Z) :
  create_auth_scram256_plus_response big n =
    Some (as_message (chr "p", str "SCRAM-SHA-256-PLUS" ++ [0] ++ be32 (29 + len n) ++ str "p=tls-server-end-point,,n=,r=" ++ n)).
Proof. unfold create_auth_scram256_plus_response. build_frame. Qed.

Lemma scram256_continue_layout (big : bool) (cn sn salt : list Z) :
  create_auth_scram256_continue big cn sn salt =
    Some (as_message (chr "R", be32 11 ++ str "r=" ++ cn ++ sn ++ str ",s=" ++ salt ++ str ",i=4096")).
Proof. unfold create_auth_scram256_continue. build_frame. Qed.

Lemma scram256_continue_response_layout (big : bool) (wp p : list Z) :
  create_auth_scram256_continue_response big wp p = Some (as_message (chr "p", wp ++ str ",p=" ++ p)).
Proof. unfold create_auth_scram256_continue_response. build_frame. Qed.

Lemma scram256_final_layout (big : bool) (ss : list Z) :
  create_auth_scram256_final big ss = Some (as_message (chr "R", be32 12 ++ str "v=" ++ ss)).
Proof. unfold create_auth_scram256_final. build_frame. Qed.

Lemma startup_intro (version size : Z) (ps : list (list Z * list Z)) (b : list Z) :
  size = 9 + len (encode_params ps) -> b = be32 size ++ be32 version ++ encode_params ps ++ [0] ->
  Message 0 size b = startup_message version ps.
Proof.
  intros Hs ->. unfold startup_message. fold (len (encode_params ps)).
  replace (8 + len (encode_params ps) + 1) with size by lia. done.
Qed.

Lemma startup_layout (big : bool) (u d : list Z) :
  create_startup_message big u d =
    Some (startup_message 196608 [(str "user", u); (str "database", d); (str "application_name", str "pgagroal")]).
Proof.
  unfold create_startup_message. cbv zeta. build. apply (f_equal Some), startup_intro; unfold encode_params; cbn [map concat fst snd].
  - len_solve.
  - built. done.
Qed.

Lemma cancel_layout (big : bool) (pid secret : Z) :
  create_cancel_request_message big pid secret =
    Some (Message 0 16 (be32 16 ++ be32 80877102 ++ be32 pid ++ be32 secret)).
Proof. unfold create_cancel_request_message. cbv zeta. build. apply (f_equal Some), (f_equal (Message 0 16)). built. done. Qed.

(** The errors for a wrong password, a wrong certificate and a failover fit their
    buffers exactly and are ErrorResponses: the length, the fields, each ended by a
    zero, and the zero that ends the message, for every user name. *)
Theorem error_messages_complete (big : bool) (u : list Z) :
  write_bad_password big u = Some (error_message (error_fields (str "28P01")
    (str "password authentication failed for user " ++ dquote ++ u ++ dquote) ++ [auth_failed])) /\
  write_bad_certificate big u = Some (error_message (error_fields (str "28000")
    (str "certificate authentication failed for user " ++ dquote ++ u ++ dquote) ++ [auth_failed])) /\
  write_client_failover big = Some (error_message (error_fields (str "53300") (str "server failover") ++ [auth_failed])).
Proof. auto using bad_password_layout, bad_certificate_layout, client_failover_layout. Qed.

(** The other four errors (the pool is full, the connection is refused, the security
    model is not supported, no entry of the HBA file matches) end after their last field:
    the zero that ends an ErrorResponse is missing. *)
Theorem error_messages_open (big : bool) (u d a : list Z) :
  write_pool_full big = Some (open_error_message (error_fields (str "53300") (str "connection pool is full"))) /\
  write_connection_refused big = Some (open_error_message (error_fields (str "53300") (str "connection refused"))) /\
  write_unsupported_security_model big u = Some (open_error_message (error_fields (str "28000")
    (str "unsupported security model for user " ++ dquote ++ u ++ dquote))) /\
  write_no_hba_entry big u d a = Some (open_error_message (error_fields (str "28000")
    (str "no pgagroal_hba.conf entry for host " ++ dquote ++ a ++ dquote ++ str ", user " ++ dquote ++ u ++ dquote ++
     str ", database " ++ dquote ++ d ++ dquote))).
Proof. auto using pool_full_layout, connection_refused_layout, unsupported_layout, no_hba_layout. Qed.

(** Every other message that pgagroal makes is one frame of the protocol, its length
    field counting the payload, for all arguments and on every host; only the length of
    the first SCRAM response inside its payload is fixed to 32 bytes, which is right
    for a nonce of 24 characters and no other. *)
Theorem messages_framed (big : bool) (q n cn sn salt wp p ss : list Z) (ssl binding : bool) :
  reset_query_message big q = Some (as_message (chr "Q", q ++ [0])) /\
  deallocate_all_message big = Some (as_message (chr "Q", str "DEALLOCATE ALL;" ++ [0])) /\
  rollback_message big = Some (as_message (chr "Q", str "ROLLBACK;" ++ [0])) /\
  isvalid_message big = Some (as_message (chr "Q", str "SELECT 1;" ++ [0])) /\
  write_terminate = Some (as_message (chr "X", [])) /\
  write_auth_password big = Some (as_message (chr "R", be32 3)) /\
  write_auth_success big = Some (as_message (chr "R", be32 0)) /\
  write_auth_scram256 big ssl binding =
    Some (as_message (chr "R", be32 10 ++ (if binding && ssl then str "SCRAM-SHA-256-PLUS" ++ [0] else []) ++
                               str "SCRAM-SHA-256" ++ [0] ++ [0])) /\
  create_auth_password_response big p = Some (as_message (chr "p", p ++ [0])) /\
  create_auth_scram256_plus_response big n =
    Some (as_message (chr "p", str "SCRAM-SHA-256-PLUS" ++ [0] ++ be32 (29 + len n) ++ str "p=tls-server-end-point,,n=,r=" ++ n)) /\
  create_auth_scram256_continue big cn sn salt =
    Some (as_message (chr "R", be32 11 ++ str "r=" ++ cn ++ sn ++ str ",s=" ++ salt ++ str ",i=4096")) /\
  create_auth_scram256_continue_response big wp p = Some (as_message (chr "p", wp ++ str ",p=" ++ p)) /\
  create_auth_scram256_final big ss = Some (as_message (chr "R", be32 12 ++ str "v=" ++ ss)) /\
  (let initial := str "n,,n=,r=" ++ n in
   create_auth_scram256_response big n = Some (as_message (chr "p", str "SCRAM-SHA-256" ++ [0] ++ be32 32 ++ initial)) /\
   (len initial = 32 <-> len n = 24)).
Proof.
  unfold reset_query_message. cbv zeta. split_and!.
  - apply query_layout. lia.
  - by apply query_layout.
  - by apply query_layout.
  - by apply query_layout.
  - apply terminate_layout.
  - exact (proj1 (auth_request_layout big)).
  - exact (proj2 (auth_request_layout big)).
  - apply auth_scram256_layout.
  - apply password_response_layout.
  - apply scram256_plus_response_layout.
  - apply scram256_continue_layout.
  - apply scram256_continue_response_layout.
  - apply scram256_final_layout.
  - apply scram256_response_layout.
  - rewrite len_app. len_consts. lia.
Qed.

(** The startup packet that pgagroal sends to a server is read back by its own
    parser for clients: the user, the database and the name of the application. *)
Theorem startup_roundtrip (big : bool) (u d : list Z) (Hu : text u) (Hd : text d)
  (Ku : ~ keyword u) (Kd : ~ keyword d) :
  exists m, create_startup_message big u d = Some m /\
    extract_username_database m = Some (Startup (Some u) (Some d) (Some (str "pgagroal"))).
Proof.
  eexists. split; [apply startup_layout|].
  assert (forall s, bool_decide (text (str s)) = true -> text (str s)) as Hs by (intros; by eapply bool_decide_eq_true).
  rewrite extract_startup, startup_scan_params; [done| |].
  - repeat (apply Forall_cons; split); try done. cbn [snd]. intros [H|[H|H]]; done.
  - repeat (apply Forall_cons; split); try done; cbn [fst snd]; split; try done; by apply Hs.
Qed.

Lemma startup_roundtrip_witness :
  exists m, create_startup_message false (str "alice") (str "db") = Some m /\
    extract_username_database m = Some (Startup (Some (str "alice")) (Some (str "db")) (Some (str "pgagroal"))).
Proof.
  apply (startup_roundtrip false (str "alice") (str "db")).
  - by apply (bool_decide_unpack (text (str "alice"))).
  - by apply (bool_decide_unpack (text (str "db"))).
  - intros [H|[H|H]]; discriminate H.
  - intros [H|[H|H]]; discriminate H.
Defined.
