(* ===== verification/MessageStream.v ===== *)
(** * Messages as they cross a socket

    The loops of [message.c] on every sequence of answers of the operating system: what
    is written is sent once and in order, what is read is a whole message, and the
    parser of a stream reports each message once, wherever the chunks are cut. *)

From S2P Require Import Prelude Wire Frames Message MessageFacts.
From Stdlib Require Import Ascii.

Local Open Scope Z_scope.

(** ** Writing *)

Lemma region_take (data : list Z) (off n : Z) :
  0 <= off -> 0 <= n -> off + n <= len data -> region data off n = Some (take (Z.to_nat n) (drop (Z.to_nat off) data)).
Proof. intros H1 H2 H3. unfold region, len in *. by rewrite !(proj2 (Z.leb_le _ _)) by lia. Qed.

(** The bytes that were sent when [n] more are sent after [off]. *)
Lemma take_more (data : list Z) (off n : Z) :
  0 <= off -> 0 <= n ->
  take (Z.to_nat off) data ++ take (Z.to_nat n) (drop (Z.to_nat off) data) = take (Z.to_nat (off + n)) data.
Proof. intros H1 H2. rewrite Z2Nat.inj_add by done. apply take_take_drop. Qed.

Lemma take_len (data : list Z) : take (Z.to_nat (len data)) data = data.
Proof. unfold len. rewrite Nat2Z.id. by rewrite firstn_all. Qed.

(** The outcome of a loop that sends [data]. *)
Definition sent_outcome {R} (data : list Z) (refused : Prop) (r : result (Z * list Z * R)) : Prop :=
  match r with
  | Done (status, sent, _) =>
      (status = MESSAGE_STATUS_OK /\ sent = data) \/
      (status = MESSAGE_STATUS_ERROR /\ sent `prefix_of` data /\ refused)
  | Running => True
  | Undefined => False
  end.

Lemma sent_outcome_weaken {R} (data : list Z) (P Q : Prop) (r : result (Z * list Z * R)) :
  (P -> Q) -> sent_outcome data P r -> sent_outcome data Q r.
Proof. intros HPQ. destruct r as [[[s d] rs]| |]; simpl; tauto. Qed.

Lemma write_loop_outcome (rs : list wres) (kind : Z) (data : list Z) (off : Z) :
  0 <= off < len data \/ off = 0 ->
  sent_outcome data (WFail EOTHER ∈ rs)
    (write_loop rs (Message kind (len data) data) off off (len data - off) (take (Z.to_nat off) data)).
Proof.
  revert off. induction rs as [|[n|[|]] rs IH]; intros off Hoff; cbn [write_loop m_data m_length]; [done| | |].
  - pose proof (len_nonneg data) as Hl. set (nb := Z.min (Z.of_N n) (len data - off)).
    rewrite region_take by lia. rewrite take_more by lia.
    destruct (Z.eqb_spec nb (len data)) as [E|E].
    { left. split; [done|]. replace (off + nb) with (len data) by lia. apply take_len. }
    destruct (Z.eqb_spec (off + nb) (len data)) as [E2|E2].
    { left. split; [done|]. rewrite E2. apply take_len. }
    replace (len data - off - nb) with (len data - (off + nb)) by lia.
    eapply sent_outcome_weaken; [|apply IH; lia]. intros H. by right.
  - eapply sent_outcome_weaken; [|by apply IH]. intros H. by right.
  - right. split; [done|]. split; [|left]. eexists. symmetry. apply take_drop.
Qed.

(** How many bytes the next calls take, when none of them fails for good. *)
Fixpoint capacity (rs : list wres) : option Z :=
  match rs with
  | [] => Some 0
  | Wrote n :: rs => c ← capacity rs; Some (Z.of_N n + c)
  | WFail EAGAIN :: rs => capacity rs
  | WFail EOTHER :: _ => None
  end.

Lemma write_loop_completes (rs : list wres) (kind : Z) (data : list Z) (off c : Z) :
  0 <= off < len data -> capacity rs = Some c -> len data - off <= c ->
  exists rest, write_loop rs (Message kind (len data) data) off off (len data - off) (take (Z.to_nat off) data) =
    Done (MESSAGE_STATUS_OK, data, rest).
Proof.
  revert off c. induction rs as [|[n|[|]] rs IH]; intros off c Hoff Hc Hle; cbn [write_loop m_data m_length capacity] in *.
  - simplify_eq. lia.
  - destruct (capacity rs) as [c'|] eqn:Ec; [|done]. simpl in Hc. simplify_eq.
    set (nb := Z.min (Z.of_N n) (len data - off)). rewrite region_take by lia. rewrite take_more by lia.
    destruct (Z.eqb_spec nb (len data)) as [E|E].
    { replace (off + nb) with (len data) by lia. rewrite take_len. eauto. }
    destruct (Z.eqb_spec (off + nb) (len data)) as [E2|E2]; [rewrite E2, take_len; eauto|].
    replace (len data - off - nb) with (len data - (off + nb)) by lia. apply (IH _ c'); [lia|done|lia].
  - by apply (IH _ c).
  - done.
Qed.

Lemma ssl_write_loop_outcome (rs : list swres) (kind : Z) (data : list Z) (off : Z) :
  0 <= off < len data \/ off = 0 ->
  sent_outcome data (SFail SSL_NONE ∈ rs \/ SFail SSL_FAILURE ∈ rs)
    (ssl_write_loop rs (Message kind (len data) data) off off (len data - off) (take (Z.to_nat off) data)).
Proof.
  revert off. induction rs as [|[n|[| |]] rs IH]; intros off Hoff; cbn [ssl_write_loop m_data m_length]; [done| | | |].
  - pose proof (len_nonneg data) as Hl. set (nb := Z.min (Zpos n) (len data - off)).
    rewrite region_take by lia. rewrite take_more by lia.
    destruct (Z.eqb_spec nb (len data)) as [E|E].
    { left. split; [done|]. replace (off + nb) with (len data) by lia. apply take_len. }
    rewrite (proj2 (Z.ltb_lt 0 nb)) by lia.
    destruct (Z.eqb_spec (off + nb) (len data)) as [E2|E2].
    { left. split; [done|]. rewrite E2. apply take_len. }
    replace (len data - off - nb) with (len data - (off + nb)) by lia.
    eapply sent_outcome_weaken; [|apply IH; lia]. rewrite !elem_of_cons. tauto.
  - right. split; [done|]. split; [|left; left]. eexists. symmetry. apply take_drop.
  - eapply sent_outcome_weaken; [|by apply IH]. rewrite !elem_of_cons. tauto.
  - right. split; [done|]. split; [|right; left]. eexists. symmetry. apply take_drop.
Qed.

(** C23: whatever the socket answers, a message is sent once and in order: success means
    that exactly its bytes were sent, an error that a prefix of them was and that the
    socket or the TLS library failed; nothing outside the message is read. *)
Theorem message_sent_whole (kind : Z) (data : list Z) (rs : list wres) (srs : list swres) :
  sent_outcome data (WFail EOTHER ∈ rs) (write_message rs (Message kind (len data) data)) /\
  sent_outcome data (SFail SSL_NONE ∈ srs \/ SFail SSL_FAILURE ∈ srs) (ssl_write_message srs (Message kind (len data) data)).
Proof.
  unfold write_message, ssl_write_message. cbn [m_length].
  pose proof (write_loop_outcome rs kind data 0 (or_intror eq_refl)) as H1.
  pose proof (ssl_write_loop_outcome srs kind data 0 (or_intror eq_refl)) as H2.
  rewrite Z.sub_0_r in H1, H2. done.
Qed.

(** A message is sent as soon as the socket takes enough bytes, however many calls
    that needs and whatever interruptions come between them. *)
Theorem message_sent_eventually (kind : Z) (data : list Z) (rs : list wres) (c : Z)
  (Hd : data <> []) (Hc : capacity rs = Some c) (Hle : len data <= c) :
  exists rest, write_message rs (Message kind (len data) data) = Done (MESSAGE_STATUS_OK, data, rest).
Proof.
  destruct (write_loop_completes rs kind data 0 c) as [rest H].
  - unfold len. destruct data; [done|]. cbn [length]. lia.
  - done.
  - lia.
  - exists rest. unfold write_message. cbn [m_length]. rewrite Z.sub_0_r in H. exact H.
Qed.

Lemma message_sent_eventually_witness :
  exists rest, write_message [Wrote 2; WFail EAGAIN; Wrote 0; Wrote 9] (Message 81 5 [81; 0; 0; 0; 4]) =
    Done (MESSAGE_STATUS_OK, [81; 0; 0; 0; 4], rest).
Proof.
  apply (message_sent_eventually 81 [81; 0; 0; 0; 4] [Wrote 2; WFail EAGAIN; Wrote 0; Wrote 9] 11).
  - discriminate.
  - reflexivity.
  - vm_compute. discriminate.
Defined.

(** ** Reading *)

Lemma read_int32_be32 (big : bool) (pre post : list Z) (v off : Z) :
  off = len pre -> in_i 32 v -> read_int32 big (pre ++ be32 v ++ post) off = Some v.
Proof.
  intros -> Hv. unfold read_int32, be32, len.
  rewrite (region_app pre (rev (le_bytes 4 v)) post) by (rewrite ?length_rev, ?length_le_bytes; done).
  cbn [mbind option_bind]. rewrite network_read_write. change (_ mod _) with (u32 v). by rewrite wraps_wrapu, wraps_id.
Qed.

(** The bytes that are still to come. *)
Definition bytes_of (rs : list rres) : list Z :=
  concat (map (fun r => match r with RData b bs => b :: bs | _ => [] end) rs).

(** A socket that neither ends nor fails. *)
Definition open_socket (rs : list rres) : Prop :=
  Forall (fun r => match r with RData _ _ | RFail EAGAIN => True | _ => False end) rs.

Lemma read_data_bytes (cap : Z) (bs : list Z) (rs : list rres) :
  (read_data cap bs rs).1 ++ bytes_of (read_data cap bs rs).2 = bs ++ bytes_of rs.
Proof.
  unfold read_data. cbn [fst snd]. rewrite <- (take_drop (Z.to_nat cap) bs) at 3. rewrite <- app_assoc. f_equal.
  by destruct (drop (Z.to_nat cap) bs).
Qed.

Lemma read_data_open (cap : Z) (bs : list Z) (rs : list rres) : open_socket rs -> open_socket (read_data cap bs rs).2.
Proof. intros H. unfold read_data. cbn [snd]. destruct (drop _ bs); [done|]. by constructor. Qed.

(** A message in the buffer. *)
Definition buffered (m : message) : Prop := m_length m = len (m_data m) /\ len (m_data m) <= MESSAGE_PARSE_BUFFER_SIZE.

Lemma read_message_bounds (rs : list rres) (block : bool) (err : option errno) :
  match read_message rs block err with
  | Done (status, m, _, _) =>
      match m with Some m => status = MESSAGE_STATUS_OK /\ buffered m /\ 0 < len (m_data m) | None => status <> MESSAGE_STATUS_OK end
  | Running => True
  | Undefined => False
  end.
Proof.
  revert err. induction rs as [|[b bs| |[|]] rs IH]; intros err; cbn [read_message read_data]; [done| | | |done].
  - split; [done|]. unfold buffered, len. cbn [m_length m_data]. rewrite length_take. cbn [length].
    change MESSAGE_PARSE_BUFFER_SIZE with 131064. lia.
  - destruct err as [[|]|]; [destruct block|done|done]; [apply IH|done].
  - destruct block; [apply IH|done].
Qed.

Lemma read_append_bounds (rs : list rres) (m : message) (needed : Z) :
  buffered m -> needed <= MESSAGE_PARSE_BUFFER_SIZE ->
  match read_append rs m needed with
  | Done (status, m', _) =>
      buffered m' /\ m_data m `prefix_of` m_data m' /\ (status = MESSAGE_STATUS_OK -> needed <= len (m_data m'))
  | Running => True
  | Undefined => False
  end.
Proof.
  intros Hm Hn. revert m Hm. induction rs as [|[b bs| |[|]] rs IH]; intros m [Hl Hb]; cbn [read_append];
    (destruct (Z.ltb_spec (m_length m) needed) as [Hlt|Hge]; [|split; [done|]; split; [done|lia]]); try done.
  - rewrite Hl in *. destruct (Z.ltb_spec (MESSAGE_PARSE_BUFFER_SIZE - len (m_data m)) (len (b :: bs))) as [Hc|Hc].
    + unfold read_data. set (d := take _ (b :: bs)).
      assert (len d = MESSAGE_PARSE_BUFFER_SIZE - len (m_data m)) as Hd.
      { unfold d, len in *. rewrite length_take. lia. }
      cbn [m_length m_data]. split; [split; cbn [m_length m_data]; rewrite len_app; lia|]. split; [by eexists|].
      intros _. rewrite len_app. lia.
    + assert (Hb' : buffered (Message (m_kind m) (len (m_data m) + len (b :: bs)) (m_data m ++ b :: bs))).
      { split; cbn [m_length m_data]; rewrite len_app; lia. }
      specialize (IH _ Hb'). destruct (read_append rs _ needed) as [[[st m'] r]| |]; [|done|done].
      destruct IH as (H1 & H2 & H3). split; [done|]. split; [|done].
      etrans; [|exact H2]. cbn [m_data]. by eexists.
  - by apply IH.
Qed.

(** C34: a complete read never goes past the buffer, whatever arrives; a message that it
    returns starts with a header whose length is covered by the bytes in the buffer. *)
Theorem read_complete_bounds (big : bool) (rs : list rres) (err : option errno) :
  match read_complete_message big rs err with
  | Done (status, Some m, _) =>
      status = MESSAGE_STATUS_OK /\ m_length m = len (m_data m) /\ len (m_data m) <= MESSAGE_PARSE_BUFFER_SIZE /\
      exists n, read_int32 big (m_data m) 1 = Some n /\ 4 <= n /\ n + 1 <= len (m_data m)
  | Done (status, None, _) => status <> MESSAGE_STATUS_OK
  | Running => True
  | Undefined => False
  end.
Proof.
  unfold read_complete_message. pose proof (read_message_bounds rs true err) as H1.
  destruct (read_message rs true err) as [[[[st [m|]] rs1] err1]| |]; [|done|done|done]. destruct H1 as (-> & Hm & _).
  pose proof (read_append_bounds rs1 m 5 Hm ltac:(done)) as H2.
  destruct (read_append rs1 m 5) as [[[st m2] rs2]| |]; [|done|done]. destruct H2 as (Hm2 & _ & Hok).
  destruct (Z.eqb_spec st MESSAGE_STATUS_OK) as [->|Hst]; [|done]. cbn [negb]. specialize (Hok eq_refl).
  assert (exists n, read_int32 big (m_data m2) 1 = Some n) as [n Hn].
  { unfold read_int32. rewrite region_take by lia. by eexists. }
  rewrite Hn. destruct (Z.ltb_spec n 4) as [|Hn4]; [done|]. destruct (Z.ltb_spec MESSAGE_PARSE_BUFFER_SIZE (n + 1)) as [|Hn5]; [done|].
  cbn [orb]. pose proof (read_append_bounds rs2 m2 (n + 1) Hm2 Hn5) as H3.
  destruct (read_append rs2 m2 (n + 1)) as [[[st m3] rs3]| |]; [|done|done]. destruct H3 as ([Hl3 Hb3] & [ext Hp] & Hok3).
  destruct (Z.eqb_spec st MESSAGE_STATUS_OK) as [->|Hst]; [|done]. cbn [negb]. split_and!; [done|done|done|].
  exists n. split; [|split; [lia|by apply Hok3]]. rewrite <- Hn. unfold read_int32.
  rewrite !region_take by (rewrite ?Hp, ?len_app; pose proof (len_nonneg ext); lia). rewrite Hp.
  change (Z.to_nat 1) with 1%nat. change (Z.to_nat 4) with 4%nat.
  rewrite drop_app_le by (unfold len in Hok; lia). rewrite take_app_le by (rewrite length_drop; unfold len in Hok; lia). done.
Qed.

Lemma read_message_open (rs : list rres) (err : option errno) :
  open_socket rs -> bytes_of rs <> [] ->
  exists m rs' err', read_message rs true err = Done (MESSAGE_STATUS_OK, Some m, rs', err') /\
    open_socket rs' /\ m_data m ++ bytes_of rs' = bytes_of rs.
Proof.
  intros Ho. revert err. induction Ho as [|r rs Hr Ho IH]; intros err Hne; [done|].
  destruct r as [b bs| |[|]]; try done.
  - cbn [read_message]. pose proof (read_data_bytes MESSAGE_PARSE_BUFFER_SIZE (b :: bs) rs) as Hb.
    pose proof (read_data_open MESSAGE_PARSE_BUFFER_SIZE (b :: bs) rs Ho) as Ho'.
    destruct (read_data _ _ _) as [d rs']. cbn [fst snd] in *. by eexists _, _, _.
  - apply (IH None Hne).
Qed.

Lemma read_append_open (rs : list rres) (m : message) (needed : Z) :
  open_socket rs -> buffered m -> needed <= MESSAGE_PARSE_BUFFER_SIZE -> needed <= len (m_data m ++ bytes_of rs) ->
  exists m' rs', read_append rs m needed = Done (MESSAGE_STATUS_OK, m', rs') /\
    open_socket rs' /\ m_data m' ++ bytes_of rs' = m_data m ++ bytes_of rs.
Proof.
  intros Ho Hm Hn. revert m Hm. induction Ho as [|r rs Hr Ho IH]; intros m Hm Hle.
  { rewrite app_nil_r in Hle. cbn [read_append]. destruct Hm as [Hl _]. rewrite Hl.
    rewrite (proj2 (Z.ltb_ge _ _)) by done. eexists _, _. split; [reflexivity|]. split; [constructor|done]. }
  pose proof Hm as [Hl Hb]. cbn [read_append].
  destruct (Z.ltb_spec (m_length m) needed) as [Hlt|Hge]; [|eexists _, _; split; [done|]; split; [by constructor|done]].
  destruct r as [b bs| |[|]]; try done.
  - rewrite Hl in *. destruct (Z.ltb_spec (MESSAGE_PARSE_BUFFER_SIZE - len (m_data m)) (len (b :: bs))) as [Hc|Hc].
    + pose proof (read_data_bytes (MESSAGE_PARSE_BUFFER_SIZE - len (m_data m)) (b :: bs) rs) as Hd.
      pose proof (read_data_open (MESSAGE_PARSE_BUFFER_SIZE - len (m_data m)) (b :: bs) rs Ho) as Ho'.
      assert (len (read_data (MESSAGE_PARSE_BUFFER_SIZE - len (m_data m)) (b :: bs) rs).1 = MESSAGE_PARSE_BUFFER_SIZE - len (m_data m)) as Hlen.
      { unfold read_data, len in *. cbn [fst]. rewrite length_take. lia. }
      destruct (read_data _ _ _) as [d rest]. cbn [fst snd m_length] in *.
      rewrite (proj2 (Z.ltb_ge _ _)) by lia. eexists _, _. split; [done|]. split; [done|]. cbn [m_data].
      rewrite <- app_assoc. by rewrite Hd.
    + destruct (IH (Message (m_kind m) (len (m_data m) + len (b :: bs)) (m_data m ++ b :: bs))) as (m' & rs' & E & H1 & H2).
      * split; cbn [m_length m_data]; rewrite len_app; lia.
      * cbn [m_data]. rewrite <- app_assoc. exact Hle.
      * exists m', rs'. split; [done|]. split; [done|]. rewrite H2. cbn [m_data]. by rewrite <- app_assoc.
  - by apply IH.
Qed.

Lemma frame_be32 (f : Z * list Z) : frame f = f.1 :: be32 (4 + len f.2) ++ f.2.
Proof. done. Qed.

Lemma len_frame (f : Z * list Z) : len (frame f) = 5 + len f.2.
Proof. rewrite frame_be32. len_solve. Qed.

(** The header of the frame that a buffer starts with. *)
Lemma frame_length_read (big : bool) (f : Z * list Z) (d rest tl : list Z) :
  d ++ tl = frame f ++ rest -> 5 <= len d -> 4 + len f.2 < 2 ^ 31 -> read_int32 big d 1 = Some (4 + len f.2).
Proof.
  intros E Hd Hf. pose proof (len_nonneg f.2) as Hp.
  assert (d = [f.1] ++ be32 (4 + len f.2) ++ drop 5 d) as ->.
  { rewrite frame_be32 in E. rewrite <- (take_drop 5 d) at 1. rewrite app_assoc. f_equal.
    assert (take 5 (d ++ tl) = take 5 d) as <- by (apply take_app_le; unfold len in Hd; lia).
    rewrite E. cbn [app]. rewrite <- app_assoc. done. }
  apply read_int32_be32; [done|]. unfold in_i. simpl. lia.
Qed.

(** C22: on a socket that neither ends nor fails, a complete read returns the message at
    the head of the stream, if it has at most 131064 bytes ([MESSAGE_PARSE_BUFFER_SIZE]; the
    code refuses a longer one), wherever the chunks are cut and however often the socket is
    not ready; what it read beyond the message and what it left are the rest of the
    stream. *)
Theorem read_complete_whole (big : bool) (rs : list rres) (err : option errno) (f : Z * list Z) (rest : list Z)
  (Ho : open_socket rs) (Hb : bytes_of rs = frame f ++ rest) (Hf : len (frame f) <= MESSAGE_PARSE_BUFFER_SIZE) :
  exists m rs' extra, read_complete_message big rs err = Done (MESSAGE_STATUS_OK, Some m, rs') /\
    m_data m = frame f ++ extra /\ extra ++ bytes_of rs' = rest.
Proof.
  pose proof (len_frame f) as Hlf. pose proof (len_nonneg f.2) as Hp.
  destruct (read_message_open rs err Ho ltac:(by rewrite Hb)) as (m1 & rs1 & err1 & E1 & Ho1 & B1).
  pose proof (read_message_bounds rs true err) as H1. rewrite E1 in H1. destruct H1 as (_ & Hm1 & _).
  assert (Hlen : forall d tl, d ++ tl = frame f ++ rest -> len (frame f) <= len (d ++ tl)).
  { intros d tl ->. rewrite len_app. pose proof (len_nonneg rest). lia. }
  pose proof (Hlen _ _ (eq_trans B1 Hb)) as Hl1.
  destruct (read_append_open rs1 m1 5 Ho1 Hm1 ltac:(done) ltac:(lia)) as (m2 & rs2 & E2 & Ho2 & B2).
  pose proof (read_append_bounds rs1 m1 5 Hm1 ltac:(done)) as H2. rewrite E2 in H2. destruct H2 as (Hm2 & _ & Hok2).
  specialize (Hok2 eq_refl). rewrite <- B2 in B1. pose proof (eq_trans B1 Hb) as B.
  assert (4 + len f.2 < 2 ^ 31) as Hi by (change MESSAGE_PARSE_BUFFER_SIZE with 131064 in Hf; lia).
  pose proof (frame_length_read big f (m_data m2) rest (bytes_of rs2) B Hok2 Hi) as Hr.
  unfold read_complete_message. rewrite E1, E2. cbn [negb Z.eqb MESSAGE_STATUS_OK Pos.eqb]. rewrite Hr.
  rewrite (proj2 (Z.ltb_ge _ 4)), (proj2 (Z.ltb_ge MESSAGE_PARSE_BUFFER_SIZE _)) by lia. cbn [orb].
  pose proof (Hlen _ _ B) as Hl2.
  destruct (read_append_open rs2 m2 (4 + len f.2 + 1) Ho2 Hm2 ltac:(lia) ltac:(lia)) as (m3 & rs3 & E3 & Ho3 & B3).
  pose proof (read_append_bounds rs2 m2 (4 + len f.2 + 1) Hm2 ltac:(lia)) as H3. rewrite E3 in H3. destruct H3 as (Hm3 & _ & Hok3).
  specialize (Hok3 eq_refl). rewrite E3. cbn [negb Z.eqb MESSAGE_STATUS_OK Pos.eqb]. rewrite B in B3.
  exists m3, rs3, (drop (length (frame f)) (m_data m3)). split; [done|].
  assert (length (frame f) <= length (m_data m3))%nat as Hle by (unfold len in *; lia).
  assert (take (length (frame f)) (m_data m3) = frame f) as Ht.
  { rewrite <- (take_app_le (m_data m3) (bytes_of rs3)) by done. rewrite B3. apply take_app_length. }
  split; [rewrite <- Ht at 1; by rewrite take_drop|].
  apply (app_inv_head (frame f)). rewrite <- B3, app_assoc. f_equal. rewrite <- Ht at 1. by rewrite take_drop.
Qed.

Lemma read_complete_whole_witness :
  exists m rs' extra, read_complete_message false [RData 90 [0; 0]; RFail EAGAIN; RData 0 [5; 73; 67]; RData 1 []] None =
      Done (MESSAGE_STATUS_OK, Some m, rs') /\
    m_data m = [90; 0; 0; 0; 5; 73] ++ extra /\ extra ++ bytes_of rs' = [67; 1].
Proof.
  apply (read_complete_whole false [RData 90 [0; 0]; RFail EAGAIN; RData 0 [5; 73; 67]; RData 1 []] None (90, [73]) [67; 1]).
  - repeat constructor.
  - reflexivity.
  - vm_compute. discriminate.
Defined.

(** ** The parser *)

(** A store after the first [n] bytes that matter. *)
Lemma store_after (b s : list Z) (n : Z) :
  0 <= n -> n + len s <= len b ->
  exists b', store b n s = Some b' /\ len b' = len b /\
    take (Z.to_nat (n + len s)) b' = take (Z.to_nat n) b ++ s.
Proof.
  intros Hn Hl. unfold store. fold (len s) (len b). rewrite !(proj2 (Z.leb_le _ _)) by lia. cbn [andb].
  eexists. split; [done|]. unfold len in *. split.
  - rewrite !length_app, length_take, length_drop. lia.
  - rewrite app_assoc. apply take_app_length'. rewrite length_app, length_take. lia.
Qed.

(** A message that the parser accepts. *)
Definition frame_fits (f : Z * list Z) : Prop := 0 <= f.1 < 128 /\ len f.2 <= 2 ^ 31 - 9.

(** The parser has the header of [f] and the bytes [p] of the message. *)
Record received (st : message_state) (f : Z * list Z) (p : list Z) : Prop := {
  r_header : header st = take 5 (frame f);
  r_header_len : header_len st = 5;
  r_remaining : payload_remaining st = len (frame f) - len p;
  r_size : len (msg_buffer st) = PARSE_BUFFER_LIMIT;
  r_buffer_len : msg_buffer_len st = Z.min PARSE_BUFFER_LIMIT (len p);
  r_buffer : take (Z.to_nat (msg_buffer_len st)) (msg_buffer st) = take (Z.to_nat (msg_buffer_len st)) p;
  r_target : msg_target_len st = len (frame f);
  r_least : 5 <= len p }.

(** The parser has the bytes [p] of the message, which may not cover the header. *)
Definition partial (st : message_state) (f : Z * list Z) (p : list Z) : Prop :=
  if len p <? 5 then
    len (header st) = 5 /\ header_len st = len p /\ take (length p) (header st) = p /\ len (msg_buffer st) = PARSE_BUFFER_LIMIT
  else received st f p.

(** Between two messages. *)
Definition idle (st : message_state) : Prop :=
  len (header st) = 5 /\ header_len st = 0 /\ len (msg_buffer st) = PARSE_BUFFER_LIMIT.

Lemma idle_partial (st : message_state) (f : Z * list Z) : idle st -> partial st f [].
Proof. intros (H1 & H2 & H3). by split_and!. Qed.

Lemma take_min_app (p d : list Z) (a b : Z) :
  0 <= a -> 0 <= b -> a <= len p -> (a < len p -> b = 0) -> b <= len d ->
  take (Z.to_nat a) p ++ take (Z.to_nat b) d = take (Z.to_nat (a + b)) (p ++ d).
Proof.
  intros Ha Hb Hp Hfull Hd. destruct (decide (a = len p)) as [->|Hne].
  - rewrite take_len, Z2Nat.inj_add by lia. unfold len at 1. rewrite Nat2Z.id. by rewrite take_app_add.
  - assert (b = 0) as -> by lia. rewrite Z.add_0_r, app_nil_r. rewrite take_app_le by (unfold len in *; lia). done.
Qed.

Section parser_facts.
Context (big : bool) {A : Type} (cb : Z -> list Z -> Z -> A -> A).

(** What the callback is shown of a message. *)
Definition shows (f : Z * list Z) (b : list Z) : Prop :=
  let n := Z.to_nat (Z.min PARSE_BUFFER_LIMIT (len (frame f))) in take n b = take n (frame f) /\ len b = PARSE_BUFFER_LIMIT.

(** The outcome of a round that leaves [q] of the message to come and [rest] of the chunk. *)
Definition round_outcome (f : Z * list Z) (p q rest : list Z) (a : A) (r : option (message_state * list Z * A)) : Prop :=
  match q with
  | [] => exists st' b, r = Some (st', rest, cb f.1 b (len (frame f)) a) /\ idle st' /\ shows f b
  | _ => exists st', r = Some (st', [], a) /\ partial st' f p
  end.

(** The payload that a round consumes. *)
Lemma consume_spec (st : message_state) (f : Z * list Z) (p d q rest : list Z) :
  received st f p -> frame f = p ++ d ++ q -> (q <> [] -> rest = []) -> 0 < payload_remaining st ->
  exists buffer,
    let to_consume := Z.min (payload_remaining st) (len (d ++ rest)) in
    let to_copy := Z.min (PARSE_BUFFER_LIMIT - msg_buffer_len st) to_consume in
    to_consume = len d /\ region (d ++ rest) 0 to_copy = Some (take (Z.to_nat to_copy) d) /\
    store (msg_buffer st) (msg_buffer_len st) (take (Z.to_nat to_copy) d) = Some buffer /\
    received (MessageState (header st) (header_len st) (payload_remaining st - to_consume) buffer
                (msg_buffer_len st + to_copy) (msg_target_len st)) f (p ++ d).
Proof.
  intros H E Hq Hpos. destruct H as [Hh Hhl Hr Hs Hbl Hb Ht Hp]. assert (PARSE_BUFFER_LIMIT = 8192) as Hlim by done.
  assert (El : len (frame f) = len p + len d + len q) by (rewrite E, !len_app; lia).
  pose proof (len_nonneg d) as Hd0. pose proof (len_nonneg q) as Hq0. pose proof (len_nonneg rest) as Hr0.
  assert (Hc : Z.min (payload_remaining st) (len (d ++ rest)) = len d).
  { rewrite Hr, len_app, El. destruct q as [|x q]; [|rewrite (Hq ltac:(done))]; change (len []) with 0 in *; lia. }
  cbv zeta. rewrite Hc. set (k := Z.min (PARSE_BUFFER_LIMIT - msg_buffer_len st) (len d)).
  assert (0 <= k <= len d /\ k <= PARSE_BUFFER_LIMIT - msg_buffer_len st /\
    (k = len d \/ k = PARSE_BUFFER_LIMIT - msg_buffer_len st)) as Hk by (unfold k; lia).
  assert (Hlt : len (take (Z.to_nat k) d) = k) by (unfold len in *; rewrite length_take; lia).
  destruct (store_after (msg_buffer st) (take (Z.to_nat k) d) (msg_buffer_len st)) as (b & Eb & Hlb & Htb); [lia|lia|].
  exists b. split; [done|]. split.
  { rewrite region_take by (rewrite ?len_app; lia). change (Z.to_nat 0) with 0%nat. rewrite drop_0.
    rewrite take_app_le by (unfold len in *; lia). done. }
  split; [done|]. rewrite Hlt in Htb. split; cbn [header header_len payload_remaining msg_buffer msg_buffer_len msg_target_len]; try done.
  - rewrite len_app. lia.
  - lia.
  - rewrite len_app. lia.
  - rewrite Htb, Hb. apply take_min_app; lia.
  - rewrite len_app. lia.
Qed.

Lemma frame_kind (f : Z * list Z) : frame_fits f -> read_byte (take 5 (frame f)) 0 = Some f.1.
Proof. intros [Hk _]. rewrite frame_be32. apply (read_byte_at [] _ f.1 0); [done|lia]. Qed.

(** A message that is complete. *)
Lemma complete_spec (st : message_state) (f : Z * list Z) (rest : list Z) (a : A) :
  received st f (frame f) -> frame_fits f ->
  exists st' b,
    (if (payload_remaining st =? 0) && (header_len st =? 5) then
       a ← (if 0 <? msg_buffer_len st
            then kind ← read_byte (header st) 0; Some (cb kind (msg_buffer st) (msg_target_len st) a)
            else Some a);
       Some (MessageState (header st) 0 (payload_remaining st) (msg_buffer st) 0 0, rest, a)
     else Some (st, rest, a)) = Some (st', rest, cb f.1 b (len (frame f)) a) /\ idle st' /\ shows f b.
Proof.
  intros [Hh Hhl Hr Hs Hbl Hb Ht Hp] Hf. rewrite Hr, Z.sub_diag, Hhl. cbn [Z.eqb andb Pos.eqb].
  rewrite (proj2 (Z.ltb_lt 0 _)) by (rewrite Hbl; change PARSE_BUFFER_LIMIT with 8192; lia).
  rewrite Hh, frame_kind by done. cbn [mbind option_bind]. rewrite Ht. eexists _, _. split; [done|]. split.
  - split; [|done]. cbn [header]. unfold len in *. rewrite length_take. lia.
  - split; [|done]. by rewrite <- Hbl.
Qed.

Lemma parse_payload_spec (st : message_state) (f : Z * list Z) (p d q rest : list Z) (a : A) :
  received st f p -> frame_fits f -> frame f = p ++ d ++ q -> (q <> [] -> rest = []) ->
  round_outcome f (p ++ d) q rest a (parse_payload cb st (d ++ rest) a).
Proof.
  intros H Hf E Hq. unfold parse_payload.
  pose proof (len_nonneg d) as Hd0. pose proof (len_nonneg q) as Hq0.
  assert (El : len (frame f) = len p + len d + len q) by (rewrite E, !len_app; lia).
  destruct (Z.ltb_spec 0 (payload_remaining st)) as [Hpos|Hz].
  - destruct (consume_spec st f p d q rest H E Hq Hpos) as (b & Hc & Hrg & Hst & Hrec). cbv zeta in *.
    rewrite Hrg. cbn [mbind option_bind]. rewrite Hst. cbn [mbind option_bind].
    rewrite Hc in *.
    assert (drop (Z.to_nat (len d)) (d ++ rest) = rest) as -> by (unfold len; rewrite Nat2Z.id; apply drop_app_length).
    destruct q as [|x q]; cbn [round_outcome].
    + rewrite app_nil_r in E. rewrite <- E in Hrec. by apply complete_spec.
    + rewrite (Hq ltac:(done)). eexists. split.
      * destruct Hrec as [_ _ Hr _ _ _ _ _]. cbn [payload_remaining] in *.
        rewrite (proj2 (Z.eqb_neq _ 0)); [done|]. rewrite Hr, len_app, El. rewrite len_cons. pose proof (len_nonneg q). lia.
      * unfold partial. rewrite (proj2 (Z.ltb_ge _ _)); [done|]. apply Hrec.
  - destruct H as [Hh Hhl Hr Hs Hbl Hb Ht Hp]. 
    assert (d = [] /\ q = []) as [-> ->].
    { split; [destruct d|destruct q]; try done; rewrite len_cons in *; pose proof (len_nonneg d); pose proof (len_nonneg q); lia. }
    rewrite !app_nil_r in E. subst p. cbn [app round_outcome mbind option_bind]. by apply complete_spec.
Qed.

(** The header that a round completes. *)
Lemma header_spec (st : message_state) (f : Z * list Z) (p d q : list Z) (n : Z) :
  len p < 5 -> partial st f p -> frame f = p ++ d ++ q -> n = Z.min (5 - len p) (len d) ->
  exists h, store (header st) (header_len st) (take (Z.to_nat n) d) = Some h /\ len h = 5 /\
    take (Z.to_nat (len p + n)) h = p ++ take (Z.to_nat n) d.
Proof.
  unfold partial. intros Hp H E ->. rewrite (proj2 (Z.ltb_lt _ _)) in H by done. destruct H as (H1 & H2 & H3 & _).
  pose proof (len_nonneg p) as Hp0. pose proof (len_nonneg d) as Hd0. set (n := Z.min (5 - len p) (len d)).
  assert (0 <= n <= len d /\ n <= 5 - len p) as Hn by (unfold n; lia).
  assert (Hl : len (take (Z.to_nat n) d) = n) by (unfold len in *; rewrite length_take; lia).
  destruct (store_after (header st) (take (Z.to_nat n) d) (header_len st)) as (h & Eh & Hlh & Hth); [lia|lia|].
  exists h. split; [done|]. split; [lia|]. rewrite Hl, H2 in Hth. rewrite Hth. f_equal.
  unfold len. by rewrite Nat2Z.id.
Qed.

Lemma parse_round_spec (st : message_state) (f : Z * list Z) (p d q rest : list Z) (a : A) :
  partial st f p -> frame_fits f -> frame f = p ++ d ++ q -> (q <> [] -> rest = []) ->
  round_outcome f (p ++ d) q rest a (parse_round big cb st (d ++ rest) a).
Proof.
  intros H Hf E Hq. unfold parse_round. destruct (Z.ltb_spec (len p) 5) as [Hp|Hp].
  2: { unfold partial in H. rewrite (proj2 (Z.ltb_ge _ _)) in H by done.
       rewrite (r_header_len _ _ _ H). cbn [Z.ltb Z.compare Pos.compare Pos.compare_cont]. by apply parse_payload_spec. }
  pose proof (len_nonneg p) as Hp0. pose proof (len_nonneg d) as Hd0. pose proof (len_nonneg q) as Hq0.
  assert (El : len p + len d + len q = 5 + len f.2) by (rewrite <- len_frame, E, !len_app; lia).
  pose proof (len_nonneg f.2) as Hf0.
  assert (Hn : Z.min (5 - len p) (len (d ++ rest)) = Z.min (5 - len p) (len d)).
  { rewrite len_app. destruct q as [|x q]; [|rewrite (Hq ltac:(done)); change (len []) with 0; lia].
    change (len []) with 0 in El. pose proof (len_nonneg rest). lia. }
  destruct (header_spec st f p d q _ Hp H E eq_refl) as (h & Eh & Hlh & Hth).
  assert (Hpart : header_len st = len p /\ len (msg_buffer st) = PARSE_BUFFER_LIMIT).
  { unfold partial in H. rewrite (proj2 (Z.ltb_lt _ _)) in H by done. tauto. }
  destruct Hpart as [Hhl Hbuf]. rewrite Hhl in *. rewrite (proj2 (Z.ltb_lt (len p) 5)) by done. rewrite Hn.
  set (n := Z.min (5 - len p) (len d)) in *. assert (0 <= n <= len d) as Hnd by (unfold n; lia).
  rewrite region_take by (rewrite ?len_app; pose proof (len_nonneg rest); lia). change (Z.to_nat 0) with 0%nat. rewrite drop_0.
  rewrite take_app_le by (unfold len in *; lia). cbn [mbind option_bind]. rewrite Eh. cbn [mbind option_bind header_len msg_buffer].
  destruct (Z.ltb_spec (len p + n) 5) as [Hlt|Hge].
  - assert (n = len d) as En by (unfold n in *; lia). destruct q as [|x q]; [change (len []) with 0 in El; lia|]. cbn [round_outcome].
    eexists. split; [done|]. unfold partial. rewrite len_app, <- En, (proj2 (Z.ltb_lt _ _)) by done.
    cbn [header header_len msg_buffer]. split_and!; [done|done| |done].
    rewrite En, take_len in Hth.
    assert (length (p ++ d) = Z.to_nat (len p + len d)) as -> by (rewrite length_app; unfold len; lia). exact Hth.
  - assert (len p + n = 5) as E5 by (unfold n in *; lia). rewrite E5 in Hth.
    rewrite <- (take_drop (Z.to_nat n) d) in E. rewrite <- app_assoc, app_assoc in E.
    assert (take (Z.to_nat 5) h = h) as Eh5 by (rewrite <- Hlh; apply take_len). rewrite Eh5 in Hth. rewrite <- Hth in E.
    assert (Hh5 : h = take 5 (frame f)) by (rewrite E, take_app_le by (unfold len in *; lia); symmetry; exact Eh5).
    rewrite (frame_length_read big f h [] (drop (Z.to_nat n) d ++ q)) by
      (rewrite ?app_nil_r; first [by rewrite <- E|lia|destruct Hf; lia]).
    cbn [mbind option_bind]. destruct Hf as [Hk Hfl].
    rewrite (proj2 (Z.ltb_ge _ 4)), (proj2 (Z.ltb_ge (2 ^ 31 - 1 - 4) _)) by lia. cbn [orb].
    destruct (store_after (msg_buffer st) h 0) as (b & Eb & Hlb & Htb); [lia|rewrite Hbuf, Hlh; done|].
    rewrite Eb. cbn [mbind option_bind].
    rewrite drop_app_le by (unfold len in *; lia).
    assert (p ++ d = h ++ drop (Z.to_nat n) d) as -> by (rewrite Hth, <- app_assoc, take_drop; done).
    apply parse_payload_spec; [|done|done|done].
    rewrite Z.add_0_l, Hlh in Htb. cbn [take app] in Htb.
    split; cbn [header header_len payload_remaining msg_buffer msg_buffer_len msg_target_len];
      rewrite ?Hlh, ?len_frame; try done; try lia.
    rewrite Eh5. exact Htb.
Qed.

(** The calls of the callback for the messages [fs]. *)
Inductive delivers : list (Z * list Z) -> A -> A -> Prop :=
| delivers_nil a : delivers [] a a
| delivers_cons f fs b a a' : shows f b -> delivers fs (cb f.1 b (len (frame f)) a) a' -> delivers (f :: fs) a a'.

Lemma delivers_app (fs gs : list (Z * list Z)) (a b c : A) :
  delivers fs a b -> delivers gs b c -> delivers (fs ++ gs) a c.
Proof. induction 1; [done|]. intros H'. simpl. econstructor; eauto. Qed.

(** [q] is a part of the message [f], but not all of it. *)
Definition begins (q : list Z) (f : Z * list Z) : Prop := exists t, t <> [] /\ frame f = q ++ t.

Lemma begins_nil (f : Z * list Z) : begins [] f.
Proof. exists (frame f). split; [|done]. by rewrite frame_be32. Qed.

Lemma begins_app (p x : list Z) (f : Z * list Z) (d : list Z) :
  begins p f -> p ++ d = frame f ++ x -> exists d1, d1 <> [] /\ frame f = p ++ d1 /\ d = d1 ++ x.
Proof.
  intros (t & Ht & E) H. exists t. split; [done|]. split; [done|]. rewrite E, <- app_assoc in H. by apply app_inv_head in H.
Qed.

(** The message that the parser is in. *)
Definition current (g : Z * list Z) (fs : list (Z * list Z)) : Z * list Z := match fs with [] => g | f :: _ => f end.

Lemma parse_loop_spec (g : Z * list Z) (q : list Z) (fs : list (Z * list Z)) (st : message_state) (p data : list Z) (a : A)
  (fuel : nat) :
  frame_fits g -> Forall frame_fits fs -> begins q g -> partial st (current g fs) p -> begins p (current g fs) ->
  p ++ data = frames fs ++ q -> (length data <= fuel)%nat ->
  exists st' a', parse_loop big cb fuel st data a = Done (st', a') /\ partial st' g q /\ delivers fs a a'.
Proof.
  intros Hg Hfs Hq. revert st p data a fuel. induction Hfs as [|f fs Hf Hfs IH]; intros st p data a fuel Hst Hp E Hfuel.
  - cbn [frames map concat app current] in *. destruct data as [|x data].
    { rewrite app_nil_r in E. subst q. exists st, a. split; [by destruct fuel|]. split; [done|constructor]. }
    destruct fuel as [|fuel]; [simpl in Hfuel; lia|]. cbn [parse_loop]. destruct Hq as (t & Ht & Eg).
    pose proof (parse_round_spec st g p (x :: data) t [] a Hst Hg) as H. rewrite app_nil_r in H.
    rewrite E in H. specialize (H ltac:(by rewrite Eg, <- E, <- app_assoc) ltac:(done)).
    destruct t as [|y t]; [done|]. destruct H as (st' & -> & H'). exists st', a. split; [by destruct fuel|]. split; [done|constructor].
  - change (frames (f :: fs)) with (frame f ++ frames fs) in E. cbn [current] in *. rewrite <- app_assoc in E.
    destruct (begins_app p _ f data Hp E) as (d & Hd & Ef & ->).
    destruct fuel as [|fuel]; [destruct d; [done|simpl in Hfuel; lia]|].
    pose proof (parse_round_spec st f p d [] (frames fs ++ q) a Hst Hf ltac:(by rewrite app_nil_r) ltac:(done)) as H.
    destruct H as (st' & b & Er & Hi & Hb).
    destruct (IH st' [] (frames fs ++ q) (cb f.1 b (len (frame f)) a) fuel) as (st2 & a2 & H1 & H2 & H3).
    + by apply idle_partial.
    + apply begins_nil.
    + done.
    + rewrite length_app in Hfuel. destruct d; [done|]. simpl in Hfuel. lia.
    + exists st2, a2. split; [|split; [done|by econstructor]]. destruct (d ++ frames fs ++ q) eqn:Ed; [by destruct d|].
      cbn [parse_loop]. rewrite Er. exact H1.
Qed.

(** Any cut of a stream falls into one of its messages. *)
Lemma cut_stream (g : Z * list Z) (q : list Z) (fs : list (Z * list Z)) (x y : list Z) :
  begins q g -> x ++ y = frames fs ++ q ->
  exists fs1 fs2 q1, fs = fs1 ++ fs2 /\ x = frames fs1 ++ q1 /\ q1 ++ y = frames fs2 ++ q /\ begins q1 (current g fs2).
Proof.
  intros Hq. revert x. induction fs as [|f fs IH]; intros x E.
  - exists [], [], x. split_and!; [done|done|done|]. cbn [frames map concat app current] in *. subst q.
    destruct Hq as (t & Ht & E). exists (y ++ t). split; [by destruct y|]. by rewrite E, <- app_assoc.
  - change (frames (f :: fs)) with (frame f ++ frames fs) in E. rewrite <- app_assoc in E.
    apply app_eq_app in E as (k & [[-> E]|[Ef E]]).
    + destruct (IH k ltac:(by rewrite E)) as (fs1 & fs2 & q1 & -> & -> & H1 & H2).
      exists (f :: fs1), fs2, q1. split_and!; [done| |done|done].
      change (frames (f :: fs1)) with (frame f ++ frames fs1). by rewrite <- app_assoc.
    + destruct k as [|b k].
      * rewrite app_nil_r in Ef. subst x. destruct (IH [] ltac:(cbn [app] in *; congruence)) as (fs1 & fs2 & q1 & -> & H0 & H1 & H2).
        exists (f :: fs1), fs2, q1. split_and!; [done| |done|done].
        change (frames (f :: fs1)) with (frame f ++ frames fs1). rewrite <- app_assoc, <- H0. by rewrite app_nil_r.
      * exists [], (f :: fs), x. split_and!; [done|done| |by exists (b :: k)].
        change (frames (f :: fs)) with (frame f ++ frames fs). rewrite Ef, E. by rewrite <- !app_assoc.
Qed.

Lemma parse_chunks_spec (g : Z * list Z) (q : list Z) (chunks : list (list Z)) (fs : list (Z * list Z)) (st : message_state)
  (p : list Z) (a : A) :
  frame_fits g -> Forall frame_fits fs -> begins q g -> partial st (current g fs) p -> begins p (current g fs) ->
  p ++ concat chunks = frames fs ++ q ->
  exists st' a', parse_chunks big cb st chunks a = Done (st', a') /\ partial st' g q /\ delivers fs a a'.
Proof.
  intros Hg Hfs Hq. revert fs Hfs st p a. induction chunks as [|c chunks IH]; intros fs Hfs st p a Hst Hp E.
  - destruct (parse_loop_spec g q fs st p [] a 0 Hg Hfs Hq Hst Hp E ltac:(done)) as (st' & a' & H & H1 & H2).
    exists st', a'. split; [|done]. cbn [parse_loop parse_chunks] in *. done.
  - cbn [concat] in E. rewrite app_assoc in E.
    destruct (cut_stream g q fs _ _ Hq E) as (fs1 & fs2 & q1 & -> & E1 & E2 & Hq1). apply Forall_app in Hfs as [Hfs1 Hfs2].
    assert (Hc : frame_fits (current g fs2)) by (destruct Hfs2; done).
    assert (Hcur : fs1 = [] \/ exists f fs', fs1 = f :: fs') by (destruct fs1; eauto).
    destruct (parse_loop_spec (current g fs2) q1 fs1 st p c a (S (length c)) Hc Hfs1 Hq1) as (st1 & a1 & H1 & H2 & H3).
    + destruct Hcur as [->|(f & fs' & ->)]; done.
    + destruct Hcur as [->|(f & fs' & ->)]; done.
    + done.
    + lia.
    + destruct (IH fs2 Hfs2 st1 q1 a1 H2 Hq1 E2) as (st2 & a2 & H4 & H5 & H6).
      exists st2, a2. split; [|split; [done|by eapply delivers_app]]. cbn [parse_chunks]. unfold parse_message. rewrite H1. exact H4.
Qed.

Lemma zero_idle : idle zero_state.
Proof. done. Qed.
End parser_facts.

(** C8: however a stream of messages is cut into chunks, the parser calls the callback
    once for each complete message, in order, with its kind, its length and its bytes
    (the first 8192 of a longer one); the bytes of a message that is not complete yet
    are kept for the next chunk. *)
Theorem stream_parsed (big : bool) (A : Type) (cb : Z -> list Z -> Z -> A -> A) (a : A)
  (chunks : list (list Z)) (fs : list (Z * list Z)) (g : Z * list Z) (q : list Z)
  (Hfs : Forall frame_fits fs) (Hg : frame_fits g) (Hq : begins q g) (E : concat chunks = frames fs ++ q) :
  exists st a', parse_chunks big cb zero_state chunks a = Done (st, a') /\ delivers cb fs a a' /\ partial st g q.
Proof.
  destruct (parse_chunks_spec big cb g q chunks fs zero_state [] a Hg Hfs Hq) as (st & a' & H1 & H2 & H3).
  - apply idle_partial, zero_idle.
  - apply begins_nil.
  - done.
  - by exists st, a'.
Qed.

Lemma stream_parsed_witness :
  exists st a', parse_chunks false (fun kind _ n a => a ++ [(kind, n)]) zero_state [[90; 0; 0]; [0; 5; 73; 81]; [0]] [] =
      Done (st, a') /\
    delivers (fun kind _ n a => a ++ [(kind, n)]) [(90, [73])] [] a' /\ partial st (81, []) [81; 0].
Proof.
  apply (stream_parsed false _ (fun kind _ n a => a ++ [(kind, n)]) [] [[90; 0; 0]; [0; 5; 73; 81]; [0]] [(90, [73])] (81, []) [81; 0]).
  - constructor; [|constructor]. split; [simpl; lia|]. vm_compute. discriminate.
  - split; [simpl; lia|]. vm_compute. discriminate.
  - exists [0; 0; 4]. split; [discriminate|reflexivity].
  - reflexivity.
Defined.

(** ** Any bytes *)

(** What the parser keeps between two calls. *)
Record state_ok (st : message_state) : Prop := {
  s_header : len (header st) = 5;
  s_header_len : 0 <= header_len st <= 5;
  s_remaining : header_len st = 5 -> 0 < payload_remaining st;
  s_buffer : len (msg_buffer st) = PARSE_BUFFER_LIMIT;
  s_buffer_len : 0 <= msg_buffer_len st <= PARSE_BUFFER_LIMIT }.

Lemma read_int32_range (big : bool) (h : list Z) : len h = 5 -> exists v, read_int32 big h 1 = Some v /\ v < 2 ^ 31.
Proof.
  intros Hh. unfold read_int32. rewrite region_take by lia. cbn [mbind option_bind]. eexists. split; [done|].
  unfold wraps. simpl Z.sub. match goal with |- context [?a mod ?b] => pose proof (Z.mod_pos_bound a b ltac:(lia)) end. lia.
Qed.

Section any_bytes.
Context (big : bool) {A : Type} (cb : Z -> list Z -> Z -> A -> A).

(** A state that may have received a whole message. *)
Definition payload_ok (st : message_state) : Prop :=
  len (header st) = 5 /\ header_len st = 5 /\ 0 <= payload_remaining st /\
  len (msg_buffer st) = PARSE_BUFFER_LIMIT /\ 0 <= msg_buffer_len st <= PARSE_BUFFER_LIMIT.

Lemma parse_payload_total (st : message_state) (data : list Z) (a : A) :
  payload_ok st -> exists st' data' a', parse_payload cb st data a = Some (st', data', a') /\ state_ok st' /\
    (length data' <= length data)%nat /\ (0 < payload_remaining st -> data <> [] -> (length data' < length data)%nat).
Proof.
  intros (H1 & H2 & H3 & H4 & H5). unfold parse_payload. pose proof (len_nonneg data) as Hd.
  assert (Hdone : forall (st : message_state) (data : list Z), payload_ok st -> exists st' a',
    (if (payload_remaining st =? 0) && (header_len st =? 5) then
       a ← (if 0 <? msg_buffer_len st
            then kind ← read_byte (header st) 0; Some (cb kind (msg_buffer st) (msg_target_len st) a)
            else Some a);
       Some (MessageState (header st) 0 (payload_remaining st) (msg_buffer st) 0 0, data, a)
     else Some (st, data, a)) = Some (st', data, a') /\ state_ok st').
  { clear. intros st data (H1 & H2 & H3 & H4 & H5). rewrite H2. cbn [Z.eqb Pos.eqb]. rewrite andb_true_r.
    destruct (Z.eqb_spec (payload_remaining st) 0) as [E|E].
    - assert (exists a', (if 0 <? msg_buffer_len st
            then kind ← read_byte (header st) 0; Some (cb kind (msg_buffer st) (msg_target_len st) a) else Some a) = Some a') as [a' ->].
      { destruct (0 <? _); [|eauto]. unfold read_byte. rewrite region_take by lia. cbn [mbind option_bind]. eauto. }
      cbn [mbind option_bind]. eexists _, _. split; [done|]. split; cbn; try done; lia.
    - eexists _, _. split; [done|]. split; try done; lia. }
  destruct (Z.ltb_spec 0 (payload_remaining st)) as [Hpos|Hz].
  - set (c := Z.min (payload_remaining st) (len data)). set (k := Z.min (PARSE_BUFFER_LIMIT - msg_buffer_len st) c).
    assert (0 <= k <= c /\ 0 <= c <= len data /\ c <= payload_remaining st /\ k <= PARSE_BUFFER_LIMIT - msg_buffer_len st) as Hk by (unfold k, c; lia).
    rewrite region_take by lia. cbn [mbind option_bind]. change (Z.to_nat 0) with 0%nat. rewrite drop_0.
    assert (Hlt : len (take (Z.to_nat k) data) = k) by (unfold len in *; rewrite length_take; lia).
    destruct (store_after (msg_buffer st) (take (Z.to_nat k) data) (msg_buffer_len st)) as (b & -> & Hlb & _); [lia|lia|].
    cbn [mbind option_bind].
    destruct (Hdone (MessageState (header st) (header_len st) (payload_remaining st - c) b (msg_buffer_len st + k) (msg_target_len st))
      (drop (Z.to_nat c) data)) as (st' & a' & E & Hst).
    { split_and!; cbn; try done; lia. }
    exists st', (drop (Z.to_nat c) data), a'. split; [exact E|]. split; [done|]. rewrite length_drop. split; [lia|].
    intros _ Hne. assert (0 < c) by (unfold c, len; destruct data; [done|]; cbn [length]; lia). destruct data; [done|].
    cbn [length]. lia.
  - cbn [mbind option_bind]. destruct (Hdone st data) as (st' & a' & E & Hst); [split_and!; try done; lia|].
    exists st', data, a'. split; [exact E|]. split; [done|]. split; [done|lia].
Qed.

Lemma parse_round_total (st : message_state) (data : list Z) (a : A) :
  state_ok st -> data <> [] -> exists st' data' a', parse_round big cb st data a = Some (st', data', a') /\ state_ok st' /\
    (length data' < length data)%nat.
Proof.
  intros [H1 H2 H3 H4 H5] Hne. assert (Hld : 0 < len data) by (unfold len; destruct data; [done|]; cbn [length]; lia).
  unfold parse_round. destruct (Z.ltb_spec (header_len st) 5) as [Hlt|Hge].
  2: { destruct (parse_payload_total st data a) as (st' & d & a' & E & Hst & _ & Hl); [split_and!; try done; lia|].
       exists st', d, a'. split; [done|]. split; [done|]. apply Hl; [apply H3; lia|done]. }
  set (n := Z.min (5 - header_len st) (len data)). assert (0 < n <= len data /\ n <= 5 - header_len st) as Hn by (unfold n; lia).
  rewrite region_take by lia. cbn [mbind option_bind]. change (Z.to_nat 0) with 0%nat. rewrite drop_0.
  assert (Hl : len (take (Z.to_nat n) data) = n) by (unfold len in *; rewrite length_take; lia).
  destruct (store_after (header st) (take (Z.to_nat n) data) (header_len st)) as (h & -> & Hlh & _); [lia|lia|].
  cbn [mbind option_bind header_len msg_buffer].
  assert (Hnil : (length (@nil Z) < length data)%nat) by (destruct data; [done|simpl; lia]).
  destruct (Z.ltb_spec (header_len st + n) 5) as [Hlt5|Hge5].
  { eexists _, _, _. split; [done|]. split; [|done]. split; cbn; try done; lia. }
  destruct (read_int32_range big h ltac:(lia)) as (v & -> & Hv). cbn [mbind option_bind].
  destruct (Z.ltb_spec v 4) as [Hv4|Hv4]; cbn [orb].
  { eexists _, _, _. split; [done|]. split; [|done]. split; cbn; try done; lia. }
  destruct (Z.ltb_spec (2 ^ 31 - 1 - 4) v) as [Hv5|Hv5].
  { eexists _, _, _. split; [done|]. split; [|done]. split; cbn; try done; lia. }
  destruct (store_after (msg_buffer st) h 0) as (b & -> & Hlb & _); [lia|rewrite H4, Hlh, H1; done|]. cbn [mbind option_bind].
  destruct (parse_payload_total (MessageState h 5 (v + 1 - 5) b 5 (v + 1)) (drop (Z.to_nat n) data) a) as (st' & d & a' & E & Hst & Hle & _).
  { split_and!; cbn; try done; lia. }
  exists st', d, a'. split; [exact E|]. split; [done|]. rewrite length_drop in Hle. unfold len in *. lia.
Qed.

Lemma parse_loop_total (fuel : nat) (st : message_state) (data : list Z) (a : A) :
  state_ok st -> (length data <= fuel)%nat -> exists st' a', parse_loop big cb fuel st data a = Done (st', a') /\ state_ok st'.
Proof.
  revert st data a. induction fuel as [|fuel IH]; intros st data a Hst Hf.
  { destruct data; [|simpl in Hf; lia]. by exists st, a. }
  destruct data as [|x data]; [by exists st, a|]. cbn [parse_loop].
  destruct (parse_round_total st (x :: data) a Hst ltac:(done)) as (st' & d & a' & -> & Hst' & Hl).
  apply IH; [done|]. lia.
Qed.

(** A property of the callback's state that every call keeps is kept by the parser. *)
Lemma parse_payload_keeps (P : A -> Prop) (st st' : message_state) (data data' : list Z) (a a' : A) :
  (forall k b n a, P a -> P (cb k b n a)) -> P a -> parse_payload cb st data a = Some (st', data', a') -> P a'.
Proof.
  intros Hcb Ha. unfold parse_payload. intros E. apply bind_Some in E as ([st1 d1] & _ & E).
  destruct (_ && _); [|by simplify_eq]. apply bind_Some in E as (a1 & E1 & E). simplify_eq.
  destruct (0 <? _); [|by simplify_eq]. apply bind_Some in E1 as (k & _ & E1). simplify_eq. by apply Hcb.
Qed.

Lemma parse_loop_keeps (P : A -> Prop) (fuel : nat) (st st' : message_state) (data : list Z) (a a' : A) :
  (forall k b n a, P a -> P (cb k b n a)) -> P a -> parse_loop big cb fuel st data a = Done (st', a') -> P a'.
Proof.
  intros Hcb. revert st data a. induction fuel as [|fuel IH]; intros st data a Ha E; destruct data as [|x data]; try by simplify_eq/=.
  cbn [parse_loop] in E. destruct (parse_round big cb st (x :: data) a) as [[[st1 d1] a1]|] eqn:Er; [|done].
  apply (IH st1 d1 a1); [|done]. unfold parse_round in Er. destruct (header_len st <? 5); [|by eapply parse_payload_keeps].
  apply bind_Some in Er as (bs & _ & Er). apply bind_Some in Er as (h & _ & Er). destruct (_ <? 5); [by simplify_eq|].
  apply bind_Some in Er as (v & _ & Er). destruct (_ || _); [by simplify_eq|]. apply bind_Some in Er as (b & _ & Er).
  by eapply parse_payload_keeps.
Qed.
End any_bytes.

(** On any bytes, a call of the parser ends, within its buffers, in a state that the
    next call can start from. *)
Theorem parse_total (big : bool) (A : Type) (cb : Z -> list Z -> Z -> A -> A) (st : message_state) (data : list Z) (a : A)
  (Hst : state_ok st) :
  exists st' a', parse_message big cb st data a = Done (st', a') /\ state_ok st'.
Proof. apply parse_loop_total; [done|lia]. Qed.

Lemma zero_state_ok : state_ok zero_state.
Proof. split; cbn; try done; lia. Qed.

Lemma parse_total_witness :
  exists st' a', parse_message false (fun _ _ _ n => n + 1) zero_state [255; 255; 255; 255; 255; 7] 0 = Done (st', a') /\ state_ok st'.
Proof. apply (parse_total false Z (fun _ _ _ n => n + 1) zero_state [255; 255; 255; 255; 255; 7] 0 zero_state_ok). Defined.

(** ** Following the transaction state *)

(** The status of a ReadyForQuery, and whether an ErrorResponse is fatal. *)
Definition rfq_status (f : Z * list Z) : option Z := if f.1 =? chr "Z" then head f.2 else None.
Definition rfq_idle (f : Z * list Z) : bool := match rfq_status f with Some s => s =? chr "I" | None => false end.
Definition fatal_error (f : Z * list Z) : bool :=
  (f.1 =? chr "E") && (7 <=? len f.2) &&
  (bool_decide (take 6 f.2 = str "SFATAL") || bool_decide (take 6 f.2 = str "SPANIC")).

Definition last_status (fs : list (Z * list Z)) : option Z :=
  foldl (fun acc f => match rfq_status f with Some s => Some s | None => acc end) None fs.

(** A message of a server: bytes, and a status in every ReadyForQuery. *)
Definition server_frame (f : Z * list Z) : Prop := bytes_ok f.2 /\ (f.1 = chr "Z" -> f.2 <> []).

Definition server_step (s : pipeline_server_state) (f : Z * list Z) : pipeline_server_state :=
  PipelineServerState
    (match p_in_tx s, rfq_status f with Some _, Some x => Some (negb (x =? chr "I")) | t, _ => t end)
    (match p_saw_rfq s with Some b => Some (b || rfq_idle f) | None => None end)
    (match p_fatal s with Some b => Some (b || fatal_error f) | None => None end)
    (p_tx_count s + match p_in_tx s, rfq_status f with Some b, Some x => if negb (x =? chr "I") && negb b then 1 else 0 | _, _ => 0 end).

Lemma i8_byte (b c : Z) : 0 <= b < 256 -> 0 <= c < 128 -> (i8 b =? c) = (b =? c).
Proof.
  intros Hb Hc. destruct (decide (b < 128)).
  - by rewrite wraps_id by (unfold in_i; simpl; lia).
  - assert (i8 b < 0); [|destruct (Z.eqb_spec (i8 b) c), (Z.eqb_spec b c); lia || done].
    unfold wraps. change (2 ^ (8 - 1)) with 128. change (2 ^ 8) with 256.
    rewrite <- (Z.mod_unique (b + 128) 256 1 (b - 128)) by lia. lia.
Qed.

(** The first bytes of the payload in the buffer of the callback. *)
Lemma shows_payload (f : Z * list Z) (b : list Z) (n : nat) :
  shows f b -> (n <= 7)%nat -> (n <= length f.2)%nat -> take n (drop 5 b) = take n f.2.
Proof.
  intros [Hs Hl] Hn Hf. pose proof (len_frame f) as Hlf. unfold len in Hlf.
  set (m := Z.to_nat (Z.min PARSE_BUFFER_LIMIT (len (frame f)))) in *.
  assert (5 + n <= m)%nat as Hm by (unfold m, len; change PARSE_BUFFER_LIMIT with 8192; lia).
  assert (H : take (5 + n) b = take (5 + n) (frame f)).
  { apply (f_equal (take (5 + n))) in Hs. by rewrite !take_take, !Nat.min_l in Hs by lia. }
  apply (f_equal (drop 5)) in H. rewrite !skipn_firstn_comm in H. replace (5 + n - 5)%nat with n in H by lia. rewrite H. done.
Qed.

Lemma rfq_step (f : Z * list Z) (b : list Z) (tx : bool) (saw fatal : option bool) (n : Z) :
  shows f b -> server_frame f ->
  pipeline_server_rfq f.1 b (len (frame f)) (Some (PipelineServerState (Some tx) saw fatal n)) =
    Some (server_step (PipelineServerState (Some tx) saw fatal n) f).
Proof.
  intros Hs [Hb Hz].
  assert (Hfirst : forall x p, f.2 = x :: p -> b !!! 5%nat = x /\ 0 <= x < 256).
  { intros x p E. split; [|rewrite E in Hb; by inversion Hb].
    pose proof (shows_payload f b 1 Hs ltac:(lia) ltac:(rewrite E; simpl; lia)) as H. rewrite E in H.
    destruct (drop 5 b) as [|y r] eqn:Ed; simpl in H; [done|]. simplify_eq.
    rewrite <- (Nat.add_0_r 5), <- lookup_total_drop, Ed. done. }
  unfold pipeline_server_rfq, server_step, rfq_status, rfq_idle, fatal_error. cbn [p_in_tx p_saw_rfq p_fatal p_tx_count].
  unfold rfq_status. destruct (Z.eqb_spec f.1 (chr "Z")) as [E|E].
  - destruct f.2 as [|x p] eqn:Ep; [by destruct (Hz E)|]. destruct (Hfirst x p eq_refl) as [-> Hx]. cbn [head].
    rewrite i8_byte by (done || (vm_compute; split; discriminate)).
    rewrite E. change (chr "Z" =? chr "E") with false. cbn [andb]. repeat f_equal. destruct fatal; by rewrite ?orb_false_r.
  - rewrite Z.add_0_r. destruct (Z.eqb_spec f.1 (chr "E")) as [E2|E2]; cbn [andb].
    2: { do 2 f_equal; [destruct saw|destruct fatal]; by rewrite ?orb_false_r. }
    do 2 f_equal; [destruct saw; by rewrite ?orb_false_r|]. destruct fatal as [c|]; [|done]. do 2 f_equal.
    rewrite len_frame. replace (12 <=? 5 + len f.2) with (7 <=? len f.2) by (destruct (Z.leb_spec 7 (len f.2)), (Z.leb_spec 12 (5 + len f.2)); lia || done).
    destruct (Z.leb_spec 7 (len f.2)) as [H7|H7]; [|by rewrite !andb_false_r]. rewrite andb_true_r. cbn [andb].
    pose proof (shows_payload f b 6 Hs ltac:(lia) ltac:(unfold len in H7; lia)) as H6.
    destruct f.2 as [|x p] eqn:Ep; [by change (len []) with 0 in H7|]. destruct (Hfirst x p eq_refl) as [Hx Hxr].
    rewrite Hx, i8_byte by (done || (vm_compute; split; discriminate)). unfold bytes_at.
    assert (Ht : forall s : list Z, length s = 5%nat -> bool_decide (take (length s) (drop 6 b) = s) && (x =? chr "S") = bool_decide (take 6 (x :: p) = chr "S" :: s)).
    { intros s Hl. rewrite Hl. destruct (drop 5 b) as [|y r] eqn:Ed; [done|]. simpl in H6.
      assert (drop 6 b = r) as ->.
      { change 6%nat with (5 + 1)%nat. rewrite <- drop_drop, Ed. done. }
      injection H6 as Hy Hr. cbn [take] in *. destruct (Z.eqb_spec x (chr "S")) as [Ex|Hne].
      - rewrite andb_true_r. apply bool_decide_ext. rewrite Ex. split; [intros <-|intros [=]]; congruence.
      - rewrite andb_false_r. symmetry. apply bool_decide_eq_false. by intros [= ? _]. }
    change (str "SFATAL") with (chr "S" :: str "FATAL"). change (str "SPANIC") with (chr "S" :: str "PANIC").
    rewrite <- !Ht by done. destruct (x =? chr "S"); by rewrite ?andb_true_r, ?andb_false_r.
Qed.

Lemma rfq_delivers (fs : list (Z * list Z)) (s : pipeline_server_state) (a : option pipeline_server_state) :
  Forall server_frame fs -> is_Some (p_in_tx s) -> delivers pipeline_server_rfq fs (Some s) a ->
  a = Some (foldl server_step s fs) /\ is_Some (p_in_tx (foldl server_step s fs)).
Proof.
  intros Hfs. revert s. induction Hfs as [|f fs Hf Hfs IH]; intros s [tx Htx] Hd; inversion Hd; subst; [by eauto|].
  destruct s as [t saw fatal n]. cbn [p_in_tx] in Htx. subst t. rewrite rfq_step in * by done.
  apply IH; [|done]. unfold server_step. cbn [p_in_tx]. by destruct (rfq_status f).
Qed.

Lemma server_steps (fs : list (Z * list Z)) (tx saw fatal : bool) (n : Z) :
  let s := foldl server_step (PipelineServerState (Some tx) (Some saw) (Some fatal) n) fs in
  p_in_tx s = Some (match last_status fs with Some x => negb (x =? chr "I") | None => tx end) /\
  p_saw_rfq s = Some (saw || existsb rfq_idle fs) /\ p_fatal s = Some (fatal || existsb fatal_error fs).
Proof.
  unfold last_status. cbv zeta. induction fs as [|f fs IH] using rev_ind; [cbn; by rewrite !orb_false_r|].
  rewrite !foldl_app, !existsb_app. cbn [foldl existsb]. destruct IH as (H1 & H2 & H3).
  set (s := foldl server_step _ fs) in *. unfold server_step. cbn [p_in_tx p_saw_rfq p_fatal]. rewrite H1, H2, H3, !orb_assoc, !orb_false_r.
  split_and!; [|done|done]. by destruct (rfq_status f).
Qed.

(** Whatever the chunks of a server's stream, after the callback of the pipelines the
    transaction flag is that of the last ReadyForQuery, the flag for an idle one says
    whether there was one, and the fatal flag whether an error was FATAL or PANIC. *)
Theorem transaction_tracked (big : bool) (chunks : list (list Z)) (fs : list (Z * list Z)) (g : Z * list Z) (q : list Z)
  (tx saw fatal : bool) (n : Z) (Hfs : Forall frame_fits fs) (Hsv : Forall server_frame fs) (Hg : frame_fits g)
  (Hq : begins q g) (E : concat chunks = frames fs ++ q) :
  exists st s,
    parse_chunks big pipeline_server_rfq zero_state chunks (Some (PipelineServerState (Some tx) (Some saw) (Some fatal) n)) =
      Done (st, Some s) /\
    p_in_tx s = Some (match last_status fs with Some x => negb (x =? chr "I") | None => tx end) /\
    p_saw_rfq s = Some (saw || existsb rfq_idle fs) /\ p_fatal s = Some (fatal || existsb fatal_error fs).
Proof.
  destruct (parse_chunks_spec big pipeline_server_rfq g q chunks fs zero_state []
    (Some (PipelineServerState (Some tx) (Some saw) (Some fatal) n)) Hg Hfs Hq) as (st & a & H1 & _ & H3).
  - apply idle_partial, zero_idle.
  - apply begins_nil.
  - done.
  - apply rfq_delivers in H3 as [-> _]; [|done|done]. eexists st, _. split; [exact H1|]. apply server_steps.
Qed.

Lemma transaction_tracked_witness :
  exists st s,
    parse_chunks false pipeline_server_rfq zero_state
      [[90; 0; 0; 0]; [5; 84; 67; 0; 0]; [0; 4; 90; 0; 0; 0; 5]; [73]]
      (Some (PipelineServerState (Some false) (Some false) (Some false) 0)) = Done (st, Some s) /\
    p_in_tx s = Some false /\ p_saw_rfq s = Some true /\ p_fatal s = Some false.
Proof.
  apply (transaction_tracked false [[90; 0; 0; 0]; [5; 84; 67; 0; 0]; [0; 4; 90; 0; 0; 0; 5]; [73]]
    [(90, [84]); (67, []); (90, [73])] (67, []) [] false false false 0).
  - repeat constructor; try (simpl; lia); vm_compute; discriminate.
  - repeat constructor; simpl; try lia; discriminate.
  - split; [simpl; lia|]. vm_compute. discriminate.
  - apply begins_nil.
  - reflexivity.
Defined.

(** A length field out of range (less than 4, or within 4 of the largest integer)
    makes the parser drop the rest of the chunk without a call of the callback; it starts
    again at the next chunk. *)
Theorem bogus_length_skipped (big : bool) (A : Type) (cb : Z -> list Z -> Z -> A -> A) (a : A) (kind v : Z) (rest : list Z)
  (Hv : in_i 32 v) (Hbad : v < 4 \/ 2 ^ 31 - 5 < v) :
  exists st, parse_message big cb zero_state (kind :: be32 v ++ rest) a = Done (st, a) /\ idle st.
Proof.
  unfold parse_message. cbn [length parse_loop]. unfold parse_round. cbn [header_len zero_state].
  change (kind :: be32 v ++ rest) with ((kind :: be32 v) ++ rest).
  assert (len (kind :: be32 v) = 5) as Hl by (by rewrite len_cons, len_be32).
  pose proof (len_nonneg rest) as Hr. rewrite len_app, Hl.
  change (0 <? 5) with true. cbv iota. rewrite Z.min_l by lia. change (5 - 0) with 5.
  rewrite region_take by (rewrite ?len_app; lia). change (Z.to_nat 0) with 0%nat. rewrite drop_0.
  assert (take (Z.to_nat 5) ((kind :: be32 v) ++ rest) = kind :: be32 v) as -> by (by apply take_app_length').
  cbn [mbind option_bind].
  change (header zero_state) with (zeroed 5).
  assert (store (zeroed 5) 0 (kind :: be32 v) = Some (kind :: be32 v)) as -> by (apply (store_app [] (zeroed 5) []); done).
  cbn [mbind option_bind header_len]. change (0 + 5 <? 5) with false. cbv iota.
  change (kind :: be32 v) with ([kind] ++ be32 v ++ []). rewrite read_int32_be32 by done. cbn [mbind option_bind].
  assert ((v <? 4) || (2 ^ 31 - 1 - 4 <? v) = true) as -> by lia. eexists. split; [done|]. by split_and!.
Qed.

Lemma bogus_length_skipped_witness :
  exists st, parse_message true (fun _ _ _ n => n + 1) zero_state (81 :: be32 3 ++ [90; 0; 0; 0; 5; 73]) 0 = Done (st, 0) /\ idle st.
Proof.
  apply (bogus_length_skipped true Z (fun _ _ _ n => n + 1) 0 81 3 [90; 0; 0; 0; 5; 73]).
  - split; simpl; lia.
  - left. lia.
Defined.
