(* ===== verification/Text.v ===== *)
(** * Strings, times and command lines ([libpgagroal/utils.c])

    A C string is a [string]; NULL is [None] where the code distinguishes it.
    [pgagroal_append] and its relatives are concatenation; the allocation failures they
    absorb are not modelled. *)

From S2P Require Import Prelude.
From Stdlib Require Import Ascii.
From stdpp Require Import pretty.

Local Open Scope Z_scope.

(** ** The C library *)

Definition code (c : ascii) : Z := Z.of_nat (nat_of_ascii c).

Definition is_digit (c : ascii) : bool := (48 <=? code c) && (code c <=? 57).

Definition is_space (c : ascii) : bool :=
  let n := code c in (n =? 32) || ((9 <=? n) && (n <=? 13)).

(** The digits a [%d] conversion or [strtoll] takes, and the rest. *)
Fixpoint scan_digits (acc : Z) (s : string) : Z * string :=
  match s with
  | String c s' => if is_digit c then scan_digits (10 * acc + (code c - 48)) s' else (acc, s)
  | EmptyString => (acc, s)
  end.

Fixpoint skip_space (s : string) : string :=
  match s with
  | String c s' => if is_space c then skip_space s' else s
  | EmptyString => s
  end.

(** [strncmp(a, b, n) == 0]. *)
Definition strncmp_eq (a b : string) (n : nat) : bool :=
  bool_decide (String.substring 0 n a = String.substring 0 n b).

(** The sign of [strcmp]: bytes are compared as [unsigned char]. *)
Fixpoint strcmp (a b : string) : Z :=
  match a, b with
  | EmptyString, EmptyString => 0
  | EmptyString, String _ _ => -1
  | String _ _, EmptyString => 1
  | String x a, String y b => if code x =? code y then strcmp a b else if code x <? code y then -1 else 1
  end.

(** ** Strings *)

(** [pgagroal_append]. *)
Definition append (orig s : option string) : option string :=
  match s with
  | None => orig
  | Some s => Some (default "" orig +:+ s)
  end.

Definition append_char (orig : option string) (c : ascii) : option string :=
  append orig (Some (String c EmptyString)).

(** [pgagroal_indent]. *)
Definition indent (s tag : option string) (n : Z) : option string :=
  let s := Nat.iter (Z.to_nat n) (fun s => append s (Some " ")) s in
  match tag with Some _ => append s tag | None => s end.

(** [pgagroal_strcmp], with the NULL cases. *)
Definition pgagroal_strcmp (a b : option string) : bool :=
  match a, b with
  | None, None => true
  | Some a, Some b => strcmp a b =? 0
  | _, _ => false
  end.

(** [pgagroal_secure_strcmp]: [CRYPTO_memcmp] ors the differences of all the bytes. *)
Fixpoint crypto_memcmp (a b : string) (x : Z) : Z :=
  match a, b with
  | String c a, String d b => crypto_memcmp a b (Z.lor x (Z.lxor (code c) (code d)))
  | _, _ => x
  end.

Definition secure_strcmp (a b : option string) : bool :=
  match a, b with
  | None, None => true
  | Some a, Some b =>
      if negb (String.length a =? String.length b)%nat then false else crypto_memcmp a b 0 =? 0
  | _, _ => false
  end.

(** [pgagroal_starts_with] and [pgagroal_ends_with]. *)
Definition starts_with (s : option string) (prefix : string) : bool :=
  match s with
  | None => false
  | Some s => strncmp_eq prefix s (String.length prefix)
  end.

Definition ends_with (s suffix : string) : bool :=
  (String.length suffix <=? String.length s)%nat &&
  streq (String.substring (String.length s - String.length suffix) (String.length suffix) s) suffix.

(** [pgagroal_remove_all_whitespace]. *)
Fixpoint remove_loop (s : string) (result : option string) : option string :=
  match s with
  | EmptyString => result
  | String c s =>
      if (code c =? 32) || (code c =? 9) || (code c =? 13) || (code c =? 10)
      then remove_loop s result else remove_loop s (append_char result c)
  end.

Definition remove_all_whitespace (orig : option string) : option string :=
  match orig with
  | None => None
  | Some EmptyString => orig
  | Some s => remove_loop s None
  end.

(** [pgagroal_escape_string]: the first loop sizes the copy, the second fills it. *)
Definition needs_escape (c : ascii) : bool :=
  (code c =? 34) || (code c =? 92) || (code c =? 10) || (code c =? 9) || (code c =? 13).

Fixpoint translated_len (s : string) : Z :=
  match s with
  | EmptyString => 0
  | String c s => (if needs_escape c then 2 else 1) + translated_len s
  end.

Fixpoint escape (s : string) : string :=
  match s with
  | EmptyString => EmptyString
  | String c s =>
      let rest := escape s in
      if (code c =? 92) || (code c =? 34) then String "092" (String c rest)
      else if code c =? 10 then String "092" (String "n" rest)
      else if code c =? 9 then String "092" (String "t" rest)
      else if code c =? 13 then String "092" (String "r" rest)
      else String c rest
  end.

Definition escape_string (s : option string) : option string := escape <$> s.

(** [pgagroal_resolve_path]: the state of the loop over the characters. *)
Record resolving := Resolving {
  r_res : option string; r_env : option string; r_len : Z;
  r_double : bool; r_single : bool; r_in_env : bool }.

Definition valid_env_char (c : ascii) : bool :=
  let n := code c in
  (n =? 95) || ((65 <=? n) && (n <=? 90)) || ((97 <=? n) && (n <=? 122)) || ((48 <=? n) && (n <=? 57)).

Section resolve.
Context (getenv : string -> option string).

(** A character that cannot be part of a name ends it: the value is appended. *)
Definition leave_env (c : ascii) (st : resolving) : option resolving :=
  if r_in_env st && negb (valid_env_char c) then
    env_res ← r_env st;
    env_value ← getenv env_res;
    Some (Resolving (append (r_res st) (Some env_value)) None
            (r_len st + Z.of_nat (String.length env_value)) (r_double st) (r_single st) false)
  else Some st.

(** The end of the loop body: [ch] goes to the name or to the result. *)
Definition emit (ch : option string) (st : resolving) : resolving :=
  if r_in_env st
  then Resolving (r_res st) (append (r_env st) ch) (r_len st) (r_double st) (r_single st) true
  else Resolving (append (r_res st) ch) (r_env st) (r_len st + 1) (r_double st) (r_single st) false.

Fixpoint resolve_loop (s : string) (st : resolving) : option resolving :=
  match s with
  | EmptyString => Some st
  | String c s =>
      st ← leave_env c st;
      let n := code c in
      if (n =? 34) && negb (r_single st) then
        resolve_loop s (Resolving (r_res st) (r_env st) (r_len st) (negb (r_double st)) (r_single st) (r_in_env st))
      else if (n =? 39) && negb (r_double st) then
        resolve_loop s (Resolving (r_res st) (r_env st) (r_len st) (r_double st) (negb (r_single st)) (r_in_env st))
      else if n =? 92 then
        match s with
        | String d s => resolve_loop s (emit (append_char None d) st)
        | EmptyString => None
        end
      else if n =? 36 then
        if r_single st then resolve_loop s (emit (append_char None c) st)
        else resolve_loop s (emit None (Resolving (r_res st) (r_env st) (r_len st) (r_double st) (r_single st) true))
      else resolve_loop s (emit (append_char None c) st)
  end.

Definition MAX_PATH : Z := 1024.

(** [None] is the return value 1, [Some p] sets [*new_path] to [p]. *)
Definition resolve_path (orig_path : string) : option (option string) :=
  st ← resolve_loop orig_path (Resolving None None 0 false false false);
  if MAX_PATH <? r_len st then None else Some (r_res st).
End resolve.

(** ** Times *)

Inductive time_format_t :=
| FORMAT_TIME_S | FORMAT_TIME_MIN | FORMAT_TIME_HOUR | FORMAT_TIME_DAY | FORMAT_TIME_TIMESTAMP.

(** [pgagroal_time_convert]: C division truncates. *)
Definition time_convert (t : Z) (fmt : time_format_t) : Z :=
  match fmt with
  | FORMAT_TIME_S => t
  | FORMAT_TIME_MIN => Z.quot t 60
  | FORMAT_TIME_HOUR => Z.quot t 3600
  | FORMAT_TIME_DAY => Z.quot t 86400
  | FORMAT_TIME_TIMESTAMP => t
  end.

(** The date of [gmtime_r] for a number of days since 1970-01-01, in the proleptic
    Gregorian calendar counted from 1 March of year 0. *)
Definition civil_date (days : Z) : Z * Z * Z :=
  let z := days + 719468 in
  let era := z / 146097 in
  let doe := z mod 146097 in
  let yoe := (doe - doe / 1460 + doe / 36524 - doe / 146096) / 365 in
  let doy := doe - (365 * yoe + yoe / 4 - yoe / 100) in
  let mp := (5 * doy + 2) / 153 in
  let month := if mp <? 10 then mp + 3 else mp - 9 in
  (yoe + era * 400 + (if month <=? 2 then 1 else 0), month, doy - (153 * mp + 2) / 5 + 1).

Definition two_digits (n : Z) : string := (if n <? 10 then "0" else "") +:+ pretty n.

(** [strftime] with the format [%Y-%m-%dT%H:%M:%SZ] of the UTC time [t]. *)
Definition utc_timestamp (t : Z) : string :=
  let '(y, m, d) := civil_date (t / 86400) in
  let s := t mod 86400 in
  pretty y +:+ "-" +:+ two_digits m +:+ "-" +:+ two_digits d +:+ "T" +:+
  two_digits (s / 3600) +:+ ":" +:+ two_digits (s / 60 mod 60) +:+ ":" +:+ two_digits (s mod 60) +:+ "Z".

(** [pgagroal_time_format]. *)
Definition time_format (t : Z) (fmt : time_format_t) : string :=
  match fmt with
  | FORMAT_TIME_TIMESTAMP => utc_timestamp t
  | FORMAT_TIME_S => pretty (time_convert t fmt) +:+ "s"
  | FORMAT_TIME_MIN => pretty (time_convert t fmt) +:+ "m"
  | FORMAT_TIME_HOUR => pretty (time_convert t fmt) +:+ "h"
  | FORMAT_TIME_DAY => pretty (time_convert t fmt) +:+ "d"
  end.

Example utc_timestamp_leap_day : utc_timestamp 1709210096 = "2024-02-29T12:34:56Z".
Proof. vm_compute. reflexivity. Qed.

Definition INT64_MAX : Z := 2 ^ 63 - 1.

Definition unit_multiplier (c : ascii) : option Z :=
  let n := code c in
  if (n =? 115) || (n =? 83) then Some 1
  else if (n =? 109) || (n =? 77) then Some 60
  else if (n =? 104) || (n =? 72) then Some 3600
  else if (n =? 100) || (n =? 68) then Some 86400
  else if (n =? 119) || (n =? 87) then Some 604800
  else None.

(** [pgagroal_parse_seconds]; [None] is the return value 1. *)
Definition parse_seconds (s : string) : option Z :=
  match s with
  | EmptyString => None
  | String c _ =>
      if negb (is_digit c) then None
      else
        let '(parsed, rest) := scan_digits 0 s in
        if INT64_MAX <? parsed then None
        else
          multiplier ← match rest with
                       | EmptyString => Some 1
                       | String u EmptyString => unit_multiplier u
                       | String _ (String _ _) => None
                       end;
          if INT64_MAX / multiplier <? parsed then None else Some (parsed * multiplier)
  end.

(** [pgagroal_version_as_number] on [unsigned int]. *)
Definition version_as_number (major minor patch : Z) : Z :=
  u32 (patch mod 100 + (minor mod 100) * 100 + (major mod 100) * 10000).

(** ** Command lines *)

Definition MISC_LENGTH : nat := 128.

(** [struct pgagroal_command], the fields that matter for parsing;
    [accepted_argument_count] is an array of [MISC_LENGTH] integers, zero at the end. *)
Record command := Command {
  cmd_command : string; cmd_subcommand : string; cmd_accepted : list Z; cmd_default : option string }.

#[export] Instance command_inhabited : Inhabited command := populate (Command "" "" [] None).

Inductive parsed :=
| Parsed (cmd : nat) (args : list (option string))
| CommandRequired
| UnknownCommand
| UnknownSubcommand
| SubcommandRequired
| TooFewArguments
| TooManyArguments.

(** The search of [parse_command]: [(command_match, default_command_match, command_index)];
    a subcommand that matches ends it. *)
Fixpoint find_command (table : list command) (i : nat) (cmd : string) (sub : option string)
  (matched : bool) (default_match : option nat) : bool * option nat * option nat :=
  match table with
  | [] => (matched, default_match, None)
  | c :: table =>
      if strncmp_eq cmd (cmd_command c) MISC_LENGTH then
        if match sub with Some s => strncmp_eq s (cmd_subcommand c) MISC_LENGTH | None => false end
        then (true, default_match, Some i)
        else find_command table (S i) cmd sub true
               (if streq (cmd_subcommand c) "" then Some i else default_match)
      else find_command table (S i) cmd sub matched default_match
  end.

(** The loop over the accepted counts, and the copy of the arguments. *)
Definition accept_arguments (index : nat) (c : command) (args : list string) : parsed :=
  let arg_count := Z.of_nat (length args) in
  let accepted := take MISC_LENGTH (cmd_accepted c ++ replicate MISC_LENGTH 0) in
  let j := list_find (fun n => arg_count <= n) accepted in
  if arg_count <? accepted !!! 0%nat then TooFewArguments
  else match j with
       | None => TooManyArguments
       | Some (_, n) =>
           if n <? arg_count then TooManyArguments
           else Parsed index (match args with [] => [cmd_default c] | _ => Some <$> args end)
       end.

Definition parse_command (argv : list string) (offset : nat) (table : list command) : parsed :=
  match argv !! offset with
  | None => CommandRequired
  | Some cmd =>
      let sub := argv !! S offset in
      let '(matched, default_match, index) := find_command table 0 cmd sub false None in
      if negb matched then UnknownCommand
      else
        match index, default_match with
        | Some i, _ => accept_arguments i (table !!! i) (drop (S (S offset)) argv)
        | None, Some i => accept_arguments i (table !!! i) (drop (S offset) argv)
        | None, None => match sub with Some _ => UnknownSubcommand | None => SubcommandRequired end
        end
  end.

(** ** Comparisons *)

Lemma code_inj (c d : ascii) : code c = code d -> c = d.
Proof.
  unfold code. intros H. apply Nat2Z.inj in H.
  by rewrite <- (ascii_nat_embedding c), <- (ascii_nat_embedding d), H.
Qed.

Lemma code_range (c : ascii) : 0 <= code c < 256.
Proof. unfold code. pose proof (nat_ascii_bounded c). lia. Qed.

Lemma strcmp_zero (a b : string) : strcmp a b = 0 <-> a = b.
Proof.
  revert b. induction a as [|x a IH]; intros [|y b]; simpl; try (split; congruence || lia).
  destruct (Z.eqb_spec (code x) (code y)) as [E|E].
  - rewrite IH. apply code_inj in E as ->. split; congruence.
  - split; [destruct (_ <? _); lia|]. intros [= -> ->]. congruence.
Qed.

Lemma strcmp_opp (a b : string) : strcmp b a = - strcmp a b.
Proof.
  revert b. induction a as [|x a IH]; intros [|y b]; simpl; try lia.
  rewrite (Z.eqb_sym (code y)). destruct (Z.eqb_spec (code x) (code y)); [apply IH|].
  destruct (Z.ltb_spec (code y) (code x)), (Z.ltb_spec (code x) (code y)); lia.
Qed.

Lemma strcmp_trans (a b c : string) : strcmp a b <= 0 -> strcmp b c <= 0 -> strcmp a c <= 0.
Proof.
  revert b c. induction a as [|x a IH]; intros [|y b] [|z c]; simpl; try lia.
  destruct (Z.eqb_spec (code x) (code y)), (Z.eqb_spec (code y) (code z)), (Z.eqb_spec (code x) (code z));
    try lia; try apply IH;
    destruct (Z.ltb_spec (code x) (code y)), (Z.ltb_spec (code y) (code z)), (Z.ltb_spec (code x) (code z)); lia.
Qed.

Lemma crypto_memcmp_zero (a b : string) (x : Z) :
  0 <= x -> String.length a = String.length b -> crypto_memcmp a b x = 0 <-> x = 0 /\ a = b.
Proof.
  revert b x. induction a as [|c a IH]; intros [|d b] x Hx Hl; simpl in *; try (by naive_solver).
  pose proof (code_range c). pose proof (code_range d).
  rewrite IH by (lia || (apply Z.lor_nonneg; split; [done|apply Z.lxor_nonneg; lia])).
  rewrite Z.lor_eq_0_iff, Z.lxor_eq_0_iff. split.
  - intros [[-> E] ->]. by apply code_inj in E as ->.
  - intros [-> [= -> ->]]. done.
Qed.

(** The constant-time comparison of passwords and the ordinary comparison accept
    exactly equal strings, NULL being equal only to NULL. *)
Theorem comparisons_exact (a b : option string) :
  secure_strcmp a b = bool_decide (a = b) /\ pgagroal_strcmp a b = bool_decide (a = b).
Proof.
  split; destruct a as [a|], b as [b|]; simpl; try done; symmetry.
  - destruct (Nat.eqb_spec (String.length a) (String.length b)) as [E|E]; simpl.
    + destruct (Z.eqb_spec (crypto_memcmp a b 0) 0) as [H|H].
      * apply crypto_memcmp_zero in H as [_ ->]; [|lia|done]. by apply bool_decide_eq_true_2.
      * apply bool_decide_eq_false_2. intros [= ->]. apply H. by apply crypto_memcmp_zero.
    + apply bool_decide_eq_false_2. intros [= ->]. done.
  - destruct (Z.eqb_spec (strcmp a b) 0) as [H|H]; rewrite strcmp_zero in H.
    + apply bool_decide_eq_true_2. congruence.
    + apply bool_decide_eq_false_2. congruence.
Qed.

(** ** Times *)

Lemma is_digit_pretty (x : N) :
  (x < 10)%N -> is_digit (pretty_N_char x) = true /\ code (pretty_N_char x) = 48 + Z.of_N x.
Proof.
  intros Hx. assert (x = 0 \/ x = 1 \/ x = 2 \/ x = 3 \/ x = 4 \/ x = 5 \/ x = 6 \/ x = 7 \/ x = 8 \/ x = 9)%N as H by lia.
  repeat destruct H as [->|H]; [done..|by subst].
Qed.

Lemma scan_pretty_go (x : N) (s : string) :
  exists k, 0 < k /\ forall acc, scan_digits acc (pretty_N_go x s) = scan_digits (k * acc + Z.of_N x) s.
Proof.
  revert s. induction (N.lt_wf_0 x) as [x _ IH]; intros s.
  destruct (decide (x = 0)%N) as [->|Hx].
  { exists 1. split; [lia|]. intros acc. rewrite pretty_N_go_0. f_equal. lia. }
  rewrite pretty_N_go_step by lia.
  destruct (IH (x `div` 10)%N ltac:(apply N.div_lt; lia) (String (pretty_N_char (x `mod` 10)) s)) as (k & Hk & H).
  exists (10 * k). split; [lia|]. intros acc. rewrite H. simpl.
  destruct (is_digit_pretty (x `mod` 10)) as [-> Hc]; [by apply N.mod_lt|].
  rewrite Hc. f_equal. rewrite N2Z.inj_div, N2Z.inj_mod.
  pose proof (Z.div_mod (Z.of_N x) 10). lia.
Qed.

Lemma pretty_go_app (x : N) (s t : string) : pretty_N_go x s +:+ t = pretty_N_go x (s +:+ t).
Proof.
  revert s. induction (N.lt_wf_0 x) as [x _ IH]; intros s.
  destruct (decide (x = 0)%N) as [->|Hx]; [by rewrite !pretty_N_go_0|].
  rewrite !(pretty_N_go_step x) by lia. rewrite IH by (apply N.div_lt; lia). done.
Qed.

(** Reading back a printed number. *)
Lemma scan_pretty (n : Z) (s : string) : 0 <= n -> scan_digits 0 (pretty n +:+ s) = scan_digits n s.
Proof.
  intros Hn. destruct n as [|p|p]; [done| |lia]. unfold pretty, pretty_Z.
  change (scan_digits 0 (pretty (Npos p) +:+ s) = scan_digits (Zpos p) s).
  unfold pretty, pretty_N. rewrite decide_False by done. rewrite pretty_go_app.
  destruct (scan_pretty_go (Npos p) s) as (k & _ & H). simpl. rewrite H. f_equal. lia.
Qed.

Lemma scan_pretty_nil (n : Z) : 0 <= n -> scan_digits 0 (pretty n) = (n, "").
Proof. intros Hn. by rewrite <- (sapp_nil_r (pretty n)), scan_pretty. Qed.

Lemma pretty_go_digit (x : N) (s : string) :
  (0 < x)%N -> exists c s', pretty_N_go x s = String c s' /\ is_digit c = true.
Proof.
  revert s. induction (N.lt_wf_0 x) as [x _ IH]; intros s Hx. rewrite pretty_N_go_step by done.
  destruct (decide (x `div` 10 = 0)%N) as [->|Hd].
  - rewrite pretty_N_go_0. do 2 eexists. split; [done|]. apply is_digit_pretty. by apply N.mod_lt.
  - apply IH; [apply N.div_lt; lia|by apply N.neq_0_lt_0].
Qed.

Lemma pretty_digit (n : Z) : 0 <= n -> exists c s, pretty n = String c s /\ is_digit c = true.
Proof.
  intros Hn. destruct n as [|p|p]; [by exists "0"%char, ""| |lia].
  change (pretty (Zpos p)) with (pretty (Npos p)). unfold pretty, pretty_N. rewrite decide_False by done.
  by apply pretty_go_digit.
Qed.

Lemma parse_seconds_printed (n : Z) (rest : string) :
  0 <= n -> match rest with String c _ => is_digit c = false | EmptyString => True end ->
  parse_seconds (pretty n +:+ rest) =
    if INT64_MAX <? n then None
    else m ← match rest with
             | EmptyString => Some 1
             | String u EmptyString => unit_multiplier u
             | String _ (String _ _) => None
             end;
         if INT64_MAX / m <? n then None else Some (n * m).
Proof.
  intros Hn Hr. destruct (pretty_digit n Hn) as (c & s & E & Hc).
  assert (pretty n +:+ rest = String c (s +:+ rest)) as E' by (by rewrite E).
  unfold parse_seconds. rewrite E'. rewrite Hc. cbn [negb]. rewrite <- E', scan_pretty by done.
  by replace (scan_digits n rest) with (n, rest) by (destruct rest as [|d r]; simpl; [|rewrite Hr]; done).
Qed.

Lemma parse_units (n m : Z) (u : ascii) :
  0 <= n -> unit_multiplier u = Some m ->
  parse_seconds (pretty n +:+ String u "") = if n * m <=? INT64_MAX then Some (n * m) else None.
Proof.
  intros Hn Hu. assert (0 < m <= 604800) as Hm.
  { unfold unit_multiplier in Hu. repeat (destruct (_ || _) in Hu; [by simplify_eq|]). done. }
  rewrite parse_seconds_printed by (done || (unfold unit_multiplier, is_digit in *;
    destruct (Z.leb_spec 48 (code u)), (Z.leb_spec (code u) 57); try done;
    repeat match type of Hu with context [?a =? ?b] => destruct (Z.eqb_spec a b); [lia|] end; done)).
  rewrite Hu. cbn [mbind option_bind]. unfold INT64_MAX.
  assert (2 ^ 63 - 1 < n -> 2 ^ 63 - 1 < n * m) by nia.
  assert ((2 ^ 63 - 1) / m < n <-> 2 ^ 63 - 1 < n * m) as Hd.
  { pose proof (Z.div_mod (2 ^ 63 - 1) m ltac:(lia)). pose proof (Z.mod_pos_bound (2 ^ 63 - 1) m ltac:(lia)). nia. }
  destruct (Z.ltb_spec (2 ^ 63 - 1) n), (Z.ltb_spec ((2 ^ 63 - 1) / m) n), (Z.leb_spec (n * m) (2 ^ 63 - 1));
    done || lia.
Qed.

(** A number followed by a unit letter is read as that many units, or refused when
    the seconds do not fit an [int64_t]. *)
Theorem parse_seconds_units (n m : Z) (u : ascii) (Hn : 0 <= n) (Hu : unit_multiplier u = Some m) :
  parse_seconds (pretty n +:+ String u "") = if n * m <=? INT64_MAX then Some (n * m) else None.
Proof. by apply parse_units. Qed.

Definition unit_seconds (fmt : time_format_t) : Z :=
  match fmt with
  | FORMAT_TIME_S | FORMAT_TIME_TIMESTAMP => 1
  | FORMAT_TIME_MIN => 60 | FORMAT_TIME_HOUR => 3600 | FORMAT_TIME_DAY => 86400
  end.

(** A duration printed by [pgagroal_time_format] is read back by
    [pgagroal_parse_seconds] as the same duration, rounded down to the unit. *)
Theorem time_round_trip (t : Z) (fmt : time_format_t) (Ht : 0 <= t <= INT64_MAX)
  (Hf : fmt <> FORMAT_TIME_TIMESTAMP) :
  parse_seconds (time_format t fmt) = Some (t - t mod unit_seconds fmt).
Proof.
  assert (time_convert t fmt = t / unit_seconds fmt) as Hc.
  { destruct fmt; simpl; by rewrite ?Z.div_1_r || (apply Z.quot_div_nonneg; lia). }
  assert (0 < unit_seconds fmt) as Hu by by destruct fmt.
  pose proof (Z.div_mod t (unit_seconds fmt) ltac:(lia)). pose proof (Z.mod_pos_bound t (unit_seconds fmt) Hu).
  assert (exists u, time_format t fmt = pretty (t / unit_seconds fmt) +:+ String u "" /\
    unit_multiplier u = Some (unit_seconds fmt)) as (u & -> & Hm).
  { unfold time_format. rewrite Hc. destruct fmt; [by eexists..|done]. }
  rewrite (parse_units _ (unit_seconds fmt)) by (done || apply Z.div_pos; lia).
  destruct (Z.leb_spec (t / unit_seconds fmt * unit_seconds fmt) INT64_MAX); [f_equal; lia|lia].
Qed.

(** Whatever the text, an accepted duration fits an [int64_t]. *)
Theorem parse_seconds_bounds (s : string) (v : Z) (H : parse_seconds s = Some v) : 0 <= v <= INT64_MAX.
Proof.
  assert (forall s acc, 0 <= acc -> 0 <= (scan_digits acc s).1) as Hnn.
  { clear. induction s as [|c s IH]; intros acc Ha; simpl; [done|].
    destruct (is_digit c) eqn:E; [|done]. apply IH. unfold is_digit in E. bool_prop. lia. }
  unfold parse_seconds in H. destruct s as [|c s]; [done|]. destruct (negb _); [done|].
  pose proof (Hnn (String c s) 0 ltac:(lia)). destruct (scan_digits 0 (String c s)) as [n rest]. simpl in *.
  destruct (_ <? _); [done|].
  assert (forall m, (match rest with EmptyString => Some 1 | String u EmptyString => unit_multiplier u | _ => None end)
    = Some m -> 0 < m) as Hm.
  { intros m. destruct rest as [|u [|]]; [by intros [= <-]| |done]. unfold unit_multiplier.
    intros Hu. repeat (destruct (_ || _) in Hu; [by simplify_eq|]). done. }
  destruct (match rest with EmptyString => _ | _ => _ end) as [m|]; [|done]. specialize (Hm m eq_refl). simpl in H.
  destruct (Z.ltb_spec (INT64_MAX / m) n) as [|Hle]; [done|]. simplify_eq.
  pose proof (Z.div_mod INT64_MAX m ltac:(lia)). pose proof (Z.mod_pos_bound INT64_MAX m Hm). nia.
Qed.

(** ** Escaping *)

(** The inverse: a backslash gives the next character its meaning. *)
Fixpoint unescape (s : string) : string :=
  match s with
  | EmptyString => EmptyString
  | String c s' =>
      if code c =? 92 then
        match s' with
        | String d s'' =>
            String (if code d =? 110 then "010"%char else if code d =? 116 then "009"%char
                    else if code d =? 114 then "013"%char else d) (unescape s'')
        | EmptyString => s
        end
      else String c (unescape s')
  end.

(** The escaped copy fills exactly the space that was computed for it, and nothing
    is lost: the string can be read back. *)
Theorem escape_string_exact (s : string) :
  Z.of_nat (String.length (escape s)) = translated_len s /\ unescape (escape s) = s.
Proof.
  induction s as [|c s [IH1 IH2]]; [done|]. cbn [escape translated_len]. unfold needs_escape.
  destruct (Z.eqb_spec (code c) 92) as [E|?];
    [|destruct (Z.eqb_spec (code c) 34) as [E|?];
      [|destruct (Z.eqb_spec (code c) 10) as [E|?]; [|destruct (Z.eqb_spec (code c) 9) as [E|?];
        [|destruct (Z.eqb_spec (code c) 13) as [E|?]]]]];
    rewrite ?Bool.orb_true_r; cbn [orb String.length]; (split; [lia|]); cbn [unescape].
  6: { by replace (code c =? 92) with false by (symmetry; by apply Z.eqb_neq); rewrite IH2. }
  all: change (code "092" =? 92) with true; cbv iota; rewrite IH2; f_equal; apply code_inj; rewrite ?E; done.
Qed.

(** ** Paths *)

Fixpoint all_chars (p : ascii -> bool) (s : string) : bool :=
  match s with EmptyString => true | String c s => p c && all_chars p s end.

Lemma all_chars_app (p : ascii -> bool) (a b : string) : all_chars p (a +:+ b) = all_chars p a && all_chars p b.
Proof. induction a as [|c a IH]; [done|]. change (String c a +:+ b) with (String c (a +:+ b)). cbn [all_chars]. rewrite IH. by destruct (p c). Qed.

Lemma all_chars_impl (p q : ascii -> bool) (s : string) :
  (forall c, p c = true -> q c = true) -> all_chars p s = true -> all_chars q s = true.
Proof.
  intros Hpq. induction s as [|c s IH]; [done|]. cbn [all_chars]. rewrite !andb_true_iff. intros [Hc Hs]. auto.
Qed.

(** A character the shell-like syntax gives no meaning to. *)
Definition plain (c : ascii) : bool :=
  negb ((code c =? 34) || (code c =? 39) || (code c =? 92) || (code c =? 36)).

Definition extend (r : option string) (s : string) : option string :=
  match s with EmptyString => r | _ => Some (default "" r +:+ s) end.

Lemma extend_char (r : option string) (c : ascii) (s : string) :
  extend (append_char r c) s = Some (default "" r +:+ String c s).
Proof.
  unfold append_char, append, extend. simpl. destruct s as [|d s]; [done|]. simpl.
  by rewrite sapp_assoc.
Qed.

Section resolve_facts.
Context (getenv : string -> option string).

Lemma resolve_plain (s t : string) (r e : option string) (n : Z) :
  all_chars plain s = true ->
  resolve_loop getenv (s +:+ t) (Resolving r e n false false false) =
  resolve_loop getenv t (Resolving (extend r s) e (n + Z.of_nat (String.length s)) false false false).
Proof.
  revert r n. induction s as [|c s IH]; intros r n Hp; [simpl; by rewrite Z.add_0_r|].
  cbn [all_chars] in Hp. bool_prop. destruct Hp as [Hc Hp]. unfold plain in Hc. bool_prop.
  destruct Hc as (((H1 & H2) & H3) & H4).
  change (String c s +:+ t) with (String c (s +:+ t)). cbn [resolve_loop].
  unfold leave_env. cbn [r_in_env andb mbind option_bind r_single r_double].
  rewrite (proj2 (Z.eqb_neq _ _) H1), (proj2 (Z.eqb_neq _ _) H2), (proj2 (Z.eqb_neq _ _) H3),
    (proj2 (Z.eqb_neq _ _) H4). cbn [andb]. unfold emit. cbn [r_in_env r_res r_env r_len r_double r_single].
  rewrite IH by done. f_equal. f_equal; [|cbn [String.length]; lia].
  by rewrite (extend_char r c s : extend (append r (append_char None c)) s = _).
Qed.

Lemma resolve_name (s t : string) (r e : option string) (n : Z) :
  all_chars valid_env_char s = true ->
  resolve_loop getenv (s +:+ t) (Resolving r e n false false true) =
  resolve_loop getenv t (Resolving r (extend e s) n false false true).
Proof.
  revert e. induction s as [|c s IH]; intros e Hp; [done|].
  cbn [all_chars] in Hp. bool_prop. destruct Hp as [Hc Hp].
  assert (code c <> 34 /\ code c <> 39 /\ code c <> 92 /\ code c <> 36) as (H1 & H2 & H3 & H4).
  { repeat split; intros E; unfold valid_env_char in Hc; rewrite E in Hc; done. }
  change (String c s +:+ t) with (String c (s +:+ t)). cbn [resolve_loop].
  unfold leave_env. rewrite Hc. cbn [r_in_env negb andb mbind option_bind r_single r_double].
  rewrite (proj2 (Z.eqb_neq _ _) H1), (proj2 (Z.eqb_neq _ _) H2), (proj2 (Z.eqb_neq _ _) H3),
    (proj2 (Z.eqb_neq _ _) H4). cbn [andb]. unfold emit. cbn [r_in_env r_res r_env r_len r_double r_single].
  rewrite IH by done. do 2 f_equal. by rewrite (extend_char e c s : extend (append e (append_char None c)) s = _).
Qed.

(** The dollar opens a name. *)
Lemma resolve_dollar (t : string) (r : option string) (n : Z) :
  resolve_loop getenv (String "$" t) (Resolving r None n false false false) =
  resolve_loop getenv t (Resolving r None n false false true).
Proof. reflexivity. Qed.

(** A variable that is followed by more of the path is replaced by its value, and
    the rest is copied. *)
Theorem resolve_path_variable (p v x q : string) (c : ascii)
  (Hp : all_chars plain p = true) (Hv : all_chars valid_env_char v = true) (Hne : v <> "")
  (Hx : getenv v = Some x) (Hc : valid_env_char c = false) (Hq : all_chars plain (String c q) = true)
  (Hlen : Z.of_nat (String.length (p +:+ x +:+ String c q)) <= MAX_PATH) :
  resolve_path getenv (p +:+ String "$" (v +:+ String c q)) = Some (Some (p +:+ x +:+ String c q)).
Proof.
  assert (extend None v = Some v) as Ev by (by destruct v).
  assert (resolve_loop getenv (String c q) (Resolving (extend None p) (Some v) (0 + Z.of_nat (String.length p)) false false true)
    = resolve_loop getenv (String c q) (Resolving (append (extend None p) (Some x)) None
        (0 + Z.of_nat (String.length p) + Z.of_nat (String.length x)) false false false)) as Hleave.
  { cbn [resolve_loop]. unfold leave_env. cbn [r_in_env r_env]. rewrite Hc. cbn [negb andb mbind option_bind].
    by rewrite Hx. }
  unfold resolve_path. rewrite resolve_plain by done. rewrite resolve_dollar, resolve_name, Ev, Hleave by done.
  rewrite <- (sapp_nil_r (String c q)) at 1. rewrite resolve_plain by done. cbn [resolve_loop mbind option_bind r_len r_res].
  rewrite !slength_app in Hlen. destruct (Z.ltb_spec MAX_PATH (0 + Z.of_nat (String.length p)
    + Z.of_nat (String.length x) + Z.of_nat (String.length (String c q)))); [lia|].
  do 2 f_equal. unfold append, extend. destruct p; simpl; by rewrite ?sapp_assoc.
Qed.

(** A variable at the end of the path is dropped, whatever its value: the path
    resolves to what precedes it. *)
Theorem resolve_path_trailing_variable (p v : string) (Hp : all_chars plain p = true)
  (Hv : all_chars valid_env_char v = true) (Hlen : Z.of_nat (String.length p) <= MAX_PATH) :
  resolve_path getenv (p +:+ String "$" v) = Some (extend None p).
Proof.
  unfold resolve_path. rewrite resolve_plain by done. rewrite resolve_dollar.
  rewrite <- (sapp_nil_r v), resolve_name by done. cbn [resolve_loop mbind option_bind r_len r_res].
  destruct (Z.ltb_spec MAX_PATH (0 + Z.of_nat (String.length p))); [lia|done].
Qed.
End resolve_facts.

(** ** Command lines *)

Definition names (cmd : string) (c : command) : Prop := strncmp_eq cmd (cmd_command c) MISC_LENGTH = true.

Definition names_sub (sub : option string) (c : command) : Prop :=
  exists s, sub = Some s /\ strncmp_eq s (cmd_subcommand c) MISC_LENGTH = true.

(** What the search finds, from the entries it has seen. *)
Lemma find_command_sound (table : list command) (k : nat) (cmd : string) (sub : option string)
  (matched : bool) (d : option nat) (m' : bool) (d' i' : option nat) :
  find_command table k cmd sub matched d = (m', d', i') ->
  (forall i, i' = Some i -> exists j c, i = (k + j)%nat /\ table !! j = Some c /\ names cmd c /\ names_sub sub c) /\
  (i' = None -> forall c, c ∈ table -> names cmd c -> ~ names_sub sub c) /\
  (forall i, d' = Some i -> d = Some i \/
     exists j c, i = (k + j)%nat /\ table !! j = Some c /\ names cmd c /\ cmd_subcommand c = "").
Proof.
  revert k matched d. induction table as [|c table IH]; intros k matched d H; cbn [find_command] in H.
  { simplify_eq. repeat split; intros; try done; [by apply elem_of_nil in H0|by left]. }
  assert (forall matched d1, find_command table (S k) cmd sub matched d1 = (m', d', i') ->
    (names cmd c -> ~ names_sub sub c) ->
    (d1 = d \/ d1 = Some k /\ names cmd c /\ cmd_subcommand c = "") ->
    (forall i, i' = Some i -> exists j c0, i = (k + j)%nat /\ (c :: table) !! j = Some c0 /\ names cmd c0 /\ names_sub sub c0) /\
    (i' = None -> forall c0, c0 ∈ c :: table -> names cmd c0 -> ~ names_sub sub c0) /\
    (forall i, d' = Some i -> d = Some i \/
       exists j c0, i = (k + j)%nat /\ (c :: table) !! j = Some c0 /\ names cmd c0 /\ cmd_subcommand c0 = "")) as Hgo.
  { intros m1 d1 Hf Hn Hd. destruct (IH _ _ _ Hf) as (H1 & H2 & H3). split; [|split].
    - intros i Hi. destruct (H1 i Hi) as (j & c0 & -> & Hj & ?). exists (S j), c0. split; [lia|done].
    - intros Hi c0 [->|Hc]%elem_of_cons; [done|by apply H2].
    - intros i Hi. destruct (H3 i Hi) as [E|(j & c0 & -> & Hj & ?)].
      + destruct Hd as [->|(-> & Hn1 & Hn2)]; [by left|]. right. simplify_eq. exists 0%nat, c. by rewrite Nat.add_0_r.
      + right. exists (S j), c0. split; [lia|done]. }
  destruct (strncmp_eq cmd (cmd_command c) MISC_LENGTH) eqn:Ec.
  - destruct (match sub with Some s => strncmp_eq s (cmd_subcommand c) MISC_LENGTH | None => false end) eqn:Es.
    + simplify_eq. split; [|split; [done|by left]]. intros i [= <-]. exists 0%nat, c. rewrite Nat.add_0_r.
      repeat split; try done. destruct sub as [s|]; [by exists s|done].
    + apply (Hgo _ _ H); [intros _ (s & -> & Hs); congruence|].
      destruct (streq (cmd_subcommand c) "") eqn:E0; bool_prop; auto.
  - apply (Hgo _ _ H); [intros Hn; unfold names in Hn; congruence|by left].
Qed.

Lemma accept_arguments_sound (i k : nat) (c : command) (args : list string) (out : list (option string)) :
  accept_arguments i c args = Parsed k out ->
  k = i /\ out = match args with [] => [cmd_default c] | _ => Some <$> args end /\
  (take MISC_LENGTH (cmd_accepted c ++ replicate MISC_LENGTH 0)) !!! 0%nat <= Z.of_nat (length args) /\
  exists n, n ∈ cmd_accepted c ++ replicate MISC_LENGTH 0 /\ Z.of_nat (length args) <= n.
Proof.
  unfold accept_arguments. intros H.
  destruct (Z.ltb_spec (Z.of_nat (length args)) (take MISC_LENGTH (cmd_accepted c ++ replicate MISC_LENGTH 0) !!! 0%nat));
    [done|].
  destruct (list_find _ _) as [[j n]|] eqn:Ef; [|done]. apply list_find_Some in Ef as (Hj & Hn & _).
  destruct (n <? _); [done|]. simplify_eq. repeat split; try done.
  exists n. split; [|done]. apply list_elem_of_lookup_2 in Hj. eapply elem_of_subseteq; [apply subseteq_take|exact Hj].
Qed.

(** A command line that is accepted names an entry of the table, by command and
    subcommand when some entry has both, otherwise an entry without subcommand; the
    arguments are what follows, or the entry's default, and their number lies between
    the first accepted count and some accepted count. *)
Theorem parse_command_sound (argv : list string) (offset : nat) (table : list command)
  (i : nat) (out : list (option string)) (H : parse_command argv offset table = Parsed i out) :
  exists cmd c args,
    argv !! offset = Some cmd /\ table !! i = Some c /\ names cmd c /\
    ((names_sub (argv !! S offset) c /\ args = drop (S (S offset)) argv) \/
     (cmd_subcommand c = "" /\ args = drop (S offset) argv /\
      forall c0, c0 ∈ table -> names cmd c0 -> ~ names_sub (argv !! S offset) c0)) /\
    out = match args with [] => [cmd_default c] | _ => Some <$> args end /\
    (take MISC_LENGTH (cmd_accepted c ++ replicate MISC_LENGTH 0)) !!! 0%nat <= Z.of_nat (length args) /\
    exists n, n ∈ cmd_accepted c ++ replicate MISC_LENGTH 0 /\ Z.of_nat (length args) <= n.
Proof.
  unfold parse_command in H. destruct (argv !! offset) as [cmd|] eqn:Eo; [|done].
  destruct (find_command table 0 cmd (argv !! S offset) false None) as [[m d] ix] eqn:Ef.
  apply find_command_sound in Ef as (H1 & H2 & H3). destruct m; [|done]. cbn [negb] in H.
  destruct ix as [i0|].
  - apply accept_arguments_sound in H as (-> & -> & Hn). destruct (H1 i0 eq_refl) as (j & c & -> & Hj & Hc & Hs).
    simpl in *. rewrite (list_lookup_total_correct _ _ _ Hj) in *. exists cmd, c, (drop (S (S offset)) argv). auto 10.
  - destruct d as [i0|]; [|by destruct (argv !! S offset)].
    apply accept_arguments_sound in H as (-> & -> & Hn). destruct (H3 i0 eq_refl) as [|(j & c & -> & Hj & Hc & Hs)]; [done|].
    simpl in *. rewrite (list_lookup_total_correct _ _ _ Hj) in *. exists cmd, c, (drop (S offset) argv). auto 10.
Qed.

(** ** Instances *)

Lemma parse_seconds_units_witness : parse_seconds "90m" = Some 5400.
Proof. exact (parse_seconds_units 90 60 "m"%char ltac:(lia) eq_refl). Defined.

Lemma time_round_trip_witness : parse_seconds (time_format 7325 FORMAT_TIME_MIN) = Some 7320.
Proof. refine (time_round_trip 7325 FORMAT_TIME_MIN _ _); [unfold INT64_MAX; lia|done]. Defined.

Lemma parse_seconds_bounds_witness : 0 <= 172800 <= INT64_MAX.
Proof. exact (parse_seconds_bounds "2D" 172800 eq_refl). Defined.

Definition getenv_example (v : string) : option string := if streq v "HOME" then Some "/home/pg" else None.

Lemma resolve_path_variable_witness :
  resolve_path getenv_example "x$HOME/run" = Some (Some "x/home/pg/run").
Proof.
  refine (resolve_path_variable getenv_example "x" "HOME" "/home/pg" "run" "/" eq_refl eq_refl _ eq_refl eq_refl eq_refl _);
    [discriminate|vm_compute; discriminate].
Defined.

Lemma resolve_path_trailing_variable_witness : resolve_path getenv_example "/run$HOME" = Some (Some "/run").
Proof.
  refine (resolve_path_trailing_variable getenv_example "/run" "HOME" eq_refl eq_refl _). vm_compute; discriminate.
Defined.

Definition table_example : list command :=
  [Command "flush" "" [0; 1] (Some "all"); Command "flush" "gracefully" [0; 1] (Some "all")].

Lemma parse_command_sound_witness :
  exists cmd c args, ["cli"; "flush"; "gracefully"; "db"] !! 1%nat = Some cmd /\ table_example !! 1%nat = Some c /\
    names cmd c /\ [Some "db"] = match args with [] => [cmd_default c] | _ => Some <$> args end.
Proof.
  destruct (parse_command_sound ["cli"; "flush"; "gracefully"; "db"] 1 table_example 1 [Some "db"] eq_refl)
    as (cmd & c & args & H1 & H2 & H3 & _ & H4 & _).
  exists cmd, c, args. split; [exact H1|]. split; [exact H2|]. split; [exact H3|exact H4].
Defined.
