(* ===== verification/Value.v ===== *)
(** * Universal values ([libpgagroal/value.c])

    The tagged values kept in deques and trees.  [data] is a machine word, or the
    string a [char *] points to; the two callbacks of [struct value] are the
    constructors of [destroy_cb] and [to_string_cb].  Floating point data is decoded
    from its bits with the standard library's [spec_float]. *)

From S2P Require Import Prelude Text.
From Stdlib Require Import SpecFloat.
From stdpp Require Import pretty.

Local Open Scope Z_scope.

(** [enum value_type], in the order of the header. *)
Inductive value_type :=
| ValueNone | ValueInt8 | ValueUInt8 | ValueInt16 | ValueUInt16 | ValueInt32 | ValueUInt32
| ValueInt64 | ValueUInt64 | ValueChar | ValueBool | ValueString | ValueStringRef | ValueFloat
| ValueDouble | ValueBASE64 | ValueBASE64Ref | ValueJSON | ValueJSONRef | ValueDeque
| ValueDequeRef | ValueART | ValueARTRef | ValueRef | ValueMem.

#[export] Instance value_type_eq_dec : EqDecision value_type.
Proof. solve_decision. Defined.

Definition type_code (t : value_type) : Z :=
  match t with
  | ValueNone => 0 | ValueInt8 => 1 | ValueUInt8 => 2 | ValueInt16 => 3 | ValueUInt16 => 4
  | ValueInt32 => 5 | ValueUInt32 => 6 | ValueInt64 => 7 | ValueUInt64 => 8 | ValueChar => 9
  | ValueBool => 10 | ValueString => 11 | ValueStringRef => 12 | ValueFloat => 13 | ValueDouble => 14
  | ValueBASE64 => 15 | ValueBASE64Ref => 16 | ValueJSON => 17 | ValueJSONRef => 18 | ValueDeque => 19
  | ValueDequeRef => 20 | ValueART => 21 | ValueARTRef => 22 | ValueRef => 23 | ValueMem => 24
  end.

(** [uintptr_t data]: a word, or a [char *] with what it points to. *)
Inductive payload :=
| Word (w : Z)
| Str (s : option string).

Inductive destroy_cb := noop_destroy_cb | free_destroy_cb | json_destroy_cb | deque_destroy_cb
| art_destroy_cb | custom_destroy_cb (id : Z).

Inductive to_string_cb :=
| noop_to_string_cb | int8_to_string_cb | uint8_to_string_cb | int16_to_string_cb | uint16_to_string_cb
| int32_to_string_cb | uint32_to_string_cb | int64_to_string_cb | uint64_to_string_cb
| float_to_string_cb | double_to_string_cb | bool_to_string_cb | char_to_string_cb
| string_to_string_cb | json_to_string_cb | deque_to_string_cb | art_to_string_cb | mem_to_string_cb
| custom_to_string_cb (id : Z).

Record value := Value {
  v_type : value_type; v_data : payload; v_destroy : destroy_cb; v_to_string : to_string_cb }.

(** The first [switch] of [pgagroal_value_create]. *)
Definition to_string_of (t : value_type) : to_string_cb :=
  match t with
  | ValueNone => noop_to_string_cb
  | ValueInt8 => int8_to_string_cb
  | ValueUInt8 => uint8_to_string_cb
  | ValueInt16 => int16_to_string_cb
  | ValueUInt16 => uint16_to_string_cb
  | ValueInt32 => int32_to_string_cb
  | ValueUInt32 => uint32_to_string_cb
  | ValueInt64 => int64_to_string_cb
  | ValueUInt64 => uint64_to_string_cb
  | ValueFloat => float_to_string_cb
  | ValueDouble => double_to_string_cb
  | ValueBool => bool_to_string_cb
  | ValueChar => char_to_string_cb
  | ValueString | ValueBASE64 | ValueStringRef | ValueBASE64Ref => string_to_string_cb
  | ValueJSON | ValueJSONRef => json_to_string_cb
  | ValueDeque | ValueDequeRef => deque_to_string_cb
  | ValueART | ValueARTRef => art_to_string_cb
  | ValueMem | ValueRef => mem_to_string_cb
  end.

(** The second one: strings are copied, the value owns what it must free. *)
Definition destroy_of (t : value_type) : destroy_cb :=
  match t with
  | ValueString | ValueBASE64 | ValueMem => free_destroy_cb
  | ValueJSON => json_destroy_cb
  | ValueDeque => deque_destroy_cb
  | ValueART => art_destroy_cb
  | _ => noop_destroy_cb
  end.

Definition value_create (t : value_type) (data : payload) : value :=
  Value t data (destroy_of t) (to_string_of t).

(** [struct value_config]. *)
Record value_config := ValueConfig { vc_destroy : option destroy_cb; vc_to_string : option to_string_cb }.

Definition value_create_with_config (data : payload) (config : option value_config) : value :=
  let v := value_create ValueRef data in
  match config with
  | None => v
  | Some c => Value (v_type v) (v_data v) (default (v_destroy v) (vc_destroy c)) (default (v_to_string v) (vc_to_string c))
  end.

(** [pgagroal_value_data] and [pgagroal_value_type]. *)
Definition value_data (v : option value) : payload := match v with None => Word 0 | Some v => v_data v end.
Definition value_type_of (v : option value) : value_type := match v with None => ValueNone | Some v => v_type v end.

(** [pgagroal_value_to_ref]. *)
Definition value_to_ref (t : value_type) : value_type :=
  match t with
  | ValueString => ValueStringRef
  | ValueBASE64 => ValueBASE64Ref
  | ValueJSON => ValueJSONRef
  | ValueDeque => ValueDequeRef
  | ValueART => ValueARTRef
  | ValueMem => ValueRef
  | t => t
  end.

(** [pgagroal_value_type_to_string]. *)
Definition value_type_to_string (t : value_type) : string :=
  match t with
  | ValueNone => "none" | ValueInt8 => "int8" | ValueUInt8 => "uint8" | ValueInt16 => "int16"
  | ValueUInt16 => "uint16" | ValueInt32 => "int32" | ValueUInt32 => "uint32" | ValueInt64 => "int64"
  | ValueUInt64 => "uint64" | ValueChar => "char" | ValueBool => "bool" | ValueString => "string"
  | ValueStringRef => "string_ref" | ValueFloat => "float" | ValueDouble => "double"
  | ValueBASE64 => "base64" | ValueBASE64Ref => "base64_ref" | ValueJSON => "json"
  | ValueJSONRef => "json_ref" | ValueDeque => "deque" | ValueDequeRef => "deque_ref"
  | ValueART => "art" | ValueARTRef => "art_ref" | ValueRef => "ref" | ValueMem => "mem"
  end.

(** ** Floating point *)

(** The value of the [mw + ew + 1] bits of an IEEE 754 number. *)
Definition float_of_bits (mw ew : Z) (w : Z) : spec_float :=
  let m := w mod 2 ^ mw in
  let e := (w / 2 ^ mw) mod 2 ^ ew in
  let s := Z.odd (w / 2 ^ (mw + ew)) in
  let bias := 2 ^ (ew - 1) - 1 in
  if e =? 2 ^ ew - 1 then (if m =? 0 then S754_infinity s else S754_nan)
  else if e =? 0 then
    match m with Zpos p => S754_finite s p (1 - bias - mw) | _ => S754_zero s end
  else match m + 2 ^ mw with Zpos p => S754_finite s p (e - bias - mw) | _ => S754_nan end.

Definition value_to_float (data : Z) : spec_float := float_of_bits 23 8 (u32 data).
Definition value_to_double (data : Z) : spec_float := float_of_bits 52 11 (u64 data).

(** ** [pgagroal_value_compare] *)

Definition word_of (p : payload) : Z := match p with Word w => w | Str _ => 0 end.
Definition str_of (p : payload) : option string := match p with Str s => s | Word _ => None end.

Definition value_compare (a b : option value) : Z :=
  match a, b with
  | None, None => 0
  | None, Some _ => -1
  | Some _, None => 1
  | Some a, Some b =>
      if negb (bool_decide (v_type a = v_type b))
      then (if type_code (v_type a) <? type_code (v_type b) then -1 else 1)
      else
        match v_type a with
        | ValueString | ValueStringRef | ValueBASE64 | ValueBASE64Ref =>
            match str_of (v_data a), str_of (v_data b) with
            | None, None => 0
            | None, Some _ => -1
            | Some _, None => 1
            | Some x, Some y => strcmp x y
            end
        | ValueFloat =>
            let x := value_to_float (word_of (v_data a)) in
            let y := value_to_float (word_of (v_data b)) in
            if SFltb x y then -1 else if SFltb y x then 1 else 0
        | ValueDouble =>
            let x := value_to_double (word_of (v_data a)) in
            let y := value_to_double (word_of (v_data b)) in
            (if SFltb y x then 1 else 0) - (if SFltb x y then 1 else 0)
        | _ =>
            if word_of (v_data a) <? word_of (v_data b) then -1
            else if word_of (v_data b) <? word_of (v_data a) then 1 else 0
        end
  end.

(** ** Ownership *)

(** A value created with the reference type of [t] prints the same way as one of
    type [t] and never frees its data, and taking the reference type twice is the same
    as once. *)
Theorem value_to_ref_borrows (t : value_type) (data : payload) :
  v_destroy (value_create (value_to_ref t) data) = noop_destroy_cb /\
  v_to_string (value_create (value_to_ref t) data) = v_to_string (value_create t data) /\
  value_to_ref (value_to_ref t) = value_to_ref t.
Proof. by destruct t. Qed.

(** ** The order of values *)

Lemma type_code_inj (t u : value_type) : type_code t = type_code u -> t = u.
Proof. destruct t, u; simpl; intros H; try reflexivity; discriminate H. Qed.

(** The order inside one type: strings by [strcmp] with NULL first, words as unsigned
    integers. *)
Definition string_type (t : value_type) : bool :=
  match t with ValueString | ValueStringRef | ValueBASE64 | ValueBASE64Ref => true | _ => false end.
Definition float_type (t : value_type) : bool :=
  match t with ValueFloat | ValueDouble => true | _ => false end.

Definition compare_strings (x y : option string) : Z :=
  match x, y with
  | None, None => 0 | None, Some _ => -1 | Some _, None => 1 | Some x, Some y => strcmp x y
  end.

Definition compare_words (x y : Z) : Z := if x <? y then -1 else if y <? x then 1 else 0.

Lemma value_compare_same (a b : value) :
  v_type a = v_type b -> float_type (v_type a) = false ->
  value_compare (Some a) (Some b) =
    if string_type (v_type a) then compare_strings (str_of (v_data a)) (str_of (v_data b))
    else compare_words (word_of (v_data a)) (word_of (v_data b)).
Proof.
  intros E Hf. unfold value_compare. rewrite bool_decide_eq_true_2 by done. cbn [negb].
  by destruct (v_type a).
Qed.

Lemma value_compare_types (a b : value) :
  v_type a <> v_type b ->
  value_compare (Some a) (Some b) = if type_code (v_type a) <? type_code (v_type b) then -1 else 1.
Proof. intros E. unfold value_compare. by rewrite bool_decide_eq_false_2. Qed.

Lemma compare_strings_opp (x y : option string) : compare_strings y x = - compare_strings x y.
Proof. destruct x, y; simpl; try lia. apply strcmp_opp. Qed.

Lemma compare_strings_trans (x y z : option string) :
  compare_strings x y <= 0 -> compare_strings y z <= 0 -> compare_strings x z <= 0.
Proof. destruct x, y, z; simpl; try lia. apply strcmp_trans. Qed.

Lemma compare_words_opp (x y : Z) : compare_words y x = - compare_words x y.
Proof. unfold compare_words. destruct (Z.ltb_spec x y), (Z.ltb_spec y x); lia. Qed.

Lemma compare_words_le (x y : Z) : compare_words x y <= 0 <-> x <= y.
Proof. unfold compare_words. destruct (Z.ltb_spec x y), (Z.ltb_spec y x); lia. Qed.

(** Values that are not floating point. *)
Definition ordered (v : value) : Prop := float_type (v_type v) = false.

Lemma value_compare_opp (a b : value) :
  ordered a -> ordered b -> value_compare (Some b) (Some a) = - value_compare (Some a) (Some b).
Proof.
  intros Ha Hb. destruct (decide (v_type a = v_type b)) as [E|E].
  - rewrite !value_compare_same by (done || congruence). rewrite E.
    destruct (string_type _); [apply compare_strings_opp|apply compare_words_opp].
  - rewrite !value_compare_types by (done || congruence).
    assert (type_code (v_type a) <> type_code (v_type b)) by (intros H; by apply E, type_code_inj).
    destruct (Z.ltb_spec (type_code (v_type a)) (type_code (v_type b))),
      (Z.ltb_spec (type_code (v_type b)) (type_code (v_type a))); lia.
Qed.

Lemma value_compare_trans (a b c : value) :
  ordered a -> ordered b -> ordered c -> value_compare (Some a) (Some b) <= 0 ->
  value_compare (Some b) (Some c) <= 0 -> value_compare (Some a) (Some c) <= 0.
Proof.
  intros Ha Hb Hc H1 H2.
  assert (forall x y : value, v_type x <> v_type y -> value_compare (Some x) (Some y) <= 0 ->
    type_code (v_type x) < type_code (v_type y)) as Ht.
  { intros x y Hne H. rewrite value_compare_types in H by done.
    destruct (Z.ltb_spec (type_code (v_type x)) (type_code (v_type y))); lia. }
  destruct (decide (v_type a = v_type b)) as [E1|E1], (decide (v_type b = v_type c)) as [E2|E2].
  - rewrite value_compare_same in * by congruence. rewrite <- E1 in H2.
    destruct (string_type (v_type a)); [by eapply compare_strings_trans|].
    rewrite compare_words_le in *. lia.
  - apply Ht in H2; [|done]. rewrite value_compare_types by congruence. rewrite E1.
    destruct (Z.ltb_spec (type_code (v_type b)) (type_code (v_type c))); lia.
  - apply Ht in H1; [|done]. rewrite value_compare_types by congruence. rewrite <- E2.
    destruct (Z.ltb_spec (type_code (v_type a)) (type_code (v_type b))); lia.
  - apply Ht in H1, H2; [|done..]. rewrite value_compare_types by (intros E; rewrite E in *; lia).
    destruct (Z.ltb_spec (type_code (v_type a)) (type_code (v_type c))); lia.
Qed.

(** On values that are not floating point, [pgagroal_value_compare] is a total
    preorder: comparing the other way round changes the sign, and it is transitive. *)
Theorem value_compare_total_preorder (a b c : value) (Ha : ordered a) (Hb : ordered b) (Hc : ordered c) :
  value_compare (Some b) (Some a) = - value_compare (Some a) (Some b) /\
  (value_compare (Some a) (Some b) <= 0 -> value_compare (Some b) (Some c) <= 0 ->
   value_compare (Some a) (Some c) <= 0).
Proof. split; [by apply value_compare_opp|by apply value_compare_trans]. Qed.

Lemma value_compare_total_preorder_witness :
  value_compare (Some (value_create ValueString (Str (Some "b")))) (Some (value_create ValueInt32 (Word 7))) =
  - value_compare (Some (value_create ValueInt32 (Word 7))) (Some (value_create ValueString (Str (Some "b")))).
Proof.
  apply (value_compare_total_preorder (value_create ValueInt32 (Word 7)) (value_create ValueString (Str (Some "b")))
    (value_create ValueBool (Word 1))); reflexivity.
Defined.
