(* ===== verification/Art.v ===== *)
(** * The adaptive radix tree ([libpgagroal/art.c])

    A tree maps C strings, compared with their terminating zero, to values.  A child
    pointer is an [option art_node], the low bit that marks a leaf is the constructor
    [ALeaf], and an assignment through [node_ref] is the node the operation returns.
    The arrays of a node have the length they have in its C struct, entries that are
    not in use included.

    Every operation runs in the [option] monad: [None] is a read outside an array, the
    dereference of a NULL pointer or an unsigned subtraction that wraps; [ArtFacts] shows
    that none of these happens.  Lengths and depths are natural numbers (a key is shorter
    than 2^32 bytes), [num_children] is an 8 bit counter. *)

From S2P Require Import Prelude Text Value.

Local Open Scope Z_scope.

Definition MAX_PREFIX_LEN : nat := 10.

Inductive art_node_type := Node4 | Node16 | Node48 | Node256.

#[export] Instance art_node_type_eq_dec : EqDecision art_node_type.
Proof. solve_decision. Defined.

(** [struct art_node], the header of every inner node (its [type] apart). *)
Record header := Header { prefix_len : nat; num_children : Z; prefix : list Z }.

Definition with_prefix (n : nat) (p : list Z) (h : header) : header := Header n (num_children h) p.
Definition with_count (n : Z) (h : header) : header := Header (prefix_len h) n (prefix h).

(** The number of [keys] and [children] of each node type. *)
Definition key_slots (t : art_node_type) : nat :=
  match t with Node4 => 4 | Node16 => 16 | Node48 => 256 | Node256 => 0 end.
Definition child_slots (t : art_node_type) : nat :=
  match t with Node4 => 4 | Node16 => 16 | Node48 => 48 | Node256 => 256 end.

(** [memmove] inside an array and [memcpy] from the start of one array to another. *)
Definition memmove {A} (dst src n : nat) (a : list A) : option (list A) :=
  if decide (dst + n <= length a /\ src + n <= length a)%nat
  then Some (take dst a ++ take n (drop src a) ++ drop (dst + n) a) else None.

Definition memcpy {A} (dst src : list A) (n : nat) : option (list A) :=
  if decide (n <= length dst /\ n <= length src)%nat then Some (take n src ++ drop n dst) else None.

(** [a[i] = x] inside an array. *)
Definition assign {A} (a : list A) (i : nat) (x : A) : option (list A) :=
  if decide (i < length a)%nat then Some (<[i := x]> a) else None.

(** [a - b] on [uint32_t]. *)
Definition sub32 (a b : nat) : option nat := if decide (b <= a)%nat then Some (a - b)%nat else None.

(** [while (len < max_cmp && a[i + len] == b[j + len]) len++;] for [k] iterations at most. *)
Fixpoint scan (k : nat) (a : list Z) (i : nat) (b : list Z) (j len max_cmp : nat) : option nat :=
  match k with
  | O => Some len
  | S k =>
      if (len <? max_cmp)%nat then
        x ← a !! (i + len)%nat; y ← b !! (j + len)%nat;
        if x =? y then scan k a i b j (S len) max_cmp else Some len
      else Some len
  end.

(** [find_index]: a binary search. *)
Fixpoint find_loop (k : nat) (ch : Z) (keys : list Z) (left right : nat) : option Z :=
  if (left + 1 <? right)%nat then
    match k with
    | O => None
    | S k =>
        let mid := ((left + right) / 2)%nat in
        x ← keys !! mid;
        if x =? ch then Some (Z.of_nat mid)
        else if x <? ch then find_loop k ch keys mid right
        else find_loop k ch keys left mid
    end
  else
    r ← keys !! right;
    if r <=? ch then Some (Z.of_nat right)
    else
      l ← keys !! left;
      if l <=? ch then Some (Z.of_nat left) else Some (-1).

Definition find_index (ch : Z) (keys : list Z) (length : Z) : option Z :=
  if length =? 0 then Some (-1)
  else find_loop (Z.to_nat length) ch keys 0 (Z.to_nat (length - 1)).

Section art.
Context {V : Type}.

(** [struct art_leaf]; [key_len] is the length of [key]. *)
Record art_leaf := Leaf { l_value : V; l_key : list Z }.

Inductive art_node :=
| ALeaf (l : art_leaf)
| AInner (type : art_node_type) (h : header) (keys : list Z) (children : list (option art_node)).

(** ** Creation *)

Definition create_art_leaf (key : list Z) (v : V) : art_node := ALeaf (Leaf v key).

Definition create_art_node (type : art_node_type) : art_node :=
  AInner type (Header 0 0 (replicate MAX_PREFIX_LEN 0)) (replicate (key_slots type) 0)
    (replicate (child_slots type) None).

(** [copy_header(dest, src)], where [dest] has been created just before. *)
Definition copy_header (dest src : header) : option header :=
  p ← memcpy (prefix dest) (prefix src) (Nat.min MAX_PREFIX_LEN (prefix_len src));
  Some (Header (prefix_len src) (num_children src) p).

(** A created node of type [type] with the header [src] copied into it. *)
Definition fresh_header (src : header) : option header :=
  copy_header (Header 0 0 (replicate MAX_PREFIX_LEN 0)) src.

(** ** Reading a node *)

(** [node_get_child]: the index in [children] of the address returned, if not NULL. *)
Definition sorted_get_child (h : header) (keys : list Z) (ch : Z) : option (option nat) :=
  idx ← find_index ch keys (num_children h);
  if idx =? -1 then Some None
  else
    x ← keys !! Z.to_nat idx;
    if x =? ch then Some (Some (Z.to_nat idx)) else Some None.

Definition node_get_child (type : art_node_type) (h : header) (keys : list Z) (ch : Z)
  : option (option nat) :=
  match type with
  | Node4 | Node16 => sorted_get_child h keys ch
  | Node48 =>
      k ← keys !! Z.to_nat ch;
      if k =? 0 then Some None else Some (Some (Z.to_nat (k - 1)))
  | Node256 => Some (Some (Z.to_nat ch))
  end.

(** The index of the first entry that satisfies [p], a loop without a bound. *)
Fixpoint first_index {A} (p : A -> bool) (a : list A) : option nat :=
  match a with
  | [] => None
  | x :: a => if p x then Some O else S <$> first_index p a
  end.

Definition is_null (c : option art_node) : bool := match c with None => true | Some _ => false end.

(** One step of the loop of [node_get_minimum]. *)
Definition leftmost (type : art_node_type) (keys : list Z) (children : list (option art_node))
  : option (option art_node) :=
  match type with
  | Node4 | Node16 => children !! O
  | Node48 =>
      idx ← first_index (fun k => negb (k =? 0)) keys;
      k ← keys !! idx;
      children !! Z.to_nat (k - 1)
  | Node256 => idx ← first_index (fun c => negb (is_null c)) children; children !! idx
  end.

(** The number of nodes on the longest path down: enough steps for any descent. *)
Fixpoint height (n : art_node) : nat :=
  match n with
  | ALeaf _ => 1
  | AInner _ _ _ children =>
      S (foldr (fun c m => Nat.max (match c with Some c => height c | None => O end) m) O children)
  end.

Fixpoint minimum_loop (k : nat) (node : option art_node) : option (option art_leaf) :=
  match node with
  | None => Some None
  | Some (ALeaf l) => Some (Some l)
  | Some (AInner type _ keys children) =>
      match k with
      | O => None
      | S k => node ← leftmost type keys children; minimum_loop k node
      end
  end.

Definition node_get_minimum (node : art_node) : option (option art_leaf) :=
  minimum_loop (height node) (Some node).

(** [leaf_match]. *)
Definition leaf_match (leaf : art_leaf) (key : list Z) : bool :=
  (length (l_key leaf) =? length key)%nat && bool_decide (l_key leaf = key).

(** [check_prefix_partial]. *)
Definition check_prefix_partial (h : header) (key : list Z) (depth key_len : nat) : option nat :=
  left ← sub32 key_len depth;
  let max_cmp := Nat.min (Nat.min (prefix_len h) MAX_PREFIX_LEN) left in
  scan max_cmp key depth (prefix h) 0 0 max_cmp.

(** [check_prefix]. *)
Definition check_prefix (node : art_node) (h : header) (key : list Z) (depth : nat) : option nat :=
  len ← check_prefix_partial h key depth (length key);
  if (len <? MAX_PREFIX_LEN)%nat then Some len
  else
    leaf ← node_get_minimum node;
    leaf ← leaf;
    max_cmp ← sub32 (Nat.min (length (l_key leaf)) (length key)) depth;
    scan max_cmp (l_key leaf) depth key depth len max_cmp.

(** ** Adding a child *)

Definition node256_add_child (h : header) (children : list (option art_node)) (ch : Z) (child : art_node)
  : option art_node :=
  cs ← assign children (Z.to_nat ch) (Some child);
  Some (AInner Node256 (with_count (u8 (num_children h + 1)) h) [] cs).

(** The loop that fills [children] of the larger node, for the key bytes [i ..]. *)
Fixpoint expand48 (keys : list Z) (children cs : list (option art_node)) (i : nat)
  : option (list (option art_node)) :=
  match keys with
  | [] => Some cs
  | k :: keys =>
      if k =? 0 then expand48 keys children cs (S i)
      else
        c ← children !! Z.to_nat (k - 1);
        cs ← assign cs i c;
        expand48 keys children cs (S i)
  end.

Definition node48_add_child (h : header) (keys : list Z) (children : list (option art_node)) (ch : Z)
  (child : art_node) : option art_node :=
  if num_children h <? 48 then
    pos ← first_index is_null children;
    cs ← assign children pos (Some child);
    ks ← assign keys (Z.to_nat ch) (Z.of_nat pos + 1);
    Some (AInner Node48 (with_count (u8 (num_children h + 1)) h) ks cs)
  else
    h' ← fresh_header h;
    cs ← expand48 keys children (replicate 256 None) 0;
    node256_add_child h' cs ch child.

(** [new_node->keys[node->keys[i]] = i + 1], for the entries [i ..]. *)
Fixpoint expand16 (keys ks : list Z) (i : nat) : option (list Z) :=
  match keys with
  | [] => Some ks
  | k :: keys => ks ← assign ks (Z.to_nat k) (u8 (Z.of_nat i + 1)); expand16 keys ks (S i)
  end.

(** The insertion into sorted arrays that [node4_add_child] and [node16_add_child] share. *)
Definition sorted_add_child (type : art_node_type) (h : header) (keys : list Z)
  (children : list (option art_node)) (ch : Z) (child : art_node) : option art_node :=
  idx ← find_index ch keys (num_children h);
  let at_ := Z.to_nat (idx + 1) in
  let n := Z.to_nat (num_children h - (idx + 1)) in
  ks ← memmove (at_ + 1) at_ n keys;
  cs ← memmove (at_ + 1) at_ n children;
  ks ← assign ks at_ ch;
  cs ← assign cs at_ (Some child);
  Some (AInner type (with_count (u8 (num_children h + 1)) h) ks cs).

Definition node16_add_child (h : header) (keys : list Z) (children : list (option art_node)) (ch : Z)
  (child : art_node) : option art_node :=
  if num_children h <? 16 then sorted_add_child Node16 h keys children ch child
  else
    h' ← fresh_header h;
    cs ← memcpy (replicate 48 None) children (Z.to_nat (num_children h));
    ks ← expand16 (take (Z.to_nat (num_children h)) keys) (replicate 256 0) 0;
    node48_add_child h' ks cs ch child.

Definition node4_add_child (h : header) (keys : list Z) (children : list (option art_node)) (ch : Z)
  (child : art_node) : option art_node :=
  if num_children h <? 4 then sorted_add_child Node4 h keys children ch child
  else
    h' ← fresh_header h;
    cs ← memcpy (replicate 16 None) children (Z.to_nat (num_children h));
    ks ← memcpy (replicate 16 0) keys (Z.to_nat (num_children h));
    node16_add_child h' ks cs ch child.

(** [node_add_child]; a leaf has no children to add to. *)
Definition node_add_child (node : art_node) (ch : Z) (child : art_node) : option art_node :=
  match node with
  | ALeaf _ => None
  | AInner Node4 h keys children => node4_add_child h keys children ch child
  | AInner Node16 h keys children => node16_add_child h keys children ch child
  | AInner Node48 h keys children => node48_add_child h keys children ch child
  | AInner Node256 h _ children => node256_add_child h children ch child
  end.

(** ** Insertion *)

(** The loop that finds where the key and the key of the leaf part, recording the first
    bytes in the prefix [p] of the new node. *)
Fixpoint expand_loop (k : nat) (key leaf_key : list Z) (depth idx : nat) (p : list Z)
  : option (nat * list Z) :=
  match k with
  | O => Some (idx, p)
  | S k =>
      if (idx <? Nat.min (length key) (length leaf_key))%nat then
        x ← key !! idx; y ← leaf_key !! idx;
        if negb (x =? y) then Some (idx, p)
        else
          p ← (if (idx - depth <? MAX_PREFIX_LEN)%nat then assign p (idx - depth) x else Some p);
          expand_loop k key leaf_key depth (S idx) p
      else Some (idx, p)
  end.

(** A created [Node4] with a prefix. *)
Definition create_node4_with (n : nat) (p : list Z) : art_node :=
  AInner Node4 (Header n 0 p) (replicate 4 0) (replicate 4 None).

(** A leaf with another key becomes an inner node with two leaves. *)
Definition expand_leaf (leaf : art_leaf) (key : list Z) (depth : nat) (v : V) : option art_node :=
  r ← expand_loop (length key) key (l_key leaf) depth depth (replicate MAX_PREFIX_LEN 0);
  n ← sub32 r.1 depth;
  b ← key !! (depth + n)%nat;
  new_node ← node_add_child (create_node4_with n r.2) b (create_art_leaf key v);
  b ← l_key leaf !! (depth + n)%nat;
  node_add_child new_node b (ALeaf leaf).

(** A node whose prefix the key leaves after [diff_len] bytes is moved below a new one. *)
Definition split_node (type : art_node_type) (h : header) (keys : list Z) (children : list (option art_node))
  (key : list Z) (depth diff_len : nat) (v : V) : option art_node :=
  p ← memcpy (replicate MAX_PREFIX_LEN 0) (prefix h) (Nat.min MAX_PREFIX_LEN diff_len);
  n ← sub32 (prefix_len h) (diff_len + 1);
  b ← key !! (depth + diff_len)%nat;
  new_node ← node_add_child (create_node4_with diff_len p) b (create_art_leaf key v);
  if (prefix_len h <=? MAX_PREFIX_LEN)%nat then
    b ← prefix h !! diff_len;
    p ← memmove 0 (diff_len + 1) n (prefix h);
    node_add_child new_node b (AInner type (with_prefix n p h) keys children)
  else
    min_leaf ← node_get_minimum (AInner type h keys children);
    min_leaf ← min_leaf;
    b ← l_key min_leaf !! (depth + diff_len)%nat;
    p ← memcpy (prefix h) (drop (depth + diff_len + 1) (l_key min_leaf)) (Nat.min MAX_PREFIX_LEN n);
    node_add_child new_node b (AInner type (with_prefix n p h) keys children).

(** What [art_node_insert] leaves in [*node_ref], the value it returns and [*new]. *)
Record inserted := Inserted { i_node : art_node; i_old : option V; i_new : bool }.

Fixpoint art_node_insert (k : nat) (node : option art_node) (depth : nat) (key : list Z) (v : V)
  : option inserted :=
  match node with
  | None => Some (Inserted (create_art_leaf key v) None true)
  | Some (ALeaf leaf) =>
      if leaf_match leaf key then Some (Inserted (ALeaf (Leaf v (l_key leaf))) (Some (l_value leaf)) false)
      else n ← expand_leaf leaf key depth v; Some (Inserted n None true)
  | Some (AInner type h keys children) =>
      diff_len ← check_prefix (AInner type h keys children) h key depth;
      if (diff_len <? prefix_len h)%nat then
        n ← split_node type h keys children key depth diff_len v;
        Some (Inserted n None true)
      else
        let depth := (depth + prefix_len h)%nat in
        ch ← key !! depth;
        next ← node_get_child type h keys ch;
        match next with
        | Some slot =>
            child ← children !! slot;
            let h := if is_null child then with_count (u8 (num_children h + 1)) h else h in
            match k with
            | O => None
            | S k =>
                r ← art_node_insert k child (depth + 1) key v;
                children ← assign children slot (Some (i_node r));
                Some (Inserted (AInner type h keys children) (i_old r) (i_new r))
            end
        | None =>
            n ← node_add_child (AInner type h keys children) ch (create_art_leaf key v);
            Some (Inserted n None true)
        end
  end.

(** ** Removing a child *)

(** [for (i = 0; len + i < MAX_PREFIX_LEN && i < child->prefix_len; i++)]. *)
Fixpoint fill_loop (k : nat) (p q : list Z) (len n i : nat) : option (list Z) :=
  match k with
  | O => Some p
  | S k =>
      if (len + i <? MAX_PREFIX_LEN)%nat && (i <? n)%nat then
        x ← q !! i;
        p ← assign p (len + i) x;
        fill_loop k p q len n (S i)
      else Some p
  end.

(** The only child that is left, under the byte [b], takes the place of the node. *)
Definition merge_child (h : header) (b : Z) (child : art_node) : option art_node :=
  match child with
  | ALeaf _ => Some child
  | AInner type hc keys children =>
      r ← (if (prefix_len h <? MAX_PREFIX_LEN)%nat
           then p ← assign (prefix h) (prefix_len h) b; Some (p, (prefix_len h + 1)%nat)
           else Some (prefix h, prefix_len h));
      p ← fill_loop MAX_PREFIX_LEN r.1 (prefix hc) r.2 (prefix_len hc) 0;
      let n := (prefix_len h + 1 + prefix_len hc)%nat in
      p ← memcpy (prefix hc) p (Nat.min n MAX_PREFIX_LEN);
      Some (AInner type (with_prefix n p hc) keys children)
  end.

(** The removal from sorted arrays that [node4_remove_child] and [node16_remove_child] share. *)
Definition sorted_remove_child (h : header) (keys : list Z) (children : list (option art_node)) (ch : Z)
  : option (header * list Z * list (option art_node)) :=
  idx ← find_index ch keys (num_children h);
  let at_ := Z.to_nat idx in
  let n := Z.to_nat (num_children h - (idx + 1)) in
  ks ← memmove at_ (at_ + 1) n keys;
  cs ← memmove at_ (at_ + 1) n children;
  Some (with_count (u8 (num_children h - 1)) h, ks, cs).

Definition node4_remove_child (h : header) (keys : list Z) (children : list (option art_node)) (ch : Z)
  : option art_node :=
  r ← sorted_remove_child h keys children ch;
  let '(h, keys, children) := r in
  if num_children h =? 1 then
    child ← children !! O;
    child ← child;
    b ← keys !! O;
    merge_child h b child
  else Some (AInner Node4 h keys children).

Definition node16_remove_child (h : header) (keys : list Z) (children : list (option art_node)) (ch : Z)
  : option art_node :=
  r ← sorted_remove_child h keys children ch;
  let '(h, keys, children) := r in
  if num_children h <=? 3 then
    h' ← fresh_header h;
    ks ← memcpy (replicate 4 0) keys (Z.to_nat (num_children h));
    cs ← memcpy (replicate 4 None) children (Z.to_nat (num_children h));
    Some (AInner Node4 h' ks cs)
  else Some (AInner Node16 h keys children).

(** The loop of [node48_remove_child] that fills the smaller node, for the key bytes [i ..]. *)
Fixpoint shrink48 (keys : list Z) (children : list (option art_node)) (ks : list Z)
  (cs : list (option art_node)) (cnt i : nat) : option (list Z * list (option art_node)) :=
  match keys with
  | [] => Some (ks, cs)
  | k :: keys =>
      if k =? 0 then shrink48 keys children ks cs cnt (S i)
      else
        c ← children !! Z.to_nat (k - 1);
        cs ← assign cs cnt c;
        ks ← assign ks cnt (Z.of_nat i);
        shrink48 keys children ks cs (S cnt) (S i)
  end.

Definition node48_remove_child (h : header) (keys : list Z) (children : list (option art_node)) (ch : Z)
  : option art_node :=
  idx ← keys !! Z.to_nat ch;
  children ← assign children (Z.to_nat (idx - 1)) None;
  keys ← assign keys (Z.to_nat ch) 0;
  let h := with_count (u8 (num_children h - 1)) h in
  if num_children h <=? 12 then
    h' ← fresh_header h;
    r ← shrink48 keys children (replicate 16 0) (replicate 16 None) 0 0;
    Some (AInner Node16 h' r.1 r.2)
  else Some (AInner Node48 h keys children).

(** The loop of [node256_remove_child] that fills the smaller node. *)
Fixpoint shrink256 (children : list (option art_node)) (ks : list Z) (cs : list (option art_node))
  (cnt i : nat) : option (list Z * list (option art_node)) :=
  match children with
  | [] => Some (ks, cs)
  | None :: children => shrink256 children ks cs cnt (S i)
  | Some c :: children =>
      ks ← assign ks i (u8 (Z.of_nat cnt + 1));
      cs ← assign cs cnt (Some c);
      shrink256 children ks cs (S cnt) (S i)
  end.

(** The count of the first 48 children that the code starts with is not used. *)
Definition node256_remove_child (h : header) (children : list (option art_node)) (ch : Z) : option art_node :=
  children ← assign children (Z.to_nat ch) None;
  let h := with_count (u8 (num_children h - 1)) h in
  if num_children h <=? 37 then
    h' ← fresh_header h;
    r ← shrink256 children (replicate 256 0) (replicate 48 None) 0 0;
    Some (AInner Node48 h' r.1 r.2)
  else Some (AInner Node256 h [] children).

Definition node_remove_child (type : art_node_type) (h : header) (keys : list Z)
  (children : list (option art_node)) (ch : Z) : option art_node :=
  match type with
  | Node4 => node4_remove_child h keys children ch
  | Node16 => node16_remove_child h keys children ch
  | Node48 => node48_remove_child h keys children ch
  | Node256 => node256_remove_child h children ch
  end.

(** ** Deletion *)

(** [art_node_delete]: what is left in [*node_ref], and the leaf returned. *)
Fixpoint art_node_delete (k : nat) (node : option art_node) (depth : nat) (key : list Z)
  : option (option art_node * option art_leaf) :=
  match node with
  | None => Some (None, None)
  | Some (ALeaf l) => if leaf_match l key then Some (None, Some l) else Some (node, None)
  | Some (AInner type h keys children) =>
      diff_len ← check_prefix_partial h key depth (length key);
      if negb (diff_len =? Nat.min MAX_PREFIX_LEN (prefix_len h))%nat then Some (node, None)
      else
        let depth := (depth + prefix_len h)%nat in
        if (length key <=? depth)%nat then Some (node, None)
        else
          ch ← key !! depth;
          child ← node_get_child type h keys ch;
          match child with
          | None => Some (node, None)
          | Some slot =>
              child ← children !! slot;
              match child with
              | Some (ALeaf l) =>
                  if leaf_match l key then
                    n ← node_remove_child type h keys children ch; Some (Some n, Some l)
                  else Some (node, None)
              | _ =>
                  match k with
                  | O => None
                  | S k =>
                      r ← art_node_delete k child (depth + 1) key;
                      children ← assign children slot r.1;
                      Some (Some (AInner type h keys children), r.2)
                  end
              end
          end
  end.

(** ** Search and iteration *)

(** The loop of [art_search]. *)
Fixpoint search_loop (k : nat) (node : option art_node) (depth : nat) (key : list Z) : option (option V) :=
  match node with
  | None => Some None
  | Some (ALeaf l) => if negb (leaf_match l key) then Some None else Some (Some (l_value l))
  | Some (AInner type h keys children) =>
      match k with
      | O => None
      | S k =>
          len ← check_prefix_partial h key depth (length key);
          if negb (len =? Nat.min (prefix_len h) MAX_PREFIX_LEN)%nat then Some None
          else
            let depth := (depth + prefix_len h)%nat in
            if (length key <=? depth)%nat then Some None
            else
              ch ← key !! depth;
              child ← node_get_child type h keys ch;
              match child with
              | None => Some None
              | Some slot => node ← children !! slot; search_loop k node (depth + 1) key
              end
      end
  end.

(** The child pointers in the order of the loops of [destroy_art_node],
    [art_node_iterate] and [pgagroal_art_iterator_next]: NULL entries are skipped in a
    [Node48] and a [Node256]. *)
Fixpoint children48 (keys : list Z) (children : list (option art_node)) : option (list (option art_node)) :=
  match keys with
  | [] => Some []
  | k :: keys =>
      if k =? 0 then children48 keys children
      else c ← children !! Z.to_nat (k - 1); cs ← children48 keys children; Some (c :: cs)
  end.

Definition child_list (type : art_node_type) (h : header) (keys : list Z)
  (children : list (option art_node)) : option (list (option art_node)) :=
  match type with
  | Node4 | Node16 =>
      if decide (Z.to_nat (num_children h) <= length children)%nat
      then Some (take (Z.to_nat (num_children h)) children) else None
  | Node48 => children48 keys children
  | Node256 => Some (filter (fun c => is_null c = false) children)
  end.

(** [for (...) { res = visit(child); if (res) return res; }] *)
Fixpoint visit_children {A} (visit : option art_node -> A -> option (A * Z)) (cs : list (option art_node))
  (data : A) : option (A * Z) :=
  match cs with
  | [] => Some (data, 0)
  | c :: cs =>
      r ← visit c data;
      if negb (r.2 =? 0) then Some r else visit_children visit cs r.1
  end.

Fixpoint art_node_iterate {A} (k : nat) (cb : A -> list Z -> V -> A * Z) (node : option art_node) (data : A)
  : option (A * Z) :=
  match node with
  | None => Some (data, 0)
  | Some (ALeaf l) => Some (cb data (l_key l) (l_value l))
  | Some (AInner type h keys children) =>
      match k with
      | O => None
      | S k => cs ← child_list type h keys children; visit_children (art_node_iterate k cb) cs data
      end
  end.

(** [destroy_art_node], as the values it destroys, in order. *)
Fixpoint destroy_children (destroy : option art_node -> option (list V)) (cs : list (option art_node))
  : option (list V) :=
  match cs with
  | [] => Some []
  | c :: cs => vs ← destroy c; ws ← destroy_children destroy cs; Some (vs ++ ws)
  end.

Fixpoint destroy_art_node (k : nat) (node : option art_node) : option (list V) :=
  match node with
  | None => Some []
  | Some (ALeaf l) => Some [l_value l]
  | Some (AInner type h keys children) =>
      match k with
      | O => None
      | S k => cs ← child_list type h keys children; destroy_children (destroy_art_node k) cs
      end
  end.

(** ** The tree *)

(** [struct art]. *)
Record art := Art { root : option art_node; art_size : Z }.

(** Enough steps for any descent from the root. *)
Definition root_height (t : art) : nat := match root t with None => O | Some n => height n end.

Definition art_create : art := Art None 0.

(** [art_search]. *)
Definition art_search (t : art) (key : list Z) : option (option V) :=
  match root t with
  | None => Some None
  | Some n => search_loop (root_height t) (Some n) 0 key
  end.

(** The bodies of [pgagroal_art_insert] and [pgagroal_art_delete] on a key with its
    terminator: the tree, and the value to be destroyed. *)
Definition tree_insert (t : art) (key : list Z) (v : V) : option (art * option V) :=
  r ← art_node_insert (root_height t) (root t) 0 key v;
  Some (Art (Some (i_node r)) (if i_new r then u64 (art_size t + 1) else art_size t), i_old r).

Definition tree_delete (t : art) (key : list Z) : option (art * option V) :=
  r ← art_node_delete (root_height t) (root t) 0 key;
  match r.2 with
  | Some l => Some (Art r.1 (u64 (art_size t - 1)), Some (l_value l))
  | None => Some (Art r.1 (art_size t), None)
  end.

(** [art_iterate]. *)
Definition art_iterate {A} (t : art) (cb : A -> list Z -> V -> A * Z) (data : A) : option (A * Z) :=
  art_node_iterate (root_height t) cb (root t) data.

(** [pgagroal_art_clear]: the empty tree, and the values destroyed. *)
Definition art_clear (t : art) : option (art * list V) :=
  vs ← destroy_art_node (root_height t) (root t); Some (art_create, vs).

(** ** Prefix search *)

(** [prefix_search_cb]; the state is the array of matches. *)
Definition prefix_search_cb (max_matches : Z) (ms : list (list Z)) (key : list Z) (v : V) : list (list Z) * Z :=
  if max_matches <=? Z.of_nat (length ms) then (ms, 1) else (ms ++ [key], 0).

(** [leaf->key_len >= key_len && strncmp(leaf->key, prefix, key_len) == 0]. *)
Definition leaf_has_prefix (l : art_leaf) (key : list Z) : bool :=
  (length key <=? length (l_key l))%nat && bool_decide (take (length key) (l_key l) = key).

(** The loop of [pgagroal_art_prefix_search]. *)
Fixpoint prefix_loop (k : nat) (node : option art_node) (depth : nat) (key : list Z) (max_matches : Z)
  : option (list (list Z)) :=
  match node with
  | None => Some []
  | Some (ALeaf l) =>
      Some (if leaf_has_prefix l key then (prefix_search_cb max_matches [] (l_key l) (l_value l)).1 else [])
  | Some (AInner type h keys children) =>
      match k with
      | O => None
      | S k =>
          cpl ← check_prefix_partial h key depth (length key);
          if (cpl <? Nat.min (prefix_len h) MAX_PREFIX_LEN)%nat && (depth + cpl <? length key)%nat
          then Some []
          else
            let depth := (depth + prefix_len h)%nat in
            if (length key <=? depth)%nat then
              min_leaf ← node_get_minimum (AInner type h keys children);
              match min_leaf with
              | Some l =>
                  if leaf_has_prefix l key then
                    r ← art_node_iterate (S k) (prefix_search_cb max_matches) node []; Some r.1
                  else Some []
              | None => Some []
              end
            else
              ch ← key !! depth;
              child ← node_get_child type h keys ch;
              match child with
              | None => Some []
              | Some slot => node ← children !! slot; prefix_loop k node (depth + 1) key max_matches
              end
      end
  end.

(** [pgagroal_art_prefix_search] on the bytes of the prefix ([[]] for NULL too): the
    number returned and the keys stored. *)
Definition tree_prefix_search (t : art) (key : list Z) (max_matches : Z) : option (Z * list (list Z)) :=
  match root t with
  | None => Some (-1, [])
  | Some n =>
      if max_matches <=? 0 then Some (-1, [])
      else
        ms ← (if (length key =? 0)%nat
              then r ← art_iterate t (prefix_search_cb max_matches) []; Some r.1
              else prefix_loop (root_height t) (Some n) 0 key max_matches);
        Some (Z.of_nat (length ms), ms)
  end.

(** ** The iterator *)

(** [struct art_iterator]; the deque of node references is the list of its contents, to
    which [pgagroal_deque_add] appends and from which [pgagroal_deque_poll] takes the
    first. *)
Record art_iterator := Iterator {
  it_que : list (option art_node); it_tree : art; it_count : Z; it_entry : option art_leaf }.

Definition art_iterator_create (t : art) : art_iterator := Iterator [] t 0 None.

(** [while (!pgagroal_deque_empty(que))]: the rest of the queue and the leaf found.  An
    inner node has two children or more, so a tree has less than twice as many nodes as
    leaves: that is the number of rounds [art_iterator_next] allows. *)
Fixpoint next_loop (k : nat) (q : list (option art_node)) : option (list (option art_node) * option art_leaf) :=
  match q with
  | [] => Some ([], None)
  | node :: q =>
      match k with
      | O => None
      | S k =>
          node ← node;
          match node with
          | ALeaf l => Some (q, Some l)
          | AInner type h keys children => cs ← child_list type h keys children; next_loop k (q ++ cs)
          end
      end
  end.

Definition art_iterator_next (it : art_iterator) : option (bool * art_iterator) :=
  if it_count it =? art_size (it_tree it) then Some (false, it)
  else
    let q := if it_count it =? 0 then it_que it ++ [root (it_tree it)] else it_que it in
    r ← next_loop (2 * Z.to_nat (art_size (it_tree it))) q;
    match r.2 with
    | Some l => Some (true, Iterator r.1 (it_tree it) (u32 (it_count it + 1)) (Some l))
    | None => Some (false, Iterator r.1 (it_tree it) (it_count it) (it_entry it))
    end.

(** [pgagroal_art_iterator_remove].  The nodes in the queue are taken as they were when
    they were added: a deletion changes the parent of the deleted leaf, which has left
    the queue before its leaves were visited (unless the root was added again), and the
    prefix of a node that is merged with its parent, which the iterator does not read. *)
Definition art_iterator_remove (it : art_iterator) : option art_iterator :=
  match it_entry it with
  | None => Some it
  | Some l =>
      r ← tree_delete (it_tree it) (l_key l);
      Some (Iterator (it_que it) r.1 (u32 (it_count it - 1)) None)
  end.

Definition art_iterator_has_next (it : art_iterator) : bool := it_count it <? art_size (it_tree it).

End art.

Arguments art_leaf : clear implicits.
Arguments art_node : clear implicits.
Arguments inserted : clear implicits.
Arguments art : clear implicits.
Arguments art_iterator : clear implicits.

(** ** The interface on C strings *)

(** The bytes of a C string up to its terminator, which is included. *)
Fixpoint c_key (s : string) : list Z :=
  match s with
  | EmptyString => [0]
  | String c s => if code c =? 0 then [0] else code c :: c_key s
  end.

(** [strlen] bytes of it. *)
Definition c_bytes (s : string) : list Z := removelast (c_key s).

(** [pgagroal_art_search], [pgagroal_art_search_typed] and [pgagroal_art_contains_key]. *)
Definition art_lookup (t : option (art value)) (key : option string) : option (option value) :=
  match t, key with
  | Some t, Some key => art_search t (c_key key)
  | _, _ => Some None
  end.

Definition pgagroal_art_search (t : option (art value)) (key : option string) : option payload :=
  v ← art_lookup t key; Some (value_data v).

(** The type is not written when the tree or the key is NULL. *)
Definition pgagroal_art_search_typed (t : option (art value)) (key : option string)
  : option (payload * option value_type) :=
  match t, key with
  | Some t, Some key => v ← art_search t (c_key key); Some (value_data v, Some (value_type_of v))
  | _, _ => Some (Word 0, None)
  end.

Definition pgagroal_art_contains_key (t : option (art value)) (key : option string) : option bool :=
  v ← art_lookup t key; Some (match v with Some _ => true | None => false end).

(** [pgagroal_art_insert]: the status, the tree, and the value destroyed. *)
Definition pgagroal_art_insert (t : option (art value)) (key : option string) (data : payload)
  (type : value_type) : option (Z * option (art value) * option value) :=
  match t, key with
  | Some t', Some key =>
      if bool_decide (type = ValueNone) then Some (1, t, None)
      else r ← tree_insert t' (c_key key) (value_create type data); Some (0, Some r.1, r.2)
  | _, _ => Some (1, t, None)
  end.

Definition pgagroal_art_insert_with_config (t : option (art value)) (key : option string) (data : payload)
  (config : option value_config) : option (Z * option (art value) * option value) :=
  match t, key with
  | Some t, Some key =>
      r ← tree_insert t (c_key key) (value_create_with_config data config); Some (0, Some r.1, r.2)
  | _, _ => Some (1, t, None)
  end.

Definition pgagroal_art_delete (t : option (art value)) (key : option string)
  : option (Z * option (art value) * option value) :=
  match t, key with
  | Some t, Some key => r ← tree_delete t (c_key key); Some (0, Some r.1, r.2)
  | _, _ => Some (1, t, None)
  end.

Definition pgagroal_art_prefix_search (t : option (art value)) (prefix : option string) (max_matches : Z)
  : option (Z * list (list Z)) :=
  match t with
  | None => Some (-1, [])
  | Some t => tree_prefix_search t (match prefix with Some p => c_bytes p | None => [] end) max_matches
  end.

(** [pgagroal_art_destroy], as the values destroyed. *)
Definition pgagroal_art_destroy (t : option (art value)) : option (list value) :=
  match t with
  | None => Some []
  | Some t => destroy_art_node (root_height t) (root t)
  end.
