(* ===== verification/ArtNode.v ===== *)
(** * Facts about one node of the radix tree

    [layout type h keys children ks] relates the arrays of a node to the list [ks] of its
    children in the order of their key bytes.  Reading, adding, replacing and removing a
    child are specified on [ks] alone, for all four node types at once, so that the
    proofs about whole trees ([ArtFacts]) do not see the arrays. *)

From stdpp Require Import sorting.
From S2P Require Import Prelude Text Value Art.

Local Open Scope Z_scope.

(** ** Arrays *)

Lemma assign_ok {A} (a : list A) (i : nat) (x : A) : (i < length a)%nat -> assign a i x = Some (<[i := x]> a).
Proof. intros H. unfold assign. by rewrite decide_True. Qed.

Lemma memmove_ok {A} (dst src n : nat) (a : list A) :
  (dst + n <= length a)%nat -> (src + n <= length a)%nat ->
  memmove dst src n a = Some (take dst a ++ take n (drop src a) ++ drop (dst + n) a).
Proof. intros H1 H2. unfold memmove. by rewrite decide_True. Qed.

Lemma memcpy_ok {A} (dst src : list A) (n : nat) :
  (n <= length dst)%nat -> (n <= length src)%nat -> memcpy dst src n = Some (take n src ++ drop n dst).
Proof. intros H1 H2. unfold memcpy. by rewrite decide_True. Qed.

Lemma sub32_ok (a b : nat) : (b <= a)%nat -> sub32 a b = Some (a - b)%nat.
Proof. intros H. unfold sub32. by rewrite decide_True. Qed.

Lemma take_app_copy {A} (n : nat) (a b : list A) :
  (n <= length a)%nat -> take n (take n a ++ b) = take n a.
Proof. intros H. rewrite take_app_le by (rewrite length_take; lia). rewrite take_take. f_equal; lia. Qed.

(** Opening a gap in the first [n] entries for [x] at [i], as the two [memmove]s of
    [sorted_add_child] do. *)
Lemma open_gap {A} (a l : list A) (n i : nat) (x : A) :
  take n a = l -> length l = n -> (i <= n < length a)%nat ->
  exists a', memmove (i + 1) i (n - i) a = Some a' /\ length a' = length a /\
    take (S n) (<[i := x]> a') = take i l ++ x :: drop i l.
Proof.
  intros Hl Hn Hi. eexists. split; [apply memmove_ok; lia|]. split.
  { rewrite !length_app, !length_take, !length_drop. lia. }
  set (g := take (i + 1) a ++ _).
  assert (Hg : take (S n) g = take (i + 1) a ++ drop i l).
  { subst g l. rewrite app_assoc, take_app_le.
    2:{ rewrite !length_app, !length_take, length_drop. lia. }
    rewrite take_ge by (rewrite !length_app, !length_take, length_drop; lia).
    f_equal. rewrite skipn_firstn_comm. done. }
  rewrite take_insert_lt by lia. rewrite Hg.
  replace (i + 1)%nat with (S i) by lia.
  destruct (lookup_lt_is_Some_2 a i) as [y Hy]; [lia|].
  rewrite (take_S_r _ _ _ Hy). rewrite <- app_assoc. simpl.
  rewrite insert_app_r_alt by (rewrite length_take; lia).
  rewrite length_take, Nat.min_l, Nat.sub_diag by lia. simpl.
  f_equal. subst l. rewrite take_take. f_equal; lia.
Qed.

(** Closing the gap at [i]. *)
Lemma close_gap {A} (a l : list A) (n i : nat) :
  take n a = l -> length l = n -> (i < n <= length a)%nat ->
  exists a', memmove i (i + 1) (n - (i + 1)) a = Some a' /\ length a' = length a /\
    take (n - 1) a' = take i l ++ drop (S i) l.
Proof.
  intros Hl Hn Hi. eexists. split; [apply memmove_ok; lia|]. split.
  { rewrite !length_app, !length_take, !length_drop. lia. }
  rewrite app_assoc, take_app_le by (rewrite !length_app, !length_take, length_drop; lia).
  rewrite take_ge by (rewrite !length_app, !length_take, length_drop; lia).
  subst l. rewrite take_take, Nat.min_l, skipn_firstn_comm by lia.
  do 3 f_equal; lia.
Qed.

Lemma first_index_spec {A} (p : A -> bool) (a : list A) (i : nat) (x : A) :
  a !! i = Some x -> p x = true ->
  exists j y, first_index p a = Some j /\ a !! j = Some y /\ p y = true /\ (j <= i)%nat /\
    (forall k z, (k < j)%nat -> a !! k = Some z -> p z = false).
Proof.
  revert i. induction a as [|z a IH]; intros i Hi Hx; [done|]. simpl. destruct (p z) eqn:Ez.
  - exists O, z. repeat split; try done; [lia|]. intros k ? Hk. lia.
  - destruct i as [|i]; simplify_eq/=; [congruence|].
    destruct (IH i Hi Hx) as (j & y & E & Hj & Hy & Hle & Hb). rewrite E.
    exists (S j), y. repeat split; try done; [lia|].
    intros [|k] z' Hk Hz'; simplify_eq/=; [done|]. apply (Hb k); [lia|done].
Qed.

(** ** The binary search *)

(** The number of entries up to [ch]. *)
Definition rank (ch : Z) (l : list Z) : nat := length (filter (fun x => x <= ch) l).

Lemma rank_le (ch : Z) (l : list Z) : (rank ch l <= length l)%nat.
Proof. apply length_filter. Qed.

Lemma rank_cons (ch y : Z) (l : list Z) :
  StronglySorted Z.lt (y :: l) -> rank ch (y :: l) = if decide (y <= ch) then S (rank ch l) else O.
Proof.
  intros [Hs Hy]%StronglySorted_inv. unfold rank. rewrite filter_cons.
  destruct (decide (y <= ch)) as [H|H]; [done|].
  replace (filter (fun x => x <= ch) l) with (@nil Z); [done|]. symmetry.
  destruct (filter _ l) as [|z f] eqn:E; [done|].
  assert (z ∈ filter (fun x => x <= ch) l) as [H1 H2]%list_elem_of_filter by (rewrite E; left).
  rewrite Forall_forall in Hy. apply Hy in H2. lia.
Qed.

Lemma rank_spec (ch : Z) (l : list Z) (i : nat) (x : Z) :
  StronglySorted Z.lt l -> l !! i = Some x -> (x <= ch <-> (i < rank ch l)%nat).
Proof.
  revert i. induction l as [|y l IH]; intros i Hs Hi; [done|].
  rewrite rank_cons by done. apply StronglySorted_inv in Hs as [Hs Hy].
  destruct i as [|i]; simplify_eq/=; [destruct (decide _); lia|].
  rewrite (IH i Hs Hi). destruct (decide (y <= ch)) as [H|H]; [lia|].
  rewrite <- (IH i Hs Hi). rewrite Forall_forall in Hy. apply list_elem_of_lookup_2, Hy in Hi. lia.
Qed.

Lemma rank_here (ch : Z) (l : list Z) (i : nat) :
  StronglySorted Z.lt l -> l !! i = Some ch -> rank ch l = S i.
Proof.
  revert i. induction l as [|y l IH]; intros i Hs Hi; [done|].
  rewrite rank_cons by done. apply StronglySorted_inv in Hs as [Hs Hy].
  destruct i as [|i]; simplify_eq/=.
  - rewrite decide_True by lia. f_equal. destruct l as [|z l]; [done|].
    rewrite rank_cons by done. rewrite decide_False; [done|]. inversion Hy; lia.
  - rewrite Forall_forall in Hy. pose proof (list_elem_of_lookup_2 _ _ _ Hi) as Hin. apply Hy in Hin.
    rewrite decide_True by lia. f_equal. by apply IH.
Qed.

Lemma find_loop_rank (k : nat) (ch : Z) (keys l : list Z) (n left right : nat) :
  take n keys = l -> length l = n -> StronglySorted Z.lt l ->
  (left <= right < n)%nat -> (right - left <= k)%nat ->
  (left = O \/ left < rank ch l)%nat -> (right = n - 1 \/ rank ch l <= right)%nat ->
  find_loop k ch keys left right = Some (Z.of_nat (rank ch l) - 1).
Proof.
  intros Hl Hn Hs. pose proof (rank_le ch l) as Hr.
  assert (Hk : forall i, (i < n)%nat -> exists x, keys !! i = Some x /\ l !! i = Some x /\ (x <= ch <-> (i < rank ch l)%nat)).
  { intros i Hi. destruct (lookup_lt_is_Some_2 l i) as [x Hx]; [lia|]. exists x. split; [|split].
    - rewrite <- Hl, lookup_take_lt in Hx by done. done.
    - done.
    - by apply rank_spec. }
  revert left right. induction k as [|k IH]; intros left right Hlr Hk' Hleft Hright; cbn [find_loop];
    destruct (Nat.ltb_spec (left + 1) right) as [H|H]; try lia.
  2:{ pose proof (Nat.div_mod_eq (left + right) 2) as Hd.
      pose proof (Nat.mod_upper_bound (left + right) 2 ltac:(lia)) as Hm.
      set (mid := ((left + right) / 2)%nat) in *.
      destruct (Hk mid) as (x & Hx & Hxl & Hxr); [lia|]. rewrite Hx. simpl.
      destruct (Z.eqb_spec x ch) as [->|Hne]; [rewrite (rank_here _ _ mid) by done; f_equal; lia|].
      destruct (Z.ltb_spec x ch); apply IH; lia. }
  all: destruct (Hk right) as (x & Hx & _ & Hxr); [lia|]; rewrite Hx; simpl;
    destruct (Z.leb_spec x ch); [f_equal; lia|];
    destruct (Hk left) as (y & Hy & _ & Hyr); [lia|]; rewrite Hy; simpl;
    destruct (Z.leb_spec y ch); f_equal; lia.
Qed.

Lemma find_index_rank (ch : Z) (keys l : list Z) (n : nat) :
  take n keys = l -> length l = n -> StronglySorted Z.lt l ->
  find_index ch keys (Z.of_nat n) = Some (Z.of_nat (rank ch l) - 1).
Proof.
  intros Hl Hn Hs. unfold find_index. destruct (Z.eqb_spec (Z.of_nat n) 0) as [E|E].
  - assert (n = O) as -> by lia. destruct l; [done|discriminate Hn].
  - pose proof (rank_le ch l). apply (find_loop_rank _ _ _ l n); try done; lia.
Qed.

Section nodes.
Context {V : Type}.
Implicit Types (ks : list (Z * art_node V)) (children : list (option (art_node V))).

(** ** The layout of a node *)

Definition is_byte (b : Z) : Prop := 0 <= b < 256.

(** The children in the order of their bytes. *)
Definition kids_ok ks : Prop := StronglySorted Z.lt ks.*1 /\ Forall is_byte ks.*1.

(** The entries of [children] that are not NULL. *)
Definition weight (c : option (art_node V)) : nat := if is_null c then O else 1%nat.
Definition used children : nat := sum_list_with weight children.

Definition sorted_layout (n : nat) (keys : list Z) children ks : Prop :=
  length keys = n /\ length children = n /\
  take (length ks) keys = ks.*1 /\ take (length ks) children = Some <$> ks.*2.

Record layout48 (keys : list Z) children ks : Prop := {
  l48_keys : length keys = 256%nat;
  l48_children : length children = 48%nat;
  l48_kid : forall b c, (b, c) ∈ ks ->
    exists x, keys !! Z.to_nat b = Some x /\ 1 <= x <= 48 /\ children !! Z.to_nat (x - 1) = Some (Some c);
  l48_key : forall b x, keys !! b = Some x -> x <> 0 -> exists c, (Z.of_nat b, c) ∈ ks;
  l48_inj : forall i j x, keys !! i = Some x -> keys !! j = Some x -> x <> 0 -> i = j;
  l48_used : used children = length ks
}.

Record layout256 (keys : list Z) children ks : Prop := {
  l256_keys : keys = [];
  l256_children : length children = 256%nat;
  l256_kid : forall b c, children !! b = Some (Some c) <-> (Z.of_nat b, c) ∈ ks
}.

Definition arrays (type : art_node_type) (keys : list Z) children ks : Prop :=
  match type with
  | Node4 => sorted_layout 4 keys children ks
  | Node16 => sorted_layout 16 keys children ks
  | Node48 => layout48 keys children ks
  | Node256 => layout256 keys children ks
  end.

Record layout (type : art_node_type) (h : header) (keys : list Z) children ks : Prop := {
  lay_kids : kids_ok ks;
  lay_count : num_children h = u8 (Z.of_nat (length ks));
  lay_fits : (length ks <= child_slots type)%nat;
  lay_arrays : arrays type keys children ks
}.

(** The number of children below which a node is replaced by a smaller one. *)
Definition min_children (type : art_node_type) : nat :=
  match type with Node4 => 2 | Node16 => 4 | Node48 => 13 | Node256 => 38 end.

(** The prefix a node stands for, of which the header keeps the first bytes. *)
Definition prefix_ok (h : header) (q : list Z) : Prop :=
  prefix_len h = length q /\ length (prefix h) = MAX_PREFIX_LEN /\
  take MAX_PREFIX_LEN q = take (Nat.min MAX_PREFIX_LEN (length q)) (prefix h).

(** ** Lists of children *)

Lemma elem_of_fst ks (b : Z) : b ∈ ks.*1 <-> exists c, (b, c) ∈ ks.
Proof.
  rewrite list_elem_of_fmap. split.
  - intros ([b' c] & -> & H). by exists c.
  - intros (c & H). by exists (b, c).
Qed.

Lemma kids_functional ks (b : Z) (c c' : art_node V) :
  kids_ok ks -> (b, c) ∈ ks -> (b, c') ∈ ks -> c = c'.
Proof.
  intros [Hs _]. induction ks as [|[b0 c0] ks IH]; [by intros ?%not_elem_of_nil|].
  apply StronglySorted_inv in Hs as [Hs H]. rewrite Forall_forall in H.
  intros [[= -> ->]|E]%elem_of_cons [E'|E']%elem_of_cons; simplify_eq; try done.
  - assert (b0 ∈ ks.*1) as Hb by (apply elem_of_fst; eauto). apply H in Hb. simpl in Hb. lia.
  - assert (b0 ∈ ks.*1) as Hb by (apply elem_of_fst; eauto). apply H in Hb. simpl in Hb. lia.
  - by apply IH.
Qed.

Lemma kids_byte ks (b : Z) (c : art_node V) : kids_ok ks -> (b, c) ∈ ks -> is_byte b.
Proof. intros [_ Hb] H. rewrite Forall_forall in Hb. apply Hb, elem_of_fst. eauto. Qed.

(** Adding a child at its place. *)
Definition kadd (ch : Z) (c : art_node V) ks : list (Z * art_node V) :=
  take (rank ch ks.*1) ks ++ (ch, c) :: drop (rank ch ks.*1) ks.

Lemma kadd_perm (ch : Z) (c : art_node V) ks : kadd ch c ks ≡ₚ (ch, c) :: ks.
Proof. unfold kadd. by rewrite <- Permutation_middle, take_drop. Qed.

Lemma kadd_length (ch : Z) (c : art_node V) ks : length (kadd ch c ks) = S (length ks).
Proof. by rewrite kadd_perm. Qed.

Lemma elem_of_kadd (ch : Z) (c : art_node V) ks (p : Z * art_node V) :
  p ∈ kadd ch c ks <-> p = (ch, c) \/ p ∈ ks.
Proof. rewrite kadd_perm. apply elem_of_cons. Qed.

Lemma kadd_ok (ch : Z) (c : art_node V) ks :
  kids_ok ks -> is_byte ch -> ch ∉ ks.*1 -> kids_ok (kadd ch c ks).
Proof.
  intros [Hs Hb] Hch Hn. split.
  2:{ rewrite kadd_perm. by constructor. }
  unfold kadd. rewrite fmap_app, fmap_cons, fmap_take, fmap_drop.
  set (l := ks.*1) in *. set (r := rank ch l).
  assert (Hl : forall x, x ∈ take r l -> x < ch).
  { intros x (i & Hi)%list_elem_of_lookup. apply lookup_take_Some in Hi as [Hi Hr].
    assert (x <> ch) by (intros ->; apply Hn; by eapply list_elem_of_lookup_2).
    apply (rank_spec ch l i x Hs Hi) in Hr. lia. }
  assert (Hd : forall x, x ∈ drop r l -> ch < x).
  { intros x (i & Hi)%list_elem_of_lookup. rewrite lookup_drop in Hi.
    destruct (Z.lt_ge_cases ch x) as [|Hle]; [done|].
    apply (rank_spec ch l _ x Hs Hi) in Hle. fold r in Hle. lia. }
  rewrite <- (take_drop r l) in Hs. apply StronglySorted_app in Hs as (H12 & H1 & H2).
  apply StronglySorted_app_2; [|done|].
  - intros x y Hx [->|Hy]%elem_of_cons; [by apply Hl|by apply H12].
  - constructor; [done|]. apply Forall_forall, Hd.
Qed.

Lemma kids_ok_remove k1 k2 (p : Z * art_node V) : kids_ok (k1 ++ p :: k2) -> kids_ok (k1 ++ k2).
Proof.
  intros [Hs Hb]. split.
  - rewrite fmap_app, fmap_cons in Hs. rewrite fmap_app.
    apply StronglySorted_app in Hs as (H12 & H1 & H2). apply StronglySorted_inv in H2 as [H2 _].
    apply StronglySorted_app_2; [|done..]. intros x y Hx Hy. apply H12; [done|by right].
  - rewrite fmap_app, Forall_app in *. by inversion_clear Hb as [? Hf]; inversion_clear Hf.
Qed.

Lemma kids_ok_same ks ks' : ks.*1 = ks'.*1 -> kids_ok ks -> kids_ok ks'.
Proof. intros E [Hs Hb]. split; by rewrite <- E. Qed.

(** The children other than the one at [ch]. *)
Lemma kids_others k1 k2 (ch b : Z) (c c' : art_node V) :
  kids_ok (k1 ++ (ch, c) :: k2) -> ((b, c') ∈ k1 ++ k2 <-> (b, c') ∈ k1 ++ (ch, c) :: k2 /\ b <> ch).
Proof.
  intros [Hs _]. rewrite fmap_app, fmap_cons in Hs. apply StronglySorted_app in Hs as (H12 & _ & H2).
  apply StronglySorted_inv in H2 as [_ H2]. rewrite Forall_forall in H2.
  rewrite !elem_of_app, elem_of_cons. split.
  - intros [H|H].
    + split; [tauto|]. assert (b ∈ k1.*1) as Hb by (apply elem_of_fst; eauto).
      specialize (H12 b ch Hb ltac:(left)). simpl in H12. lia.
    + split; [tauto|]. assert (b ∈ k2.*1) as Hb by (apply elem_of_fst; eauto). apply H2 in Hb. simpl in Hb. lia.
  - intros [[H|[H|H]] Hne]; simplify_eq; auto.
Qed.

(** ** The number of used entries *)

Lemma used_insert children (i : nat) (c c' : option (art_node V)) :
  children !! i = Some c -> (used (<[i := c']> children) + weight c = used children + weight c')%nat.
Proof.
  revert i. induction children as [|x cs IH]; intros [|i] Hi; simplify_eq/=; [unfold used; simpl; lia|].
  specialize (IH i Hi). unfold used in *. simpl. lia.
Qed.

Lemma used_full children : (forall i c, children !! i = Some c -> is_null c = false) -> used children = length children.
Proof.
  induction children as [|x cs IH]; intros H; [done|]. unfold used in *. simpl.
  rewrite IH by (intros i c Hi; by apply (H (S i))).
  unfold weight. by rewrite (H O x).
Qed.

Lemma used_replicate (n : nat) : used (replicate n None) = O.
Proof. by induction n. Qed.

Lemma used_app (a b : list (option (art_node V))) : used (a ++ b) = (used a + used b)%nat.
Proof. apply sum_list_with_app. Qed.

Lemma used_some (l : list (art_node V)) : used (Some <$> l) = length l.
Proof. induction l as [|x l IH]; [done|]. change (S (used (Some <$> l)) = S (length l)). congruence. Qed.

(** ** Reading *)

Lemma count_small (type : art_node_type) (h : header) (keys : list Z) children ks :
  layout type h keys children ks -> type <> Node256 -> num_children h = Z.of_nat (length ks).
Proof.
  intros [_ -> Hf _] Ht. apply wrapu_id. unfold in_u. destruct type; simpl in Hf; try done; lia.
Qed.

Lemma sorted_lookup (n : nat) (keys : list Z) children ks (i : nat) (b : Z) (c : art_node V) :
  sorted_layout n keys children ks -> ks !! i = Some (b, c) ->
  keys !! i = Some b /\ children !! i = Some (Some c).
Proof.
  intros (_ & _ & Hk & Hc) Hi. pose proof (lookup_lt_Some _ _ _ Hi) as Hlt. split.
  - rewrite <- (lookup_take_lt _ (length ks)), Hk, list_lookup_fmap, Hi by done. done.
  - rewrite <- (lookup_take_lt _ (length ks)), Hc, !list_lookup_fmap, Hi by done. done.
Qed.

(** What [node_get_child] returns: the entry of the child at [ch], the empty entry of a
    [Node256], or NULL. *)
Definition get_child_post (type : art_node_type) children ks (ch : Z) (r : option nat) : Prop :=
  match r with
  | None => ch ∉ ks.*1
  | Some slot =>
      (exists c, (ch, c) ∈ ks /\ children !! slot = Some (Some c)) \/
      (type = Node256 /\ slot = Z.to_nat ch /\ ch ∉ ks.*1 /\ children !! slot = Some None)
  end.

Lemma sorted_get_child_spec (n : nat) (h : header) (keys : list Z) children ks (ch : Z) :
  kids_ok ks -> num_children h = Z.of_nat (length ks) -> sorted_layout n keys children ks ->
  exists r, sorted_get_child h keys ch = Some r /\ get_child_post Node4 children ks ch r /\
    (forall slot, r = Some slot -> exists c, ks !! slot = Some (ch, c)).
Proof.
  intros [Hs Hb] Hn Hl. pose proof Hl as (_ & _ & Hk & _). unfold sorted_get_child.
  rewrite Hn, (find_index_rank ch keys ks.*1 (length ks)) by (done || apply length_fmap). simpl.
  pose proof (rank_le ch ks.*1) as Hr. rewrite length_fmap in Hr.
  destruct (Z.eqb_spec (Z.of_nat (rank ch ks.*1) - 1) (-1)) as [E|E].
  - exists None. split; [done|]. split; [|done]. simpl. intros (i & Hi)%list_elem_of_lookup.
    rewrite (rank_here _ _ i) in E by done. lia.
  - replace (Z.to_nat (Z.of_nat (rank ch ks.*1) - 1)) with (rank ch ks.*1 - 1)%nat by lia.
    destruct (lookup_lt_is_Some_2 ks (rank ch ks.*1 - 1)) as [[b c] Hi]; [lia|].
    destruct (sorted_lookup _ _ _ _ _ _ _ Hl Hi) as [Hki Hci]. rewrite Hki. simpl.
    destruct (Z.eqb_spec b ch) as [->|Hne].
    + eexists. split; [done|]. split; [|intros ? [= <-]; eauto]. left. exists c.
      split; [by eapply list_elem_of_lookup_2|done].
    + exists None. split; [done|]. split; [|done]. simpl. intros (j & Hj)%list_elem_of_lookup.
      assert (ks.*1 !! (rank ch ks.*1 - 1)%nat = Some b) as Hbi by (by rewrite list_lookup_fmap, Hi).
      rewrite (rank_here _ _ j), Nat.sub_succ, Nat.sub_0_r in Hbi by done. congruence.
Qed.

Lemma get_child_spec (type : art_node_type) (h : header) (keys : list Z) children ks (ch : Z) :
  layout type h keys children ks -> is_byte ch ->
  exists r, node_get_child type h keys ch = Some r /\ get_child_post type children ks ch r.
Proof.
  intros L Hch. pose proof L as [Hk _ _ Ha].
  assert (forall n, type <> Node256 -> sorted_layout n keys children ks ->
    exists r, sorted_get_child h keys ch = Some r /\ get_child_post type children ks ch r) as Hsort.
  { intros n Ht Hl. destruct (sorted_get_child_spec n h keys children ks ch Hk (count_small _ _ _ _ _ L Ht) Hl)
      as (r & E & Hr & _). exists r. split; [done|]. destruct r; [|done]. destruct Hr as [?|[? _]]; [by left|done]. }
  unfold node_get_child. destruct type; [by apply (Hsort 4%nat)|by apply (Hsort 16%nat)|..].
  - destruct Ha as [Hlk Hlc Hkid Hkey _ _]. unfold is_byte in Hch.
    destruct (lookup_lt_is_Some_2 keys (Z.to_nat ch)) as [x Hx]; [lia|]. rewrite Hx. simpl.
    destruct (Z.eqb_spec x 0) as [->|Hx0].
    + exists None. split; [done|]. simpl. intros (c & Hc)%elem_of_fst.
      destruct (Hkid _ _ Hc) as (y & Hy & ? & _). simplify_eq. lia.
    + eexists. split; [done|]. left. destruct (Hkey _ _ Hx Hx0) as [c Hc]. rewrite Z2Nat.id in Hc by lia.
      exists c. split; [done|]. destruct (Hkid _ _ Hc) as (y & Hy & ? & Hcc). by simplify_eq.
  - destruct Ha as [_ Hlc Hkid]. unfold is_byte in Hch. eexists. split; [done|]. simpl.
    destruct (lookup_lt_is_Some_2 children (Z.to_nat ch)) as [[c|] Hx]; [lia|..].
    + left. exists c. split; [|done]. apply Hkid in Hx. by rewrite Z2Nat.id in Hx by lia.
    + right. repeat split; try done. intros (c & Hc)%elem_of_fst.
      replace ch with (Z.of_nat (Z.to_nat ch)) in Hc by lia. apply Hkid in Hc. congruence.
Qed.

(** ** Replacing a child *)

Lemma kids_replace k1 k2 (ch b : Z) (c c' d : art_node V) :
  kids_ok (k1 ++ (ch, c) :: k2) ->
  ((b, d) ∈ k1 ++ (ch, c') :: k2 <-> (b = ch /\ d = c') \/ (b <> ch /\ (b, d) ∈ k1 ++ (ch, c) :: k2)).
Proof.
  intros Hk. assert (kids_ok (k1 ++ (ch, c') :: k2)) as Hk'.
  { eapply kids_ok_same; [|done]. by rewrite !fmap_app, !fmap_cons. }
  pose proof (kids_others k1 k2 ch b c d Hk) as H. pose proof (kids_others k1 k2 ch b c' d Hk') as H'.
  destruct (decide (b = ch)) as [->|Hne]; [|tauto].
  split; [intros Hd; left|intros [[_ ->]|[? _]]; [|done]].
  - split; [done|]. eapply kids_functional; [exact Hk'|done|]. apply elem_of_app. right. left.
  - apply elem_of_app. right. left.
Qed.

Lemma kids_position k1 k2 (ch : Z) (c d : art_node V) (i : nat) :
  kids_ok (k1 ++ (ch, c) :: k2) -> (k1 ++ (ch, c) :: k2) !! i = Some (ch, d) -> i = length k1.
Proof.
  intros [Hs _] Hi.
  assert ((k1 ++ (ch, c) :: k2).*1 !! i = Some ch) as H1 by (by rewrite list_lookup_fmap, Hi).
  assert ((k1 ++ (ch, c) :: k2).*1 !! length k1 = Some ch) as H2.
  { rewrite list_lookup_fmap, lookup_app_r, Nat.sub_diag by lia. done. }
  apply (rank_here _ _ _ Hs) in H1, H2. lia.
Qed.

Lemma set_child_sorted (n : nat) (keys : list Z) children k1 k2 (ch : Z) (c c' : art_node V) :
  sorted_layout n keys children (k1 ++ (ch, c) :: k2) ->
  (length (k1 ++ (ch, c) :: k2) <= n)%nat ->
  (length k1 < length children)%nat /\
  sorted_layout n keys (<[length k1 := Some c']> children) (k1 ++ (ch, c') :: k2).
Proof.
  intros (Hlk & Hlc & Hk & Hc) Hn. rewrite length_app in *. simpl in *. split; [lia|].
  repeat split; try done.
  - by rewrite length_insert.
  - rewrite length_app. simpl. rewrite Hk. by rewrite !fmap_app, !fmap_cons.
  - rewrite length_app. simpl. rewrite take_insert_lt, Hc by lia. rewrite !fmap_app, !fmap_cons.
    rewrite insert_app_r_alt by (rewrite !length_fmap; lia). rewrite !length_fmap, Nat.sub_diag. done.
Qed.

Lemma set_child_48 (keys : list Z) children k1 k2 (ch x : Z) (c c' : art_node V) :
  kids_ok (k1 ++ (ch, c) :: k2) -> layout48 keys children (k1 ++ (ch, c) :: k2) ->
  keys !! Z.to_nat ch = Some x -> x <> 0 ->
  (Z.to_nat (x - 1) < length children)%nat /\
  layout48 keys (<[Z.to_nat (x - 1) := Some c']> children) (k1 ++ (ch, c') :: k2).
Proof.
  intros Hk [Hlk Hlc Hkid Hkey Hinj Hu] Hx Hx0.
  destruct (Hkid ch c) as (y & Hy & Hyr & Hyc); [apply elem_of_app; right; left|].
  assert (y = x) as -> by congruence. split; [lia|]. split; try done.
  - by rewrite length_insert.
  - intros b d [[-> ->]|[Hne Hd]]%(kids_replace _ _ _ _ c); [..|done].
    + exists x. rewrite list_lookup_insert_eq by lia. done.
    + destruct (Hkid b d Hd) as (z & Hz & Hzr & Hzc). exists z. split; [done|]. split; [done|].
      rewrite list_lookup_insert_ne; [done|]. intros E. assert (z = x) as -> by lia.
      pose proof (Hinj _ _ _ Hx Hz Hx0). apply Hne.
      pose proof (kids_byte _ _ _ Hk Hd) as Hb.
      pose proof (kids_byte _ ch c Hk ltac:(apply elem_of_app; right; left)) as Hb'.
      unfold is_byte in *. lia.
  - intros b z Hz Hz0. destruct (Hkey b z Hz Hz0) as [d Hd].
    destruct (decide (Z.of_nat b = ch)) as [E|E]; [exists c'|exists d]; apply (kids_replace _ _ _ _ c); auto.
  - pose proof (used_insert children _ _ (Some c') Hyc) as E. unfold weight in E. cbn [is_null] in E.
    rewrite length_app in *. cbn [length] in *. lia.
Qed.

Lemma set_child_256 (keys : list Z) children k1 k2 (ch : Z) (c c' : art_node V) :
  kids_ok (k1 ++ (ch, c) :: k2) -> layout256 keys children (k1 ++ (ch, c) :: k2) ->
  (Z.to_nat ch < length children)%nat /\
  layout256 keys (<[Z.to_nat ch := Some c']> children) (k1 ++ (ch, c') :: k2).
Proof.
  intros Hk [Hlk Hlc Hkid].
  pose proof (kids_byte _ ch c Hk ltac:(apply elem_of_app; right; left)) as Hb. unfold is_byte in Hb.
  split; [lia|]. split; [done|by rewrite length_insert|]. intros b d.
  rewrite (kids_replace _ _ _ _ c) by done. destruct (decide (b = Z.to_nat ch)) as [->|Hne].
  - rewrite list_lookup_insert_eq, Z2Nat.id by lia. split; [intros [= ->]; auto|].
    intros [[_ ->]|[? _]]; done.
  - rewrite list_lookup_insert_ne, Hkid by done. split; [|intros [[? _]|[_ ?]]; [lia|done]].
    intros H. right. split; [lia|done].
Qed.

Lemma set_child_spec (type : art_node_type) (h : header) (keys : list Z) children k1 k2 (ch : Z)
  (c c' : art_node V) (slot : nat) :
  layout type h keys children (k1 ++ (ch, c) :: k2) -> node_get_child type h keys ch = Some (Some slot) ->
  (slot < length children)%nat /\
  layout type h keys (<[slot := Some c']> children) (k1 ++ (ch, c') :: k2).
Proof.
  intros L Hg. pose proof L as [Hk Hc Hf Ha].
  assert (Hlen : length (k1 ++ (ch, c') :: k2) = length (k1 ++ (ch, c) :: k2)) by (by rewrite !length_app).
  assert (Hk' : kids_ok (k1 ++ (ch, c') :: k2)).
  { eapply kids_ok_same; [|done]. by rewrite !fmap_app, !fmap_cons. }
  cut ((slot < length children)%nat /\ arrays type keys (<[slot := Some c']> children) (k1 ++ (ch, c') :: k2)).
  { intros [? ?]. split; [done|]. split; try done; by rewrite Hlen. }
  assert (forall n, type <> Node256 -> sorted_get_child h keys ch = Some (Some slot) ->
    sorted_layout n keys children (k1 ++ (ch, c) :: k2) -> slot = length k1) as Hpos.
  { intros n Ht Hg' Hl.
    destruct (sorted_get_child_spec n h keys children _ ch Hk (count_small _ _ _ _ _ L Ht) Hl)
      as (r & E & _ & Hr). assert (r = Some slot) as -> by congruence.
    destruct (Hr slot eq_refl) as [d Hd]. by apply (kids_position _ _ _ _ _ _ Hk Hd). }
  destruct type; simpl in *.
  - rewrite (Hpos 4%nat) by done. by apply (set_child_sorted _ _ _ _ _ _ c).
  - rewrite (Hpos 16%nat) by done. by apply (set_child_sorted _ _ _ _ _ _ c).
  - destruct (keys !! Z.to_nat ch) as [x|] eqn:Hx; [|done]. simpl in Hg.
    destruct (Z.eqb_spec x 0) as [|Hx0]; [done|]. simplify_eq. by apply (set_child_48 _ _ _ _ _ _ c).
  - simplify_eq. by apply (set_child_256 _ _ _ _ _ c).
Qed.

(** ** Adding a child *)

Lemma kids_nodup ks : kids_ok ks -> NoDup ks.*1.
Proof.
  intros [Hs _]. induction Hs as [|x l Hs IH Hx]; constructor; [|done].
  intros Hin. rewrite Forall_forall in Hx. apply Hx in Hin. lia.
Qed.

Lemma kids_bound ks : kids_ok ks -> (length ks <= 256)%nat.
Proof.
  intros Hk. pose proof Hk as [_ Hb]. rewrite <- (length_fmap fst ks).
  change 256%nat with (length (seqZ 0 256)). apply submseteq_length, NoDup_submseteq; [by apply kids_nodup|].
  intros x Hx. rewrite Forall_forall in Hb. apply Hb in Hx. unfold is_byte in Hx. apply elem_of_seqZ. lia.
Qed.

Lemma count_add ks (ch : Z) (c : art_node V) :
  u8 (u8 (Z.of_nat (length ks)) + 1) = u8 (Z.of_nat (length (kadd ch c ks))).
Proof. rewrite wrapu_add_l, kadd_length. f_equal. lia. Qed.

Lemma node256_add_child_spec (h : header) children ks (ch : Z) (c : art_node V) :
  layout Node256 h [] children ks -> is_byte ch -> ch ∉ ks.*1 ->
  layout Node256 (with_count (u8 (num_children h + 1)) h) [] (<[Z.to_nat ch := Some c]> children) (kadd ch c ks) /\
  node256_add_child h children ch c =
    Some (AInner Node256 (with_count (u8 (num_children h + 1)) h) [] (<[Z.to_nat ch := Some c]> children)).
Proof.
  intros [Hk Hc Hf [_ Hlc Hkid]] Hch Hn. unfold is_byte in Hch. simpl in *.
  pose proof (kadd_ok ch c ks Hk Hch Hn) as Hk'. split.
  - split; [done|rewrite Hc; apply count_add|by apply kids_bound|]. split; [done|by rewrite length_insert|].
    intros b d. rewrite elem_of_kadd, <- Hkid. destruct (decide (b = Z.to_nat ch)) as [->|Hne].
    + rewrite list_lookup_insert_eq by lia. split; [intros [= ->]; left; f_equal; lia|].
      intros [[= _ ->]|H]; [done|]. exfalso. apply Hn, elem_of_fst. exists d.
      apply Hkid in H. by rewrite Z2Nat.id in H by lia.
    + rewrite list_lookup_insert_ne by done. split; [by right|].
      intros [[= ? ?]|H]; [lia|done].
  - unfold node256_add_child. rewrite assign_ok by lia. done.
Qed.

(** What adding a child to a node does. *)
Definition add_post (type : art_node_type) (q : list Z) ks (ch : Z) (c : art_node V) (n : option (art_node V)) : Prop :=
  exists type' h' keys' children', n = Some (AInner type' h' keys' children') /\
    layout type' h' keys' children' (kadd ch c ks) /\ prefix_ok h' q /\
    (type' = type \/ (min_children type' <= S (length ks))%nat).

Lemma add_post_weaken (type type' : art_node_type) (q : list Z) ks (ch : Z) (c : art_node V) n :
  (min_children type' <= S (length ks))%nat ->
  add_post type' q ks ch c n -> add_post type q ks ch c n.
Proof.
  intros Hf (t & h & k & cs & -> & L & P & Ht). exists t, h, k, cs. split; [done|]. split; [done|].
  split; [done|]. right. by destruct Ht as [->|Ht].
Qed.

Lemma prefix_ok_count (n : Z) (h : header) (q : list Z) : prefix_ok h q -> prefix_ok (with_count n h) q.
Proof. done. Qed.

Lemma fresh_header_ok (h : header) (q : list Z) :
  prefix_ok h q ->
  exists h', fresh_header h = Some h' /\ prefix_ok h' q /\ num_children h' = num_children h.
Proof.
  intros (Hl & Hp & Hq). unfold fresh_header, copy_header. cbn [prefix].
  rewrite memcpy_ok by (rewrite ?length_replicate; lia). eexists. split; [reflexivity|].
  split; [|done]. rewrite Hl. repeat split; cbn [prefix_len prefix].
  - rewrite length_app, length_take, length_drop, length_replicate. lia.
  - rewrite Hq. rewrite take_app_le by (rewrite length_take; lia). rewrite take_take. f_equal; lia.
Qed.

Lemma sorted_add_child_spec (n : nat) (type : art_node_type) (h : header) (keys : list Z) children ks (ch : Z)
  (c : art_node V) :
  kids_ok ks -> num_children h = Z.of_nat (length ks) -> sorted_layout n keys children ks ->
  (length ks < n)%nat ->
  exists keys' children', sorted_add_child type h keys children ch c =
    Some (AInner type (with_count (u8 (num_children h + 1)) h) keys' children') /\
    sorted_layout n keys' children' (kadd ch c ks).
Proof.
  intros [Hs Hb] Hn (Hlk & Hlc & Hk & Hc) Hlt. unfold sorted_add_child.
  rewrite Hn, (find_index_rank ch keys ks.*1 (length ks)) by (done || apply length_fmap). simpl.
  pose proof (rank_le ch ks.*1) as Hr. rewrite length_fmap in Hr. set (r := rank ch ks.*1) in *.
  replace (Z.to_nat (Z.of_nat r - 1 + 1)) with r by lia.
  replace (Z.to_nat (Z.of_nat (length ks) - (Z.of_nat r - 1 + 1))) with (length ks - r)%nat by lia.
  destruct (open_gap keys ks.*1 (length ks) r ch) as (k' & -> & Hlk' & Htk); [done|apply length_fmap|lia|].
  destruct (open_gap children (Some <$> ks.*2) (length ks) r (Some c)) as (c' & -> & Hlc' & Htc);
    [done|by rewrite !length_fmap|lia|]. simpl.
  rewrite !assign_ok by lia. simpl. do 2 eexists. split; [done|].
  unfold sorted_layout. rewrite !length_insert, kadd_length. repeat split; try lia.
  - rewrite Htk. unfold kadd. fold r. by rewrite fmap_app, fmap_cons, fmap_take, fmap_drop.
  - rewrite Htc. unfold kadd. fold r. by rewrite !fmap_app, !fmap_cons, !fmap_take, !fmap_drop.
Qed.

Lemma add_child_sorted (type : art_node_type) (h : header) (keys : list Z) children ks (ch : Z) (c : art_node V)
  (q : list Z) :
  layout type h keys children ks -> type = Node4 \/ type = Node16 -> prefix_ok h q -> is_byte ch ->
  ch ∉ ks.*1 -> (length ks < child_slots type)%nat ->
  add_post type q ks ch c (sorted_add_child type h keys children ch c).
Proof.
  intros L Ht Hp Hch Hn Hlt. pose proof L as [Hk Hc Hf Ha].
  pose proof (count_small _ _ _ _ _ L ltac:(destruct Ht; congruence)) as Hcnt.
  assert (Hl : sorted_layout (child_slots type) keys children ks) by (destruct Ht as [-> | ->]; exact Ha).
  destruct (sorted_add_child_spec _ type h keys children ks ch c Hk Hcnt Hl Hlt) as (k' & c' & -> & Hl').
  exists type, (with_count (u8 (num_children h + 1)) h), k', c'. split; [done|].
  split; [|split; [by apply prefix_ok_count|by left]]. split.
  - by apply kadd_ok.
  - simpl. rewrite Hc. apply count_add.
  - rewrite kadd_length. lia.
  - by destruct Ht as [-> | ->].
Qed.

Lemma used_free children : (used children < length children)%nat -> exists i, children !! i = Some None.
Proof.
  induction children as [|[x|] cs IH]; intros H; [simpl in H; unfold used in H; simpl in H; lia| |by exists O].
  destruct IH as [i Hi]; [unfold used in *; simpl in *; lia|]. by exists (S i).
Qed.

Lemma add_48_layout (keys : list Z) children ks (ch : Z) (c : art_node V) (pos : nat) :
  kids_ok ks -> layout48 keys children ks -> is_byte ch -> ch ∉ ks.*1 -> (pos < 48)%nat ->
  children !! pos = Some None ->
  layout48 (<[Z.to_nat ch := Z.of_nat pos + 1]> keys) (<[pos := Some c]> children) (kadd ch c ks).
Proof.
  intros Hk [Hlk Hlc Hkid Hkey Hinj Hu] Hch Hn Hpos Hp. unfold is_byte in Hch.
  assert (Hnone : forall b x, keys !! b = Some x -> x <> 0 -> b <> Z.to_nat ch /\ x <> Z.of_nat pos + 1).
  { intros b x Hx Hx0. destruct (Hkey _ _ Hx Hx0) as [d Hd]. split.
    - intros ->. apply Hn, elem_of_fst. exists d. by rewrite Z2Nat.id in Hd by lia.
    - destruct (Hkid _ _ Hd) as (y & Hy & ? & Hyc). rewrite Nat2Z.id in Hy. simplify_eq.
      intros ->. replace (Z.to_nat (Z.of_nat pos + 1 - 1)) with pos in Hyc by lia. congruence. }
  split; try by rewrite length_insert.
  - intros b d [[= -> ->]|Hd]%elem_of_kadd.
    + eexists. rewrite list_lookup_insert_eq by lia. split; [done|]. split; [lia|].
      replace (Z.to_nat (Z.of_nat pos + 1 - 1)) with pos by lia. rewrite list_lookup_insert_eq by lia. done.
    + destruct (Hkid _ _ Hd) as (x & Hx & ? & Hxc). destruct (Hnone _ _ Hx ltac:(lia)) as [Hb1 Hx1].
      exists x. rewrite !list_lookup_insert_ne by (done || lia). done.
  - intros b x Hx Hx0. setoid_rewrite elem_of_kadd. destruct (decide (b = Z.to_nat ch)) as [->|Hne].
    + exists c. left. f_equal. lia.
    + rewrite list_lookup_insert_ne in Hx by done. destruct (Hkey _ _ Hx Hx0) as [d Hd]. eauto.
  - intros i j x Hi Hj Hx0.
    destruct (decide (i = Z.to_nat ch)) as [->|Hni], (decide (j = Z.to_nat ch)) as [->|Hnj]; [done|..].
    + rewrite list_lookup_insert_eq in Hi by lia. rewrite list_lookup_insert_ne in Hj by done. simplify_eq.
      by destruct (Hnone _ _ Hj Hx0).
    + rewrite list_lookup_insert_eq in Hj by lia. rewrite list_lookup_insert_ne in Hi by done. simplify_eq.
      by destruct (Hnone _ _ Hi Hx0).
    + rewrite list_lookup_insert_ne in Hi, Hj by done. by eapply Hinj.
  - pose proof (used_insert children _ _ (Some c) Hp) as E. unfold weight in E. cbn [is_null] in E.
    rewrite kadd_length. lia.
Qed.

(** The child that a key entry of a [Node48] refers to. *)
Definition entry48 children (k : Z) : option (art_node V) :=
  if k =? 0 then None else default None (children !! Z.to_nat (k - 1)).

Lemma entry48_zero children : entry48 children 0 = None.
Proof. done. Qed.

Lemma entry48_some children (k : Z) (c : art_node V) :
  k <> 0 -> children !! Z.to_nat (k - 1) = Some (Some c) -> entry48 children k = Some c.
Proof. intros Hk Hc. unfold entry48. by rewrite (proj2 (Z.eqb_neq k 0) Hk), Hc. Qed.

(** Every entry of a [Node48] that is in use refers to a child. *)
Lemma entries_48 (keys : list Z) children ks (b : nat) (x : Z) :
  layout48 keys children ks -> keys !! b = Some x -> x <> 0 ->
  exists c, children !! Z.to_nat (x - 1) = Some (Some c) /\ (Z.of_nat b, c) ∈ ks.
Proof.
  intros [_ _ Hkid Hkey _ _] Hx Hx0. destruct (Hkey _ _ Hx Hx0) as [c Hc].
  destruct (Hkid _ _ Hc) as (y & Hy & _ & Hyc). rewrite Nat2Z.id in Hy. simplify_eq. eauto.
Qed.

Lemma lookup_48 (keys : list Z) children ks (b : nat) (c : art_node V) :
  layout48 keys children ks -> (entry48 children <$> keys) !! b = Some (Some c) <-> (Z.of_nat b, c) ∈ ks.
Proof.
  intros L. rewrite list_lookup_fmap. split.
  - destruct (keys !! b) as [x|] eqn:Hx; [|done]. cbn. unfold entry48. intros [= E].
    destruct (Z.eqb_spec x 0) as [|Hx0]; [done|].
    destruct (entries_48 _ _ _ _ _ L Hx Hx0) as (d & Hd & Hin). rewrite Hd in E. simpl in E. by simplify_eq.
  - intros Hc. destruct (l48_kid _ _ _ L _ _ Hc) as (x & Hx & ? & Hxc). rewrite Nat2Z.id in Hx. rewrite Hx. cbn.
    f_equal. apply entry48_some; [lia|done].
Qed.

Lemma expand48_spec (keys : list Z) children pre :
  (forall i k, keys !! i = Some k -> k <> 0 -> is_Some (children !! Z.to_nat (k - 1))) ->
  expand48 keys children (pre ++ replicate (length keys) None) (length pre) =
    Some (pre ++ (entry48 children <$> keys)).
Proof.
  revert pre. induction keys as [|k keys IH]; intros pre H; [done|]. cbn [expand48 length replicate].
  cbn [fmap list_fmap].
  assert (forall x, pre ++ x :: replicate (length keys) None = (pre ++ [x]) ++ replicate (length keys) None) as E
    by (intros x; by rewrite <- app_assoc).
  assert (forall i k', keys !! i = Some k' -> k' <> 0 -> is_Some (children !! Z.to_nat (k' - 1))) as H'
    by (intros i k' Hk; by apply (H (S i))).
  assert (forall x : option (art_node V), S (length pre) = length (pre ++ [x])) as El by (intros x; rewrite length_app; simpl; lia).
  destruct (Z.eqb_spec k 0) as [->|Hk].
  - rewrite E, (El None), IH, <- app_assoc by done. done.
  - destruct (H O k eq_refl Hk) as [c Hc]. rewrite Hc. simpl.
    rewrite assign_ok by (rewrite length_app; simpl; lia). simpl.
    rewrite insert_app_r_alt, Nat.sub_diag by lia. cbn [insert list_insert].
    assert (entry48 children k = c) as -> by (unfold entry48; by rewrite (proj2 (Z.eqb_neq k 0) Hk), Hc).
    rewrite E, (El c), IH, <- app_assoc by done. done.
Qed.

Lemma expand48_layout (h : header) (keys : list Z) children ks :
  layout Node48 h keys children ks ->
  exists cs, expand48 keys children (replicate 256 None) 0 = Some cs /\ layout256 [] cs ks.
Proof.
  intros [_ _ _ L]. pose proof (l48_keys _ _ _ L) as Hlk. exists (entry48 children <$> keys). split.
  - rewrite <- Hlk. apply (expand48_spec keys children []). intros i k Hi Hk0.
    destruct (entries_48 _ _ _ _ _ L Hi Hk0) as (d & Hd & _). by rewrite Hd.
  - split; [done|by rewrite length_fmap|]. intros b c. by apply lookup_48.
Qed.

Lemma node48_add_child_spec (h : header) (keys : list Z) children ks (ch : Z) (c : art_node V) (q : list Z) :
  layout Node48 h keys children ks -> prefix_ok h q -> is_byte ch -> ch ∉ ks.*1 ->
  add_post Node48 q ks ch c (node48_add_child h keys children ch c).
Proof.
  intros L Hp Hch Hn. pose proof L as [Hk Hc Hf Ha]. unfold node48_add_child.
  pose proof (count_small _ _ _ _ _ L ltac:(done)) as Hcnt.
  destruct (Z.ltb_spec (num_children h) 48) as [Hlt|Hge].
  - pose proof Ha as [Hlk Hlc _ _ _ Hu]. destruct (used_free children) as [i Hi]; [lia|].
    destruct (first_index_spec is_null children i None Hi eq_refl) as (pos & y & -> & Hy & Hny & _).
    destruct y as [y|]; [done|]. pose proof (lookup_lt_Some _ _ _ Hy) as Hpos. unfold is_byte in Hch.
    simpl. rewrite !assign_ok by lia. simpl.
    do 4 eexists. split; [done|]. split; [|split; [by apply prefix_ok_count|by left]]. split.
    + by apply kadd_ok.
    + simpl. rewrite Hc. apply count_add.
    + rewrite kadd_length. simpl. lia.
    + apply add_48_layout; try done. lia.
  - destruct (fresh_header_ok h q Hp) as (h' & -> & Hp' & Hn').
    destruct (expand48_layout _ _ _ _ L) as (cs & Hcs & Hl). cbn [mbind option_bind]. rewrite Hcs. cbn [mbind option_bind].
    assert (layout Node256 h' [] cs ks) as L'.
    { split; [done|congruence|by apply kids_bound|done]. }
    destruct (node256_add_child_spec h' cs ks ch c L' Hch Hn) as [L'' E]. rewrite E.
    do 4 eexists. split; [done|]. split; [done|]. split; [by apply prefix_ok_count|]. right. simpl in *. lia.
Qed.

Lemma expand16_spec (l keys : list Z) (i : nat) :
  NoDup l -> Forall is_byte l -> length keys = 256%nat -> (i + length l < 256)%nat ->
  exists keys', expand16 l keys i = Some keys' /\ length keys' = 256%nat /\
    (forall j x, l !! j = Some x -> keys' !! Z.to_nat x = Some (Z.of_nat (i + j) + 1)) /\
    (forall b, Z.of_nat b ∉ l -> keys' !! b = keys !! b).
Proof.
  revert keys i. induction l as [|x l IH]; intros keys i Hnd Hb Hlk Hi; [by exists keys|].
  inversion_clear Hnd as [|? ? Hx Hnd']. inversion_clear Hb as [|? ? Hbx Hb']. unfold is_byte in Hbx.
  cbn [expand16]. simpl in Hi. rewrite assign_ok by lia. cbn [mbind option_bind].
  rewrite wrapu_id by (unfold in_u; lia).
  destruct (IH (<[Z.to_nat x := Z.of_nat i + 1]> keys) (S i)) as (k' & -> & Hl' & Hin & Hout);
    [done|done|by rewrite length_insert|lia|].
  exists k'. split; [done|]. split; [done|]. split.
  - intros [|j] y Hy; simplify_eq/=.
    + rewrite Hout by (by rewrite Z2Nat.id by lia). rewrite list_lookup_insert_eq by lia. do 2 f_equal. lia.
    + rewrite (Hin j y Hy). do 2 f_equal. lia.
  - intros b Hnb. rewrite not_elem_of_cons in Hnb. destruct Hnb as [Hne Hnb].
    rewrite Hout, list_lookup_insert_ne by (done || lia). done.
Qed.

Lemma expand16_layout (h : header) (keys : list Z) children ks :
  layout Node16 h keys children ks ->
  exists keys', expand16 (take (length ks) keys) (replicate 256 0) 0 = Some keys' /\
    layout48 keys' (take (length ks) children ++ drop (length ks) (replicate 48 None)) ks.
Proof.
  intros [Hk Hc Hf (Hlk & Hlc & Htk & Htc)]. simpl in Hf. rewrite Htk, Htc. pose proof Hk as [Hs Hb].
  destruct (expand16_spec ks.*1 (replicate 256 0) 0) as (k' & E & Hl & Hin & Hout);
    [by apply kids_nodup|done|apply length_replicate|rewrite length_fmap; lia|].
  exists k'. split; [done|]. split.
  - done.
  - rewrite length_app, !length_fmap, length_drop, length_replicate. lia.
  - intros b c (i & Hi)%list_elem_of_lookup. pose proof (lookup_lt_Some _ _ _ Hi) as Hlt.
    exists (Z.of_nat i + 1). split; [apply (Hin i b); by rewrite list_lookup_fmap, Hi|]. split; [lia|].
    replace (Z.to_nat (Z.of_nat i + 1 - 1)) with i by lia.
    rewrite lookup_app_l by (rewrite !length_fmap; lia). by rewrite !list_lookup_fmap, Hi.
  - intros b x Hx Hx0. destruct (decide (Z.of_nat b ∈ ks.*1)) as [Hb'|Hb']; [by apply elem_of_fst|].
    rewrite Hout in Hx by done. apply lookup_replicate in Hx as [-> _]. done.
  - assert (forall b x, k' !! b = Some x -> x <> 0 -> exists j, ks.*1 !! j = Some (Z.of_nat b) /\ x = Z.of_nat j + 1) as Hj.
    { intros b x Hx Hx0. destruct (decide (Z.of_nat b ∈ ks.*1)) as [(j & Hj)%list_elem_of_lookup|Hb'].
      - exists j. split; [done|]. apply Hin in Hj. rewrite Nat2Z.id in Hj. simplify_eq. lia.
      - rewrite Hout in Hx by done. apply lookup_replicate in Hx as [-> _]. done. }
    intros i j x Hi Hj' Hx0. destruct (Hj _ _ Hi Hx0) as (a & Ha & E1). destruct (Hj _ _ Hj' Hx0) as (b & Hb' & E2).
    assert (a = b) as -> by lia. rewrite Ha in Hb'. simplify_eq. done.
  - rewrite used_app, used_some, drop_replicate, used_replicate, length_fmap. lia.
Qed.

Lemma copied_array {A} (a dst l : list A) (n : nat) :
  take n a = l -> (n <= length dst)%nat -> (n <= length a)%nat ->
  exists a', memcpy dst a n = Some a' /\ length a' = length dst /\ take n a' = l /\ a' = take n a ++ drop n dst.
Proof.
  intros <- Hd Ha. eexists. split; [by apply memcpy_ok|]. split; [|split; [|done]].
  - rewrite length_app, length_take, length_drop. lia.
  - by apply take_app_copy.
Qed.

Lemma node16_add_child_spec (h : header) (keys : list Z) children ks (ch : Z) (c : art_node V) (q : list Z) :
  layout Node16 h keys children ks -> prefix_ok h q -> is_byte ch -> ch ∉ ks.*1 ->
  add_post Node16 q ks ch c (node16_add_child h keys children ch c).
Proof.
  intros L Hp Hch Hn. pose proof L as [Hk Hc Hf (Hlk & Hlc & Htk & Htc)]. unfold node16_add_child.
  pose proof (count_small _ _ _ _ _ L ltac:(done)) as Hcnt. simpl in Hf.
  destruct (Z.ltb_spec (num_children h) 16) as [Hlt|Hge].
  - apply add_child_sorted; try done; [by right|simpl; lia].
  - destruct (fresh_header_ok h q Hp) as (h' & -> & Hp' & Hn'). rewrite Hcnt, Nat2Z.id. cbn [mbind option_bind].
    rewrite memcpy_ok by (rewrite ?length_replicate; lia). cbn [mbind option_bind].
    destruct (expand16_layout _ _ _ _ L) as (k' & -> & Hl). cbn [mbind option_bind].
    apply add_post_weaken with (type' := Node48); [simpl; lia|].
    apply node48_add_child_spec; try done. split; [done|congruence|simpl; lia|done].
Qed.

Lemma node4_add_child_spec (h : header) (keys : list Z) children ks (ch : Z) (c : art_node V) (q : list Z) :
  layout Node4 h keys children ks -> prefix_ok h q -> is_byte ch -> ch ∉ ks.*1 ->
  add_post Node4 q ks ch c (node4_add_child h keys children ch c).
Proof.
  intros L Hp Hch Hn. pose proof L as [Hk Hc Hf (Hlk & Hlc & Htk & Htc)]. unfold node4_add_child.
  pose proof (count_small _ _ _ _ _ L ltac:(done)) as Hcnt. simpl in Hf.
  destruct (Z.ltb_spec (num_children h) 4) as [Hlt|Hge].
  - apply add_child_sorted; try done; [by left|simpl; lia].
  - destruct (fresh_header_ok h q Hp) as (h' & -> & Hp' & Hn'). rewrite Hcnt, Nat2Z.id. cbn [mbind option_bind].
    destruct (copied_array children (replicate 16 None) _ (length ks) Htc) as (cs & -> & Hlc' & Htc' & _);
      [rewrite length_replicate; lia|lia|].
    destruct (copied_array keys (replicate 16 0) _ (length ks) Htk) as (k' & -> & Hlk' & Htk' & _);
      [rewrite length_replicate; lia|lia|]. cbn [mbind option_bind].
    apply add_post_weaken with (type' := Node16); [simpl; lia|].
    apply node16_add_child_spec; try done. split; [done|congruence|simpl; lia|].
    exact (conj Hlk' (conj Hlc' (conj Htk' Htc'))).
Qed.

Lemma node_add_child_spec (type : art_node_type) (h : header) (keys : list Z) children ks (ch : Z)
  (c : art_node V) (q : list Z) :
  layout type h keys children ks -> prefix_ok h q -> is_byte ch -> ch ∉ ks.*1 ->
  add_post type q ks ch c (node_add_child (AInner type h keys children) ch c).
Proof.
  intros L Hp Hch Hn. destruct type; cbn [node_add_child].
  - by apply node4_add_child_spec.
  - by apply node16_add_child_spec.
  - by apply node48_add_child_spec.
  - pose proof (l256_keys _ _ _ (lay_arrays _ _ _ _ _ L)) as ->.
    destruct (node256_add_child_spec h children ks ch c L Hch Hn) as [L' ->].
    do 4 eexists. split; [done|]. split; [done|]. split; [by apply prefix_ok_count|by left].
Qed.

(** A node that has just been created. *)
Lemma create_layout (n : nat) (p : list Z) :
  layout Node4 (Header n 0 p) (replicate 4 0) (replicate 4 None) [].
Proof. split; [split; constructor|done|simpl; lia|done]. Qed.

(** ** Children by byte

    A [Node48] and a [Node256] have an entry for every byte; [enum] lists the ones that
    are not NULL with their index. *)

Fixpoint enum (es : list (option (art_node V))) (i : nat) : list (Z * art_node V) :=
  match es with
  | [] => []
  | None :: es => enum es (S i)
  | Some c :: es => (Z.of_nat i, c) :: enum es (S i)
  end.

Lemma elem_of_enum (es : list (option (art_node V))) (i : nat) (b : Z) (c : art_node V) :
  (b, c) ∈ enum es i <-> exists j, b = Z.of_nat (i + j) /\ es !! j = Some (Some c).
Proof.
  revert i. induction es as [|[d|] es IH]; intros i; cbn [enum].
  - split; [by intros ?%not_elem_of_nil|by intros (j & _ & ?)].
  - rewrite elem_of_cons, IH. split.
    + intros [[= -> ->]|(j & -> & Hj)]; [exists O|exists (S j)]; (split; [lia|done]).
    + intros ([|j] & -> & Hj); simplify_eq/=; [left; f_equal; lia|]. right. exists j. split; [lia|done].
  - rewrite IH. split.
    + intros (j & -> & Hj). exists (S j). split; [lia|done].
    + intros ([|j] & -> & Hj); simplify_eq/=. exists j. split; [lia|done].
Qed.

Lemma enum_sorted (es : list (option (art_node V))) (i : nat) : StronglySorted Z.lt (enum es i).*1.
Proof.
  revert i. induction es as [|[d|] es IH]; intros i; cbn; [constructor| |apply IH].
  constructor; [apply IH|]. apply Forall_forall. intros x (c & Hc)%elem_of_fst.
  apply elem_of_enum in Hc as (j & -> & _). lia.
Qed.

Lemma kids_unique ks ks' :
  StronglySorted Z.lt ks.*1 -> StronglySorted Z.lt ks'.*1 -> (forall p, p ∈ ks <-> p ∈ ks') -> ks = ks'.
Proof.
  intros Hs Hs' He.
  assert (forall l : list (Z * art_node V), StronglySorted Z.lt l.*1 ->
    StronglySorted (fun p p' => p.1 < p'.1) l /\ NoDup l) as H.
  { clear. induction l as [|p l IH]; intros H; [split; constructor|].
    apply StronglySorted_inv in H as [H Hp]. rewrite Forall_forall in Hp. destruct (IH H) as [H1 H2].
    assert (forall p', p' ∈ l -> p.1 < p'.1) as Hlt by (intros p' Hp'; apply Hp, list_elem_of_fmap; eauto).
    split; constructor; try done; [by apply Forall_forall|]. intros Hin. apply Hlt in Hin. lia. }
  destruct (H ks Hs) as [H1 H2], (H ks' Hs') as [H1' H2'].
  eapply StronglySorted_unique_strong; [|done|done|by apply NoDup_Permutation].
  intros p p' _ _ Hl Hr. simpl in *. lia.
Qed.

Lemma enum_eq (es : list (option (art_node V))) ks :
  kids_ok ks -> (forall b c, es !! b = Some (Some c) <-> (Z.of_nat b, c) ∈ ks) -> enum es 0 = ks.
Proof.
  intros Hk He. apply kids_unique; [apply enum_sorted|apply Hk|]. intros [b c]. rewrite elem_of_enum. split.
  - intros (j & -> & Hj). by apply He in Hj.
  - intros Hc. pose proof (kids_byte _ _ _ Hk Hc) as Hb. unfold is_byte in Hb. exists (Z.to_nat b).
    split; [lia|]. apply He. by rewrite Z2Nat.id by lia.
Qed.

Lemma enum_256 (keys : list Z) children ks : kids_ok ks -> layout256 keys children ks -> enum children 0 = ks.
Proof. intros Hk [_ _ H]. by apply enum_eq. Qed.

Lemma enum_48 (keys : list Z) children ks :
  kids_ok ks -> layout48 keys children ks -> enum (entry48 children <$> keys) 0 = ks.
Proof. intros Hk L. apply enum_eq; [done|]. intros b c. by apply lookup_48. Qed.

(** All the entries in use refer to a child. *)
Definition refers (keys : list Z) children : Prop :=
  forall k, k ∈ keys -> k <> 0 -> exists c, children !! Z.to_nat (k - 1) = Some (Some c).

Lemma refers_48 (keys : list Z) children ks : layout48 keys children ks -> refers keys children.
Proof.
  intros L k (b & Hb)%list_elem_of_lookup Hk. destruct (entries_48 _ _ _ _ _ L Hb Hk) as (c & Hc & _). eauto.
Qed.

Lemma refers_cons (k : Z) (keys : list Z) children :
  refers (k :: keys) children -> refers keys children.
Proof. intros H k' Hk'. apply H. by right. Qed.

Lemma children48_enum (keys : list Z) children (i : nat) :
  refers keys children -> children48 keys children = Some (Some <$> (enum (entry48 children <$> keys) i).*2).
Proof.
  revert i. induction keys as [|k keys IH]; intros i H; [done|]. cbn [children48 fmap list_fmap].
  destruct (Z.eqb_spec k 0) as [->|Hk].
  - rewrite entry48_zero. by apply IH, (refers_cons 0).
  - destruct (H k ltac:(left) Hk) as [c Hc].
    rewrite (entry48_some _ _ _ Hk Hc), Hc. simpl. rewrite (IH (S i)) by (by eapply refers_cons). done.
Qed.

Lemma filter_enum children (i : nat) :
  filter (fun c => is_null c = false) children = Some <$> (enum children i).*2.
Proof.
  revert i. induction children as [|[c|] cs IH]; intros i; [done|..]; rewrite filter_cons; cbn.
  - f_equal. apply IH.
  - apply IH.
Qed.

Lemma child_list_spec (type : art_node_type) (h : header) (keys : list Z) children ks :
  layout type h keys children ks -> child_list type h keys children = Some (Some <$> ks.*2).
Proof.
  intros L. pose proof L as [Hk _ Hf Ha].
  assert (forall n, type <> Node256 -> (length ks <= n)%nat -> sorted_layout n keys children ks ->
    (if decide (Z.to_nat (num_children h) <= length children)%nat
     then Some (take (Z.to_nat (num_children h)) children) else None) = Some (Some <$> ks.*2)) as Hsort.
  { intros n Ht Hn (_ & Hlc & _ & Htc). rewrite (count_small _ _ _ _ _ L Ht), Nat2Z.id.
    rewrite decide_True by lia. by rewrite Htc. }
  destruct type; simpl in *; [by apply (Hsort 4%nat)|by apply (Hsort 16%nat)|..].
  - rewrite (children48_enum _ _ 0) by (by eapply refers_48). by rewrite (enum_48 _ _ _ Hk Ha).
  - rewrite (filter_enum _ 0). by rewrite (enum_256 _ _ _ Hk Ha).
Qed.

Lemma enum_first (es : list (option (art_node V))) (i j : nat) (c : art_node V) :
  es !! j = Some (Some c) -> (forall k e, (k < j)%nat -> es !! k = Some e -> e = None) ->
  exists rest, enum es i = (Z.of_nat (i + j), c) :: rest.
Proof.
  revert i j. induction es as [|e es IH]; intros i j Hj Hb; [done|].
  destruct j as [|j]; simplify_eq/=; [rewrite Nat.add_0_r; eauto|].
  rewrite (Hb O e) by (done || lia). destruct (IH (S i) j Hj) as [rest E]; [|exists rest; rewrite E; do 2 f_equal; lia].
  intros k e' Hk He. apply (Hb (S k)); [lia|done].
Qed.

Lemma leftmost_spec (type : art_node_type) (h : header) (keys : list Z) children ks (b : Z) (c : art_node V) rest :
  layout type h keys children ks -> ks = (b, c) :: rest -> leftmost type keys children = Some (Some c).
Proof.
  intros [Hk _ _ Ha] E. destruct type; simpl in *.
  1,2: apply (sorted_lookup _ _ _ _ 0 b c Ha); by rewrite E.
  - pose proof (enum_48 _ _ _ Hk Ha) as En.
    destruct (l48_kid _ _ _ Ha b c) as (x & Hx & Hxr & _); [rewrite E; left|].
    destruct (first_index_spec (fun k => negb (k =? 0)) keys _ _ Hx) as (j & y & -> & Hy & Hy0 & _ & Hb).
    { by rewrite (proj2 (Z.eqb_neq x 0)) by lia. }
    simpl. rewrite Hy. simpl. apply negb_true_iff, Z.eqb_neq in Hy0.
    destruct (entries_48 _ _ _ _ _ Ha Hy Hy0) as (d & Hd & _). rewrite Hd. do 2 f_equal.
    destruct (enum_first (entry48 children <$> keys) 0 j d) as [r E'].
    { rewrite list_lookup_fmap, Hy. cbn. f_equal. by apply entry48_some. }
    { intros k e Hkj He. rewrite list_lookup_fmap in He. destruct (keys !! k) as [z|] eqn:Hz; [|done].
      simplify_eq/=. specialize (Hb k z Hkj Hz). apply negb_false_iff, Z.eqb_eq in Hb as ->. done. }
    congruence.
  - pose proof (enum_256 _ _ _ Hk Ha) as En.
    assert ((b, c) ∈ enum children 0) as (j0 & _ & Hj0)%elem_of_enum by (rewrite En, E; left).
    destruct (first_index_spec (fun c => negb (is_null c)) children j0 (Some c) Hj0 eq_refl)
      as (j & y & -> & Hy & Hy0 & _ & Hb).
    simpl. rewrite Hy. destruct y as [d|]; [|done]. do 2 f_equal.
    destruct (enum_first children 0 j d Hy) as [r E']; [|congruence].
    intros k [e|] Hkj He; [|done]. by specialize (Hb k _ Hkj He).
Qed.

(** ** Removing a child *)

Lemma count_remove k1 k2 (p : Z * art_node V) :
  u8 (u8 (Z.of_nat (length (k1 ++ p :: k2))) - 1) = u8 (Z.of_nat (length (k1 ++ k2))).
Proof.
  rewrite <- Z.add_opp_r, wrapu_add_l, !length_app. cbn [length]. f_equal. lia.
Qed.

Lemma sorted_remove_child_spec (n : nat) (h : header) (keys : list Z) children k1 k2 (ch : Z) (c : art_node V) :
  kids_ok (k1 ++ (ch, c) :: k2) -> num_children h = Z.of_nat (length (k1 ++ (ch, c) :: k2)) ->
  sorted_layout n keys children (k1 ++ (ch, c) :: k2) -> (length (k1 ++ (ch, c) :: k2) <= n)%nat ->
  exists keys' children',
    sorted_remove_child h keys children ch = Some (with_count (u8 (num_children h - 1)) h, keys', children') /\
    sorted_layout n keys' children' (k1 ++ k2).
Proof.
  intros [Hs Hb] Hn (Hlk & Hlc & Hk & Hc) Hlt. unfold sorted_remove_child.
  set (ks := k1 ++ (ch, c) :: k2) in *.
  assert (Hlen : length ks = S (length (k1 ++ k2))) by (unfold ks; rewrite !length_app; simpl; lia).
  assert (Hlen1 : (length k1 <= length (k1 ++ k2))%nat) by (rewrite length_app; lia).
  rewrite Hn, (find_index_rank ch keys ks.*1 (length ks)) by (done || apply length_fmap). simpl.
  rewrite (rank_here ch ks.*1 (length k1)); [|done|].
  2:{ unfold ks. rewrite list_lookup_fmap, lookup_app_r, Nat.sub_diag by lia. done. }
  replace (Z.to_nat (Z.of_nat (S (length k1)) - 1)) with (length k1) by lia.
  replace (Z.to_nat (Z.of_nat (length ks) - (Z.of_nat (S (length k1)) - 1 + 1)))
    with (length ks - (length k1 + 1))%nat by lia.
  destruct (close_gap keys ks.*1 (length ks) (length k1)) as (k' & -> & Hlk' & Htk); [done|apply length_fmap|lia|].
  destruct (close_gap children (Some <$> ks.*2) (length ks) (length k1)) as (c' & -> & Hlc' & Htc);
    [done|by rewrite !length_fmap|lia|]. simpl.
  do 2 eexists. split; [done|].
  replace (length ks - 1)%nat with (length (k1 ++ k2)) in * by lia.
  assert (Hcut : forall B (f : Z * art_node V -> B), take (length k1) (f <$> ks) ++ drop (S (length k1)) (f <$> ks) = f <$> (k1 ++ k2)).
  { intros B f. unfold ks. rewrite !fmap_app. rewrite take_app_length' by (by rewrite length_fmap).
    rewrite fmap_cons, drop_app_ge by (rewrite length_fmap; lia). rewrite length_fmap.
    by replace (S (length k1) - length k1)%nat with 1%nat by lia. }
  unfold sorted_layout. split; [congruence|]. split; [congruence|]. rewrite Htk, Htc.
  split; [apply (Hcut _ fst)|]. rewrite <- !list_fmap_compose. apply (Hcut _ (Some ∘ snd)).
Qed.

(** What removing the child at [ch] does: the other children are left in some node, or
    the last of them is merged with the node. *)
Definition remove_post (q : list Z) ks (n : option (art_node V)) : Prop :=
  (exists b d h', ks = [(b, d)] /\ prefix_ok h' q /\ n = merge_child h' b d) \/
  (exists type' h' keys' children', n = Some (AInner type' h' keys' children') /\
    layout type' h' keys' children' ks /\ prefix_ok h' q /\ (min_children type' <= length ks)%nat).

Lemma sorted_remove_layout (type : art_node_type) (h : header) (keys : list Z) children k1 k2 (ch : Z)
  (c : art_node V) :
  layout type h keys children (k1 ++ (ch, c) :: k2) -> type = Node4 \/ type = Node16 ->
  exists keys' children',
    sorted_remove_child h keys children ch = Some (with_count (u8 (num_children h - 1)) h, keys', children') /\
    layout type (with_count (u8 (num_children h - 1)) h) keys' children' (k1 ++ k2).
Proof.
  intros L Ht. pose proof L as [Hk Hc Hf Ha].
  pose proof (count_small _ _ _ _ _ L ltac:(destruct Ht; congruence)) as Hcnt.
  assert (Hl : sorted_layout (child_slots type) keys children (k1 ++ (ch, c) :: k2)) by (destruct Ht as [-> | ->]; exact Ha).
  destruct (sorted_remove_child_spec _ h keys children k1 k2 ch c Hk Hcnt Hl Hf) as (k' & c' & E & Hl').
  exists k', c'. split; [done|]. split.
  - by eapply kids_ok_remove.
  - simpl. rewrite Hc. apply count_remove.
  - rewrite !length_app in *. simpl in Hf. lia.
  - by destruct Ht as [-> | ->].
Qed.

Lemma node4_remove_child_spec (h : header) (keys : list Z) children k1 k2 (ch : Z) (c : art_node V) (q : list Z) :
  layout Node4 h keys children (k1 ++ (ch, c) :: k2) -> prefix_ok h q ->
  (2 <= length (k1 ++ (ch, c) :: k2))%nat ->
  remove_post q (k1 ++ k2) (node4_remove_child h keys children ch).
Proof.
  intros L Hp Hm. unfold node4_remove_child.
  destruct (sorted_remove_layout _ _ _ _ _ _ _ _ L ltac:(by left)) as (k' & c' & -> & L'). cbn [mbind option_bind].
  assert (Hlen : length (k1 ++ (ch, c) :: k2) = S (length (k1 ++ k2))) by (rewrite !length_app; simpl; lia).
  pose proof (count_small _ _ _ _ _ L' ltac:(done)) as Hcnt. rewrite Hcnt.
  destruct (Z.eqb_spec (Z.of_nat (length (k1 ++ k2))) 1) as [E|E].
  - left. destruct (k1 ++ k2) as [|[b d] [|]] eqn:Eks; simpl in E; try lia.
    destruct (sorted_lookup _ _ _ _ 0 b d (lay_arrays _ _ _ _ _ L') eq_refl) as [-> ->]. simpl.
    do 3 eexists. split; [done|]. split; [|done]. by apply prefix_ok_count.
  - right. do 4 eexists. split; [done|]. split; [done|]. split; [by apply prefix_ok_count|]. simpl. lia.
Qed.

Lemma node16_remove_child_spec (h : header) (keys : list Z) children k1 k2 (ch : Z) (c : art_node V) (q : list Z) :
  layout Node16 h keys children (k1 ++ (ch, c) :: k2) -> prefix_ok h q ->
  (4 <= length (k1 ++ (ch, c) :: k2))%nat ->
  remove_post q (k1 ++ k2) (node16_remove_child h keys children ch).
Proof.
  intros L Hp Hm. unfold node16_remove_child.
  destruct (sorted_remove_layout _ _ _ _ _ _ _ _ L ltac:(by right)) as (k' & c' & -> & L'). cbn [mbind option_bind].
  assert (Hlen : length (k1 ++ (ch, c) :: k2) = S (length (k1 ++ k2))) by (rewrite !length_app; simpl; lia).
  pose proof (count_small _ _ _ _ _ L' ltac:(done)) as Hcnt. rewrite Hcnt.
  set (h1 := with_count _ h) in *. assert (prefix_ok h1 q) as Hp1 by (by apply prefix_ok_count).
  right. destruct (Z.leb_spec (Z.of_nat (length (k1 ++ k2))) 3) as [E|E].
  - destruct (fresh_header_ok h1 q Hp1) as (h' & -> & Hp' & Hn'). cbn [mbind option_bind].
    pose proof L' as [Hk Hc _ (Hlk & Hlc & Htk & Htc)]. rewrite Nat2Z.id.
    destruct (copied_array k' (replicate 4 0) _ _ Htk) as (k2' & -> & Hlk2 & Htk2 & _); [rewrite length_replicate; lia|lia|].
    destruct (copied_array c' (replicate 4 None) _ _ Htc) as (c2' & -> & Hlc2 & Htc2 & _); [rewrite length_replicate; lia|lia|].
    cbn [mbind option_bind]. do 4 eexists. split; [done|]. split; [|split; [done|simpl; lia]].
    split; [done|congruence|simpl; lia|]. exact (conj Hlk2 (conj Hlc2 (conj Htk2 Htc2))).
  - do 4 eexists. split; [done|]. split; [done|]. split; [done|]. simpl. lia.
Qed.

Lemma remove_48_layout (keys : list Z) children k1 k2 (ch x : Z) (c : art_node V) :
  kids_ok (k1 ++ (ch, c) :: k2) -> layout48 keys children (k1 ++ (ch, c) :: k2) ->
  keys !! Z.to_nat ch = Some x ->
  (Z.to_nat (x - 1) < 48)%nat /\
  layout48 (<[Z.to_nat ch := 0]> keys) (<[Z.to_nat (x - 1) := None]> children) (k1 ++ k2).
Proof.
  intros Hk [Hlk Hlc Hkid Hkey Hinj Hu] Hx.
  assert ((ch, c) ∈ k1 ++ (ch, c) :: k2) as Hin by (apply elem_of_app; right; left).
  destruct (Hkid _ _ Hin) as (y & Hy & Hyr & Hyc). assert (y = x) as -> by congruence. split; [lia|].
  pose proof (kids_byte _ _ _ Hk Hin) as Hb. unfold is_byte in Hb.
  split; try by rewrite length_insert.
  - intros b d [Hd Hne]%(kids_others _ _ ch _ c); [|done].
    pose proof (kids_byte _ _ _ Hk Hd) as Hbb. unfold is_byte in Hbb.
    destruct (Hkid _ _ Hd) as (z & Hz & Hzr & Hzc). exists z.
    rewrite list_lookup_insert_ne by lia. split; [done|]. split; [done|].
    rewrite list_lookup_insert_ne; [done|]. intros E. assert (z = x) as -> by lia.
    pose proof (Hinj _ _ _ Hx Hz ltac:(lia)). lia.
  - intros b z Hz Hz0. destruct (decide (b = Z.to_nat ch)) as [->|Hne].
    + rewrite list_lookup_insert_eq in Hz by lia. by simplify_eq.
    + rewrite list_lookup_insert_ne in Hz by done. destruct (Hkey _ _ Hz Hz0) as [d Hd].
      exists d. apply (kids_others _ _ ch _ c); [done|]. split; [done|lia].
  - intros i j z Hi Hj Hz0. apply list_lookup_insert_Some in Hi as [(_ & <- & _)|[_ Hi]]; [done|].
    apply list_lookup_insert_Some in Hj as [(_ & <- & _)|[_ Hj]]; [done|]. by eapply Hinj.
  - pose proof (used_insert children _ _ None Hyc) as E. unfold weight in E. cbn [is_null] in E.
    rewrite length_app in *. cbn [length] in *. lia.
Qed.

(** The loop of [node48_remove_child] copies the enumerated children. *)
Lemma shrink48_spec (keys : list Z) children (pk : list Z) (pc : list (option (art_node V))) (m i : nat) :
  refers keys children -> length pk = length pc ->
  (length (enum (entry48 children <$> keys) i) <= m)%nat ->
  shrink48 keys children (pk ++ replicate m 0) (pc ++ replicate m None) (length pk) i =
    let ks := enum (entry48 children <$> keys) i in
    Some (pk ++ ks.*1 ++ replicate (m - length ks) 0, pc ++ (Some <$> ks.*2) ++ replicate (m - length ks) None).
Proof.
  revert pk pc m i. induction keys as [|k keys IH]; intros pk pc m i Hr Hl Hm.
  { simpl. by rewrite Nat.sub_0_r. }
  cbn [shrink48]. pose proof (refers_cons _ _ _ Hr) as Hr'. destruct (Z.eqb_spec k 0) as [->|Hk].
  - cbn [fmap list_fmap] in *. rewrite entry48_zero in *. cbn [enum] in *. by apply IH.
  - destruct (Hr k ltac:(left) Hk) as [c Hc]. cbn [fmap list_fmap] in *.
    rewrite (entry48_some _ _ _ Hk Hc), Hc in *. cbn [enum length] in *. destruct m as [|m]; [lia|].
    cbn [mbind option_bind]. rewrite assign_ok by (rewrite length_app, length_replicate; lia). cbn [mbind option_bind].
    rewrite assign_ok by (rewrite length_app, length_replicate; lia). cbn [mbind option_bind replicate].
    rewrite !insert_app_r_alt by lia. rewrite Hl, Nat.sub_diag. cbn [insert list_insert].
    assert (forall A (l l' : list A) x, l ++ x :: l' = (l ++ [x]) ++ l') as E by (intros; by rewrite <- app_assoc).
    rewrite (E _ pk), (E _ pc), <- Hl.
    replace (S (length pk)) with (length (pk ++ [Z.of_nat i])) by (rewrite length_app; simpl; lia).
    rewrite IH; [|done|by rewrite !length_app; simpl; lia|lia].
    cbn [fmap list_fmap fst snd]. rewrite <- !app_assoc. done.
Qed.

Lemma node48_remove_child_spec (h : header) (keys : list Z) children k1 k2 (ch : Z) (c : art_node V) (q : list Z) :
  layout Node48 h keys children (k1 ++ (ch, c) :: k2) -> prefix_ok h q ->
  (13 <= length (k1 ++ (ch, c) :: k2))%nat ->
  remove_post q (k1 ++ k2) (node48_remove_child h keys children ch).
Proof.
  intros L Hp Hm. pose proof L as [Hk Hc Hf Ha]. unfold node48_remove_child.
  assert ((ch, c) ∈ k1 ++ (ch, c) :: k2) as Hin by (apply elem_of_app; right; left).
  destruct (l48_kid _ _ _ Ha _ _ Hin) as (x & Hx & Hxr & Hxc). rewrite Hx. cbn [mbind option_bind].
  pose proof (l48_keys _ _ _ Ha) as Hlk. pose proof (l48_children _ _ _ Ha) as Hlc.
  pose proof (lookup_lt_Some _ _ _ Hx) as Hxl.
  destruct (remove_48_layout _ _ _ _ _ _ _ Hk Ha Hx) as [Hx48 Ha'].
  rewrite !assign_ok by lia. cbn [mbind option_bind].
  set (h1 := with_count _ h). assert (prefix_ok h1 q) as Hp1 by (by apply prefix_ok_count).
  assert (Hlen : length (k1 ++ (ch, c) :: k2) = S (length (k1 ++ k2))) by (rewrite !length_app; simpl; lia).
  assert (Hk' : kids_ok (k1 ++ k2)) by (by eapply kids_ok_remove).
  assert (layout Node48 h1 (<[Z.to_nat ch := 0]> keys) (<[Z.to_nat (x - 1) := None]> children) (k1 ++ k2)) as L'.
  { split; [done|simpl; rewrite Hc; apply count_remove|lia|done]. }
  pose proof (count_small _ _ _ _ _ L' ltac:(done)) as Hcnt. rewrite Hcnt. right.
  destruct (Z.leb_spec (Z.of_nat (length (k1 ++ k2))) 12) as [E|E].
  - destruct (fresh_header_ok h1 q Hp1) as (h' & -> & Hp' & Hn'). cbn [mbind option_bind].
    pose proof (enum_48 _ _ _ Hk' Ha') as En.
    pose proof (shrink48_spec _ _ [] [] 16 0 (refers_48 _ _ _ Ha') eq_refl) as Hs.
    rewrite En in Hs. cbn [app length] in Hs. rewrite Hs by lia. cbn [mbind option_bind fst snd].
    do 4 eexists. split; [done|]. split; [|split; [done|simpl; lia]].
    split; [done|rewrite Hn'; apply (lay_count _ _ _ _ _ L')|simpl; lia|]. unfold arrays, sorted_layout.
    rewrite !take_app_length' by (by rewrite !length_fmap).
    split; [|split; [|done]]; rewrite length_app, !length_fmap, length_replicate; lia.
  - do 4 eexists. split; [done|]. split; [done|]. split; [done|]. simpl. lia.
Qed.

(** The numbers that the loop of [node256_remove_child] gives to the children. *)
Fixpoint number (es : list (option (art_node V))) (cnt : nat) : list Z :=
  match es with
  | [] => []
  | None :: es => 0 :: number es cnt
  | Some _ :: es => Z.of_nat cnt + 1 :: number es (S cnt)
  end.

Lemma shrink256_spec (es : list (option (art_node V))) (pk : list Z) (pc : list (option (art_node V))) (m : nat) :
  (length (enum es (length pk)) <= m)%nat -> (length pc + m < 256)%nat ->
  shrink256 es (pk ++ replicate (length es) 0) (pc ++ replicate m None) (length pc) (length pk) =
    let ks := enum es (length pk) in
    Some (pk ++ number es (length pc), pc ++ (Some <$> ks.*2) ++ replicate (m - length ks) None).
Proof.
  revert pk pc m. induction es as [|[c|] es IH]; intros pk pc m Hm Hc.
  - simpl. by rewrite Nat.sub_0_r.
  - cbn [shrink256 enum length replicate number] in *. destruct m as [|m]; [lia|].
    rewrite assign_ok by (rewrite length_app; simpl; lia). cbn [mbind option_bind replicate].
    rewrite assign_ok by (rewrite length_app; simpl; lia). cbn [mbind option_bind].
    rewrite !insert_app_r_alt by lia. rewrite !Nat.sub_diag. cbn [insert list_insert].
    rewrite wrapu_id by (unfold in_u; lia).
    assert (forall A (l l' : list A) x, l ++ x :: l' = (l ++ [x]) ++ l') as E by (intros; by rewrite <- app_assoc).
    rewrite (E _ pk), (E _ pc).
    specialize (IH (pk ++ [Z.of_nat (length pc) + 1]) (pc ++ [Some c]) m).
    rewrite !length_app in IH. cbn [length] in IH. rewrite !Nat.add_1_r in IH.
    rewrite IH by lia. cbn [fmap list_fmap snd]. rewrite <- !app_assoc. done.
  - cbn [shrink256 enum length replicate number] in *.
    assert (forall A (l l' : list A) x, l ++ x :: l' = (l ++ [x]) ++ l') as E by (intros; by rewrite <- app_assoc).
    rewrite (E _ pk _ 0).
    specialize (IH (pk ++ [0]) pc m). rewrite length_app in IH. cbn [length] in IH. rewrite Nat.add_1_r in IH.
    rewrite IH by lia. rewrite <- !app_assoc. done.
Qed.

Lemma length_number (es : list (option (art_node V))) (cnt : nat) : length (number es cnt) = length es.
Proof. revert cnt. induction es as [|[c|] es IH]; intros cnt; simpl; [done|by rewrite IH..]. Qed.

Lemma number_lookup (es : list (option (art_node V))) (cnt i b : nat) (x : Z) :
  number es cnt !! b = Some x -> x <> 0 ->
  exists c j, es !! b = Some (Some c) /\ x = Z.of_nat (cnt + j) + 1 /\ enum es i !! j = Some (Z.of_nat (i + b), c).
Proof.
  revert cnt i b. induction es as [|[c|] es IH]; intros cnt i b Hb Hx; [done|..]; cbn [number enum] in *.
  - destruct b as [|b]; simplify_eq/=; [exists c, O; rewrite !Nat.add_0_r; done|].
    destruct (IH (S cnt) (S i) b Hb Hx) as (d & j & Hd & -> & Hj). exists d, (S j).
    split; [done|]. split; [lia|]. simpl. rewrite Hj. do 2 f_equal. lia.
  - destruct b as [|b]; simplify_eq/=. destruct (IH cnt (S i) b Hb Hx) as (d & j & Hd & -> & Hj).
    exists d, j. split; [done|]. split; [done|]. rewrite Hj. do 2 f_equal. lia.
Qed.

Lemma number_of (es : list (option (art_node V))) (cnt b : nat) (c : art_node V) :
  es !! b = Some (Some c) -> exists x, number es cnt !! b = Some x /\ x <> 0.
Proof.
  revert cnt b. induction es as [|[d|] es IH]; intros cnt [|b] Hb; simplify_eq/=; eauto.
  eexists. split; [done|lia].
Qed.

Lemma remove_256_layout children k1 k2 (ch : Z) (c : art_node V) :
  kids_ok (k1 ++ (ch, c) :: k2) -> layout256 [] children (k1 ++ (ch, c) :: k2) ->
  layout256 [] (<[Z.to_nat ch := None]> children) (k1 ++ k2).
Proof.
  intros Hk [_ Hlc Hkid]. assert ((ch, c) ∈ k1 ++ (ch, c) :: k2) as Hin by (apply elem_of_app; right; left).
  pose proof (kids_byte _ _ _ Hk Hin) as Hb. unfold is_byte in Hb.
  split; [done|by rewrite length_insert|]. intros b d. rewrite (kids_others _ _ ch _ c), <- Hkid by done.
  destruct (decide (b = Z.to_nat ch)) as [->|Hne].
  - rewrite list_lookup_insert_eq by lia. split; [done|intros [_ ?]; lia].
  - rewrite list_lookup_insert_ne by done. split; [|tauto]. intros H. split; [done|lia].
Qed.

(** The [Node48] that the loop of [node256_remove_child] fills. *)
Lemma number_layout children ks :
  kids_ok ks -> layout256 [] children ks -> (length ks <= 48)%nat ->
  layout48 (number children 0) ((Some <$> ks.*2) ++ replicate (48 - length ks) None) ks.
Proof.
  intros Hk L Hl. pose proof (enum_256 _ _ _ Hk L) as En. pose proof L as [_ Hlc Hkid].
  assert (Hkey : forall b x, number children 0 !! b = Some x -> x <> 0 ->
    exists c j, x = Z.of_nat j + 1 /\ ks !! j = Some (Z.of_nat b, c)).
  { intros b x Hx Hx0. destruct (number_lookup children 0 0 b x Hx Hx0) as (c & j & _ & -> & Hj).
    rewrite En in Hj. exists c, j. split; [done|done]. }
  split.
  - by rewrite length_number.
  - rewrite length_app, !length_fmap, length_replicate. lia.
  - intros b c Hc. pose proof (kids_byte _ _ _ Hk Hc) as Hb. unfold is_byte in Hb.
    replace b with (Z.of_nat (Z.to_nat b)) in Hc by lia. apply Hkid in Hc as Hcc.
    destruct (number_of children 0 _ _ Hcc) as (x & Hx & Hx0). exists x. split; [done|].
    destruct (Hkey _ _ Hx Hx0) as (d & j & -> & Hj). pose proof (lookup_lt_Some _ _ _ Hj) as Hjl.
    split; [lia|]. replace (Z.to_nat (Z.of_nat j + 1 - 1)) with j by lia.
    rewrite lookup_app_l by (rewrite !length_fmap; lia). rewrite !list_lookup_fmap, Hj. cbn. do 2 f_equal.
    eapply kids_functional; [done|by eapply list_elem_of_lookup_2|done].
  - intros b x Hx Hx0. destruct (Hkey _ _ Hx Hx0) as (c & j & _ & Hj). exists c. by eapply list_elem_of_lookup_2.
  - intros i j x Hi Hj Hx0. destruct (Hkey _ _ Hi Hx0) as (c & a & -> & Ha).
    destruct (Hkey _ _ Hj Hx0) as (d & b & Eb & Hb). assert (a = b) as -> by lia. rewrite Ha in Hb. simplify_eq. done.
  - rewrite used_app, used_some, used_replicate, length_fmap. lia.
Qed.

Lemma node256_remove_child_spec (h : header) (keys : list Z) children k1 k2 (ch : Z) (c : art_node V) (q : list Z) :
  layout Node256 h keys children (k1 ++ (ch, c) :: k2) -> prefix_ok h q ->
  (38 <= length (k1 ++ (ch, c) :: k2))%nat ->
  remove_post q (k1 ++ k2) (node256_remove_child h children ch).
Proof.
  intros L Hp Hm. pose proof L as [Hk Hc Hf Ha]. pose proof (l256_keys _ _ _ Ha) as ->.
  unfold node256_remove_child.
  assert ((ch, c) ∈ k1 ++ (ch, c) :: k2) as Hin by (apply elem_of_app; right; left).
  pose proof (kids_byte _ _ _ Hk Hin) as Hb. unfold is_byte in Hb. pose proof (l256_children _ _ _ Ha) as Hlc.
  rewrite assign_ok by lia. cbn [mbind option_bind].
  set (h1 := with_count _ h). assert (prefix_ok h1 q) as Hp1 by (by apply prefix_ok_count).
  assert (Hlen : length (k1 ++ (ch, c) :: k2) = S (length (k1 ++ k2))) by (rewrite !length_app; simpl; lia).
  assert (Hk' : kids_ok (k1 ++ k2)) by (by eapply kids_ok_remove).
  pose proof (remove_256_layout _ _ _ _ _ Hk Ha) as Ha'.
  assert (Hcnt : num_children h1 = u8 (Z.of_nat (length (k1 ++ k2)))) by (simpl; rewrite Hc; apply count_remove).
  assert (Hsmall : num_children h1 = Z.of_nat (length (k1 ++ k2))).
  { rewrite Hcnt. apply wrapu_id. unfold in_u. simpl in Hf. lia. }
  right. rewrite Hsmall. destruct (Z.leb_spec (Z.of_nat (length (k1 ++ k2))) 37) as [E|E].
  - destruct (fresh_header_ok h1 q Hp1) as (h' & -> & Hp' & Hn'). cbn [mbind option_bind].
    pose proof (enum_256 _ _ _ Hk' Ha') as En.
    pose proof (shrink256_spec (<[Z.to_nat ch := None]> children) [] [] 48) as Hs.
    rewrite (l256_children _ _ _ Ha') in Hs. cbn [app length] in Hs. rewrite En in Hs.
    rewrite Hs by lia. cbn [mbind option_bind fst snd].
    do 4 eexists. split; [done|]. split; [|split; [done|simpl; lia]].
    split; [done|congruence|simpl; lia|]. by apply number_layout; [..|lia].
  - do 4 eexists. split; [done|]. split; [|split; [done|simpl; lia]].
    split; [done|done|by apply kids_bound|done].
Qed.

Lemma node_remove_child_spec (type : art_node_type) (h : header) (keys : list Z) children k1 k2 (ch : Z)
  (c : art_node V) (q : list Z) :
  layout type h keys children (k1 ++ (ch, c) :: k2) -> prefix_ok h q ->
  (min_children type <= length (k1 ++ (ch, c) :: k2))%nat ->
  remove_post q (k1 ++ k2) (node_remove_child type h keys children ch).
Proof.
  intros L Hp Hm. destruct type; cbn [node_remove_child].
  - by eapply node4_remove_child_spec.
  - by eapply node16_remove_child_spec.
  - by eapply node48_remove_child_spec.
  - by eapply node256_remove_child_spec.
Qed.

(** ** Heights *)

Lemma foldr_max (f : option (art_node V) -> nat) children (c : option (art_node V)) :
  c ∈ children -> (f c <= foldr (fun c m => Nat.max (f c) m) O children)%nat.
Proof.
  induction children as [|d cs IH]; intros H; [by apply not_elem_of_nil in H|].
  simpl. apply elem_of_cons in H as [->|H]; [lia|]. specialize (IH H). lia.
Qed.

Lemma kid_entry (type : art_node_type) (h : header) (keys : list Z) children ks (b : Z) (c : art_node V) :
  layout type h keys children ks -> (b, c) ∈ ks -> Some c ∈ children.
Proof.
  intros L Hc. pose proof (kids_byte _ _ _ (lay_kids _ _ _ _ _ L) Hc) as Hb.
  destruct (get_child_spec type h keys children ks b L Hb) as (r & _ & Hr). destruct r as [slot|].
  - destruct Hr as [(d & Hd & Hs)|(_ & _ & Hn & _)].
    + rewrite (kids_functional _ _ _ _ (lay_kids _ _ _ _ _ L) Hc Hd). by eapply list_elem_of_lookup_2.
    + exfalso. apply Hn, elem_of_fst. eauto.
  - exfalso. apply Hr, elem_of_fst. eauto.
Qed.

Lemma kid_height (type : art_node_type) (h : header) (keys : list Z) children ks (b : Z) (c : art_node V) :
  layout type h keys children ks -> (b, c) ∈ ks -> (height c < height (AInner type h keys children))%nat.
Proof.
  intros L Hc. apply (kid_entry _ _ _ _ _ _ _ L) in Hc. simpl.
  apply (foldr_max (fun c => match c with Some c => height c | None => O end)) in Hc. simpl in Hc. lia.
Qed.
End nodes.

