(* ===== verification/ArtFacts.v ===== *)
(** * The radix tree is a finite map

    [tree p n es]: below the path [p], the node [n] holds exactly the entries [es].
    Every operation is shown to return (no array is left, no NULL is followed) and to do
    to [es] what the operation of the same name does to a finite map; [denotes t m] is
    the resulting abstraction to [gmap]. *)

From stdpp Require Import sorting.
From S2P Require Import Prelude Text Value Art ArtNode.

Local Open Scope Z_scope.

(** ** Common prefixes *)

Fixpoint lcp (a b : list Z) : nat :=
  match a, b with
  | x :: a, y :: b => if x =? y then S (lcp a b) else O
  | _, _ => O
  end.

Lemma lcp_le_l (a b : list Z) : (lcp a b <= length a)%nat.
Proof. revert b. induction a as [|x a IH]; intros [|y b]; simpl; try lia. specialize (IH b). destruct (x =? y); lia. Qed.

Lemma lcp_le_r (a b : list Z) : (lcp a b <= length b)%nat.
Proof. revert b. induction a as [|x a IH]; intros [|y b]; simpl; try lia. specialize (IH b). destruct (x =? y); lia. Qed.

Lemma lcp_take (n : nat) (a b : list Z) : lcp (take n a) (take n b) = Nat.min n (lcp a b).
Proof.
  revert a b. induction n as [|n IH]; intros [|x a] [|y b]; simpl; try done.
  rewrite IH. by destruct (x =? y).
Qed.

Lemma lcp_take_l (n : nat) (a b : list Z) : lcp (take n a) b = Nat.min n (lcp a b).
Proof.
  revert a b. induction n as [|n IH]; intros [|x a] [|y b]; simpl; try done.
  rewrite IH. by destruct (x =? y).
Qed.

Lemma lcp_comm (a b : list Z) : lcp a b = lcp b a.
Proof. revert b. induction a as [|x a IH]; intros [|y b]; simpl; try done. rewrite Z.eqb_sym, IH. done. Qed.

Lemma lcp_app (a b c : list Z) : lcp (a ++ b) (a ++ c) = (length a + lcp b c)%nat.
Proof. induction a as [|x a IH]; [done|]. simpl. by rewrite Z.eqb_refl, IH. Qed.

Lemma lcp_app_l (a x b : list Z) : Nat.min (lcp (a ++ x) b) (length a) = lcp a b.
Proof.
  revert b. induction a as [|y a IH]; intros [|z b]; simpl; try lia.
  destruct (y =? z); simpl; [by rewrite <- IH|lia].
Qed.

(** Where two lists part. *)
Lemma lcp_split (a b : list Z) :
  exists ra rb, a = take (lcp a b) a ++ ra /\ b = take (lcp a b) a ++ rb /\
    (forall x xs y ys, ra = x :: xs -> rb = y :: ys -> x <> y).
Proof.
  revert b. induction a as [|x a IH]; intros [|y b]; simpl.
  - by exists [], [].
  - by exists [], (y :: b).
  - by exists (x :: a), [].
  - destruct (Z.eqb_spec x y) as [->|Hne].
    + destruct (IH b) as (ra & rb & Ea & Eb & H). exists ra, rb. simpl. by rewrite <- Ea, <- Eb.
    + exists (x :: a), (y :: b). split; [done|]. split; [done|]. intros. by simplify_eq.
Qed.

Lemma lcp_full (a b : list Z) : lcp a b = length a -> exists r, b = a ++ r.
Proof.
  intros H. destruct (lcp_split a b) as (ra & rb & Ea & Eb & _). exists rb.
  rewrite H in Eb. by rewrite take_ge in Eb by lia.
Qed.

Lemma scan_lcp (k : nat) (a : list Z) (i : nat) (b : list Z) (j len max_cmp : nat) :
  (max_cmp <= k + len)%nat -> (i + max_cmp <= length a)%nat -> (j + max_cmp <= length b)%nat ->
  (len <= max_cmp)%nat ->
  scan k a i b j len max_cmp =
    Some (len + Nat.min (max_cmp - len) (lcp (drop (i + len) a) (drop (j + len) b)))%nat.
Proof.
  revert len. induction k as [|k IH]; intros len Hk Ha Hb Hl; cbn [scan].
  { replace (max_cmp - len)%nat with O by lia. simpl. f_equal. lia. }
  destruct (Nat.ltb_spec len max_cmp) as [Hlt|Hge].
  2:{ replace (max_cmp - len)%nat with O by lia. simpl. f_equal. lia. }
  destruct (lookup_lt_is_Some_2 a (i + len)) as [x Hx]; [lia|].
  destruct (lookup_lt_is_Some_2 b (j + len)) as [y Hy]; [lia|].
  rewrite Hx, Hy. simpl. rewrite (drop_S _ _ _ Hx), (drop_S _ _ _ Hy). cbn [lcp].
  destruct (x =? y).
  - rewrite IH by lia. rewrite !Nat.add_succ_r. f_equal. lia.
  - f_equal. lia.
Qed.

(** ** Keys *)

(** The bytes of a C string with its terminator. *)
Definition key_ok (k : list Z) : Prop := exists s, k = s ++ [0] /\ Forall (fun b => 0 < b < 256) s.

Lemma key_ok_cons (b : Z) (k : list Z) : key_ok (b :: k) -> (b = 0 /\ k = []) \/ (0 < b < 256 /\ key_ok k).
Proof.
  intros ([|x s] & E & Hs); simplify_eq/=; [by left|]. right. inversion_clear Hs. split; [done|]. by exists s.
Qed.

(** No key continues another one. *)
Lemma key_ok_prefix_free (a r : list Z) : key_ok a -> key_ok (a ++ r) -> r = [].
Proof.
  induction a as [|x a IH]; intros Ha Har.
  - destruct Ha as ([|] & ? & _); done.
  - apply key_ok_cons in Ha as [[-> ->]|[Hx Ha]]; simpl in Har; apply key_ok_cons in Har as [[? E]|[? Har]]; try lia.
    + done.
    + by apply IH.
Qed.

Lemma key_ok_byte (k : list Z) (i : nat) (b : Z) : key_ok k -> k !! i = Some b -> is_byte b.
Proof.
  intros (s & -> & Hs) Hb. unfold is_byte. rewrite Forall_forall in Hs.
  apply list_elem_of_lookup_2, elem_of_app in Hb as [Hb|Hb%list_elem_of_singleton]; [apply Hs in Hb; lia|lia].
Qed.

(** Two keys below the path [p] part at some byte. *)
Lemma keys_diverge (p r r' : list Z) :
  key_ok (p ++ r) -> key_ok (p ++ r') -> r <> r' ->
  exists x a ra b rb, r = x ++ a :: ra /\ r' = x ++ b :: rb /\ a <> b /\ length x = lcp r r'.
Proof.
  intros Hk Hk' Hne. destruct (lcp_split r r') as (ra & rb & Ea & Eb & Hd).
  set (x := take (lcp r r') r) in *. exists x.
  assert (length x = lcp r r') as Hx by (unfold x; rewrite length_take; pose proof (lcp_le_l r r'); lia).
  destruct ra as [|a ra].
  - rewrite app_nil_r in Ea. rewrite Ea in Hk. rewrite Eb, app_assoc in Hk'.
    apply key_ok_prefix_free in Hk'; [|done]. subst rb. rewrite app_nil_r in Eb. congruence.
  - destruct rb as [|b rb].
    + rewrite app_nil_r in Eb. rewrite Eb in Hk'. rewrite Ea, app_assoc in Hk.
      by apply key_ok_prefix_free in Hk.
    + exists a, ra, b, rb. repeat split; try done. by apply (Hd a ra b rb).
Qed.

Section trees.
Context {V : Type}.
Implicit Types (es : list (list Z * V)) (n c : art_node V).

(** ** The entries below a node *)

Inductive tree : list Z -> art_node V -> list (list Z * V) -> Prop :=
| tree_leaf p l rest :
    l_key l = p ++ rest -> key_ok (l_key l) -> tree p (ALeaf l) [(l_key l, l_value l)]
| tree_inner p q type h keys children ks (es : Z -> list (list Z * V)) :
    layout type h keys children ks -> (min_children type <= length ks)%nat -> prefix_ok h q ->
    (forall b c, (b, c) ∈ ks -> tree (p ++ q ++ [b]) c (es b)) ->
    tree p (AInner type h keys children) (ks.*1 ≫= es).

Lemma elem_of_kids (ks : list (Z * art_node V)) (es : Z -> list (list Z * V)) (e : list Z * V) :
  e ∈ ks.*1 ≫= es <-> exists b c, (b, c) ∈ ks /\ e ∈ es b.
Proof.
  rewrite list_elem_of_bind. setoid_rewrite elem_of_fst. split.
  - intros (b & He & c & Hc). eauto.
  - intros (b & c & Hc & He). eauto.
Qed.

Lemma tree_prefix p n es (k : list Z) (v : V) : tree p n es -> (k, v) ∈ es -> key_ok k /\ exists r, k = p ++ r.
Proof.
  intros T. revert k v. induction T as [p l rest E Hk|p q type h keys children ks es L Hm Hp Hkids IH]; intros k v Hin.
  - apply list_elem_of_singleton in Hin as [= -> ->]. split; [done|]. by exists rest.
  - apply elem_of_kids in Hin as (b & c & Hc & Hin). destruct (IH b c Hc k v Hin) as [Hk [r ->]].
    split; [done|]. exists (q ++ [b] ++ r). by rewrite <- !app_assoc.
Qed.

(** An entry below an inner node has the prefix of the node and the byte of its child. *)
Lemma tree_kid p (q : list Z) (b : Z) c es (k : list Z) (v : V) :
  tree (p ++ q ++ [b]) c es -> (k, v) ∈ es -> exists r, k = p ++ q ++ b :: r.
Proof.
  intros T Hin. destruct (tree_prefix _ _ _ _ _ T Hin) as [_ [r ->]]. exists r. by rewrite <- !app_assoc.
Qed.

Lemma kids_cons (type : art_node_type) (ks : list (Z * art_node V)) :
  (min_children type <= length ks)%nat -> exists b c ks', ks = (b, c) :: ks'.
Proof. destruct ks as [|[b c] ks]; [destruct type; simpl; lia|eauto]. Qed.

Lemma tree_first p n es : tree p n es -> exists k v es', es = (k, v) :: es'.
Proof.
  induction 1 as [|p q type h keys children ks es L Hm Hp Hkids IH]; [eauto|].
  destruct (kids_cons _ _ Hm) as (b & c & ks' & ->).
  destruct (IH b c ltac:(left)) as (k & v & es' & E). exists k, v. simpl. rewrite E. eauto.
Qed.

Lemma height_pos n : (0 < height n)%nat.
Proof. destruct n; simpl; lia. Qed.

(** The minimum is the first entry. *)
Lemma minimum_spec p n es (k : nat) (key : list Z) (v : V) es' :
  tree p n es -> (height n <= S k)%nat -> es = (key, v) :: es' ->
  minimum_loop k (Some n) = Some (Some (Leaf v key)).
Proof.
  intros T. revert k es' key v. induction T as [p [lv lk] rest E Hk|p q type h keys children ks es L Hm Hp Hkids IH];
    intros k es' key v Hh He.
  - destruct k; simpl in *; by simplify_eq.
  - destruct (kids_cons _ _ Hm) as (b & c & ks' & Eks). subst ks. assert ((b, c) ∈ (b, c) :: ks') as Hc by left.
    pose proof (kid_height _ _ _ _ _ _ _ L Hc) as Hhc. pose proof (height_pos c). destruct k as [|k]; [lia|].
    cbn [minimum_loop]. rewrite (leftmost_spec _ _ _ _ _ b c ks' L eq_refl). cbn [mbind option_bind].
    destruct (tree_first _ _ _ (Hkids b c Hc)) as (k0 & v0 & e0 & Eb).
    simpl in He. rewrite Eb in He. simplify_eq/=. eapply (IH b c Hc); [lia|done].
Qed.

Lemma get_minimum_spec p n es (key : list Z) (v : V) es' :
  tree p n es -> es = (key, v) :: es' -> node_get_minimum n = Some (Some (Leaf v key)).
Proof. intros T E. eapply minimum_spec; [done|lia|done]. Qed.

(** ** Comparing prefixes *)

Lemma check_prefix_partial_spec (h : header) (q key : list Z) (depth : nat) :
  prefix_ok h q -> (depth <= length key)%nat ->
  check_prefix_partial h key depth (length key) = Some (Nat.min MAX_PREFIX_LEN (lcp q (drop depth key))).
Proof.
  intros (Hl & Hp & Hq) Hd. unfold check_prefix_partial. rewrite sub32_ok by done. cbn [mbind option_bind].
  rewrite Hl. set (m := Nat.min (Nat.min (length q) MAX_PREFIX_LEN) (length key - depth)).
  rewrite scan_lcp by (unfold m; lia). f_equal. rewrite !Nat.add_0_r, Nat.sub_0_r, !Nat.add_0_l, drop_0.
  pose proof (lcp_le_l q (drop depth key)) as H1. pose proof (lcp_le_r q (drop depth key)) as H2.
  rewrite length_drop in H2.
  assert (lcp (drop depth key) (take m (prefix h)) = lcp (drop depth key) (take m q)) as E.
  { assert (take m (prefix h) = take m q) as ->; [|done].
    assert (take m (take MAX_PREFIX_LEN q) = take m (take (Nat.min MAX_PREFIX_LEN (length q)) (prefix h))) as Ht by (by rewrite Hq).
    rewrite !take_take in Ht. replace (Nat.min m MAX_PREFIX_LEN) with m in Ht by (unfold m; lia).
    by replace (Nat.min m (Nat.min MAX_PREFIX_LEN (length q))) with m in Ht by (unfold m; lia). }
  rewrite !(lcp_comm (drop depth key)), !lcp_take_l in E.
  rewrite (lcp_comm (drop depth key)), E. unfold m. lia.
Qed.

(** The part of the prefix that the key has, as far as the prefix goes. *)
Lemma check_prefix_spec p (q : list Z) (type : art_node_type) (h : header) (keys : list Z) children es (r : list Z) :
  tree p (AInner type h keys children) es -> prefix_ok h q ->
  (forall k v, (k, v) ∈ es -> exists b rest, k = p ++ q ++ b :: rest) ->
  exists d, check_prefix (AInner type h keys children) h (p ++ r) (length p) = Some d /\
    Nat.min d (length q) = lcp q r.
Proof.
  intros T Hp Hes. unfold check_prefix.
  rewrite (check_prefix_partial_spec h q) by (try done; rewrite length_app; lia).
  rewrite drop_app_length. cbn [mbind option_bind]. pose proof (lcp_le_l q r) as Hle.
  destruct (Nat.ltb_spec (Nat.min MAX_PREFIX_LEN (lcp q r)) MAX_PREFIX_LEN) as [Hlt|Hge].
  - eexists. split; [done|]. lia.
  - destruct (tree_first _ _ _ T) as (k & v & es' & ->).
    rewrite (get_minimum_spec _ _ _ k v es' T eq_refl). cbn [mbind option_bind l_key].
    destruct (Hes k v ltac:(left)) as (b & rest & ->).
    rewrite sub32_ok by (rewrite !length_app; lia). cbn [mbind option_bind].
    pose proof (lcp_le_r q r) as Hler.
    rewrite scan_lcp by (rewrite ?length_app; cbn [length]; lia).
    eexists. split; [done|].
    set (m := Nat.min MAX_PREFIX_LEN (lcp q r)) in *. set (x := q ++ b :: rest).
    assert (MAX_PREFIX_LEN <= lcp x r)%nat as Hx.
    { pose proof (lcp_app_l q (b :: rest) r) as E. fold x in E. lia. }
    replace m with MAX_PREFIX_LEN by (unfold m; lia). rewrite !drop_app_add.
    assert (lcp x r = MAX_PREFIX_LEN + lcp (drop MAX_PREFIX_LEN x) (drop MAX_PREFIX_LEN r))%nat as E.
    { destruct (lcp_split x r) as (ra & rb & Ea & Eb & _).
      assert (take MAX_PREFIX_LEN x = take MAX_PREFIX_LEN r) as Et.
      { set (w := take (lcp x r) x) in *. pose proof (lcp_le_l x r).
        assert (length w = lcp x r) by (unfold w; rewrite length_take; lia).
        rewrite Ea, Eb. by rewrite !take_app_le by lia. }
      rewrite <- (take_drop MAX_PREFIX_LEN x) at 1. rewrite <- (take_drop MAX_PREFIX_LEN r) at 1.
      rewrite Et, lcp_app, length_take. pose proof (lcp_le_r x r). f_equal. lia. }
    pose proof (lcp_le_l x r). pose proof (lcp_le_r x r).
    assert (length x = length q + S (length rest))%nat by (unfold x; by rewrite length_app).
    rewrite <- (lcp_app_l q (b :: rest) r). fold x. rewrite !length_app. lia.
Qed.

(** ** Search *)

Lemma entry_below p (q : list Z) ks (es : Z -> list (list Z * V)) (k : list Z) (v : V) :
  (forall b c, (b, c) ∈ ks -> tree (p ++ q ++ [b]) c (es b)) -> (k, v) ∈ ks.*1 ≫= es ->
  exists b c r, (b, c) ∈ ks /\ (k, v) ∈ es b /\ k = p ++ q ++ b :: r.
Proof.
  intros Hkids (b & c & Hc & Hin)%elem_of_kids.
  destruct (tree_kid _ _ _ _ _ _ _ (Hkids b c Hc) Hin) as [r ->]. eauto 6.
Qed.

(** A key that is among the entries passes the partial comparison of the prefix. *)
Lemma partial_match p (q r : list Z) :
  Nat.min MAX_PREFIX_LEN (lcp q (drop (length p) (p ++ q ++ r))) = Nat.min MAX_PREFIX_LEN (length q).
Proof. rewrite drop_app_length. rewrite <- (app_nil_r q) at 1. rewrite lcp_app. simpl. by rewrite Nat.add_0_r. Qed.

(** The entries with a key that has the byte [ch] after the prefix are below that child. *)
Lemma entry_at_byte p (q : list Z) ks (es : Z -> list (list Z * V)) (k : list Z) (v : V) (ch : Z) :
  (forall b c, (b, c) ∈ ks -> tree (p ++ q ++ [b]) c (es b)) ->
  k !! (length p + length q)%nat = Some ch -> (k, v) ∈ ks.*1 ≫= es ->
  exists c, (ch, c) ∈ ks /\ (k, v) ∈ es ch.
Proof.
  intros Hkids Hch Hin. destruct (entry_below _ _ _ _ _ _ Hkids Hin) as (b & c & r & Hc & Hin' & ->).
  rewrite app_assoc, lookup_app_r in Hch by (rewrite length_app; lia).
  rewrite length_app, Nat.sub_diag in Hch. simplify_eq/=. eauto.
Qed.

Lemma leaf_match_spec (l : art_leaf V) (key : list Z) : leaf_match l key = true <-> l_key l = key.
Proof.
  unfold leaf_match. rewrite andb_true_iff, bool_decide_eq_true, Nat.eqb_eq. split; [tauto|]. intros ->. done.
Qed.

Lemma search_spec p n es (k : nat) (key : list Z) :
  tree p n es -> key_ok key -> (length p <= length key)%nat -> (height n <= S k)%nat ->
  exists r, search_loop k (Some n) (length p) key = Some r /\ (forall v, r = Some v <-> (key, v) ∈ es).
Proof.
  intros T Hkey. revert k. induction T as [p l rest E Hk|p q type h keys children ks es L Hm Hp Hkids IH];
    intros k Hlen Hh.
  - assert (search_loop k (Some (ALeaf l)) (length p) key =
      if negb (leaf_match l key) then Some None else Some (Some (l_value l))) as -> by (by destruct k).
    destruct (leaf_match l key) eqn:Em; (eexists; split; [done|]); intros v; rewrite list_elem_of_singleton.
    + apply leaf_match_spec in Em as <-. split; [by intros [= <-]|by intros [= ->]].
    + split; [done|]. intros [= -> _]. exfalso. apply not_true_iff_false in Em. by apply Em, leaf_match_spec.
  - destruct (kids_cons _ _ Hm) as (b0 & c0 & ks' & Eks). assert ((b0, c0) ∈ ks) as Hc0 by (rewrite Eks; left).
    pose proof (kid_height _ _ _ _ _ _ _ L Hc0). pose proof (height_pos c0). destruct k as [|k]; [lia|].
    cbn [search_loop]. rewrite (check_prefix_partial_spec h q) by done. cbn [mbind option_bind].
    pose proof Hp as (-> & _ & _).
    assert (Hno : forall v, (key, v) ∈ ks.*1 ≫= es -> exists b c r, (b, c) ∈ ks /\ (key, v) ∈ es b /\ key = p ++ q ++ b :: r)
      by (intros v; by apply entry_below).
    destruct (Nat.eqb_spec (Nat.min MAX_PREFIX_LEN (lcp q (drop (length p) key))) (Nat.min (length q) MAX_PREFIX_LEN)) as [Eq|Ne]; simpl.
    2:{ exists None. split; [done|]. intros v. split; [done|]. intros (b & c & r & _ & _ & ->)%Hno.
        rewrite partial_match in Ne. lia. }
    destruct (Nat.leb_spec (length key) (length p + length q)) as [Hle|Hlt].
    { exists None. split; [done|]. intros v. split; [done|]. intros (b & c & r & _ & _ & ->)%Hno.
      rewrite !length_app in Hle. simpl in Hle. lia. }
    destruct (lookup_lt_is_Some_2 key (length p + length q)) as [ch Hch]; [lia|]. rewrite Hch. cbn [mbind option_bind].
    destruct (get_child_spec type h keys children ks ch L) as (r & -> & Hr); [by eapply key_ok_byte|]. cbn [mbind option_bind].
    assert (Hat : forall v, (key, v) ∈ ks.*1 ≫= es -> exists c, (ch, c) ∈ ks /\ (key, v) ∈ es ch)
      by (intros v; by eapply entry_at_byte).
    destruct r as [slot|]; [destruct Hr as [(c & Hc & ->)|(_ & _ & Hn & ->)]|]; cbn [mbind option_bind].
    + pose proof (kid_height _ _ _ _ _ _ _ L Hc).
      destruct (IH ch c Hc k) as (r & Er & Hr); [rewrite !length_app; simpl; lia|lia|].
      rewrite !length_app in Er. cbn [length] in Er. rewrite Nat.add_assoc in Er. exists r. split; [done|].
      intros v. rewrite Hr. split; [intros Hin; apply elem_of_kids; eauto|].
      intros (d & _ & Hin)%Hat. done.
    + exists None. split; [by destruct k|]. intros v. split; [done|]. intros (c & Hc & _)%Hat. exfalso. apply Hn, elem_of_fst. eauto.
    + exists None. split; [done|]. intros v. split; [done|]. intros (c & Hc & _)%Hat. exfalso. apply Hr, elem_of_fst. eauto.
Qed.

(** ** Insertion *)

Lemma bind_ext {A B} (f g : A -> list B) (l : list A) : (forall x, x ∈ l -> f x = g x) -> l ≫= f = l ≫= g.
Proof.
  induction l as [|x l IH]; intros H; [done|]. rewrite !bind_cons, (H x) by left. f_equal.
  apply IH. intros y Hy. apply H. by right.
Qed.

(** A new node with two children. *)
Lemma two_kids p (q pr : list Z) (a b : Z) c d es es' :
  prefix_ok (Header (length q) 0 pr) q -> is_byte a -> is_byte b -> a <> b ->
  tree (p ++ q ++ [a]) c es -> tree (p ++ q ++ [b]) d es' ->
  exists n e, (n ← node_add_child (create_node4_with (length q) pr) a c; node_add_child n b d) = Some n /\
    tree p n e /\ e ≡ₚ es ++ es'.
Proof.
  intros Hp Ha Hb Hne Tc Td.
  destruct (node_add_child_spec Node4 _ _ _ [] a c q (create_layout (length q) pr) Hp Ha ltac:(by apply not_elem_of_nil))
    as (t1 & h1 & k1 & cs1 & E1 & L1 & P1 & _).
  unfold create_node4_with. rewrite E1. cbn [mbind option_bind]. change (kadd a c []) with [(a, c)] in L1.
  destruct (node_add_child_spec _ _ _ _ _ b d q L1 P1 Hb ltac:(simpl; intros ?%list_elem_of_singleton; congruence))
    as (t2 & h2 & k2 & cs2 & E2 & L2 & P2 & F2).
  rewrite E2. set (f := fun x : Z => if x =? a then es else es').
  assert (Hfa : f a = es) by (unfold f; by rewrite Z.eqb_refl).
  assert (Hfb : f b = es') by (unfold f; by rewrite (proj2 (Z.eqb_neq b a)) by lia).
  eexists. exists ((kadd b d [(a, c)]).*1 ≫= f). split; [done|]. split.
  - apply tree_inner with (q := q); [done| |done|].
    + rewrite kadd_length. cbn [length].
      assert (t1 = Node4 \/ min_children t1 <= 1)%nat as Ht1.
      { destruct (node_add_child_spec Node4 _ _ _ [] a c q (create_layout (length q) pr) Hp Ha ltac:(by apply not_elem_of_nil))
          as (? & ? & ? & ? & E1' & _ & _ & F1). rewrite E1 in E1'. simplify_eq. exact F1. }
      destruct F2 as [->|F2]; [|done]. destruct Ht1 as [->|Ht1]; [done|]. destruct t1; simpl in *; lia.
    + intros x y [[= -> ->]|[= -> ->]%list_elem_of_singleton]%elem_of_kadd; by rewrite ?Hfa, ?Hfb.
  - rewrite kadd_perm. simpl. rewrite Hfa, Hfb, app_nil_r. apply Permutation_app_comm.
Qed.

(** [es'] is [es] with [key] bound to [v], and [old] what it was bound to. *)
Definition updated (key : list Z) (v : V) es (old : option V) es' : Prop :=
  exists rest, es ≡ₚ (match old with Some o => [(key, o)] | None => [] end) ++ rest /\
    es' ≡ₚ (key, v) :: rest /\ key ∉ rest.*1.

Lemma updated_new (key : list Z) (v : V) es es' :
  key ∉ es.*1 -> es' ≡ₚ (key, v) :: es -> updated key v es None es'.
Proof. intros H He. by exists es. Qed.

(** The first bytes that the loop of the expansion of a leaf records. *)
Lemma expand_loop_spec (k : nat) (p x : list Z) (a b : Z) (ra rb y pr : list Z) :
  a <> b -> (length x < k + length y)%nat -> take (length y) x = y -> length pr = MAX_PREFIX_LEN ->
  take (Nat.min MAX_PREFIX_LEN (length y)) pr = take MAX_PREFIX_LEN y ->
  exists pr', expand_loop k (p ++ x ++ a :: ra) (p ++ x ++ b :: rb) (length p) (length p + length y) pr =
      Some ((length p + length x)%nat, pr') /\
    length pr' = MAX_PREFIX_LEN /\ take (Nat.min MAX_PREFIX_LEN (length x)) pr' = take MAX_PREFIX_LEN x.
Proof.
  intros Hne. revert y pr. induction k as [|k IH]; intros y pr Hk Hy Hl Hpr.
  { exfalso. assert (length (take (length y) x) = length y) as E by (by rewrite Hy). rewrite length_take in E. lia. }
  cbn [expand_loop]. rewrite (proj2 (Nat.ltb_lt _ _)).
  2:{ assert (length (take (length y) x) = length y) as E by (by rewrite Hy). rewrite length_take in E.
      rewrite !length_app. simpl. lia. }
  assert (Hat : forall w, (p ++ w) !! (length p + length y)%nat = w !! length y)
    by (intros w; rewrite lookup_app_r by lia; f_equal; lia).
  rewrite !Hat. replace (length p + length y - length p)%nat with (length y) by lia.
  destruct (decide (length y < length x)%nat) as [Hlt|Hge].
  - destruct (lookup_lt_is_Some_2 x (length y)) as [z Hz]; [done|].
    rewrite !(lookup_app_l x), Hz by done. cbn [mbind option_bind]. rewrite Z.eqb_refl. cbn [negb].
    assert (Hy' : take (length (y ++ [z])) x = y ++ [z]).
    { rewrite length_app, Nat.add_1_r. by rewrite (take_S_r _ _ _ Hz), Hy. }
    assert (El : length (y ++ [z]) = S (length y)) by (rewrite length_app; simpl; lia).
    assert (forall pr1, length pr1 = MAX_PREFIX_LEN ->
      take (Nat.min MAX_PREFIX_LEN (length (y ++ [z]))) pr1 = take MAX_PREFIX_LEN (y ++ [z]) ->
      exists pr', expand_loop k (p ++ x ++ a :: ra) (p ++ x ++ b :: rb) (length p) (S (length p + length y)) pr1 =
        Some ((length p + length x)%nat, pr') /\ length pr' = MAX_PREFIX_LEN /\
        take (Nat.min MAX_PREFIX_LEN (length x)) pr' = take MAX_PREFIX_LEN x) as Hstep.
    { intros pr1 H1 H2. destruct (IH (y ++ [z]) pr1) as (pr' & E & ?); [lia|done|done|done|].
      exists pr'. rewrite El in E. rewrite <- E. split; [f_equal; lia|done]. }
    destruct (Nat.ltb_spec (length y) MAX_PREFIX_LEN) as [Hm|Hm].
    + rewrite assign_ok by lia. cbn [mbind option_bind]. apply Hstep; [by rewrite length_insert|].
      rewrite El, Nat.min_r by lia. rewrite take_insert_lt by lia.
      destruct (lookup_lt_is_Some_2 pr (length y)) as [w Hw]; [lia|]. rewrite (take_S_r _ _ _ Hw).
      rewrite Nat.min_r in Hpr by lia. rewrite Hpr, (take_ge y), (take_ge (y ++ [z])) by lia.
      by rewrite insert_app_r_alt, Nat.sub_diag.
    + cbn [mbind option_bind]. apply Hstep; [done|]. rewrite Nat.min_l in * by lia.
      rewrite Hpr, take_app_le by lia. done.
  - assert (y = x) as -> by (rewrite <- Hy; apply take_ge; lia).
    rewrite !(lookup_app_r x), Nat.sub_diag by lia. cbn [lookup list_lookup mbind option_bind].
    rewrite (proj2 (Z.eqb_neq a b)) by done. cbn [negb]. eauto.
Qed.

Lemma tree_new_leaf p (x : list Z) (a : Z) (ra : list Z) (v : V) :
  key_ok (p ++ x ++ a :: ra) -> tree (p ++ x ++ [a]) (create_art_leaf (p ++ x ++ a :: ra) v) [(p ++ x ++ a :: ra, v)].
Proof.
  intros Hk. apply (tree_leaf _ (Leaf v (p ++ x ++ a :: ra)) ra); [|done]. simpl. by rewrite <- !app_assoc.
Qed.

Lemma lookup_path (p x ra : list Z) (a : Z) : (p ++ x ++ a :: ra) !! (length p + length x)%nat = Some a.
Proof.
  rewrite lookup_app_r by lia. replace (length p + length x - length p)%nat with (length x) by lia.
  by rewrite lookup_app_r, Nat.sub_diag by lia.
Qed.

Lemma expand_leaf_spec p (l : art_leaf V) (r r' : list Z) (v : V) :
  l_key l = p ++ r' -> key_ok (p ++ r) -> key_ok (p ++ r') -> r <> r' ->
  exists n es, expand_leaf l (p ++ r) (length p) v = Some n /\ tree p n es /\
    es ≡ₚ [(p ++ r, v); (l_key l, l_value l)].
Proof.
  intros El Hk Hk' Hne. destruct l as [lv lk]. simpl in *. subst lk.
  destruct (keys_diverge p r r' Hk Hk' Hne) as (x & a & ra & b & rb & -> & -> & Hab & _).
  unfold expand_leaf. cbn [l_key].
  destruct (expand_loop_spec (length (p ++ x ++ a :: ra)) p x a b ra rb [] (replicate MAX_PREFIX_LEN 0))
    as (pr & E & Hl & Hpr); try done; [rewrite !length_app; simpl; lia|].
  simpl length in E. rewrite Nat.add_0_r in E. rewrite E. cbn [mbind option_bind fst snd].
  rewrite sub32_ok by lia. replace (length p + length x - length p)%nat with (length x) by lia.
  cbn [mbind option_bind]. rewrite !lookup_path. cbn [mbind option_bind].
  destruct (two_kids p x pr a b (create_art_leaf (p ++ x ++ a :: ra) v) (create_art_leaf (p ++ x ++ b :: rb) lv)
    [(p ++ x ++ a :: ra, v)] [(p ++ x ++ b :: rb, lv)]) as (n & e & En & T & P).
  - by repeat split.
  - apply (key_ok_byte _ _ _ Hk (lookup_path _ _ _ _)).
  - apply (key_ok_byte _ _ _ Hk' (lookup_path _ _ _ _)).
  - done.
  - by apply tree_new_leaf.
  - by apply tree_new_leaf.
  - by exists n, e.
Qed.

(** The prefix of a node that is moved down. *)
Lemma shorten_prefix (h : header) (x q : list Z) (a : Z) :
  prefix_ok h (x ++ a :: q) -> (length (x ++ a :: q) <= MAX_PREFIX_LEN)%nat ->
  prefix h !! length x = Some a /\
  exists pr, memmove 0 (length x + 1) (length q) (prefix h) = Some pr /\ prefix_ok (with_prefix (length q) pr h) q.
Proof.
  intros (Hl & Hp & Hq) Hm. rewrite take_ge, Nat.min_r in Hq by lia. rewrite length_app in *. cbn [length] in *.
  split.
  - rewrite <- (lookup_take_lt _ (length x + S (length q))), <- Hq by lia. by rewrite lookup_app_r, Nat.sub_diag by lia.
  - eexists. split; [apply memmove_ok; lia|]. rewrite take_0, app_nil_l. split; [done|]. cbn [prefix with_prefix]. split.
    + rewrite length_app, length_take, !length_drop. lia.
    + rewrite take_ge by lia. rewrite Nat.min_r by lia.
      rewrite take_app_le by (rewrite length_take, length_drop; lia). rewrite take_take, Nat.min_id.
      rewrite take_drop_commute. replace (length x + 1 + length q)%nat with (length x + S (length q))%nat by lia.
      rewrite <- Hq, drop_app_ge by lia. by replace (length x + 1 - length x)%nat with 1%nat by lia.
Qed.

Lemma copied_prefix (pr q : list Z) :
  length pr = MAX_PREFIX_LEN ->
  forall rest, exists pr', memcpy pr (q ++ rest) (Nat.min MAX_PREFIX_LEN (length q)) = Some pr' /\
    length pr' = MAX_PREFIX_LEN /\ take MAX_PREFIX_LEN q = take (Nat.min MAX_PREFIX_LEN (length q)) pr'.
Proof.
  intros Hl rest. eexists. split; [apply memcpy_ok; rewrite ?length_app; lia|]. split.
  - rewrite length_app, length_take, length_drop, length_app. lia.
  - rewrite (take_app_le q) by lia. rewrite take_app_le by (rewrite length_take; lia).
    rewrite take_take, Nat.min_id. destruct (decide (length q <= MAX_PREFIX_LEN)%nat).
    + rewrite Nat.min_r by lia. by rewrite !take_ge by lia.
    + by rewrite Nat.min_l by lia.
Qed.

(** The first part of a prefix, copied into a new node. *)
Lemma leading_prefix (h : header) (x y : list Z) :
  prefix_ok h (x ++ y) ->
  exists pr, memcpy (replicate MAX_PREFIX_LEN 0) (prefix h) (Nat.min MAX_PREFIX_LEN (length x)) = Some pr /\
    prefix_ok (Header (length x) 0 pr) x.
Proof.
  intros (_ & Hl & Hq). set (m := Nat.min MAX_PREFIX_LEN (length x)).
  assert (E : take m x = take m (prefix h)).
  { assert (take m (take MAX_PREFIX_LEN (x ++ y)) =
      take m (take (Nat.min MAX_PREFIX_LEN (length (x ++ y))) (prefix h))) as E by (by rewrite Hq).
    rewrite !take_take, length_app in E. rewrite take_app_le in E by (unfold m; lia).
    replace (Nat.min m MAX_PREFIX_LEN) with m in E by (unfold m; lia).
    by replace (Nat.min m (Nat.min MAX_PREFIX_LEN (length x + length y))) with m in E by (unfold m; lia). }
  eexists. split; [apply memcpy_ok; rewrite ?length_replicate; unfold m; lia|].
  split; [done|]. cbn [prefix]. split.
  - rewrite length_app, length_take, length_drop, length_replicate. unfold m. lia.
  - fold m. rewrite take_app_copy by (unfold m; lia). rewrite <- E.
    destruct (decide (length x <= MAX_PREFIX_LEN)%nat); unfold m; [by rewrite !take_ge by lia|by rewrite Nat.min_l by lia].
Qed.

Lemma split_node_spec p (x q r : list Z) (a b : Z) (type : art_node_type) (h : header) (keys : list Z)
  children ks (es : Z -> list (list Z * V)) (v : V) :
  layout type h keys children ks -> (min_children type <= length ks)%nat -> prefix_ok h (x ++ a :: q) ->
  (forall b' c, (b', c) ∈ ks -> tree (p ++ (x ++ a :: q) ++ [b']) c (es b')) ->
  key_ok (p ++ x ++ b :: r) -> is_byte a -> a <> b ->
  exists n es', split_node type h keys children (p ++ x ++ b :: r) (length p) (length x) v = Some n /\ tree p n es' /\
    es' ≡ₚ (p ++ x ++ b :: r, v) :: (ks.*1 ≫= es).
Proof.
  intros L Hm Hp Hkids Hk Ha Hab. pose proof Hp as (Hpl & Hl & Hq). unfold split_node.
  destruct (leading_prefix h x (a :: q) Hp) as (pr & -> & Hpr).
  cbn [mbind option_bind]. rewrite Hpl. rewrite length_app. cbn [length].
  rewrite sub32_ok by lia. cbn [mbind option_bind]. rewrite lookup_path. cbn [mbind option_bind].
  replace (length x + S (length q) - (length x + 1))%nat with (length q) by lia.
  assert (Hmove : forall pr', prefix_ok (with_prefix (length q) pr' h) q ->
    exists n es', (n ← node_add_child (create_node4_with (length x) pr) b (create_art_leaf (p ++ x ++ b :: r) v);
      node_add_child n a (AInner type (with_prefix (length q) pr' h) keys children)) = Some n /\ tree p n es' /\
      es' ≡ₚ (p ++ x ++ b :: r, v) :: (ks.*1 ≫= es)).
  { intros pr' Hpr'. apply (two_kids p x pr b a _ _ [(p ++ x ++ b :: r, v)]); try done.
    - apply (key_ok_byte _ _ _ Hk (lookup_path _ _ _ _)).
    - by apply tree_new_leaf.
    - apply tree_inner with (q := q); [|done|done|].
      + by destruct L.
      + intros b' c Hc. specialize (Hkids b' c Hc). by rewrite <- !app_assoc in *. }
  destruct (Nat.leb_spec (length x + S (length q)) MAX_PREFIX_LEN) as [Hle|Hgt].
  - destruct (shorten_prefix h x q a Hp) as (-> & pr' & -> & Hpr'); [rewrite length_app; simpl; lia|].
    cbn [mbind option_bind]. by apply Hmove.
  - assert (T : tree p (AInner type h keys children) (ks.*1 ≫= es)) by (by apply tree_inner with (q := x ++ a :: q)).
    destruct (tree_first _ _ _ T) as (mk & mv & es' & Ees).
    rewrite (get_minimum_spec _ _ _ _ _ _ T Ees). cbn [mbind option_bind l_key].
    destruct (entry_below p (x ++ a :: q) ks es mk mv Hkids) as (b' & c & r' & _ & _ & ->); [rewrite Ees; left|].
    rewrite <- !app_assoc. cbn [app]. rewrite lookup_path. cbn [mbind option_bind].
    replace (drop (length p + length x + 1) (p ++ x ++ a :: q ++ b' :: r')) with (q ++ b' :: r').
    2:{ rewrite drop_app_ge by lia. replace (length p + length x + 1 - length p)%nat with (length x + 1)%nat by lia.
        rewrite drop_app_ge by lia. by replace (length x + 1 - length x)%nat with 1%nat by lia. }
    destruct (copied_prefix (prefix h) q Hl (b' :: r')) as (pr' & -> & Hl' & Hq').
    cbn [mbind option_bind]. apply Hmove. by repeat split.
Qed.

(** The entries of the children, with those of one child singled out. *)
Lemma bind_split k1 k2 (ch : Z) c (es : Z -> list (list Z * V)) :
  ((k1 ++ (ch, c) :: k2).*1 ≫= es) ≡ₚ es ch ++ ((k1 ++ k2).*1 ≫= es).
Proof. rewrite !fmap_app, fmap_cons, !bind_app, bind_cons. simpl. apply Permutation_app_swap_app. Qed.

(** Replacing the entries of one child. *)
Definition override (ch : Z) (e : list (list Z * V)) (es : Z -> list (list Z * V)) (b : Z) : list (list Z * V) :=
  if b =? ch then e else es b.

Lemma override_eq (ch : Z) e (es : Z -> list (list Z * V)) : override ch e es ch = e.
Proof. unfold override. by rewrite Z.eqb_refl. Qed.

Lemma override_ne (ch b : Z) e (es : Z -> list (list Z * V)) : b <> ch -> override ch e es b = es b.
Proof. intros H. unfold override. by rewrite (proj2 (Z.eqb_neq b ch)). Qed.

Lemma override_entries k1 k2 (ch : Z) c d e (es : Z -> list (list Z * V)) :
  kids_ok (k1 ++ (ch, c) :: k2) ->
  ((k1 ++ (ch, d) :: k2).*1 ≫= override ch e es) ≡ₚ e ++ ((k1 ++ k2).*1 ≫= es).
Proof.
  intros Hk. rewrite bind_split, override_eq. f_equiv.
  replace ((k1 ++ k2).*1 ≫= override ch e es) with ((k1 ++ k2).*1 ≫= es); [done|]. apply bind_ext.
  intros b (x & Hx)%elem_of_fst. symmetry. apply override_ne. by apply (kids_others _ _ ch _ c) in Hx as [_ ?].
Qed.

(** A node one of whose children has been replaced. *)
Lemma tree_replace p (q : list Z) (ch : Z) c d e (type : art_node_type) (h : header) (keys : list Z) children k1 k2
  (es : Z -> list (list Z * V)) :
  kids_ok (k1 ++ (ch, c) :: k2) -> layout type h keys children (k1 ++ (ch, d) :: k2) ->
  (min_children type <= length (k1 ++ (ch, c) :: k2))%nat -> prefix_ok h q ->
  (forall b c', (b, c') ∈ k1 ++ (ch, c) :: k2 -> tree (p ++ q ++ [b]) c' (es b)) -> tree (p ++ q ++ [ch]) d e ->
  tree p (AInner type h keys children) ((k1 ++ (ch, d) :: k2).*1 ≫= override ch e es).
Proof.
  intros Hk L Hm Hp Hkids Td. apply tree_inner with (q := q); [done| |done|]; [by rewrite length_app in *|].
  intros b x [[-> ->]|[Hne Hd]]%(kids_replace _ _ _ _ c); [by rewrite override_eq| |done].
  rewrite override_ne by done. by apply Hkids.
Qed.

(** The entries below the other children have other keys. *)
Lemma other_entries p (q : list Z) k1 k2 (ch : Z) c (es : Z -> list (list Z * V)) (key : list Z) :
  kids_ok (k1 ++ (ch, c) :: k2) ->
  (forall b d, (b, d) ∈ k1 ++ (ch, c) :: k2 -> tree (p ++ q ++ [b]) d (es b)) ->
  key !! (length p + length q)%nat = Some ch -> key ∉ ((k1 ++ k2).*1 ≫= es).*1.
Proof.
  intros Hk Hkids Hch Hin. apply list_elem_of_fmap in Hin as ([k v] & -> & Hin). simpl in *.
  destruct (entry_at_byte p q (k1 ++ k2) es k v ch) as (d & Hd & _); [|done|done|].
  - intros b d Hd. apply Hkids. by apply (kids_others _ _ ch _ c) in Hd as [? _].
  - apply (kids_others _ _ ch _ c) in Hd as [_ ?]; [done|done].
Qed.

Definition is_new (old : option V) : bool := match old with None => true | Some _ => false end.

(** The key of an insertion goes on where a key that is present does. *)
Lemma key_continues p (x r y : list Z) (a : Z) :
  key_ok (p ++ x ++ r) -> key_ok (p ++ x ++ a :: y) -> exists b r', r = b :: r'.
Proof.
  intros Hk Hk'. destruct r as [|b r]; [|eauto]. rewrite app_nil_r in Hk. rewrite app_assoc in Hk'.
  by apply key_ok_prefix_free in Hk'.
Qed.

(** The case of an inner node whose prefix the key leaves. *)
Lemma insert_split p (q r : list Z) (type : art_node_type) (h : header) (keys : list Z) children ks
  (es : Z -> list (list Z * V)) (v : V) :
  layout type h keys children ks -> (min_children type <= length ks)%nat -> prefix_ok h q ->
  (forall b c, (b, c) ∈ ks -> tree (p ++ q ++ [b]) c (es b)) -> key_ok (p ++ r) -> (lcp q r < length q)%nat ->
  exists n es', split_node type h keys children (p ++ r) (length p) (lcp q r) v = Some n /\ tree p n es' /\
    updated (p ++ r) v (ks.*1 ≫= es) None es'.
Proof.
  intros L Hm Hp Hkids Hkey Hlt. destruct (lcp_split q r) as (qa & ra & Eq & Er & Hdiv).
  set (x := take (lcp q r) q) in *.
  assert (length x = lcp q r) as Hx by (unfold x; rewrite length_take; lia).
  destruct qa as [|a qa]; [rewrite app_nil_r in Eq; apply (f_equal length) in Eq; lia|].
  destruct (tree_first p (AInner type h keys children) (ks.*1 ≫= es)) as (k0 & v0 & e0 & E0);
    [by apply tree_inner with (q := q)|].
  destruct (entry_below p q ks es k0 v0 Hkids) as (b0 & c0 & r0 & Hc0 & Hin0 & E1); [rewrite E0; left|].
  destruct (tree_prefix _ _ _ _ _ (Hkids _ _ Hc0) Hin0) as [Hk0 _].
  rewrite E1, Eq, <- app_assoc in Hk0. simpl in Hk0. rewrite Er in Hkey.
  destruct (key_continues p x ra _ a Hkey Hk0) as (b & r' & ->).
  pose proof (Hdiv a qa b r' eq_refl eq_refl) as Hab. rewrite Eq in Hp. rewrite <- Hx.
  destruct (split_node_spec p x qa r' a b type h keys children ks es v) as (n & es' & En & T & P); try done.
  { intros b' c Hc. specialize (Hkids b' c Hc). by rewrite Eq in Hkids. }
  { apply (key_ok_byte _ _ _ Hk0 (lookup_path _ _ _ _)). }
  rewrite Er. exists n, es'. split; [done|]. split; [done|]. apply updated_new; [|done].
  intros ([k v'] & E2 & Hin)%list_elem_of_fmap. simpl in E2.
  destruct (entry_below p q ks es k v' Hkids Hin) as (b1 & c1 & r1 & _ & _ & E3).
  rewrite <- E2, Eq, <- app_assoc in E3. by simplify_list_eq.
Qed.

(** A node that has got a new leaf as a child. *)
Lemma tree_add_leaf p (q r : list Z) (ch : Z) ks (es : Z -> list (list Z * V)) (v : V) (type : art_node_type)
  (h : header) (keys : list Z) children :
  (forall b c, (b, c) ∈ ks -> tree (p ++ q ++ [b]) c (es b)) -> key_ok (p ++ q ++ ch :: r) -> ch ∉ ks.*1 ->
  layout type h keys children (kadd ch (create_art_leaf (p ++ q ++ ch :: r) v) ks) -> prefix_ok h q ->
  (min_children type <= S (length ks))%nat ->
  exists es', tree p (AInner type h keys children) es' /\ updated (p ++ q ++ ch :: r) v (ks.*1 ≫= es) None es'.
Proof.
  intros Hkids Hkey Hn L P F. set (f := override ch [(p ++ q ++ ch :: r, v)] es).
  assert (Hfe : ks.*1 ≫= f = ks.*1 ≫= es) by (apply bind_ext; intros b Hb; apply override_ne; by intros ->).
  exists ((kadd ch (create_art_leaf (p ++ q ++ ch :: r) v) ks).*1 ≫= f). split.
  - apply tree_inner with (q := q); [done|by rewrite kadd_length|done|].
    intros b c [[= -> ->]|Hc]%elem_of_kadd; unfold f; [rewrite override_eq; by apply tree_new_leaf|].
    rewrite override_ne; [by apply Hkids|]. intros ->. apply Hn, elem_of_fst. eauto.
  - apply updated_new.
    + intros ([k' v'] & E2 & Hin)%list_elem_of_fmap. simpl in E2. subst k'.
      destruct (entry_at_byte p q ks es _ v' ch Hkids (lookup_path _ _ _ _) Hin) as (c & Hc & _).
      apply Hn, elem_of_fst. eauto.
    + rewrite kadd_perm, fmap_cons, bind_cons, Hfe. unfold f. simpl. by rewrite override_eq.
Qed.

(** The case of an inner node whose prefix the key has. *)
Lemma insert_descend p (q r : list Z) (ch : Z) (type : art_node_type) (h : header) (keys : list Z) children ks
  (es : Z -> list (list Z * V)) (v : V) (k : nat) (n : option (inserted V)) :
  layout type h keys children ks -> (min_children type <= length ks)%nat -> prefix_ok h q ->
  (forall b c, (b, c) ∈ ks -> tree (p ++ q ++ [b]) c (es b)) -> key_ok (p ++ q ++ ch :: r) ->
  (forall c, (ch, c) ∈ ks -> exists n' old es',
    art_node_insert k (Some c) (length p + length q + 1) (p ++ q ++ ch :: r) v = Some (Inserted n' old (is_new old)) /\
    tree (p ++ q ++ [ch]) n' es' /\ updated (p ++ q ++ ch :: r) v (es ch) old es') ->
  n = (next ← node_get_child type h keys ch;
       match next with
       | Some slot =>
           child ← children !! slot;
           r0 ← art_node_insert k child (length p + length q + 1) (p ++ q ++ ch :: r) v;
           children ← assign children slot (Some (i_node r0));
           Some (Inserted (AInner type (if is_null child then with_count (u8 (num_children h + 1)) h else h) keys children)
                   (i_old r0) (i_new r0))
       | None =>
           n ← node_add_child (AInner type h keys children) ch (create_art_leaf (p ++ q ++ ch :: r) v);
           Some (Inserted n None true)
       end) ->
  exists n' old es', n = Some (Inserted n' old (is_new old)) /\ tree p n' es' /\
    updated (p ++ q ++ ch :: r) v (ks.*1 ≫= es) old es'.
Proof.
  intros L Hm Hp Hkids Hkey Hrec ->. pose proof (lay_kids _ _ _ _ _ L) as Hk.
  pose proof (key_ok_byte _ _ _ Hkey (lookup_path _ _ _ _)) as Hch.
  destruct (get_child_spec type h keys children ks ch L Hch) as (slot & Eg & Hs). rewrite Eg. cbn [mbind option_bind].
  destruct slot as [slot|]; [destruct Hs as [(c & Hc & Hsl)|(-> & -> & Hn & Hsl)]|].
  - rewrite Hsl. cbn [mbind option_bind is_null]. destruct (Hrec c Hc) as (n' & old & es' & -> & T' & rest & P1 & P2 & Hr).
    apply list_elem_of_split in Hc as (k1 & k2 & ->). cbn [mbind option_bind i_node i_old i_new].
    destruct (set_child_spec _ _ _ _ _ _ _ _ n' slot L Eg) as [Hlt L'].
    rewrite assign_ok by done. cbn [mbind option_bind].
    eexists _, old, _. split; [done|]. split; [by eapply tree_replace|].
    exists (rest ++ ((k1 ++ k2).*1 ≫= es)). split; [|split].
    + rewrite bind_split, P1. by rewrite <- app_assoc.
    + by rewrite (override_entries _ _ _ c), P2.
    + rewrite fmap_app, not_elem_of_app. split; [done|].
      apply (other_entries p q k1 k2 ch c es); [done|done|apply lookup_path].
  - pose proof (l256_keys _ _ _ (lay_arrays _ _ _ _ _ L)) as ->.
    destruct (node256_add_child_spec h children ks ch (create_art_leaf (p ++ q ++ ch :: r) v) L Hch Hn) as [L' _].
    rewrite Hsl. cbn [mbind option_bind is_null].
    assert (art_node_insert k None (length p + length q + 1) (p ++ q ++ ch :: r) v =
      Some (Inserted (create_art_leaf (p ++ q ++ ch :: r) v) None true)) as -> by (by destruct k).
    cbn [mbind option_bind i_node i_old i_new]. rewrite assign_ok by (by eapply lookup_lt_Some).
    destruct (tree_add_leaf _ _ _ _ _ _ _ _ _ _ _ Hkids Hkey Hn L') as (es' & T' & U);
      [by apply prefix_ok_count|simpl in *; lia|].
    eexists _, None, es'. done.
  - destruct (node_add_child_spec type h keys children ks ch (create_art_leaf (p ++ q ++ ch :: r) v) q L Hp Hch Hs)
      as (t & h' & k' & cs' & -> & L' & P' & F').
    destruct (tree_add_leaf _ _ _ _ _ _ _ _ _ _ _ Hkids Hkey Hs L' P') as (es' & T' & U); [destruct F' as [->|F']; lia|].
    eexists _, None, es'. done.
Qed.

Lemma insert_spec p n es (k : nat) (r : list Z) (v : V) :
  tree p n es -> key_ok (p ++ r) -> (height n <= S k)%nat ->
  exists n' old es', art_node_insert k (Some n) (length p) (p ++ r) v = Some (Inserted n' old (is_new old)) /\
    tree p n' es' /\ updated (p ++ r) v es old es'.
Proof.
  intros T. revert k r. induction T as [p l rest E Hk|p q type h keys children ks es L Hm Hp Hkids IH];
    intros k r Hkey Hh.
  - assert (art_node_insert k (Some (ALeaf l)) (length p) (p ++ r) v =
      if leaf_match l (p ++ r) then Some (Inserted (ALeaf (Leaf v (l_key l))) (Some (l_value l)) false)
      else n ← expand_leaf l (p ++ r) (length p) v; Some (Inserted n None true)) as -> by (by destruct k).
    destruct (leaf_match l (p ++ r)) eqn:Em.
    + apply leaf_match_spec in Em. eexists _, (Some (l_value l)), [(p ++ r, v)]. rewrite Em in *.
      split; [done|]. split; [by apply (tree_leaf p (Leaf v (p ++ r)) r)|].
      exists []. split; [done|]. split; [done|by apply not_elem_of_nil].
    + apply not_true_iff_false in Em. rewrite leaf_match_spec in Em.
      destruct (expand_leaf_spec p l r rest v E Hkey) as (n & es & -> & T & P); [congruence|congruence|].
      eexists _, None, es. split; [done|]. split; [done|]. apply updated_new; [|done].
      simpl. intros ?%list_elem_of_singleton. congruence.
  - assert (T : tree p (AInner type h keys children) (ks.*1 ≫= es)) by (by apply tree_inner with (q := q)).
    destruct (tree_first _ _ _ T) as (k0 & v0 & e0 & E0).
    assert (Hes : forall k' v', (k', v') ∈ ks.*1 ≫= es -> exists b rest, k' = p ++ q ++ b :: rest).
    { intros k' v' Hin. destruct (entry_below _ _ _ _ _ _ Hkids Hin) as (b & _ & r' & _ & _ & ->). eauto. }
    destruct (check_prefix_spec p q _ _ _ _ _ r T Hp Hes) as (d & Ed & Hd).
    destruct (kids_cons _ _ Hm) as (b1 & c1 & ks' & Eks). assert ((b1, c1) ∈ ks) as Hc1 by (rewrite Eks; left).
    pose proof (kid_height _ _ _ _ _ _ _ L Hc1). pose proof (height_pos c1). destruct k as [|k]; [lia|].
    cbn [art_node_insert]. rewrite Ed. cbn [mbind option_bind]. pose proof Hp as (Hpl & _ & _). rewrite Hpl.
    destruct (Nat.ltb_spec d (length q)) as [Hlt|Hge].
    + destruct (insert_split p q r type h keys children ks es v) as (n & es' & En & T' & U); try done; [lia|].
      replace d with (lcp q r) by lia. rewrite En. eexists _, None, es'. done.
    + destruct (lcp_full q r) as [r' ->]; [lia|].
      destruct (Hes k0 v0) as (b & rest & ->); [rewrite E0; left|].
      destruct (tree_prefix _ _ _ _ v0 T ltac:(rewrite E0; left)) as [Hk0 _].
      destruct (key_continues p q r' rest b Hkey Hk0) as (ch & r & ->).
      rewrite lookup_path. cbn [mbind option_bind].
      eapply (insert_descend p q r ch type h keys children ks es v k); try done.
      intros c Hc. pose proof (kid_height _ _ _ _ _ _ _ L Hc).
      destruct (IH ch c Hc k r) as (n' & old & es' & E & ?); [by rewrite <- !app_assoc|lia|].
      exists n', old, es'. rewrite <- !app_assoc in *. rewrite !length_app in E. cbn [length app] in *.
      rewrite Nat.add_assoc in E. done.
Qed.

(** ** Deletion *)

Lemma fill_loop_spec (k : nat) (y qc pr pc : list Z) (i : nat) :
  length pr = MAX_PREFIX_LEN -> (Nat.min MAX_PREFIX_LEN (length qc) <= length pc)%nat ->
  take MAX_PREFIX_LEN qc = take (Nat.min MAX_PREFIX_LEN (length qc)) pc ->
  (MAX_PREFIX_LEN <= k + i)%nat -> (i <= length qc)%nat ->
  take (Nat.min MAX_PREFIX_LEN (length y + i)) pr = take MAX_PREFIX_LEN (y ++ take i qc) ->
  exists pr', fill_loop k pr pc (length y) (length qc) i = Some pr' /\ length pr' = MAX_PREFIX_LEN /\
    take (Nat.min MAX_PREFIX_LEN (length y + length qc)) pr' = take MAX_PREFIX_LEN (y ++ qc).
Proof.
  intros Hl Hpl Hpc. revert pr i Hl. induction k as [|k IH]; intros pr i Hl Hk Hi Hpr.
  - exists pr. split; [done|]. split; [done|]. rewrite Nat.min_l in * by lia. rewrite Hpr.
    rewrite <- (take_drop i qc) at 2. rewrite app_assoc. rewrite (take_app_le (y ++ _)); [done|].
    rewrite length_app, length_take. lia.
  - cbn [fill_loop]. destruct (Nat.ltb_spec (length y + i) MAX_PREFIX_LEN) as [Hlt|Hge]; cbn [andb].
    2:{ exists pr. split; [done|]. split; [done|]. rewrite Nat.min_l in * by lia. rewrite Hpr.
        rewrite <- (take_drop i qc) at 2. rewrite app_assoc. rewrite (take_app_le (y ++ _)); [done|].
        rewrite length_app, length_take. lia. }
    destruct (Nat.ltb_spec i (length qc)) as [Hiq|Hiq].
    2:{ assert (i = length qc) as -> by lia. rewrite (take_ge qc) in Hpr by lia. eauto. }
    destruct (lookup_lt_is_Some_2 qc i Hiq) as [z Hz].
    assert (pc !! i = Some z) as ->.
    { rewrite <- (lookup_take_lt _ (Nat.min MAX_PREFIX_LEN (length qc))), <- Hpc by lia.
      by rewrite lookup_take_lt by lia. }
    cbn [mbind option_bind]. rewrite assign_ok by lia. cbn [mbind option_bind].
    apply IH; [by rewrite length_insert|lia|lia|].
    rewrite Nat.add_succ_r, (take_S_r _ _ _ Hz), app_assoc. rewrite Nat.min_r in * by lia.
    rewrite take_insert_lt by lia. destruct (lookup_lt_is_Some_2 pr (length y + i)) as [w Hw]; [lia|].
    rewrite (take_S_r _ _ _ Hw), Hpr.
    assert (length (y ++ take i qc) = (length y + i)%nat) as El by (rewrite length_app, length_take; lia).
    assert (length ((y ++ take i qc) ++ [z]) = S (length y + i)) as El' by (rewrite length_app, El; simpl; lia).
    rewrite !(take_ge _ MAX_PREFIX_LEN) by lia. rewrite insert_app_r_alt by lia. by rewrite El, Nat.sub_diag.
Qed.

(** The prefix of a node and the byte of its child, as far as there is room. *)
Lemma append_byte (h : header) (q : list Z) (b : Z) :
  prefix_ok h q ->
  exists pr, (if (length q <? MAX_PREFIX_LEN)%nat
      then p ← assign (prefix h) (length q) b; Some (p, (length q + 1)%nat)
      else Some (prefix h, length q)) =
        Some (pr, if (length q <? MAX_PREFIX_LEN)%nat then length (q ++ [b]) else length q) /\
    length pr = MAX_PREFIX_LEN /\
    take (Nat.min MAX_PREFIX_LEN (length (q ++ [b]))) pr = take MAX_PREFIX_LEN (q ++ [b]).
Proof.
  intros (Hl & Hp & Hq). replace (length (q ++ [b])) with (length q + 1)%nat by (rewrite length_app; done).
  destruct (Nat.ltb_spec (length q) MAX_PREFIX_LEN) as [Hlt|Hge].
  - rewrite assign_ok by lia. eexists. split; [reflexivity|]. split; [by rewrite length_insert|].
    rewrite Nat.add_1_r. rewrite Nat.min_r in * by lia. rewrite take_insert_lt by lia.
    destruct (lookup_lt_is_Some_2 (prefix h) (length q)) as [w Hw]; [lia|].
    rewrite (take_S_r _ _ _ Hw), <- Hq. rewrite !take_ge by (rewrite ?length_app; simpl; lia).
    by rewrite insert_app_r_alt, Nat.sub_diag by lia.
  - eexists. split; [reflexivity|]. split; [done|]. rewrite Nat.min_l in * by lia.
    rewrite <- Hq. by rewrite take_app_le by lia.
Qed.

(** The child of a node with one child stands for both. *)
Lemma merge_child_spec p (q : list Z) (h : header) (b : Z) c es :
  prefix_ok h q -> tree (p ++ q ++ [b]) c es ->
  exists c', merge_child h b c = Some c' /\ tree p c' es.
Proof.
  intros Hp T. inversion T as [? l rest E Hk|? qc type hc keys children ks esf L Hm Hpc Hkids]; subst.
  - eexists. split; [done|]. eapply tree_leaf; [|done]. rewrite E. by rewrite <- !app_assoc.
  - destruct Hpc as (Hlc & Hpc & Hqc). unfold merge_child. rewrite (proj1 Hp), Hlc.
    destruct (append_byte h q b Hp) as (pr & -> & Hlp & Htp). cbn [mbind option_bind fst snd].
    assert (exists pr', fill_loop MAX_PREFIX_LEN pr (prefix hc)
        (if (length q <? MAX_PREFIX_LEN)%nat then length (q ++ [b]) else length q) (length qc) 0 = Some pr' /\
        length pr' = MAX_PREFIX_LEN /\
        take (Nat.min MAX_PREFIX_LEN (length (q ++ [b]) + length qc)) pr' = take MAX_PREFIX_LEN ((q ++ [b]) ++ qc))
      as (pr' & -> & Hlp' & Htp').
    { destruct (Nat.ltb_spec (length q) MAX_PREFIX_LEN) as [Hlt|Hge].
      - apply fill_loop_spec; try done; [lia|lia|]. by rewrite Nat.add_0_r, take_0, app_nil_r.
      - exists pr. split; [|split; [done|]].
        + assert (length q + 0 <? MAX_PREFIX_LEN = false)%nat as E by (apply Nat.ltb_ge; lia).
          unfold MAX_PREFIX_LEN at 1. cbn [fill_loop]. by rewrite E.
        + assert (length (q ++ [b]) = S (length q)) as Eb by (rewrite length_app; simpl; lia).
          rewrite Nat.min_l in * by lia. rewrite Htp. by rewrite (take_app_le (q ++ [b])) by lia. }
    cbn [mbind option_bind].
    assert (Hn : (length q + 1 + length qc)%nat = length ((q ++ [b]) ++ qc)) by (rewrite !length_app; done).
    rewrite Hn, memcpy_ok by lia. eexists. split; [done|].
    apply tree_inner with (q := (q ++ [b]) ++ qc); [by destruct L|done| |].
    + split; [done|]. cbn [prefix with_prefix]. split.
      * rewrite length_app, length_take, length_drop. lia.
      * rewrite <- (length_app (q ++ [b]) qc) in Htp'. rewrite <- Htp', (Nat.min_comm MAX_PREFIX_LEN).
        by rewrite take_app_copy by lia.
    + intros b' c' Hc. specialize (Hkids b' c' Hc). by rewrite <- !app_assoc in *.
Qed.

Lemma inner_entries p (type : art_node_type) (h : header) (keys : list Z) children es :
  tree p (AInner type h keys children) es -> (2 <= length es)%nat.
Proof.
  intros T. inversion T as [|? q ? ? ? ? ks esf L Hm Hp Hkids]; subst.
  assert (forall ks', (forall b c, (b, c) ∈ ks' -> (b, c) ∈ ks) -> (length ks' <= length (ks'.*1 ≫= esf))%nat) as H.
  { induction ks' as [|[b c] ks' IH]; intros Hin; [simpl; lia|].
    rewrite fmap_cons, bind_cons, length_app. simpl.
    destruct (tree_first _ _ _ (Hkids b c (Hin b c ltac:(left)))) as (k & v & e & ->). simpl.
    specialize (IH ltac:(intros; apply Hin; by right)). lia. }
  specialize (H ks ltac:(done)). assert (2 <= min_children type)%nat by (destruct type; simpl; lia). lia.
Qed.

(** What a deletion below the path [p] does: it leaves [*node_ref] and returns a leaf. *)
Definition removed p n (key : list Z) es (r : option (art_node V) * option (art_leaf V)) : Prop :=
  match r.2 with
  | None => r.1 = Some n /\ key ∉ es.*1
  | Some l => exists es', es ≡ₚ (key, l_value l) :: es' /\ key ∉ es'.*1 /\
      match r.1 with Some n' => tree p n' es' | None => es' = [] end
  end.

Lemma not_in_entries p (q : list Z) ks (es : Z -> list (list Z * V)) (key : list Z) :
  (forall b c, (b, c) ∈ ks -> tree (p ++ q ++ [b]) c (es b)) ->
  (forall b r, b ∈ ks.*1 -> key <> p ++ q ++ b :: r) -> key ∉ (ks.*1 ≫= es).*1.
Proof.
  intros Hkids H ([k v] & -> & Hin)%list_elem_of_fmap.
  destruct (entry_below _ _ _ _ _ _ Hkids Hin) as (b & c & r & Hc & _ & E). simpl in *.
  apply (H b r); [apply elem_of_fst; eauto|done].
Qed.

Lemma leaf_entries p (l : art_leaf V) es : tree p (ALeaf l) es -> es = [(l_key l, l_value l)].
Proof. intros T. by inversion T. Qed.

(** The child at [ch] is a leaf with the key. *)
Lemma remove_leaf p (q : list Z) (ch : Z) (l : art_leaf V) (type : art_node_type) (h : header) (keys : list Z)
  children k1 k2 (es : Z -> list (list Z * V)) :
  layout type h keys children (k1 ++ (ch, ALeaf l) :: k2) ->
  (min_children type <= length (k1 ++ (ch, ALeaf l) :: k2))%nat -> prefix_ok h q ->
  (forall b c, (b, c) ∈ k1 ++ (ch, ALeaf l) :: k2 -> tree (p ++ q ++ [b]) c (es b)) ->
  l_key l !! (length p + length q)%nat = Some ch ->
  exists n, node_remove_child type h keys children ch = Some n /\
    removed p (AInner type h keys children) (l_key l) ((k1 ++ (ch, ALeaf l) :: k2).*1 ≫= es) (Some n, Some l).
Proof.
  intros L Hm Hp Hkids Hch. pose proof (lay_kids _ _ _ _ _ L) as Hk.
  assert (es ch = [(l_key l, l_value l)]) as Ech.
  { eapply leaf_entries, Hkids, elem_of_app. right. left. }
  assert (forall b c, (b, c) ∈ k1 ++ k2 -> tree (p ++ q ++ [b]) c (es b)) as Hkids'.
  { intros b c Hc. apply Hkids. by apply (kids_others _ _ ch _ (ALeaf l)) in Hc as [? _]. }
  assert (forall n, tree p n ((k1 ++ k2).*1 ≫= es) ->
    removed p (AInner type h keys children) (l_key l) ((k1 ++ (ch, ALeaf l) :: k2).*1 ≫= es) (Some n, Some l)) as Hdone.
  { intros n T. exists ((k1 ++ k2).*1 ≫= es). split; [by rewrite bind_split, Ech|]. split; [|done].
    by apply (other_entries p q k1 k2 ch (ALeaf l)). }
  destruct (node_remove_child_spec type h keys children k1 k2 ch (ALeaf l) q L Hp Hm)
    as [(b & d & h' & Eks & Hp' & ->)|(t & h' & k' & cs' & -> & L' & Hp' & F')].
  - destruct (merge_child_spec p q h' b d (es b) Hp') as (n & -> & T).
    { apply Hkids'. rewrite Eks. left. }
    exists n. split; [done|]. apply Hdone. rewrite Eks. simpl. by rewrite app_nil_r.
  - eexists. split; [done|]. apply Hdone. by apply tree_inner with (q := q).
Qed.

(** The child at [ch] is an inner node, from which [r] has been removed. *)
Lemma remove_below p (q key : list Z) (ch : Z) (slot : nat) c r (type : art_node_type) (h : header) (keys : list Z)
  children k1 k2 (es : Z -> list (list Z * V)) :
  layout type h keys children (k1 ++ (ch, c) :: k2) ->
  (min_children type <= length (k1 ++ (ch, c) :: k2))%nat -> prefix_ok h q ->
  (forall b d, (b, d) ∈ k1 ++ (ch, c) :: k2 -> tree (p ++ q ++ [b]) d (es b)) ->
  key !! (length p + length q)%nat = Some ch -> node_get_child type h keys ch = Some (Some slot) ->
  children !! slot = Some (Some c) -> (2 <= length (es ch))%nat -> removed (p ++ q ++ [ch]) c key (es ch) r ->
  removed p (AInner type h keys children) key ((k1 ++ (ch, c) :: k2).*1 ≫= es)
    (Some (AInner type h keys (<[slot := r.1]> children)), r.2).
Proof.
  intros L Hm Hp Hkids Hch Eg Hsl H2 Hrm. pose proof (lay_kids _ _ _ _ _ L) as Hk.
  pose proof (other_entries p q k1 k2 ch c es key Hk Hkids Hch) as Hoth.
  destruct r as [c' [l|]]; unfold removed in *; cbn [fst snd] in *.
  - destruct Hrm as (es' & P & Hne & Hc'). destruct c' as [c'|].
    2:{ subst es'. apply Permutation_length in P. simpl in P. lia. }
    destruct (set_child_spec _ _ _ _ _ _ _ _ c' slot L Eg) as [_ L'].
    exists ((k1 ++ (ch, c') :: k2).*1 ≫= override ch es' es).
    pose proof (override_entries k1 k2 ch c c' es' es Hk) as Ho. split; [by rewrite Ho, bind_split, P|]. split.
    + by rewrite Ho, fmap_app, not_elem_of_app.
    + by eapply tree_replace.
  - destruct Hrm as [-> Hne]. rewrite list_insert_id by done. split; [done|].
    rewrite bind_split, fmap_app, not_elem_of_app. done.
Qed.

Lemma delete_spec p n es (k : nat) (key : list Z) :
  tree p n es -> key_ok key -> (length p <= length key)%nat -> (height n <= S k)%nat ->
  exists r, art_node_delete k (Some n) (length p) key = Some r /\ removed p n key es r.
Proof.
  intros T Hkey. revert k. induction T as [p l rest E Hk|p q type h keys children ks es L Hm Hp Hkids IH];
    intros k Hlen Hh.
  - assert (art_node_delete k (Some (ALeaf l)) (length p) key =
      if leaf_match l key then Some (None, Some l) else Some (Some (ALeaf l), None)) as -> by (by destruct k).
    destruct (leaf_match l key) eqn:Em; (eexists; split; [done|]).
    + apply leaf_match_spec in Em as <-. exists []. split; [done|]. split; [by apply not_elem_of_nil|done].
    + split; [done|]. simpl. intros E'%list_elem_of_singleton. apply not_true_iff_false in Em.
      rewrite leaf_match_spec in Em. congruence.
  - destruct (kids_cons _ _ Hm) as (b0 & c0 & ks' & Eks). assert ((b0, c0) ∈ ks) as Hc0 by (rewrite Eks; left).
    pose proof (kid_height _ _ _ _ _ _ _ L Hc0). pose proof (height_pos c0). destruct k as [|k]; [lia|].
    pose proof (lay_kids _ _ _ _ _ L) as Hk.
    cbn [art_node_delete]. rewrite (check_prefix_partial_spec h q) by done. cbn [mbind option_bind].
    pose proof Hp as (-> & _ & _).
    destruct (Nat.eqb_spec (Nat.min MAX_PREFIX_LEN (lcp q (drop (length p) key))) (Nat.min MAX_PREFIX_LEN (length q))) as [Eq|Ne]; simpl.
    2:{ eexists. split; [done|]. split; [done|]. apply (not_in_entries p q); [done|]. intros b r _ ->.
        rewrite partial_match in Ne. lia. }
    destruct (Nat.leb_spec (length key) (length p + length q)) as [Hle|Hlt].
    { eexists. split; [done|]. split; [done|]. apply (not_in_entries p q); [done|]. intros b r _ ->.
      rewrite !length_app in Hle. simpl in Hle. lia. }
    destruct (lookup_lt_is_Some_2 key (length p + length q)) as [ch Hch]; [lia|]. rewrite Hch. cbn [mbind option_bind].
    destruct (get_child_spec type h keys children ks ch L) as (r & Eg & Hr); [by eapply key_ok_byte|].
    rewrite Eg. cbn [mbind option_bind].
    assert (Hnone : ch ∉ ks.*1 -> key ∉ (ks.*1 ≫= es).*1).
    { intros Hn. apply (not_in_entries p q); [done|]. intros b r' Hb ->. rewrite lookup_path in Hch. congruence. }
    destruct r as [slot|]; [destruct Hr as [(c & Hc & Hsl)|(-> & -> & Hn & Hsl)]|]; cbn [mbind option_bind].
    3:{ eexists. split; [done|]. split; [done|]. by apply Hnone. }
    2:{ rewrite Hsl. cbn [mbind option_bind].
        assert (art_node_delete k None (length p + length q + 1) key = Some (None, None)) as -> by (by destruct k).
        cbn [mbind option_bind fst snd]. rewrite assign_ok by (by eapply lookup_lt_Some). cbn [mbind option_bind].
        rewrite list_insert_id by done. eexists. split; [done|]. split; [done|]. by apply Hnone. }
    rewrite Hsl. cbn [mbind option_bind]. pose proof (Hkids ch c Hc) as Tc.
    pose proof (kid_height _ _ _ _ _ _ _ L Hc) as Hhc. apply list_elem_of_split in Hc as Hsp.
    destruct Hsp as (k1 & k2 & ->). destruct c as [l|ct chh ck cc].
    + destruct (leaf_match l key) eqn:Em.
      * apply leaf_match_spec in Em as <-.
        destruct (remove_leaf p q ch l type h keys children k1 k2 es L Hm Hp Hkids Hch) as (n & -> & Hrm).
        eexists. split; [done|]. done.
      * eexists. split; [done|]. split; [done|]. apply not_true_iff_false in Em. rewrite leaf_match_spec in Em.
        rewrite bind_split, fmap_app, not_elem_of_app. split; [|by apply (other_entries p q k1 k2 ch (ALeaf l))].
        rewrite (leaf_entries _ _ _ Tc). simpl. intros ?%list_elem_of_singleton. congruence.
    + destruct (IH ch _ Hc k) as (r & Er & Hrm); [rewrite !length_app; simpl; lia|lia|].
      rewrite !length_app in Er. cbn [length] in Er. rewrite Nat.add_assoc in Er. rewrite Er. cbn [mbind option_bind].
      rewrite assign_ok by (by eapply lookup_lt_Some). cbn [mbind option_bind]. eexists. split; [done|].
      eapply remove_below; try done. by eapply inner_entries.
Qed.

(** ** Iteration *)

(** The byte order of keys, that of [memcmp] on keys none of which continues another. *)
Definition key_lt (k k' : list Z) : Prop :=
  exists x a b r r', k = x ++ a :: r /\ k' = x ++ b :: r' /\ a < b.

Lemma tree_sorted p n es : tree p n es -> StronglySorted key_lt es.*1.
Proof.
  induction 1 as [p l rest E Hk|p q type h keys children ks es L Hm Hp Hkids IH]; [by repeat constructor|].
  destruct (lay_kids _ _ _ _ _ L) as [Hs _]. clear L Hm.
  induction ks as [|[b c] ks IHks]; [constructor|].
  rewrite fmap_cons, bind_cons, fmap_app. simpl in Hs. apply StronglySorted_inv in Hs as [Hs Hb].
  apply StronglySorted_app_2.
  - intros k k' ([k1 v1] & -> & H1)%list_elem_of_fmap ([k2 v2] & -> & H2)%list_elem_of_fmap. simpl.
    destruct (tree_kid _ _ _ _ _ _ _ (Hkids b c ltac:(left)) H1) as [r1 ->].
    destruct (entry_below p q ks es k2 v2) as (b2 & c2 & r2 & Hc2 & _ & ->); [|done|].
    { intros; apply Hkids; by right. }
    exists (p ++ q), b, b2, r1, r2. rewrite <- !app_assoc. split; [done|]. split; [done|].
    rewrite Forall_forall in Hb. apply Hb, elem_of_fst. eauto.
  - by apply (IH b c ltac:(left)).
  - apply IHks; [intros; apply Hkids; by right|intros b' c' Hc'; apply (IH b' c'); by right|done].
Qed.

(** Calling [cb] on the entries in order until it answers non-zero. *)
Fixpoint run_cb {A} (cb : A -> list Z -> V -> A * Z) es (data : A) : A * Z :=
  match es with
  | [] => (data, 0)
  | (k, v) :: es => let r := cb data k v in if negb (r.2 =? 0) then r else run_cb cb es r.1
  end.

Lemma run_cb_app {A} (cb : A -> list Z -> V -> A * Z) es es' (data : A) :
  run_cb cb (es ++ es') data =
    let r := run_cb cb es data in if negb (r.2 =? 0) then r else run_cb cb es' r.1.
Proof.
  revert data. induction es as [|[k v] es IH]; intros data; [done|]. simpl.
  destruct (cb data k v) as [d z]. simpl. destruct (z =? 0) eqn:E; simpl; [apply IH|by rewrite E].
Qed.

Lemma iterate_spec {A} (cb : A -> list Z -> V -> A * Z) p n es (k : nat) (data : A) :
  tree p n es -> (height n <= S k)%nat -> art_node_iterate k cb (Some n) data = Some (run_cb cb es data).
Proof.
  intros T. revert k data. induction T as [p l rest E Hk|p q type h keys children ks es L Hm Hp Hkids IH]; intros k data Hh.
  - assert (art_node_iterate k cb (Some (ALeaf l)) data = Some (cb data (l_key l) (l_value l))) as -> by (by destruct k).
    simpl. destruct (cb data (l_key l) (l_value l)) as [d z]. simpl. by destruct (Z.eqb_spec z 0) as [->|].
  - destruct (kids_cons _ _ Hm) as (b0 & c0 & ks' & Eks). assert ((b0, c0) ∈ ks) as Hc0 by (rewrite Eks; left).
    pose proof (kid_height _ _ _ _ _ _ _ L Hc0). pose proof (height_pos c0). destruct k as [|k]; [lia|].
    cbn [art_node_iterate]. rewrite (child_list_spec _ _ _ _ _ L). cbn [mbind option_bind].
    assert (Hv : forall b c d, (b, c) ∈ ks -> art_node_iterate k cb (Some c) d = Some (run_cb cb (es b) d)).
    { intros b c d Hc. apply (IH b c Hc). pose proof (kid_height _ _ _ _ _ _ _ L Hc). lia. }
    clear -Hv. revert data. induction ks as [|[b c] ks IHks]; intros data; [done|].
    rewrite !fmap_cons, bind_cons, run_cb_app. cbn [visit_children fst snd].
    rewrite (Hv b c) by left. cbn [mbind option_bind]. destruct (run_cb cb (es b) data) as [d z]. simpl.
    destruct (z =? 0); simpl; [|done]. apply IHks. intros. apply Hv. by right.
Qed.

Lemma destroy_spec p n es (k : nat) :
  tree p n es -> (height n <= S k)%nat -> destroy_art_node k (Some n) = Some es.*2.
Proof.
  intros T. revert k. induction T as [p l rest E Hk|p q type h keys children ks es L Hm Hp Hkids IH]; intros k Hh.
  - by destruct k.
  - destruct (kids_cons _ _ Hm) as (b0 & c0 & ks' & Eks). assert ((b0, c0) ∈ ks) as Hc0 by (rewrite Eks; left).
    pose proof (kid_height _ _ _ _ _ _ _ L Hc0). pose proof (height_pos c0). destruct k as [|k]; [lia|].
    cbn [destroy_art_node]. rewrite (child_list_spec _ _ _ _ _ L). cbn [mbind option_bind].
    assert (Hv : forall b c, (b, c) ∈ ks -> destroy_art_node k (Some c) = Some (es b).*2).
    { intros b c Hc. apply (IH b c Hc). pose proof (kid_height _ _ _ _ _ _ _ L Hc). lia. }
    clear -Hv. induction ks as [|[b c] ks IHks]; [done|].
    rewrite !fmap_cons, bind_cons, fmap_app. cbn [destroy_children fst snd]. rewrite (Hv b c) by left.
    cbn [mbind option_bind]. rewrite IHks by (intros; apply Hv; by right). done.
Qed.

(** ** Prefix search *)

Definition matches (key : list Z) es : list (list Z * V) := filter (fun e => take (length key) e.1 = key) es.

Lemma matches_app (key : list Z) es es' : matches key (es ++ es') = matches key es ++ matches key es'.
Proof. apply filter_app. Qed.

Lemma matches_none (key : list Z) es :
  (forall k v, (k, v) ∈ es -> take (length key) k <> key) -> matches key es = [].
Proof.
  intros H. destruct (matches key es) as [|[k v] m] eqn:E; [done|].
  assert ((k, v) ∈ matches key es) as [H1 H2]%list_elem_of_filter by (rewrite E; left).
  by apply H in H2.
Qed.

Lemma matches_all (key : list Z) es :
  (forall k v, (k, v) ∈ es -> take (length key) k = key) -> matches key es = es.
Proof.
  intros H. unfold matches. induction es as [|[k v] es IH]; [done|]. rewrite filter_cons, decide_True by (apply (H k v); left).
  f_equal. apply IH. intros. apply (H _ v0). by right.
Qed.

Lemma run_prefix_cb (m : Z) es (ms : list (list Z)) :
  0 <= m -> (length ms <= Z.to_nat m)%nat ->
  (run_cb (prefix_search_cb m) es ms).1 = take (Z.to_nat m) (ms ++ es.*1).
Proof.
  intros Hm. revert ms. induction es as [|[k v] es IH]; intros ms Hl; simpl.
  - rewrite app_nil_r. by rewrite take_ge by lia.
  - destruct (prefix_search_cb m ms k v) as [ms' z] eqn:E. unfold prefix_search_cb in E.
    destruct (Z.leb_spec m (Z.of_nat (length ms))); simplify_eq/=.
    + by rewrite take_app_length' by lia.
    + rewrite IH by (rewrite length_app; simpl; lia). by rewrite <- app_assoc.
Qed.

Lemma leaf_has_prefix_spec (l : art_leaf V) (key : list Z) :
  leaf_has_prefix l key = true <-> take (length key) (l_key l) = key.
Proof.
  unfold leaf_has_prefix. rewrite andb_true_iff, bool_decide_eq_true, Nat.leb_le. split; [tauto|].
  intros E. split; [|done]. apply (f_equal length) in E. rewrite length_take in E. lia.
Qed.

(** Only the child at the byte of the prefix has entries with it. *)
Lemma matches_child p (q key : list Z) ks (es : Z -> list (list Z * V)) (ch : Z) :
  StronglySorted Z.lt ks.*1 -> (forall b c, (b, c) ∈ ks -> tree (p ++ q ++ [b]) c (es b)) ->
  key !! (length p + length q)%nat = Some ch ->
  matches key (ks.*1 ≫= es) = if decide (ch ∈ ks.*1) then matches key (es ch) else [].
Proof.
  intros Hs Hkids Hch. induction ks as [|[b c] ks IH]; [done|].
  rewrite fmap_cons, bind_cons, matches_app. simpl in Hs |- *. apply StronglySorted_inv in Hs as [Hs Hb].
  rewrite Forall_forall in Hb. rewrite IH by (try done; intros; apply Hkids; by right).
  assert (Hother : b <> ch -> matches key (es b) = []).
  { intros Hne. apply matches_none. intros k v Hin E.
    destruct (tree_kid _ _ _ _ _ _ _ (Hkids b c ltac:(left)) Hin) as [r ->].
    rewrite <- E in Hch. apply lookup_take_Some in Hch as [Hch _]. rewrite lookup_path in Hch. congruence. }
  destruct (decide (b = ch)) as [->|Hne].
  - rewrite (decide_True _ _ (P := ch ∈ ch :: ks.*1)) by left.
    rewrite decide_False; [by rewrite app_nil_r|]. intros Hin. apply Hb in Hin. lia.
  - rewrite Hother by done. simpl. apply decide_ext. rewrite elem_of_cons. split; [by right|intros [|]; done].
Qed.

(** A prefix that an inner node contradicts is not that of an entry below it. *)
Lemma prefix_mismatch p (q key r : list Z) :
  (Nat.min MAX_PREFIX_LEN (lcp q (drop (length p) key)) < Nat.min (length q) MAX_PREFIX_LEN)%nat ->
  (length p + Nat.min MAX_PREFIX_LEN (lcp q (drop (length p) key)) < length key)%nat ->
  take (length key) (p ++ q ++ r) <> key.
Proof.
  intros H1 H2 Et. pose proof (f_equal (drop (length p)) Et) as Ed.
  rewrite skipn_firstn_comm, drop_app_length in Ed.
  assert (Hl : lcp q (drop (length p) key) = Nat.min (length key - length p) (length q)); [|lia].
  rewrite <- Ed, lcp_comm, lcp_take_l. rewrite <- (app_nil_r q) at 2. rewrite lcp_app, (lcp_comm r []). simpl lcp. lia.
Qed.

Lemma take_path (key p q r r' : list Z) :
  (length key <= length p + length q)%nat -> take (length key) (p ++ q ++ r) = take (length key) (p ++ q ++ r').
Proof. intros H. rewrite !app_assoc. by rewrite !(take_app_le (p ++ q)) by (rewrite length_app; lia). Qed.

Lemma prefix_loop_spec p n es (k : nat) (key : list Z) (m : Z) :
  tree p n es -> Forall is_byte key -> (length p <= length key)%nat -> (height n <= S k)%nat -> 0 < m ->
  prefix_loop k (Some n) (length p) key m = Some (take (Z.to_nat m) (matches key es).*1).
Proof.
  intros T Hkey Hlen Hh Hm. revert k Hlen Hh.
  induction T as [p l rest E Hk|p q type h keys children ks es L Hmin Hp Hkids IH]; intros k Hlen Hh.
  - assert (prefix_loop k (Some (ALeaf l)) (length p) key m =
      Some (if leaf_has_prefix l key then (prefix_search_cb m [] (l_key l) (l_value l)).1 else [])) as -> by (by destruct k).
    f_equal. unfold matches. rewrite filter_cons. simpl fst. unfold prefix_search_cb. rewrite (proj2 (Z.leb_gt _ _)) by (simpl; lia).
    destruct (leaf_has_prefix l key) eqn:Ep.
    + rewrite decide_True by (by apply leaf_has_prefix_spec). simpl. by rewrite take_ge by (simpl; lia).
    + rewrite decide_False; [by destruct (Z.to_nat m)|]. intros Hx%leaf_has_prefix_spec. congruence.
  - assert (T : tree p (AInner type h keys children) (ks.*1 ≫= es)) by (by apply tree_inner with (q := q)).
    destruct (kids_cons _ _ Hmin) as (b0 & c0 & ks' & Eks). assert ((b0, c0) ∈ ks) as Hc0 by (rewrite Eks; left).
    pose proof (kid_height _ _ _ _ _ _ _ L Hc0). pose proof (height_pos c0). destruct k as [|k]; [lia|].
    assert (Hes : forall k' v', (k', v') ∈ ks.*1 ≫= es -> exists b rest, k' = p ++ q ++ b :: rest).
    { intros k' v' Hin. destruct (entry_below _ _ _ _ _ _ Hkids Hin) as (b & _ & r' & _ & _ & ->). eauto. }
    cbn [prefix_loop]. rewrite (check_prefix_partial_spec h q) by done. cbn [mbind option_bind].
    pose proof Hp as (-> & _ & _). case_if.
    { apply andb_true_iff in E as [E1%Nat.ltb_lt E2%Nat.ltb_lt].
      rewrite matches_none; [by destruct (Z.to_nat m)|]. intros k' v' (b & rest & ->)%Hes. by apply prefix_mismatch. }
    clear E. destruct (Nat.leb_spec (length key) (length p + length q)) as [Hle|Hgt].
    + destruct (tree_first _ _ _ T) as (mk & mv & e' & Ee). rewrite (get_minimum_spec _ _ _ _ _ _ T Ee).
      destruct (Hes mk mv) as (b & rest & Emk); [rewrite Ee; left|]. cbn [mbind option_bind].
      destruct (leaf_has_prefix (Leaf mv mk) key) eqn:Ep.
      * apply leaf_has_prefix_spec in Ep. simpl in Ep. rewrite matches_all.
        2:{ intros k' v' (b' & rest' & ->)%Hes. rewrite <- Ep at 2. rewrite Emk. by apply take_path. }
        rewrite (iterate_spec _ _ _ _ _ _ T) by lia. cbn [mbind option_bind]. by rewrite run_prefix_cb by (simpl; lia).
      * rewrite matches_none; [by destruct (Z.to_nat m)|]. intros k' v' (b' & rest' & ->)%Hes E'.
        apply not_true_iff_false in Ep. apply Ep, leaf_has_prefix_spec. simpl. rewrite <- E' at 2. rewrite Emk. by apply take_path.
    + destruct (lookup_lt_is_Some_2 key (length p + length q)) as [ch Hch]; [lia|]. rewrite Hch. cbn [mbind option_bind].
      destruct (get_child_spec type h keys children ks ch L) as (r & -> & Hr).
      { rewrite Forall_forall in Hkey. by eapply Hkey, list_elem_of_lookup_2. }
      cbn [mbind option_bind]. rewrite (matches_child p q) with (ch := ch); [|apply L|done..].
      destruct r as [slot|]; [destruct Hr as [(c & Hc & ->)|(_ & _ & Hn & ->)]|]; cbn [mbind option_bind].
      * rewrite decide_True by (apply elem_of_fst; eauto). pose proof (kid_height _ _ _ _ _ _ _ L Hc).
        rewrite <- (IH ch c Hc k); [|rewrite !length_app; simpl; lia|lia]. f_equal. rewrite !length_app. simpl. lia.
      * rewrite decide_False by done. destruct k; by destruct (Z.to_nat m).
      * rewrite decide_False by done. by destruct (Z.to_nat m).
Qed.

(** ** The iterator *)

(** The nodes of the queue and the entries below them. *)
Definition queue_ok (q : list (option (art_node V))) (ess : list (list (list Z * V))) : Prop :=
  Forall2 (fun o es => exists p n, o = Some n /\ tree p n es) q ess.

(** More than the rounds the queue can need. *)
Definition rounds (ess : list (list (list Z * V))) : nat := sum_list_with (fun es => 2 * length es - 1)%nat ess.

Lemma rounds_cons es (ess : list (list (list Z * V))) : rounds (es :: ess) = (2 * length es - 1 + rounds ess)%nat.
Proof. done. Qed.

Lemma rounds_app (a b : list (list (list Z * V))) : rounds (a ++ b) = (rounds a + rounds b)%nat.
Proof. apply sum_list_with_app. Qed.

Lemma rounds_le (ess : list (list (list Z * V))) : (rounds ess <= 2 * length (mjoin ess))%nat.
Proof.
  induction ess as [|e ess IH]; [done|]. rewrite rounds_cons.
  change (mjoin (e :: ess)) with (e ++ mjoin ess). rewrite length_app. lia.
Qed.

Lemma kids_queue p (q : list Z) ks (es : Z -> list (list Z * V)) :
  (forall b c, (b, c) ∈ ks -> tree (p ++ q ++ [b]) c (es b)) ->
  queue_ok (Some <$> ks.*2) (es <$> ks.*1) /\ mjoin (es <$> ks.*1) = ks.*1 ≫= es /\
  (rounds (es <$> ks.*1) + length ks = 2 * length (ks.*1 ≫= es))%nat.
Proof.
  intros Hkids. induction ks as [|[b c] ks IH]; [by repeat constructor|].
  destruct IH as (H1 & H2 & H3); [intros; apply Hkids; by right|].
  rewrite !fmap_cons, bind_cons, rounds_cons, length_app. cbn [fst snd length]. split; [|split].
  - constructor; [|done]. exists (p ++ q ++ [b]), c. split; [done|]. apply Hkids. left.
  - rewrite <- H2. done.
  - destruct (tree_first _ _ _ (Hkids b c ltac:(left))) as (k & v & e & ->). cbn [length]. lia.
Qed.

Lemma next_loop_spec (k : nat) (q : list (option (art_node V))) (ess : list (list (list Z * V))) :
  queue_ok q ess -> (rounds ess <= k)%nat -> ess <> [] ->
  exists q' ess' l, next_loop k q = Some (q', Some l) /\ queue_ok q' ess' /\
    mjoin ess ≡ₚ (l_key l, l_value l) :: mjoin ess'.
Proof.
  revert q ess. induction k as [|k IH]; intros q ess Hq Hr Hne.
  - destruct Hq as [|? es q ess (p & n & -> & T) Hq]; [done|].
    destruct (tree_first _ _ _ T) as (k & v & e & ->). rewrite rounds_cons in Hr. cbn [length] in Hr. lia.
  - destruct Hq as [|? es q ess (p & n & -> & T) Hq]; [done|]. cbn [next_loop mbind option_bind].
    inversion T as [? l rest E Hk|? qq type h keys children ks es' L Hm Hp Hkids]; subst.
    + exists q, ess, l. done.
    + rewrite (child_list_spec _ _ _ _ _ L). cbn [mbind option_bind].
      destruct (kids_queue p qq ks es' Hkids) as (H1 & H2 & H3).
      assert (2 <= min_children type)%nat by (destruct type; simpl; lia).
      destruct (IH (q ++ (Some <$> ks.*2)) (ess ++ (es' <$> ks.*1))) as (q' & ess' & l & E & Hq' & P).
      * by apply Forall2_app.
      * rewrite rounds_cons in Hr. rewrite rounds_app. lia.
      * destruct (kids_cons _ _ Hm) as (b & c & ks' & ->). by destruct ess.
      * exists q', ess', l. split; [done|]. split; [done|]. rewrite <- P, join_app, H2.
        rewrite Permutation_app_comm. done.
Qed.

(** ** The finite map *)

(** The tree [t] stands for the map [m]; [es] lists its entries in order. *)
Definition contents (t : art V) es : Prop :=
  match root t with None => es = [] | Some n => tree [] n es end /\ art_size t = u64 (Z.of_nat (length es)).

Definition denotes (t : art V) (m : gmap (list Z) V) : Prop := exists es, contents t es /\ m = list_to_map es.

Lemma key_lt_irrefl (k : list Z) : ~ key_lt k k.
Proof. intros (x & a & b & r & r' & E1 & E2 & H). rewrite E1 in E2. simplify_list_eq. lia. Qed.

Lemma contents_sorted (t : art V) es : contents t es -> StronglySorted key_lt es.*1.
Proof. intros [H _]. destruct (root t); [by eapply tree_sorted|]. subst. constructor. Qed.

Lemma contents_nodup (t : art V) es : contents t es -> NoDup es.*1.
Proof.
  intros Hs%contents_sorted. induction Hs as [|x l Hs IH Hx]; constructor; [|done].
  rewrite Forall_forall in Hx. intros Hin. by apply Hx, key_lt_irrefl in Hin.
Qed.

Lemma contents_key (t : art V) es (k : list Z) (v : V) : contents t es -> (k, v) ∈ es -> key_ok k.
Proof.
  intros [H _] Hin. destruct (root t); [by eapply tree_prefix|]. subst. by apply not_elem_of_nil in Hin.
Qed.

Lemma create_denotes : denotes art_create ∅.
Proof. by exists []. Qed.

Lemma updated_map (key : list Z) (v : V) es old es' :
  NoDup es.*1 -> updated key v es old es' ->
  (list_to_map es : gmap (list Z) V) !! key = old /\
  (list_to_map es' : gmap (list Z) V) = <[key := v]> (list_to_map es).
Proof.
  intros Hnd (rest & P & P' & Hn).
  assert (NoDup (rest.*1)) as Hr.
  { rewrite P in Hnd. destruct old; simpl in Hnd; [by apply NoDup_cons in Hnd as [_ ?]|done]. }
  rewrite (list_to_map_proper es _ Hnd P).
  rewrite (list_to_map_proper es' ((key, v) :: rest)); [|rewrite P'; by constructor|done].
  destruct old as [o|]; simpl.
  - by rewrite lookup_insert_eq, insert_insert_eq.
  - split; [by apply not_elem_of_list_to_map_1|done].
Qed.

Lemma updated_length (key : list Z) (v : V) es old es' :
  updated key v es old es' -> length es' = (if is_new old then S (length es) else length es).
Proof.
  intros (rest & P & P' & _). rewrite (Permutation_length P), (Permutation_length P'). by destruct old.
Qed.

Lemma tree_insert_refines (t : art V) (m : gmap (list Z) V) (key : list Z) (v : V) :
  denotes t m -> key_ok key ->
  exists t', tree_insert t key v = Some (t', m !! key) /\ denotes t' (<[key := v]> m).
Proof.
  intros (es & C & ->) Hk. pose proof (contents_nodup _ _ C) as Hnd. destruct C as [T Hs].
  unfold tree_insert, root_height. destruct (root t) as [n|].
  - destruct (insert_spec [] n es (height n) key v T Hk ltac:(lia)) as (n' & old & es' & E & T' & U).
    cbn [app length] in *. rewrite E. cbn [mbind option_bind i_node i_new i_old].
    destruct (updated_map _ _ _ _ _ Hnd U) as [-> ?]. eexists. split; [done|]. exists es'. split; [|done].
    split; [done|]. simpl. rewrite (updated_length _ _ _ _ _ U), Hs. destruct (is_new old); [|done].
    rewrite wrapu_add_l. f_equal. lia.
  - subst es. simpl in Hs |- *. eexists. split; [done|]. exists [(key, v)]. split; [|done]. split.
    + by apply (tree_leaf [] (Leaf v key) key).
    + simpl. by rewrite Hs.
Qed.

Lemma tree_delete_refines (t : art V) (m : gmap (list Z) V) (key : list Z) :
  denotes t m -> key_ok key ->
  exists t', tree_delete t key = Some (t', m !! key) /\ denotes t' (delete key m).
Proof.
  intros (es & C & ->) Hk. pose proof (contents_nodup _ _ C) as Hnd. pose proof C as [T Hs].
  unfold tree_delete, root_height. destruct (root t) as [n|] eqn:Er.
  2:{ subst es. simpl. eexists. split; [done|]. exists []. by rewrite delete_empty. }
  destruct (delete_spec [] n es (height n) key T Hk ltac:(simpl; lia) ltac:(lia)) as ([n' [l|]] & E & Hrm);
    simpl in E; rewrite E; cbn [mbind option_bind fst snd]; unfold removed in Hrm; cbn [fst snd] in Hrm.
  - destruct Hrm as (es' & P & Hn & T'). assert (NoDup es'.*1) as Hnd' by (rewrite P in Hnd; by apply NoDup_cons in Hnd as [_ ?]).
    rewrite (list_to_map_proper es _ Hnd P). cbn [list_to_map foldr uncurry fst snd]. rewrite lookup_insert_eq. eexists. split; [done|].
    exists es'. rewrite delete_insert_id by (by apply not_elem_of_list_to_map_1). split; [|done].
    split; [by destruct n'|]. simpl. rewrite Hs, P. simpl. rewrite <- Z.add_opp_r, wrapu_add_l. f_equal. lia.
  - destruct Hrm as [-> Hn]. rewrite not_elem_of_list_to_map_1 by done. eexists. split; [done|].
    exists es. rewrite delete_id by (by apply not_elem_of_list_to_map_1). split; [|done]. by split.
Qed.

Lemma art_search_refines (t : art V) (m : gmap (list Z) V) (key : list Z) :
  denotes t m -> key_ok key -> art_search t key = Some (m !! key).
Proof.
  intros (es & C & ->) Hk. pose proof (contents_nodup _ _ C) as Hnd. destruct C as [T _].
  unfold art_search, root_height. destruct (root t) as [n|]; [|by subst].
  destruct (search_spec [] n es (height n) key T Hk ltac:(simpl; lia) ltac:(lia)) as (r & E & Hr).
  simpl in E. rewrite E. f_equal. apply option_eq. intros v. rewrite Hr. by apply elem_of_list_to_map.
Qed.

Lemma art_iterate_contents {A} (t : art V) es (cb : A -> list Z -> V -> A * Z) (data : A) :
  contents t es -> art_iterate t cb data = Some (run_cb cb es data).
Proof.
  intros [T _]. unfold art_iterate, root_height. destruct (root t) as [n|]; [|by subst].
  eapply iterate_spec; [done|lia].
Qed.

Lemma prefix_search_contents (t : art V) es (key : list Z) (m : Z) :
  contents t es -> es <> [] -> Forall is_byte key -> 0 < m ->
  tree_prefix_search t key m =
    Some (Z.of_nat (length (take (Z.to_nat m) (matches key es).*1)), take (Z.to_nat m) (matches key es).*1).
Proof.
  intros C Hne Hkey Hm. pose proof C as [T _]. unfold tree_prefix_search, root_height.
  destruct (root t) as [n|] eqn:Er; [|by subst]. rewrite (proj2 (Z.leb_gt _ _)) by lia.
  destruct (Nat.eqb_spec (length key) 0) as [E|E].
  - rewrite (art_iterate_contents _ _ _ _ C). cbn [mbind option_bind].
    rewrite run_prefix_cb by (simpl; lia). destruct key; [|done]. rewrite matches_all by done. done.
  - rewrite (prefix_loop_spec [] n es _ key m T Hkey) by (simpl; lia). done.
Qed.

(** Calling [pgagroal_art_iterator_next] until it answers false. *)
Fixpoint drain (k : nat) (it : art_iterator V) : option (list (list Z * V)) :=
  match k with
  | O => None
  | S k =>
      r ← art_iterator_next it;
      if (r.1 : bool) then
        l ← it_entry r.2;
        ls ← drain k r.2;
        Some ((l_key l, l_value l) :: ls)
      else Some []
  end.

Lemma drain_spec (t : art V) es (k : nat) (it : art_iterator V) ess (cnt : nat) :
  contents t es -> Z.of_nat (length es) < 2 ^ 32 -> it_tree it = t -> it_count it = Z.of_nat cnt ->
  (cnt + length (mjoin ess) = length es)%nat -> (length (mjoin ess) < k)%nat ->
  (cnt = O -> it_que it = [] /\ match root t with None => ess = [] | Some n => exists e, ess = [e] /\ tree [] n e end) ->
  (cnt <> O -> queue_ok (it_que it) ess) ->
  exists ls, drain k it = Some ls /\ ls ≡ₚ mjoin ess.
Proof.
  intros C Hmax. revert it ess cnt. induction k as [|k IH]; intros it ess cnt Ht Hc Hcnt Hk H0 H1; [lia|].
  assert (Hsize : art_size (it_tree it) = Z.of_nat (length es)).
  { rewrite Ht. destruct C as [_ ->]. apply wrapu_id. unfold in_u. lia. }
  cbn [drain]. unfold art_iterator_next. rewrite Hsize, Hc.
  destruct (Z.eqb_spec (Z.of_nat cnt) (Z.of_nat (length es))) as [E|E].
  { cbn [mbind option_bind fst]. exists []. split; [done|]. destruct (mjoin ess); [done|simpl in *; lia]. }
  assert (Hne : ess <> []) by (intros ->; simpl in *; lia).
  set (q := if Z.of_nat cnt =? 0 then it_que it ++ [root (it_tree it)] else it_que it).
  assert (Hq : queue_ok q ess).
  { unfold q. destruct (Z.eqb_spec (Z.of_nat cnt) 0) as [Ez|Ez]; [|apply H1; lia].
    destruct (H0 ltac:(lia)) as [-> Hroot]. rewrite Ht. destruct (root t) as [n|]; [|done].
    destruct Hroot as (e & -> & T). constructor; [|constructor]. exists [], n. done. }
  destruct (next_loop_spec (2 * Z.to_nat (Z.of_nat (length es))) q ess Hq) as (q' & ess' & l & -> & Hq' & P);
    [pose proof (rounds_le ess); lia|done|].
  cbn [mbind option_bind fst snd]. cbn [it_entry mbind option_bind].
  pose proof (Permutation_length P) as Pl. simpl in Pl.
  destruct (IH (Iterator q' (it_tree it) (u32 (Z.of_nat cnt + 1)) (Some l)) ess' (S cnt)) as (ls & -> & Pls); simpl; try done.
  - rewrite wrapu_id by (unfold in_u; lia). lia.
  - lia.
  - lia.
  - cbn [mbind option_bind]. eexists. split; [done|]. by rewrite Pls, P.
Qed.
End trees.
