(* ===== verification/ArtMap.v ===== *)
(** * The interface of the radix tree

    The functions of [art.h], against finite maps from the bytes of a C string to values. *)

From stdpp Require Import sorting.
From S2P Require Import Prelude Text Value Art ArtNode ArtFacts.

Local Open Scope Z_scope.

Lemma c_key_ok (s : string) : key_ok (c_key s).
Proof.
  induction s as [|c s IH]; simpl; [by exists []|].
  pose proof (code_range c). destruct (Z.eqb_spec (code c) 0); [by exists []|].
  destruct IH as (b & -> & Hb). exists (code c :: b). split; [done|]. constructor; [lia|done].
Qed.

Lemma c_bytes_ok (s : string) : Forall is_byte (c_bytes s) /\ c_key s = c_bytes s ++ [0].
Proof.
  destruct (c_key_ok s) as (b & E & Hb). unfold c_bytes. rewrite E, removelast_last. split; [|done].
  eapply Forall_impl; [done|]. unfold is_byte. simpl. lia.
Qed.

(** ** Sequences of operations *)

Inductive art_op :=
| OpInsert (key : string) (data : payload) (type : value_type)
| OpInsertConfig (key : string) (data : payload) (config : option value_config)
| OpDelete (key : string)
| OpSearch (key : string)
| OpContains (key : string).

(** What a caller sees: a status with the value that was destroyed, or what was found. *)
Inductive art_answer :=
| Status (status : Z) (destroyed : option value)
| Found (data : payload) (type : option value_type)
| Contained (b : bool).

Definition status_of (r : Z * option (art value) * option value) : option (art value) * art_answer :=
  (r.1.2, Status r.1.1 r.2).

Definition art_run_op (t : option (art value)) (op : art_op) : option (option (art value) * art_answer) :=
  match op with
  | OpInsert key data type => status_of <$> pgagroal_art_insert t (Some key) data type
  | OpInsertConfig key data config => status_of <$> pgagroal_art_insert_with_config t (Some key) data config
  | OpDelete key => status_of <$> pgagroal_art_delete t (Some key)
  | OpSearch key => r ← pgagroal_art_search_typed t (Some key); Some (t, Found r.1 r.2)
  | OpContains key => b ← pgagroal_art_contains_key t (Some key); Some (t, Contained b)
  end.

Fixpoint art_run (t : option (art value)) (ops : list art_op) : option (option (art value) * list art_answer) :=
  match ops with
  | [] => Some (t, [])
  | op :: ops => r ← art_run_op t op; rs ← art_run r.1 ops; Some (rs.1, r.2 :: rs.2)
  end.

(** The same operations on a finite map. *)
Definition map_run_op (m : gmap (list Z) value) (op : art_op) : gmap (list Z) value * art_answer :=
  match op with
  | OpInsert key data type =>
      if bool_decide (type = ValueNone) then (m, Status 1 None)
      else (<[c_key key := value_create type data]> m, Status 0 (m !! c_key key))
  | OpInsertConfig key data config =>
      (<[c_key key := value_create_with_config data config]> m, Status 0 (m !! c_key key))
  | OpDelete key => (delete (c_key key) m, Status 0 (m !! c_key key))
  | OpSearch key => (m, Found (value_data (m !! c_key key)) (Some (value_type_of (m !! c_key key))))
  | OpContains key => (m, Contained (bool_decide (is_Some (m !! c_key key))))
  end.

Fixpoint map_run (m : gmap (list Z) value) (ops : list art_op) : gmap (list Z) value * list art_answer :=
  match ops with
  | [] => (m, [])
  | op :: ops => let r := map_run_op m op in let rs := map_run r.1 ops in (rs.1, r.2 :: rs.2)
  end.

Lemma art_run_op_refines (t : art value) (m : gmap (list Z) value) (op : art_op) :
  denotes t m ->
  exists t', art_run_op (Some t) op = Some (Some t', (map_run_op m op).2) /\ denotes t' (map_run_op m op).1.
Proof.
  intros D. destruct op as [key data type|key data config|key|key|key]; simpl.
  - destruct (bool_decide (type = ValueNone)); [eauto|].
    destruct (tree_insert_refines t m _ (value_create type data) D (c_key_ok key)) as (t' & -> & D'). eauto.
  - destruct (tree_insert_refines t m _ (value_create_with_config data config) D (c_key_ok key)) as (t' & -> & D'). eauto.
  - destruct (tree_delete_refines t m _ D (c_key_ok key)) as (t' & -> & D'). eauto.
  - rewrite (art_search_refines t m _ D (c_key_ok key)). simpl. eauto.
  - unfold pgagroal_art_contains_key, art_lookup. rewrite (art_search_refines t m _ D (c_key_ok key)). simpl.
    exists t. split; [|done]. do 3 f_equal. by destruct (m !! c_key key).
Qed.

Lemma art_run_refines (ops : list art_op) (t : art value) (m : gmap (list Z) value) :
  denotes t m ->
  exists t', art_run (Some t) ops = Some (Some t', (map_run m ops).2) /\ denotes t' (map_run m ops).1.
Proof.
  revert t m. induction ops as [|op ops IH]; intros t m D; [by exists t|].
  destruct (art_run_op_refines t m op D) as (t1 & E1 & D1).
  destruct (IH t1 _ D1) as (t2 & E2 & D2). exists t2. split; [|done].
  cbn [art_run]. rewrite E1. cbn [mbind option_bind fst snd]. by rewrite E2.
Qed.

(** C20: a tree on which any operations have been done never reads outside an array or
    through NULL, and answers them all (statuses, destroyed values, searches) the way a
    finite map from C strings to values does. *)
Theorem art_refines_map (ops : list art_op) :
  snd <$> art_run (Some art_create) ops = Some (map_run ∅ ops).2.
Proof. destruct (art_run_refines ops art_create ∅ create_denotes) as (t & -> & _). done. Qed.

(** ** The shape of the nodes *)

(** Every inner node has a number of children that its type has room for and for which
    no smaller type would do, and counts them modulo 256. *)
Inductive shaped {V} : art_node V -> Prop :=
| shaped_leaf l : shaped (ALeaf l)
| shaped_inner type h keys children ks :
    child_list type h keys children = Some (Some <$> ks) ->
    (min_children type <= length ks <= child_slots type)%nat ->
    num_children h = u8 (Z.of_nat (length ks)) ->
    length keys = key_slots type -> length children = child_slots type -> length (prefix h) = MAX_PREFIX_LEN ->
    (forall c, c ∈ ks -> shaped c) -> shaped (AInner type h keys children).

Lemma tree_shaped {V} (p : list Z) (n : art_node V) (es : list (list Z * V)) : tree p n es -> shaped n.
Proof.
  induction 1 as [|p q type h keys children ks es L Hm Hp Hkids IH]; [constructor|].
  apply shaped_inner with (ks := ks.*2).
  - by apply child_list_spec.
  - rewrite length_fmap. split; [done|apply L].
  - rewrite length_fmap. apply L.
  - destruct L as [_ _ _ Ha]. destruct type; simpl in *; try apply Ha. by destruct Ha as [-> _ _].
  - destruct L as [_ _ _ Ha]. destruct type; simpl in *; apply Ha.
  - apply Hp.
  - intros c ([b c'] & -> & Hc)%list_elem_of_fmap. by apply (IH b).
Qed.

(** C35: after any operations, every node of the tree has the arrays of its type, no fewer
    children than the type it would be replaced by allows and no more than it has room
    for, and an 8 bit counter that agrees with the children it really has. *)
Theorem art_nodes_shaped (ops : list art_op) (t : art value) (answers : list art_answer) (n : art_node value)
  (Hrun : art_run (Some art_create) ops = Some (Some t, answers)) (Hroot : root t = Some n) : shaped n.
Proof.
  destruct (art_run_refines ops art_create ∅ create_denotes) as (t' & E & es & [T _] & _).
  rewrite E in Hrun. simplify_eq. rewrite Hroot in T. by eapply tree_shaped.
Qed.

(** ** Iteration *)

Lemma denotes_contents {V : Type} (t : art V) (m : gmap (list Z) V) :
  denotes t m -> exists es, contents t es /\ es ≡ₚ map_to_list m /\ StronglySorted key_lt es.*1.
Proof.
  intros (es & C & ->). exists es. split; [done|]. split; [|by eapply contents_sorted].
  symmetry. apply map_to_list_to_map. by eapply contents_nodup.
Qed.

(** An iteration calls its callback on every entry exactly once, in the byte order of
    the keys, until the callback answers non-zero. *)
Theorem art_iterate_in_order {V A : Type} (t : art V) (m : gmap (list Z) V) (cb : A -> list Z -> V -> A * Z) (data : A)
  (Ht : denotes t m) :
  exists es, es ≡ₚ map_to_list m /\ StronglySorted key_lt es.*1 /\
    art_iterate t cb data = Some (run_cb cb es data).
Proof.
  destruct (denotes_contents t m Ht) as (es & C & P & S). exists es. split; [done|]. split; [done|].
  by apply art_iterate_contents.
Qed.

(** A prefix search in a tree that is not empty returns the first [max_matches] of the
    keys that start with the prefix, in byte order, and their number. *)
Theorem art_prefix_search_exact (t : art value) (m : gmap (list Z) value) (pre : string) (max_matches : Z)
  (Ht : denotes t m) (Hm : m <> ∅) (Hmax : 0 < max_matches) :
  exists ks, StronglySorted key_lt ks /\
    (forall k, k ∈ ks <-> is_Some (m !! k) /\ take (length (c_bytes pre)) k = c_bytes pre) /\
    pgagroal_art_prefix_search (Some t) (Some pre) max_matches =
      Some (Z.min max_matches (Z.of_nat (length ks)), take (Z.to_nat max_matches) ks).
Proof.
  destruct (denotes_contents t m Ht) as (es & C & P & S). exists (matches (c_bytes pre) es).*1.
  assert (es <> []) as Hne by (intros ->; apply Permutation_nil_l in P; symmetry in P; by apply map_to_list_empty_iff in P).
  split; [|split].
  - clear -S. unfold matches. induction es as [|e es IH]; [constructor|].
    simpl in S. apply StronglySorted_inv in S as [S He]. rewrite filter_cons. case_decide; [|by apply IH].
    constructor; [by apply IH|]. rewrite Forall_forall in *. intros k (e' & -> & Hin)%list_elem_of_fmap.
    apply list_elem_of_filter in Hin as [_ Hin]. apply He, list_elem_of_fmap. eauto.
  - intros k. rewrite list_elem_of_fmap. setoid_rewrite list_elem_of_filter. setoid_rewrite P. split.
    + intros ([k' v] & -> & Hk & Hin). simpl in *. apply elem_of_map_to_list in Hin. eauto.
    + intros [[v Hv] Hk]. exists (k, v). split; [done|]. split; [done|]. by apply elem_of_map_to_list.
  - simpl. rewrite (prefix_search_contents t es _ max_matches C Hne); [|apply c_bytes_ok|done].
    do 2 f_equal. rewrite length_take. lia.
Qed.

(** Draining an iterator over a tree of less than 2^32 entries visits every entry
    exactly once and then ends. *)
Theorem art_iterator_complete {V : Type} (t : art V) (m : gmap (list Z) V)
  (Ht : denotes t m) (Hsize : Z.of_nat (size m) < 2 ^ 32) :
  exists es, drain (S (size m)) (art_iterator_create t) = Some es /\ es ≡ₚ map_to_list m.
Proof.
  destruct (denotes_contents t m Ht) as (es & C & P & _).
  assert (length es = size m) as Hl by (rewrite P; apply length_map_to_list).
  destruct (drain_spec t es (S (size m)) (art_iterator_create t)
    (match root t with None => [] | Some _ => [es] end) 0) as (ls & E & Pls); try done; try lia.
  - destruct C as [T _]. destruct (root t); [simpl; rewrite app_nil_r; done|by subst].
  - destruct (root t); simpl; [rewrite app_nil_r|]; lia.
  - intros _. split; [done|]. destruct C as [T _]. destruct (root t); [|done]. eauto.
  - exists ls. split; [done|]. rewrite Pls, <- P. destruct C as [T _].
    destruct (root t); [simpl; by rewrite app_nil_r|by subst].
Qed.

(** Destroying a tree destroys the value of every entry exactly once. *)
Theorem art_destroy_exact (t : art value) (m : gmap (list Z) value) (Ht : denotes t m) :
  exists vs, pgagroal_art_destroy (Some t) = Some vs /\ vs ≡ₚ (map_to_list m).*2.
Proof.
  destruct (denotes_contents t m Ht) as (es & [T _] & P & _). exists es.*2. split; [|by rewrite P].
  simpl. unfold root_height. destruct (root t) as [n|]; [|by subst]. eapply destroy_spec; [done|lia].
Qed.

(** ** Examples *)

Definition sample_ops : list art_op :=
  [OpInsert "connections" (Word 3) ValueInt32; OpInsert "connection_timeout_in_seconds" (Word 30) ValueInt32;
   OpInsert "connection_timeout_in_minutes" (Word 0) ValueInt32; OpInsert "name" (Str (Some "pg")) ValueString;
   OpInsert "connections" (Word 4) ValueInt32; OpInsert "" (Word 1) ValueBool; OpDelete "name";
   OpInsert "host" (Str (Some "localhost")) ValueString].

Definition sample_art : art value :=
  match art_run (Some art_create) sample_ops with Some (Some t, _) => t | _ => art_create end.

Definition sample_map : gmap (list Z) value := (map_run ∅ sample_ops).1.

Lemma sample_denotes : denotes sample_art sample_map.
Proof.
  destruct (art_run_refines sample_ops art_create ∅ create_denotes) as (t & E & D).
  unfold sample_art, sample_map. by rewrite E.
Qed.

Lemma art_nodes_shaped_witness : exists n, root sample_art = Some n /\ shaped n.
Proof.
  destruct (root sample_art) as [n|] eqn:E; [|vm_compute in E; discriminate].
  exists n. split; [reflexivity|].
  apply (art_nodes_shaped sample_ops sample_art (map_run ∅ sample_ops).2 n); [vm_compute; reflexivity|exact E].
Defined.

Lemma art_iterate_in_order_witness :
  exists es, es ≡ₚ map_to_list sample_map /\ StronglySorted key_lt es.*1 /\
    art_iterate sample_art (fun n _ _ => (n + 1, if n =? 2 then 1 else 0)) 0 =
      Some (run_cb (fun n _ _ => (n + 1, if n =? 2 then 1 else 0)) es 0).
Proof. apply (art_iterate_in_order sample_art sample_map), sample_denotes. Defined.

Lemma art_prefix_search_exact_witness :
  exists ks, StronglySorted key_lt ks /\
    (forall k, k ∈ ks <-> is_Some (sample_map !! k) /\ take (length (c_bytes "connection_")) k = c_bytes "connection_") /\
    pgagroal_art_prefix_search (Some sample_art) (Some "connection_") 1 =
      Some (Z.min 1 (Z.of_nat (length ks)), take (Z.to_nat 1) ks).
Proof.
  apply (art_prefix_search_exact sample_art sample_map "connection_" 1).
  - apply sample_denotes.
  - intros E. apply (f_equal size) in E. vm_compute in E. discriminate.
  - lia.
Defined.

Lemma art_iterator_complete_witness :
  exists es, drain (S (size sample_map)) (art_iterator_create sample_art) = Some es /\ es ≡ₚ map_to_list sample_map.
Proof.
  apply (art_iterator_complete sample_art sample_map); [apply sample_denotes|]. vm_compute. reflexivity.
Defined.

Lemma art_destroy_exact_witness :
  exists vs, pgagroal_art_destroy (Some sample_art) = Some vs /\ vs ≡ₚ (map_to_list sample_map).*2.
Proof. apply (art_destroy_exact sample_art sample_map), sample_denotes. Defined.

(** ** Removal while iterating *)

Definition tree_of (ks : list string) : art Z :=
  fold_left (fun t k => match tree_insert t (c_key k) 0 with Some r => r.1 | None => t end) ks art_create.

(** The keys an iterator visits when the first of them is removed, in order. *)
Definition visits_after_removal (ks : list string) : option (list (list Z)) :=
  r ← art_iterator_next (art_iterator_create (tree_of ks));
  it ← art_iterator_remove r.2;
  ls ← drain (S (length ks)) it;
  Some ls.*1.

(** Removing the first entry sets the count of an iterator back to zero, so that the
    next call adds the root to the queue again: of the four entries that are left, one
    is visited twice and one not at all. *)
Theorem iterator_remove_repeats :
  visits_after_removal ["a"; "bcp1"; "bcp2"; "bd"; "y"] =
    Some (c_key <$> ["y"; "bd"; "y"; "bcp1"]).
Proof. vm_compute. reflexivity. Qed.
