(* ===== verification/Json.v ===== *)
(** * JSON documents ([libpgagroal/json.c])

    A document is a tree of values.  The radix tree of an item is the list of its
    entries in the order in which [art_iterate] visits them, which [ArtMap] shows to be
    that of the keys; [item_put], [item_get] and [item_delete] are its insertion, search
    and deletion, and [JsonFacts] shows that they are those of a map.  The deque of
    an array is the list of its values, as in [DequeFacts].

    The parser works on the rest of the text instead of an index into it.  Its loops
    take fuel; running out of it ([POut]) is distinguished from the error status of
    the code ([PErr]), and [JsonFacts] shows that it never happens.  The [to_string]
    functions are those of [value.c], [art.c] and [deque.c] on the types that a document
    may hold. *)

From stdpp Require Import pretty.
From Stdlib Require Import Ascii SpecFloat.
From S2P Require Import Prelude Text Value.

Local Open Scope Z_scope.

(** ** Documents *)

(** [struct value] with the data of a document: a word, a string or [struct json]. *)
Inductive jvalue :=
| VWord (type : value_type) (data : Z)
| VStr (type : value_type) (data : option string)
| VJson (o : json)
with json :=
| JSONUnknown
| JSONItem (elements : list (string * jvalue))
| JSONArray (elements : list jvalue).

Definition jtype (v : jvalue) : value_type :=
  match v with VWord t _ => t | VStr t _ => t | VJson _ => ValueJSON end.

Definition type_allowed (t : value_type) : bool :=
  match t with
  | ValueNone | ValueInt8 | ValueUInt8 | ValueInt16 | ValueUInt16 | ValueInt32 | ValueUInt32 | ValueInt64
  | ValueUInt64 | ValueBool | ValueString | ValueBASE64 | ValueFloat | ValueDouble | ValueJSON => true
  | _ => false
  end.

(** Insertion and deletion in the tree of an item. *)
Fixpoint item_put (key : string) (v : jvalue) (es : list (string * jvalue)) : list (string * jvalue) :=
  match es with
  | [] => [(key, v)]
  | (k, w) :: es' =>
      let c := strcmp key k in
      if c <? 0 then (key, v) :: es else if c =? 0 then (key, v) :: es' else (k, w) :: item_put key v es'
  end.

Fixpoint item_get (key : string) (es : list (string * jvalue)) : option jvalue :=
  match es with
  | [] => None
  | (k, w) :: es => if strcmp key k =? 0 then Some w else item_get key es
  end.

Fixpoint item_delete (key : string) (es : list (string * jvalue)) : list (string * jvalue) :=
  match es with
  | [] => []
  | (k, w) :: es => if strcmp key k =? 0 then es else (k, w) :: item_delete key es
  end.

(** [pgagroal_json_append]: the status and the object.  [pgagroal_deque_add] ignores a value without
    a type. *)
Definition json_append (array : json) (v : jvalue) : Z * json :=
  let array := match array with JSONUnknown => JSONArray [] | o => o end in
  match array with
  | JSONArray es =>
      if negb (type_allowed (jtype v)) then (1, array)
      else if bool_decide (jtype v = ValueNone) then (0, array)
      else (0, JSONArray (es ++ [v]))
  | _ => (1, array)
  end.

(** [pgagroal_json_put]. *)
Definition json_put (item : json) (key : option string) (v : jvalue) : Z * json :=
  let item := match item with JSONUnknown => JSONItem [] | o => o end in
  match item, key with
  | JSONItem es, Some key =>
      if negb (type_allowed (jtype v)) || (String.length key =? 0)%nat then (1, item)
      else if bool_decide (jtype v = ValueNone) then (1, item)
      else (0, JSONItem (item_put key v es))
  | _, _ => (1, item)
  end.

(** [pgagroal_json_remove]: an item that becomes empty may become an array later. *)
Definition json_remove (item : json) (key : option string) : Z * json :=
  match item, key with
  | JSONItem es, Some key =>
      if (String.length key =? 0)%nat then (1, item)
      else
        match es with
        | [] => (0, item)
        | _ => match item_delete key es with [] => (0, JSONUnknown) | es => (0, JSONItem es) end
        end
  | JSONUnknown, _ => (0, item)
  | _, _ => (1, item)
  end.

(** [pgagroal_json_clear]: an object that is unknown has no elements. *)
Definition json_clear (o : json) : Z * json :=
  match o with
  | JSONArray _ => (0, JSONArray [])
  | JSONItem _ => (0, JSONItem [])
  | JSONUnknown => (0, JSONUnknown)
  end.

Definition json_array_length (o : json) : Z :=
  match o with JSONArray es => u32 (Z.of_nat (length es)) | _ => 0 end.

(** [pgagroal_json_get_typed] and [pgagroal_json_contains_key]. *)
Definition json_get (o : json) (tag : option string) : option jvalue :=
  match o, tag with
  | JSONItem es, Some tag => if (String.length tag =? 0)%nat then None else item_get tag es
  | _, _ => None
  end.

Definition json_contains_key (o : json) (key : option string) : bool :=
  match json_get o key with Some _ => true | None => false end.

(** ** Numbers *)

(** [printf("%f")]: the sign, the whole part and six digits, rounded half to even. *)
Definition print_f (x : spec_float) : string :=
  match x with
  | S754_nan => "nan"
  | S754_infinity s => (if s then "-" else "") +:+ "inf"
  | S754_zero s => (if s then "-" else "") +:+ "0.000000"
  | S754_finite s m e =>
      let num := Zpos m * 10 ^ 6 * 2 ^ Z.max 0 e in
      let den := 2 ^ Z.max 0 (- e) in
      let q := num / den in
      let r := num mod den in
      let n := if (den <? 2 * r) || ((2 * r =? den) && Z.odd q) then q + 1 else q in
      let frac := pretty (n mod 10 ^ 6) in
      (if s then "-" else "") +:+ pretty (n / 10 ^ 6) +:+ "." +:+
        String.substring 0 (6 - String.length frac) "000000" +:+ frac
  end.

(** The bits of a [double]. *)
Definition bits_of_double (x : spec_float) : Z :=
  let sign (s : bool) := if s then 2 ^ 63 else 0 in
  match x with
  | S754_nan => 0x7FF8000000000000
  | S754_infinity s => sign s + 0x7FF0000000000000
  | S754_zero s => sign s
  | S754_finite s m e =>
      sign s + (if Zpos m <? 2 ^ 52 then Zpos m else (e + 1075) * 2 ^ 52 + (Zpos m - 2 ^ 52))
  end.

(** The leading digits and how many they are. *)
Fixpoint digits (acc : Z) (n : nat) (s : string) : Z * nat * string :=
  match s with
  | String c s' => if is_digit c then digits (10 * acc + (code c - 48)) (S n) s' else (acc, n, s)
  | EmptyString => (acc, n, s)
  end.

Definition read_sign (s : string) : bool * string :=
  match s with
  | String c s' => if code c =? 45 then (true, s') else if code c =? 43 then (false, s') else (false, s)
  | EmptyString => (false, s)
  end.

(** [sscanf("%" PRId64)] without leading space; a number out of range saturates. *)
Definition sscanf_int64 (s : string) : option Z :=
  let r := read_sign s in
  let '(v, n, _) := digits 0 0 r.2 in
  if (n =? 0)%nat then None
  else Some (Z.max (- 2 ^ 63) (Z.min (2 ^ 63 - 1) (if r.1 then - v else v))).

(** [sscanf("%lf")] on digits, a point and digits: the quotient, correctly rounded. *)
Definition sscanf_double (s : string) : option Z :=
  let r := read_sign s in
  let '(v, n, rest) := digits 0 0 r.2 in
  let '(v, n', k) :=
    match rest with
    | String c rest' =>
        if code c =? 46 then let '(w, m, _) := digits v 0 rest' in (w, (n + m)%nat, m) else (v, n, O)
    | EmptyString => (v, n, O)
    end in
  if (n' =? 0)%nat then None
  else
    Some (bits_of_double
      match v with
      | Zpos m => SFdiv 53 1024 (S754_finite r.1 m 0) (S754_finite false (Z.to_pos (10 ^ Z.of_nat k)) 0)
      | _ => S754_zero r.1
      end).

(** ** The parser *)

Inductive presult (A : Type) :=
| POk (a : A)
| PErr
| POut.
Arguments POk {A} _.
Arguments PErr {A}.
Arguments POut {A}.

#[export] Instance presult_ret : MRet presult := fun A a => POk a.
#[export] Instance presult_bind : MBind presult :=
  fun A B f m => match m with POk a => f a | PErr => PErr | POut => POut end.

(** [while (idx < len && p(str[idx])) idx++;] *)
Fixpoint skip (p : ascii -> bool) (s : string) : string :=
  match s with
  | String c s' => if p c then skip p s' else s
  | EmptyString => EmptyString
  end.

Definition is_code (n : Z) (c : ascii) : bool := code c =? n.

(** The first character; none stands for [idx == len]. *)
Definition head (s : string) : option ascii := match s with String c _ => Some c | EmptyString => None end.
Definition tail (s : string) : string := match s with String _ s => s | EmptyString => EmptyString end.

(** [handle_escape_char], on the character after the backslash. *)
Definition handle_escape_char (c : ascii) : option ascii :=
  if is_code 34 c || is_code 92 c then Some c
  else if is_code 110 c then Some "010"%char
  else if is_code 116 c then Some "009"%char
  else if is_code 114 c then Some "013"%char
  else None.

(** The loop that reads a key or a string up to the next quote; [None] is the error. *)
Fixpoint read_text (s : string) (acc : option string) : option (option string * string) :=
  match s with
  | EmptyString => Some (acc, s)
  | String c s' =>
      if is_code 34 c then Some (acc, s)
      else if is_code 92 c then
        match s' with
        | EmptyString => None
        | String d s'' =>
            match handle_escape_char d with
            | Some e => read_text s'' (append_char acc e)
            | None => None
            end
        end
      else read_text s' (append_char acc c)
  end.

(** The loop that reads a number: its text, whether it has a point, and the rest. *)
Fixpoint read_number (s : string) (acc : option string) (has_digit : bool) : option string * bool * string :=
  match s with
  | String c s' =>
      if is_digit c || is_code 46 c || is_code 45 c || is_code 43 c
      then read_number s' (append_char acc c) (has_digit || is_code 46 c) else (acc, has_digit, s)
  | EmptyString => (acc, has_digit, s)
  end.

Definition is_lower (c : ascii) : bool := (97 <=? code c) && (code c <=? 122).

Fixpoint read_word (s : string) (acc : option string) : option string * string :=
  match s with
  | String c s' => if is_lower c then read_word s' (append_char acc c) else (acc, s)
  | EmptyString => (acc, s)
  end.

Definition value_start (c : ascii) : bool :=
  is_digit c || is_code 45 c || is_code 43 c || is_code 91 c || is_code 123 c || is_code 34 c || is_code 110 c || is_code 116 c || is_code 102 c.

(** [json_add], whose status the parser ignores. *)
Definition json_add (o : json) (key : option string) (v : jvalue) : json :=
  match key with
  | None => (json_append o v).2
  | Some _ => (json_put o key v).2
  end.

Definition is_unknown (o : json) : bool := match o with JSONUnknown => true | _ => false end.

(** [fill_value], with [parse] for the recursive call; an object that is refused by
    [json_add] is dropped. *)
Definition fill_value (parse : string -> presult (json * string)) (s : string) (key : option string) (o : json)
  : presult (json * string) :=
  match head s with
  | None => PErr
  | Some c =>
      if is_code 34 c then
        match read_text (tail s) None with
        | None => PErr
        | Some (val, rest) =>
            match rest with
            | EmptyString => PErr
            | String _ rest => POk (json_add o key (VStr ValueString (Some (default "" val))), rest)
            end
        end
      else if is_code 45 c || is_code 43 c || is_digit c then
        let '(val_str, has_digit, rest) := read_number s None false in
        if (has_digit : bool) then
          match sscanf_double (default "" val_str) with
          | Some d => POk (json_add o key (VWord ValueDouble d), rest)
          | None => PErr
          end
        else
          match sscanf_int64 (default "" val_str) with
          | Some i => POk (json_add o key (VWord ValueInt64 (u64 i)), rest)
          | None => PErr
          end
      else if is_code 123 c || is_code 91 c then
        r ← parse s;
        POk (json_add o key (VJson r.1), r.2)
      else if is_code 110 c || is_code 116 c || is_code 102 c then
        let '(val, rest) := read_word s None in
        if pgagroal_strcmp val (Some "null") then POk (json_add o key (VStr ValueString None), rest)
        else if pgagroal_strcmp val (Some "true") then POk (json_add o key (VWord ValueBool 1), rest)
        else if pgagroal_strcmp val (Some "false") then POk (json_add o key (VWord ValueBool 0), rest)
        else PErr
      else PErr
  end.

(** From the quote of a key to its value: the key and the rest. *)
Definition parse_key (s : string) : option (string * string) :=
  match skip (fun c => negb (is_code 34 c)) s with
  | EmptyString => None
  | String _ s =>
      match read_text s None with
      | Some (Some key, String _ _ as s) =>
          let s := skip (fun c => is_code 34 c || is_space c) s in
          match head s with
          | Some c =>
              if is_code 58 c then
                match skip (fun c => is_code 58 c || is_space c) s with
                | EmptyString => None
                | s => Some (key, s)
                end
              else None
          | None => None
          end
      | _ => None
      end
  end.

(** The loop over the members of an item, and the one over the entries of an array.
    Both end without an error where the text does. *)
Fixpoint parse_item (k : nat) (parse : string -> presult (json * string)) (s : string) (o : json)
  : presult (json * string) :=
  match s with
  | EmptyString => POk (o, s)
  | _ =>
      match k with
      | O => POut
      | S k =>
          let s := skip is_space s in
          let member (s : string) :=
            match parse_key s with
            | None => PErr
            | Some (key, s) => r ← fill_value parse s (Some key) o; parse_item k parse r.2 r.1
            end in
          match head s with
          | None => PErr
          | Some c =>
              if is_code 44 c then member (tail s)
              else if is_code 125 c then POk (o, tail s)
              else if negb (is_code 34 c && is_unknown o) then PErr
              else member s
          end
      end
  end.

Fixpoint parse_array (k : nat) (parse : string -> presult (json * string)) (s : string) (o : json)
  : presult (json * string) :=
  match s with
  | EmptyString => POk (o, s)
  | _ =>
      match k with
      | O => POut
      | S k =>
          let s := skip is_space s in
          let entry (s : string) :=
            match skip (fun c => negb (value_start c)) s with
            | EmptyString => PErr
            | s => r ← fill_value parse s None o; parse_array k parse r.2 r.1
            end in
          match head s with
          | None => PErr
          | Some c =>
              if is_code 44 c then entry (tail s)
              else if is_code 93 c then POk (o, tail s)
              else if negb (value_start c && is_unknown o) then PErr
              else entry s
          end
      end
  end.

(** [parse_string]. *)
Fixpoint parse_string (k : nat) (s : string) : presult (json * string) :=
  match k with
  | O => POut
  | S k =>
      match s with
      | String c s =>
          if is_code 123 c then parse_item k (parse_string k) s JSONUnknown
          else if is_code 91 c then parse_array k (parse_string k) s JSONUnknown
          else PErr
      | EmptyString => PErr
      end
  end.

(** [pgagroal_json_parse_string]: what follows the document is not looked at. *)
Definition json_parse_string (s : option string) : presult json :=
  match s with
  | None => PErr
  | Some s =>
      if (String.length s <? 2)%nat then PErr
      else r ← parse_string (S (String.length s)) s; POk r.1
  end.

(** ** Printing *)

Inductive format := FORMAT_JSON | FORMAT_TEXT | FORMAT_JSON_COMPACT.

#[export] Instance format_eq_dec : EqDecision format.
Proof. solve_decision. Defined.

Definition INDENT_PER_LEVEL : Z := 2.
Definition BULLET_POINT : string := "- ".

(** The [to_string] callback of a word, by its type. *)
Definition word_text (t : value_type) (w : Z) : option string :=
  match t with
  | ValueInt8 => Some (pretty (i8 w)) | ValueUInt8 => Some (pretty (u8 w))
  | ValueInt16 => Some (pretty (i16 w)) | ValueUInt16 => Some (pretty (u16 w))
  | ValueInt32 => Some (pretty (i32 w)) | ValueUInt32 => Some (pretty (u32 w))
  | ValueInt64 => Some (pretty (i64 w)) | ValueUInt64 => Some (pretty (u64 w))
  | ValueFloat => Some (print_f (value_to_float w)) | ValueDouble => Some (print_f (value_to_double w))
  | ValueBool => Some (if u64 w =? 0 then "false" else "true")
  | _ => None
  end.

Definition quote : string := String "034" EmptyString.

(** [string_to_string_cb]. *)
Definition string_text (s : option string) (fmt : format) : option string :=
  match s with
  | None => if bool_decide (fmt = FORMAT_TEXT) then None else Some "null"
  | Some EmptyString => if bool_decide (fmt = FORMAT_TEXT) then Some "''" else Some (quote +:+ quote)
  | Some s => if bool_decide (fmt = FORMAT_TEXT) then Some s else Some (quote +:+ escape s +:+ quote)
  end.

Definition newline : string := String "010" EmptyString.

(** The tag of a member in the JSON formats. *)
Definition member_tag (fmt : format) (key : string) : option string :=
  Some (quote +:+ escape key +:+ quote +:+ (if bool_decide (fmt = FORMAT_JSON) then ": " else ":")).

Definition is_object (v : jvalue) : bool :=
  match v with VJson JSONUnknown => false | VJson _ => true | _ => false end.

Definition is_json (v : jvalue) : bool := bool_decide (jtype v = ValueJSON).

Definition is_bullet (tag : option string) : bool := pgagroal_strcmp tag (Some BULLET_POINT).

Section printing.

(** [pgagroal_value_to_string] of the value, for the recursive calls. *)
Variable print : jvalue -> format -> option string -> Z -> option string.

(** The callbacks of [art_iterate] in the two JSON formats. *)
Fixpoint print_members (fmt : format) (es : list (string * jvalue)) (n : Z) (ret : option string) : option string :=
  match es with
  | [] => ret
  | (key, v) :: es =>
      let ret := append ret (print v fmt (member_tag fmt key) n) in
      let sep := match es, fmt with
                 | [], FORMAT_JSON => newline | _, FORMAT_JSON => "," +:+ newline
                 | [], _ => "" | _, _ => ","
                 end in
      print_members fmt es n (append ret (Some sep))
  end.

(** [art_to_text_string_cb] over the members; [cnt] counts them. *)
Fixpoint print_text_members (es : list (string * jvalue)) (tag : option string) (n : Z) (cnt : nat)
  (ret : option string) : option string :=
  match es with
  | [] => ret
  | (key, v) :: es =>
      let cnt := S cnt in
      let t := Some (key +:+ ":" +:+ (if is_object v then newline else " ")) in
      let '(ret, str) :=
        if is_bullet tag then
          if (cnt =? 1)%nat then
            if negb (is_object v) then (ret, print v FORMAT_TEXT t 0)
            else (indent ret t 0, print v FORMAT_TEXT None (n + INDENT_PER_LEVEL))
          else (ret, print v FORMAT_TEXT t (n + INDENT_PER_LEVEL))
        else (ret, print v FORMAT_TEXT t n) in
      let ret := append ret str in
      print_text_members es tag n cnt (append ret (Some (match es with [] => "" | _ => newline end)))
  end.

(** [pgagroal_art_to_string]. *)
Definition item_to_string (es : list (string * jvalue)) (fmt : format) (tag : option string) (n : Z) : option string :=
  match fmt with
  | FORMAT_JSON =>
      let ret := indent None tag n in
      match es with
      | [] => append ret (Some "{}")
      | _ =>
          let ret := print_members FORMAT_JSON es (n + INDENT_PER_LEVEL) (append ret (Some ("{" +:+ newline))) in
          append (indent ret None n) (Some "}")
      end
  | FORMAT_JSON_COMPACT =>
      let ret := indent None tag n in
      match es with
      | [] => append ret (Some "{}")
      | _ => append (print_members FORMAT_JSON_COMPACT es n (append ret (Some "{"))) (Some "}")
      end
  | FORMAT_TEXT =>
      let tagged := match tag with Some _ => negb (is_bullet tag) | None => false end in
      let ret := if tagged then indent None tag n else None in
      let next := if tagged then n + INDENT_PER_LEVEL else n in
      match es with
      | [] => append ret (Some "{}")
      | _ => print_text_members es tag next 0 ret
      end
  end.

(** The loops of [pgagroal_deque_to_string]; the entries of an array have no tags. *)
Fixpoint print_entries (fmt : format) (es : list jvalue) (n : Z) (ret : option string) : option string :=
  match es with
  | [] => ret
  | v :: es =>
      let ret := append ret (print v fmt None n) in
      let sep := match es, fmt with
                 | [], FORMAT_JSON => newline | _, FORMAT_JSON => "," +:+ newline
                 | [], _ => "" | _, _ => ","
                 end in
      print_entries fmt es n (append ret (Some sep))
  end.

Fixpoint print_text_entries (es : list jvalue) (tag : option string) (n next : Z) (ret : option string)
  : option string :=
  match es with
  | [] => ret
  | v :: es =>
      let str := print v FORMAT_TEXT (Some BULLET_POINT) next in
      let next := if is_bullet tag then n + INDENT_PER_LEVEL else next in
      let ret := if is_json v then indent ret (Some BULLET_POINT) next else ret in
      let ret := append ret str in
      print_text_entries es tag n next (append ret (Some (match es with [] => "" | _ => newline end)))
  end.

Definition array_to_string (es : list jvalue) (fmt : format) (tag : option string) (n : Z) : option string :=
  match fmt with
  | FORMAT_JSON =>
      let ret := indent None tag n in
      match es with
      | [] => append ret (Some "[]")
      | _ =>
          let ret := print_entries FORMAT_JSON es (n + INDENT_PER_LEVEL) (append ret (Some ("[" +:+ newline))) in
          append (indent ret None n) (Some "]")
      end
  | FORMAT_JSON_COMPACT =>
      let ret := indent None tag n in
      match es with
      | [] => append ret (Some "[]")
      | _ => append (print_entries FORMAT_JSON_COMPACT es n (append ret (Some "["))) (Some "]")
      end
  | FORMAT_TEXT =>
      let tagged := match tag with Some _ => negb (is_bullet tag) | None => false end in
      let ret := if tagged then indent None tag n else None in
      let next := (if is_bullet tag then 0 else n) + (if tagged then INDENT_PER_LEVEL else 0) in
      match es with
      | [] => append ret (Some "[]")
      | _ => print_text_entries es tag n next ret
      end
  end.

Definition json_to_string_with (o : json) (fmt : format) (tag : option string) (n : Z) : option string :=
  match o with
  | JSONUnknown => append (indent None tag n) (Some "{}")
  | JSONItem es => item_to_string es fmt tag n
  | JSONArray es => array_to_string es fmt tag n
  end.

End printing.

(** [pgagroal_value_to_string], for documents nested at most [k] deep. *)
Fixpoint value_to_string (k : nat) (v : jvalue) (fmt : format) (tag : option string) (n : Z) : option string :=
  match v with
  | VWord t w => match word_text t w with Some s => append (indent None tag n) (Some s) | None => indent None tag n end
  | VStr _ s => match string_text s fmt with Some s => append (indent None tag n) (Some s) | None => indent None tag n end
  | VJson o =>
      match k with
      | O => None
      | S k => json_to_string_with (value_to_string k) o fmt tag n
      end
  end.

(** The nesting of a document. *)
Fixpoint vdepth (v : jvalue) : nat :=
  match v with VJson o => S (jdepth o) | _ => O end
with jdepth (o : json) : nat :=
  match o with
  | JSONUnknown => O
  | JSONItem es => foldr (fun e m => Nat.max (vdepth e.2) m) O es
  | JSONArray es => foldr (fun v m => Nat.max (vdepth v) m) O es
  end.

(** [pgagroal_json_to_string] and [pgagroal_json_clone]. *)
Definition json_to_string (o : json) (fmt : format) (tag : option string) (n : Z) : option string :=
  json_to_string_with (value_to_string (jdepth o)) o fmt tag n.

Definition json_clone (o : json) : presult json := json_parse_string (json_to_string o FORMAT_JSON None 0).
