(* ===== verification/JsonFacts.v ===== *)
(** * Facts about JSON documents

    The parser always ends; what the printer writes in the JSON formats is read back as
    the same document, up to the types that JSON does not distinguish. *)

From stdpp Require Import pretty sorting.
From Stdlib Require Import Ascii SpecFloat.
From S2P Require Import Prelude Text Value Json.

Local Open Scope Z_scope.

(** ** The parser ends *)

Lemma skip_length (p : ascii -> bool) (s : string) : (String.length (skip p s) <= String.length s)%nat.
Proof. induction s as [|c s IH]; simpl; [lia|]. destruct (p c); simpl; lia. Qed.

Lemma read_text_length (s : string) (acc val : option string) (rest : string) :
  read_text s acc = Some (val, rest) -> (String.length rest <= String.length s)%nat.
Proof.
  enough (forall n s acc val rest, (String.length s <= n)%nat -> read_text s acc = Some (val, rest) ->
    (String.length rest <= String.length s)%nat) as H by (intros; by eapply (H (String.length s))).
  clear. induction n as [|n IH]; intros [|c s] acc val rest Hn E; simpl in *; simplify_eq/=; try lia.
  destruct (is_code 34 c); [by simplify_eq/=|]. destruct (is_code 92 c).
  - destruct s as [|d s]; [done|]. destruct (handle_escape_char d); [|done]. apply IH in E; simpl in *; lia.
  - apply IH in E; lia.
Qed.

Lemma read_number_length (s : string) (acc val : option string) (b b' : bool) (rest : string) :
  read_number s acc b = (val, b', rest) -> (String.length rest <= String.length s)%nat.
Proof.
  revert acc b. induction s as [|c s IH]; intros acc b E; simpl in *; [by simplify_eq|].
  destruct (_ || _ || _ || _); [apply IH in E; lia|]. by simplify_eq/=.
Qed.

Lemma read_word_length (s : string) (acc val : option string) (rest : string) :
  read_word s acc = (val, rest) -> (String.length rest <= String.length s)%nat.
Proof.
  revert acc. induction s as [|c s IH]; intros acc E; simpl in *; [by simplify_eq|].
  destruct (is_lower c); [apply IH in E; lia|]. by simplify_eq/=.
Qed.

(** [r] answers on a text of [n] characters, and leaves less of it. *)
Definition answers (n : nat) (r : presult (json * string)) : Prop :=
  match r with POk (_, rest) => (String.length rest < n)%nat | PErr => True | POut => False end.

Lemma answers_weaken (n m : nat) (r : presult (json * string)) : answers n r -> (n <= m)%nat -> answers m r.
Proof. destruct r as [[o rest]| |]; simpl; lia || done. Qed.

Lemma fill_value_answers (parse : string -> presult (json * string)) (s : string) (key : option string) (o : json) :
  answers (String.length s) (parse s) -> answers (String.length s) (fill_value parse s key o).
Proof.
  intros Hp. unfold fill_value. destruct s as [|c s]; [done|]. cbn [head tail].
  destruct (is_code 34 c).
  { destruct (read_text s None) as [[val [|d rest]]|] eqn:E; simpl; try done.
    apply read_text_length in E. simpl in E. lia. }
  destruct (is_code 45 c || is_code 43 c || is_digit c) eqn:Ec.
  { simpl. assert (is_digit c || is_code 46 c || is_code 45 c || is_code 43 c = true) as ->.
    { destruct (is_digit c), (is_code 45 c), (is_code 43 c), (is_code 46 c); done. }
    destruct (read_number s _ _) as [[val []] rest] eqn:E; apply read_number_length in E;
      [destruct (sscanf_double _)|destruct (sscanf_int64 _)]; simpl; lia || done. }
  destruct (is_code 123 c || is_code 91 c).
  { destruct (parse (String c s)) as [[o' rest]| |]; simpl in *; done. }
  destruct (is_code 110 c || is_code 116 c || is_code 102 c) eqn:Ew; [|done]. simpl.
  assert (is_lower c = true) as ->.
  { unfold is_code, is_lower in *. apply orb_true_iff in Ew as [[Ew|Ew]%orb_true_iff|Ew]; apply Z.eqb_eq in Ew;
      rewrite Ew; done. }
  destruct (read_word s _) as [val rest] eqn:E. apply read_word_length in E.
  repeat case_if; simpl; lia || done.
Qed.

Lemma parse_key_length (s key rest : string) :
  parse_key s = Some (key, rest) -> (String.length rest < String.length s)%nat.
Proof.
  unfold parse_key. pose proof (skip_length (fun c => negb (is_code 34 c)) s) as H1.
  destruct (skip _ s) as [|c s1]; [done|]. simpl in H1.
  destruct (read_text s1 None) as [[[k|] [|d s2]]|] eqn:E; try done. apply read_text_length in E.
  pose proof (skip_length (fun c => is_code 34 c || is_space c) (String d s2)) as H2.
  destruct (head _) as [e|]; [|done]. destruct (is_code 58 e); [|done].
  pose proof (skip_length (fun c => is_code 58 c || is_space c) (skip (fun c => is_code 34 c || is_space c) (String d s2))) as H3.
  destruct (skip _ (skip _ _)) as [|f s3]; [done|]. intros [= <- <-]. lia.
Qed.

Lemma tail_length (s : string) (c : ascii) : head s = Some c -> String.length s = S (String.length (tail s)).
Proof. by destruct s. Qed.

Section loops.
Context (parse : string -> presult (json * string)).

Lemma parse_item_answers (k : nat) (s : string) (o : json) :
  (String.length s <= k)%nat -> (forall s', (String.length s' < S (String.length s))%nat -> answers (String.length s') (parse s')) ->
  answers (S (String.length s)) (parse_item k parse s o).
Proof.
  revert s o. induction k as [|k IH]; intros s o Hk Hp; [destruct s; [simpl; lia|simpl in Hk; lia]|].
  cbn [parse_item]. destruct s as [|c0 s0] eqn:Es0; [simpl; lia|]. rewrite <- Es0 in *. clear Es0.
  pose proof (skip_length is_space s) as Hs. set (t := skip is_space s) in *.
  assert (Hm : forall u, (String.length u <= String.length s)%nat -> answers (S (String.length s))
    (match parse_key u with
     | None => PErr
     | Some (key, u) => r ← fill_value parse u (Some key) o; parse_item k parse r.2 r.1
     end)).
  { intros u Hu. destruct (parse_key u) as [[key v]|] eqn:E; [|done]. apply parse_key_length in E.
    pose proof (fill_value_answers parse v (Some key) o (Hp v ltac:(lia))) as Hf.
    destruct (fill_value parse v (Some key) o) as [[o' rest]| |]; [|done|done]. simpl in Hf |- *.
    eapply answers_weaken; [apply IH; [lia|]|lia]. intros s' Hs'. apply Hp. lia. }
  destruct (head t) as [c|] eqn:Eh; [|done]. apply tail_length in Eh.
  destruct (is_code 44 c); [apply Hm; lia|]. destruct (is_code 125 c); [simpl; lia|].
  destruct (negb _); [done|]. apply Hm. lia.
Qed.

Lemma parse_array_answers (k : nat) (s : string) (o : json) :
  (String.length s <= k)%nat -> (forall s', (String.length s' < S (String.length s))%nat -> answers (String.length s') (parse s')) ->
  answers (S (String.length s)) (parse_array k parse s o).
Proof.
  revert s o. induction k as [|k IH]; intros s o Hk Hp; [destruct s; [simpl; lia|simpl in Hk; lia]|].
  cbn [parse_array]. destruct s as [|c0 s0] eqn:Es0; [simpl; lia|]. rewrite <- Es0 in *. clear Es0.
  pose proof (skip_length is_space s) as Hs. set (t := skip is_space s) in *.
  assert (Hm : forall u, (String.length u <= String.length s)%nat -> answers (S (String.length s))
    (match skip (fun c => negb (value_start c)) u with
     | EmptyString => PErr
     | u => r ← fill_value parse u None o; parse_array k parse r.2 r.1
     end)).
  { intros u Hu. pose proof (skip_length (fun c => negb (value_start c)) u) as Hv.
    revert Hv. destruct (skip _ u) as [|d v]; intros Hv; [done|]. set (w := String d v) in *. clearbody w.
    pose proof (fill_value_answers parse w None o (Hp w ltac:(lia))) as Hf.
    destruct (fill_value _ _ _ _) as [[o' rest]| |]; [|done|done]. simpl in Hf |- *.
    eapply answers_weaken; [apply IH; [lia|]|lia]. intros s' Hs'. apply Hp. lia. }
  destruct (head t) as [c|] eqn:Eh; [|done]. apply tail_length in Eh.
  destruct (is_code 44 c); [apply Hm; lia|]. destruct (is_code 93 c); [simpl; lia|].
  destruct (negb _); [done|]. apply Hm. lia.
Qed.

End loops.

Lemma parse_string_answers (k : nat) (s : string) :
  (String.length s < k)%nat -> answers (String.length s) (parse_string k s) \/ s = EmptyString.
Proof.
  revert s. induction k as [|k IH]; intros s Hk; [lia|]. destruct s as [|c s]; [by right|left]. cbn [parse_string].
  simpl in Hk.
  assert (Hp : forall s', (String.length s' < S (String.length s))%nat -> answers (String.length s') (parse_string k s')).
  { intros s' Hs'. destruct (IH s' ltac:(lia)) as [H| ->]; [done|]. destruct k; [lia|done]. }
  destruct (is_code 123 c); [apply parse_item_answers; [lia|done]|].
  destruct (is_code 91 c); [apply parse_array_answers; [lia|done]|done].
Qed.

(** The parser ends on every text: the fuel it is given, the length of the text, is
    never used up. *)
Theorem json_parse_terminates (s : option string) : json_parse_string s <> POut.
Proof.
  destruct s as [s|]; [|done]. unfold json_parse_string. destruct (_ <? 2)%nat; [done|].
  destruct (parse_string_answers (S (String.length s)) s ltac:(lia)) as [H| ->]; [|done].
  destruct (parse_string _ s) as [[o r]| |]; simpl in *; done.
Qed.

(** ** Documents that are read back *)

Definition int_type (t : value_type) : bool :=
  match t with
  | ValueInt8 | ValueUInt8 | ValueInt16 | ValueUInt16 | ValueInt32 | ValueUInt32 | ValueInt64 | ValueUInt64 => true
  | _ => false
  end.

(** The number that is printed for an integer. *)
Definition int_value (t : value_type) (w : Z) : Z :=
  match t with
  | ValueInt8 => i8 w | ValueUInt8 => u8 w | ValueInt16 => i16 w | ValueUInt16 => u16 w
  | ValueInt32 => i32 w | ValueUInt32 => u32 w | ValueInt64 => i64 w | _ => u64 w
  end.

Definition key_before (a b : string) : Prop := strcmp a b < 0.

(** Integers that an [int64_t] holds, booleans, strings, and objects of these; members
    have a name and are in the order of the tree. *)
Inductive vok : jvalue -> Prop :=
| vok_int t w : int_type t = true -> int_value t w < 2 ^ 63 -> vok (VWord t w)
| vok_bool w : vok (VWord ValueBool w)
| vok_str t s : t = ValueString \/ t = ValueBASE64 -> vok (VStr t s)
| vok_json o : jok o -> vok (VJson o)
with jok : json -> Prop :=
| jok_unknown : jok JSONUnknown
| jok_item es : StronglySorted key_before es.*1 -> (forall k v, (k, v) ∈ es -> k <> "" /\ vok v) -> jok (JSONItem es)
| jok_array es : (forall v, v ∈ es -> vok v) -> jok (JSONArray es).

(** What is read back: every integer is 64 bit, an empty object has no kind. *)
Fixpoint vnorm (v : jvalue) : jvalue :=
  match v with
  | VWord ValueBool w => VWord ValueBool (if u64 w =? 0 then 0 else 1)
  | VWord t w => VWord ValueInt64 (u64 (int_value t w))
  | VStr _ s => VStr ValueString s
  | VJson o => VJson (jnorm o)
  end
with jnorm (o : json) : json :=
  match o with
  | JSONUnknown | JSONItem [] | JSONArray [] => JSONUnknown
  | JSONItem es => JSONItem (map (fun e => (e.1, vnorm e.2)) es)
  | JSONArray es => JSONArray (map vnorm es)
  end.

(** ** The text of a document *)

Fixpoint spaces (n : nat) : string := match n with O => EmptyString | S n => String " " (spaces n) end.

Definition colon (fmt : format) : string := if bool_decide (fmt = FORMAT_JSON) then ": " else ":".

Definition nl (fmt : format) : string := if bool_decide (fmt = FORMAT_JSON) then newline else "".

(** The separator after a member: there is none after the last one. *)
Definition sep {A} (fmt : format) (es : list A) : string :=
  match es with [] => nl fmt | _ => "," +:+ nl fmt end.

(** The members, each after [ws], and what follows them. *)
Fixpoint mtext (fmt : format) (ws : string) (es : list (string * string)) (rest : string) : string :=
  match es with
  | [] => rest
  | (k, b) :: es =>
      ws +:+ quote +:+ escape k +:+ quote +:+ colon fmt +:+ b +:+ sep fmt es +:+ mtext fmt ws es rest
  end.

Fixpoint atext (fmt : format) (ws : string) (es : list string) (rest : string) : string :=
  match es with
  | [] => rest
  | b :: es => ws +:+ b +:+ sep fmt es +:+ atext fmt ws es rest
  end.

Definition inner (fmt : format) (n : Z) : Z := if bool_decide (fmt = FORMAT_JSON) then n + INDENT_PER_LEVEL else n.
Definition outer (fmt : format) (n : Z) : string :=
  if bool_decide (fmt = FORMAT_JSON) then spaces (Z.to_nat n) else "".

Fixpoint vbody (k : nat) (v : jvalue) (fmt : format) (n : Z) : string :=
  match v with
  | VWord t w => default "" (word_text t w)
  | VStr _ s => default "" (string_text s fmt)
  | VJson o =>
      match k with
      | O => ""
      | S k =>
          match o with
          | JSONUnknown | JSONItem [] => "{}"
          | JSONArray [] => "[]"
          | JSONItem es =>
              "{" +:+ nl fmt +:+ mtext fmt (spaces (Z.to_nat (inner fmt n)))
                (map (fun e => (e.1, vbody k e.2 fmt (inner fmt n))) es) (outer fmt n +:+ "}")
          | JSONArray es =>
              "[" +:+ nl fmt +:+ atext fmt (spaces (Z.to_nat (inner fmt n)))
                (map (fun v => vbody k v fmt (inner fmt n)) es) (outer fmt n +:+ "]")
          end
      end
  end.

Lemma spaces_snoc (n : nat) : spaces n +:+ " " = String " " (spaces n).
Proof. induction n as [|n IH]; [done|]. apply (f_equal (String " ")), IH. Qed.

Lemma append_some (ret : option string) (s : string) : append ret (Some s) = Some (default "" ret +:+ s).
Proof. done. Qed.

Lemma default_some (s : string) : default "" (Some s) = s.
Proof. done. Qed.

Lemma indent_some (ret tag : option string) (n : Z) (s : string) :
  append (indent ret tag n) (Some s) = Some (default "" ret +:+ spaces (Z.to_nat n) +:+ default "" tag +:+ s).
Proof.
  unfold indent. set (m := Z.to_nat n). clearbody m.
  assert (H : default "" (Nat.iter m (fun s => append s (Some " ")) ret) = default "" ret +:+ spaces m).
  { induction m as [|m IH]; [by rewrite sapp_nil_r|].
    change (default "" (Nat.iter m (fun s => append s (Some " ")) ret) +:+ " " = default "" ret +:+ String " " (spaces m)).
    by rewrite IH, sapp_assoc, spaces_snoc. }
  destruct tag as [t|]; rewrite !append_some, ?default_some, H, !sapp_assoc; done.
Qed.

(** [f] prints [v] at the indentation [m] as the text [b]. *)
Definition prints (f : option string -> option string) (m : Z) (b : string) : Prop :=
  forall tag, f tag = Some (spaces (Z.to_nat m) +:+ default "" tag +:+ b).

Lemma sep_map {A B} (f : A -> B) (fmt : format) (es : list A) : sep fmt (map f es) = sep fmt es.
Proof. by destruct es. Qed.

Lemma print_members_text (k : nat) (fmt : format) (es : list (string * jvalue)) (m : Z) (acc rest : string) :
  fmt <> FORMAT_TEXT ->
  (forall key v, (key, v) ∈ es -> prints (fun tag => value_to_string k v fmt tag m) m (vbody k v fmt m)) ->
  default "" (print_members (value_to_string k) fmt es m (Some acc)) +:+ rest =
    acc +:+ mtext fmt (spaces (Z.to_nat m)) (map (fun e => (e.1, vbody k e.2 fmt m)) es) rest.
Proof.
  intros Hf. revert acc. induction es as [|[key v] es IH]; intros acc H; [done|].
  cbn [print_members]. rewrite (H key v) by left. rewrite !append_some, !default_some.
  rewrite IH by (intros key' v' Hin; apply (H key'); by right). cbn [map mtext fst snd].
  rewrite sep_map. unfold member_tag, colon. rewrite default_some.
  destruct fmt; [|done|]; destruct es; cbn [sep]; unfold nl; rewrite ?bool_decide_true, ?bool_decide_false by done;
    rewrite ?sapp_assoc; done.
Qed.

Lemma print_entries_text (k : nat) (fmt : format) (es : list jvalue) (m : Z) (acc rest : string) :
  fmt <> FORMAT_TEXT ->
  (forall v, v ∈ es -> prints (fun tag => value_to_string k v fmt tag m) m (vbody k v fmt m)) ->
  default "" (print_entries (value_to_string k) fmt es m (Some acc)) +:+ rest =
    acc +:+ atext fmt (spaces (Z.to_nat m)) (map (fun v => vbody k v fmt m) es) rest.
Proof.
  intros Hf. revert acc. induction es as [|v es IH]; intros acc H; [done|].
  cbn [print_entries]. rewrite (H v) by left. rewrite !append_some, !default_some.
  rewrite IH by (intros v' Hin; apply H; by right). cbn [map atext]. rewrite sep_map.
  destruct fmt; [|done|]; destruct es; cbn [sep]; unfold nl; rewrite ?bool_decide_true, ?bool_decide_false by done;
    rewrite ?sapp_assoc; done.
Qed.

Lemma vdepth_item (es : list (string * jvalue)) (key : string) (v : jvalue) :
  (key, v) ∈ es -> (vdepth v <= jdepth (JSONItem es))%nat.
Proof.
  induction es as [|e es IH]; intros H; [by apply elem_of_nil in H|].
  apply elem_of_cons in H as [<-|H]; simpl; [lia|]. apply IH in H. simpl in H. lia.
Qed.

Lemma vdepth_array (es : list jvalue) (v : jvalue) : v ∈ es -> (vdepth v <= jdepth (JSONArray es))%nat.
Proof.
  induction es as [|e es IH]; intros H; [by apply elem_of_nil in H|].
  apply elem_of_cons in H as [<-|H]; simpl; [lia|]. apply IH in H. simpl in H. lia.
Qed.

Lemma word_text_some (t : value_type) (w : Z) : vok (VWord t w) -> is_Some (word_text t w).
Proof. intros H. inversion H as [t' w' Ht| | |]; subst; [by destruct t|done]. Qed.

(** The end of an object. *)
Lemma closed_text (fmt : format) (ret : option string) (n : Z) (c : string) :
  append (if bool_decide (fmt = FORMAT_JSON) then indent ret None n else ret) (Some c) =
    Some (default "" ret +:+ outer fmt n +:+ c).
Proof. unfold outer. case_bool_decide; [by rewrite indent_some|done]. Qed.

Lemma item_to_string_text (k : nat) (es : list (string * jvalue)) (fmt : format) (n : Z) :
  fmt <> FORMAT_TEXT -> es <> [] ->
  (forall m key v, (key, v) ∈ es -> prints (fun tag => value_to_string k v fmt tag m) m (vbody k v fmt m)) ->
  prints (fun tag => item_to_string (value_to_string k) es fmt tag n) n (vbody (S k) (VJson (JSONItem es)) fmt n).
Proof.
  intros Hf Hne Hp tag. destruct es as [|e es]; [done|]. remember (e :: es) as ms eqn:Ems.
  assert (Hm : item_to_string (value_to_string k) ms fmt tag n =
    let ret := print_members (value_to_string k) fmt ms (inner fmt n) (append (indent None tag n) (Some ("{" +:+ nl fmt))) in
    append (if bool_decide (fmt = FORMAT_JSON) then indent ret None n else ret) (Some "}")) by (subst ms; by destruct fmt).
  rewrite Hm. cbv zeta. rewrite closed_text, indent_some, print_members_text by eauto. subst ms. cbn [vbody].
  by rewrite !sapp_assoc.
Qed.

Lemma array_to_string_text (k : nat) (es : list jvalue) (fmt : format) (n : Z) :
  fmt <> FORMAT_TEXT -> es <> [] ->
  (forall m v, v ∈ es -> prints (fun tag => value_to_string k v fmt tag m) m (vbody k v fmt m)) ->
  prints (fun tag => array_to_string (value_to_string k) es fmt tag n) n (vbody (S k) (VJson (JSONArray es)) fmt n).
Proof.
  intros Hf Hne Hp tag. destruct es as [|e es]; [done|]. remember (e :: es) as ms eqn:Ems.
  assert (Hm : array_to_string (value_to_string k) ms fmt tag n =
    let ret := print_entries (value_to_string k) fmt ms (inner fmt n) (append (indent None tag n) (Some ("[" +:+ nl fmt))) in
    append (if bool_decide (fmt = FORMAT_JSON) then indent ret None n else ret) (Some "]")) by (subst ms; by destruct fmt).
  rewrite Hm. cbv zeta. rewrite closed_text, indent_some, print_entries_text by eauto. subst ms. cbn [vbody].
  by rewrite !sapp_assoc.
Qed.

Lemma value_to_string_text (k : nat) (v : jvalue) (fmt : format) (n : Z) :
  fmt <> FORMAT_TEXT -> vok v -> (vdepth v <= k)%nat ->
  prints (fun tag => value_to_string k v fmt tag n) n (vbody k v fmt n).
Proof.
  intros Hf. revert v n. induction k as [|k IH]; intros v n Hv Hk tag; destruct v as [t w|t s|o]; try (simpl in Hk; lia);
    cbn [value_to_string vbody].
  1,3: destruct (word_text_some t w Hv) as [b ->]; by rewrite indent_some.
  1,2: assert (is_Some (string_text s fmt)) as [b ->]
    by (destruct s as [[|c s]|], fmt; done); by rewrite indent_some.
  inversion Hv as [| | |? Ho]; subst. simpl in Hk.
  destruct o as [|es|es]; unfold json_to_string_with.
  - by rewrite indent_some.
  - inversion Ho as [|? _ Hes|]; subst.
    destruct es as [|e es]; [destruct fmt; [|done|]; cbn [item_to_string]; by rewrite indent_some|].
    apply item_to_string_text; [done|done|]. intros m key v Hin. apply IH; [by eapply Hes|].
    apply vdepth_item in Hin. lia.
  - inversion Ho as [| |? Hes]; subst.
    destruct es as [|e es]; [destruct fmt; [|done|]; cbn [array_to_string]; by rewrite indent_some|].
    apply array_to_string_text; [done|done|]. intros m v Hin. apply IH; [by eapply Hes|].
    apply vdepth_array in Hin. lia.
Qed.

(** ** Reading the text of a value *)

(** What may follow a value. *)
Definition delim (s : string) : Prop :=
  match head s with
  | None => True
  | Some c => code c = 44 \/ code c = 10 \/ code c = 125 \/ code c = 93
  end.

Lemma append_char_some (acc : option string) (c : ascii) : append_char acc c = Some (default "" acc +:+ String c "").
Proof. done. Qed.

(** [acc] with the characters of [s]. *)
Definition extended (acc : option string) (s : string) : option string :=
  match s with EmptyString => acc | _ => Some (default "" acc +:+ s) end.

Lemma extended_char (acc : option string) (c : ascii) (s : string) :
  extended (append_char acc c) s = extended acc (String c s).
Proof.
  rewrite append_char_some. destruct s; [done|]. unfold extended. by rewrite default_some, sapp_assoc.
Qed.

Lemma read_text_escape (s rest : string) (acc : option string) :
  read_text (escape s +:+ quote +:+ rest) acc = Some (extended acc s, quote +:+ rest).
Proof.
  revert acc. induction s as [|c s IH]; intros acc; [done|]. rewrite <- extended_char. cbn [escape].
  destruct (Z.eqb_spec (code c) 92) as [E|H92];
    [|destruct (Z.eqb_spec (code c) 34) as [E|H34];
      [|destruct (Z.eqb_spec (code c) 10) as [E|?]; [|destruct (Z.eqb_spec (code c) 9) as [E|?];
        [|destruct (Z.eqb_spec (code c) 13) as [E|?]]]]]; cbn [orb].
  6: { change (String c (escape s) +:+ quote +:+ rest) with (String c (escape s +:+ quote +:+ rest)).
       cbn [read_text]. unfold is_code. rewrite (proj2 (Z.eqb_neq (code c) 34)), (proj2 (Z.eqb_neq (code c) 92)) by done.
       apply IH. }
  3: replace c with "010"%char by (apply code_inj; by rewrite E).
  4: replace c with "009"%char by (apply code_inj; by rewrite E).
  5: replace c with "013"%char by (apply code_inj; by rewrite E).
  3-5: apply IH.
  1: replace c with "092"%char by (apply code_inj; by rewrite E).
  2: replace c with "034"%char by (apply code_inj; by rewrite E).
  all: apply IH.
Qed.

(** The characters of the text of an integer. *)
Definition int_char (c : ascii) : bool := is_digit c || is_code 45 c.

Lemma read_number_int (s rest : string) (acc : option string) (b : bool) :
  all_chars int_char s = true -> delim rest -> read_number (s +:+ rest) acc b = (extended acc s, b, rest).
Proof.
  intros Hs Hr. revert acc. induction s as [|c s IH]; intros acc.
  - destruct rest as [|c rest]; [done|]. simpl in *. unfold is_digit, is_code.
    by destruct Hr as [-> |[-> |[-> | ->]]].
  - cbn [all_chars] in Hs. apply andb_true_iff in Hs as [Hc Hs].
    change (String c s +:+ rest) with (String c (s +:+ rest)). cbn [read_number].
    assert (is_digit c || is_code 46 c || is_code 45 c || is_code 43 c = true /\ b || is_code 46 c = b) as [-> ->].
    { unfold int_char, is_digit, is_code in *. split; [|destruct b; [done|]; simpl]; lia. }
    rewrite IH by done. by rewrite extended_char.
Qed.

Lemma read_word_lower (s rest : string) (acc : option string) :
  all_chars is_lower s = true -> delim rest -> read_word (s +:+ rest) acc = (extended acc s, rest).
Proof.
  intros Hs Hr. revert acc. induction s as [|c s IH]; intros acc.
  - destruct rest as [|c rest]; [done|]. simpl in *. unfold is_lower. by destruct Hr as [-> |[-> |[-> | ->]]].
  - cbn [all_chars] in Hs. apply andb_true_iff in Hs as [Hc Hs].
    change (String c s +:+ rest) with (String c (s +:+ rest)). cbn [read_word]. rewrite Hc.
    rewrite IH by done. by rewrite extended_char.
Qed.

Lemma scan_digits_all (acc n : Z) (s : string) : scan_digits acc s = (n, "") -> all_chars is_digit s = true.
Proof.
  revert acc. induction s as [|c s IH]; intros acc; [done|]. cbn [scan_digits all_chars].
  destruct (is_digit c); [apply IH|done].
Qed.

Lemma digits_scan (acc : Z) (k : nat) (s : string) :
  all_chars is_digit s = true -> digits acc k s = ((scan_digits acc s).1, (k + String.length s)%nat, "").
Proof.
  revert acc k. induction s as [|c s IH]; intros acc k Hs; [simpl; by rewrite Nat.add_0_r|]. cbn [all_chars] in Hs.
  apply andb_true_iff in Hs as [Hc Hs]. cbn [digits scan_digits String.length]. rewrite Hc, IH by done.
  do 2 f_equal. lia.
Qed.

Lemma pretty_neg (n : Z) : n < 0 -> pretty n = String "-" (pretty (- n)).
Proof. destruct n as [|p|p]; [lia|lia|]. intros _. done. Qed.

Lemma pretty_int_chars (n : Z) : all_chars int_char (pretty n) = true.
Proof.
  assert (H : forall m, 0 <= m -> all_chars int_char (pretty m) = true).
  { intros m Hm. eapply all_chars_impl, scan_digits_all, scan_pretty_nil, Hm. intros c Hc. unfold int_char. by rewrite Hc. }
  destruct (decide (0 <= n)); [by apply H|]. rewrite pretty_neg by lia. cbn [all_chars]. rewrite H by lia. done.
Qed.

(** An integer that fits is read back. *)
Lemma sscanf_pretty (n : Z) : - 2 ^ 63 <= n < 2 ^ 63 -> sscanf_int64 (pretty n) = Some n.
Proof.
  intros Hn. unfold sscanf_int64.
  assert (H : forall m, 0 <= m -> digits 0 0 (pretty m) = (m, String.length (pretty m), "") /\ (String.length (pretty m) <> 0)%nat).
  { intros m Hm. pose proof (scan_pretty_nil m Hm) as E. rewrite digits_scan by (by eapply scan_digits_all). rewrite E.
    split; [done|]. destruct (pretty_digit m Hm) as (c & s & -> & _). done. }
  destruct (decide (0 <= n)) as [Hp|Hp].
  - destruct (pretty_digit n Hp) as (c & s & E & Hc). destruct (H n Hp) as [Hd Hl].
    assert (read_sign (pretty n) = (false, pretty n)) as ->.
    { rewrite E. simpl. unfold is_digit in Hc. destruct (Z.eqb_spec (code c) 45); [lia|]. destruct (Z.eqb_spec (code c) 43); [lia|done]. }
    cbn [fst snd]. rewrite Hd. rewrite (proj2 (Nat.eqb_neq _ _)) by done. f_equal. lia.
  - destruct (H (- n) ltac:(lia)) as [Hd Hl]. rewrite pretty_neg by lia.
    change (read_sign (String "-" (pretty (- n)))) with (true, pretty (- n)). cbn [fst snd].
    rewrite Hd, (proj2 (Nat.eqb_neq _ _)) by done. f_equal. lia.
Qed.

(** With [parse] for the nested documents, the text [b] is read as the value [v]. *)
Definition reads (parse : string -> presult (json * string)) (b : string) (v : jvalue) : Prop :=
  (exists c b', b = String c b' /\ value_start c = true) /\
  forall rest key o, delim rest -> fill_value parse (b +:+ rest) key o = POk (json_add o key v, rest).

Lemma reads_int (parse : string -> presult (json * string)) (n : Z) :
  - 2 ^ 63 <= n < 2 ^ 63 -> reads parse (pretty n) (VWord ValueInt64 (u64 n)).
Proof.
  intros Hn.
  assert (exists c b, pretty n = String c b /\ (is_digit c = true \/ code c = 45)) as (c & b & E & Hc).
  { destruct (decide (0 <= n)) as [Hp|Hp]; [destruct (pretty_digit n Hp) as (c & s & E & Hc); eauto|].
    rewrite pretty_neg by lia. eauto. }
  split.
  { exists c, b. split; [done|]. unfold value_start, is_digit, is_code in *. lia. }
  intros rest key o Hr. pose proof (read_number_int (pretty n) rest None false (pretty_int_chars n) Hr) as Hrd.
  pose proof (sscanf_pretty n Hn) as Hs. rewrite E in *.
  unfold fill_value. change (head (String c b +:+ rest)) with (Some c).
  assert (is_code 34 c = false /\ is_code 45 c || is_code 43 c || is_digit c = true) as [H34 Hnum]
    by (unfold is_code, is_digit in *; lia).
  cbv iota beta. rewrite H34, Hnum, Hrd. cbv iota beta. unfold extended. rewrite !default_some.
  change (default "" None) with "". change ("" +:+ String c b) with (String c b). rewrite Hs. done.
Qed.

Lemma reads_string (parse : string -> presult (json * string)) (s : string) :
  reads parse (quote +:+ escape s +:+ quote) (VStr ValueString (Some s)).
Proof.
  split; [by eexists _, _|]. intros rest key o _. rewrite !sapp_assoc. unfold fill_value.
  change (head (quote +:+ escape s +:+ quote +:+ rest)) with (Some "034"%char).
  change (tail (quote +:+ escape s +:+ quote +:+ rest)) with (escape s +:+ quote +:+ rest).
  change (is_code 34 "034") with true. cbv iota beta. rewrite read_text_escape.
  change (quote +:+ rest) with (String "034" rest). cbv iota beta.
  replace (default "" (extended None s)) with s by (by destruct s). done.
Qed.

Lemma reads_word (parse : string -> presult (json * string)) (w : string) (v : jvalue) :
  (w = "null" /\ v = VStr ValueString None) \/ (w = "true" /\ v = VWord ValueBool 1) \/
    (w = "false" /\ v = VWord ValueBool 0) ->
  reads parse w v.
Proof.
  intros H. split; [destruct H as [[-> ->]|[[-> ->]|[-> ->]]]; by eexists _, _|]. intros rest key o Hr.
  assert (Hw : read_word (w +:+ rest) None = (Some w, rest)).
  { destruct H as [[-> _]|[[-> _]|[-> _]]]; rewrite read_word_lower by done; done. }
  unfold fill_value. destruct H as [[-> ->]|[[-> ->]|[-> ->]]]; cbn [head append String.append] in *; rewrite Hw; done.
Qed.

Lemma reads_word_text (parse : string -> presult (json * string)) (t : value_type) (w : Z) (b : string) :
  vok (VWord t w) -> word_text t w = Some b -> reads parse b (vnorm (VWord t w)).
Proof.
  intros Hv Hb. inversion Hv as [t' w' Ht Hw| | |]; subst.
  - assert (b = pretty (int_value t w) /\ vnorm (VWord t w) = VWord ValueInt64 (u64 (int_value t w))) as [-> ->].
    { destruct t; try done; simpl in Hb; by simplify_eq. }
    apply reads_int. split; [|done].
    destruct t; try done; cbn [int_value]; unfold wrapu, wraps; simpl Z.sub; match goal with |- context [?a mod ?b] => pose proof (Z.mod_pos_bound a b) end; lia.
  - simpl in Hb. simplify_eq. cbn [vnorm]. apply reads_word. destruct (u64 w =? 0); auto.
Qed.

Lemma reads_string_text (parse : string -> presult (json * string)) (t : value_type) (s : option string) (fmt : format) :
  fmt <> FORMAT_TEXT -> reads parse (default "" (string_text s fmt)) (vnorm (VStr t s)).
Proof.
  intros Hf. destruct s as [[|c s]|]; cbn [string_text]; rewrite bool_decide_false by done; rewrite default_some.
  - apply (reads_string parse "").
  - apply (reads_string parse (String c s)).
  - apply reads_word. auto.
Qed.

(** ** Reading the members of an object *)

Lemma skip_app (p : ascii -> bool) (a s : string) : all_chars p a = true -> skip p (a +:+ s) = skip p s.
Proof.
  induction a as [|c a IH]; [done|]. cbn [all_chars]. intros [Hc Ha]%andb_true_iff.
  change (String c a +:+ s) with (String c (a +:+ s)). cbn [skip]. rewrite Hc. by apply IH.
Qed.

Lemma skip_stop (p : ascii -> bool) (c : ascii) (s : string) : p c = false -> skip p (String c s) = String c s.
Proof. intros H. simpl. by rewrite H. Qed.

Lemma spaces_space (n : nat) : all_chars is_space (spaces n) = true.
Proof. by induction n. Qed.

Lemma nl_space (fmt : format) : all_chars is_space (nl fmt) = true.
Proof. unfold nl. by case_bool_decide. Qed.

Lemma outer_space (fmt : format) (n : Z) : all_chars is_space (outer fmt n) = true.
Proof. unfold outer. case_bool_decide; [apply spaces_space|done]. Qed.

Lemma space_not_quote (a : string) :
  all_chars is_space a = true -> all_chars (fun c => negb (is_code 34 c)) a = true.
Proof. apply all_chars_impl. intros c. unfold is_space, is_code. cbv zeta. lia. Qed.

Lemma space_not_start (a : string) :
  all_chars is_space a = true -> all_chars (fun c => negb (value_start c)) a = true.
Proof. apply all_chars_impl. intros c. unfold is_space, value_start, is_digit, is_code. cbv zeta. lia. Qed.

Lemma parse_key_text (a key : string) (fmt : format) (b : string) (c : ascii) :
  all_chars is_space a = true -> key <> "" -> value_start c = true ->
  parse_key (a +:+ quote +:+ escape key +:+ quote +:+ colon fmt +:+ String c b) = Some (key, String c b).
Proof.
  intros Ha Hk Hc. unfold parse_key. rewrite skip_app by (by apply space_not_quote).
  change (quote +:+ escape key +:+ quote +:+ colon fmt +:+ String c b)
    with (String "034" (escape key +:+ quote +:+ colon fmt +:+ String c b)).
  rewrite skip_stop by done. rewrite read_text_escape.
  assert (extended None key = Some key) as -> by (by destruct key).
  change (quote +:+ colon fmt +:+ String c b) with (String "034" (colon fmt +:+ String c b)).
  assert (exists d, colon fmt = String ":" d /\ all_chars is_space d = true) as (d & -> & Hd).
  { unfold colon. case_bool_decide; by eexists. }
  change (String ":" d +:+ String c b) with (String ":" (d +:+ String c b)). cbv iota beta.
  change (skip _ (String "034" (String ":" (d +:+ String c b)))) with (String ":" (d +:+ String c b)).
  cbn [head]. change (is_code 58 ":") with true. cbv iota.
  change (skip ?p (String ":" (d +:+ String c b))) with (skip p (d +:+ String c b)).
  rewrite skip_app by (eapply all_chars_impl, Hd; intros e ->; apply orb_true_r).
  rewrite skip_stop; [done|]. unfold value_start, is_digit, is_space, is_code in *. cbv zeta. lia.
Qed.

(** An object from the values that are added to it. *)
Definition add_members (o : json) (es : list (string * jvalue)) : json :=
  fold_left (fun o e => json_add o (Some e.1) e.2) es o.
Definition add_entries (o : json) (es : list jvalue) : json := fold_left (fun o v => json_add o None v) es o.

Section loops.
Context (parse : string -> presult (json * string)) (fmt : format) (n : Z) (body : jvalue -> string).
Let ws := spaces (Z.to_nat (inner fmt n)).

Lemma delim_sep {A} (es : list A) (d : ascii) (s rest : string) :
  code d = 125 \/ code d = 93 ->
  (es = [] -> s = outer fmt n +:+ String d rest) -> delim (sep fmt es +:+ s).
Proof.
  intros Hd Hs. destruct es as [|e es]; unfold delim; [|simpl; auto]. rewrite Hs by done.
  unfold sep, nl, outer. case_bool_decide; simpl; tauto.
Qed.

(** The members that follow one another, and the end of the object. *)
Lemma parse_item_text (es : list (string * jvalue)) (j : nat) (o : json) (rest : string) :
  (length es < j)%nat -> (forall key v, (key, v) ∈ es -> key <> "" /\ reads parse (body v) (vnorm v)) ->
  parse_item j parse (sep fmt es +:+ mtext fmt ws (map (fun e => (e.1, body e.2)) es) (outer fmt n +:+ "}" +:+ rest)) o =
    POk (add_members o (map (fun e => (e.1, vnorm e.2)) es), rest).
Proof.
  revert j o. induction es as [|[key v] es IH]; intros [|j] o Hj Hes; try (simpl in Hj; lia).
  - assert (Hs : skip is_space (sep fmt ([] : list (string * jvalue)) +:+ outer fmt n +:+ "}" +:+ rest) = "}" +:+ rest).
    { unfold sep. rewrite skip_app by apply nl_space. rewrite skip_app by apply outer_space. done. }
    cbn [map mtext parse_item]. rewrite Hs.
    destruct (sep fmt [] +:+ outer fmt n +:+ "}" +:+ rest); done.
  - destruct (Hes key v ltac:(left)) as [Hk [(c & b & Hb & Hc) Hr]].
    set (t := sep fmt es +:+ mtext fmt ws (map (fun e => (e.1, body e.2)) es) (outer fmt n +:+ "}" +:+ rest)).
    assert (Ht : mtext fmt ws (map (fun e => (e.1, body e.2)) ((key, v) :: es)) (outer fmt n +:+ "}" +:+ rest) =
      ws +:+ quote +:+ escape key +:+ quote +:+ colon fmt +:+ body v +:+ t).
    { cbn [map mtext fst snd]. by rewrite sep_map. }
    rewrite Ht. change (sep fmt ((key, v) :: es)) with (String "," (nl fmt)).
    change (String "," (nl fmt) +:+ ?s) with (String "," (nl fmt +:+ s)). cbn [parse_item].
    rewrite skip_stop by done. cbn [head tail]. change (is_code 44 ",") with true. cbv iota.
    rewrite <- sapp_assoc, Hb. change (String c b +:+ t) with (String c (b +:+ t)).
    rewrite parse_key_text; [|rewrite all_chars_app, nl_space; apply spaces_space|done|done]. cbv iota beta.
    change (String c (b +:+ t)) with (String c b +:+ t). rewrite <- Hb, Hr.
    + cbn [mbind presult_bind fst snd]. subst t. rewrite IH; [done|simpl in Hj; lia|]. intros key' v' Hin. apply Hes. by right.
    + eapply (delim_sep es "}"); [by left|]. intros ->. done.
Qed.

Lemma parse_array_text (es : list jvalue) (j : nat) (o : json) (rest : string) :
  (length es < j)%nat -> (forall v, v ∈ es -> reads parse (body v) (vnorm v)) ->
  parse_array j parse (sep fmt es +:+ atext fmt ws (map body es) (outer fmt n +:+ "]" +:+ rest)) o =
    POk (add_entries o (map vnorm es), rest).
Proof.
  revert j o. induction es as [|v es IH]; intros [|j] o Hj Hes; try (simpl in Hj; lia).
  - assert (Hs : skip is_space (sep fmt ([] : list jvalue) +:+ outer fmt n +:+ "]" +:+ rest) = "]" +:+ rest).
    { unfold sep. rewrite skip_app by apply nl_space. rewrite skip_app by apply outer_space. done. }
    cbn [map atext parse_array]. rewrite Hs.
    destruct (sep fmt [] +:+ outer fmt n +:+ "]" +:+ rest); done.
  - destruct (Hes v ltac:(left)) as [(c & b & Hb & Hc) Hr].
    set (t := sep fmt es +:+ atext fmt ws (map body es) (outer fmt n +:+ "]" +:+ rest)).
    assert (Ht : atext fmt ws (map body (v :: es)) (outer fmt n +:+ "]" +:+ rest) = ws +:+ body v +:+ t).
    { cbn [map atext]. by rewrite sep_map. }
    rewrite Ht. change (sep fmt (v :: es)) with (String "," (nl fmt)).
    change (String "," (nl fmt) +:+ ?s) with (String "," (nl fmt +:+ s)). cbn [parse_array].
    rewrite skip_stop by done. cbn [head tail]. change (is_code 44 ",") with true. cbv iota.
    rewrite skip_app by apply space_not_start, nl_space. rewrite skip_app by apply space_not_start, spaces_space.
    rewrite Hb. change (String c b +:+ t) with (String c (b +:+ t)). rewrite skip_stop by (by rewrite Hc).
    change (String c (b +:+ t)) with (String c b +:+ t). rewrite <- Hb, Hr.
    + cbn [mbind presult_bind fst snd]. subst t. rewrite IH; [done|simpl in Hj; lia|]. intros v' Hin. apply Hes. by right.
    + eapply (delim_sep es "]"); [by right|]. intros ->. done.
Qed.

(** The first member is read as one after a comma. *)
Lemma parse_item_first (j : nat) (a s : string) :
  all_chars is_space a = true ->
  parse_item (S j) parse (a +:+ quote +:+ s) JSONUnknown = parse_item (S j) parse ("," +:+ a +:+ quote +:+ s) JSONUnknown.
Proof.
  intros Ha. assert (Hk : parse_key (a +:+ quote +:+ s) = parse_key (quote +:+ s)).
  { unfold parse_key. by rewrite skip_app by (by apply space_not_quote). }
  assert (Hl : parse_item (S j) parse ("," +:+ a +:+ quote +:+ s) JSONUnknown =
    match parse_key (a +:+ quote +:+ s) with
    | None => PErr
    | Some (key, s) => r ← fill_value parse s (Some key) JSONUnknown; parse_item j parse r.2 r.1
    end) by done.
  rewrite Hl, Hk. cbn [parse_item]. rewrite skip_app by done.
  by destruct (a +:+ quote +:+ s) eqn:E; [destruct a|].
Qed.

Lemma parse_array_first (j : nat) (a s : string) (c : ascii) :
  all_chars is_space a = true -> value_start c = true ->
  parse_array (S j) parse (a +:+ String c s) JSONUnknown = parse_array (S j) parse ("," +:+ a +:+ String c s) JSONUnknown.
Proof.
  intros Ha Hc.
  assert (Hl : parse_array (S j) parse ("," +:+ a +:+ String c s) JSONUnknown =
    match skip (fun c => negb (value_start c)) (a +:+ String c s) with
    | EmptyString => PErr
    | u => r ← fill_value parse u None JSONUnknown; parse_array j parse r.2 r.1
    end) by done.
  rewrite Hl. rewrite skip_app by (by apply space_not_start). cbn [parse_array]. rewrite skip_app by done.
  assert (is_space c = false /\ is_code 44 c = false /\ is_code 93 c = false) as (H1 & H2 & H3)
    by (unfold value_start, is_digit, is_space, is_code in *; cbv zeta; lia).
  rewrite (skip_stop is_space) by done. cbn [head tail]. rewrite H2, H3, Hc. cbn [andb is_unknown negb].
  by destruct (a +:+ String c s) eqn:E; [destruct a|].
Qed.
End loops.

(** ** What is printed is read back *)

Lemma item_put_last (key : string) (v : jvalue) (es : list (string * jvalue)) :
  (forall k, k ∈ es.*1 -> key_before k key) -> item_put key v es = es ++ [(key, v)].
Proof.
  induction es as [|[k w] es IH]; intros H; [done|]. cbn [item_put].
  assert (strcmp key k > 0) by (rewrite strcmp_opp; specialize (H k ltac:(left)); unfold key_before in H; lia).
  rewrite (proj2 (Z.ltb_ge _ _)), (proj2 (Z.eqb_neq _ _)) by lia. rewrite IH; [done|].
  intros k' Hk'. apply H. by right.
Qed.

(** A value that the parser makes. *)
Definition parsed (v : jvalue) : Prop := type_allowed (jtype v) = true /\ jtype v <> ValueNone.

Lemma vnorm_parsed (v : jvalue) : vok v -> parsed (vnorm v).
Proof. intros H. inversion H as [t w Ht| | |]; subst; [by destruct t|done..]. Qed.

Lemma add_members_sorted (es es' : list (string * jvalue)) :
  StronglySorted key_before (es ++ es').*1 -> (forall key v, (key, v) ∈ es' -> key <> "" /\ parsed v) ->
  add_members (JSONItem es) es' = JSONItem (es ++ es').
Proof.
  revert es. induction es' as [|[key v] es' IH]; intros es Hs H; [by rewrite app_nil_r|].
  destruct (H key v ltac:(left)) as [Hk [Ha Hn]]. unfold add_members. cbn [fold_left fst snd json_add].
  assert (json_put (JSONItem es) (Some key) v = (0, JSONItem (es ++ [(key, v)]))) as ->.
  { unfold json_put. rewrite Ha. destruct key as [|c key]; [done|]. cbn [negb orb String.length Nat.eqb].
    rewrite bool_decide_false by done. rewrite item_put_last; [done|]. intros k Hin.
    rewrite fmap_app in Hs. eapply StronglySorted_app in Hs as (Hs & _ & _). apply (Hs k); [done|left]. }
  change (add_members (JSONItem (es ++ [(key, v)])) es' = JSONItem (es ++ (key, v) :: es')).
  rewrite IH; [by rewrite <- app_assoc|by rewrite <- app_assoc|]. intros k w Hin. apply H. by right.
Qed.

Lemma add_entries_all (es es' : list jvalue) :
  (forall v, v ∈ es' -> parsed v) -> add_entries (JSONArray es) es' = JSONArray (es ++ es').
Proof.
  revert es. induction es' as [|v es' IH]; intros es H; [by rewrite app_nil_r|].
  destruct (H v ltac:(left)) as [Ha Hn]. unfold add_entries. cbn [fold_left json_add].
  assert (json_append (JSONArray es) v = (0, JSONArray (es ++ [v]))) as ->.
  { unfold json_append. rewrite Ha. cbn [negb]. by rewrite bool_decide_false by done. }
  change (add_entries (JSONArray (es ++ [v])) es' = JSONArray (es ++ v :: es')).
  rewrite IH; [by rewrite <- app_assoc|]. intros w Hin. apply H. by right.
Qed.

Lemma mtext_app (fmt : format) (ws : string) (es : list (string * string)) (a b : string) :
  mtext fmt ws es a +:+ b = mtext fmt ws es (a +:+ b).
Proof. induction es as [|[k t] es IH]; [done|]. cbn [mtext]. rewrite !sapp_assoc. by rewrite IH. Qed.

Lemma atext_app (fmt : format) (ws : string) (es : list string) (a b : string) :
  atext fmt ws es a +:+ b = atext fmt ws es (a +:+ b).
Proof. induction es as [|t es IH]; [done|]. cbn [atext]. rewrite !sapp_assoc. by rewrite IH. Qed.

Lemma mtext_length (fmt : format) (ws : string) (es : list (string * string)) (r : string) :
  (length es + String.length r <= String.length (mtext fmt ws es r))%nat /\
  forall k b, (k, b) ∈ es -> (String.length b <= String.length (mtext fmt ws es r))%nat.
Proof.
  induction es as [|[k t] es [IH1 IH2]]; cbn [mtext length]; [split; [lia|by intros ?? ?%elem_of_nil]|].
  rewrite !slength_app. change (String.length quote) with 1%nat. split; [lia|].
  intros k' b [[= -> ->]|Hin]%elem_of_cons; [lia|]. apply IH2 in Hin. lia.
Qed.

Lemma atext_length (fmt : format) (ws : string) (es : list string) (r : string) :
  (forall b, b ∈ es -> b <> "") ->
  (length es + String.length r <= String.length (atext fmt ws es r))%nat /\
  forall b, b ∈ es -> (String.length b <= String.length (atext fmt ws es r))%nat.
Proof.
  induction es as [|t es IH]; intros H; cbn [atext length]; [split; [lia|by intros ? ?%elem_of_nil]|].
  destruct IH as [IH1 IH2]; [intros b Hb; apply H; by right|]. specialize (H t ltac:(left)).
  rewrite !slength_app. destruct t as [|c t]; [done|]. cbn [String.length]. split; [lia|].
  intros b [-> |Hin]%elem_of_cons; [simpl; lia|]. apply IH2 in Hin. lia.
Qed.

(** The document at the head of the text, read with the fuel [kp]. *)
Definition reads_doc (kp : nat) (b : string) (o : json) : Prop :=
  (exists c b', b = String c b' /\ (is_code 123 c || is_code 91 c) = true) /\
  forall rest, parse_string kp (b +:+ rest) = POk (o, rest).

Lemma reads_json (kp : nat) (b : string) (o : json) : reads_doc kp b o -> reads (parse_string kp) b (VJson o).
Proof.
  intros [(c & b' & -> & Hc) H]. split.
  { exists c, b'. split; [done|]. unfold value_start, is_code, is_digit in *. lia. }
  intros rest key o' _. unfold fill_value. change (head (String c b' +:+ rest)) with (Some c). cbv iota beta.
  assert (is_code 34 c = false /\ is_code 45 c || is_code 43 c || is_digit c = false) as [-> ->]
    by (unfold is_code, is_digit in *; lia).
  rewrite Hc. by rewrite H.
Qed.

Lemma add_members_norm (es : list (string * jvalue)) :
  es <> [] -> jok (JSONItem es) -> add_members JSONUnknown (map (fun e => (e.1, vnorm e.2)) es) = jnorm (JSONItem es).
Proof.
  intros Hne H. inversion H as [|? Hs He|]; subst.
  assert (E : add_members (JSONItem []) (map (fun e => (e.1, vnorm e.2)) es) = JSONItem (map (fun e => (e.1, vnorm e.2)) es)).
  { apply (add_members_sorted []).
    - assert (Hk : (map (fun e : string * jvalue => (e.1, vnorm e.2)) es).*1 = es.*1) by (rewrite <- list_fmap_compose; done).
      by simpl; rewrite Hk.
    - intros key v ([k w] & [= -> ->] & Hin)%list_elem_of_fmap. simpl. destruct (He _ _ Hin) as [Hk Hv].
      split; [done|]. by apply vnorm_parsed. }
  destruct es as [|e es]; [done|exact E].
Qed.

Lemma add_entries_norm (es : list jvalue) :
  es <> [] -> jok (JSONArray es) -> add_entries JSONUnknown (map vnorm es) = jnorm (JSONArray es).
Proof.
  intros Hne H. inversion H as [| |? He]; subst.
  assert (E : add_entries (JSONArray []) (map vnorm es) = JSONArray (map vnorm es)).
  { apply (add_entries_all []). intros v (w & -> & Hin)%list_elem_of_fmap. by apply vnorm_parsed, He. }
  destruct es as [|e es]; [done|exact E].
Qed.

Lemma reads_item (kp : nat) (fmt : format) (n : Z) (body : jvalue -> string) (es : list (string * jvalue)) :
  let b := "{" +:+ nl fmt +:+ mtext fmt (spaces (Z.to_nat (inner fmt n))) (map (fun e => (e.1, body e.2)) es)
             (outer fmt n +:+ "}") in
  es <> [] -> jok (JSONItem es) -> (String.length b <= kp)%nat ->
  (forall key v k, (key, v) ∈ es -> (String.length (body v) <= k)%nat -> reads (parse_string k) (body v) (vnorm v)) ->
  reads_doc kp b (jnorm (JSONItem es)).
Proof.
  intros b Hne Ho Hkp H. unfold b in *. split; [by eexists _, _|]. intros rest.
  destruct kp as [|kp]; [simpl in Hkp; lia|]. rewrite !sapp_assoc, mtext_app, sapp_assoc.
  set (ms := map (fun e => (e.1, body e.2)) es) in *. set (ws := spaces (Z.to_nat (inner fmt n))) in *.
  assert (Hlen : (length es + 1 <= kp)%nat /\ forall key v, (key, v) ∈ es -> (String.length (body v) <= kp)%nat).
  { destruct (mtext_length fmt ws ms (outer fmt n +:+ "}")) as [Hl Hb]. rewrite !slength_app in Hl. simpl in Hkp, Hl. rewrite !slength_app in Hkp.
    assert (length ms = length es) as Hms by apply length_map. rewrite Hms in Hl. split; [lia|]. intros key v Hin.
    enough (String.length (body v) <= String.length (mtext fmt ws ms (outer fmt n +:+ "}")))%nat by lia.
    apply (Hb key). apply list_elem_of_fmap. by exists (key, v). }
  destruct Hlen as [Hl Hb]. inversion Ho as [|? _ He|]; subst.
  change (parse_string (S kp) ("{" +:+ ?s)) with (parse_item kp (parse_string kp) s JSONUnknown).
  assert (exists s, mtext fmt ws ms (outer fmt n +:+ "}" +:+ rest) = ws +:+ quote +:+ s) as [s Es].
  { unfold ms. destruct es as [|e es]; [done|]. by eexists. }
  destruct kp as [|kp]; [lia|]. rewrite Es, <- sapp_assoc, parse_item_first
    by (rewrite all_chars_app, nl_space; apply spaces_space).
  rewrite sapp_assoc, <- Es, <- add_members_norm by done.
  rewrite <- (parse_item_text (parse_string (S kp)) fmt n body es (S kp)).
  - unfold sep. destruct es; [done|]. by rewrite sapp_assoc.
  - lia.
  - intros key v Hin. split; [by eapply He|]. eapply H; eauto.
Qed.

Lemma reads_array (kp : nat) (fmt : format) (n : Z) (body : jvalue -> string) (es : list jvalue) :
  let b := "[" +:+ nl fmt +:+ atext fmt (spaces (Z.to_nat (inner fmt n))) (map body es) (outer fmt n +:+ "]") in
  es <> [] -> jok (JSONArray es) -> (String.length b <= kp)%nat ->
  (forall v k, v ∈ es -> (String.length (body v) <= k)%nat -> reads (parse_string k) (body v) (vnorm v)) ->
  reads_doc kp b (jnorm (JSONArray es)).
Proof.
  intros b Hne Ho Hkp H. unfold b in *. split; [by eexists _, _|]. intros rest.
  destruct kp as [|kp]; [simpl in Hkp; lia|]. rewrite !sapp_assoc, atext_app, sapp_assoc.
  set (ws := spaces (Z.to_nat (inner fmt n))) in *.
  assert (Hst : forall v, v ∈ es -> exists c b', body v = String c b' /\ value_start c = true)
    by (intros v Hin; by destruct (H v (String.length (body v)) Hin) as [? _]).
  assert (Hlen : (length es + 1 <= kp)%nat /\ forall v, v ∈ es -> (String.length (body v) <= kp)%nat).
  { destruct (atext_length fmt ws (map body es) (outer fmt n +:+ "]")) as [Hl Hb].
    { intros b' (v & -> & Hin)%list_elem_of_fmap. destruct (Hst v Hin) as (c & b' & -> & _). done. }
    rewrite !slength_app in Hl. simpl in Hkp, Hl. rewrite !slength_app in Hkp. rewrite length_map in Hl. split; [lia|]. intros v Hin.
    enough (String.length (body v) <= String.length (atext fmt ws (map body es) (outer fmt n +:+ "]")))%nat by lia.
    apply Hb. apply list_elem_of_fmap. by exists v. }
  destruct Hlen as [Hl Hb]. 
  change (parse_string (S kp) ("[" +:+ ?s)) with (parse_array kp (parse_string kp) s JSONUnknown).
  assert (exists c s, atext fmt ws (map body es) (outer fmt n +:+ "]" +:+ rest) = ws +:+ String c s /\ value_start c = true)
    as (c & s & Es & Hc).
  { destruct es as [|e es]; [done|]. destruct (Hst e ltac:(left)) as (c & b' & Eb & Hc). cbn [map atext]. rewrite Eb.
    by eexists c, _. }
  destruct kp as [|kp]; [lia|]. rewrite Es, <- sapp_assoc, parse_array_first
    by first [done|rewrite all_chars_app, nl_space; apply spaces_space].
  rewrite sapp_assoc, <- Es, <- add_entries_norm by done.
  rewrite <- (parse_array_text (parse_string (S kp)) fmt n body es (S kp)).
  - unfold sep. destruct es; [done|]. by rewrite sapp_assoc.
  - lia.
  - intros v Hin. eapply H; eauto.
Qed.

Lemma reads_doc_body (fmt : format) (k : nat) (o : json) (n : Z) (kp : nat) :
  jok o -> (jdepth o <= k)%nat -> (String.length (vbody (S k) (VJson o) fmt n) <= kp)%nat ->
  (forall v m kp, vok v -> (vdepth v <= k)%nat -> (String.length (vbody k v fmt m) <= kp)%nat ->
     reads (parse_string kp) (vbody k v fmt m) (vnorm v)) ->
  reads_doc kp (vbody (S k) (VJson o) fmt n) (jnorm o).
Proof.
  intros Ho Hk Hkp IH.
  assert (Hempty : forall b, b = "{}" \/ b = "[]" -> (String.length b <= kp)%nat -> reads_doc kp b JSONUnknown).
  { intros b Hb Hl. split; [destruct Hb as [-> | ->]; by eexists _, _|]. intros rest.
    destruct Hb as [-> | ->]; simpl in Hl; (do 2 (destruct kp as [|kp]; [lia|])); done. }
  destruct o as [|[|e es]|[|e es]]; try (by apply Hempty; [auto|]).
  - inversion Ho as [|? _ He|]; subst. apply (reads_item kp fmt n (fun v => vbody k v fmt (inner fmt n))); [done|done|exact Hkp|].
    intros key v k' Hin. apply IH; [by eapply He|]. apply vdepth_item in Hin. lia.
  - inversion Ho as [| |? He]; subst. apply (reads_array kp fmt n (fun v => vbody k v fmt (inner fmt n))); [done|done|exact Hkp|].
    intros v k' Hin. apply IH; [by apply He|]. apply vdepth_array in Hin. lia.
Qed.

Lemma reads_body (fmt : format) (k : nat) (v : jvalue) (n : Z) (kp : nat) :
  fmt <> FORMAT_TEXT -> vok v -> (vdepth v <= k)%nat -> (String.length (vbody k v fmt n) <= kp)%nat ->
  reads (parse_string kp) (vbody k v fmt n) (vnorm v).
Proof.
  intros Hf. revert v n kp. induction k as [|k IH]; intros v n kp Hv Hk; destruct v as [t w|t s|o]; try (simpl in Hk; lia).
  1,3: intros _; destruct (word_text_some t w Hv) as [b Hb]; cbn [vbody]; rewrite Hb, default_some; by eapply reads_word_text.
  1,2: intros _; by apply reads_string_text.
  intros Hkp. inversion Hv as [| | |? Ho]; subst. cbn [vnorm]. apply reads_json.
  change (vdepth (VJson o)) with (S (jdepth o)) in Hk. apply reads_doc_body; [done|lia|done|apply IH].
Qed.

Lemma vbody_length (k : nat) (o : json) (fmt : format) (n : Z) : (2 <= String.length (vbody (S k) (VJson o) fmt n))%nat.
Proof.
  destruct o as [|[|e es]|[|e es]]; cbn [vbody]; try (simpl; lia).
  - rewrite !slength_app. match goal with |- context [mtext ?f ?w ?m ?r] => destruct (mtext_length f w m r) as [Hl _] end.
    simpl in Hl |- *. lia.
  - rewrite !slength_app. cbn [map atext]. set (m := map _ es). clearbody m.
    assert (H : forall ws r, (String.length r <= String.length (atext fmt ws m r))%nat).
    { intros ws r. clear. induction m as [|b m IH]; cbn [atext]; [done|]. rewrite !slength_app. lia. }
    specialize (H (spaces (Z.to_nat (inner fmt n))) (outer fmt n +:+ "]")). rewrite slength_app in H.
    rewrite !slength_app. change (String.length "[") with 1%nat. change (String.length "]") with 1%nat in H. lia.
Qed.

Lemma json_reads_back (o : json) (fmt : format) :
  jok o -> fmt <> FORMAT_TEXT -> json_parse_string (json_to_string o fmt None 0) = POk (jnorm o).
Proof.
  intros Ho Hf.
  change (json_to_string o fmt None 0) with (value_to_string (S (jdepth o)) (VJson o) fmt None 0).
  rewrite (value_to_string_text (S (jdepth o)) (VJson o) fmt 0 Hf (vok_json o Ho) (le_n _) None).
  change (spaces (Z.to_nat 0) +:+ default "" None +:+ ?b) with b.
  pose proof (vbody_length (jdepth o) o fmt 0) as Hl. set (b := vbody _ (VJson o) fmt 0) in *.
  assert (reads_doc (S (String.length b)) b (jnorm o)) as [_ Hr].
  { apply reads_doc_body; [done|done|apply Nat.le_succ_diag_r|]. intros v m kp. by apply reads_body. }
  unfold json_parse_string. rewrite (proj2 (Nat.ltb_ge _ _)) by done.
  specialize (Hr ""). rewrite sapp_nil_r in Hr. by rewrite Hr.
Qed.

(** C21: a document that is printed in one of the JSON formats is read back: integers
    within an [int64_t], booleans, strings and nested objects come back as they were,
    up to the widths of integers and the kind of an empty object; that is also its clone. *)
Theorem json_roundtrip (o : json) (Ho : jok o) :
  (forall fmt, fmt <> FORMAT_TEXT -> json_parse_string (json_to_string o fmt None 0) = POk (jnorm o)) /\
  json_clone o = POk (jnorm o).
Proof. split; [intros fmt Hf|]; by apply json_reads_back. Qed.

(** A document with every kind of value. *)
Definition sample_doc : json :=
  JSONItem [("a", VWord ValueInt32 (u64 (-7))); ("b c", VStr ValueString (Some (String "034" ("x" +:+ newline))));
            ("d", VJson (JSONArray [VWord ValueBool 3; VStr ValueString None; VJson (JSONItem [])]))].

Lemma sample_doc_ok : jok sample_doc.
Proof.
  apply jok_item; [repeat constructor|]. intros k v Hin.
  apply elem_of_cons in Hin as [[= -> ->]|Hin]; [split; [done|]; by apply vok_int|].
  apply elem_of_cons in Hin as [[= -> ->]|Hin]; [split; [done|]; apply vok_str; by left|].
  apply list_elem_of_singleton in Hin as [= -> ->]. split; [done|]. apply vok_json, jok_array. intros v Hin.
  apply elem_of_cons in Hin as [-> |Hin]; [apply vok_bool|].
  apply elem_of_cons in Hin as [-> |Hin]; [apply vok_str; by left|].
  apply list_elem_of_singleton in Hin as ->. apply vok_json, jok_item; [constructor|]. by intros ?? ?%elem_of_nil.
Qed.

Lemma json_roundtrip_witness :
  json_parse_string (json_to_string sample_doc FORMAT_JSON None 0) = POk (jnorm sample_doc) /\
  jnorm sample_doc =
    JSONItem [("a", VWord ValueInt64 (2 ^ 64 - 7)); ("b c", VStr ValueString (Some (String "034" ("x" +:+ newline))));
              ("d", VJson (JSONArray [VWord ValueBool 1; VStr ValueString None; VJson JSONUnknown]))].
Proof. split; [exact (proj1 (json_roundtrip sample_doc sample_doc_ok) FORMAT_JSON ltac:(discriminate))|vm_compute; reflexivity]. Defined.

(** The text may end before the document does: a list or an object without its
    closing bracket is accepted as if it had one. *)
Theorem json_truncated_accepted (n : Z) (Hn : - 2 ^ 63 <= n < 2 ^ 63) :
  json_parse_string (Some ("[" +:+ pretty n)) = POk (JSONArray [VWord ValueInt64 (u64 n)]).
Proof.
  destruct (reads_int (parse_string (S (String.length (pretty n)))) n Hn) as [(c & b & Hb & Hc) Hr].
  specialize (Hr "" None JSONUnknown I). rewrite sapp_nil_r in Hr.
  assert (He : parse_string (S (S (String.length (pretty n)))) ("[" +:+ pretty n) =
    POk (JSONArray [VWord ValueInt64 (u64 n)], "")).
  { revert Hr. generalize (String.length (pretty n)) as l. intros l Hr.
    change (parse_string (S ?k) ("[" +:+ ?s)) with (parse_array k (parse_string k) s JSONUnknown).
    change (pretty n) with ("" +:+ pretty n). rewrite Hb in *. rewrite parse_array_first by done.
    change (parse_array (S ?k) ?p ("," +:+ "" +:+ ?s) ?o) with
      (match skip (fun c => negb (value_start c)) s with
       | EmptyString => PErr
       | u => r ← fill_value p u None o; parse_array k p r.2 r.1
       end).
    rewrite skip_stop by (by rewrite Hc). rewrite Hr. by destruct l. }
  unfold json_parse_string. change (String.length ("[" +:+ pretty n)) with (S (String.length (pretty n))).
  rewrite He, Hb. done.
Qed.

Lemma json_truncated_accepted_witness :
  json_parse_string (Some "[12") = POk (JSONArray [VWord ValueInt64 12]).
Proof. apply (json_truncated_accepted 12). lia. Defined.

(** ** Items as maps *)

Lemma key_before_trans (a b c : string) : key_before a b -> key_before b c -> key_before a c.
Proof.
  unfold key_before. intros H1 H2.
  assert (strcmp a c <= 0) by (eapply strcmp_trans; [apply Z.lt_le_incl, H1|lia]).
  destruct (decide (strcmp a c = 0)) as [E|]; [|lia]. apply strcmp_zero in E as ->.
  rewrite strcmp_opp in H2. lia.
Qed.

Lemma item_put_keys (key k : string) (v : jvalue) (es : list (string * jvalue)) :
  k ∈ (item_put key v es).*1 -> k = key \/ k ∈ es.*1.
Proof.
  induction es as [|[k' w] es IH]; cbn [item_put]; [intros H%list_elem_of_singleton; auto|].
  destruct (_ <? 0); [|destruct (_ =? 0)]; cbn [fmap list_fmap fst]; rewrite !elem_of_cons; tauto.
Qed.

Lemma item_put_sorted (key : string) (v : jvalue) (es : list (string * jvalue)) :
  StronglySorted key_before es.*1 -> StronglySorted key_before (item_put key v es).*1.
Proof.
  induction es as [|[k w] es IH]; cbn [item_put]; [repeat constructor|]. intros Hs.
  inversion Hs as [|? ? Hs' Hall]; subst. rewrite Forall_forall in Hall.
  destruct (Z.ltb_spec (strcmp key k) 0); [|destruct (Z.eqb_spec (strcmp key k) 0) as [E|]].
  - constructor; [done|]. apply Forall_forall. intros k' [-> |Hk']%elem_of_cons; [done|].
    by eapply key_before_trans, Hall.
  - apply strcmp_zero in E as ->. done.
  - constructor; [by apply IH|]. apply Forall_forall. intros k' [-> |Hk']%item_put_keys; [|by apply Hall].
    unfold key_before. cbn [fst]. rewrite strcmp_opp. lia.
Qed.

Lemma item_get_absent (k : string) (es : list (string * jvalue)) :
  (forall k', k' ∈ es.*1 -> key_before k k') -> item_get k es = None.
Proof.
  induction es as [|[k' w] es IH]; intros H; [done|]. cbn [item_get].
  rewrite (proj2 (Z.eqb_neq _ _)) by (specialize (H k' ltac:(left)); unfold key_before in H; lia).
  apply IH. intros k'' Hin. apply H. by right.
Qed.

Lemma strcmp_refl (k : string) : strcmp k k = 0.
Proof. by apply strcmp_zero. Qed.

Lemma item_get_put (key k : string) (v : jvalue) (es : list (string * jvalue)) :
  item_get k (item_put key v es) = if decide (k = key) then Some v else item_get k es.
Proof.
  induction es as [|[k' w] es IH]; cbn [item_put item_get].
  { case_decide as E; [subst; by rewrite strcmp_refl|]. destruct (Z.eqb_spec (strcmp k key) 0) as [?%strcmp_zero|]; done. }
  destruct (Z.ltb_spec (strcmp key k') 0); [|destruct (Z.eqb_spec (strcmp key k') 0) as [E%strcmp_zero|]]; cbn [item_get].
  - destruct (Z.eqb_spec (strcmp k key) 0) as [->%strcmp_zero|Hk]; [by rewrite decide_True|].
    rewrite decide_False; [done|]. intros ->. by rewrite strcmp_refl in Hk.
  - subst k'. destruct (Z.eqb_spec (strcmp k key) 0) as [->%strcmp_zero|Hk]; [by rewrite decide_True|].
    rewrite decide_False; [done|]. intros ->. by rewrite strcmp_refl in Hk.
  - rewrite IH. destruct (Z.eqb_spec (strcmp k k') 0) as [->%strcmp_zero|]; [|done].
    rewrite decide_False; [done|]. intros ->. by rewrite strcmp_refl in *.
Qed.

Lemma item_delete_sorted (key : string) (es : list (string * jvalue)) :
  StronglySorted key_before es.*1 ->
  StronglySorted key_before (item_delete key es).*1 /\
  forall k, item_get k (item_delete key es) = if decide (k = key) then None else item_get k es.
Proof.
  induction es as [|[k w] es IH]; intros Hs; cbn [item_delete]; [split; [done|]; intros k; by case_decide|].
  inversion Hs as [|? ? Hs' Hall]; subst. rewrite Forall_forall in Hall.
  destruct (Z.eqb_spec (strcmp key k) 0) as [->%strcmp_zero|Hne].
  - split; [done|]. intros k'. cbn [item_get]. case_decide as E; [subst; by apply item_get_absent|].
    destruct (Z.eqb_spec (strcmp k' k) 0) as [?%strcmp_zero|]; done.
  - destruct (IH Hs') as [Hd Hg]. split.
    + constructor; [done|]. apply Forall_forall. intros k' Hin. apply Hall. revert Hin. clear.
      induction es as [|[k'' w] es IH]; cbn [item_delete]; [done|]. destruct (_ =? 0); cbn [fmap list_fmap fst];
        rewrite !elem_of_cons; tauto.
    + intros k'. cbn [item_get]. rewrite Hg. destruct (Z.eqb_spec (strcmp k' k) 0) as [->%strcmp_zero|]; [|done].
      rewrite decide_False; [done|]. intros ->. by rewrite strcmp_refl in Hne.
Qed.

(** What a document answers for a key. *)
Definition members (o : json) (k : string) : option jvalue := json_get o (Some k).

(** On a document that is not an array, a put binds the key and nothing else, a remove
    unbinds it and nothing else (an empty item becomes a document without a kind), both
    keep the members in the order of the tree, and both refuse an empty key. *)
Theorem json_put_remove (es : list (string * jvalue)) (key : string) (v : jvalue)
  (Hs : StronglySorted key_before es.*1) (Hv : parsed v) :
  (let r := json_put (JSONItem es) (Some key) v in
   if (String.length key =? 0)%nat then r = (1, JSONItem es)
   else r.1 = 0 /\ (exists es', r.2 = JSONItem es' /\ StronglySorted key_before es'.*1) /\
     forall k, k <> "" -> members r.2 k = if decide (k = key) then Some v else members (JSONItem es) k) /\
  (let r := json_remove (JSONItem es) (Some key) in
   if (String.length key =? 0)%nat then r = (1, JSONItem es)
   else r.1 = 0 /\ (r.2 = JSONUnknown \/ exists es', r.2 = JSONItem es' /\ StronglySorted key_before es'.*1) /\
     forall k, k <> "" -> members r.2 k = if decide (k = key) then None else members (JSONItem es) k).
Proof.
  destruct Hv as [Ha Hn].
  assert (Hm : forall es k, k <> "" -> members (JSONItem es) k = item_get k es).
  { intros es' k Hk. unfold members, json_get. by destruct k. }
  split; cbv zeta.
  - unfold json_put. rewrite Ha. destruct (Nat.eqb_spec (String.length key) 0) as [Hk|Hk]; [done|]. cbn [negb orb].
    rewrite bool_decide_false by done. cbn [fst snd]. split; [done|]. split; [eexists; split; [done|by apply item_put_sorted]|].
    intros k Hk'. rewrite !Hm by done. apply item_get_put.
  - unfold json_remove. destruct (Nat.eqb_spec (String.length key) 0) as [Hk|Hk]; [done|].
    destruct (item_delete_sorted key es Hs) as [Hd Hg].
    destruct es as [|e es]; [cbn [fst snd]; split; [done|]; split; [right; by eexists|]; intros k Hk'; rewrite !Hm by done; by case_decide|].
    destruct (item_delete key (e :: es)) as [|e' es'] eqn:E; cbn [fst snd]; split; [done| |done|].
    + split; [by left|]. intros k Hk'. rewrite !Hm, <- Hg by done. done.
    + split; [right; by eexists|]. intros k Hk'. rewrite !Hm by done. apply Hg.
Qed.

Lemma json_put_remove_witness :
  let o := JSONItem [("a", VWord ValueBool 1); ("c", VWord ValueBool 0)] in
  members (json_put o (Some "b") (VWord ValueInt64 5)).2 "b" = Some (VWord ValueInt64 5) /\
  members (json_remove o (Some "a")).2 "a" = None.
Proof.
  intros o.
  assert (Hs : StronglySorted key_before [("a", VWord ValueBool 1); ("c", VWord ValueBool 0)].*1) by (repeat constructor).
  split.
  - exact (proj2 (proj2 (proj1 (json_put_remove _ "b" (VWord ValueInt64 5) Hs ltac:(done)))) "b" ltac:(discriminate)).
  - exact (proj2 (proj2 (proj2 (json_put_remove _ "a" (VWord ValueInt64 5) Hs ltac:(done)))) "a" ltac:(discriminate)).
Defined.
