(* ===== verification/Deque.v ===== *)
(** * The deque ([libpgagroal/deque.c]), on a heap of nodes

    A node is a cell of the heap with its two pointers; the deque has a sentinel at
    both ends.  Every operation follows the pointer assignments of the code in a state
    monad over the heap whose [None] is a NULL or dangling dereference.  Loops take
    as fuel one more than the number of cells of the heap, which no list of distinct
    nodes exceeds.  [DequeFacts] shows that on a well formed deque no operation fails
    and each one does what the corresponding list operation does.  The read and write
    locks are not modelled. *)

From S2P Require Import Prelude Text Value.

Local Open Scope Z_scope.

(** ** The heap *)

Abbreviation loc := positive.

(** [struct deque_node]. *)
Record node := Node { n_data : value; n_tag : option string; n_next : option loc; n_prev : option loc }.

Abbreviation heap := (gmap loc node).

Definition M (A : Type) : Type := heap -> option (A * heap).

#[export] Instance M_ret : MRet M := fun A a h => Some (a, h).
#[export] Instance M_bind : MBind M := fun A B f m h => match m h with Some (a, h') => f a h' | None => None end.

Definition load (p : option loc) : M node := fun h => l ← p; n ← h !! l; Some (n, h).

Definition update (p : option loc) (f : node -> node) : M unit :=
  fun h => l ← p; n ← h !! l; Some (tt, <[l := f n]> h).

Definition set_next (p v : option loc) : M unit :=
  update p (fun n => Node (n_data n) (n_tag n) v (n_prev n)).

Definition set_prev (p v : option loc) : M unit :=
  update p (fun n => Node (n_data n) (n_tag n) (n_next n) v).

Definition malloc (n : node) : M loc := fun h => let l := fresh (dom h) in Some (l, <[l := n]> h).

Definition free (p : option loc) : M unit := fun h => l ← p; _ ← h !! l; Some (tt, delete l h).

(** Enough iterations for any list of distinct cells. *)
Definition fuel : M nat := fun h => Some (S (size h), h).

Definition fail {A} : M A := fun _ => None.

(** [struct deque]. *)
Record deque := Deque { d_size : Z; d_start : loc; d_end : loc }.

Definition with_size (n : Z) (d : deque) : deque := Deque n (d_start d) (d_end d).

(** ** Operations *)

(** [deque_node_create]: the pointers are zeroed. *)
Definition deque_node_create (data : payload) (type : value_type) (tag : option string)
  (config : option value_config) : M loc :=
  let v := match config with
           | Some _ => value_create_with_config data config
           | None => value_create type data
           end in
  malloc (Node v tag None None).

(** [pgagroal_deque_create]. *)
Definition deque_create : M deque :=
  s ← deque_node_create (Word 0) ValueInt32 None None;
  e ← deque_node_create (Word 0) ValueInt32 None None;
  set_next (Some s) (Some e);;
  set_prev (Some e) (Some s);;
  mret (Deque 0 s e).

(** [deque_offer]. *)
Definition deque_offer (d : deque) (tag : option string) (data : payload) (type : value_type)
  (config : option value_config) : M deque :=
  if bool_decide (type = ValueNone) then mret d
  else
    n ← deque_node_create data type tag config;
    let d := with_size (u32 (d_size d + 1)) d in
    e ← load (Some (d_end d));
    let last := n_prev e in
    set_next last (Some n);;
    set_prev (Some n) last;;
    set_next (Some n) (Some (d_end d));;
    set_prev (Some (d_end d)) (Some n);;
    mret d.

(** [pgagroal_deque_add] and [pgagroal_deque_add_with_config]. *)
Definition deque_add (d : deque) (tag : option string) (data : payload) (type : value_type) : M deque :=
  deque_offer d tag data type None.

Definition deque_add_with_config (d : deque) (tag : option string) (data : payload)
  (config : option value_config) : M deque :=
  deque_offer d tag data ValueRef config.

(** [pgagroal_deque_size] and [pgagroal_deque_empty]. *)
Definition deque_size (d : deque) : Z := d_size d.
Definition deque_empty (d : deque) : bool := deque_size d =? 0.

(** [deque_next]. *)
Definition deque_next (d : deque) (p : option loc) : M (option loc) :=
  match p with
  | None => mret None
  | Some _ =>
      if d_size d =? 0 then mret None
      else
        n ← load p;
        if bool_decide (n_next n = Some (d_end d)) then mret None else mret (n_next n)
  end.

(** The loop of [deque_find], and [deque_find]. *)
Fixpoint deque_find_loop (k : nat) (d : deque) (tag : string) (p : option loc) : M (option loc) :=
  match p with
  | None => mret None
  | Some _ =>
      match k with
      | O => fail
      | S k =>
          n ← load p;
          if pgagroal_strcmp (Some tag) (n_tag n) then mret p
          else p' ← deque_next d p; deque_find_loop k d tag p'
      end
  end.

Definition deque_find (d : deque) (tag : option string) : M (option loc) :=
  match tag with
  | None => mret None
  | Some t =>
      if (String.length t =? 0)%nat || (d_size d =? 0) then mret None
      else
        k ← fuel;
        n ← deque_next d (Some (d_start d));
        deque_find_loop k d t n
  end.

(** [pgagroal_deque_get] and [pgagroal_deque_exists]. *)
Definition deque_get (d : deque) (tag : option string) : M payload :=
  p ← deque_find d tag;
  match p with
  | None => mret (Word 0)
  | Some _ => n ← load p; mret (value_data (Some (n_data n)))
  end.

Definition deque_exists (d : deque) (tag : option string) : M bool :=
  p ← deque_find d tag; mret (bool_decide (is_Some p)).

(** [pgagroal_deque_poll]: the data, the tag that is written through [tag] (the outer
    [None] when nothing is written), and the deque. *)
Definition deque_poll (d : deque) : M (payload * option (option string) * deque) :=
  if deque_size d =? 0 then mret (Word 0, None, d)
  else
    s ← load (Some (d_start d));
    let head := n_next s in
    if bool_decide (head = Some (d_end d)) then mret (Word 0, None, d)
    else
      n ← load head;
      set_next (Some (d_start d)) (n_next n);;
      set_prev (n_next n) (Some (d_start d));;
      free head;;
      mret (value_data (Some (n_data n)), Some (n_tag n), with_size (u32 (d_size d - 1)) d).

(** [pgagroal_deque_poll_last]. *)
Definition deque_poll_last (d : deque) : M (payload * option (option string) * deque) :=
  if deque_size d =? 0 then mret (Word 0, None, d)
  else
    e ← load (Some (d_end d));
    let tail := n_prev e in
    if bool_decide (tail = Some (d_start d)) then mret (Word 0, None, d)
    else
      n ← load tail;
      set_prev (Some (d_end d)) (n_prev n);;
      set_next (n_prev n) (Some (d_end d));;
      free tail;;
      mret (value_data (Some (n_data n)), Some (n_tag n), with_size (u32 (d_size d - 1)) d).

(** [pgagroal_deque_peek] and [pgagroal_deque_peek_last]. *)
Definition deque_peek (d : deque) : M (payload * option (option string)) :=
  if deque_size d =? 0 then mret (Word 0, None)
  else
    s ← load (Some (d_start d));
    if bool_decide (n_next s = Some (d_end d)) then mret (Word 0, None)
    else n ← load (n_next s); mret (value_data (Some (n_data n)), Some (n_tag n)).

Definition deque_peek_last (d : deque) : M (payload * option (option string)) :=
  if deque_size d =? 0 then mret (Word 0, None)
  else
    e ← load (Some (d_end d));
    if bool_decide (n_prev e = Some (d_start d)) then mret (Word 0, None)
    else n ← load (n_prev e); mret (value_data (Some (n_data n)), Some (n_tag n)).

(** ** Iterators *)

(** [struct deque_iterator]; the deque it points to is passed along. *)
Record iterator := Iterator { i_cur : option loc; i_tag : option string; i_value : option value }.

Definition iterator_create (d : deque) : iterator := Iterator (Some (d_start d)) None None.

(** [pgagroal_deque_iterator_next] and [pgagroal_deque_iterator_has_next]. *)
Definition iterator_next (d : deque) (it : iterator) : M (bool * iterator) :=
  cur ← deque_next d (i_cur it);
  match cur with
  | None => mret (false, Iterator None (i_tag it) (i_value it))
  | Some _ => n ← load cur; mret (true, Iterator cur (n_tag n) (Some (n_data n)))
  end.

Definition iterator_has_next (d : deque) (it : iterator) : M bool :=
  cur ← deque_next d (i_cur it); mret (bool_decide (is_Some cur)).

(** [deque_remove]: the previous node, and the smaller deque. *)
Definition deque_remove (d : deque) (p : option loc) : M (option loc * deque) :=
  match p with
  | None => mret (None, d)
  | Some l =>
      if bool_decide (l = d_start d) || bool_decide (l = d_end d) then mret (None, d)
      else
        n ← load p;
        set_next (n_prev n) (n_next n);;
        set_prev (n_next n) (n_prev n);;
        free p;;
        mret (n_prev n, with_size (u32 (d_size d - 1)) d)
  end.

(** [pgagroal_deque_iterator_remove]. *)
Definition iterator_remove (d : deque) (it : iterator) : M (iterator * deque) :=
  match i_cur it with
  | None => mret (it, d)
  | Some l =>
      if bool_decide (l = d_start d) || bool_decide (l = d_end d) then mret (it, d)
      else
        '(cur, d) ← deque_remove d (Some l);
        if bool_decide (cur = Some (d_start d)) then mret (Iterator cur None None, d)
        else n ← load cur; mret (Iterator cur (n_tag n) (Some (n_data n)), d)
  end.

(** The loop of [pgagroal_deque_remove]; [pgagroal_deque_clear] is the loop in which
    every node matches. *)
Fixpoint deque_remove_loop (k : nat) (matches : option string -> bool) (d : deque) (it : iterator) (cnt : Z) :
  M (Z * deque) :=
  match k with
  | O => fail
  | S k =>
      '(more, it) ← iterator_next d it;
      if negb more then mret (cnt, d)
      else if matches (i_tag it) then
        '(it, d) ← iterator_remove d it; deque_remove_loop k matches d it (cnt + 1)
      else deque_remove_loop k matches d it cnt
  end.

(** [pgagroal_deque_remove]. *)
Definition deque_remove_all (d : deque) (tag : option string) : M (Z * deque) :=
  match tag with
  | None => mret (0, d)
  | Some _ =>
      k ← fuel;
      deque_remove_loop k (fun t => pgagroal_strcmp t tag) d (iterator_create d) 0
  end.

(** [pgagroal_deque_clear]. *)
Definition deque_clear (d : deque) : M deque :=
  k ← fuel;
  '(_, d) ← deque_remove_loop k (fun _ => true) d (iterator_create d) 0;
  mret d.

(** [pgagroal_deque_destroy]. *)
Fixpoint deque_destroy_loop (k : nat) (p : option loc) : M unit :=
  match p with
  | None => mret tt
  | Some _ =>
      match k with
      | O => fail
      | S k => n ← load p; free p;; deque_destroy_loop k (n_next n)
      end
  end.

Definition deque_destroy (d : deque) : M unit := k ← fuel; deque_destroy_loop k (Some (d_start d)).

(** ** Sorting *)

(** [tag_compare]. *)
Definition tag_compare (tag1 tag2 : option string) : Z :=
  match tag1, tag2 with
  | None, None => 0
  | None, Some _ => 1
  | Some _, None => -1
  | Some a, Some b => strcmp a b
  end.

(** The comparison of two nodes: the callback on the data, or the tags. *)
Definition node_compare (cmp : option (value -> value -> Z)) (a b : node) : Z :=
  match cmp with
  | Some cmp => cmp (n_data a) (n_data b)
  | None => tag_compare (n_tag a) (n_tag b)
  end.

(** [get_middle]: [fast] takes two steps for one of [slow]. *)
Fixpoint get_middle_loop (k : nat) (slow fast : option loc) : M (option loc) :=
  match fast with
  | None => mret slow
  | Some _ =>
      f ← load fast;
      match n_next f with
      | None => mret slow
      | Some _ =>
          match k with
          | O => fail
          | S k => s ← load slow; ff ← load (n_next f); get_middle_loop k (n_next s) (n_next ff)
          end
      end
  end.

Definition get_middle (p : option loc) : M (option loc) := k ← fuel; get_middle_loop k p p.

(** The first loop of [deque_merge]: take the smaller head, link it after [node], the
    last merged node; [start] is the first one.  The result is [(node, start, lft, rgt)]. *)
Definition merge_take (nd start x : option loc) : M (option loc * option loc * option loc) :=
  n ← load x;
  let next := n_next n in
  match nd with
  | None =>
      set_prev x None;; set_next x None;;
      mret (x, x, next)
  | Some _ =>
      set_next nd x;; set_prev x nd;; set_next x None;;
      n' ← load nd;
      mret (n_next n', start, next)
  end.

Fixpoint merge_loop (k : nat) (cmp : option (value -> value -> Z)) (nd start lft rgt : option loc) :
  M (option loc * option loc * option loc * option loc) :=
  match lft, rgt with
  | Some _, Some _ =>
      match k with
      | O => fail
      | S k =>
          l ← load lft; r ← load rgt;
          if node_compare cmp l r <=? 0 then
            '(nd, start, lft) ← merge_take nd start lft;
            merge_loop k cmp nd start lft rgt
          else
            '(nd, start, rgt) ← merge_take nd start rgt;
            merge_loop k cmp nd start lft rgt
      end
  | _, _ => mret (nd, start, lft, rgt)
  end.

(** The two loops that append what is left of one list. *)
Fixpoint append_loop (k : nat) (nd x : option loc) : M (option loc) :=
  match x with
  | None => mret nd
  | Some _ =>
      match k with
      | O => fail
      | S k =>
          n ← load x;
          set_next nd x;; set_prev x nd;;
          n' ← load nd;
          append_loop k (n_next n') (n_next n)
      end
  end.

Definition deque_merge (cmp : option (value -> value -> Z)) (node1 node2 : option loc) : M (option loc) :=
  match node1, node2 with
  | None, _ => mret node2
  | Some _, None => mret node1
  | Some _, Some _ =>
      k ← fuel;
      '(nd, start, lft, rgt) ← merge_loop k cmp None None node1 node2;
      nd ← append_loop k nd lft;
      append_loop k nd rgt;;
      mret start
  end.

(** [deque_sort]. *)
Fixpoint deque_sort_loop (k : nat) (cmp : option (value -> value -> Z)) (p : option loc) : M (option loc) :=
  match p with
  | None => mret p
  | Some _ =>
      n ← load p;
      match n_next n with
      | None => mret p
      | Some _ =>
          match k with
          | O => fail
          | S k =>
              mid ← get_middle p;
              m ← load mid;
              let prevmid := n_prev m in
              set_prev mid None;;
              set_next prevmid None;;
              node1 ← deque_sort_loop k cmp p;
              node2 ← deque_sort_loop k cmp mid;
              deque_merge cmp node1 node2
          end
      end
  end.

(** The walk to the last node in [pgagroal_deque_sort]. *)
Fixpoint last_loop (k : nat) (p : option loc) : M (option loc) :=
  n ← load p;
  match n_next n with
  | None => mret p
  | Some _ => match k with O => fail | S k => last_loop k (n_next n) end
  end.

(** [pgagroal_deque_sort]. *)
Definition deque_sort (d : deque) (cmp : option (value -> value -> Z)) : M unit :=
  if d_size d <=? 1 then mret tt
  else
    s ← load (Some (d_start d));
    e ← load (Some (d_end d));
    let first := n_next s in
    let last := n_prev e in
    set_prev first None;;
    set_next last None;;
    set_next (Some (d_start d)) None;;
    set_prev (Some (d_end d)) None;;
    k ← fuel;
    nd ← deque_sort_loop k cmp first;
    set_next (Some (d_start d)) nd;;
    set_prev nd (Some (d_start d));;
    nd ← last_loop k nd;
    set_prev (Some (d_end d)) nd;;
    set_next nd (Some (d_end d)).
