(* ===== verification/DequeFacts.v ===== *)
(** * The deque implements a list

    [rep h d ls]: in heap [h] the deque [d] holds the items [ls], each at its address,
    between the two sentinels, with the pointers of a doubly linked list.  [mwp m Q h]
    says that the heap program [m] does not fail in [h] and ends in [Q].  The theorems
    say, for each operation, which list operation it performs; together with the frame
    they give that no operation dereferences NULL or a freed node, leaks a node of the
    list or touches a cell outside it. *)

From S2P Require Import Prelude Text Value Deque.

Local Open Scope Z_scope.

(** ** Programs on the heap *)

Definition mwp {A} (m : M A) (Q : A -> heap -> Prop) (h : heap) : Prop :=
  match m h with Some (a, h') => Q a h' | None => False end.

Lemma mwp_bind {A B} (m : M A) (f : A -> M B) (Q : B -> heap -> Prop) (h : heap) :
  mwp m (fun a h' => mwp (f a) Q h') h -> mwp (m ≫= f) Q h.
Proof. unfold mwp, mbind, M_bind. by destruct (m h) as [[a h']|]. Qed.

Lemma mwp_mono {A} (m : M A) (P Q : A -> heap -> Prop) (h : heap) :
  mwp m P h -> (forall a h', P a h' -> Q a h') -> mwp m Q h.
Proof. unfold mwp. destruct (m h) as [[a h']|]; auto. Qed.

Lemma mwp_ret {A} (a : A) (Q : A -> heap -> Prop) (h : heap) : Q a h -> mwp (mret a) Q h.
Proof. done. Qed.

Lemma mwp_load (l : loc) (n : node) (Q : node -> heap -> Prop) (h : heap) :
  h !! l = Some n -> Q n h -> mwp (load (Some l)) Q h.
Proof. intros H HQ. unfold mwp, load. simpl. by rewrite H. Qed.

Lemma mwp_set_next (l : loc) (n : node) (v : option loc) (Q : unit -> heap -> Prop) (h : heap) :
  h !! l = Some n -> Q tt (<[l := Node (n_data n) (n_tag n) v (n_prev n)]> h) -> mwp (set_next (Some l) v) Q h.
Proof. intros H HQ. unfold mwp, set_next, update. simpl. by rewrite H. Qed.

Lemma mwp_set_prev (l : loc) (n : node) (v : option loc) (Q : unit -> heap -> Prop) (h : heap) :
  h !! l = Some n -> Q tt (<[l := Node (n_data n) (n_tag n) (n_next n) v]> h) -> mwp (set_prev (Some l) v) Q h.
Proof. intros H HQ. unfold mwp, set_prev, update. simpl. by rewrite H. Qed.

Lemma mwp_free (l : loc) (n : node) (Q : unit -> heap -> Prop) (h : heap) :
  h !! l = Some n -> Q tt (delete l h) -> mwp (free (Some l)) Q h.
Proof. intros H HQ. unfold mwp, free. simpl. by rewrite H. Qed.

Lemma mwp_malloc (n : node) (Q : loc -> heap -> Prop) (h : heap) :
  (forall l, h !! l = None -> Q l (<[l := n]> h)) -> mwp (malloc n) Q h.
Proof. intros HQ. apply HQ. apply not_elem_of_dom, is_fresh. Qed.

Lemma mwp_fuel (Q : nat -> heap -> Prop) (h : heap) : Q (S (size h)) h -> mwp fuel Q h.
Proof. done. Qed.

(** The data and the tag of a node. *)
Definition item : Type := value * option string.

Definition cell (x : item) (next prev : option loc) : node := Node x.1 x.2 next prev.

Ltac mstep :=
  match goal with
  | |- mwp (_ ≫= _) _ _ => apply mwp_bind
  | |- mwp (mret _) _ _ => apply mwp_ret
  | |- mwp fuel _ _ => apply mwp_fuel
  | |- mwp (load (Some _)) _ _ => eapply mwp_load; [by simplify_map_eq|]
  | |- mwp (set_next (Some _) _) _ _ => eapply mwp_set_next; [by simplify_map_eq|]
  | |- mwp (set_prev (Some _) _) _ _ => eapply mwp_set_prev; [by simplify_map_eq|]
  | |- mwp (free (Some _)) _ _ => eapply mwp_free; [by simplify_map_eq|]
  end; cbv beta; cbn [cell n_data n_tag n_next n_prev with_size d_size d_start d_end].

(** ** Linked segments *)

Definition first (l : list (loc * item)) (n : option loc) : option loc :=
  match l with [] => n | (a, _) :: _ => Some a end.

Fixpoint final (p : option loc) (l : list (loc * item)) : option loc :=
  match l with [] => p | (a, _) :: l => final (Some a) l end.

(** The nodes of [l] are linked both ways; [p] is before the first, [n] after the last. *)
Fixpoint links (h : heap) (p : option loc) (l : list (loc * item)) (n : option loc) : Prop :=
  match l with
  | [] => True
  | (a, x) :: l => h !! a = Some (cell x (first l n) p) /\ links h (Some a) l n
  end.

Lemma first_app (l1 l2 : list (loc * item)) (n : option loc) : first (l1 ++ l2) n = first l1 (first l2 n).
Proof. by destruct l1 as [|[]]. Qed.

Lemma final_app (p : option loc) (l1 l2 : list (loc * item)) : final p (l1 ++ l2) = final (final p l1) l2.
Proof. revert p. induction l1 as [|[a x] l1 IH]; intros p; [done|apply IH]. Qed.

Lemma links_app (h : heap) (p : option loc) (l1 l2 : list (loc * item)) (n : option loc) :
  links h p (l1 ++ l2) n <-> links h p l1 (first l2 n) /\ links h (final p l1) l2 n.
Proof.
  revert p. induction l1 as [|[a x] l1 IH]; intros p; simpl; [tauto|]. rewrite IH, first_app. tauto.
Qed.

Lemma links_frame (h h' : heap) (p : option loc) (l : list (loc * item)) (n : option loc) :
  (forall a, a ∈ l.*1 -> h' !! a = h !! a) -> links h p l n -> links h' p l n.
Proof.
  revert p. induction l as [|[a x] l IH]; intros p Ha H; [done|]. destruct H as [H1 H2]. split.
  - rewrite Ha; [done|]. apply elem_of_cons; by left.
  - apply IH; [|done]. intros b Hb. apply Ha. apply elem_of_cons; by right.
Qed.

Lemma links_insert (h : heap) (p : option loc) (l : list (loc * item)) (n : option loc) (a : loc) (v : node) :
  a ∉ l.*1 -> links h p l n -> links (<[a := v]> h) p l n.
Proof. intros Ha. apply links_frame. intros b Hb. apply lookup_insert_ne. intros ->. done. Qed.

Lemma links_delete (h : heap) (p : option loc) (l : list (loc * item)) (n : option loc) (a : loc) :
  a ∉ l.*1 -> links h p l n -> links (delete a h) p l n.
Proof. intros Ha. apply links_frame. intros b Hb. apply lookup_delete_ne. intros ->. done. Qed.

Lemma links_lookup (h : heap) (p : option loc) (l : list (loc * item)) (n : option loc) (a : loc) :
  links h p l n -> a ∈ l.*1 -> is_Some (h !! a).
Proof.
  revert p. induction l as [|[b x] l IH]; intros p H Ha; [by apply elem_of_nil in Ha|].
  destruct H as [H1 H2]. apply elem_of_cons in Ha as [->|Ha]; [by eexists|by eapply IH].
Qed.

(** A list of distinct nodes is no longer than the heap. *)
Lemma links_size (h : heap) (p : option loc) (l : list (loc * item)) (n : option loc) :
  NoDup l.*1 -> links h p l n -> (length l <= size h)%nat.
Proof.
  intros Hd Hl. rewrite <- (length_fmap fst), <- size_dom, <- (size_list_to_set (C := gset loc)) by done.
  apply subseteq_size. intros a Ha. apply elem_of_list_to_set in Ha. apply elem_of_dom. by eapply links_lookup.
Qed.

Definition same_outside (l : list loc) (h h' : heap) : Prop := forall a, a ∉ l -> h' !! a = h !! a.

Lemma same_outside_refl (l : list loc) (h : heap) : same_outside l h h.
Proof. done. Qed.

Lemma same_outside_trans (l : list loc) (h1 h2 h3 : heap) :
  same_outside l h1 h2 -> same_outside l h2 h3 -> same_outside l h1 h3.
Proof. intros H1 H2 a Ha. by rewrite H2, H1. Qed.

Lemma same_outside_weaken (l l' : list loc) (h1 h2 : heap) :
  l ⊆ l' -> same_outside l h1 h2 -> same_outside l' h1 h2.
Proof. intros Hs H a Ha. apply H. intros Hin. by apply Ha, Hs. Qed.

(** Only the set of addresses matters. *)
#[export] Instance same_outside_proper : Proper ((≡ₚ) ==> (=) ==> (=) ==> iff) same_outside.
Proof. intros l l' Hl h ? <- h' ? <-. unfold same_outside. by setoid_rewrite Hl. Qed.

Lemma same_outside_insert (l : list loc) (h : heap) (a : loc) (v : node) :
  a ∈ l -> same_outside l h (<[a := v]> h).
Proof. intros Ha b Hb. apply lookup_insert_ne. intros ->. done. Qed.

Lemma same_outside_delete (l : list loc) (h : heap) (a : loc) :
  a ∈ l -> same_outside l h (delete a h).
Proof. intros Ha b Hb. apply lookup_delete_ne. intros ->. done. Qed.

(** Splitting off the last node of a segment. *)
Lemma links_snoc (h : heap) (p : option loc) (l : list (loc * item)) (a : loc) (x : item) (n : option loc) :
  links h p (l ++ [(a, x)]) n <-> links h p l (Some a) /\ h !! a = Some (cell x n (final p l)).
Proof. rewrite links_app. simpl. tauto. Qed.

Lemma final_snoc (p : option loc) (l : list (loc * item)) (a : loc) (x : item) : final p (l ++ [(a, x)]) = Some a.
Proof. by rewrite final_app. Qed.

Lemma list_snoc (l : list (loc * item)) : l <> [] -> exists l' a x, l = l' ++ [(a, x)].
Proof. intros H. destruct (exists_last H) as (l' & [a x] & ->). by exists l', a, x. Qed.

Create HintDb deque.
#[export] Hint Resolve same_outside_refl : deque.

(** ** Well formed deques *)

(** What a sentinel holds. *)
Definition sentinel : item := (value_create ValueInt32 (Word 0), None).

Definition chain (d : deque) (ls : list (loc * item)) : list (loc * item) :=
  (d_start d, sentinel) :: ls ++ [(d_end d, sentinel)].

Record rep (h : heap) (d : deque) (ls : list (loc * item)) : Prop := {
  rep_nodup : NoDup (chain d ls).*1;
  rep_links : links h None (chain d ls) None;
  rep_size : d_size d = Z.of_nat (length ls)
}.

(** Changing the size field does not concern the nodes. *)
Lemma chain_with_size (n : Z) (d : deque) (ls : list (loc * item)) : chain (with_size n d) ls = chain d ls.
Proof. done. Qed.

(** The segment from the start sentinel to the last item, and the end sentinel. *)
Lemma rep_ends (h : heap) (d : deque) (ls : list (loc * item)) :
  rep h d ls ->
  links h None ((d_start d, sentinel) :: ls) (Some (d_end d)) /\
  h !! d_end d = Some (cell sentinel None (final (Some (d_start d)) ls)).
Proof.
  intros R. pose proof (rep_links _ _ _ R) as H.
  apply (links_snoc h None ((d_start d, sentinel) :: ls)) in H. exact H.
Qed.

Lemma rep_start (h : heap) (d : deque) (ls : list (loc * item)) :
  rep h d ls -> h !! d_start d = Some (cell sentinel (first ls (Some (d_end d))) None).
Proof. intros R. destruct (rep_ends _ _ _ R) as [[H _] _]. exact H. Qed.

Lemma rep_distinct (h : heap) (d : deque) (ls : list (loc * item)) :
  rep h d ls -> d_start d <> d_end d /\ d_start d ∉ ls.*1 /\ d_end d ∉ ls.*1 /\ NoDup ls.*1.
Proof.
  intros R. pose proof (rep_nodup _ _ _ R) as H. unfold chain in H. rewrite fmap_cons, fmap_app in H.
  apply NoDup_cons in H as [H1 H2]. apply NoDup_app in H2 as (H2 & H3 & _). set_solver.
Qed.

(** [pgagroal_deque_create] makes an empty deque in new memory. *)
Theorem deque_create_empty (h : heap) :
  mwp deque_create (fun d h' => rep h' d [] /\ forall a, is_Some (h !! a) -> h' !! a = h !! a) h.
Proof.
  unfold deque_create, deque_node_create. mstep. apply mwp_malloc. intros s Hs.
  mstep. apply mwp_malloc. intros e He.
  assert (s <> e) by (intros ->; by simplify_map_eq).
  assert (h !! e = None) as He' by (by rewrite lookup_insert_ne in He).
  repeat mstep. split; [split|].
  - unfold chain; simpl. apply NoDup_cons. split; [set_solver|]. apply NoDup_singleton.
  - unfold chain; simpl. split; [|split; [|done]]; by simplify_map_eq.
  - done.
  - intros a [n Ha]. assert (a <> s /\ a <> e) as [? ?] by (split; congruence). by simplify_map_eq.
Qed.

Lemma elem_chain (d : deque) (ls : list (loc * item)) (a : loc) :
  a ∈ (chain d ls).*1 <-> a = d_start d \/ a ∈ ls.*1 \/ a = d_end d.
Proof. unfold chain. rewrite fmap_cons, fmap_app. set_solver. Qed.

(** One more item, anywhere, is one more address. *)
Lemma chain_insert (d : deque) (l1 l2 : list (loc * item)) (a : loc) (x : item) :
  (chain d (l1 ++ (a, x) :: l2)).*1 ≡ₚ a :: (chain d (l1 ++ l2)).*1.
Proof. unfold chain. rewrite !fmap_cons, !fmap_app, fmap_cons. simpl. solve_Permutation. Qed.

(** [pgagroal_deque_add] appends the value at the end; it changes no cell outside
    the deque.  A value without a type is not added. *)
Theorem deque_add_appends (h : heap) (d : deque) (ls : list (loc * item)) (tag : option string)
  (data : payload) (type : value_type) (R : rep h d ls) (Hmax : Z.of_nat (length ls) + 1 < 2 ^ 32) :
  mwp (deque_add d tag data type)
    (fun d' h' => if bool_decide (type = ValueNone) then d' = d /\ h' = h
       else exists a, h !! a = None /\ rep h' d' (ls ++ [(a, (value_create type data, tag))]) /\
              same_outside (a :: (chain d ls).*1) h h') h.
Proof.
  unfold deque_add, deque_offer, deque_node_create. case_bool_decide; [by apply mwp_ret|].
  destruct (rep_ends _ _ _ R) as [Hl He]. pose proof (rep_nodup _ _ _ R) as Hnd.
  mstep. apply mwp_malloc. intros a Ha.
  assert (a ∉ (chain d ls).*1) as Hna.
  { intros Hin. destruct (links_lookup _ _ _ _ _ (rep_links _ _ _ R) Hin). congruence. }
  destruct (list_snoc ((d_start d, sentinel) :: ls)) as (l & b & y & El); [done|].
  assert (chain d ls = l ++ [(b, y)] ++ [(d_end d, sentinel)]) as Ec
    by (unfold chain; rewrite app_comm_cons, El; by rewrite <- app_assoc).
  assert (final (Some (d_start d)) ls = Some b) as Eb.
  { change (final None ((d_start d, sentinel) :: ls) = Some b). by rewrite El, final_snoc. }
  rewrite Eb in He. rewrite El in Hl. apply links_snoc in Hl as [Hl Hb].
  pose proof Hna as Hna'. rewrite Ec in Hnd, Hna'. rewrite !fmap_app in Hnd, Hna'. simpl in Hnd, Hna'.
  apply NoDup_app in Hnd as (Hn1 & Hn2 & Hn3). apply NoDup_cons in Hn3 as [Hn3 _].
  assert (a <> b /\ a <> d_end d /\ b <> d_end d) as (? & ? & ?) by set_solver.
  assert (a ∉ l.*1 /\ b ∉ l.*1 /\ d_end d ∉ l.*1) as (? & ? & ?) by set_solver.
  repeat mstep. exists a. split; [done|]. split; [split|].
  - rewrite chain_with_size, chain_insert, app_nil_r. apply NoDup_cons. split; [done|apply (rep_nodup _ _ _ R)].
  - rewrite chain_with_size. unfold chain. rewrite <- app_assoc, app_comm_cons, El.
    rewrite (app_assoc (l ++ [(b, y)]) [_] [_]). apply links_snoc. split; [apply links_snoc; split; [apply links_snoc; split|]|].
    + repeat (apply links_insert; [done|]). done.
    + by simplify_map_eq.
    + rewrite final_snoc. by simplify_map_eq.
    + rewrite final_snoc. by simplify_map_eq.
  - rewrite length_app. simpl. rewrite (rep_size _ _ _ R), wrapu_id; [lia|]. unfold in_u. lia.
  - intros c Hc. apply not_elem_of_cons in Hc as [Hca Hc]. rewrite Ec, !fmap_app in Hc. simpl in Hc.
    assert (c <> b /\ c <> d_end d) as [? ?] by set_solver. by simplify_map_eq.
Qed.

(** ** Taking a node out *)

Definition with_next (v : option loc) (n : node) : node := Node (n_data n) (n_tag n) v (n_prev n).
Definition with_prev (v : option loc) (n : node) : node := Node (n_data n) (n_tag n) (n_next n) v.

(** The heap in which the neighbours [pl] and [nl] of node [a] are linked to each other
    and [a] is freed. *)
Definition unlinked (h : heap) (a pl nl : loc) (np nn : node) : heap :=
  delete a (<[nl := with_prev (Some pl) nn]> (<[pl := with_next (Some nl) np]> h)).

Lemma nodup_around (l l' : list loc) (p n a : loc) :
  NoDup ((l ++ [p]) ++ n :: l') -> a ∉ (l ++ [p]) ++ n :: l' ->
  a <> p /\ a <> n /\ p <> n /\ p ∉ l /\ n ∉ l /\ a ∉ l /\ p ∉ l' /\ n ∉ l' /\ a ∉ l'.
Proof.
  rewrite !not_elem_of_app, !not_elem_of_cons, !NoDup_app, !NoDup_cons.
  intros ((_ & H1 & _) & H2 & H3 & _) ((H4 & H5 & _) & H6 & H7).
  specialize (H1 p) as H1p. specialize (H2 p) as H2p. specialize (H2 n) as H2n. set_solver.
Qed.

Lemma rep_unlink (h : heap) (d : deque) (l1 l2 : list (loc * item)) (a : loc) (x : item) :
  rep h d (l1 ++ (a, x) :: l2) -> Z.of_nat (length (l1 ++ (a, x) :: l2)) < 2 ^ 32 ->
  exists pl nl np nn,
    final (Some (d_start d)) l1 = Some pl /\ first l2 (Some (d_end d)) = Some nl /\
    h !! a = Some (cell x (Some nl) (Some pl)) /\ h !! pl = Some np /\ h !! nl = Some nn /\
    a <> pl /\ a <> nl /\ pl <> nl /\ a <> d_start d /\ a <> d_end d /\
    rep (unlinked h a pl nl np nn) (with_size (u32 (d_size d - 1)) d) (l1 ++ l2) /\
    same_outside (chain d (l1 ++ (a, x) :: l2)).*1 h (unlinked h a pl nl np nn).
Proof.
  intros R Hmax. pose proof (rep_nodup _ _ _ R) as Hnd. pose proof (rep_links _ _ _ R) as Hl.
  destruct (list_snoc ((d_start d, sentinel) :: l1)) as (l' & pl & y & E1); [done|].
  destruct (l2 ++ [(d_end d, sentinel)]) as [|[nl z] l''] eqn:E2; [by destruct l2|].
  assert (forall m, chain d (l1 ++ m ++ l2) = (l' ++ [(pl, y)]) ++ m ++ (nl, z) :: l'') as Ec.
  { intros m. unfold chain. by rewrite <- (app_assoc l1), <- (app_assoc m), E2, app_comm_cons, E1. }
  pose proof (Ec [(a, x)]) as Ea. pose proof (Ec []) as Eb. simpl in Ea, Eb. clear Ec.
  assert (final (Some (d_start d)) l1 = Some pl) as Ef.
  { change (final None ((d_start d, sentinel) :: l1) = Some pl). by rewrite E1, final_snoc. }
  assert (first l2 (Some (d_end d)) = Some nl) as Es.
  { change (Some (d_end d)) with (first [(d_end d, sentinel)] None). by rewrite <- first_app, E2. }
  assert (NoDup (a :: (chain d (l1 ++ l2)).*1)) as Hnd' by by rewrite <- chain_insert.
  apply NoDup_cons in Hnd' as [Hna Hnd']. pose proof Hnd' as Hnd2.
  pose proof Hna as Hna'. rewrite Eb, !fmap_app, fmap_cons in Hnd2, Hna'. rewrite elem_chain in Hna.
  destruct (nodup_around _ _ _ _ _ Hnd2 Hna') as (Hapl & Hanl & Hpn & ? & ? & ? & ? & ? & ?).
  rewrite Ea in Hl. apply links_app in Hl as [Hl1 Hl2]. apply links_snoc in Hl1 as [Hl1 Hp].
  destruct Hl2 as (Ha & Hn & Hl3). rewrite final_snoc in Ha. simpl in Hp, Ha.
  eexists pl, nl, _, _. do 5 (split; [eassumption|]). split; [done|]. split; [done|]. split; [done|].
  split; [tauto|]. split; [tauto|]. split; [split|].
  - by rewrite chain_with_size.
  - rewrite chain_with_size, Eb. unfold unlinked. apply links_app. split; [apply links_snoc; split|split].
    + apply links_delete; [done|]. do 2 (apply links_insert; [done|]). done.
    + by simplify_map_eq.
    + rewrite final_snoc. by simplify_map_eq.
    + apply links_delete; [done|]. do 2 (apply links_insert; [done|]). done.
  - pose proof (rep_size _ _ _ R) as Hs. rewrite length_app in *. simpl in *.
    rewrite Hs, wrapu_id; [lia|]. unfold in_u. lia.
  - rewrite Ea, !fmap_app. simpl. unfold unlinked. intros c Hc.
    rewrite !not_elem_of_app, !not_elem_of_cons in Hc. destruct Hc as ((? & ? & _) & ? & ? & _).
    by simplify_map_eq.
Qed.

Lemma rep_nil_start (h : heap) (d : deque) : rep h d [] -> d_size d = 0.
Proof. intros R. by rewrite (rep_size _ _ _ R). Qed.

Lemma rep_cons_size (h : heap) (d : deque) (ls : list (loc * item)) :
  rep h d ls -> ls <> [] -> (d_size d =? 0) = false.
Proof. intros R Hne. rewrite (rep_size _ _ _ R). destruct ls; [done|]. by apply Z.eqb_neq. Qed.

(** [pgagroal_deque_poll] takes the first value out and gives its data and tag;
    on an empty deque it answers 0 and changes nothing. *)
Theorem deque_poll_first (h : heap) (d : deque) (ls : list (loc * item)) (R : rep h d ls)
  (Hmax : Z.of_nat (length ls) < 2 ^ 32) :
  mwp (deque_poll d)
    (fun r h' => match ls with
                 | [] => r = (Word 0, None, d) /\ h' = h
                 | (a, x) :: ls' => exists d', r = (v_data x.1, Some x.2, d') /\ rep h' d' ls' /\ h' !! a = None /\
                     same_outside (chain d ls).*1 h h'
                 end) h.
Proof.
  unfold deque_poll, deque_size. destruct ls as [|[a x] ls].
  { rewrite (rep_nil_start _ _ R). by apply mwp_ret. }
  rewrite (rep_cons_size _ _ _ R) by done. pose proof (rep_start _ _ _ R) as Hs.
  destruct (rep_unlink h d [] ls a x R Hmax)
    as (pl & nl & np & nn & [= <-] & E2 & Ha & Hp & Hn & ? & ? & ? & ? & ? & R' & Hout).
  mstep. mstep. rewrite Hs in Hp. injection Hp as <-. simpl first.
  rewrite bool_decide_eq_false_2 by congruence. repeat mstep. eexists. split; [done|]. split; [exact R'|].
  split; [by simplify_map_eq|exact Hout].
Qed.

(** [pgagroal_deque_poll_last] takes the last value out and gives its data and tag;
    on an empty deque it answers 0 and changes nothing. *)
Theorem deque_poll_last_last (h : heap) (d : deque) (ls : list (loc * item)) (R : rep h d ls)
  (Hmax : Z.of_nat (length ls) < 2 ^ 32) :
  mwp (deque_poll_last d)
    (fun r h' => match last ls with
                 | None => r = (Word 0, None, d) /\ h' = h
                 | Some (a, x) => exists d', r = (v_data x.1, Some x.2, d') /\ rep h' d' (removelast ls) /\
                     h' !! a = None /\ same_outside (chain d ls).*1 h h'
                 end) h.
Proof.
  unfold deque_poll_last, deque_size. destruct ls as [|p ls _] using rev_ind.
  { rewrite (rep_nil_start _ _ R). by apply mwp_ret. }
  destruct p as [a x]. rewrite last_snoc, removelast_last. rewrite (rep_cons_size _ _ _ R) by (by destruct ls).
  destruct (rep_ends _ _ _ R) as [_ He]. rewrite final_snoc in He.
  destruct (rep_unlink h d ls [] a x R Hmax)
    as (pl & nl & np & nn & E1 & [= <-] & Ha & Hp & Hn & ? & ? & ? & ? & ? & R' & Hout).
  mstep. mstep. rewrite He in Hn. injection Hn as <-.
  rewrite bool_decide_eq_false_2 by congruence. repeat mstep. eexists. split; [done|].
  unfold unlinked in *. rewrite insert_insert_ne in R', Hout by done. rewrite app_nil_r in R'.
  split; [exact R'|]. split; [by simplify_map_eq|exact Hout].
Qed.

(** ** Walking *)

Lemma rep_mid (h : heap) (d : deque) (l1 l2 : list (loc * item)) (a : loc) (x : item) :
  rep h d (l1 ++ (a, x) :: l2) ->
  h !! a = Some (cell x (first l2 (Some (d_end d))) (final (Some (d_start d)) l1)) /\
  a <> d_start d /\ a <> d_end d.
Proof.
  intros R. destruct (rep_ends _ _ _ R) as [[_ H] _]. apply links_app in H as [_ [H _]]. split; [exact H|].
  destruct (rep_distinct _ _ _ R) as (_ & H1 & H2 & _). rewrite fmap_app, fmap_cons in H1, H2. set_solver.
Qed.

Lemma first_not_end (h : heap) (d : deque) (l1 l2 : list (loc * item)) :
  rep h d (l1 ++ l2) -> bool_decide (first l2 (Some (d_end d)) = Some (d_end d)) = bool_decide (l2 = []).
Proof.
  intros R. destruct l2 as [|[b y] l2]; [by rewrite !bool_decide_eq_true_2|].
  apply rep_mid in R as (_ & _ & Hne). rewrite !bool_decide_eq_false_2; [done|done|simpl; congruence].
Qed.

Lemma first_end (d : deque) (l : list (loc * item)) :
  (if bool_decide (l = []) then None else first l (Some (d_end d))) = first l None.
Proof. by destruct l as [|[]]. Qed.

(** [deque_next] from the start sentinel and from a node. *)
Lemma mwp_next_start (h : heap) (d : deque) (ls : list (loc * item)) (Q : option loc -> heap -> Prop) :
  rep h d ls -> Q (first ls None) h -> mwp (deque_next d (Some (d_start d))) Q h.
Proof.
  intros R HQ. unfold deque_next. destruct (d_size d =? 0) eqn:Es.
  - apply Z.eqb_eq in Es. rewrite (rep_size _ _ _ R) in Es. destruct ls; [exact HQ|simpl in Es; lia].
  - pose proof (rep_start _ _ _ R). repeat mstep. rewrite (first_not_end h d [] ls R).
    rewrite <- (first_end d) in HQ. case_bool_decide; exact HQ.
Qed.

Lemma mwp_next (h : heap) (d : deque) (l1 l2 : list (loc * item)) (a : loc) (x : item) (Q : option loc -> heap -> Prop) :
  rep h d (l1 ++ (a, x) :: l2) -> Q (first l2 None) h -> mwp (deque_next d (Some a)) Q h.
Proof.
  intros R HQ. unfold deque_next. rewrite (rep_cons_size _ _ _ R) by (by destruct l1).
  destruct (rep_mid _ _ _ _ _ _ R) as (Ha & _). repeat mstep.
  assert (rep h d ((l1 ++ [(a, x)]) ++ l2)) as R' by by rewrite <- app_assoc.
  rewrite (first_not_end h d _ l2 R'). rewrite <- (first_end d) in HQ. case_bool_decide; exact HQ.
Qed.

(** Where an iterator stands: after the items [l1]. *)
Lemma mwp_next_after (h : heap) (d : deque) (l1 l2 : list (loc * item)) (Q : option loc -> heap -> Prop) :
  rep h d (l1 ++ l2) -> Q (first l2 None) h -> mwp (deque_next d (final (Some (d_start d)) l1)) Q h.
Proof.
  intros R HQ. destruct (decide (l1 = [])) as [->|Hne]; [by apply (mwp_next_start h d l2)|].
  destruct (list_snoc l1 Hne) as (l' & a & x & ->). rewrite final_snoc.
  apply (mwp_next h d l' l2 a x); [by rewrite <- app_assoc in R|done].
Qed.

Definition tagged (t : string) (p : loc * item) : bool := pgagroal_strcmp (Some t) p.2.2.

Lemma mwp_find_loop (h : heap) (d : deque) (t : string) (k : nat) (l1 l2 : list (loc * item))
  (Q : option loc -> heap -> Prop) :
  rep h d (l1 ++ l2) -> (length l2 <= k)%nat -> Q (fst <$> List.find (tagged t) l2) h ->
  mwp (deque_find_loop k d t (first l2 None)) Q h.
Proof.
  revert k l1. induction l2 as [|[a x] l2 IH]; intros k l1 R Hk HQ; [by destruct k|].
  destruct k as [|k]; [simpl in Hk; lia|]. destruct (rep_mid _ _ _ _ _ _ R) as (Ha & _).
  cbn [first deque_find_loop]. repeat mstep. simpl in HQ. unfold tagged at 1 in HQ. cbn [snd] in HQ.
  destruct (pgagroal_strcmp (Some t) x.2); [exact HQ|].
  mstep. apply (mwp_next h d l1 l2 a x _ R). apply (IH k (l1 ++ [(a, x)])); [by rewrite <- app_assoc|simpl in Hk; lia|exact HQ].
Qed.

Lemma mwp_find (h : heap) (d : deque) (ls : list (loc * item)) (t : string) (Q : option loc -> heap -> Prop) :
  rep h d ls -> t <> "" -> Q (fst <$> List.find (tagged t) ls) h -> mwp (deque_find d (Some t)) Q h.
Proof.
  intros R Ht HQ. unfold deque_find.
  replace (String.length t =? 0)%nat with false by (by destruct t). cbn [orb].
  destruct (d_size d =? 0) eqn:Es.
  { apply Z.eqb_eq in Es. rewrite (rep_size _ _ _ R) in Es. destruct ls; [exact HQ|simpl in Es; lia]. }
  repeat mstep. apply (mwp_next_start h d ls _ R).
  apply (mwp_find_loop h d t _ [] ls); [done| |done].
  pose proof (links_size h None (chain d ls) None (rep_nodup _ _ _ R) (rep_links _ _ _ R)) as Hs.
  unfold chain in Hs. simpl in Hs. rewrite length_app in Hs. lia.
Qed.

Lemma find_elem {A} (f : A -> bool) (l : list A) (x : A) :
  List.find f l = Some x -> exists l1 l2, l = l1 ++ x :: l2 /\ f x = true.
Proof.
  intros H. apply List.find_some in H as [Hin Hf]. apply in_split in Hin as (l1 & l2 & ->). eauto.
Qed.

(** [pgagroal_deque_get] finds the first value with the tag, 0 if there is none,
    [pgagroal_deque_exists] says whether there is one, and neither changes anything. *)
Theorem deque_get_first (h : heap) (d : deque) (ls : list (loc * item)) (t : string)
  (R : rep h d ls) (Ht : t <> "") :
  mwp (deque_get d (Some t))
    (fun r h' => h' = h /\ r = match List.find (tagged t) ls with Some (_, x) => v_data x.1 | None => Word 0 end) h /\
  mwp (deque_exists d (Some t)) (fun r h' => h' = h /\ r = existsb (tagged t) ls) h.
Proof.
  split.
  - unfold deque_get. mstep. apply (mwp_find h d ls t _ R Ht).
    destruct (List.find (tagged t) ls) as [[a x]|] eqn:E; [|done].
    apply find_elem in E as (l1 & l2 & -> & _). destruct (rep_mid _ _ _ _ _ _ R) as (Ha & _).
    cbn [fmap option_fmap option_map fst]. repeat mstep. done.
  - unfold deque_exists. mstep. apply (mwp_find h d ls t _ R Ht). mstep. split; [done|].
    clear R. induction ls as [|p ls IH]; [done|]. simpl. destruct (tagged t p); [done|exact IH].
Qed.

(** ** Removing by tag *)

Definition kept (matches : option string -> bool) (l : list (loc * item)) : list (loc * item) :=
  List.filter (fun p => negb (matches p.2.2)) l.

Definition hits (matches : option string -> bool) (l : list (loc * item)) : Z :=
  Z.of_nat (length (List.filter (fun p => matches p.2.2) l)).

Lemma remove_loop_spec (matches : option string -> bool) (k : nat) (h : heap) (d : deque)
  (l1 l2 : list (loc * item)) (it : iterator) (cnt : Z) :
  rep h d (l1 ++ l2) -> Z.of_nat (length (l1 ++ l2)) < 2 ^ 32 -> i_cur it = final (Some (d_start d)) l1 ->
  (length l2 < k)%nat ->
  mwp (deque_remove_loop k matches d it cnt)
    (fun r h' => r.1 = cnt + hits matches l2 /\ rep h' r.2 (l1 ++ kept matches l2) /\
       same_outside (chain d (l1 ++ l2)).*1 h h' /\
       forall p, p ∈ l2 -> matches p.2.2 = true -> h' !! p.1 = None) h.
Proof.
  revert h d l1 l2 it cnt. induction k as [|k IH]; intros h d l1 l2 it cnt R Hmax Hcur Hk; [lia|].
  cbn [deque_remove_loop]. mstep. unfold iterator_next. mstep. rewrite Hcur. apply (mwp_next_after h d l1 l2 _ R).
  destruct l2 as [|[a x] l2]; cbn [first].
  { repeat mstep. cbn [negb]. mstep. unfold hits, kept; simpl. split; [lia|]. split; [done|].
    split; [apply same_outside_refl|]. intros p Hp. by apply elem_of_nil in Hp. }
  destruct (rep_mid _ _ _ _ _ _ R) as (Ha & Has & Hae). repeat mstep. cbn [negb i_tag].
  destruct (matches x.2) eqn:Em.
  - destruct (rep_unlink h d l1 l2 a x R Hmax)
      as (pl & nl & np & nn & E1 & E2 & Ha' & Hp & Hn & Hapl & Hanl & Hpn & _ & _ & R' & Hout).
    rewrite length_app in Hmax. simpl in Hmax.
    assert (forall it', i_cur it' = Some pl ->
      mwp (deque_remove_loop k matches (with_size (u32 (d_size d - 1)) d) it' (cnt + 1))
        (fun r h' => r.1 = cnt + hits matches ((a, x) :: l2) /\ rep h' r.2 (l1 ++ kept matches ((a, x) :: l2)) /\
           same_outside (chain d (l1 ++ (a, x) :: l2)).*1 h h' /\
           forall p, p ∈ (a, x) :: l2 -> matches p.2.2 = true -> h' !! p.1 = None) (unlinked h a pl nl np nn)) as Hgo.
    { intros it' Hit. eapply mwp_mono; [apply (IH _ _ l1 l2 it' (cnt + 1) R')|].
      - rewrite length_app. lia.
      - rewrite Hit. exact (eq_sym E1).
      - simpl in Hk; lia.
      - intros [c d'] h' (Hc & HR & Hso & Hfree). cbn [fst snd] in *. unfold hits, kept in *.
        cbn [List.filter fst snd]. rewrite Em. cbn [negb length]. split; [lia|]. split; [done|]. split.
        + eapply same_outside_trans; [exact Hout|]. eapply same_outside_weaken; [|exact Hso].
          intros b Hb. rewrite chain_insert. apply elem_of_cons; by right.
        + intros p [->|Hp']%elem_of_cons Hm; [|by apply Hfree]. simpl. rewrite Hso.
          * unfold unlinked. by simplify_map_eq.
          * pose proof (rep_nodup _ _ _ R) as Hnd. rewrite chain_insert in Hnd. by apply NoDup_cons in Hnd as [? _]. }
    mstep. unfold iterator_remove. cbn [i_cur]. rewrite !bool_decide_eq_false_2 by done. cbn [orb].
    mstep. unfold deque_remove. rewrite !bool_decide_eq_false_2 by done. cbn [orb].
    repeat mstep. fold (with_next (Some nl) np) (with_prev (Some pl) nn) (unlinked h a pl nl np nn).
    destruct (bool_decide _).
    + mstep. by apply Hgo.
    + assert (unlinked h a pl nl np nn !! pl = Some (with_next (Some nl) np)) by (unfold unlinked; by simplify_map_eq).
      repeat mstep. by apply Hgo.
  - eapply mwp_mono; [apply (IH h d (l1 ++ [(a, x)]) l2)|].
    + by rewrite <- app_assoc.
    + by rewrite <- app_assoc.
    + by rewrite final_snoc.
    + simpl in Hk; lia.
    + intros [c d'] h' (Hc & HR & Hso & Hfree). cbn [fst snd] in *. rewrite <- app_assoc in *.
      unfold hits, kept in *. cbn [List.filter fst snd]. rewrite Em. cbn [negb length]. split; [done|]. split; [done|]. split; [done|].
      intros p [->|Hp]%elem_of_cons Hm; [simpl in Hm; congruence|by apply Hfree].
Qed.

Lemma rep_fuel (h : heap) (d : deque) (ls : list (loc * item)) : rep h d ls -> (length ls < S (size h))%nat.
Proof.
  intros R. pose proof (links_size h None (chain d ls) None (rep_nodup _ _ _ R) (rep_links _ _ _ R)) as Hs.
  unfold chain in Hs. simpl in Hs. rewrite length_app in Hs. lia.
Qed.

(** [pgagroal_deque_remove] takes out exactly the values with the tag, frees their
    nodes and answers how many they were; the others keep their order. *)
Theorem deque_remove_by_tag (h : heap) (d : deque) (ls : list (loc * item)) (t : string)
  (R : rep h d ls) (Hmax : Z.of_nat (length ls) < 2 ^ 32) :
  mwp (deque_remove_all d (Some t))
    (fun r h' => let matches := fun tag => pgagroal_strcmp tag (Some t) in
       r.1 = hits matches ls /\ rep h' r.2 (kept matches ls) /\
       same_outside (chain d ls).*1 h h' /\
       forall p, p ∈ ls -> matches p.2.2 = true -> h' !! p.1 = None) h.
Proof.
  unfold deque_remove_all. repeat mstep.
  eapply mwp_mono;
    [apply (remove_loop_spec (fun tag => pgagroal_strcmp tag (Some t)) _ h d [] ls (iterator_create d) 0 R Hmax eq_refl),
       (rep_fuel h d ls R)|].
  intros [c d'] h' H. exact H.
Qed.

(** [pgagroal_deque_clear] empties the deque and frees every node of it. *)
Theorem deque_clear_empties (h : heap) (d : deque) (ls : list (loc * item))
  (R : rep h d ls) (Hmax : Z.of_nat (length ls) < 2 ^ 32) :
  mwp (deque_clear d)
    (fun d' h' => rep h' d' [] /\ same_outside (chain d ls).*1 h h' /\ forall p, p ∈ ls -> h' !! p.1 = None) h.
Proof.
  unfold deque_clear. repeat mstep.
  eapply mwp_mono; [apply (remove_loop_spec (fun _ => true) _ h d [] ls (iterator_create d) 0 R Hmax eq_refl), (rep_fuel h d ls R)|].
  intros [c d'] h' (_ & HR & Hso & Hfree). mstep. cbn [fst snd] in *.
  replace ([] ++ kept (fun _ => true) ls) with (@nil (loc * item)) in HR by (clear; by induction ls).
  split; [done|]. split; [done|]. intros p Hp. by apply Hfree.
Qed.

Lemma destroy_loop_spec (k : nat) (h : heap) (p : option loc) (l : list (loc * item)) :
  NoDup l.*1 -> links h p l None -> (length l <= k)%nat ->
  mwp (deque_destroy_loop k (first l None))
    (fun _ h' => same_outside l.*1 h h' /\ forall a, a ∈ l.*1 -> h' !! a = None) h.
Proof.
  revert h p l. induction k as [|k IH]; intros h p [|[a x] l] Hnd Hl Hk; simpl in Hk; try lia;
    [split; [done|intros a Ha; by apply elem_of_nil in Ha]..|].
  destruct Hl as [Ha Hl]. rewrite fmap_cons in Hnd. apply NoDup_cons in Hnd as [Hna Hnd]. cbn [fst] in Hna.
  cbn [first deque_destroy_loop]. repeat mstep.
  eapply mwp_mono; [apply (IH _ (Some a) l); [done|by apply links_delete|lia]|].
  intros _ h' [Hso Hfree]. rewrite fmap_cons. cbn [fst]. split.
  - intros b [Hb1 Hb2]%not_elem_of_cons. rewrite Hso by done. by simplify_map_eq.
  - intros b [->|Hb]%elem_of_cons; [|by apply Hfree]. rewrite Hso by done. by simplify_map_eq.
Qed.

(** [pgagroal_deque_destroy] frees every node, the sentinels included, exactly
    once, and nothing else. *)
Theorem deque_destroy_frees (h : heap) (d : deque) (ls : list (loc * item)) (R : rep h d ls) :
  mwp (deque_destroy d)
    (fun _ h' => forall a, h' !! a = if decide (a ∈ (chain d ls).*1) then None else h !! a) h.
Proof.
  unfold deque_destroy. repeat mstep.
  eapply mwp_mono; [apply (destroy_loop_spec _ h None (chain d ls) (rep_nodup _ _ _ R) (rep_links _ _ _ R))|].
  - pose proof (links_size h None (chain d ls) None (rep_nodup _ _ _ R) (rep_links _ _ _ R)). lia.
  - intros _ h' [Hso Hfree] a. case_decide; [by apply Hfree|by apply Hso].
Qed.
