(* ===== verification/DequeSort.v ===== *)
(** * Sorting a deque

    [deque_sort] is a merge sort that moves the nodes by rewriting their pointers, with
    pointers to nodes already merged still in the [prev] fields.  It is shown to compute
    the merge sort on lists below, for any comparison; when the comparison is a total
    preorder the result is sorted. *)

From S2P Require Import Prelude Text Value Deque DequeFacts.
From stdpp Require Import sorting.

Local Open Scope Z_scope.

Section sort.
Context (cmp : option (value -> value -> Z)).

(** [node_compare] on items, and the order it decides. *)
Definition item_compare (x y : item) : Z :=
  match cmp with
  | Some cmp => cmp x.1 y.1
  | None => tag_compare x.2 y.2
  end.

Definition le_item (p q : loc * item) : Prop := item_compare p.2 q.2 <= 0.

#[export] Instance le_item_dec (p q : loc * item) : Decision (le_item p q).
Proof. unfold le_item. apply _. Defined.

(** The merge sort of the code on lists: halves, sorted, merged with ties from the left. *)
Fixpoint msort (k : nat) (l : list (loc * item)) : list (loc * item) :=
  match k, l with
  | S k, _ :: _ :: _ =>
      list_merge le_item (msort k (take (length l / 2) l)) (msort k (drop (length l / 2) l))
  | _, _ => l
  end.

(** ** The middle *)

Lemma get_middle_loop_spec (k : nat) (h : heap) (ps pf : option loc) (s f : list (loc * item)) :
  links h ps s None -> links h pf f None -> (length f <= length s)%nat -> (length f <= k)%nat ->
  mwp (get_middle_loop k (first s None) (first f None))
    (fun r h' => h' = h /\ r = first (drop (length f / 2) s) None) h.
Proof.
  revert ps pf s f. induction k as [|k IH]; intros ps pf s f Hs Hf Hl Hk.
  { destruct f; [|simpl in Hk; lia]. done. }
  destruct f as [|[a x] [|[b y] f]]; [done| |].
  { destruct Hf as [Ha _]. cbn [get_middle_loop first]. repeat mstep. done. }
  destruct s as [|[c z] s]; [simpl in Hl; lia|].
  destruct Hf as (Ha & Hb & Hf). destruct Hs as [Hc Hs].
  cbn [get_middle_loop first]. repeat mstep.
  eapply mwp_mono; [apply (IH (Some c) (Some b) s f); simpl in *; auto; lia|].
  intros r h' [-> ->]. split; [done|]. cbn [length].
  change (S (S (length f))) with (1 * 2 + length f)%nat. by rewrite Nat.div_add_l.
Qed.

Lemma get_middle_spec (h : heap) (p : option loc) (l : list (loc * item)) :
  NoDup l.*1 -> links h p l None ->
  mwp (get_middle (first l None)) (fun r h' => h' = h /\ r = first (drop (length l / 2) l) None) h.
Proof.
  intros Hnd Hl. unfold get_middle. repeat mstep.
  apply (get_middle_loop_spec _ h p p l l); [done..|]. pose proof (links_size _ _ _ _ Hnd Hl). lia.
Qed.

(** ** Merging *)

(** One node is moved from the front of a list to the end of the merged nodes [acc]. *)
Lemma merge_take_spec (h : heap) (acc l : list (loc * item)) (a : loc) (x : item) (p : option loc) :
  NoDup (acc ++ (a, x) :: l).*1 -> links h None acc None -> links h p ((a, x) :: l) None ->
  mwp (merge_take (final None acc) (first acc None) (Some a))
    (fun r h' => r = (Some a, first (acc ++ [(a, x)]) None, first l None) /\
       links h' None (acc ++ [(a, x)]) None /\ links h' (Some a) l None /\
       same_outside (a :: acc.*1) h h') h.
Proof.
  intros Hnd Hacc [Ha Hl]. rewrite fmap_app, fmap_cons in Hnd. cbn [fst] in Hnd.
  unfold merge_take. mstep. mstep. destruct (decide (acc = [])) as [->|Hne].
  - simpl in Hnd. apply NoDup_cons in Hnd as [Hna Hnd]. cbn [final first]. repeat mstep.
    split; [done|]. split; [split; [by simplify_map_eq|done]|].
    split; [do 2 (apply links_insert; [done|]); done|]. intros c [Hc _]%not_elem_of_cons. by simplify_map_eq.
  - destruct (list_snoc acc Hne) as (acc' & b & y & ->). rewrite final_snoc. apply links_snoc in Hacc as [Hacc Hb].
    rewrite fmap_app in Hnd. simpl in Hnd.
    assert (a <> b /\ a ∉ acc'.*1 /\ b ∉ acc'.*1 /\ a ∉ l.*1 /\ b ∉ l.*1) as (? & ? & ? & ? & ?).
    { rewrite !NoDup_app, !NoDup_cons in Hnd. clear -Hnd. destruct Hnd as ((_ & H1 & _) & H2 & H3 & _).
      specialize (H2 b) as H2b. specialize (H2 a) as H2a. set_solver. }
    repeat mstep. split; [by destruct acc' as [|[]]|]. split; [apply links_snoc; split; [apply links_snoc; split|]|split].
    + do 3 (apply links_insert; [done|]). done.
    + by simplify_map_eq.
    + rewrite final_snoc. by simplify_map_eq.
    + do 3 (apply links_insert; [done|]). done.
    + intros c Hc. rewrite fmap_app, not_elem_of_cons, not_elem_of_app in Hc. simpl in Hc.
      destruct Hc as (Hca & _ & Hcb). apply not_elem_of_cons in Hcb as [Hcb _]. by simplify_map_eq.
Qed.

Lemma list_merge_left (p q : loc * item) (l r : list (loc * item)) :
  item_compare p.2 q.2 <= 0 -> list_merge le_item (p :: l) (q :: r) = p :: list_merge le_item l (q :: r).
Proof. intros H. simpl. by rewrite decide_True. Qed.

Lemma list_merge_right (p q : loc * item) (l r : list (loc * item)) :
  ~ item_compare p.2 q.2 <= 0 -> list_merge le_item (p :: l) (q :: r) = q :: list_merge le_item (p :: l) r.
Proof. intros H. simpl. by rewrite decide_False. Qed.

Lemma node_compare_cell (x y : item) (n1 p1 n2 p2 : option loc) :
  node_compare cmp (cell x n1 p1) (cell y n2 p2) = item_compare x y.
Proof. unfold node_compare, item_compare. by destruct cmp. Qed.

(** The state between two iterations of the first loop of [deque_merge]. *)
Record merging (h : heap) (acc l r : list (loc * item)) : Prop := {
  merging_nodup : NoDup (acc ++ l ++ r).*1;
  merging_acc : links h None acc None;
  merging_left : exists p, links h p l None;
  merging_right : exists p, links h p r None
}.

Lemma merging_perm (h : heap) (acc l r : list (loc * item)) :
  NoDup (acc ++ l ++ r).*1 -> NoDup (acc ++ r ++ l).*1.
Proof. intros H. eapply NoDup_Permutation_proper; [|exact H]. rewrite (Permutation_app_comm r l). done. Qed.

Lemma merging_take (h h' : heap) (acc l r : list (loc * item)) (a : loc) (x : item) :
  NoDup (acc ++ ((a, x) :: l) ++ r).*1 -> (exists p, links h p r None) ->
  links h' None (acc ++ [(a, x)]) None -> links h' (Some a) l None -> same_outside (a :: acc.*1) h h' ->
  merging h' (acc ++ [(a, x)]) l r.
Proof.
  intros Hnd [p Hr] Hacc Hl Hso. split; [by rewrite <- app_assoc|done|by eexists|].
  exists p. eapply links_frame; [|exact Hr]. intros b Hb. apply Hso.
  rewrite !fmap_app, fmap_cons in Hnd. cbn [fst] in Hnd. rewrite !NoDup_app, NoDup_cons in Hnd.
  destruct Hnd as (_ & H1 & (_ & _) & H2 & _). apply not_elem_of_cons. split.
  - intros ->. apply (H2 a); [by apply elem_of_cons; left|done].
  - intros Hin. apply (H1 b Hin). apply elem_of_app. by right.
Qed.

Lemma same_outside_take (acc l r : list (loc * item)) (a : loc) (x : item) (h1 h2 h3 : heap) :
  same_outside (a :: acc.*1) h1 h2 -> same_outside ((acc ++ [(a, x)]) ++ l ++ r).*1 h2 h3 ->
  same_outside (acc ++ ((a, x) :: l) ++ r).*1 h1 h3.
Proof.
  intros H1 H2. rewrite <- app_assoc in H2. eapply same_outside_trans; [|exact H2].
  eapply same_outside_weaken; [|exact H1]. rewrite fmap_app. simpl.
  intros b [->|Hb]%elem_of_cons; apply elem_of_app; [right; by apply elem_of_cons; left|by left].
Qed.

(** How the first loop ends. *)
Definition merged (h : heap) (acc l r : list (loc * item))
  (s : option loc * option loc * option loc * option loc) (h' : heap) : Prop :=
  exists acc' l' r', (l' = [] \/ r' = []) /\
    (acc <> [] \/ l <> [] /\ r <> [] -> acc' <> []) /\
    s = (final None acc', first acc' None, first l' None, first r' None) /\
    acc' ++ l' ++ r' = acc ++ list_merge le_item l r /\ merging h' acc' l' r' /\
    same_outside (acc ++ l ++ r).*1 h h'.

Lemma merged_done (h : heap) (acc l r : list (loc * item)) :
  merging h acc l r -> l = [] \/ r = [] ->
  merged h acc l r (final None acc, first acc None, first l None, first r None) h.
Proof.
  intros Hm Hor. exists acc, l, r. split; [done|]. split; [naive_solver|]. split; [done|].
  split; [|split; [done|apply same_outside_refl]].
  destruct Hor as [->| ->]; [by destruct r|]. rewrite app_nil_r. by destruct l.
Qed.

Lemma merge_loop_spec (k : nat) (h : heap) (acc l r : list (loc * item)) :
  merging h acc l r -> (length l + length r <= k)%nat ->
  mwp (merge_loop k cmp (final None acc) (first acc None) (first l None) (first r None)) (merged h acc l r) h.
Proof.
  revert h acc l r. induction k as [|k IH]; intros h acc l r Hm Hk.
  { destruct l; [|simpl in Hk; lia]. apply (merged_done h acc [] r Hm). by left. }
  destruct l as [|[a x] l]; [apply (merged_done h acc [] r Hm); by left|].
  destruct r as [|[b y] r]; [apply (merged_done h acc ((a, x) :: l) [] Hm); by right|].
  destruct (merging_left _ _ _ _ Hm) as [pl [Ha Hl]]. destruct (merging_right _ _ _ _ Hm) as [pr [Hb Hr]].
  pose proof (merging_nodup _ _ _ _ Hm) as Hnd. pose proof (merging_acc _ _ _ _ Hm) as Hacc.
  cbn [merge_loop first]. mstep. eapply mwp_load; [exact Ha|]. mstep. eapply mwp_load; [exact Hb|].
  rewrite node_compare_cell. destruct (Z.leb_spec (item_compare x y) 0) as [Hle|Hgt].
  - mstep. eapply mwp_mono; [apply (merge_take_spec h acc l a x pl)|]; [|done|done|].
    { rewrite app_assoc, fmap_app in Hnd. by apply NoDup_app in Hnd as (? & _). }
    intros s h1 (-> & Hacc1 & Hl1 & Hso1). rewrite <- (final_snoc None acc a x).
    eapply mwp_mono; [apply (IH h1 (acc ++ [(a, x)]) l ((b, y) :: r))|].
    + apply (merging_take h); eauto. by exists pr.
    + simpl in *; lia.
    + intros s h2 (acc' & l' & r' & Hor & Hne & -> & E & Hm' & Hso2). exists acc', l', r'.
      split; [done|]. split; [intros _; apply Hne; left; by destruct acc|].
      rewrite list_merge_left by done. rewrite <- app_assoc in E.
      do 3 (split; [done|]). by eapply same_outside_take.
  - mstep. eapply mwp_mono; [apply (merge_take_spec h acc r b y pr)|]; [|done|done|].
    { apply merging_perm in Hnd; [|done]. rewrite app_assoc, fmap_app in Hnd. by apply NoDup_app in Hnd as (? & _). }
    intros s h1 (-> & Hacc1 & Hr1 & Hso1). rewrite <- (final_snoc None acc b y).
    assert (merging h1 (acc ++ [(b, y)]) r ((a, x) :: l)) as Hm1.
    { apply (merging_take h); eauto; [by apply merging_perm|by exists pl]. }
    eapply mwp_mono; [apply (IH h1 (acc ++ [(b, y)]) ((a, x) :: l) r)|].
    + destruct Hm1. split; auto. by apply merging_perm.
    + simpl in *; lia.
    + intros s h2 (acc' & l' & r' & Hor & Hne & -> & E & Hm' & Hso2). exists acc', l', r'.
      split; [done|]. split; [intros _; apply Hne; left; by destruct acc|].
      rewrite list_merge_right by (simpl; lia). rewrite <- app_assoc in E.
      do 3 (split; [done|]). eapply (same_outside_weaken (acc ++ ((b, y) :: r) ++ (a, x) :: l).*1).
      * intros c. rewrite !fmap_app, !elem_of_app. tauto.
      * eapply same_outside_take; [exact Hso1|]. eapply same_outside_weaken; [|exact Hso2].
        intros c. rewrite !fmap_app, !elem_of_app. tauto.
Qed.

(** Appending the rest of one list. *)
Lemma append_loop_spec (k : nat) (h : heap) (acc l : list (loc * item)) (n p : option loc) :
  acc <> [] -> NoDup (acc ++ l).*1 -> links h None acc n -> (l = [] -> n = None) -> links h p l None ->
  (length l <= k)%nat ->
  mwp (append_loop k (final None acc) (first l None))
    (fun r h' => r = final None (acc ++ l) /\ links h' None (acc ++ l) None /\ same_outside (acc ++ l).*1 h h') h.
Proof.
  revert h acc l n p. induction k as [|k IH]; intros h acc l n p Hne Hnd Hacc Hn Hl Hk;
    (destruct l as [|[a x] l];
     [rewrite app_nil_r; rewrite (Hn eq_refl) in Hacc; split; [done|]; split; [done|apply same_outside_refl]|]);
    [simpl in Hk; lia|].
  destruct (list_snoc acc Hne) as (acc' & b & y & ->). rewrite final_snoc. apply links_snoc in Hacc as [Hacc Hb].
  destruct Hl as [Ha Hl].
  assert (a <> b /\ a ∉ acc'.*1 /\ b ∉ acc'.*1 /\ a ∉ l.*1 /\ b ∉ l.*1) as (? & ? & ? & ? & ?).
  { rewrite !fmap_app, fmap_cons in Hnd. simpl in Hnd. rewrite !NoDup_app, !NoDup_cons in Hnd. clear -Hnd.
    destruct Hnd as ((_ & H1 & _) & H2 & H3 & _). specialize (H2 b) as H2b. specialize (H2 a) as H2a. set_solver. }
  cbn [append_loop first]. repeat mstep.
  match goal with |- mwp _ _ ?h' =>
    pose proof (IH h' ((acc' ++ [(b, y)]) ++ [(a, x)]) l (first l None) (Some a)) as Hgo end.
  rewrite final_snoc in Hgo. eapply mwp_mono; [apply Hgo; clear Hgo|clear Hgo].
  - by destruct acc'.
  - by rewrite <- app_assoc.
  - apply links_snoc. split; [apply links_snoc; split|].
    + do 2 (apply links_insert; [done|]). done.
    + by simplify_map_eq.
    + rewrite final_snoc. by simplify_map_eq.
  - by intros ->.
  - do 2 (apply links_insert; [done|]). done.
  - simpl in Hk; lia.
  - intros r h' (-> & Hl' & Hso). rewrite <- app_assoc in *. cbn [app] in *. split; [done|]. split; [done|].
    eapply same_outside_trans; [|exact Hso]. intros c Hc.
    rewrite !fmap_app, !fmap_cons, fmap_nil, !not_elem_of_app, !not_elem_of_cons in Hc.
    destruct Hc as ((_ & Hcb & _) & Hca & _). cbn [fst] in *. by simplify_map_eq.
Qed.

Lemma merge_perm (l r : list (loc * item)) : list_merge le_item l r ≡ₚ l ++ r.
Proof. apply merge_Permutation. Qed.

Lemma deque_merge_spec (h : heap) (l r : list (loc * item)) :
  NoDup (l ++ r).*1 -> links h None l None -> links h None r None ->
  mwp (deque_merge cmp (first l None) (first r None))
    (fun s h' => s = first (list_merge le_item l r) None /\ links h' None (list_merge le_item l r) None /\
       same_outside (l ++ r).*1 h h') h.
Proof.
  intros Hnd Hl Hr. destruct l as [|[a x] l].
  { assert (list_merge le_item [] r = r) as -> by by destruct r. split; [done|]. split; [done|apply same_outside_refl]. }
  destruct r as [|[b y] r].
  { split; [done|]. split; [exact Hl|apply same_outside_refl]. }
  set (L := (a, x) :: l) in *. set (R := (b, y) :: r) in *.
  assert (merging h [] L R) as Hm by (split; [done|done|by exists None|by exists None]).
  assert (length (L ++ R) <= size h)%nat as Hsz.
  { assert (links h None L None /\ links h None R None) as [H1 H2] by done.
    rewrite <- (length_fmap fst), <- size_dom, <- (size_list_to_set (C := gset loc)) by done.
    apply subseteq_size. intros c Hc. apply elem_of_list_to_set in Hc. apply elem_of_dom.
    rewrite fmap_app in Hc. apply elem_of_app in Hc as [Hc|Hc]; [exact (links_lookup _ _ _ _ _ H1 Hc)|exact (links_lookup _ _ _ _ _ H2 Hc)]. }
  unfold deque_merge, L, R. cbn [first]. fold L R. mstep. mstep. mstep. rewrite length_app in Hsz.
  eapply mwp_mono; [apply (merge_loop_spec _ h [] L R Hm); lia|].
  intros s h1 (acc & l' & r' & Hor & Hne & -> & E & Hm1 & Hso1). cbn [app] in *.
  assert (acc <> []) as Hne' by (apply Hne; right; done).
  assert (acc ++ l' ++ r' ≡ₚ L ++ R) as Hp by (rewrite E; apply merge_perm).
  destruct (merging_left _ _ _ _ Hm1) as [pl Hl1]. destruct (merging_right _ _ _ _ Hm1) as [pr Hr1].
  pose proof (merging_nodup _ _ _ _ Hm1) as Hnd1. pose proof (merging_acc _ _ _ _ Hm1) as Hacc.
  assert (length acc + (length l' + length r') = length L + length R)%nat as Hlen
    by (apply Permutation_length in Hp; by rewrite !length_app in Hp).
  mstep. eapply mwp_mono; [apply (append_loop_spec _ h1 acc l' None pl)|]; try done; [|lia|].
  { rewrite app_assoc, fmap_app in Hnd1. by apply NoDup_app in Hnd1 as (? & _). }
  intros nd h2 (-> & Hacc2 & Hso2).
  assert (links h2 pr r' None) as Hr2.
  { eapply links_frame; [|exact Hr1]. intros c Hc. apply Hso2.
    rewrite app_assoc, fmap_app in Hnd1. apply NoDup_app in Hnd1 as (_ & Hd & _). intros Hin. by apply (Hd c). }
  mstep. eapply mwp_mono; [apply (append_loop_spec _ h2 (acc ++ l') r' None pr)|]; try done; [by destruct acc|by rewrite <- app_assoc|lia|].
  intros nd h3 (_ & Hacc3 & Hso3). mstep. rewrite <- app_assoc, E in *. split; [|split; [done|]].
  - assert (first acc None = first (acc ++ l' ++ r') None) as -> by (by destruct acc as [|[]]). by rewrite E.
  - assert (forall h h', same_outside (list_merge le_item L R).*1 h h' -> same_outside (L ++ R).*1 h h') as Hw.
    { intros ? ?. apply same_outside_weaken. intros c. by rewrite merge_perm. }
    eapply same_outside_trans; [exact Hso1|]. eapply same_outside_trans; [|apply Hw, Hso3].
    apply Hw. rewrite <- E. eapply same_outside_weaken; [|exact Hso2].
    intros c. rewrite !fmap_app, !elem_of_app. tauto.
Qed.

(** ** The sort *)

Lemma msort_perm (k : nat) (l : list (loc * item)) : msort k l ≡ₚ l.
Proof.
  revert l. induction k as [|k IH]; intros l; [done|]. destruct l as [|p [|q l]]; [done|done|].
  cbn [msort]. by rewrite merge_perm, !IH, take_drop.
Qed.

(** Cutting a list in two: both halves end in NULL. *)
Lemma links_cut (h : heap) (l1 l2 : list (loc * item)) (b c : loc) (y z : item) :
  NoDup ((l1 ++ [(b, y)]) ++ (c, z) :: l2).*1 -> links h None ((l1 ++ [(b, y)]) ++ (c, z) :: l2) None ->
  let h' := <[b := cell y None (final None l1)]> (<[c := cell z (first l2 None) None]> h) in
  links h' None (l1 ++ [(b, y)]) None /\ links h' None ((c, z) :: l2) None /\
  h !! c = Some (cell z (first l2 None) (Some b)) /\ h !! b = Some (cell y (Some c) (final None l1)) /\ b <> c.
Proof.
  intros Hnd Hl h'. apply links_app in Hl as [Hl1 [Hc Hl2]]. rewrite final_snoc in Hc.
  apply links_snoc in Hl1 as [Hl1 Hb]. rewrite !fmap_app, !fmap_cons in Hnd. cbn [fst fmap list_fmap] in Hnd.
  assert (b <> c /\ b ∉ l1.*1 /\ c ∉ l1.*1 /\ b ∉ l2.*1 /\ c ∉ l2.*1) as (? & ? & ? & ? & ?).
  { rewrite !NoDup_app, !NoDup_cons in Hnd. clear -Hnd. destruct Hnd as ((_ & H1 & _) & H2 & H3 & _).
    specialize (H2 b) as H2b. specialize (H2 c) as H2c. set_solver. }
  unfold h'. split; [apply links_snoc; split|split; [split|]].
  - do 2 (apply links_insert; [done|]). done.
  - by simplify_map_eq.
  - by simplify_map_eq.
  - do 2 (apply links_insert; [done|]). done.
  - done.
Qed.

Lemma split_half (l : list (loc * item)) :
  (2 <= length l)%nat ->
  exists l1 b y c z l2, take (length l / 2) l = l1 ++ [(b, y)] /\ drop (length l / 2) l = (c, z) :: l2.
Proof.
  intros Hl. assert (1 <= length l / 2 /\ length l / 2 < length l)%nat as [H1 H2].
  { split; [by apply Nat.div_le_lower_bound|apply Nat.div_lt; lia]. }
  destruct (list_snoc (take (length l / 2) l)) as (l1 & b & y & E1).
  { intros E. apply (f_equal length) in E. rewrite length_take in E. cbn [length] in E. lia. }
  destruct (drop (length l / 2) l) as [|[c z] l2] eqn:E2.
  { apply (f_equal length) in E2. rewrite length_drop in E2. cbn [length] in E2. lia. }
  eauto 10.
Qed.

Lemma sort_loop_spec (k : nat) (h : heap) (l : list (loc * item)) :
  NoDup l.*1 -> links h None l None -> (length l <= k)%nat ->
  mwp (deque_sort_loop k cmp (first l None))
    (fun r h' => r = first (msort k l) None /\ links h' None (msort k l) None /\ same_outside l.*1 h h') h.
Proof.
  revert h l. induction k as [|k IH]; intros h l Hnd Hl Hk.
  { destruct l; [|simpl in Hk; lia]. split; [done|]. split; [done|apply same_outside_refl]. }
  destruct l as [|[a x] [|[a' x'] l']].
  { split; [done|]. split; [done|apply same_outside_refl]. }
  { destruct Hl as [Ha _]. cbn [deque_sort_loop first]. repeat mstep.
    split; [done|]. split; [by split|apply same_outside_refl]. }
  set (l := (a, x) :: (a', x') :: l') in *.
  assert (first l None = Some a /\ h !! a = Some (cell x (Some a') None)) as [Ef Ha] by (split; [done|apply Hl]).
  assert (2 <= length l)%nat as Hlen by (unfold l; simpl; lia).
  destruct (split_half l Hlen) as (l1 & b & y & c & z & l2 & E1 & E2).
  assert (length (take (length l / 2) l) <= k /\ length (drop (length l / 2) l) <= k)%nat as [Hk1 Hk2].
  { rewrite length_take, length_drop. assert (length l / 2 < length l)%nat by (apply Nat.div_lt; lia).
    assert (1 <= length l / 2)%nat by (by apply Nat.div_le_lower_bound). lia. }
  assert (msort (S k) l = list_merge le_item (msort k (l1 ++ [(b, y)])) (msort k ((c, z) :: l2))) as Es
    by (rewrite <- E1, <- E2; done).
  rewrite E1 in Hk1. rewrite E2 in Hk2.
  assert (l = (l1 ++ [(b, y)]) ++ (c, z) :: l2) as El by (rewrite <- E1, <- E2; symmetry; apply take_drop).
  rewrite El in Hnd. pose proof Hl as Hl0. rewrite El in Hl.
  destruct (links_cut h l1 l2 b c y z Hnd Hl) as (Hc1 & Hc2 & Hc & Hb & Hbc).
  rewrite Es. rewrite Ef. cbn [deque_sort_loop]. mstep. mstep. mstep. rewrite <- Ef.
  eapply mwp_mono; [apply (get_middle_spec h None l); [by rewrite El|done]|].
  intros mid h0 [-> ->]. rewrite E2. cbn [first]. repeat mstep.
  fold (cell z (first l2 None) None) (cell y None (final None l1)).
  set (h1 := <[b := cell y None (final None l1)]> (<[c := cell z (first l2 None) None]> h)) in *.
  rewrite fmap_app in Hnd. pose proof Hnd as Hnd'. apply NoDup_app in Hnd' as (Hn1 & Hd & Hn2).
  rewrite El at 1. rewrite first_app.
  replace (first (l1 ++ [(b, y)]) (first ((c, z) :: l2) None)) with (first (l1 ++ [(b, y)]) None)
    by (by destruct l1 as [|[]]).
  eapply mwp_mono; [apply (IH h1 (l1 ++ [(b, y)]) Hn1 Hc1 Hk1)|]. intros n1 h2 (-> & Hs1 & Hso1).
  mstep. assert (links h2 None ((c, z) :: l2) None) as Hc2'.
  { eapply links_frame; [|exact Hc2]. intros d Hin. apply Hso1. intros Hin'. by apply (Hd d). }
  eapply mwp_mono; [apply (IH h2 ((c, z) :: l2) Hn2 Hc2' Hk2)|]. intros n2 h3 (-> & Hs2 & Hso2).
  eapply mwp_mono; [apply (deque_merge_spec h3)|].
  - rewrite !msort_perm. by rewrite fmap_app.
  - eapply links_frame; [|exact Hs1]. intros d. rewrite msort_perm. intros Hin. apply Hso2. by apply Hd.
  - done.
  - intros r h4 (-> & Hs & Hso3). split; [done|]. split; [done|].
    rewrite !msort_perm in Hso3. rewrite El, fmap_app. rewrite fmap_app in Hso3.
    eapply same_outside_trans; [|exact Hso3].
    eapply same_outside_trans; [|eapply same_outside_weaken; [|exact Hso2]; intros d Hin; apply elem_of_app; by right].
    eapply same_outside_trans; [|eapply same_outside_weaken; [|exact Hso1]; intros d Hin; apply elem_of_app; by left].
    unfold h1. intros d. rewrite fmap_app, !fmap_cons, !not_elem_of_app, !not_elem_of_cons. cbn [fst].
    intros ((_ & ? & _) & ? & _). by simplify_map_eq.
Qed.

(** ** The whole deque *)

Lemma links_set_first (h : heap) (p p' n : option loc) (l : list (loc * item)) (a : loc) (x : item) :
  NoDup ((a, x) :: l).*1 -> links h p ((a, x) :: l) n ->
  h !! a = Some (cell x (first l n) p) /\ links (<[a := cell x (first l n) p']> h) p' ((a, x) :: l) n.
Proof.
  intros Hnd [Ha Hl]. rewrite fmap_cons in Hnd. apply NoDup_cons in Hnd as [Hna _].
  split; [done|]. split; [by simplify_map_eq|by apply links_insert].
Qed.

Lemma links_set_last (h : heap) (p n n' : option loc) (l : list (loc * item)) (b : loc) (y : item) :
  NoDup (l ++ [(b, y)]).*1 -> links h p (l ++ [(b, y)]) n ->
  h !! b = Some (cell y n (final p l)) /\ links (<[b := cell y n' (final p l)]> h) p (l ++ [(b, y)]) n'.
Proof.
  intros Hnd [Hl Hb]%links_snoc. rewrite fmap_app in Hnd. apply NoDup_app in Hnd as (_ & Hd & _).
  assert (b ∉ l.*1) as Hnb by (intros Hin; apply (Hd b Hin); simpl; by apply elem_of_cons; left).
  split; [done|]. apply links_snoc. split; [by apply links_insert|by simplify_map_eq].
Qed.

Lemma last_loop_spec (k : nat) (h : heap) (p : option loc) (l : list (loc * item)) :
  l <> [] -> links h p l None -> (length l <= k)%nat ->
  mwp (last_loop k (first l None)) (fun r h' => h' = h /\ r = final p l) h.
Proof.
  revert p l. induction k as [|k IH]; intros p l Hne Hl Hk; (destruct l as [|[a x] l]; [done|]); [simpl in Hk; lia|].
  destruct Hl as [Ha Hl]. cbn [last_loop first]. mstep. mstep. destruct l as [|[b y] l]; [done|]. cbn [first].
  apply (IH (Some a) ((b, y) :: l)); [done|done|simpl in *; lia].
Qed.

(** Only the total part of a comparison is needed for the result to be sorted. *)
Definition comparable (l : list (loc * item)) : Prop :=
  forall p q, p ∈ l -> q ∈ l -> ~ le_item p q -> le_item q p.

Lemma comparable_sub (l l' : list (loc * item)) :
  (forall x, x ∈ l -> x ∈ l') -> comparable l' -> comparable l.
Proof. intros Hs Hc p q Hp Hq. apply Hc; by apply Hs. Qed.

Lemma merge_sorted (l1 l2 : list (loc * item)) :
  comparable (l1 ++ l2) -> Sorted le_item l1 -> Sorted le_item l2 -> Sorted le_item (list_merge le_item l1 l2).
Proof.
  intros Hc H1 H2. revert l2 H2 Hc. induction H1 as [|x1 l1 H1 IH1 Hd1]; intros l2 H2.
  { by destruct l2. }
  induction H2 as [|x2 l2 H2 IH2 Hd2]; intros Hc; [simpl; by constructor|]. cbn [list_merge].
  destruct (decide (le_item x1 x2)) as [Hle|Hnle].
  - constructor; [apply IH1; [by constructor|]|apply HdRel_list_merge; [done|by constructor]].
    eapply comparable_sub; [|exact Hc]. intros x. rewrite !elem_of_app, !elem_of_cons. tauto.
  - constructor.
    + apply IH2. eapply comparable_sub; [|exact Hc]. intros x. rewrite !elem_of_app, !elem_of_cons. tauto.
    + change (HdRel le_item x2 (list_merge le_item (x1 :: l1) l2)). apply HdRel_list_merge; [|done].
      constructor. apply Hc; [..|done]; rewrite elem_of_app, !elem_of_cons; tauto.
Qed.

Lemma msort_sorted (k : nat) (l : list (loc * item)) :
  (length l <= k)%nat -> comparable l -> Sorted le_item (msort k l).
Proof.
  revert l. induction k as [|k IH]; intros l Hk Hc; [destruct l; [constructor|simpl in Hk; lia]|].
  destruct l as [|p [|q l']]; [constructor|repeat constructor|]. cbn [msort]. set (l := p :: q :: l') in *.
  assert (2 <= length l)%nat by (unfold l; simpl; lia).
  assert (1 <= length l / 2 /\ length l / 2 < length l)%nat as [? ?]
    by (split; [by apply Nat.div_le_lower_bound|apply Nat.div_lt; lia]).
  apply merge_sorted.
  - intros x y. rewrite !msort_perm, take_drop. apply Hc.
  - apply IH; [rewrite length_take; lia|]. eapply comparable_sub; [|exact Hc].
    apply subseteq_take.
  - apply IH; [rewrite length_drop; lia|]. eapply comparable_sub; [|exact Hc].
    apply subseteq_drop.
Qed.

(** Detaching the items from the sentinels. *)
Lemma detach_spec (h : heap) (d : deque) (a b : loc) (x y : item) (m : list (loc * item)) :
  let ls := (a, x) :: m ++ [(b, y)] in
  rep h d ls ->
  let h1 := <[b := cell y None (final (Some a) m)]>
              (<[a := cell x (first (m ++ [(b, y)]) (Some (d_end d))) None]> h) in
  h !! a = Some (cell x (first (m ++ [(b, y)]) (Some (d_end d))) (Some (d_start d))) /\
  <[a := cell x (first (m ++ [(b, y)]) (Some (d_end d))) None]> h !! b
    = Some (cell y (Some (d_end d)) (final (Some a) m)) /\
  links h1 None ls None /\ same_outside ls.*1 h h1.
Proof.
  intros ls R h1. destruct (rep_distinct _ _ _ R) as (_ & _ & _ & Hnd).
  destruct (rep_ends _ _ _ R) as [[_ Hl] _].
  destruct (links_set_first _ _ None _ _ _ _ Hnd Hl) as [Ha Hl1].
  change ((a, x) :: m ++ [(b, y)]) with (((a, x) :: m) ++ [(b, y)]) in Hl1.
  destruct (links_set_last _ None _ None ((a, x) :: m) b y Hnd Hl1) as [Hb Hl2].
  split; [exact Ha|]. split; [exact Hb|]. split; [exact Hl2|].
  unfold h1, ls. intros c. rewrite fmap_cons, fmap_app, not_elem_of_cons, not_elem_of_app. cbn [fst fmap list_fmap].
  rewrite not_elem_of_cons. intros (? & _ & ? & _). by simplify_map_eq.
Qed.

(** Attaching the sorted items to them. *)
Lemma attach_spec (h : heap) (d : deque) (s : list (loc * item)) (k : nat) :
  s <> [] -> NoDup (chain d s).*1 -> links h None s None -> (length s <= k)%nat ->
  h !! d_start d = Some (cell sentinel None None) -> h !! d_end d = Some (cell sentinel None None) ->
  d_size d = Z.of_nat (length s) ->
  mwp (set_next (Some (d_start d)) (first s None);;
       set_prev (first s None) (Some (d_start d));;
       nd ← last_loop k (first s None);
       set_prev (Some (d_end d)) nd;; set_next nd (Some (d_end d)))
    (fun _ h' => rep h' d s /\ same_outside (chain d s).*1 h h') h.
Proof.
  intros Hne Hnd Hl Hk Hs He Hsz. destruct s as [|[a x] s]; [done|]. cbn [first].
  assert (d_start d <> d_end d /\ d_start d ∉ ((a, x) :: s).*1 /\ d_end d ∉ ((a, x) :: s).*1 /\ NoDup ((a, x) :: s).*1)
    as (Hse & Hsn & Hen & Hnd').
  { unfold chain in Hnd. rewrite fmap_cons, fmap_app in Hnd. apply NoDup_cons in Hnd as [H1 H2].
    apply NoDup_app in H2 as (H2 & H3 & _). rewrite not_elem_of_app in H1. cbn [fst fmap list_fmap] in *. set_solver. }
  destruct (list_snoc ((a, x) :: s)) as (l & b & y & El); [done|].
  mstep. mstep.
  assert (links (<[d_start d := cell sentinel (Some a) None]> h) None ((a, x) :: s) None) as Hl0 by (by apply links_insert).
  destruct (links_set_first _ _ (Some (d_start d)) _ _ _ _ Hnd' Hl0) as [Ha Hl1].
  mstep. eapply mwp_set_prev; [exact Ha|]. cbn [cell n_data n_tag n_next n_prev]. fold (cell x (first s None) (Some (d_start d))).
  set (h1 := <[a := _]> _) in *. mstep.
  eapply mwp_mono; [apply (last_loop_spec k h1 (Some (d_start d)) ((a, x) :: s)); done|].
  intros nd h' [-> ->]. rewrite El, final_snoc. rewrite El in Hl1, Hnd', Hen, Hsn.
  assert (h1 !! d_end d = Some (cell sentinel None None)) as He1.
  { unfold h1. rewrite <- El in Hen. apply not_elem_of_cons in Hen as [? _]. cbn [fst] in *. by simplify_map_eq. }
  assert (h1 !! d_start d = Some (cell sentinel (Some a) None)) as Hs1.
  { unfold h1. rewrite <- El in Hsn. apply not_elem_of_cons in Hsn as [? _]. cbn [fst] in *. by simplify_map_eq. }
  mstep. mstep. set (h2 := <[d_end d := _]> h1).
  assert (links h2 (Some (d_start d)) (l ++ [(b, y)]) None) as Hl2 by (by apply links_insert).
  destruct (links_set_last _ _ _ (Some (d_end d)) _ _ _ Hnd' Hl2) as [Hb Hl3].
  eapply mwp_set_next; [exact Hb|]. cbn [cell n_data n_tag n_next n_prev]. fold (cell y (Some (d_end d)) (final (Some (d_start d)) l)).
  assert (b ∈ (l ++ [(b, y)]).*1) as Hbin by (rewrite fmap_app; apply elem_of_app; right; simpl; by apply elem_of_cons; left).
  assert (a ∈ (l ++ [(b, y)]).*1) as Hain by (rewrite <- El; simpl; by apply elem_of_cons; left).
  assert (b <> d_start d /\ b <> d_end d /\ a <> d_start d /\ a <> d_end d) as (? & ? & ? & ?) by (split_and!; congruence).
  split; [split|].
  - by rewrite <- El.
  - unfold chain. apply (links_snoc _ None (_ :: _)). split; [split|].
    + replace (first (l ++ [(b, y)]) (Some (d_end d))) with (Some a) by (rewrite <- El; done).
      unfold h2. by simplify_map_eq.
    + exact Hl3.
    + cbn [final]. rewrite final_snoc. unfold h2. by simplify_map_eq.
  - by rewrite <- El.
  - intros c Hc. rewrite elem_chain in Hc. assert (c <> d_start d /\ c <> d_end d /\ c <> a /\ c <> b) as (? & ? & ? & ?).
    { split_and!; try tauto; intros ->; tauto. }
    unfold h2, h1. by simplify_map_eq.
Qed.

Lemma chain_perm (d : deque) (l l' : list (loc * item)) : l ≡ₚ l' -> (chain d l).*1 ≡ₚ (chain d l').*1.
Proof. intros H. unfold chain. by rewrite H. Qed.

Lemma list_ends (l : list (loc * item)) :
  (2 <= length l)%nat -> exists a x m b y, l = (a, x) :: m ++ [(b, y)].
Proof.
  intros H. destruct l as [|[a x] l]; [simpl in H; lia|]. destruct (list_snoc l) as (m & b & y & ->); [|eauto 10].
  intros ->. simpl in H. lia.
Qed.

Lemma deque_sort_spec (h : heap) (d : deque) (ls : list (loc * item)) :
  rep h d ls ->
  mwp (deque_sort d cmp)
    (fun _ h' => exists k, (length ls <= k)%nat /\ rep h' d (msort k ls) /\ same_outside (chain d ls).*1 h h') h.
Proof.
  intros R. unfold deque_sort. rewrite (rep_size _ _ _ R). destruct (Z.leb_spec (Z.of_nat (length ls)) 1).
  { mstep. exists (length ls). split; [done|]. split; [|apply same_outside_refl].
    destruct ls as [|? [|]]; [done|done|simpl in *; lia]. }
  destruct (list_ends ls) as (a & x & m & b & y & El); [lia|].
  destruct (detach_spec h d a b x y m) as (Ha & Hb & Hl1 & Hso1); [by rewrite <- El|]. rewrite <- El in *.
  destruct (rep_distinct _ _ _ R) as (Hse & Hsn & Hen & Hnd).
  pose proof (rep_start _ _ _ R) as Hs. destruct (rep_ends _ _ _ R) as [_ He].
  assert (first ls (Some (d_end d)) = Some a) as Ea by (by rewrite El). rewrite Ea in Hs.
  assert (final (Some (d_start d)) ls = Some b) as Eb.
  { rewrite El. change (final (Some a) (m ++ [(b, y)]) = Some b). apply final_snoc. }
  rewrite Eb in He. mstep. mstep. mstep. mstep. mstep.
  eapply mwp_set_prev; [exact Ha|]. cbn [cell n_data n_tag n_next n_prev].
  mstep. eapply mwp_set_next; [exact Hb|]. cbn [cell n_data n_tag n_next n_prev].
  fold (cell x (first (m ++ [(b, y)]) (Some (d_end d))) None) (cell y None (final (Some a) m)).
  set (h1 := <[b := _]> _) in *.
  rewrite <- (Hso1 _ Hsn) in Hs. rewrite <- (Hso1 _ Hen) in He.
  mstep. mstep. mstep. mstep. mstep. mstep. mstep.
  fold (cell sentinel None None). set (h2 := <[d_end d := _]> _).
  assert (links h2 None ls None) as Hl2 by (do 2 (apply links_insert; [done|]); done).
  assert (length ls <= S (size h2))%nat as Hk by (pose proof (links_size _ _ _ _ Hnd Hl2); lia).
  replace (Some a) with (first ls None) by (by rewrite El).
  eapply mwp_mono; [apply (sort_loop_spec _ h2 ls Hnd Hl2 Hk)|].
  intros nd h3 (-> & Hl3 & Hso3). set (k := S (size h2)) in *.
  pose proof (msort_perm k ls) as Hp.
  eapply mwp_mono; [apply (attach_spec h3 d (msort k ls) k)|].
  - intros E. rewrite E in Hp. apply Permutation_nil in Hp. by rewrite Hp in El.
  - rewrite (chain_perm d _ _ Hp). apply (rep_nodup _ _ _ R).
  - done.
  - by rewrite Hp.
  - rewrite Hso3 by done. unfold h2. by simplify_map_eq.
  - rewrite Hso3 by done. unfold h2. by simplify_map_eq.
  - rewrite Hp. apply (rep_size _ _ _ R).
  - intros _ h4 [R4 Hso4]. exists k. split; [done|]. split; [done|].
    rewrite (chain_perm d _ _ Hp) in Hso4. eapply same_outside_trans; [|exact Hso4].
    assert (ls.*1 ⊆ (chain d ls).*1) as Hsub by (intros c Hc; apply elem_chain; tauto).
    eapply same_outside_trans; [|eapply same_outside_weaken; [exact Hsub|exact Hso3]].
    eapply same_outside_trans; [eapply same_outside_weaken; [exact Hsub|exact Hso1]|].
    intros c Hc. rewrite elem_chain in Hc. unfold h2. assert (c <> d_start d /\ c <> d_end d) as [? ?] by tauto.
    by simplify_map_eq.
Qed.

(** C39: [pgagroal_deque_sort] rearranges the nodes into sorted order, for any
    comparison that is total on the items; no item is lost or duplicated, and no cell
    outside the deque is touched. *)
Theorem deque_sort_sorts (h : heap) (d : deque) (ls : list (loc * item)) (R : rep h d ls)
  (Hc : comparable ls) :
  mwp (deque_sort d cmp)
    (fun _ h' => exists ls', rep h' d ls' /\ ls' ≡ₚ ls /\ Sorted le_item ls' /\
       same_outside (chain d ls).*1 h h') h.
Proof.
  eapply mwp_mono; [by apply deque_sort_spec|]. intros _ h' (k & Hk & R' & Hso).
  exists (msort k ls). split; [done|]. split; [apply msort_perm|]. split; [by apply msort_sorted|done].
Qed.
End sort.

(** ** The comparisons in use *)

Lemma tag_compare_total (a b : option string) : ~ tag_compare a b <= 0 -> tag_compare b a <= 0.
Proof. destruct a as [a|], b as [b|]; simpl; try lia. pose proof (strcmp_opp a b). lia. Qed.

(** Tags are always comparable. *)
Lemma tags_comparable (ls : list (loc * item)) : comparable None ls.
Proof. intros p q _ _. apply tag_compare_total. Qed.

(** Values are, when none is floating point. *)
Lemma values_comparable (ls : list (loc * item)) :
  Forall (fun p => ordered p.2.1) ls ->
  comparable (Some (fun a b => value_compare (Some a) (Some b))) ls.
Proof.
  intros H p q Hp Hq Hn. rewrite Forall_forall in H. unfold le_item, item_compare in *.
  pose proof (value_compare_opp p.2.1 q.2.1 (H p Hp) (H q Hq)). lia.
Qed.

(** ** Instances *)

Definition item_b : item := (value_create ValueInt32 (Word 20), Some "b").
Definition item_a : item := (value_create ValueInt32 (Word 10), Some "a").
Definition items_example : list (loc * item) := [(3%positive, item_b); (4%positive, item_a)].
Definition deque_example : deque := Deque 2 1 2.

Definition heap_example : heap :=
  <[1%positive := cell sentinel (Some 3%positive) None]>
  (<[3%positive := cell item_b (Some 4%positive) (Some 1%positive)]>
  (<[4%positive := cell item_a (Some 2%positive) (Some 3%positive)]>
  (<[2%positive := cell sentinel None (Some 4%positive)]> ∅))).

Lemma rep_example : rep heap_example deque_example items_example.
Proof.
  split; [|repeat split|done].
  apply (bool_decide_unpack (NoDup (chain deque_example items_example).*1)). exact I.
Qed.

Lemma deque_add_appends_witness :
  mwp (deque_add deque_example None (Word 5) ValueInt64)
    (fun d' h' => exists a, heap_example !! a = None /\
       rep h' d' (items_example ++ [(a, (value_create ValueInt64 (Word 5), None))]) /\
       same_outside (a :: (chain deque_example items_example).*1) heap_example h') heap_example.
Proof.
  apply (deque_add_appends heap_example deque_example items_example None (Word 5) ValueInt64 rep_example).
  simpl; lia.
Defined.

Lemma deque_poll_first_witness :
  mwp (deque_poll deque_example)
    (fun r h' => exists d', r = (Word 20, Some (Some "b"), d') /\ rep h' d' [(4%positive, item_a)] /\
       h' !! 3%positive = None /\ same_outside (chain deque_example items_example).*1 heap_example h') heap_example.
Proof. apply (deque_poll_first heap_example deque_example items_example rep_example). simpl; lia. Defined.

Lemma deque_poll_last_last_witness :
  mwp (deque_poll_last deque_example)
    (fun r h' => exists d', r = (Word 10, Some (Some "a"), d') /\ rep h' d' [(3%positive, item_b)] /\
       h' !! 4%positive = None /\ same_outside (chain deque_example items_example).*1 heap_example h') heap_example.
Proof.
  apply (deque_poll_last_last heap_example deque_example items_example rep_example). simpl; lia.
Defined.

Lemma deque_get_first_witness :
  mwp (deque_get deque_example (Some "a")) (fun r h' => h' = heap_example /\ r = Word 10) heap_example.
Proof. apply (deque_get_first heap_example deque_example items_example "a" rep_example). discriminate. Defined.

Lemma deque_remove_by_tag_witness :
  mwp (deque_remove_all deque_example (Some "b"))
    (fun r h' => let matches := fun tag => pgagroal_strcmp tag (Some "b") in
       r.1 = 1 /\ rep h' r.2 [(4%positive, item_a)] /\
       same_outside (chain deque_example items_example).*1 heap_example h' /\
       forall p, p ∈ items_example -> matches p.2.2 = true -> h' !! p.1 = None) heap_example.
Proof. apply (deque_remove_by_tag heap_example deque_example items_example "b" rep_example). simpl; lia. Defined.

Lemma deque_clear_empties_witness :
  mwp (deque_clear deque_example)
    (fun d' h' => rep h' d' [] /\ same_outside (chain deque_example items_example).*1 heap_example h' /\
       forall p, p ∈ items_example -> h' !! p.1 = None) heap_example.
Proof. apply (deque_clear_empties heap_example deque_example items_example rep_example). simpl; lia. Defined.

Lemma deque_destroy_frees_witness :
  mwp (deque_destroy deque_example)
    (fun _ h' => forall a, h' !! a = if decide (a ∈ (chain deque_example items_example).*1) then None
                                     else heap_example !! a) heap_example.
Proof. exact (deque_destroy_frees heap_example deque_example items_example rep_example). Defined.

(** Sorting by tag swaps the two nodes. *)
Lemma deque_sort_sorts_witness :
  mwp (deque_sort deque_example None)
    (fun _ h' => exists ls', rep h' deque_example ls' /\ ls' ≡ₚ items_example /\ Sorted (le_item None) ls' /\
       same_outside (chain deque_example items_example).*1 heap_example h') heap_example.
Proof.
  exact (deque_sort_sorts None heap_example deque_example items_example rep_example (tags_comparable items_example)).
Defined.

(** The deque's own comparison of values qualifies as well. *)
Example sort_by_value :
  comparable (Some (fun a b => value_compare (Some a) (Some b))) items_example.
Proof. apply values_comparable. repeat constructor. Qed.
