(* ===== verification/Config.v ===== *)
(** * The data model: constants and structures of [include/pgagroal.h]

    [struct main_configuration] lives in shared memory.  Its fields fall in two
    groups: what the configuration files fix before the first fork (the record
    [config] here) and what the processes change while they run (the record
    [shm]: the slot states, the connections, the counters, the server states).
    An array indexed by slot, rule or server is a list. *)

From S2P Require Import Prelude.

Local Open Scope Z_scope.

(** ** Constants *)

Definition MAX_USERNAME_LENGTH : nat := 128.
Definition MAX_DATABASE_LENGTH : nat := 256.
Definition MIN_CONNECTION_RETRY_DELAY : Z := 1.
Definition MAX_CONNECTION_RETRY_DELAY : Z := 999.
Definition NUMBER_OF_SECURITY_MESSAGES : nat := 5.
Definition NUMBER_OF_LIMITS : nat := 64.
Definition FD_GENERATION_PENDING : Z := 2 ^ 63 - 1.

Definition SECURITY_INVALID : Z := -2.
Definition SECURITY_REJECT : Z := -1.
Definition SECURITY_TRUST : Z := 0.
Definition SECURITY_PASSWORD : Z := 3.
Definition SECURITY_SCRAM256 : Z := 10.

(** The [STATE_*] constants of a slot. *)
Inductive slot_state :=
| STATE_NOTINIT | STATE_INIT | STATE_FREE | STATE_IN_USE | STATE_GRACEFULLY | STATE_FLUSH
| STATE_IDLE_CHECK | STATE_MAX_CONNECTION_AGE | STATE_VALIDATION | STATE_REMOVE.

#[export] Instance slot_state_eq_dec : EqDecision slot_state.
Proof. solve_decision. Defined.
#[export] Instance slot_state_inhabited : Inhabited slot_state := populate STATE_NOTINIT.

(** The [signed char] each state is stored as. *)
Definition slot_state_code (s : slot_state) : Z :=
  match s with
  | STATE_NOTINIT => -2 | STATE_INIT => -1 | STATE_FREE => 0 | STATE_IN_USE => 1
  | STATE_GRACEFULLY => 2 | STATE_FLUSH => 3 | STATE_IDLE_CHECK => 4
  | STATE_MAX_CONNECTION_AGE => 5 | STATE_VALIDATION => 6 | STATE_REMOVE => 7
  end.

(** The [SERVER_*] constants of a server's [state]. *)
Inductive server_state :=
| SERVER_NOTINIT | SERVER_NOTINIT_PRIMARY | SERVER_PRIMARY | SERVER_REPLICA
| SERVER_FAILOVER | SERVER_FAILED.

#[export] Instance server_state_eq_dec : EqDecision server_state.
Proof. solve_decision. Defined.
#[export] Instance server_state_inhabited : Inhabited server_state := populate SERVER_NOTINIT.

(** [FLUSH_*], [VALIDATION_*] and the reset query's failure behaviours. *)
Inductive flush_mode := FLUSH_IDLE | FLUSH_GRACEFULLY | FLUSH_ALL.

#[export] Instance flush_mode_eq_dec : EqDecision flush_mode.
Proof. solve_decision. Defined.

Inductive validation_mode := VALIDATION_OFF | VALIDATION_FOREGROUND | VALIDATION_BACKGROUND.

#[export] Instance validation_mode_eq_dec : EqDecision validation_mode.
Proof. solve_decision. Defined.

Inductive reset_behavior := RESET_DISCARD | RESET_IGNORE | RESET_TRY.

Inductive startup_validation_mode :=
| STARTUP_VALIDATION_OFF | STARTUP_VALIDATION_TRY | STARTUP_VALIDATION_ON.

#[export] Instance startup_validation_mode_eq_dec : EqDecision startup_validation_mode.
Proof. solve_decision. Defined.

(** ** Structures *)

(** [struct connection]; the length of a parked TLS context is the length of
    [c_tls_context]. *)
Record connection := Connection {
  c_username : string;
  c_database : string;
  c_appname : string;
  c_new : bool;
  c_server : Z;
  c_tx_mode : bool;
  c_has_security : Z;
  c_security_lengths : list Z;
  c_security_messages : list (list Z);
  c_backend_pid : Z;
  c_backend_secret : Z;
  c_limit_rule : Z;
  c_start_time : Z;
  c_timestamp : Z;
  c_pid : Z;
  c_fd : Z;
  c_generation : Z;
  c_tls_context : list Z;
  c_reset_query_failed : bool
}.

#[export] Instance connection_inhabited : Inhabited connection :=
  populate (Connection "" "" "" false 0 false 0 [] [] 0 0 0 0 0 0 0 0 [] false).

(** [struct limit], the part the configuration file fixes. *)
Record limit := Limit {
  l_database : string;
  l_username : string;
  l_aliases : list string;
  l_max_size : Z;
  l_initial_size : Z;
  l_min_size : Z;
  l_lineno : Z
}.

#[export] Instance limit_inhabited : Inhabited limit := populate (Limit "" "" [] 0 0 0 0).

(** [struct server], the part the configuration file fixes. *)
Record server := Server {
  s_name : string;
  s_host : string;
  s_port : Z
}.

#[export] Instance server_inhabited : Inhabited server := populate (Server "" "" 0).

(** [struct user]. *)
Record user := User { u_username : string; u_password : string }.

#[export] Instance user_inhabited : Inhabited user := populate (User "" "").

(** The health of a server that was not checked yet. *)
Definition SERVER_HEALTH_UNKNOWN : Z := 0.
Definition HEALTH_CHECK_AUTH_UNKNOWN : Z := 0.

(** The fixed part of [struct main_configuration]; a [pgagroal_time_t] is its
    number of seconds.  [number_of_limits], [number_of_users] and
    [number_of_servers] are the lengths of the lists. *)
Record config := Config {
  max_connections : Z;
  limits : list limit;
  users : list user;
  servers : list server;
  allow_unknown_users : bool;
  authquery : bool;
  failover : bool;
  failover_notify_script : string;
  blocking_timeout : Z;
  connection_retry_delay : Z;
  idle_timeout : Z;
  max_connection_age : Z;
  max_retries : Z;
  validation : validation_mode;
  startup_validation : startup_validation_mode;
  health_check_user : string;
  server_reset_query : string;
  server_reset_query_behavior : reset_behavior;
  metrics : Z
}.

Definition number_of_limits (cfg : config) : Z := Z.of_nat (length (limits cfg)).
Definition number_of_users (cfg : config) : Z := Z.of_nat (length (users cfg)).
Definition number_of_servers (cfg : config) : Z := Z.of_nat (length (servers cfg)).

(** Entry [r] of [limits] for a rule number, which the code keeps signed. *)
Definition limit_at (cfg : config) (r : Z) : limit := limits cfg !!! Z.to_nat r.

(** The part of [struct main_configuration] that changes at run time. *)
Record shm := Shm {
  m_active_connections : Z;
  m_states : list slot_state;
  m_connections : list connection;
  m_limit_active : list Z;
  m_limit_backend : list Z;
  m_server_states : list server_state;
  m_server_valid : list bool;
  m_server_version : list Z;
  m_server_minor_version : list Z;
  m_server_identifier : list string;
  m_gracefully : bool;
  m_keep_running : bool
}.

Definition state_at (m : shm) (i : nat) : slot_state := m_states m !!! i.
Definition conn_at (m : shm) (i : nat) : connection := m_connections m !!! i.
Definition rule_active (m : shm) (r : Z) : Z := m_limit_active m !!! Z.to_nat r.
Definition rule_backend (m : shm) (r : Z) : Z := m_limit_backend m !!! Z.to_nat r.
Definition server_state_at (m : shm) (s : Z) : server_state := m_server_states m !!! Z.to_nat s.
Definition server_valid_at (m : shm) (s : Z) : bool := m_server_valid m !!! Z.to_nat s.

(** ** Field stores *)

Definition set_c_username (v : string) (c : connection) : connection :=
    Connection v (c_database c) (c_appname c) (c_new c) (c_server c) (c_tx_mode c)
    (c_has_security c) (c_security_lengths c) (c_security_messages c) (c_backend_pid c)
    (c_backend_secret c) (c_limit_rule c) (c_start_time c) (c_timestamp c) (c_pid c) (c_fd c)
    (c_generation c) (c_tls_context c) (c_reset_query_failed c).

Definition set_c_database (v : string) (c : connection) : connection :=
    Connection (c_username c) v (c_appname c) (c_new c) (c_server c) (c_tx_mode c)
    (c_has_security c) (c_security_lengths c) (c_security_messages c) (c_backend_pid c)
    (c_backend_secret c) (c_limit_rule c) (c_start_time c) (c_timestamp c) (c_pid c) (c_fd c)
    (c_generation c) (c_tls_context c) (c_reset_query_failed c).

Definition set_c_appname (v : string) (c : connection) : connection :=
    Connection (c_username c) (c_database c) v (c_new c) (c_server c) (c_tx_mode c)
    (c_has_security c) (c_security_lengths c) (c_security_messages c) (c_backend_pid c)
    (c_backend_secret c) (c_limit_rule c) (c_start_time c) (c_timestamp c) (c_pid c) (c_fd c)
    (c_generation c) (c_tls_context c) (c_reset_query_failed c).

Definition set_c_new (v : bool) (c : connection) : connection :=
    Connection (c_username c) (c_database c) (c_appname c) v (c_server c) (c_tx_mode c)
    (c_has_security c) (c_security_lengths c) (c_security_messages c) (c_backend_pid c)
    (c_backend_secret c) (c_limit_rule c) (c_start_time c) (c_timestamp c) (c_pid c) (c_fd c)
    (c_generation c) (c_tls_context c) (c_reset_query_failed c).

Definition set_c_server (v : Z) (c : connection) : connection :=
    Connection (c_username c) (c_database c) (c_appname c) (c_new c) v (c_tx_mode c)
    (c_has_security c) (c_security_lengths c) (c_security_messages c) (c_backend_pid c)
    (c_backend_secret c) (c_limit_rule c) (c_start_time c) (c_timestamp c) (c_pid c) (c_fd c)
    (c_generation c) (c_tls_context c) (c_reset_query_failed c).

Definition set_c_tx_mode (v : bool) (c : connection) : connection :=
    Connection (c_username c) (c_database c) (c_appname c) (c_new c) (c_server c) v
    (c_has_security c) (c_security_lengths c) (c_security_messages c) (c_backend_pid c)
    (c_backend_secret c) (c_limit_rule c) (c_start_time c) (c_timestamp c) (c_pid c) (c_fd c)
    (c_generation c) (c_tls_context c) (c_reset_query_failed c).

Definition set_c_has_security (v : Z) (c : connection) : connection :=
    Connection (c_username c) (c_database c) (c_appname c) (c_new c) (c_server c) (c_tx_mode c)
    v (c_security_lengths c) (c_security_messages c) (c_backend_pid c) (c_backend_secret c)
    (c_limit_rule c) (c_start_time c) (c_timestamp c) (c_pid c) (c_fd c) (c_generation c)
    (c_tls_context c) (c_reset_query_failed c).

Definition set_c_security_lengths (v : list Z) (c : connection) : connection :=
    Connection (c_username c) (c_database c) (c_appname c) (c_new c) (c_server c) (c_tx_mode c)
    (c_has_security c) v (c_security_messages c) (c_backend_pid c) (c_backend_secret c)
    (c_limit_rule c) (c_start_time c) (c_timestamp c) (c_pid c) (c_fd c) (c_generation c)
    (c_tls_context c) (c_reset_query_failed c).

Definition set_c_security_messages (v : list (list Z)) (c : connection) : connection :=
    Connection (c_username c) (c_database c) (c_appname c) (c_new c) (c_server c) (c_tx_mode c)
    (c_has_security c) (c_security_lengths c) v (c_backend_pid c) (c_backend_secret c)
    (c_limit_rule c) (c_start_time c) (c_timestamp c) (c_pid c) (c_fd c) (c_generation c)
    (c_tls_context c) (c_reset_query_failed c).

Definition set_c_backend_pid (v : Z) (c : connection) : connection :=
    Connection (c_username c) (c_database c) (c_appname c) (c_new c) (c_server c) (c_tx_mode c)
    (c_has_security c) (c_security_lengths c) (c_security_messages c) v (c_backend_secret c)
    (c_limit_rule c) (c_start_time c) (c_timestamp c) (c_pid c) (c_fd c) (c_generation c)
    (c_tls_context c) (c_reset_query_failed c).

Definition set_c_backend_secret (v : Z) (c : connection) : connection :=
    Connection (c_username c) (c_database c) (c_appname c) (c_new c) (c_server c) (c_tx_mode c)
    (c_has_security c) (c_security_lengths c) (c_security_messages c) (c_backend_pid c) v
    (c_limit_rule c) (c_start_time c) (c_timestamp c) (c_pid c) (c_fd c) (c_generation c)
    (c_tls_context c) (c_reset_query_failed c).

Definition set_c_limit_rule (v : Z) (c : connection) : connection :=
    Connection (c_username c) (c_database c) (c_appname c) (c_new c) (c_server c) (c_tx_mode c)
    (c_has_security c) (c_security_lengths c) (c_security_messages c) (c_backend_pid c)
    (c_backend_secret c) v (c_start_time c) (c_timestamp c) (c_pid c) (c_fd c) (c_generation c)
    (c_tls_context c) (c_reset_query_failed c).

Definition set_c_start_time (v : Z) (c : connection) : connection :=
    Connection (c_username c) (c_database c) (c_appname c) (c_new c) (c_server c) (c_tx_mode c)
    (c_has_security c) (c_security_lengths c) (c_security_messages c) (c_backend_pid c)
    (c_backend_secret c) (c_limit_rule c) v (c_timestamp c) (c_pid c) (c_fd c) (c_generation c)
    (c_tls_context c) (c_reset_query_failed c).

Definition set_c_timestamp (v : Z) (c : connection) : connection :=
    Connection (c_username c) (c_database c) (c_appname c) (c_new c) (c_server c) (c_tx_mode c)
    (c_has_security c) (c_security_lengths c) (c_security_messages c) (c_backend_pid c)
    (c_backend_secret c) (c_limit_rule c) (c_start_time c) v (c_pid c) (c_fd c) (c_generation c)
    (c_tls_context c) (c_reset_query_failed c).

Definition set_c_pid (v : Z) (c : connection) : connection :=
    Connection (c_username c) (c_database c) (c_appname c) (c_new c) (c_server c) (c_tx_mode c)
    (c_has_security c) (c_security_lengths c) (c_security_messages c) (c_backend_pid c)
    (c_backend_secret c) (c_limit_rule c) (c_start_time c) (c_timestamp c) v (c_fd c)
    (c_generation c) (c_tls_context c) (c_reset_query_failed c).

Definition set_c_fd (v : Z) (c : connection) : connection :=
    Connection (c_username c) (c_database c) (c_appname c) (c_new c) (c_server c) (c_tx_mode c)
    (c_has_security c) (c_security_lengths c) (c_security_messages c) (c_backend_pid c)
    (c_backend_secret c) (c_limit_rule c) (c_start_time c) (c_timestamp c) (c_pid c) v
    (c_generation c) (c_tls_context c) (c_reset_query_failed c).

Definition set_c_generation (v : Z) (c : connection) : connection :=
    Connection (c_username c) (c_database c) (c_appname c) (c_new c) (c_server c) (c_tx_mode c)
    (c_has_security c) (c_security_lengths c) (c_security_messages c) (c_backend_pid c)
    (c_backend_secret c) (c_limit_rule c) (c_start_time c) (c_timestamp c) (c_pid c) (c_fd c) v
    (c_tls_context c) (c_reset_query_failed c).

Definition set_c_tls_context (v : list Z) (c : connection) : connection :=
    Connection (c_username c) (c_database c) (c_appname c) (c_new c) (c_server c) (c_tx_mode c)
    (c_has_security c) (c_security_lengths c) (c_security_messages c) (c_backend_pid c)
    (c_backend_secret c) (c_limit_rule c) (c_start_time c) (c_timestamp c) (c_pid c) (c_fd c)
    (c_generation c) v (c_reset_query_failed c).

Definition set_c_reset_query_failed (v : bool) (c : connection) : connection :=
    Connection (c_username c) (c_database c) (c_appname c) (c_new c) (c_server c) (c_tx_mode c)
    (c_has_security c) (c_security_lengths c) (c_security_messages c) (c_backend_pid c)
    (c_backend_secret c) (c_limit_rule c) (c_start_time c) (c_timestamp c) (c_pid c) (c_fd c)
    (c_generation c) (c_tls_context c) v.

Definition set_m_active_connections (v : Z) (c : shm) : shm :=
    Shm v (m_states c) (m_connections c) (m_limit_active c) (m_limit_backend c) (m_server_states
    c) (m_server_valid c) (m_server_version c) (m_server_minor_version c) (m_server_identifier
    c) (m_gracefully c) (m_keep_running c).

Definition set_m_states (v : list slot_state) (c : shm) : shm :=
    Shm (m_active_connections c) v (m_connections c) (m_limit_active c) (m_limit_backend c)
    (m_server_states c) (m_server_valid c) (m_server_version c) (m_server_minor_version c)
    (m_server_identifier c) (m_gracefully c) (m_keep_running c).

Definition set_m_connections (v : list connection) (c : shm) : shm :=
    Shm (m_active_connections c) (m_states c) v (m_limit_active c) (m_limit_backend c)
    (m_server_states c) (m_server_valid c) (m_server_version c) (m_server_minor_version c)
    (m_server_identifier c) (m_gracefully c) (m_keep_running c).

Definition set_m_limit_active (v : list Z) (c : shm) : shm :=
    Shm (m_active_connections c) (m_states c) (m_connections c) v (m_limit_backend c)
    (m_server_states c) (m_server_valid c) (m_server_version c) (m_server_minor_version c)
    (m_server_identifier c) (m_gracefully c) (m_keep_running c).

Definition set_m_limit_backend (v : list Z) (c : shm) : shm :=
    Shm (m_active_connections c) (m_states c) (m_connections c) (m_limit_active c) v
    (m_server_states c) (m_server_valid c) (m_server_version c) (m_server_minor_version c)
    (m_server_identifier c) (m_gracefully c) (m_keep_running c).

Definition set_m_server_states (v : list server_state) (c : shm) : shm :=
    Shm (m_active_connections c) (m_states c) (m_connections c) (m_limit_active c)
    (m_limit_backend c) v (m_server_valid c) (m_server_version c) (m_server_minor_version c)
    (m_server_identifier c) (m_gracefully c) (m_keep_running c).

Definition set_m_server_valid (v : list bool) (c : shm) : shm :=
    Shm (m_active_connections c) (m_states c) (m_connections c) (m_limit_active c)
    (m_limit_backend c) (m_server_states c) v (m_server_version c) (m_server_minor_version c)
    (m_server_identifier c) (m_gracefully c) (m_keep_running c).

Definition set_m_server_version (v : list Z) (c : shm) : shm :=
    Shm (m_active_connections c) (m_states c) (m_connections c) (m_limit_active c)
    (m_limit_backend c) (m_server_states c) (m_server_valid c) v (m_server_minor_version c)
    (m_server_identifier c) (m_gracefully c) (m_keep_running c).

Definition set_m_server_minor_version (v : list Z) (c : shm) : shm :=
    Shm (m_active_connections c) (m_states c) (m_connections c) (m_limit_active c)
    (m_limit_backend c) (m_server_states c) (m_server_valid c) (m_server_version c) v
    (m_server_identifier c) (m_gracefully c) (m_keep_running c).

Definition set_m_server_identifier (v : list string) (c : shm) : shm :=
    Shm (m_active_connections c) (m_states c) (m_connections c) (m_limit_active c)
    (m_limit_backend c) (m_server_states c) (m_server_valid c) (m_server_version c)
    (m_server_minor_version c) v (m_gracefully c) (m_keep_running c).

Definition set_m_gracefully (v : bool) (c : shm) : shm :=
    Shm (m_active_connections c) (m_states c) (m_connections c) (m_limit_active c)
    (m_limit_backend c) (m_server_states c) (m_server_valid c) (m_server_version c)
    (m_server_minor_version c) (m_server_identifier c) v (m_keep_running c).

Definition set_m_keep_running (v : bool) (c : shm) : shm :=
    Shm (m_active_connections c) (m_states c) (m_connections c) (m_limit_active c)
    (m_limit_backend c) (m_server_states c) (m_server_valid c) (m_server_version c)
    (m_server_minor_version c) (m_server_identifier c) (m_gracefully c) v.

(** The shared segment has a slot for every connection, and the counters of
    every rule, within their width. *)
Record shm_wf (cfg : config) (m : shm) : Prop := {
  wf_states : Z.of_nat (length (m_states m)) >= max_connections cfg;
  wf_connections : Z.of_nat (length (m_connections m)) >= max_connections cfg;
  wf_limit_active : length (m_limit_active m) = length (limits cfg);
  wf_limit_backend : length (m_limit_backend m) = length (limits cfg);
  wf_server_states : length (m_server_states m) = length (servers cfg);
  wf_server_valid : length (m_server_valid m) = length (servers cfg)
}.

(** ** Valid limits

    What the validation of the limit file promises to the pool. *)

Definition total_max_size (ls : list limit) : Z := foldr (fun l a => l_max_size l + a) 0 ls.

Class ValidLimits (cfg : config) : Prop := {
  vl_max l : l ∈ limits cfg -> 0 < l_max_size l;
  vl_initial l : l ∈ limits cfg -> 0 <= l_initial_size l <= l_max_size l;
  vl_min l : l ∈ limits cfg -> 0 <= l_min_size l <= l_max_size l;
  vl_total : total_max_size (limits cfg) <= max_connections cfg;
  vl_alias_owner i j l1 l2 a : limits cfg !! i = Some l1 -> limits cfg !! j = Some l2 ->
    a ∈ l_aliases l1 -> a ∈ l_aliases l2 -> i = j;
  vl_alias_not_database l1 l2 : l1 ∈ limits cfg -> l2 ∈ limits cfg -> l_database l2 ∉ l_aliases l1
}.

Lemma total_max_size_nonneg (ls : list limit) :
  (forall l, l ∈ ls -> 0 < l_max_size l) -> 0 <= total_max_size ls.
Proof.
  induction ls as [|x ls IH]; intros Hp; simpl; [done|].
  specialize (Hp x ltac:(by left)) as Hx. specialize (IH ltac:(intros; apply Hp; by right)). lia.
Qed.

Lemma total_max_size_elem (ls : list limit) (l : limit) :
  (forall l, l ∈ ls -> 0 < l_max_size l) -> l ∈ ls -> l_max_size l <= total_max_size ls.
Proof.
  induction ls as [|x ls IH]; intros Hp Hl; [by apply elem_of_nil in Hl|].
  pose proof (Hp x ltac:(by left)). simpl.
  assert (forall l, l ∈ ls -> 0 < l_max_size l) as Hp' by (intros; apply Hp; by right).
  pose proof (total_max_size_nonneg ls Hp'). apply elem_of_cons in Hl as [->|Hl]; [lia|].
  specialize (IH Hp' Hl). lia.
Qed.
