(* ===== verification/Hba.v ===== *)
(** * Host based authentication ([libpgagroal/security.c])

    Which client may connect to which database, and how it has to prove who it is: the
    entries of [pgagroal_hba.conf], the match of an address with a network, the passwords
    of the known users.  Strings are C strings.

    [inet_pton] leaves the address alone when it cannot read the text; the code then
    compares indeterminate bytes, which is the result [None] here. *)

From Stdlib Require Import Ascii.
From S2P Require Import Prelude Text Config.

Local Open Scope Z_scope.

Definition SECURITY_CERT : Z := 20.
Definition SECURITY_ALL : Z := 99.
Definition INET6_ADDRSTRLEN : nat := 46.

(** [struct hba]. *)
Record hba := Hba {
  h_type : string; h_database : string; h_username : string; h_address : string; h_method : string }.

(** The part of [struct main_configuration] that decides about a client. *)
Record security := Security {
  s_config : config;
  s_tls : bool;
  hbas : list hba;
  frontend_users : list user;
  admins : list user;
  superuser : user;
  all_disabled : bool;
  disabled : list string }.

(** ** Characters and numbers of the C library *)

Definition tolower (c : ascii) : Z := if (65 <=? code c) && (code c <=? 90) then code c + 32 else code c.

(** [strcasecmp(a, b) == 0]. *)
Fixpoint strcasecmp (a b : string) : bool :=
  match a, b with
  | EmptyString, EmptyString => true
  | String x a, String y b => (tolower x =? tolower y) && strcasecmp a b
  | _, _ => false
  end.

(** [strchr]: the text before the character and the text after it. *)
Fixpoint split_at (c : ascii) (s : string) : option (string * string) :=
  match s with
  | EmptyString => None
  | String x s => if bool_decide (x = c) then Some (EmptyString, s)
                  else '(a, b) ← split_at c s; Some (String x a, b)
  end.

Definition has_char (c : ascii) (s : string) : bool := match split_at c s with Some _ => true | None => false end.

(** [strtol(s, &end, 10)], when it reads the whole string; a number of at most three
    characters does not overflow. *)
Definition strtol_whole (s : string) : option Z :=
  let s := skip_space s in
  let '(sign, s) :=
    match s with
    | String "-" r => (-1, r)
    | String "+" r => (1, r)
    | _ => (1, s)
    end in
  match s with
  | String c _ => if is_digit c then let '(n, rest) := scan_digits 0 s in if streq rest "" then Some (sign * n) else None
                  else None
  | EmptyString => None
  end.

(** The pieces between separators. *)
Fixpoint pieces (c : ascii) (s : string) : list string :=
  match s with
  | EmptyString => [""%string]
  | String x s =>
      if bool_decide (x = c) then ""%string :: pieces c s
      else match pieces c s with p :: ps => String x p :: ps | [] => [String x ""] end
  end.

(** A number of a dotted address: digits without a leading zero, at most 255. *)
Definition octet (s : string) : option Z :=
  match s with
  | EmptyString => None
  | String c r =>
      let '(n, rest) := scan_digits 0 s in
      if is_digit c && streq rest "" && (streq r "" || negb (code c =? 48)) && (n <=? 255) then Some n else None
  end.

(** [inet_pton(AF_INET, s, .)]. *)
Definition inet_pton4 (s : string) : option (list Z) :=
  match pieces "." s with
  | [a; b; c; d] => a ← octet a; b ← octet b; c ← octet c; d ← octet d; Some [a; b; c; d]
  | _ => None
  end.

Definition hex_digit (c : ascii) : option Z :=
  if is_digit c then Some (code c - 48)
  else if (97 <=? tolower c) && (tolower c <=? 102) then Some (tolower c - 87) else None.

Fixpoint hex_value (acc : Z) (s : string) : option Z :=
  match s with
  | EmptyString => Some acc
  | String c s => d ← hex_digit c; hex_value (16 * acc + d) s
  end.

(** A group of at most four hexadecimal digits. *)
Definition hex_group (s : string) : option (list Z) :=
  if (String.length s =? 0)%nat || (4 <? String.length s)%nat then None
  else v ← hex_value 0 s; Some [v / 256; v `mod` 256].

(** The groups of an address; the last one may be a dotted address when [dotted]. *)
Fixpoint hex_groups (dotted : bool) (gs : list string) : option (list Z) :=
  match gs with
  | [] => Some []
  | [g] => if dotted && has_char "." g then inet_pton4 g else hex_group g
  | g :: gs => bs ← hex_group g; rest ← hex_groups dotted gs; Some (bs ++ rest)
  end.

(** The text before and after the first [::]. *)
Fixpoint split_colons (s : string) : option (string * string) :=
  match s with
  | String ":" (String ":" r) => Some (EmptyString, r)
  | String c r => '(a, b) ← split_colons r; Some (String c a, b)
  | EmptyString => None
  end.

Definition groups_of (dotted : bool) (s : string) : option (list Z) :=
  if streq s "" then Some [] else hex_groups dotted (pieces ":" s).

(** [inet_pton(AF_INET6, s, .)]: a [::] stands for at least one group of zeros. *)
Definition inet_pton6 (s : string) : option (list Z) :=
  match split_colons s with
  | None => bs ← hex_groups true (pieces ":" s); if (length bs =? 16)%nat then Some bs else None
  | Some (front, back) =>
      fs ← groups_of false front;
      bs ← groups_of true back;
      if (length fs + length bs <? 16)%nat
      then Some (fs ++ replicate (16 - (length fs + length bs)) 0 ++ bs) else None
  end.

(** ** The match of an address *)

(** The comparison of two IPv4 addresses under a mask. *)
Definition match_v4 (mask : Z) (a e : list Z) : bool :=
  let eq (i : nat) := bool_decide (a !!! i = e !!! i) in
  if mask <=? 8 then eq 0%nat
  else if mask <=? 16 then eq 0%nat && eq 1%nat
  else if mask <=? 24 then eq 0%nat && eq 1%nat && eq 2%nat
  else eq 0%nat && eq 1%nat && eq 2%nat && eq 3%nat.

(** The bytes of [netmask], from the counter [i] of the loop on. *)
Fixpoint netmask (n : nat) (i : Z) : list Z :=
  match n with
  | O => []
  | S n => (if 0 <? i then if 8 <=? i then 255 else Z.land (Z.shiftl 255 (8 - i)) 255 else 0) :: netmask n (i - 8)
  end.

Fixpoint match_v6 (a e m : list Z) : bool :=
  match a, e, m with
  | x :: a, y :: e, k :: m => if negb (Z.land x k =? Z.land y k) then false else match_v6 a e m
  | _, _, _ => true
  end.

(** [pgagroal_is_allowed_address]. *)
Definition is_allowed_address (address entry : string) : option bool :=
  if strcasecmp entry "all" then Some true
  else
    match split_at "/" entry with
    | None => Some false
    | Some (addr, s_mask) =>
        if (INET6_ADDRSTRLEN <=? String.length addr)%nat then Some false
        else if (4 <=? String.length s_mask)%nat || (String.length s_mask =? 0)%nat then Some false
        else
          match strtol_whole s_mask with
          | None => Some false
          | Some mask =>
              if negb (has_char ":" addr) then
                if has_char ":" address then Some false
                else if streq entry "0.0.0.0/0" then Some true
                else if (mask <? 0) || (32 <? mask) then Some false
                else a ← inet_pton4 address; e ← inet_pton4 addr; Some (match_v4 mask a e)
              else
                if negb (has_char ":" address) then Some false
                else if streq entry "::0/0" then Some true
                else if (mask <? 0) || (128 <? mask) then Some false
                else a ← inet_pton6 address; e ← inet_pton6 addr; Some (match_v6 a e (netmask 16 mask))
          end
    end.

(** ** The entries *)

Section rules.
Context (cfg : security).

Definition is_allowed_username (username entry : string) : bool :=
  strcasecmp entry "all" || streq username entry.

Definition is_allowed_database (database entry : string) : bool :=
  (strcasecmp entry "all" || streq database entry)
  || existsb (fun l => streq entry (l_database l) && existsb (streq database) (l_aliases l)) (limits (s_config cfg)).

Definition get_hba_method (h : hba) : Z :=
  if strcasecmp (h_method h) "reject" then SECURITY_REJECT
  else if strcasecmp (h_method h) "trust" then SECURITY_TRUST
  else if strcasecmp (h_method h) "password" then SECURITY_PASSWORD
  else if strcasecmp (h_method h) "scram-sha-256" then SECURITY_SCRAM256
  else if strcasecmp (h_method h) "cert" then SECURITY_CERT
  else if strcasecmp (h_method h) "all" then SECURITY_ALL
  else SECURITY_REJECT.

(** The loop of [is_allowed]: the method of the first entry that matches. *)
Fixpoint is_allowed_loop (hs : list hba) (username database address : string) : option (option Z) :=
  match hs with
  | [] => Some None
  | h :: hs =>
      a ← is_allowed_address address (h_address h);
      if a && is_allowed_database database (h_database h) && is_allowed_username username (h_username h)
      then Some (Some (get_hba_method h))
      else is_allowed_loop hs username database address
  end.

(** [is_allowed]: [Some None] is a refusal. *)
Definition is_allowed (username database address : string) : option (option Z) :=
  is_allowed_loop (hbas cfg) username database address.

Definition is_tls_user (username database : string) : bool :=
  existsb (fun h => (streq database (h_database h) || streq "all" (h_database h)) &&
                    (streq username (h_username h) || streq "all" (h_username h)) &&
                    streq "hostssl" (h_type h)) (hbas cfg).

Definition is_disabled (database : string) : bool :=
  all_disabled cfg || existsb (fun d => streq d database) (disabled cfg).

(** ** Passwords *)

Definition password_in (us : list user) (username : string) : option string :=
  u_password <$> head (filter (fun u => u_username u = username) us).

Definition get_user_password (username : string) : option string :=
  if negb (streq (u_username (superuser cfg)) "") && streq (u_username (superuser cfg)) username
  then Some (u_password (superuser cfg))
  else password_in (users (s_config cfg)) username.

Definition get_frontend_password (username : string) : option string := password_in (frontend_users cfg) username.
Definition get_admin_password (username : string) : option string := password_in (admins cfg) username.
End rules.

(** ** An address and a network *)

(** The bits of a byte, the highest first. *)
Definition byte_bits (b : Z) : list bool := map (Z.testbit b) [7; 6; 5; 4; 3; 2; 1; 0].
Definition bits (bs : list Z) : list bool := concat (map byte_bits bs).

Definition is_byte (b : Z) : Prop := 0 <= b < 256.

(** The entry is [addr/mask]. *)
Definition network (entry addr : string) (mask : Z) : Prop :=
  exists s, split_at "/" entry = Some (addr, s) /\ (String.length addr < INET6_ADDRSTRLEN)%nat
    /\ (0 < String.length s < 4)%nat /\ strtol_whole s = Some mask.

(** The number of bits that the code compares for an IPv4 network: whole bytes, at least
    one of them. *)
Definition bits_v4 (mask : Z) : Z := 8 * Z.max 1 ((mask + 7) / 8).

Lemma all_no_slash (entry : string) : strcasecmp entry "all" = true -> split_at "/" entry = None.
Proof.
  intros H. destruct entry as [|x [|y [|z [|w r]]]]; simpl in H; rewrite ?andb_false_r in H; try done.
  assert (forall c n, (tolower c =? n) = true -> n <> 47 -> c <> "/"%char) as Hc.
  { intros c n Hn Hne ->. apply Z.eqb_eq in Hn. vm_compute in Hn. by subst. }
  rewrite andb_true_iff in H. destruct H as [H1 H]. rewrite andb_true_iff in H. destruct H as [H2 H].
  rewrite andb_true_r in H.
  simpl. rewrite !bool_decide_eq_false_2; first done; eapply Hc; try eassumption; by vm_compute.
Qed.

(** A mask of [i] high bits compares the first [i] bits of a byte. *)
Lemma masked_bits (i : Z) (x y : Z) :
  0 <= i <= 8 ->
  Z.land x (Z.land (Z.shiftl 255 (8 - i)) 255) = Z.land y (Z.land (Z.shiftl 255 (8 - i)) 255)
  <-> take (Z.to_nat i) (byte_bits x) = take (Z.to_nat i) (byte_bits y).
Proof.
  intros Hi.
  assert (forall j, Z.testbit (Z.land (Z.shiftl 255 (8 - i)) 255) j = true <-> 8 - i <= j < 8) as Hk.
  { intros j. destruct (decide (0 <= j)); [|rewrite Z.testbit_neg_r by lia; split; [done|lia]].
    rewrite Z.land_spec, Z.shiftl_spec by done. change 255 with (Z.ones 8).
    rewrite !Z.testbit_ones by lia. rewrite !andb_true_iff, !Z.leb_le, !Z.ltb_lt. lia. }
  assert (Z.land x (Z.land (Z.shiftl 255 (8 - i)) 255) = Z.land y (Z.land (Z.shiftl 255 (8 - i)) 255)
          <-> forall j, 8 - i <= j < 8 -> Z.testbit x j = Z.testbit y j) as ->.
  { split.
    - intros H j Hj. apply (f_equal (fun z => Z.testbit z j)) in H. rewrite !Z.land_spec in H.
      pose proof (proj2 (Hk j) Hj) as Hb. rewrite Z.land_spec in Hb. by rewrite Hb, !andb_true_r in H.
    - intros H. apply Z.bits_inj'. intros j _. rewrite (Z.land_spec x), (Z.land_spec y).
      destruct (Z.testbit (Z.land (Z.shiftl 255 (8 - i)) 255) j) eqn:E; [|by rewrite !andb_false_r].
      by rewrite H by by apply Hk. }
  assert (exists n, i = Z.of_nat n /\ (n <= 8)%nat) as (n & -> & Hn) by (exists (Z.to_nat i); lia).
  rewrite Nat2Z.id. clear Hk Hi. unfold byte_bits.
  do 9 ((destruct n as [|n]; [split;
    [intros H; cbn [map take]; rewrite ?H by lia; done
    |intros H j Hj; simpl in H; simplify_eq;
     assert (j = 0 \/ j = 1 \/ j = 2 \/ j = 3 \/ j = 4 \/ j = 5 \/ j = 6 \/ j = 7) as Hc by lia;
     repeat (destruct Hc as [->|Hc]; [first [assumption | lia]|]); subst j; first [assumption | lia]]|])).
  lia.
Qed.

Lemma take_bits (n : nat) (x y : Z) (a e : list Z) :
  take n (bits (x :: a)) = take n (bits (y :: e))
  <-> take n (byte_bits x) = take n (byte_bits y) /\ take (n - 8) (bits a) = take (n - 8) (bits e).
Proof.
  change (bits (x :: a)) with (byte_bits x ++ bits a). change (bits (y :: e)) with (byte_bits y ++ bits e).
  rewrite !take_app. change (length (byte_bits x)) with 8%nat. change (length (byte_bits y)) with 8%nat.
  split; [|by intros [-> ->]].
  intros H. apply app_inj_1 in H; [done|]. by rewrite !length_take.
Qed.

Lemma match_v6_bits (a e : list Z) (i : Z) :
  length a = length e ->
  match_v6 a e (netmask (length a) i) = bool_decide (take (Z.to_nat i) (bits a) = take (Z.to_nat i) (bits e)).
Proof.
  revert e i. induction a as [|x a IH]; intros [|y e] i Hl; simplify_eq/=.
  { by rewrite bool_decide_eq_true_2. }
  assert ((if 0 <? i then if 8 <=? i then 255 else Z.land (Z.shiftl 255 (8 - i)) 255 else 0)
          = Z.land (Z.shiftl 255 (8 - Z.min 8 (Z.max 0 i))) 255) as ->.
  { destruct (0 <? i) eqn:E1; [destruct (8 <=? i) eqn:E2|];
      repeat match goal with H : _ = true |- _ => apply Z.ltb_lt in H || apply Z.leb_le in H
                           | H : _ = false |- _ => apply Z.ltb_ge in H || apply Z.leb_gt in H end.
    - by replace (Z.min 8 (Z.max 0 i)) with 8 by lia.
    - by replace (Z.min 8 (Z.max 0 i)) with i by lia.
    - by replace (Z.min 8 (Z.max 0 i)) with 0 by lia. }
  set (k := Z.land (Z.shiftl 255 (8 - Z.min 8 (Z.max 0 i))) 255).
  pose proof (masked_bits (Z.min 8 (Z.max 0 i)) x y ltac:(lia)) as Hk. fold k in Hk.
  assert (forall b, take (Z.to_nat (Z.min 8 (Z.max 0 i))) (byte_bits b) = take (Z.to_nat i) (byte_bits b)) as Ht.
  { intros b. destruct (decide (i <= 8)); [f_equal; lia|].
    rewrite !take_ge; [done| |]; change (length (byte_bits b)) with 8%nat; lia. }
  rewrite !Ht in Hk. rewrite IH by done. replace (Z.to_nat (i - 8)) with (Z.to_nat i - 8)%nat by lia.
  destruct (Z.land x k =? Z.land y k) eqn:E; simpl.
  - apply Z.eqb_eq, Hk in E. apply bool_decide_ext. rewrite take_bits. naive_solver.
  - symmetry. apply bool_decide_eq_false. rewrite take_bits. intros [H _]. apply Hk in H.
    by rewrite H, Z.eqb_refl in E.
Qed.

Lemma byte_eq_bits (x y : Z) : is_byte x -> is_byte y -> x = y <-> byte_bits x = byte_bits y.
Proof.
  intros Hx Hy. split; [by intros ->|]. intros H.
  pose proof (proj2 (masked_bits 8 x y ltac:(lia))) as Hk.
  rewrite !take_ge in Hk by (change (length (byte_bits _)) with 8%nat; lia).
  change (Z.land (Z.shiftl 255 (8 - 8)) 255) with (Z.ones 8) in Hk.
  rewrite !Z.land_ones, !Z.mod_small in Hk by (unfold is_byte in *; lia).
  by apply Hk.
Qed.

Lemma match_v4_bits (a e : list Z) (mask : Z) :
  0 <= mask <= 32 -> length a = 4%nat -> length e = 4%nat -> Forall is_byte a -> Forall is_byte e ->
  match_v4 mask a e = bool_decide (take (Z.to_nat (bits_v4 mask)) (bits a) = take (Z.to_nat (bits_v4 mask)) (bits e)).
Proof.
  intros Hm Ha He Fa Fe.
  destruct a as [|a1 [|a2 [|a3 [|a4 [|]]]]]; try done. destruct e as [|e1 [|e2 [|e3 [|e4 [|]]]]]; try done.
  rewrite !Forall_cons in Fa, Fe. destruct_and!.
  assert (exists n, bits_v4 mask = 8 * Z.of_nat n /\ (n = 1%nat /\ mask <= 8 \/ n = 2%nat /\ 8 < mask <= 16
            \/ n = 3%nat /\ 16 < mask <= 24 \/ n = 4%nat /\ 24 < mask)) as (n & -> & Hn).
  { exists (Z.to_nat (bits_v4 mask / 8)). unfold bits_v4. rewrite Z.mul_comm, Z_div_mult by lia.
    assert ((mask + 7) / 8 * 8 <= mask + 7 < (mask + 7) / 8 * 8 + 8) by (pose proof (Z.div_mod (mask + 7) 8 ltac:(lia));
      pose proof (Z.mod_pos_bound (mask + 7) 8 ltac:(lia)); lia). lia. }
  assert (forall x y (l k : list Z) m, is_byte x -> is_byte y ->
    take (8 + m) (bits (x :: l)) = take (8 + m) (bits (y :: k)) <-> x = y /\ take m (bits l) = take m (bits k)) as Hs.
  { intros x y l k m Hx Hy. rewrite take_bits, byte_eq_bits by done.
    replace (8 + m - 8)%nat with m by lia. by rewrite !take_ge by (change (8 <= 8 + m)%nat; lia). }
  unfold match_v4. cbn [lookup_total list_lookup_total].
  destruct Hn as [[-> ?]|[[-> ?]|[[-> ?]|[-> ?]]]].
  - rewrite (proj2 (Z.leb_le _ _)) by lia. apply bool_decide_ext.
    change (Z.to_nat (8 * Z.of_nat 1)) with (8 + 0)%nat. rewrite Hs by done. naive_solver.
  - rewrite (proj2 (Z.leb_gt _ _)) by lia. rewrite (proj2 (Z.leb_le _ _)) by lia.
    rewrite <- bool_decide_and. apply bool_decide_ext.
    change (Z.to_nat (8 * Z.of_nat 2)) with (8 + (8 + 0))%nat. rewrite !Hs by done. naive_solver.
  - rewrite !(proj2 (Z.leb_gt _ _)) by lia. rewrite (proj2 (Z.leb_le _ _)) by lia.
    rewrite <- !bool_decide_and. apply bool_decide_ext.
    change (Z.to_nat (8 * Z.of_nat 3)) with (8 + (8 + (8 + 0)))%nat. rewrite !Hs by done. naive_solver.
  - rewrite !(proj2 (Z.leb_gt _ _)) by lia.
    rewrite <- !bool_decide_and. apply bool_decide_ext.
    change (Z.to_nat (8 * Z.of_nat 4)) with (8 + (8 + (8 + (8 + 0))))%nat. rewrite !Hs by done. naive_solver.
Qed.

Lemma scan_digits_nonneg (s : string) (acc : Z) : 0 <= acc -> 0 <= (scan_digits acc s).1.
Proof.
  revert acc; induction s as [|c s IH]; intros acc H; simpl; [done|].
  destruct (is_digit c) eqn:E; [|done]. apply IH.
  unfold is_digit in E. rewrite andb_true_iff, Z.leb_le in E. lia.
Qed.

Lemma octet_byte (s : string) (n : Z) : octet s = Some n -> is_byte n.
Proof.
  unfold octet, is_byte. destruct s as [|c r]; [done|].
  pose proof (scan_digits_nonneg (String c r) 0 ltac:(done)) as H0.
  destruct (scan_digits 0 (String c r)) as [v rest]. simpl in H0.
  destruct (is_digit c && streq rest "" && (streq r "" || negb (code c =? 48)) && (v <=? 255)) eqn:E; [|done].
  intros [= <-]. rewrite !andb_true_iff, Z.leb_le in E. lia.
Qed.

Lemma pton4_bytes (s : string) (a : list Z) : inet_pton4 s = Some a -> length a = 4%nat /\ Forall is_byte a.
Proof.
  unfold inet_pton4. intros H. repeat case_match; try done.
  repeat (apply bind_Some in H as (? & ?%octet_byte & H)). simplify_eq. split; [done|]. repeat (apply Forall_cons_2; [done|]). by apply Forall_nil_2.
Qed.

Lemma pton6_length (s : string) (a : list Z) : inet_pton6 s = Some a -> length a = 16%nat.
Proof.
  unfold inet_pton6. intros H. destruct (split_colons s) as [[f b]|].
  - apply bind_Some in H as (fs & _ & H). apply bind_Some in H as (bs & _ & H).
    destruct (Nat.ltb_spec (length fs + length bs) 16); simplify_eq.
    rewrite !length_app, length_replicate. lia.
  - apply bind_Some in H as (bs & _ & H). destruct (Nat.eqb_spec (length bs) 16); by simplify_eq.
Qed.

(** An address is matched with a network by its leading bits.  For IPv6 these are the
    bits of the mask; for IPv4 the mask is rounded up to whole bytes, with the exception
    of the entry for every address. *)
Theorem address_in_network (address entry addr : string) (mask : Z) :
  network entry addr mask ->
  (forall a e, has_char ":" addr = true -> has_char ":" address = true -> 0 <= mask <= 128 ->
     inet_pton6 address = Some a -> inet_pton6 addr = Some e ->
     is_allowed_address address entry
     = Some (streq entry "::0/0" || bool_decide (take (Z.to_nat mask) (bits a) = take (Z.to_nat mask) (bits e))))
  /\ (forall a e, has_char ":" addr = false -> has_char ":" address = false -> 0 <= mask <= 32 ->
     inet_pton4 address = Some a -> inet_pton4 addr = Some e ->
     is_allowed_address address entry
     = Some (streq entry "0.0.0.0/0" ||
             bool_decide (take (Z.to_nat (bits_v4 mask)) (bits a) = take (Z.to_nat (bits_v4 mask)) (bits e))))
  /\ (has_char ":" addr <> has_char ":" address -> is_allowed_address address entry = Some false).
Proof.
  intros (s & Hs & Hl & [Hs1 Hs2] & Hm).
  assert (strcasecmp entry "all" = false) as Hall.
  { destruct (strcasecmp entry "all") eqn:E; [|done]. apply all_no_slash in E. congruence. }
  unfold is_allowed_address. rewrite Hall, Hs, Hm. cbn [orb negb].
  rewrite (proj2 (Nat.leb_gt _ _)) by done. rewrite (proj2 (Nat.leb_gt 4 _)) by done.
  rewrite (proj2 (Nat.eqb_neq _ 0)) by lia. cbn [orb].
  split; [|split].
  - intros a e -> -> Hk Ha He. cbn [negb]. destruct (streq entry "::0/0"); [done|]. cbn [orb].
    rewrite (proj2 (Z.ltb_ge mask 0)), (proj2 (Z.ltb_ge 128 mask)) by lia. rewrite Ha, He. cbn [mbind option_bind orb].
    apply pton6_length in Ha, He. rewrite <- Ha. rewrite match_v6_bits by congruence. done.
  - intros a e -> -> Hk Ha He. cbn [negb]. destruct (streq entry "0.0.0.0/0"); [done|]. cbn [orb].
    rewrite (proj2 (Z.ltb_ge mask 0)), (proj2 (Z.ltb_ge 32 mask)) by lia. rewrite Ha, He. cbn [mbind option_bind orb].
    apply pton4_bytes in Ha as [? ?], He as [? ?]. by rewrite match_v4_bits.
  - intros H. destruct (has_char ":" addr), (has_char ":" address); done.
Qed.

Lemma address_in_network_witness :
  is_allowed_address "10.1.7.9" "10.1.2.3/12" = Some true
  /\ is_allowed_address "10.9.0.1" "10.1.2.3/12" = Some false
  /\ is_allowed_address "2001:db8:0:ff::1" "2001:db8::/40" = Some true.
Proof.
  assert (network "10.1.2.3/12" "10.1.2.3" 12) as H4 by (exists "12"%string; vm_compute; repeat split; try done; lia).
  assert (network "2001:db8::/40" "2001:db8::" 40) as H6 by (exists "40"%string; vm_compute; repeat split; try done; lia).
  split; [|split].
  - destruct (address_in_network "10.1.7.9" _ _ _ H4) as (_ & H & _).
    rewrite (H [10; 1; 7; 9] [10; 1; 2; 3]); [reflexivity|reflexivity|reflexivity|lia|reflexivity|reflexivity].
  - destruct (address_in_network "10.9.0.1" _ _ _ H4) as (_ & H & _).
    rewrite (H [10; 9; 0; 1] [10; 1; 2; 3]); [reflexivity|reflexivity|reflexivity|lia|reflexivity|reflexivity].
  - destruct (address_in_network "2001:db8:0:ff::1" _ _ _ H6) as (H & _ & _).
    rewrite (H (32 :: 1 :: 13 :: 184 :: 0 :: 0 :: 0 :: 255 :: replicate 7 0 ++ [1]) (32 :: 1 :: 13 :: 184 :: replicate 12 0));
      [reflexivity|reflexivity|reflexivity|lia|reflexivity|reflexivity].
Defined.

(** An entry of a [hostssl] line is matched by an alias of its database, but the test that
    demands TLS does not know aliases: the client is let in without it. *)
Lemma hostssl_alias_without_tls :
  let base := Config 10 [Limit "mydb" "all" ["my"%string] 10 0 0 1] [] [] false false false "" 0 0 0 0 0
                VALIDATION_OFF STARTUP_VALIDATION_OFF "" "" RESET_DISCARD 0 in
  let cfg := Security base true [Hba "hostssl" "mydb" "all" "all" "scram-sha-256"] [] [] (User "" "") false [] in
  is_tls_user cfg "alice" "mydb" = true /\ is_tls_user cfg "alice" "my" = false
  /\ is_allowed cfg "alice" "my" "10.0.0.1" = Some (Some SECURITY_SCRAM256).
Proof. by vm_compute. Qed.
