(* ===== verification/ConfText.v ===== *)
(** * Lines and values of the configuration files ([libpgagroal/configuration.c])

    The functions that take a line apart and that convert a value from and to text.  A
    text has no zero byte.  A conversion answers [None] where the code answers 1; when it
    also stores a default then, the stored value is part of the answer. *)

From Stdlib Require Import Ascii.
From stdpp Require Import pretty.
From S2P Require Import Prelude Text Config Hba.

Local Open Scope Z_scope.

(** ** Constants *)

Definition LINE_LENGTH : nat := 512.
Definition MAX_ALIASES : nat := 8.

Definition PIPELINE_AUTO : Z := -1.
Definition PIPELINE_PERFORMANCE : Z := 0.
Definition PIPELINE_SESSION : Z := 1.
Definition PIPELINE_TRANSACTION : Z := 2.

Definition HUGEPAGE_OFF : Z := 0.
Definition HUGEPAGE_TRY : Z := 1.
Definition HUGEPAGE_ON : Z := 2.

Definition CHANNEL_BINDING_DISABLED : Z := 0.
Definition CHANNEL_BINDING_PREFER : Z := 1.
Definition CHANNEL_BINDING_REQUIRE : Z := 2.

Definition LOGGING_TYPE_CONSOLE : Z := 0.
Definition LOGGING_TYPE_FILE : Z := 1.
Definition LOGGING_TYPE_SYSLOG : Z := 2.

Definition LOGGING_LEVEL_DEBUG5 : Z := 1.
Definition LOGGING_LEVEL_DEBUG1 : Z := 2.
Definition LOGGING_LEVEL_INFO : Z := 3.
Definition LOGGING_LEVEL_WARN : Z := 4.
Definition LOGGING_LEVEL_ERROR : Z := 5.
Definition LOGGING_LEVEL_FATAL : Z := 6.

Definition LOGGING_MODE_CREATE : Z := 0.
Definition LOGGING_MODE_APPEND : Z := 1.

Definition UPDATE_PROCESS_TITLE_NEVER : Z := 0.
Definition UPDATE_PROCESS_TITLE_STRICT : Z := 1.
Definition UPDATE_PROCESS_TITLE_MINIMAL : Z := 2.
Definition UPDATE_PROCESS_TITLE_VERBOSE : Z := 3.

Definition EVENT_BACKEND_INVALID : Z := -2.
Definition EVENT_BACKEND_EMPTY : Z := -1.
Definition EVENT_BACKEND_AUTO : Z := 0.
Definition EVENT_BACKEND_IO_URING : Z := 1.
Definition EVENT_BACKEND_EPOLL : Z := 2.
Definition EVENT_BACKEND_KQUEUE : Z := 3.

(** ** Characters *)

Definition is_blank (c : ascii) : bool := (code c =? 32) || (code c =? 9).
Definition is_eol (c : ascii) : bool := (code c =? 13) || (code c =? 10).
Definition is_quote (c : ascii) : bool := (code c =? 39) || (code c =? 34).
Definition is_alpha (c : ascii) : bool := let n := tolower c in (97 <=? n) && (n <=? 122).

(** The longest prefix of characters that satisfy [p], and the rest. *)
Fixpoint span (p : ascii -> bool) (s : string) : string * string :=
  match s with
  | String c r => if p c then let '(a, b) := span p r in (String c a, b) else ("", s)
  | EmptyString => ("", "")
  end.

Definition skip (p : ascii -> bool) (s : string) : string := (span p s).2.

(** [memset] and [memcpy] of at most [n - 1] characters. *)
Definition store (n : nat) (v : string) : string := String.substring 0 (n - 1) v.

(** ** Lines *)

(** [fgets] into a buffer of [n + 1] bytes, until the end of the file. *)
Fixpoint fgets_lines (size n : nat) (cur s : string) : list string :=
  match s with
  | EmptyString => match cur with EmptyString => [] | _ => [cur] end
  | String c s =>
      let cur := cur +:+ String c "" in
      if code c =? 10 then cur :: fgets_lines size size "" s
      else match n with
           | S (S n) => fgets_lines size (S n) cur s
           | _ => cur :: fgets_lines size size "" s
           end
  end.

(** The lines that the loops over [fgets(line, LINE_LENGTH, file)] see. *)
Definition read_lines (content : string) : list string := fgets_lines (LINE_LENGTH - 1) (LINE_LENGTH - 1) "" content.

Definition is_empty_string (s : string) : bool := streq (skip (fun c => is_blank c || is_eol c) s) "".

(** [is_comment_line]. *)
Fixpoint is_comment_line (line : string) : bool :=
  match line with
  | String c r => if (code c =? 35) || (code c =? 59) then true else if is_blank c then is_comment_line r else false
  | EmptyString => false
  end.

(** [section_line]: the name between the brackets, when the line is a section. *)
Definition section_line (line : string) : option string :=
  match line with
  | String "[" r => match split_at "]" r with Some (name, _) => Some (store MISC_LENGTH name) | None => None end
  | _ => None
  end.

(** [key_in_section]: whether key and section match, and what happens to [unknown]. *)
Definition global_section (section : string) : bool :=
  existsb (streq section) ["pgagroal"; "pgagroal-vault"; "health_check"; "prometheus"].

Definition key_in_section (wanted section key : string) (global : bool) : bool :=
  strncmp_eq wanted key MISC_LENGTH && (if global then global_section section else negb (streq section "")).

(** The value of a line, up to a comment, a space or the closing quote; an opening quote
    drops what was read before it. *)
Fixpoint scan_value (quote : option ascii) (acc s : string) : option string :=
  let stop := match quote with None => Some acc | Some _ => None end in
  match s with
  | EmptyString => stop
  | String c r =>
      if is_eol c then stop
      else if is_quote c then
        match quote with
        | None => scan_value (Some c) "" r
        | Some q => if bool_decide (c = q) then Some acc else scan_value quote (acc +:+ String c "") r
        end
      else if (code c =? 35) || (code c =? 59) || (code c =? 32) then
        match quote with None => Some acc | Some _ => scan_value quote (acc +:+ String c "") r end
      else scan_value quote (acc +:+ String c "") r
  end.

(** [extract_key_value]: the key and the value, [None] for a pointer that stays NULL. *)
Definition extract_key_value (line : string) : option string * option string :=
  let '(key, r) := span (fun c => negb ((code c =? 32) || (code c =? 61))) (skip (fun c => code c =? 32) line) in
  match r with
  | EmptyString => (None, None)
  | _ => (Some key, scan_value None "" (skip (fun c => is_blank c || (code c =? 61)) r))
  end.

(** The text without the white space at its end; the first character always stays. *)
Fixpoint trim_end (s : string) : string :=
  match s with
  | EmptyString => ""
  | String c r => match trim_end r with
                  | EmptyString => if is_blank c || is_eol c then "" else String c ""
                  | t => String c t
                  end
  end.

(** [extract_syskey_value]; the value is expanded as a path. *)
Definition extract_syskey_value (getenv : string -> option string) (line : string) : option string * option string :=
  let '(key, r) := span (fun c => negb ((code c =? 32) || (code c =? 61))) line in
  match r with
  | EmptyString => (None, None)
  | _ =>
      match skip (fun c => is_blank c || is_eol c || (code c =? 61)) r with
      | EmptyString => (None, None)
      | String c v =>
          match resolve_path getenv (String c (trim_end v)) with
          | None => (None, None)
          | Some value => (match key with EmptyString => None | _ => Some key end, value)
          end
      end
  end.

(** ** Values from text *)

Definition LONG_MAX : Z := 2 ^ 63 - 1.

(** [pgagroal_as_int]: a number that a [long] holds, cut to an [int]. *)
Definition as_int (s : string) : option Z :=
  n ← strtol_whole s;
  if (n <? - LONG_MAX - 1) || (LONG_MAX <? n) then None else Some (i32 n).

Definition as_bool (s : string) : option bool :=
  if strcasecmp s "true" || strcasecmp s "on" || strcasecmp s "yes" || strcasecmp s "1" then Some true
  else if strcasecmp s "false" || strcasecmp s "off" || strcasecmp s "no" || strcasecmp s "0" then Some false
  else None.

Definition as_logging_type (s : string) : option Z :=
  if strcasecmp s "console" then Some LOGGING_TYPE_CONSOLE
  else if strcasecmp s "file" then Some LOGGING_TYPE_FILE
  else if strcasecmp s "syslog" then Some LOGGING_TYPE_SYSLOG
  else None.

Definition as_logging_level (s : string) : Z :=
  if strcasecmp (String.substring 0 5 s) "debug" then
    let debug_level := if (5 <? String.length s)%nat then from_option id 1 (as_int (String.substring 5 (String.length s) s)) else 1 in
    let debug_level := if (debug_level <? 1) || (5 <? debug_level) then 1 else debug_level in
    if debug_level <=? 1 then LOGGING_LEVEL_DEBUG1 else LOGGING_LEVEL_DEBUG5
  else if strcasecmp s "info" then LOGGING_LEVEL_INFO
  else if strcasecmp s "warn" then LOGGING_LEVEL_WARN
  else if strcasecmp s "error" then LOGGING_LEVEL_ERROR
  else if strcasecmp s "fatal" then LOGGING_LEVEL_FATAL
  else if strcasecmp s "trace" then LOGGING_LEVEL_DEBUG5
  else LOGGING_LEVEL_INFO.

Definition as_logging_mode (s : string) : option Z :=
  if strcasecmp s "a" || strcasecmp s "append" then Some LOGGING_MODE_APPEND
  else if strcasecmp s "c" || strcasecmp s "create" then Some LOGGING_MODE_CREATE
  else None.

Definition as_validation (s : string) : option validation_mode :=
  if strcasecmp s "off" then Some VALIDATION_OFF
  else if strcasecmp s "foreground" then Some VALIDATION_FOREGROUND
  else if strcasecmp s "background" then Some VALIDATION_BACKGROUND
  else None.

Definition as_server_reset_query_behavior (s : string) : option reset_behavior :=
  if strcasecmp s "discard" then Some RESET_DISCARD
  else if strcasecmp s "ignore" then Some RESET_IGNORE
  else if strcasecmp s "try" then Some RESET_TRY
  else None.

Definition as_pipeline (s : string) : option Z :=
  if strcasecmp s "auto" then Some PIPELINE_AUTO
  else if strcasecmp s "performance" then Some PIPELINE_PERFORMANCE
  else if strcasecmp s "session" then Some PIPELINE_SESSION
  else if strcasecmp s "transaction" then Some PIPELINE_TRANSACTION
  else None.

Definition as_hugepage (s : string) : option Z :=
  if strcasecmp s "off" then Some HUGEPAGE_OFF
  else if strcasecmp s "try" then Some HUGEPAGE_TRY
  else if strcasecmp s "on" then Some HUGEPAGE_ON
  else None.

Definition as_channel_binding (s : string) : option Z :=
  if strcasecmp s "disabled" then Some CHANNEL_BINDING_DISABLED
  else if strcasecmp s "prefer" then Some CHANNEL_BINDING_PREFER
  else if strcasecmp s "require" then Some CHANNEL_BINDING_REQUIRE
  else None.

Definition as_startup_validation (s : string) : option startup_validation_mode :=
  if strcasecmp s "off" then Some STARTUP_VALIDATION_OFF
  else if strcasecmp s "try" then Some STARTUP_VALIDATION_TRY
  else if strcasecmp s "on" then Some STARTUP_VALIDATION_ON
  else None.

(** [pgagroal_as_seconds]: the stored time, and whether the text was understood. *)
Definition as_seconds (s : string) (default : Z) : Z * bool :=
  if is_empty_string s then (default, true)
  else match parse_seconds s with Some secs => (secs, true) | None => (default, false) end.

(** The loop of [pgagroal_as_bytes]: the digits in the buffer, and the multiplier unless a
    character is refused.  A letter that is no unit is skipped as long as there was no unit. *)
Fixpoint bytes_loop (s digits : string) (multiplier : option Z) : string * option Z :=
  match s with
  | EmptyString => (digits, Some (from_option id 1 multiplier))
  | String c r =>
      if is_digit c then bytes_loop r (digits +:+ String c "") multiplier
      else if is_alpha c then
        match multiplier with
        | Some m => if (m =? 1) || negb (tolower c =? 98) then (digits, None) else bytes_loop r digits multiplier
        | None =>
            let u := tolower c in
            bytes_loop r digits
              (if u =? 109 then Some (1024 * 1024) else if u =? 103 then Some (1024 * 1024 * 1024)
               else if u =? 107 then Some 1024 else if u =? 98 then Some 1 else None)
        end
      else (digits, None)
  end.

(** [pgagroal_as_bytes]: the stored size, and whether the text was understood.  [None] is
    undefined: digits that do not fit the buffer, or a product that does not fit an [int]. *)
Definition as_bytes (s : string) (default : Z) : option (Z * bool) :=
  if is_empty_string s then Some (default, true)
  else
    let '(value, multiplier) := bytes_loop s "" None in
    match multiplier with
    | None => if (MISC_LENGTH <? String.length value)%nat then None else Some (default, false)
    | Some multiplier =>
        if (MISC_LENGTH <=? String.length value)%nat then None
        else
          match as_int value with
          | Some n => if n <? 0 then Some (default, false)
                      else if 2 ^ 31 <=? n * multiplier then None else Some (n * multiplier, true)
          | None => Some (default, false)
          end
    end.

(** [pgagroal_as_update_process_title], with the stored policy. *)
Definition as_update_process_title (s : string) (default : Z) : Z * bool :=
  if is_empty_string s then (default, false)
  else if strncmp_eq s "never" MISC_LENGTH || strncmp_eq s "off" MISC_LENGTH then (UPDATE_PROCESS_TITLE_NEVER, true)
  else if strncmp_eq s "strict" MISC_LENGTH then (UPDATE_PROCESS_TITLE_STRICT, true)
  else if strncmp_eq s "minimal" MISC_LENGTH then (UPDATE_PROCESS_TITLE_MINIMAL, true)
  else if strncmp_eq s "verbose" MISC_LENGTH || strncmp_eq s "full" MISC_LENGTH then (UPDATE_PROCESS_TITLE_VERBOSE, true)
  else (default, false).

Definition to_backend_type (s : string) : Z :=
  if is_empty_string s then EVENT_BACKEND_EMPTY
  else if strncmp_eq s "auto" MISC_LENGTH then EVENT_BACKEND_AUTO
  else if strncmp_eq s "io_uring" MISC_LENGTH then EVENT_BACKEND_IO_URING
  else if strncmp_eq s "epoll" MISC_LENGTH then EVENT_BACKEND_EPOLL
  else if strncmp_eq s "kqueue" MISC_LENGTH then EVENT_BACKEND_KQUEUE
  else EVENT_BACKEND_INVALID.

(** ** Values to text *)

(** The [to_] functions print into a buffer that holds [where]; [None] is the return
    value 1.  A number without a name leaves the buffer as it was. *)
Definition to_int (v : Z) : option string := Some (pretty v).
Definition to_bool (v : bool) : option string := Some (if v then "on" else "off").

(** [to_string] into a buffer of [max_length] bytes.  A text with both kinds of quotes is
    printed after a zero byte. *)
Definition to_string (value : string) (max_length : nat) : option string :=
  if (max_length <=? String.length value)%nat then None
  else
    let has_single := has_char "'" value in
    let has_double := has_char "034" value in
    if has_char " " value || has_double || has_single then
      if (max_length - 2 - 1 <? String.length value)%nat then None
      else if negb has_single then Some (String "'" (value +:+ "'"))
      else if negb has_double then Some (String "034" (value +:+ String "034" ""))
      else Some ""
    else Some value.

Definition to_update_process_title (where_ : string) (v : Z) : option string :=
  if v <? 0 then None
  else Some (if v =? UPDATE_PROCESS_TITLE_VERBOSE then "verbose" else if v =? UPDATE_PROCESS_TITLE_MINIMAL then "minimal"
             else if v =? UPDATE_PROCESS_TITLE_STRICT then "strict" else if v =? UPDATE_PROCESS_TITLE_NEVER then "never"
             else where_).

Definition to_validation (v : validation_mode) : option string :=
  Some (match v with
        | VALIDATION_OFF => "off" | VALIDATION_FOREGROUND => "foreground" | VALIDATION_BACKGROUND => "background"
        end).

Definition to_startup_validation (v : startup_validation_mode) : option string :=
  Some (match v with
        | STARTUP_VALIDATION_OFF => "off" | STARTUP_VALIDATION_TRY => "try" | STARTUP_VALIDATION_ON => "on"
        end).

Definition to_hugepage (where_ : string) (v : Z) : option string :=
  if v <? 0 then None
  else Some (if v =? HUGEPAGE_OFF then "off" else if v =? HUGEPAGE_TRY then "try" else if v =? HUGEPAGE_ON then "on"
             else where_).

Definition to_channel_binding (where_ : string) (v : Z) : option string :=
  if v <? 0 then None
  else Some (if v =? CHANNEL_BINDING_DISABLED then "disabled" else if v =? CHANNEL_BINDING_PREFER then "prefer"
             else if v =? CHANNEL_BINDING_REQUIRE then "require" else where_).

Definition to_pipeline (where_ : string) (v : Z) : option string :=
  if v <? 0 then None
  else Some (if v =? PIPELINE_AUTO then "auto" else if v =? PIPELINE_SESSION then "session"
             else if v =? PIPELINE_TRANSACTION then "transaction" else if v =? PIPELINE_PERFORMANCE then "performance"
             else where_).

Definition to_log_level (where_ : string) (v : Z) : option string :=
  if v <? 0 then None
  else Some (if v =? LOGGING_LEVEL_DEBUG5 then "debug2" else if v =? LOGGING_LEVEL_DEBUG1 then "debug"
             else if v =? LOGGING_LEVEL_INFO then "info" else if v =? LOGGING_LEVEL_WARN then "warn"
             else if v =? LOGGING_LEVEL_ERROR then "error" else if v =? LOGGING_LEVEL_FATAL then "fatal" else where_).

Definition to_log_mode (where_ : string) (v : Z) : option string :=
  if v <? 0 then None
  else Some (if v =? LOGGING_MODE_CREATE then "create" else if v =? LOGGING_MODE_APPEND then "append" else where_).

Definition to_log_type (where_ : string) (v : Z) : option string :=
  if v <? 0 then None
  else Some (if v =? LOGGING_TYPE_CONSOLE then "console" else if v =? LOGGING_TYPE_FILE then "file"
             else if v =? LOGGING_TYPE_SYSLOG then "syslog" else where_).

Definition to_server_reset_query_behavior (v : reset_behavior) : option string :=
  Some (match v with RESET_DISCARD => "discard" | RESET_IGNORE => "ignore" | RESET_TRY => "try" end).

Definition to_backend_str (v : Z) : string :=
  if v <? 0 then "auto"
  else if v =? EVENT_BACKEND_AUTO then "auto" else if v =? EVENT_BACKEND_IO_URING then "io_uring"
  else if v =? EVENT_BACKEND_EPOLL then "epoll" else if v =? EVENT_BACKEND_KQUEUE then "kqueue" else "unknown".

(** ** Entries of [pgagroal_hba.conf] and [pgagroal_databases.conf] *)

(** [extract_value]: the next token and the rest of the line after the blanks that follow;
    [None] is the return value -1. *)
Definition extract_value (s : string) : option (string * string) :=
  let '(token, r) := span (fun c => negb (is_blank c || is_eol c)) (skip is_blank s) in
  match token with EmptyString => None | _ => Some (token, skip is_blank r) end.

(** The token at the rest of a line, when the last one left something. *)
Definition next_value (s : option string) : option string * option string :=
  match s with
  | None => (None, None)
  | Some EmptyString => (None, None)
  | Some s => match extract_value s with Some (v, r) => (Some v, Some r) | None => (None, None) end
  end.

(** [extract_hba]: type, database, user, address and method, as far as they are there. *)
Definition extract_hba (line : string) : list (option string) :=
  match extract_value line with
  | None => replicate 5 None
  | Some (type, r) =>
      let '(database, r) := next_value (Some r) in
      let '(user, r) := next_value r in
      let '(address, r) := next_value r in
      let '(method, _) := next_value r in
      [Some type; database; user; address; method]
  end.

(** [extract_alias_with_space]: the database with its aliases.  [prev] is the character
    before [s], [equals] whether an equal sign was seen; the answer is what follows the
    blanks at the end. *)
Fixpoint alias_loop (fuel : nat) (prev : option ascii) (equals : bool) (acc s : string) : string * string :=
  match fuel with
  | O => (acc, s)
  | S fuel =>
      match s with
      | EmptyString => (acc, "")
      | String c r =>
          if code c =? 61 then
            let '(blanks, r) := span is_blank r in
            alias_loop fuel (Some "="%char) true (acc +:+ String c blanks) r
          else if is_blank c then
            let '(blanks, rest) := span is_blank s in
            let after d := match rest with String e _ => code e =? d | EmptyString => false end in
            let go := alias_loop fuel (Some c) equals (acc +:+ blanks) rest in
            if match prev with Some p => code p =? 44 | None => false end then go
            else if after 44 then go
            else if equals then
              if negb (streq rest "") && negb (after 61) && negb (after 44) then (acc, s) else go
            else if after 61 then go
            else (acc, s)
          else if is_eol c then (acc, s)
          else alias_loop fuel (Some c) equals (acc +:+ String c "") r
      end
  end.

Definition extract_alias_with_space (s : string) : option (string * string) :=
  let '(part, r) := alias_loop (S (String.length s)) None false "" (skip is_blank s) in
  match part with EmptyString => None | _ => Some (part, skip is_blank r) end.
