(* ===== verification/ConfTextFacts.v ===== *)
(** * What is printed is read back

    The lines that [pgagroal-cli conf set] prints and the lines of the files, read by the
    functions of [ConfText]. *)

From Stdlib Require Import Ascii.
From stdpp Require Import pretty.
From S2P Require Import Prelude Text Config Hba ConfText.

Local Open Scope Z_scope.

(** ** Texts *)

Lemma span_all (p : ascii -> bool) (s r : string) :
  all_chars p s = true -> match r with String c _ => p c = false | EmptyString => True end -> span p (s +:+ r) = (s, r).
Proof.
  intros Hs Hr. induction s as [|c s IH].
  - destruct r as [|c r]; [done|]. change ("" +:+ String c r) with (String c r). cbn [span]. by rewrite Hr.
  - change (String c s +:+ r) with (String c (s +:+ r)). cbn [all_chars span] in *.
    apply andb_prop in Hs as [Hc Hs]. by rewrite Hc, IH.
Qed.

Lemma skip_none (p : ascii -> bool) (s : string) :
  match s with String c _ => p c = false | EmptyString => True end -> skip p s = s.
Proof. unfold skip. destruct s as [|c s]; [done|]. cbn [span]. by intros ->. Qed.

Lemma skip_all (p : ascii -> bool) (s r : string) :
  all_chars p s = true -> match r with String c _ => p c = false | EmptyString => True end -> skip p (s +:+ r) = r.
Proof. intros Hs Hr. unfold skip. by rewrite span_all. Qed.

Lemma skip_cons (p : ascii -> bool) (c : ascii) (s : string) : p c = true -> skip p (String c s) = skip p s.
Proof. unfold skip. cbn [span]. intros ->. by destruct (span p s). Qed.

Lemma has_char_false (c : ascii) (s : string) : has_char c s = false -> all_chars (fun d => negb (bool_decide (d = c))) s = true.
Proof.
  unfold has_char. induction s as [|x s IH]; [done|]. cbn [split_at all_chars]. case_bool_decide; [done|].
  destruct (split_at c s) as [[]|]; [done|]. cbn [negb andb]. auto.
Qed.

(** ** Key and value *)

(** A character that goes into a value that is not quoted. *)
Definition plain_char (c : ascii) : bool :=
  negb (is_eol c || is_quote c || (code c =? 35) || (code c =? 59) || (code c =? 32)).

Lemma scan_plain (v acc r : string) :
  all_chars plain_char v = true -> match r with String c _ => plain_char c = false /\ is_quote c = false | EmptyString => True end ->
  scan_value None acc (v +:+ r) = Some (acc +:+ v).
Proof.
  revert acc; induction v as [|c v IH]; intros acc Hv Hr;
    [change ("" +:+ r) with r|change (String c v +:+ r) with (String c (v +:+ r))].
  - rewrite sapp_nil_r. destruct r as [|c r]; [done|]. destruct Hr as [Hp Hq]. cbn [scan_value]. rewrite Hq.
    destruct (is_eol c) eqn:He; [done|]. unfold plain_char in Hp. rewrite He, Hq in Hp. cbn [orb] in Hp.
    apply negb_false_iff in Hp. by rewrite Hp.
  - cbn [all_chars] in Hv. apply andb_prop in Hv as [Hc Hv]. cbn [scan_value]. unfold plain_char in Hc.
    rewrite !negb_orb, !andb_true_iff in Hc. destruct Hc as [[[[H1%negb_true_iff H2%negb_true_iff] H3] H4] H5].
    rewrite H1, H2. apply negb_true_iff in H3 as ->, H4 as ->, H5 as ->. cbn [orb].
    rewrite IH by done. by rewrite sapp_assoc.
Qed.

Lemma scan_quoted (q : ascii) (v acc r : string) :
  is_quote q = true -> all_chars (fun c => negb (is_eol c) && negb (bool_decide (c = q))) v = true ->
  scan_value (Some q) acc (v +:+ String q r) = Some (acc +:+ v).
Proof.
  intros Hq. revert acc; induction v as [|c v IH]; intros acc Hv;
    [change ("" +:+ String q r) with (String q r)|change (String c v +:+ String q r) with (String c (v +:+ String q r))].
  - cbn [scan_value]. assert (is_eol q = false) as ->.
    { unfold is_quote, is_eol in *. apply orb_prop in Hq as [H|H]; apply Z.eqb_eq in H; rewrite H; done. }
    rewrite Hq, bool_decide_eq_true_2 by done. by rewrite sapp_nil_r.
  - cbn [all_chars] in Hv. apply andb_prop in Hv as [Hc Hv]. apply andb_prop in Hc as [H1 H2].
    apply negb_true_iff in H1, H2. cbn [scan_value]. rewrite H1, H2.
    rewrite IH by done. rewrite sapp_assoc. change (String c "" +:+ v) with (String c v). by repeat case_match.
Qed.

(** The values that survive: on one line, not with both kinds of quotes, and without the
    signs of a comment when nothing asks for quotes. *)
Definition printable (v : string) : bool :=
  all_chars (fun c => negb (is_eol c)) v
  && (if has_char " " v || has_char "034" v || has_char "'" v then negb (has_char "034" v && has_char "'" v)
      else all_chars plain_char v && match v with String c _ => negb (is_blank c || (code c =? 61)) | EmptyString => true end).

Definition key_char (c : ascii) : bool := negb ((code c =? 32) || (code c =? 61)).

Lemma extract_printed (key w r : string) :
  all_chars key_char key = true -> key <> "" ->
  match w with String c _ => is_blank c || (code c =? 61) = false | EmptyString => True end ->
  extract_key_value (key +:+ " = " +:+ w +:+ String "010" r) = (Some key, scan_value None "" (w +:+ String "010" r)).
Proof.
  intros Hk Hn Hw. unfold extract_key_value.
  rewrite (skip_none (fun c => code c =? 32)).
  2: { destruct key as [|c key]; [done|]. change (code c =? 32 = false). cbn [all_chars] in Hk. apply andb_prop in Hk as [Hk _].
       unfold key_char in Hk. apply negb_true_iff, orb_false_iff in Hk as [-> _]. done. }
  rewrite (span_all _ key) by done. cbn [String.append].
  change (" = " +:+ w +:+ String "010" r) with (String " " ("= " +:+ w +:+ String "010" r)).
  change (String " " ("= " +:+ w +:+ String "010" r)) with (" = " +:+ (w +:+ String "010" r)). 
  rewrite (skip_all _ " = ") by (done || by destruct w). done.
Qed.

(** A value that [to_string] prints into a line of the configuration file is read back as
    it was, quotes and spaces included. *)
Lemma extract_setting (key value w rest : string) (max_length : nat) :
  all_chars key_char key = true -> key <> "" -> printable value = true -> to_string value max_length = Some w ->
  extract_key_value (key +:+ " = " +:+ w +:+ String "010" rest) = (Some key, Some value).
Proof.
  intros Hk Hn Hp Hw. unfold to_string in Hw. unfold printable in Hp. apply andb_prop in Hp as [He Hp].
  destruct (max_length <=? String.length value)%nat; [done|].
  destruct (has_char " " value || has_char "034" value || has_char "'" value) eqn:Hq.
  - destruct (_ <? _)%nat; [done|]. assert (exists q, is_quote q = true /\ has_char q value = false
      /\ w = String q (value +:+ String q "")) as (q & Hq1 & Hq2 & ->).
    { destruct (has_char "'" value) eqn:H1, (has_char "034" value) eqn:H2; cbn [negb andb] in *; try done; simplify_eq;
        [exists "034"%char|exists "'"%char..]; done. }
    rewrite extract_printed; [|done..|by destruct (is_quote q) eqn:E; destruct q as [[] [] [] [] [] [] [] []]].
    f_equal. change (String q (value +:+ String q "") +:+ String "010" rest) with
      (String q ((value +:+ String q "") +:+ String "010" rest)). rewrite sapp_assoc.
    cbn [scan_value]. assert (is_eol q = false) as -> by (by destruct q as [[] [] [] [] [] [] [] []]).
    rewrite Hq1. change (String q "" +:+ String "010" rest) with (String q (String "010" rest)).
    rewrite scan_quoted; [done..|]. apply has_char_false in Hq2.
    clear -He Hq2. induction value as [|c v IH]; [done|]. cbn [all_chars] in *.
    apply andb_prop in He as [-> He], Hq2 as [-> Hq2]. by apply IH.
  - simplify_eq. apply andb_prop in Hp as [Hp Hf]. rewrite extract_printed; [|done..|].
    + rewrite scan_plain; done.
    + destruct w as [|c w]; [done|]. by apply negb_true_iff.
Qed.

(** What is lost: a comment sign that nothing quotes, and a text with both kinds of quotes. *)
Lemma comment_sign_lost :
  to_string "a#b" MISC_LENGTH = Some "a#b" /\ extract_key_value "key = a#b" = (Some "key", Some "a").
Proof. done. Qed.

Lemma both_quotes_lost : to_string (String "'" (String "034" "")) MISC_LENGTH = Some "".
Proof. done. Qed.

(** ** Numbers *)

Lemma digit_not_sign (c : ascii) : is_digit c = true -> is_space c = false /\ c <> "-"%char /\ c <> "+"%char.
Proof. by destruct c as [[] [] [] [] [] [] [] []]. Qed.

Lemma strtol_pretty (n : Z) : strtol_whole (pretty n) = Some n.
Proof.
  assert (forall n, 0 <= n -> strtol_whole (pretty n) = Some n) as Hpos.
  { clear n. intros n Hn. destruct (pretty_digit n Hn) as (c & s & E & Hc). destruct (digit_not_sign c Hc) as (H1 & H2 & H3).
    unfold strtol_whole. rewrite E. cbn [skip_space]. rewrite H1.
    assert (match String c s with String "-" r => (-1, r) | String "+" r => (1, r) | _ => (1, String c s) end
            = (1, String c s)) as -> by (by destruct c as [[] [] [] [] [] [] [] []]).
    rewrite Hc, <- E, scan_pretty_nil by done. cbn. f_equal. lia. }
  destruct (Z.lt_ge_cases n 0) as [Hn|]; [|by apply Hpos]. destruct n as [|p|p]; [done..|].
  change (pretty (Zneg p)) with (String "-" (pretty (Npos p))).
  specialize (Hpos (Zpos p) ltac:(done)). change (pretty (Zpos p)) with (pretty (Npos p)) in Hpos.
  destruct (pretty_digit (Zpos p) ltac:(done)) as (c & s & E & Hc). change (pretty (Zpos p)) with (pretty (Npos p)) in E.
  pose proof (scan_pretty_nil (Zpos p) ltac:(done)) as Hs. change (pretty (Zpos p)) with (pretty (Npos p)) in Hs.
  unfold strtol_whole. cbn [skip_space]. change (is_space "-") with false. cbn match. rewrite E, Hc, <- E, Hs. done.
Qed.

Lemma as_int_pretty (n : Z) : - 2 ^ 63 <= n < 2 ^ 63 -> as_int (pretty n) = Some (i32 n).
Proof.
  intros Hn. unfold as_int, LONG_MAX. rewrite strtol_pretty. cbn [mbind option_bind].
  destruct (Z.ltb_spec n (- (2 ^ 63 - 1) - 1)); [lia|]. by destruct (Z.ltb_spec (2 ^ 63 - 1) n); [lia|].
Qed.

Lemma i32_small (n : Z) : - 2 ^ 31 <= n < 2 ^ 31 -> i32 n = n.
Proof. intros Hn. unfold i32, wraps. rewrite Z.mod_small by (change (2 ^ (32 - 1)) with (2 ^ 31); lia). lia. Qed.

Lemma pretty_go_length (k : nat) (x : N) (s : string) :
  Z.of_N x < 10 ^ Z.of_nat k -> (String.length (pretty_N_go x s) <= k + String.length s)%nat.
Proof.
  revert x s; induction k as [|k IH]; intros x s Hx.
  - assert (x = 0)%N as -> by lia. by rewrite pretty_N_go_0.
  - destruct (decide (x = 0)%N) as [->|Hn]; [rewrite pretty_N_go_0; lia|]. rewrite pretty_N_go_step by lia.
    etrans; [apply IH|cbn [String.length]; lia].
    rewrite N2Z.inj_div. rewrite Nat2Z.inj_succ, Z.pow_succ_r in Hx by lia.
    apply Z.div_lt_upper_bound; lia.
Qed.

Lemma pretty_length (k : nat) (n : Z) : (0 < k)%nat -> 0 <= n < 10 ^ Z.of_nat k -> (String.length (pretty n) <= k)%nat.
Proof.
  intros Hk [Hn Hl]. destruct n as [|p|p]; [cbn; lia| |lia]. change (pretty (Zpos p)) with (pretty (Npos p)).
  unfold pretty, pretty_N. rewrite decide_False by done. pose proof (pretty_go_length k (Npos p) "" Hl). cbn [String.length] in *. lia.
Qed.

Lemma pretty_go_digits (x : N) (s : string) : all_chars is_digit s = true -> all_chars is_digit (pretty_N_go x s) = true.
Proof.
  revert s. induction (N.lt_wf_0 x) as [x _ IH]; intros s Hs.
  destruct (decide (x = 0)%N) as [->|Hx]; [by rewrite pretty_N_go_0|]. rewrite pretty_N_go_step by lia.
  apply IH; [apply N.div_lt; lia|]. cbn [all_chars]. destruct (is_digit_pretty (x `mod` 10)) as [-> _]; [by apply N.mod_lt|done].
Qed.

Lemma pretty_digits (n : Z) : 0 <= n -> all_chars is_digit (pretty n) = true.
Proof.
  intros Hn. destruct n as [|p|p]; [done| |lia]. change (pretty (Zpos p)) with (pretty (Npos p)).
  unfold pretty, pretty_N. rewrite decide_False by done. by apply pretty_go_digits.
Qed.

(** ** Sizes *)

Definition size_unit (u : string) : option Z :=
  if streq u "" || streq u "B" then Some 1
  else if streq u "K" || streq u "KB" then Some 1024
  else if streq u "M" || streq u "MB" then Some (1024 * 1024)
  else if streq u "G" || streq u "GB" then Some (1024 * 1024 * 1024)
  else None.

Lemma bytes_digits (d s acc : string) (m : option Z) :
  all_chars is_digit d = true -> bytes_loop (d +:+ s) acc m = bytes_loop s (acc +:+ d) m.
Proof.
  revert acc; induction d as [|c d IH]; intros acc Hd; [by rewrite sapp_nil_r|].
  cbn [all_chars] in Hd. apply andb_prop in Hd as [Hc Hd]. change (String c d +:+ s) with (String c (d +:+ s)).
  cbn [bytes_loop]. rewrite Hc, IH by done. by rewrite sapp_assoc.
Qed.

(** A size with a unit is read as that many bytes as long as the product is below 2 GiB;
    from there on the multiplication of two [int]s overflows. *)
Theorem as_bytes_units (n m default : Z) (u : string) (Hn : 0 <= n < 2 ^ 31) (Hu : size_unit u = Some m) :
  as_bytes (pretty n +:+ u) default = if n * m <? 2 ^ 31 then Some (n * m, true) else None.
Proof.
  unfold as_bytes. destruct (pretty_digit n ltac:(lia)) as (c & s & E & Hc).
  assert (is_empty_string (pretty n +:+ u) = false) as ->.
  { rewrite E. unfold is_empty_string. change (String c s +:+ u) with (String c (s +:+ u)). rewrite skip_none; [done|].
    by destruct c as [[] [] [] [] [] [] [] []]. }
  rewrite bytes_digits by (apply pretty_digits; lia). change ("" +:+ pretty n) with (pretty n).
  assert (bytes_loop u (pretty n) None = (pretty n, Some m)) as ->.
  { unfold size_unit in Hu. repeat (destruct (_ || _) eqn:Eu in Hu;
      [apply orb_prop in Eu as [->%streq_true| ->%streq_true]; by simplify_eq|clear Eu]). done. }
  assert (String.length (pretty n) <= 10)%nat as Hl by (apply pretty_length; lia).
  rewrite (proj2 (Nat.leb_gt _ _)) by (unfold MISC_LENGTH; lia).
  rewrite as_int_pretty by lia. rewrite i32_small by lia.
  destruct (Z.ltb_spec n 0); [lia|]. destruct (Z.leb_spec (2 ^ 31) (n * m)), (Z.ltb_spec (n * m) (2 ^ 31)); done || lia.
Qed.

Lemma as_bytes_units_witness :
  as_bytes "512MB" 0 = Some (512 * (1024 * 1024), true) /\ as_bytes "2G" 0 = None.
Proof.
  split; [apply (as_bytes_units 512 (1024 * 1024) 0 "MB")|apply (as_bytes_units 2 (1024 * 1024 * 1024) 0 "G")]; done.
Defined.

(** ** Words *)

(** Every setting that is a word or a number is read back as it is printed; only the
    automatic pipeline is not printed, because its number is negative. *)
Theorem enumerations_roundtrip (b : bool) (v : validation_mode) (sv : startup_validation_mode) (rb : reset_behavior)
  (n : Z) (where_ : string) :
  (to_bool b ≫= as_bool) = Some b
  /\ (to_validation v ≫= as_validation) = Some v
  /\ (to_startup_validation sv ≫= as_startup_validation) = Some sv
  /\ (to_server_reset_query_behavior rb ≫= as_server_reset_query_behavior) = Some rb
  /\ (- 2 ^ 31 <= n < 2 ^ 31 -> (to_int n ≫= as_int) = Some n)
  /\ (0 <= n <= 2 -> (to_hugepage where_ n ≫= as_hugepage) = Some n
       /\ (to_channel_binding where_ n ≫= as_channel_binding) = Some n
       /\ (to_pipeline where_ n ≫= as_pipeline) = Some n
       /\ (to_log_type where_ n ≫= as_logging_type) = Some n)
  /\ (0 <= n <= 1 -> (to_log_mode where_ n ≫= as_logging_mode) = Some n)
  /\ (0 <= n <= 3 -> (to_update_process_title where_ n ≫= fun s => Some (as_update_process_title s (-1))) = Some (n, true))
  /\ (1 <= n <= 6 -> (to_log_level where_ n ≫= fun s => Some (as_logging_level s)) = Some n)
  /\ (1 <= n <= 3 -> to_backend_type (to_backend_str n) = n)
  /\ to_pipeline where_ PIPELINE_AUTO = None.
Proof.
  split_and!; try (by destruct b); try (by destruct v); try (by destruct sv); try (by destruct rb); try done.
  - intros Hn. unfold to_int. cbn [mbind option_bind]. rewrite as_int_pretty by lia. by rewrite i32_small.
  - intros Hn. assert (n = 0 \/ n = 1 \/ n = 2) as [->|[->| ->]] by lia; done.
  - intros Hn. assert (n = 0 \/ n = 1) as [->| ->] by lia; done.
  - intros Hn. assert (n = 0 \/ n = 1 \/ n = 2 \/ n = 3) as [->|[->|[->| ->]]] by lia; done.
  - intros Hn. assert (n = 1 \/ n = 2 \/ n = 3 \/ n = 4 \/ n = 5 \/ n = 6) as [->|[->|[->|[->|[->| ->]]]]] by lia; done.
  - intros Hn. assert (n = 1 \/ n = 2 \/ n = 3) as [->|[->| ->]] by lia; done.
Qed.

(** An [int] of the configuration that does not fit is cut. *)
Lemma as_int_wraps : as_int "4294967297" = Some 1.
Proof. done. Qed.

(** A letter that is no unit is skipped, and the digits after it count. *)
Lemma as_bytes_skips_letters : as_bytes "5x3" 0 = Some (53, true).
Proof. done. Qed.

Lemma enumerations_roundtrip_witness : (to_pipeline "" 2 ≫= as_pipeline) = Some 2 /\ (to_int (-7) ≫= as_int) = Some (-7).
Proof.
  split.
  - apply (enumerations_roundtrip true VALIDATION_OFF STARTUP_VALIDATION_OFF RESET_TRY 2 ""). lia.
  - apply (enumerations_roundtrip true VALIDATION_OFF STARTUP_VALIDATION_OFF RESET_TRY (-7) ""). lia.
Defined.

(** ** Columns *)

Definition token_char (c : ascii) : bool := negb (is_blank c || is_eol c).

(** A column of a file: not empty, and without white space. *)
Definition is_token (s : string) : bool := negb (streq s "") && all_chars token_char s.

Lemma token_cons (t : string) :
  is_token t = true -> exists c r, t = String c r /\ is_blank c = false /\ all_chars token_char t = true.
Proof.
  unfold is_token. destruct t as [|c r]; [done|]. intros [_ H]%andb_prop. exists c, r. split_and!; [done| |done].
  cbn [all_chars] in H. apply andb_prop in H as [H _]. unfold token_char in H. by destruct (is_blank c).
Qed.

Lemma extract_token (t r : string) :
  is_token t = true -> extract_value (t +:+ String " " r) = Some (t, skip is_blank r).
Proof.
  intros Ht. destruct (token_cons t Ht) as (c & t' & E & Hb & Hs). unfold extract_value. rewrite (skip_none is_blank).
  - change (fun c => negb (is_blank c || is_eol c)) with token_char. rewrite (span_all token_char t) by done.
    rewrite skip_cons by done. by destruct t.
  - by rewrite E.
Qed.

Lemma extract_last (t r : string) :
  is_token t = true -> (match r with String c _ => is_eol c = true | EmptyString => True end) ->
  extract_value (t +:+ r) = Some (t, r).
Proof.
  intros Ht Hr. destruct (token_cons t Ht) as (c & t' & E & Hb & Hs). unfold extract_value. rewrite (skip_none is_blank).
  - change (fun c => negb (is_blank c || is_eol c)) with token_char. rewrite (span_all token_char t); [|done|].
    + rewrite skip_none; [by rewrite E|]. destruct r as [|d r]; [done|]. by destruct d as [[] [] [] [] [] [] [] []].
    + destruct r as [|d r]; [done|]. unfold token_char. rewrite Hr. by rewrite orb_true_r.
  - by rewrite E.
Qed.

Lemma skip_token (t r : string) : is_token t = true -> skip is_blank (t +:+ r) = t +:+ r.
Proof. intros Ht. destruct (token_cons t Ht) as (c & t' & -> & Hb & _). by apply skip_none. Qed.

(** The columns with a blank between them. *)
Fixpoint columns (ts : list string) : string :=
  match ts with [] => "" | [t] => t | t :: ts => t +:+ String " " (columns ts) end.

Lemma extract_column (t u : string) (ts : list string) (r : string) :
  is_token t = true -> is_token u = true ->
  extract_value (columns (t :: u :: ts) +:+ r) = Some (t, columns (u :: ts) +:+ r).
Proof.
  intros Ht Hu. assert (columns (t :: u :: ts) +:+ r = t +:+ String " " (columns (u :: ts) +:+ r)) as ->.
  { cbn [columns]. by rewrite sapp_assoc. }
  rewrite extract_token by done. do 2 f_equal. destruct ts as [|v ts]; cbn [columns]; rewrite ?sapp_assoc; by apply skip_token.
Qed.

Lemma columns_cons (t : string) (ts : list string) (r : string) :
  is_token t = true -> exists c s, columns (t :: ts) +:+ r = String c s.
Proof. intros Ht. destruct (token_cons t Ht) as (c & t' & -> & _). destruct ts; cbn [columns]; eauto. Qed.

Lemma next_column (t u : string) (ts : list string) (r : string) :
  is_token t = true -> is_token u = true ->
  next_value (Some (columns (t :: u :: ts) +:+ r)) = (Some t, Some (columns (u :: ts) +:+ r)).
Proof.
  intros Ht Hu. pose proof (extract_column t u ts r Ht Hu) as E. destruct (columns_cons t (u :: ts) r Ht) as (c & s & Ec).
  rewrite Ec in *. cbn [next_value]. by rewrite E.
Qed.

Lemma next_last (t r : string) :
  is_token t = true -> match r with String c _ => is_eol c = true | EmptyString => True end ->
  next_value (Some (columns [t] +:+ r)) = (Some t, Some r).
Proof.
  intros Ht Hr. pose proof (extract_last t r Ht Hr) as E. destruct (columns_cons t [] r Ht) as (c & s & Ec). cbn [columns] in *.
  rewrite Ec in *. cbn [next_value]. by rewrite E.
Qed.

(** The five columns of an entry of [pgagroal_hba.conf]. *)
Lemma extract_hba_columns (t d u a m : string) :
  Forall (fun s => is_token s = true) [t; d; u; a; m] ->
  extract_hba (columns [t; d; u; a; m] +:+ String "010" "") = Some <$> [t; d; u; a; m].
Proof.
  intros H. rewrite !Forall_cons in H. destruct H as (Ht & Hd & Hu & Ha & Hm & _). unfold extract_hba.
  rewrite extract_column by done. rewrite !next_column by done. by rewrite next_last.
Qed.
