(* ===== verification/Settings.v ===== *)
(** * The configuration ([include/pgagroal.h])

    The parts of [struct configuration], [struct main_configuration], [struct server] and
    [struct limit] that the configuration files fix, with the run time fields that a
    reload keeps or loses.  A [pgagroal_time_t] is its number of seconds; the numbers of
    servers, entries and users are the lengths of the lists. *)

From S2P Require Import Prelude Config Hba.

Local Open Scope Z_scope.

(** [struct server]. *)
Record server_entry := ServerEntry {
  sv_name : string;
  sv_host : string;
  sv_port : Z;
  sv_version : Z;
  sv_minor_version : Z;
  sv_system_identifier : string;
  sv_tls : bool;
  sv_valid : bool;
  sv_tls_cert_file : string;
  sv_tls_key_file : string;
  sv_tls_ca_file : string;
  sv_tls_crl_file : string;
  sv_channel_binding : Z;
  sv_state : server_state;
  sv_health_state : Z;
  sv_streaming_state : Z;
  sv_failures : Z;
  sv_auth_type : Z;
  sv_lineno : Z }.

#[export] Instance server_entry_inhabited : Inhabited server_entry :=
  populate (ServerEntry "" "" 0 0 0 "" false false "" "" "" "" 0 SERVER_NOTINIT 0 0 0 0 0).

(** [struct limit] with its counters. *)
Record limit_entry := LimitEntry {
  le_limit : limit;
  le_active_connections : Z;
  le_backend_connections : Z }.

(** [struct configuration]. *)
Record configuration := Configuration {
  cf_host : string;
  cf_port : Z;
  cf_authentication_timeout : Z;
  cf_log_type : Z;
  cf_log_level : Z;
  cf_log_path : string;
  cf_log_connections : bool;
  cf_log_disconnections : bool;
  cf_log_mode : Z;
  cf_log_rotation_size : Z;
  cf_log_rotation_age : Z;
  cf_log_line_prefix : string;
  cf_tls : bool;
  cf_tls_cert_file : string;
  cf_tls_key_file : string;
  cf_tls_ca_file : string;
  cf_tls_crl_file : string;
  cf_hugepage : Z;
  cf_metrics : Z;
  cf_metrics_cache_max_age : Z;
  cf_metrics_cache_max_size : Z;
  cf_metrics_cert_file : string;
  cf_metrics_key_file : string;
  cf_metrics_ca_file : string }.

(** [struct main_configuration]. *)
Record main_configuration := MainConfiguration {
  mc_common : configuration;
  mc_management : Z;
  mc_console : Z;
  mc_pipeline : Z;
  mc_failover : bool;
  mc_failover_script : string;
  mc_failover_notify_script : string;
  mc_update_process_title : Z;
  mc_authquery : bool;
  mc_max_connections : Z;
  mc_allow_unknown_users : bool;
  mc_blocking_timeout : Z;
  mc_connection_retry_delay : Z;
  mc_idle_timeout : Z;
  mc_rotate_frontend_password_timeout : Z;
  mc_rotate_frontend_password_length : Z;
  mc_max_connection_age : Z;
  mc_flush_timeout : Z;
  mc_validation : validation_mode;
  mc_background_interval : Z;
  mc_tls_cert_monitor_interval : Z;
  mc_max_retries : Z;
  mc_health_check : bool;
  mc_health_check_period : Z;
  mc_health_check_timeout : Z;
  mc_health_check_user : string;
  mc_startup_validation : startup_validation_mode;
  mc_disconnect_client : Z;
  mc_disconnect_client_force : bool;
  mc_pidfile : string;
  mc_ev_backend : Z;
  mc_keep_alive : bool;
  mc_nodelay : bool;
  mc_backlog : Z;
  mc_tracker : bool;
  mc_track_prepared_statements : bool;
  mc_server_reset_query : string;
  mc_server_reset_query_always : bool;
  mc_server_reset_query_behavior : reset_behavior;
  mc_unix_socket_dir : string;
  mc_servers : list server_entry;
  mc_hbas : list hba;
  mc_limits : list limit_entry;
  mc_users : list user;
  mc_frontend_users : list user;
  mc_admins : list user;
  mc_superuser : user }.

(** ** Field stores *)

(** The record [eta c], which is [c] field by field, with [v] in the place of [f c]. *)
Ltac store_field eta f v c :=
  let t := eval cbv beta delta [eta] in (eta c) in
  match eval pattern (f c) in t with
  | ?g _ => let r := eval cbv beta in (g v) in exact r
  end.

Definition eta_sv (c : server_entry) : server_entry :=
  ServerEntry (sv_name c) (sv_host c) (sv_port c) (sv_version c) (sv_minor_version c) (sv_system_identifier c)
    (sv_tls c) (sv_valid c) (sv_tls_cert_file c) (sv_tls_key_file c) (sv_tls_ca_file c) (sv_tls_crl_file c)
    (sv_channel_binding c) (sv_state c) (sv_health_state c) (sv_streaming_state c) (sv_failures c) (sv_auth_type
    c) (sv_lineno c).

Definition set_sv_name (v : string) (c : server_entry) : server_entry := ltac:(store_field eta_sv sv_name v c).
Definition set_sv_host (v : string) (c : server_entry) : server_entry := ltac:(store_field eta_sv sv_host v c).
Definition set_sv_port (v : Z) (c : server_entry) : server_entry := ltac:(store_field eta_sv sv_port v c).
Definition set_sv_version (v : Z) (c : server_entry) : server_entry := ltac:(store_field eta_sv sv_version v c).
Definition set_sv_minor_version (v : Z) (c : server_entry) : server_entry := ltac:(store_field eta_sv sv_minor_version v c).
Definition set_sv_system_identifier (v : string) (c : server_entry) : server_entry := ltac:(store_field eta_sv sv_system_identifier v c).
Definition set_sv_tls (v : bool) (c : server_entry) : server_entry := ltac:(store_field eta_sv sv_tls v c).
Definition set_sv_valid (v : bool) (c : server_entry) : server_entry := ltac:(store_field eta_sv sv_valid v c).
Definition set_sv_tls_cert_file (v : string) (c : server_entry) : server_entry := ltac:(store_field eta_sv sv_tls_cert_file v c).
Definition set_sv_tls_key_file (v : string) (c : server_entry) : server_entry := ltac:(store_field eta_sv sv_tls_key_file v c).
Definition set_sv_tls_ca_file (v : string) (c : server_entry) : server_entry := ltac:(store_field eta_sv sv_tls_ca_file v c).
Definition set_sv_tls_crl_file (v : string) (c : server_entry) : server_entry := ltac:(store_field eta_sv sv_tls_crl_file v c).
Definition set_sv_channel_binding (v : Z) (c : server_entry) : server_entry := ltac:(store_field eta_sv sv_channel_binding v c).
Definition set_sv_state (v : server_state) (c : server_entry) : server_entry := ltac:(store_field eta_sv sv_state v c).
Definition set_sv_health_state (v : Z) (c : server_entry) : server_entry := ltac:(store_field eta_sv sv_health_state v c).
Definition set_sv_streaming_state (v : Z) (c : server_entry) : server_entry := ltac:(store_field eta_sv sv_streaming_state v c).
Definition set_sv_failures (v : Z) (c : server_entry) : server_entry := ltac:(store_field eta_sv sv_failures v c).
Definition set_sv_auth_type (v : Z) (c : server_entry) : server_entry := ltac:(store_field eta_sv sv_auth_type v c).
Definition set_sv_lineno (v : Z) (c : server_entry) : server_entry := ltac:(store_field eta_sv sv_lineno v c).

Definition eta_cf (c : configuration) : configuration :=
  Configuration (cf_host c) (cf_port c) (cf_authentication_timeout c) (cf_log_type c) (cf_log_level c)
    (cf_log_path c) (cf_log_connections c) (cf_log_disconnections c) (cf_log_mode c) (cf_log_rotation_size c)
    (cf_log_rotation_age c) (cf_log_line_prefix c) (cf_tls c) (cf_tls_cert_file c) (cf_tls_key_file c)
    (cf_tls_ca_file c) (cf_tls_crl_file c) (cf_hugepage c) (cf_metrics c) (cf_metrics_cache_max_age c)
    (cf_metrics_cache_max_size c) (cf_metrics_cert_file c) (cf_metrics_key_file c) (cf_metrics_ca_file c).

Definition set_cf_host (v : string) (c : configuration) : configuration := ltac:(store_field eta_cf cf_host v c).
Definition set_cf_port (v : Z) (c : configuration) : configuration := ltac:(store_field eta_cf cf_port v c).
Definition set_cf_authentication_timeout (v : Z) (c : configuration) : configuration := ltac:(store_field eta_cf cf_authentication_timeout v c).
Definition set_cf_log_type (v : Z) (c : configuration) : configuration := ltac:(store_field eta_cf cf_log_type v c).
Definition set_cf_log_level (v : Z) (c : configuration) : configuration := ltac:(store_field eta_cf cf_log_level v c).
Definition set_cf_log_path (v : string) (c : configuration) : configuration := ltac:(store_field eta_cf cf_log_path v c).
Definition set_cf_log_connections (v : bool) (c : configuration) : configuration := ltac:(store_field eta_cf cf_log_connections v c).
Definition set_cf_log_disconnections (v : bool) (c : configuration) : configuration := ltac:(store_field eta_cf cf_log_disconnections v c).
Definition set_cf_log_mode (v : Z) (c : configuration) : configuration := ltac:(store_field eta_cf cf_log_mode v c).
Definition set_cf_log_rotation_size (v : Z) (c : configuration) : configuration := ltac:(store_field eta_cf cf_log_rotation_size v c).
Definition set_cf_log_rotation_age (v : Z) (c : configuration) : configuration := ltac:(store_field eta_cf cf_log_rotation_age v c).
Definition set_cf_log_line_prefix (v : string) (c : configuration) : configuration := ltac:(store_field eta_cf cf_log_line_prefix v c).
Definition set_cf_tls (v : bool) (c : configuration) : configuration := ltac:(store_field eta_cf cf_tls v c).
Definition set_cf_tls_cert_file (v : string) (c : configuration) : configuration := ltac:(store_field eta_cf cf_tls_cert_file v c).
Definition set_cf_tls_key_file (v : string) (c : configuration) : configuration := ltac:(store_field eta_cf cf_tls_key_file v c).
Definition set_cf_tls_ca_file (v : string) (c : configuration) : configuration := ltac:(store_field eta_cf cf_tls_ca_file v c).
Definition set_cf_tls_crl_file (v : string) (c : configuration) : configuration := ltac:(store_field eta_cf cf_tls_crl_file v c).
Definition set_cf_hugepage (v : Z) (c : configuration) : configuration := ltac:(store_field eta_cf cf_hugepage v c).
Definition set_cf_metrics (v : Z) (c : configuration) : configuration := ltac:(store_field eta_cf cf_metrics v c).
Definition set_cf_metrics_cache_max_age (v : Z) (c : configuration) : configuration := ltac:(store_field eta_cf cf_metrics_cache_max_age v c).
Definition set_cf_metrics_cache_max_size (v : Z) (c : configuration) : configuration := ltac:(store_field eta_cf cf_metrics_cache_max_size v c).
Definition set_cf_metrics_cert_file (v : string) (c : configuration) : configuration := ltac:(store_field eta_cf cf_metrics_cert_file v c).
Definition set_cf_metrics_key_file (v : string) (c : configuration) : configuration := ltac:(store_field eta_cf cf_metrics_key_file v c).
Definition set_cf_metrics_ca_file (v : string) (c : configuration) : configuration := ltac:(store_field eta_cf cf_metrics_ca_file v c).

Definition eta_mc (c : main_configuration) : main_configuration :=
  MainConfiguration (mc_common c) (mc_management c) (mc_console c) (mc_pipeline c) (mc_failover c)
    (mc_failover_script c) (mc_failover_notify_script c) (mc_update_process_title c) (mc_authquery c)
    (mc_max_connections c) (mc_allow_unknown_users c) (mc_blocking_timeout c) (mc_connection_retry_delay c)
    (mc_idle_timeout c) (mc_rotate_frontend_password_timeout c) (mc_rotate_frontend_password_length c)
    (mc_max_connection_age c) (mc_flush_timeout c) (mc_validation c) (mc_background_interval c)
    (mc_tls_cert_monitor_interval c) (mc_max_retries c) (mc_health_check c) (mc_health_check_period c)
    (mc_health_check_timeout c) (mc_health_check_user c) (mc_startup_validation c) (mc_disconnect_client c)
    (mc_disconnect_client_force c) (mc_pidfile c) (mc_ev_backend c) (mc_keep_alive c) (mc_nodelay c) (mc_backlog
    c) (mc_tracker c) (mc_track_prepared_statements c) (mc_server_reset_query c) (mc_server_reset_query_always
    c) (mc_server_reset_query_behavior c) (mc_unix_socket_dir c) (mc_servers c) (mc_hbas c) (mc_limits c)
    (mc_users c) (mc_frontend_users c) (mc_admins c) (mc_superuser c).

Definition set_mc_common (v : configuration) (c : main_configuration) : main_configuration := ltac:(store_field eta_mc mc_common v c).
Definition set_mc_management (v : Z) (c : main_configuration) : main_configuration := ltac:(store_field eta_mc mc_management v c).
Definition set_mc_console (v : Z) (c : main_configuration) : main_configuration := ltac:(store_field eta_mc mc_console v c).
Definition set_mc_pipeline (v : Z) (c : main_configuration) : main_configuration := ltac:(store_field eta_mc mc_pipeline v c).
Definition set_mc_failover (v : bool) (c : main_configuration) : main_configuration := ltac:(store_field eta_mc mc_failover v c).
Definition set_mc_failover_script (v : string) (c : main_configuration) : main_configuration := ltac:(store_field eta_mc mc_failover_script v c).
Definition set_mc_failover_notify_script (v : string) (c : main_configuration) : main_configuration := ltac:(store_field eta_mc mc_failover_notify_script v c).
Definition set_mc_update_process_title (v : Z) (c : main_configuration) : main_configuration := ltac:(store_field eta_mc mc_update_process_title v c).
Definition set_mc_authquery (v : bool) (c : main_configuration) : main_configuration := ltac:(store_field eta_mc mc_authquery v c).
Definition set_mc_max_connections (v : Z) (c : main_configuration) : main_configuration := ltac:(store_field eta_mc mc_max_connections v c).
Definition set_mc_allow_unknown_users (v : bool) (c : main_configuration) : main_configuration := ltac:(store_field eta_mc mc_allow_unknown_users v c).
Definition set_mc_blocking_timeout (v : Z) (c : main_configuration) : main_configuration := ltac:(store_field eta_mc mc_blocking_timeout v c).
Definition set_mc_connection_retry_delay (v : Z) (c : main_configuration) : main_configuration := ltac:(store_field eta_mc mc_connection_retry_delay v c).
Definition set_mc_idle_timeout (v : Z) (c : main_configuration) : main_configuration := ltac:(store_field eta_mc mc_idle_timeout v c).
Definition set_mc_rotate_frontend_password_timeout (v : Z) (c : main_configuration) : main_configuration := ltac:(store_field eta_mc mc_rotate_frontend_password_timeout v c).
Definition set_mc_rotate_frontend_password_length (v : Z) (c : main_configuration) : main_configuration := ltac:(store_field eta_mc mc_rotate_frontend_password_length v c).
Definition set_mc_max_connection_age (v : Z) (c : main_configuration) : main_configuration := ltac:(store_field eta_mc mc_max_connection_age v c).
Definition set_mc_flush_timeout (v : Z) (c : main_configuration) : main_configuration := ltac:(store_field eta_mc mc_flush_timeout v c).
Definition set_mc_validation (v : validation_mode) (c : main_configuration) : main_configuration := ltac:(store_field eta_mc mc_validation v c).
Definition set_mc_background_interval (v : Z) (c : main_configuration) : main_configuration := ltac:(store_field eta_mc mc_background_interval v c).
Definition set_mc_tls_cert_monitor_interval (v : Z) (c : main_configuration) : main_configuration := ltac:(store_field eta_mc mc_tls_cert_monitor_interval v c).
Definition set_mc_max_retries (v : Z) (c : main_configuration) : main_configuration := ltac:(store_field eta_mc mc_max_retries v c).
Definition set_mc_health_check (v : bool) (c : main_configuration) : main_configuration := ltac:(store_field eta_mc mc_health_check v c).
Definition set_mc_health_check_period (v : Z) (c : main_configuration) : main_configuration := ltac:(store_field eta_mc mc_health_check_period v c).
Definition set_mc_health_check_timeout (v : Z) (c : main_configuration) : main_configuration := ltac:(store_field eta_mc mc_health_check_timeout v c).
Definition set_mc_health_check_user (v : string) (c : main_configuration) : main_configuration := ltac:(store_field eta_mc mc_health_check_user v c).
Definition set_mc_startup_validation (v : startup_validation_mode) (c : main_configuration) : main_configuration := ltac:(store_field eta_mc mc_startup_validation v c).
Definition set_mc_disconnect_client (v : Z) (c : main_configuration) : main_configuration := ltac:(store_field eta_mc mc_disconnect_client v c).
Definition set_mc_disconnect_client_force (v : bool) (c : main_configuration) : main_configuration := ltac:(store_field eta_mc mc_disconnect_client_force v c).
Definition set_mc_pidfile (v : string) (c : main_configuration) : main_configuration := ltac:(store_field eta_mc mc_pidfile v c).
Definition set_mc_ev_backend (v : Z) (c : main_configuration) : main_configuration := ltac:(store_field eta_mc mc_ev_backend v c).
Definition set_mc_keep_alive (v : bool) (c : main_configuration) : main_configuration := ltac:(store_field eta_mc mc_keep_alive v c).
Definition set_mc_nodelay (v : bool) (c : main_configuration) : main_configuration := ltac:(store_field eta_mc mc_nodelay v c).
Definition set_mc_backlog (v : Z) (c : main_configuration) : main_configuration := ltac:(store_field eta_mc mc_backlog v c).
Definition set_mc_tracker (v : bool) (c : main_configuration) : main_configuration := ltac:(store_field eta_mc mc_tracker v c).
Definition set_mc_track_prepared_statements (v : bool) (c : main_configuration) : main_configuration := ltac:(store_field eta_mc mc_track_prepared_statements v c).
Definition set_mc_server_reset_query (v : string) (c : main_configuration) : main_configuration := ltac:(store_field eta_mc mc_server_reset_query v c).
Definition set_mc_server_reset_query_always (v : bool) (c : main_configuration) : main_configuration := ltac:(store_field eta_mc mc_server_reset_query_always v c).
Definition set_mc_server_reset_query_behavior (v : reset_behavior) (c : main_configuration) : main_configuration := ltac:(store_field eta_mc mc_server_reset_query_behavior v c).
Definition set_mc_unix_socket_dir (v : string) (c : main_configuration) : main_configuration := ltac:(store_field eta_mc mc_unix_socket_dir v c).
Definition set_mc_servers (v : list server_entry) (c : main_configuration) : main_configuration := ltac:(store_field eta_mc mc_servers v c).
Definition set_mc_hbas (v : list hba) (c : main_configuration) : main_configuration := ltac:(store_field eta_mc mc_hbas v c).
Definition set_mc_limits (v : list limit_entry) (c : main_configuration) : main_configuration := ltac:(store_field eta_mc mc_limits v c).
Definition set_mc_users (v : list user) (c : main_configuration) : main_configuration := ltac:(store_field eta_mc mc_users v c).
Definition set_mc_frontend_users (v : list user) (c : main_configuration) : main_configuration := ltac:(store_field eta_mc mc_frontend_users v c).
Definition set_mc_admins (v : list user) (c : main_configuration) : main_configuration := ltac:(store_field eta_mc mc_admins v c).
Definition set_mc_superuser (v : user) (c : main_configuration) : main_configuration := ltac:(store_field eta_mc mc_superuser v c).

(** A store into the common part. *)
Definition on_common (f : configuration -> configuration) (c : main_configuration) : main_configuration :=
  set_mc_common (f (mc_common c)) c.
