(* ===== verification/Scram.v ===== *)
(** * Authentication exchanges ([libpgagroal/security.c])

    An exchange with a client or a server is a conversation: a tree of messages that are
    written and read, random bytes, and questions to the operating system, each with a
    continuation for its answer.  A conversation that dereferences NULL, or whose result
    depends on bytes outside of a message, has crashed.  The connection of the slot is
    passed along; no other process writes it ([PoolSafe]).

    The functions of OpenSSL are the fields of [crypto]; an error of OpenSSL is [None].
    The host is little endian, as in [Frames]. *)

From Stdlib Require Import Ascii.
From S2P Require Import Prelude Utf8 Wire Frames Message Text Config Hba.

Local Open Scope Z_scope.

Definition AUTH_SUCCESS : Z := 0.
Definition AUTH_BAD_PASSWORD : Z := 1.
Definition AUTH_ERROR : Z := 2.
Definition AUTH_TIMEOUT : Z := 3.
Definition SECURITY_BUFFER_SIZE : Z := 16384.
Definition MAX_PASSWORD_LENGTH : Z := 8192.
Definition SCRAM_MAX_ITERATIONS : Z := 100000.

(** ** Conversations *)

(** The client, the server of the slot, and the connection of the superuser that asks for
    passwords. *)
Inductive peer := Client | Backend | Superuser.

(** What an exchange asks for; a message that could not be read is [None], one that could
    not be written is [false].  [tls] tells whether the message goes through TLS. *)
Inductive call : Type -> Type :=
| WriteMsg (p : peer) (tls : bool) (m : message) : call bool
| ReadMsg (p : peer) (tls : bool) : call (option message)
| ReadComplete (p : peer) (tls : bool) : call (option message)
| RandBytes (n : nat) : call (option (list Z))
| TimeLeft : call bool
| SocketValid (p : peer) : call bool
| CertHash (p : peer) : call (option (list Z))
| PeerCert : call (option (bool * option (list Z)))
| GetPrimary : call (option Z)
| CancelTo (m : message) : call bool
| TlsSetup : call Z
| TlsHandshake : call bool
| GetConnection (username database : list Z) : call (Z * connection)
| ResumeTls : call bool
| ConnectTls (p : peer) : call bool
| SuAcquire : call bool
| SuRelease : call unit
| SuConnect : call bool
| SuDisconnect : call unit
| BlockingLeft : call bool
| UpdateServer : call unit.

Inductive conv (A : Type) : Type :=
| Ret (a : A)
| Crash
| More
| Call {R : Type} (c : call R) (k : R -> conv A).
Arguments Ret {A} a.
Arguments Crash {A}.
Arguments More {A}.
Arguments Call {A R} c k.

Fixpoint bind {A B} (p : conv A) (f : A -> conv B) : conv B :=
  match p with
  | Ret a => f a
  | Crash => Crash
  | More => More
  | Call c k => Call c (fun r => bind (k r) f)
  end.

Definition ask {R} (c : call R) : conv R := Call c Ret.

(** A value that the code uses without a test. *)
Definition need {A} (o : option A) : conv A := match o with Some a => Ret a | None => Crash end.

(** The result of a loop of [Frames]. *)
Definition loop {A} (r : result A) : conv A :=
  match r with Done a => Ret a | Undefined => Crash | Running => More end.

Declare Scope conv_scope.
Delimit Scope conv_scope with conv.
Bind Scope conv_scope with conv.
Notation "x <- p ;; q" := (bind p (fun x => q))
  (at level 100, p at next level, right associativity) : conv_scope.
Notation "p ;;; q" := (bind p (fun _ => q))
  (at level 100, right associativity) : conv_scope.
Open Scope conv_scope.

(** Writing a message that was built, and the answer to the client that follows a refusal. *)
Definition write (p : peer) (tls : bool) (m : option message) : conv bool :=
  m <- need m ;; ask (WriteMsg p tls m).

(** ** Bytes *)

Definition upto_nul (bs : list Z) : list Z :=
  (fix go (bs : list Z) : list Z := match bs with [] => [] | b :: bs => if b =? 0 then [] else b :: go bs end) bs.

(** [pgagroal_snprintf] into a buffer of [n] bytes. *)
Definition snprintf (n : nat) (bs : list Z) : list Z := take (n - 1) bs.

Definition xor_bytes (a b : list Z) : list Z := zip_with Z.lxor a b.

(** [strtok] with one delimiter: the tokens are not empty. *)
Fixpoint tokens (d : Z) (bs cur : list Z) : list (list Z) :=
  let emit rest := match cur with [] => rest | _ => cur :: rest end in
  match bs with
  | [] => emit []
  | b :: bs => if b =? d then emit (tokens d bs []) else tokens d bs (cur ++ [b])
  end.

Fixpoint find_attribute (a : Z) (ts : list (list Z)) : option (list Z) :=
  match ts with
  | [] => None
  | t :: ts =>
      match t with
      | x :: e :: v => if (x =? a) && (e =? chr "=") then Some v else find_attribute a ts
      | _ => find_attribute a ts
      end
  end.

Definition get_scram_attribute (attribute : Z) (input : list Z) : option (list Z) :=
  find_attribute attribute (tokens (chr ",") (upto_nul input) []).

(** [sasl_prep]; a C string has no zero byte. *)
Definition sasl_prep (password : option (list Z)) : option (list Z) :=
  match password with
  | None => None
  | Some p =>
      if existsb (fun c => (c <=? 31) || (c =? 127)) p then None
      else if negb (utf8_valid p) then None
      else if MAX_PASSWORD_LENGTH <=? len p then None
      else Some p
  end.

(** [scram_parse_iterations]: [strtol] fails when the number does not fit a [long]. *)
Definition scram_parse_iterations (s : list Z) : option Z :=
  match s with
  | [] => None
  | _ =>
      if negb (forallb (fun c => (48 <=? c) && (c <=? 57)) s) then None
      else
        let value := fold_left (fun acc c => 10 * acc + (c - 48)) s 0 in
        if 2 ^ 63 - 1 <? value then None
        else if value <=? 0 then None
        else if 2 ^ 31 - 1 <? value then None
        else if SCRAM_MAX_ITERATIONS <? value then None
        else Some value
  end.

(** ** The functions of SCRAM-SHA-256 *)

(** The functions of OpenSSL that the code calls: HMAC and SHA-256, and the base64 filter
    behind [pgagroal_base64_encode] and [pgagroal_base64_decode]. *)
Record crypto := Crypto {
  hmac_sha256 : list Z -> list Z -> option (list Z);
  sha256 : list Z -> option (list Z);
  base64_encode : list Z -> list Z;
  base64_decode : list Z -> list Z }.

Section exchanges.
Context (K : crypto).

(** [generate_nounce] and [generate_salt]; the last byte of the buffer of the nonce is
    replaced and not encoded. *)
Definition generate_nounce : conv (option (list Z)) :=
  r <- ask (RandBytes 19) ;;
  Ret (match r with Some r => Some (base64_encode K (take 18 r)) | None => None end).

Definition generate_salt : conv (option (list Z)) := ask (RandBytes 16).

(** The rounds of [salted_password] after the first one. *)
Fixpoint salt_rounds (n : nat) (password prev r : list Z) : option (list Z) :=
  match n with
  | O => Some r
  | S n => ui ← hmac_sha256 K password prev; salt_rounds n password ui (xor_bytes r ui)
  end.

(** [one] is the number 1 in network order. *)
Definition salted_password (password salt : list Z) (iterations : Z) : option (list Z) :=
  let one := host_bytes false 4 (swap 1) in
  u1 ← hmac_sha256 K password (salt ++ one);
  salt_rounds (Z.to_nat (iterations - 1)) password u1 u1.

Definition salted_password_key (salted key : list Z) : option (list Z) := hmac_sha256 K salted key.

Definition stored_key (client_key : list Z) : option (list Z) := sha256 K client_key.

(** What the signatures are made of: the three messages with commas between them. *)
Definition auth_message (bare first without_proof : list Z) : list Z :=
  bare ++ str "," ++ first ++ str "," ++ without_proof.

Definition client_proof (password salt : list Z) (iterations : Z) (bare first without_proof : list Z)
  : option (list Z) :=
  s_p ← salted_password password salt iterations;
  c_k ← salted_password_key s_p (str "Client Key");
  s_k ← stored_key c_k;
  c_s ← hmac_sha256 K s_k (auth_message bare first without_proof);
  Some (xor_bytes c_k c_s).

(** [verify_client_proof]: [true] is the return value 0, [None] a read outside of a buffer.  [s_key]
    and [proof] are the buffers; [s_key_length] bytes of the first one are the key for the
    HMAC, and 32 bytes of each are read whatever the lengths are. *)
Definition verify_client_proof (s_key : list Z) (s_key_length : nat) (proof bare first without_proof : list Z) : option bool :=
  match hmac_sha256 K (take s_key_length s_key) (auth_message bare first without_proof) with
  | None => Some false
  | Some c_s =>
      if (length proof <? 32)%nat then None
      else
        match stored_key (xor_bytes (take 32 proof) c_s) with
        | None => Some false
        | Some s_k => if (length s_key <? 32)%nat then None else Some (bool_decide (take 32 s_key = take 32 s_k))
        end
  end.

(** The buffer of [pgagroal_base64_decode], zeroed behind what was decoded. *)
Definition base64_buffer (encoded : list Z) : list Z :=
  let decoded := base64_decode K encoded in
  decoded ++ replicate ((length encoded * 3) / 4 + 1 - length decoded) 0.

(** [server_signature], with a password or with the server key. *)
Definition server_signature (password : option (list Z)) (salt : list Z) (iterations : Z) (s_key : list Z)
  (bare first without_proof : list Z) : option (list Z) :=
  s_k ← match password with
        | Some password =>
            s_p ← salted_password password salt iterations; salted_password_key s_p (str "Server Key")
        | None => Some s_key
        end;
  hmac_sha256 K s_k (auth_message bare first without_proof).

(** ** The messages of a client *)

(** The index after the second comma. *)
Fixpoint gs2_end (bs : list Z) (i : Z) (commas : nat) : option Z :=
  match bs with
  | [] => None
  | b :: bs =>
      if b =? chr "," then
        match commas with O => gs2_end bs (i + 1) 1 | _ => Some (i + 1) end
      else gs2_end bs (i + 1) commas
  end.

Record initial_response := InitialResponse {
  ir_plus : bool; ir_gs2_header : list Z; ir_bare : list Z; ir_nounce : list Z }.

(** The block of [client_scram256] that reads the SASLInitialResponse. *)
Definition read_initial (tls : bool) (msg : message) : option initial_response :=
  if m_length msg <=? 26 then None
  else
    mechanism ← c_string (drop 5 (m_data msg));
    let client_plus := bool_decide (mechanism = str "SCRAM-SHA-256-PLUS") in
    let header := 5 + len mechanism + 1 + 4 in
    if m_length msg <=? header then None
    else
      let ir := drop (Z.to_nat header) (m_data msg) in
      gs2_length ← gs2_end ir 0 0;
      if 64 <? gs2_length then None
      else if client_plus && (negb tls || negb (gs2_length =? 24) || negb (bytes_at ir 0 (str "p=tls-server-end-point,,")))
      then None
      else if negb client_plus && tls && (ir !!! O =? chr "y") then None
      else
        let bare := upto_nul (drop (Z.to_nat gs2_length) ir) in
        nounce ← get_scram_attribute (chr "r") bare;
        Some (InitialResponse client_plus (take (Z.to_nat gs2_length) ir) bare nounce).

(** What stands before the first [,p=]. *)
Fixpoint before_proof (bs : list Z) : option (list Z) :=
  match bs with
  | b :: bs' => if bytes_at bs 0 (str ",p=") then Some [] else r ← before_proof bs'; Some (b :: r)
  | [] => None
  end.

Record final_response := FinalResponse { fr_proof : list Z; fr_without_proof : list Z; fr_binding : list Z }.

(** The block that reads the client-final-message. *)
Definition read_final (msg : message) : option final_response :=
  if m_length msg <? 62 then None
  else
    let cf := drop 5 (m_data msg) in
    proof ← get_scram_attribute (chr "p") cf;
    without_proof ← before_proof cf;
    binding ← get_scram_attribute (chr "c") cf;
    Some (FinalResponse (base64_decode K proof) (upto_nul without_proof) (base64_decode K binding)).

(** The loop around the first read: a client may close its connection and come back with
    the password later. *)
Fixpoint read_retry (tries : nat) (tls : bool) : conv (option message) :=
  m <- ask (ReadMsg Client tls) ;;
  match m with
  | Some m => Ret (Some m)
  | None =>
      in_time <- ask TimeLeft ;;
      if in_time then
        valid <- ask (SocketValid Client) ;;
        if valid then match tries with O => More | S tries => read_retry tries tls end else Ret None
      else Ret None
  end.

(** ** pgagroal as the server of a client *)

Definition client_trust : conv Z := Ret AUTH_SUCCESS.

(** [client_cert]: the certificate of the peer, whether it was verified, and its common name. *)
Definition client_cert (tls : bool) (username : list Z) : conv Z :=
  let bad_certificate :=
    write Client tls (write_bad_certificate false username) ;;;
    write Client tls write_empty ;;; Ret AUTH_BAD_PASSWORD in
  if negb tls then bad_certificate
  else
    cert <- ask PeerCert ;;
    match cert with
    | Some (true, Some cn) => if bool_decide (cn = username) then Ret AUTH_SUCCESS else bad_certificate
    | _ => bad_certificate
    end.

Definition client_password (tries : nat) (tls : bool) (username password : list Z) : conv Z :=
  ok <- write Client tls (write_auth_password false) ;;
  if negb ok then Ret AUTH_ERROR
  else
    m <- read_retry tries tls ;;
    match m with
    | None => Ret AUTH_ERROR
    | Some m =>
        answer <- need (c_string (drop 5 (m_data m))) ;;
        if negb (bool_decide (answer = password)) then
          write Client tls (write_bad_password false username) ;;; Ret AUTH_BAD_PASSWORD
        else Ret AUTH_SUCCESS
    end.

(** [r=<client><server>,s=<salt>,i=4096] in a buffer of 89 bytes. *)
Definition server_first (client_nounce server_nounce base64_salt : list Z) : list Z :=
  snprintf 89 (str "r=" ++ client_nounce ++ server_nounce ++ str ",s=" ++ base64_salt ++ str ",i=4096").

(** The end of [client_scram256], after the proof of the client has been read. *)
Definition check_proof (tls : bool) (password salt bare first : list Z) (fr : final_response) : conv Z :=
  password_prep <- need (sasl_prep (Some password)) ;;
  match client_proof password_prep salt 4096 bare first (fr_without_proof fr) with
  | None => Ret AUTH_ERROR
  | Some proof =>
      if negb (bool_decide (fr_proof fr = proof)) then Ret AUTH_BAD_PASSWORD
      else
        match server_signature (Some password_prep) salt 4096 [] bare first (fr_without_proof fr) with
        | None => Ret AUTH_ERROR
        | Some signature =>
            ok <- write Client tls (create_auth_scram256_final false (base64_encode K signature)) ;;
            Ret (if ok then AUTH_SUCCESS else AUTH_ERROR)
        end
  end.

Definition client_scram256 (tries : nat) (tls : bool) (password : list Z) : conv Z :=
  ok <- write Client tls (write_auth_scram256 false tls true) ;;
  if negb ok then Ret AUTH_ERROR
  else
    m <- read_retry tries tls ;;
    match m ≫= read_initial tls with
    | None => Ret AUTH_ERROR
    | Some ir =>
        server_nounce <- generate_nounce ;;
        salt <- generate_salt ;;
        server_nounce <- need server_nounce ;;
        salt <- need salt ;;
        let base64_salt := base64_encode K salt in
        let first := server_first (ir_nounce ir) server_nounce base64_salt in
        ok <- write Client tls (create_auth_scram256_continue false (ir_nounce ir) server_nounce base64_salt) ;;
        if negb ok then Ret AUTH_ERROR
        else
          m <- ask (ReadMsg Client tls) ;;
          match m ≫= read_final with
          | None => Ret AUTH_ERROR
          | Some fr =>
              hash <- (if ir_plus ir then ask (CertHash Client) else Ret (Some [])) ;;
              match hash with
              | None => Ret AUTH_ERROR
              | Some hash =>
                  if negb (bool_decide (fr_binding fr = ir_gs2_header ir ++ hash)) then Ret AUTH_ERROR
                  else check_proof tls password salt (ir_bare ir) first fr
              end
          end
    end.

(** ** The messages of a server *)

(** [get_auth_type]: -1 when there is none.  [None] means that the answer depends on a byte
    after the message. *)
Definition get_auth_type (msg : message) : option Z :=
  if negb (m_kind msg =? chr "R") then Some (-1)
  else
    length ← read_int32 false (m_data msg) 1;
    type ← read_int32 false (m_data msg) 5;
    failed ← (if (type =? 0) && (8 <? m_length msg)
              then b ← read_byte (m_data msg) 9; Some (b =? chr "E") else Some false);
    if failed : bool then Some (-1)
    else if type =? 12 then
      let offset := 9 + (length - 8) in
      if offset <? m_length msg then
        peek ← read_byte (m_data msg) offset;
        if peek =? chr "R" then read_int32 false (m_data msg) (offset + 5) else Some type
      else Some type
    else Some type.

(** [compare_auth_response]: [true] is the return value 0. *)
Definition compare_auth_response (orig response : message) (auth_type : Z) : option bool :=
  if (auth_type =? 3) || (auth_type =? 5) then
    a ← c_string (drop 5 (m_data orig));
    b ← c_string (drop 5 (m_data response));
    Some (bool_decide (a = b))
  else if auth_type =? 10 then
    Some ((m_length orig =? m_length response) && bool_decide (m_data orig = m_data response))
  else Some false.

(** The mechanisms in an AuthenticationSASL message, from an offset on. *)
Fixpoint mechanism_offered (fuel : nat) (sasl : list Z) (name : list Z) : bool :=
  match fuel, sasl with
  | S fuel, _ :: _ =>
      let mechanism := upto_nul sasl in
      if len mechanism =? 0 then false
      else if bool_decide (mechanism = name) then true
      else mechanism_offered fuel (drop (length mechanism + 1) sasl) name
  | _, _ => false
  end.

(** [scram_mechanism_offered]; the buffer of the slot is zero after the message. *)
Definition scram_mechanism_offered (sasl name : list Z) : bool :=
  mechanism_offered (length sasl) (drop 9 sasl) name.

(** The mechanisms that [scram_strip_channel_binding] keeps, each with its zero. *)
Fixpoint kept_mechanisms (fuel : nat) (sasl : list Z) : option (list Z) :=
  match fuel, sasl with
  | S fuel, b :: _ =>
      if b =? 0 then Some []
      else
        mechanism ← c_string sasl;
        rest ← kept_mechanisms fuel (drop (length mechanism + 1) sasl);
        Some (if bool_decide (mechanism = str "SCRAM-SHA-256-PLUS") then rest else mechanism ++ [0] ++ rest)
  | _, [] => Some []
  | O, _ => None
  end.

(** [scram_strip_channel_binding]: the message is rewritten in place and gets shorter. *)
Definition scram_strip_channel_binding (msg : message) : option message :=
  if negb (m_kind msg =? chr "R") || (m_length msg <? 9) then Some msg
  else
    type ← read_int32 false (m_data msg) 5;
    if negb (type =? 10) then Some msg
    else
      kept ← kept_mechanisms (length (m_data msg)) (drop 9 (m_data msg));
      let data := take 9 (m_data msg) ++ kept ++ [0] in
      data ← write_int32 false data 1 (len data - 1);
      Some (Message (m_kind msg) (len data) data).

(** ** pgagroal as the client of a server *)

(** A message is kept in the slot. *)
Definition keep (i : nat) (m : message) (c : connection) : connection :=
  set_c_security_messages (<[i := m_data m]> (c_security_messages c))
    (set_c_security_lengths (<[i := m_length m]> (c_security_lengths c)) c).

(** [memset] of every [security_messages] of the slot. *)
Definition clear_messages (c : connection) : connection :=
  set_c_security_messages (replicate NUMBER_OF_SECURITY_MESSAGES []) c.

Definition kept (i : nat) (c : connection) : option message :=
  create_message (c_security_messages c !!! i) (c_security_lengths c !!! i).

Definition server_trust (c : connection) : conv (Z * connection) :=
  Ret (AUTH_SUCCESS, set_c_has_security SECURITY_TRUST c).

Definition server_password (tls : bool) (password : option (list Z)) (c : connection) : conv (Z * connection) :=
  password <- need password ;;
  msg <- need (create_auth_password_response false password) ;;
  ok <- ask (WriteMsg Backend tls msg) ;;
  if negb ok then Ret (AUTH_ERROR, c)
  else if SECURITY_BUFFER_SIZE <? m_length msg then Ret (AUTH_ERROR, c)
  else
    let c := keep 1 msg c in
    auth_msg <- ask (ReadMsg Backend tls) ;;
    auth_msg <- need auth_msg ;;
    if SECURITY_BUFFER_SIZE <? m_length auth_msg then Ret (AUTH_ERROR, c)
    else
      auth_response <- need (get_auth_type auth_msg) ;;
      if auth_response =? 0 then Ret (AUTH_SUCCESS, set_c_has_security SECURITY_PASSWORD (keep 2 auth_msg c))
      else Ret (AUTH_BAD_PASSWORD, c).

(** The attributes of the server-first-message, when there is no error among them. *)
Record server_first_message := ServerFirst { sf_nounce : list Z; sf_salt : list Z; sf_iteration : Z }.

Definition read_server_first (msg : message) : option server_first_message :=
  let input := drop 9 (m_data msg) in
  match get_scram_attribute (chr "e") input with
  | Some _ => None
  | None =>
      nounce ← get_scram_attribute (chr "r") input;
      salt ← get_scram_attribute (chr "s") input;
      i ← get_scram_attribute (chr "i") input;
      iteration ← scram_parse_iterations i;
      Some (ServerFirst nounce (base64_decode K salt) iteration)
  end.

(** The last message of the server, checked against the signature of the code. *)
Definition check_signature (tls : bool) (password salt : list Z) (iteration : Z) (bare first client_final : list Z)
  (c : connection) : conv (Z * connection) :=
  msg <- ask (ReadComplete Backend tls) ;;
  match msg with
  | None => Ret (AUTH_ERROR, c)
  | Some msg =>
      if SECURITY_BUFFER_SIZE <? m_length msg then Ret (AUTH_ERROR, c)
      else
        let c := keep 4 msg c in
        sasl_final <- loop (extract_message (S (length (m_data msg))) (chr "R") msg) ;;
        match sasl_final with
        | None => Ret (AUTH_ERROR, c)
        | Some sasl_final =>
            if m_length sasl_final <=? 11 then Ret (AUTH_ERROR, c)
            else
              let received := base64_decode K (drop 11 (m_data sasl_final)) in
              match server_signature (Some password) salt iteration [] bare first client_final with
              | None => Ret (AUTH_ERROR, c)
              | Some signature =>
                  if negb (bool_decide (received = signature)) then Ret (AUTH_BAD_PASSWORD, c)
                  else Ret (AUTH_SUCCESS, set_c_has_security SECURITY_SCRAM256 c)
              end
        end
  end.

(** [server_scram256] from the client-final-message on; [hash] is that of the certificate. *)
Definition send_proof (tls use_plus : bool) (password client_nounce : list Z) (sasl_response msg : message)
  (sf : server_first_message) (hash : list Z) (c : connection) : conv (Z * connection) :=
  let client_final :=
    if use_plus
    then snprintf 256 (str "c=" ++ base64_encode K (str "p=tls-server-end-point,," ++ hash) ++ str ",r=" ++ sf_nounce sf)
    else snprintf 58 (str "c=biws,r=" ++ sf_nounce sf) in
  let bare := if use_plus then snprintf 128 (str "n=,r=" ++ client_nounce) else drop 26 (m_data sasl_response) in
  let first := drop 9 (m_data msg) in
  match client_proof password (sf_salt sf) (sf_iteration sf) bare first client_final with
  | None => Ret (AUTH_ERROR, c)
  | Some proof =>
      response <- need (create_auth_scram256_continue_response false client_final (base64_encode K proof)) ;;
      let c := keep 3 response c in
      ok <- ask (WriteMsg Backend tls response) ;;
      if negb ok then Ret (AUTH_ERROR, c)
      else check_signature tls password (sf_salt sf) (sf_iteration sf) bare first client_final c
  end.

(** [server_scram256]; [binding] and [required] are the [channel_binding] of the server. *)
Definition server_scram256 (tls binding required : bool) (password : option (list Z)) (c : connection)
  : conv (Z * connection) :=
  match sasl_prep password with
  | None => Ret (AUTH_ERROR, c)
  | Some password =>
      client_nounce <- generate_nounce ;;
      let use_plus := tls && binding &&
        scram_mechanism_offered (c_security_messages c !!! O) (str "SCRAM-SHA-256-PLUS") in
      if negb use_plus && required then Ret (AUTH_ERROR, c)
      else
        client_nounce <- need client_nounce ;;
        sasl_response <- need (if use_plus then create_auth_scram256_plus_response false client_nounce
                               else create_auth_scram256_response false client_nounce) ;;
        let c := keep 1 sasl_response c in
        ok <- ask (WriteMsg Backend tls sasl_response) ;;
        if negb ok then Ret (AUTH_ERROR, c)
        else
          msg <- ask (ReadComplete Backend tls) ;;
          match msg with
          | None => Ret (AUTH_ERROR, c)
          | Some msg =>
              if SECURITY_BUFFER_SIZE <? m_length msg then Ret (AUTH_ERROR, c)
              else if (m_data msg !!! O =? chr "E") || (m_length msg <=? 9) then Ret (AUTH_ERROR, c)
              else
                let c := keep 2 msg c in
                match read_server_first msg with
                | None => Ret (AUTH_ERROR, c)
                | Some sf =>
                    hash <- (if use_plus then ask (CertHash Backend) else Ret (Some [])) ;;
                    match hash with
                    | None => Ret (AUTH_ERROR, c)
                    | Some hash =>
                        send_proof tls use_plus password client_nounce sasl_response msg sf hash c
                    end
                end
          end
  end.

(** The message of the slot that the parameters of the server came with. *)
Definition final_index (has_security : Z) : option nat :=
  if has_security =? SECURITY_TRUST then Some 0%nat
  else if has_security =? SECURITY_PASSWORD then Some 2%nat
  else if has_security =? SECURITY_SCRAM256 then Some 4%nat
  else None.

(** The end of [server_authenticate] and [server_passthrough]: an error after the
    authentication is found, the key of the backend is kept.  [None] is the error. *)
Definition backend_key (c : connection) : conv (option connection) :=
  match final_index (c_has_security c) with
  | None => Ret (Some c)
  | Some i =>
      smsg <- need (kept i c) ;;
      emsg <- loop (extract_message (S (length (m_data smsg))) (chr "E") smsg) ;;
      match emsg with
      | Some _ => Ret None
      | None =>
          kmsg <- loop (extract_message (S (length (m_data smsg))) (chr "K") smsg) ;;
          match kmsg with
          | None => Ret (Some c)
          | Some kmsg =>
              pid <- need (read_int32 false (m_data kmsg) 5) ;;
              secret <- need (read_int32 false (m_data kmsg) 9) ;;
              Ret (Some (set_c_backend_secret secret (set_c_backend_pid pid c)))
          end
      end
  end.

Definition server_authenticate (tls binding required : bool) (msg : message) (auth_type : Z)
  (password : option (list Z)) (c : connection) : conv (Z * connection) :=
  let c := clear_messages c in
  if SECURITY_BUFFER_SIZE <? m_length msg then Ret (AUTH_ERROR, c)
  else
    let c := keep 0 msg c in
    r <- (if auth_type =? SECURITY_TRUST then server_trust c
          else if auth_type =? SECURITY_PASSWORD then server_password tls password c
          else if auth_type =? SECURITY_SCRAM256 then server_scram256 tls binding required password c
          else Ret (AUTH_ERROR, c)) ;;
    let '(ret, c) := r in
    k <- backend_key c ;;
    match k with
    | None => Ret (AUTH_ERROR, set_c_has_security SECURITY_INVALID c)
    | Some c => Ret (ret, c)
    end.

(** [server_passthrough]: the messages are relayed between the client and the server.  The
    second half of a SCRAM exchange goes to the server without TLS. *)
Definition relay_scram (c_tls : bool) (msg : message) (c : connection) : conv (option message * connection) :=
  if SECURITY_BUFFER_SIZE <? m_length msg then Ret (None, c)
  else
    let c := keep 2 msg c in
    ok <- ask (WriteMsg Client c_tls msg) ;;
    if negb ok then Ret (None, c)
    else
      msg <- ask (ReadMsg Client c_tls) ;;
      match msg with
      | None => Ret (None, c)
      | Some msg =>
          if SECURITY_BUFFER_SIZE <? m_length msg then Ret (None, c)
          else
            let c := keep 3 msg c in
            ok <- ask (WriteMsg Backend false msg) ;;
            if negb ok then Ret (None, c)
            else msg <- ask (ReadMsg Backend false) ;; Ret (msg, c)
      end.

(** The exchange of a client that is not trusted; [true] is success. *)
Definition relay (c_tls s_tls : bool) (auth_type : Z) (c : connection) : conv (bool * connection) :=
  msg <- ask (ReadMsg Client c_tls) ;;
  match msg with
  | None => Ret (false, c)
  | Some msg =>
      if SECURITY_BUFFER_SIZE <? m_length msg then Ret (false, c)
      else
        let c := keep 1 msg c in
        ok <- ask (WriteMsg Backend s_tls msg) ;;
        if negb ok then Ret (false, c)
        else
          msg <- ask (ReadMsg Backend s_tls) ;;
          match msg with
          | None => Ret (false, c)
          | Some msg =>
              r <- (if auth_type =? SECURITY_SCRAM256 then relay_scram c_tls msg c else Ret (Some msg, c)) ;;
              match r with
              | (None, c) => Ret (false, c)
              | (Some msg, c) =>
                  auth_response <- need (get_auth_type msg) ;;
                  if (auth_response =? 0) && (SECURITY_BUFFER_SIZE <? m_length msg) then Ret (false, c)
                  else
                    let c := if auth_response =? 0
                             then set_c_has_security auth_type
                                    (keep (if auth_type =? SECURITY_SCRAM256 then 4 else 2) msg c)
                             else c in
                    ok <- ask (WriteMsg Client c_tls msg) ;;
                    Ret (ok && (auth_response =? 0), c)
              end
          end
  end.

Definition server_passthrough (c_tls s_tls : bool) (msg : message) (auth_type : Z) (c : connection)
  : conv (bool * connection) :=
  let c := clear_messages c in
  if SECURITY_BUFFER_SIZE <? m_length msg then Ret (false, c)
  else
    msg <- need (if auth_type =? SECURITY_SCRAM256 then scram_strip_channel_binding msg else Some msg) ;;
    let c := keep 0 msg c in
    ok <- ask (WriteMsg Client c_tls msg) ;;
    if negb ok then Ret (false, c)
    else
      r <- (if negb (auth_type =? SECURITY_TRUST) then relay c_tls s_tls auth_type c
            else Ret (true, set_c_has_security SECURITY_TRUST c)) ;;
      let '(ok, c) := r in
      if negb ok then Ret (false, c)
      else
        k <- backend_key c ;;
        match k with
        | None => Ret (false, set_c_has_security SECURITY_INVALID c)
        | Some c => Ret (true, c)
        end.

(** [client_ok]: what the server said after its authentication, for the client.  [true] is
    success. *)
Definition client_ok (c_tls : bool) (c : connection) : conv bool :=
  match final_index (c_has_security c) with
  | None => Ret false
  | Some i =>
      let skip := if c_has_security c =? SECURITY_SCRAM256 then 55 else 0 in
      let size := c_security_lengths c !!! i - skip in
      data <- need (region (c_security_messages c !!! i) skip size) ;;
      ask (WriteMsg Client c_tls (Message (chr "R") size data))
  end.
End exchanges.
