(* ===== verification/ScramFacts.v ===== *)
(** * SCRAM between two pgagroals

    The server side of an exchange ([client_scram256]) and the client side
    ([server_authenticate]) run against each other: every message that one of them builds
    is taken apart by the other, with and without channel binding. *)

From Stdlib Require Import Ascii.
From S2P Require Import Prelude Wire Frames Message MessageFacts MessageStream Text Config Hba Scram.

Local Open Scope Z_scope.

(** A property of every byte of a literal. *)
Ltac literal := unfold text, bytes_ok; vm_compute str; repeat (apply Forall_cons_2; [by vm_compute|]); apply Forall_nil_2.

(** ** Attributes *)

(** A byte of a value: not the end of a string and not a comma. *)
Definition plain_byte (b : Z) : Prop := 0 < b < 256 /\ b <> chr ",".

Definition attribute (kv : Z * list Z) : list Z := kv.1 :: chr "=" :: kv.2.

Fixpoint attributes (kvs : list (Z * list Z)) : list Z :=
  match kvs with
  | [] => []
  | [kv] => attribute kv
  | kv :: kvs => attribute kv ++ chr "," :: attributes kvs
  end.

Definition plain_attribute (kv : Z * list Z) : Prop := plain_byte kv.1 /\ Forall plain_byte kv.2.

Lemma attribute_plain (kv : Z * list Z) : plain_attribute kv -> Forall plain_byte (attribute kv).
Proof. intros [H1 H2]. unfold attribute. repeat apply Forall_cons_2; try done. Qed.

Lemma tokens_end (t cur : list Z) : Forall plain_byte t -> cur ++ t <> [] -> tokens (chr ",") t cur = [cur ++ t].
Proof.
  intros H. revert cur. induction H as [|b t [_ Hb] _ IH]; intros cur Hn; cbn [tokens].
  - rewrite app_nil_r in *. by destruct cur.
  - rewrite (proj2 (Z.eqb_neq _ _) Hb), IH; rewrite <- app_assoc; [done|]. by destruct cur.
Qed.

Lemma tokens_comma (t cur rest : list Z) :
  Forall plain_byte t -> cur ++ t <> [] -> tokens (chr ",") (t ++ chr "," :: rest) cur = (cur ++ t) :: tokens (chr ",") rest [].
Proof.
  intros H. revert cur. induction H as [|b t [_ Hb] _ IH]; intros cur Hn; cbn [tokens app].
  - rewrite Z.eqb_refl, app_nil_r in *. by destruct cur.
  - rewrite (proj2 (Z.eqb_neq _ _) Hb), IH; rewrite <- app_assoc; [done|]. by destruct cur.
Qed.

Lemma tokens_attributes (kvs : list (Z * list Z)) :
  Forall plain_attribute kvs -> tokens (chr ",") (attributes kvs) [] = map attribute kvs.
Proof.
  induction 1 as [|kv kvs Hp Hs IH]; [done|]. destruct kvs as [|kv' kvs].
  - cbn [attributes map]. rewrite tokens_end by (done || by apply attribute_plain). done.
  - change (attributes (kv :: kv' :: kvs)) with (attribute kv ++ chr "," :: attributes (kv' :: kvs)).
    rewrite tokens_comma by (done || by apply attribute_plain). rewrite IH. done.
Qed.

Lemma upto_nul_app (bs rest : list Z) : Forall (fun b => b <> 0) bs -> upto_nul (bs ++ rest) = bs ++ upto_nul rest.
Proof.
  induction 1 as [|b bs Hb _ IH]; [done|]. cbn [app upto_nul]. rewrite (proj2 (Z.eqb_neq _ _) Hb).
  by change ((fix go (bs : list Z) := _) ?l) with (upto_nul l) in *; rewrite IH.
Qed.

Lemma upto_nul_whole (bs : list Z) : Forall (fun b => b <> 0) bs -> upto_nul bs = bs.
Proof. intros H. rewrite <- (app_nil_r bs) at 1. rewrite upto_nul_app by done. apply app_nil_r. Qed.

Lemma attributes_text (kvs : list (Z * list Z)) : Forall plain_attribute kvs -> Forall (fun b => b <> 0) (attributes kvs).
Proof.
  induction 1 as [|kv kvs Hp Hs IH]; [done|].
  assert (Forall (fun b => b <> 0) (attribute kv)) as Ha.
  { eapply Forall_impl; [by apply attribute_plain|]. intros b [? _]. lia. }
  destruct kvs as [|kv' kvs]; [done|].
  change (attributes (kv :: kv' :: kvs)) with (attribute kv ++ chr "," :: attributes (kv' :: kvs)).
  apply Forall_app_2; [done|]. by apply Forall_cons_2.
Qed.

(** The first attribute with the name is found. *)
Lemma get_attribute (a : Z) (kvs : list (Z * list Z)) :
  Forall plain_attribute kvs -> get_scram_attribute a (attributes kvs) = snd <$> List.find (fun kv => kv.1 =? a) kvs.
Proof.
  intros H. unfold get_scram_attribute. rewrite upto_nul_whole by by apply attributes_text.
  rewrite tokens_attributes by done. clear H. induction kvs as [|kv kvs IH]; [done|].
  cbn [map find_attribute attribute List.find]. rewrite (proj2 (Z.eqb_eq _ _) eq_refl), andb_true_r.
  by destruct (kv.1 =? a).
Qed.

Lemma before_proof_plain (t rest : list Z) :
  Forall plain_byte t -> before_proof (t ++ rest) = (t ++.) <$> before_proof rest.
Proof.
  induction 1 as [|b t [_ Hb] _ IH]; [cbn [app]; by destruct (before_proof rest)|]. cbn [app before_proof].
  unfold bytes_at. rewrite bool_decide_eq_false_2 by (intros E; simpl in E; injection E as E1 _; by apply Hb). rewrite IH.
  by destruct (before_proof rest).
Qed.

(** What precedes the proof, when the attribute before it is not a proof itself. *)
Lemma before_proof_final (c r p : list Z) :
  Forall plain_byte c -> Forall plain_byte r ->
  before_proof (attributes [(chr "c", c); (chr "r", r); (chr "p", p)]) = Some (attributes [(chr "c", c); (chr "r", r)]).
Proof.
  intros Hc Hr.
  change (attributes [(chr "c", c); (chr "r", r); (chr "p", p)])
    with (attribute (chr "c", c) ++ (chr "," :: attribute (chr "r", r) ++ chr "," :: attribute (chr "p", p))).
  rewrite before_proof_plain by (apply attribute_plain; by split; [vm_compute|]).
  change (before_proof (chr "," :: attribute (chr "r", r) ++ chr "," :: attribute (chr "p", p)))
    with (s ← before_proof (attribute (chr "r", r) ++ chr "," :: attribute (chr "p", p)); Some (chr "," :: s)).
  rewrite before_proof_plain by (apply attribute_plain; by split; [vm_compute|]).
  assert (before_proof (chr "," :: attribute (chr "p", p)) = Some []) as ->.
  { cbn [attribute before_proof]. unfold bytes_at. by rewrite bool_decide_eq_true_2. }
  cbn [fmap option_fmap option_map mbind option_bind]. by rewrite app_nil_r.
Qed.

(** ** What OpenSSL promises *)

Definition b64_char (b : Z) : Prop :=
  65 <= b <= 90 \/ 97 <= b <= 122 \/ 48 <= b <= 57 \/ b = 43 \/ b = 47 \/ b = 61.

(** HMAC-SHA-256 and SHA-256 give 32 bytes, and base64 has the alphabet, the length and
    the inverse of RFC 4648. *)
Class CryptoLaws (K : crypto) : Prop := {
  hmac_total (k m : list Z) : exists r, hmac_sha256 K k m = Some r /\ length r = 32%nat /\ bytes_ok r;
  sha256_total (m : list Z) : exists r, sha256 K m = Some r;
  base64_inverse (x : list Z) : bytes_ok x -> base64_decode K (base64_encode K x) = x;
  base64_alphabet (x : list Z) : bytes_ok x -> Forall b64_char (base64_encode K x);
  base64_length (x : list Z) : length (base64_encode K x) = (4 * ((length x + 2) / 3))%nat;
  base64_gs2 : base64_encode K (str "n,,") = str "biws" }.

Lemma b64_plain (s : list Z) : Forall b64_char s -> Forall plain_byte s.
Proof.
  intros Hs. eapply Forall_impl; [exact Hs|]. intros b H. unfold plain_byte. change (chr ",") with 44. unfold b64_char in H. lia.
Qed.

Lemma lxor_byte (a b : Z) : 0 <= a < 256 -> 0 <= b < 256 -> 0 <= Z.lxor a b < 256.
Proof.
  intros Ha Hb. assert (0 <= Z.lxor a b) as H by (apply Z.lxor_nonneg; lia). split; [done|].
  apply (Z.bounded_iff_bits_nonneg 8); [lia|done|]. intros l Hl. rewrite Z.lxor_spec.
  rewrite (proj1 (Z.bounded_iff_bits_nonneg 8 a ltac:(lia) ltac:(lia)) ltac:(lia) l Hl).
  by rewrite (proj1 (Z.bounded_iff_bits_nonneg 8 b ltac:(lia) ltac:(lia)) ltac:(lia) l Hl).
Qed.

Lemma xor_bytes_ok (a b : list Z) : bytes_ok a -> bytes_ok b -> bytes_ok (xor_bytes a b).
Proof.
  unfold xor_bytes. intros Ha. revert b. induction Ha as [|x a Hx _ IH]; intros b Hb; [by constructor|].
  destruct Hb as [|y b Hy Hb]; [by constructor|]. cbn [zip_with]. apply Forall_cons_2; [by apply lxor_byte|by apply IH].
Qed.

Section laws.
Context (K : crypto) `{HK : !CryptoLaws K}.

Lemma salt_rounds_total (n : nat) (p prev r : list Z) : exists s, salt_rounds K n p prev r = Some s.
Proof.
  revert prev r; induction n as [|n IH]; intros prev r; cbn [salt_rounds]; [eauto|].
  destruct (hmac_total p prev) as (u & -> & _). apply IH.
Qed.

Lemma salted_total (p salt : list Z) (i : Z) : exists s, salted_password K p salt i = Some s.
Proof.
  unfold salted_password. destruct (hmac_total p (salt ++ host_bytes false 4 (swap 1))) as (u & -> & _).
  apply salt_rounds_total.
Qed.

Lemma client_proof_total (p salt : list Z) (i : Z) (a b c : list Z) :
  exists r, client_proof K p salt i a b c = Some r /\ length r = 32%nat /\ bytes_ok r.
Proof.
  unfold client_proof, salted_password_key, stored_key. destruct (salted_total p salt i) as [s ->]. cbn [mbind option_bind].
  destruct (hmac_total s (str "Client Key")) as (ck & -> & Hl & Hb). cbn [mbind option_bind].
  destruct (sha256_total ck) as [sk ->]. cbn [mbind option_bind].
  destruct (hmac_total sk (auth_message a b c)) as (cs & -> & Hl' & Hb'). cbn [mbind option_bind].
  eexists; split; [done|]. split; [|by apply xor_bytes_ok]. unfold xor_bytes. rewrite length_zip_with. lia.
Qed.

Lemma server_signature_total (p salt : list Z) (i : Z) (k a b c : list Z) :
  exists r, server_signature K (Some p) salt i k a b c = Some r /\ length r = 32%nat /\ bytes_ok r.
Proof.
  unfold server_signature, salted_password_key. destruct (salted_total p salt i) as [s ->]. cbn [mbind option_bind].
  destruct (hmac_total s (str "Server Key")) as (sk & -> & _). cbn [mbind option_bind]. apply hmac_total.
Qed.

Lemma base64_plain (x : list Z) : bytes_ok x -> Forall plain_byte (base64_encode K x).
Proof. intros H. by apply b64_plain, base64_alphabet. Qed.

(** ** The messages of one side as the other side reads them *)

Lemma message_payload (f : Z * list Z) (n : nat) : drop (5 + n) (m_data (as_message f)) = drop n f.2.
Proof.
  cbn [m_data as_message]. rewrite frame_be32. rewrite <- drop_drop. by f_equal.
Qed.

Lemma message_length (f : Z * list Z) : m_length (as_message f) = 5 + len f.2.
Proof. cbn [m_length as_message]. rewrite length_frame. unfold len. lia. Qed.

Definition bare_of (nounce : list Z) : list Z := attributes [(chr "n", []); (chr "r", nounce)].

Lemma bare_plain (n : list Z) : Forall plain_byte n -> Forall plain_attribute [(chr "n", []); (chr "r", n)].
Proof. intros H. repeat apply Forall_cons_2; try apply Forall_nil_2; split; try done; by vm_compute. Qed.

Lemma bare_text (n : list Z) : Forall plain_byte n -> Forall (fun b => b <> 0) (bare_of n).
Proof. intros H. by apply attributes_text, bare_plain. Qed.

Lemma bare_nounce (n : list Z) : Forall plain_byte n -> get_scram_attribute (chr "r") (bare_of n) = Some n.
Proof. intros H. unfold bare_of. by rewrite get_attribute by by apply bare_plain. Qed.

Lemma read_initial_response (tls : bool) (n : list Z) :
  Forall plain_byte n -> length n = 24%nat ->
  read_initial tls (as_message (chr "p", str "SCRAM-SHA-256" ++ [0] ++ be32 32 ++ str "n,,n=,r=" ++ n))
  = Some (InitialResponse false (str "n,,") (bare_of n) n).
Proof.
  intros Hn Hl. unfold read_initial. rewrite message_length. cbn [snd].
  assert (len (str "SCRAM-SHA-256" ++ [0] ++ be32 32 ++ str "n,,n=,r=" ++ n) = 50) as ->.
  { rewrite !len_app. unfold len at 5. rewrite Hl. by vm_compute. }
  cbn [snd fst]. change (5 + 50 <=? 26) with false. cbv iota.
  rewrite (message_payload _ 0). rewrite drop_0. cbn [snd app].
  rewrite (c_string_text (str "SCRAM-SHA-256")) by literal.
  cbn [mbind option_bind]. rewrite bool_decide_eq_false_2 by (by vm_compute).
  change (5 + 50 <=? 5 + len (str "SCRAM-SHA-256") + 1 + 4) with false. cbv iota.
  change (Z.to_nat (5 + len (str "SCRAM-SHA-256") + 1 + 4)) with (5 + 18)%nat.
  rewrite message_payload. cbn [snd].
  change (drop 18 (str "SCRAM-SHA-256" ++ 0 :: be32 32 ++ str "n,,n=,r=" ++ n)) with (str "n,,n=,r=" ++ n).
  change (gs2_end (str "n,,n=,r=" ++ n) 0 0) with (Some 3). cbn [mbind option_bind].
  change (64 <? 3) with false. cbn [andb negb].
  replace (tls && ((str "n,,n=,r=" ++ n) !!! 0%nat =? chr "y")) with false by (by destruct tls).
  change (drop (Z.to_nat 3) (str "n,,n=,r=" ++ n)) with (bare_of n).
  rewrite upto_nul_whole by by apply bare_text. rewrite bare_nounce by done. done.
Qed.

Lemma read_initial_plus (n : list Z) :
  Forall plain_byte n -> length n = 24%nat ->
  read_initial true (as_message (chr "p", str "SCRAM-SHA-256-PLUS" ++ [0] ++ be32 (29 + len n) ++
                                  str "p=tls-server-end-point,,n=,r=" ++ n))
  = Some (InitialResponse true (str "p=tls-server-end-point,,") (bare_of n) n).
Proof.
  intros Hn Hl. unfold read_initial. rewrite message_length. cbn [snd].
  assert (len n = 24) as -> by (unfold len; by rewrite Hl).
  assert (len (str "SCRAM-SHA-256-PLUS" ++ [0] ++ be32 (29 + 24) ++ str "p=tls-server-end-point,,n=,r=" ++ n) = 76) as ->.
  { rewrite !len_app. unfold len at 5. rewrite Hl. by vm_compute. }
  cbn [snd fst]. change (5 + 76 <=? 26) with false. cbv iota.
  rewrite (message_payload _ 0). rewrite drop_0. cbn [snd app].
  rewrite (c_string_text (str "SCRAM-SHA-256-PLUS")) by literal.
  cbn [mbind option_bind]. rewrite bool_decide_eq_true_2 by done.
  change (5 + 76 <=? 5 + len (str "SCRAM-SHA-256-PLUS") + 1 + 4) with false. cbv iota.
  change (Z.to_nat (5 + len (str "SCRAM-SHA-256-PLUS") + 1 + 4)) with (5 + 23)%nat.
  rewrite message_payload. cbn [snd].
  change (drop 23 (str "SCRAM-SHA-256-PLUS" ++ 0 :: be32 (29 + 24) ++ str "p=tls-server-end-point,,n=,r=" ++ n))
    with (str "p=tls-server-end-point,,n=,r=" ++ n).
  change (gs2_end (str "p=tls-server-end-point,,n=,r=" ++ n) 0 0) with (Some 24). cbn [mbind option_bind].
  change (64 <? 24) with false. cbn [andb negb orb]. change (24 =? 24) with true. cbn [negb orb].
  unfold bytes_at. rewrite bool_decide_eq_true_2 by done. cbn [negb].
  change (drop (Z.to_nat 24) (str "p=tls-server-end-point,,n=,r=" ++ n)) with (bare_of n).
  rewrite upto_nul_whole by by apply bare_text. rewrite bare_nounce by done. done.
Qed.

Definition first_of (cn sn salt64 : list Z) : list Z :=
  attributes [(chr "r", cn ++ sn); (chr "s", salt64); (chr "i", str "4096")].

Lemma first_text (cn sn salt64 : list Z) :
  str "r=" ++ cn ++ sn ++ str ",s=" ++ salt64 ++ str ",i=4096" = first_of cn sn salt64.
Proof. unfold first_of. cbn [attributes attribute fst snd app]. by rewrite <- !app_assoc. Qed.

Lemma server_first_whole (cn sn salt64 : list Z) :
  (length cn + length sn + length salt64 <= 76)%nat -> server_first cn sn salt64 = first_of cn sn salt64.
Proof.
  intros H. unfold server_first, snprintf. rewrite first_text. apply take_ge.
  rewrite <- first_text, !length_app. cbn [length str map String.list_ascii_of_string]. lia.
Qed.

Lemma first_plain (cn sn salt64 : list Z) :
  Forall plain_byte cn -> Forall plain_byte sn -> Forall plain_byte salt64 ->
  Forall plain_attribute [(chr "r", cn ++ sn); (chr "s", salt64); (chr "i", str "4096")].
Proof.
  intros Hc Hs Hsalt. repeat apply Forall_cons_2; try apply Forall_nil_2; split; cbn [fst snd]; try done;
    try (by vm_compute); [by apply Forall_app_2|literal].
Qed.

Lemma continue_payload (f : list Z) (n : nat) : drop (9 + n) (m_data (as_message (chr "R", be32 11 ++ f))) = drop n f.
Proof.
  change (9 + n)%nat with (5 + (4 + n))%nat. rewrite message_payload. cbn [snd]. rewrite <- drop_drop. by f_equal.
Qed.

Lemma read_continue (cn sn salt : list Z) :
  Forall plain_byte cn -> Forall plain_byte sn -> bytes_ok salt ->
  read_server_first K (as_message (chr "R", be32 11 ++ first_of cn sn (base64_encode K salt)))
  = Some (ServerFirst (cn ++ sn) salt 4096).
Proof.
  intros Hc Hs Hsalt. pose proof (first_plain cn sn _ Hc Hs (base64_plain salt Hsalt)) as Hp.
  unfold read_server_first. rewrite (continue_payload _ 0), drop_0. unfold first_of.
  rewrite !get_attribute by done. cbn [List.find fst snd fmap option_fmap option_map].
  change (chr "r" =? chr "e") with false. change (chr "s" =? chr "e") with false. change (chr "i" =? chr "e") with false.
  change (chr "r" =? chr "r") with true. change (chr "r" =? chr "s") with false. change (chr "s" =? chr "s") with true.
  change (chr "r" =? chr "i") with false. change (chr "s" =? chr "i") with false. change (chr "i" =? chr "i") with true.
  cbv iota. cbn [fmap option_fmap option_map mbind option_bind snd].
  change (scram_parse_iterations (str "4096")) with (Some 4096). cbn [mbind option_bind].
  by rewrite base64_inverse.
Qed.

Definition final_of (binding nounce : list Z) : list Z := attributes [(chr "c", binding); (chr "r", nounce)].

Lemma read_proof (b nounce proof : list Z) :
  bytes_ok b -> Forall plain_byte nounce -> bytes_ok proof -> length nounce = 48%nat -> length proof = 32%nat ->
  read_final K (as_message (chr "p", final_of (base64_encode K b) nounce ++ str ",p=" ++ base64_encode K proof))
  = Some (FinalResponse proof (final_of (base64_encode K b) nounce) b).
Proof.
  intros Hb Hn Hp Hln Hlp. unfold read_final. rewrite message_length. cbn [snd].
  assert (final_of (base64_encode K b) nounce ++ str ",p=" ++ base64_encode K proof
          = attributes [(chr "c", base64_encode K b); (chr "r", nounce); (chr "p", base64_encode K proof)]) as ->.
  { unfold final_of. cbn [attributes attribute fst snd app]. by rewrite <- !app_assoc. }
  assert (Forall plain_attribute [(chr "c", base64_encode K b); (chr "r", nounce); (chr "p", base64_encode K proof)]) as Ha.
  { repeat apply Forall_cons_2; try apply Forall_nil_2; split; cbn [fst snd]; try done;
      try (by vm_compute); by apply base64_plain. }
  rewrite (proj2 (Z.ltb_ge _ _)).
  2: { unfold len. cbn [attributes attribute fst snd app length].
       unfold attribute. do 3 (rewrite ?length_app; cbn [length fst snd]). rewrite !base64_length, Hln, Hlp. change ((32 + 2) / 3)%nat with 11%nat. lia. }
  rewrite (message_payload _ 0), drop_0. cbn [snd].
  rewrite !get_attribute by done. rewrite before_proof_final by (done || by apply base64_plain).
  cbn [List.find fst snd fmap option_fmap option_map].
  change (chr "c" =? chr "p") with false. change (chr "r" =? chr "p") with false. change (chr "p" =? chr "p") with true.
  change (chr "c" =? chr "c") with true. cbv iota. cbn [fmap option_fmap option_map mbind option_bind snd].
  rewrite !base64_inverse by done. rewrite upto_nul_whole; [done|]. apply attributes_text.
  rewrite !Forall_cons in Ha. repeat apply Forall_cons_2; try apply Forall_nil_2; tauto.
Qed.

(** ** The last message *)

Lemma extract_single (type : Z) (f : Z * list Z) :
  frame_ok f -> extract_message (S (length (m_data (as_message f)))) type (as_message f)
  = Done (if type =? f.1 then Some (as_message f) else None).
Proof.
  intros Hf. pose proof (length_frame f) as Hl.
  pose proof (extract_message_frames [f] [] type f.1 (S (length (m_data (as_message f))))) as H.
  unfold frames in H. cbn [map concat app] in H. rewrite app_nil_r in H. unfold extract_message.
  etransitivity; [apply H|]; [by apply Forall_cons_2|destruct Hf as [_ Hf]; rewrite Hl; lia|cbn [length]; lia|].
  cbn [List.find]. by destruct (type =? f.1).
Qed.

Definition final_frame (signature : list Z) : Z * list Z := (chr "R", be32 12 ++ str "v=" ++ base64_encode K signature).

Lemma final_frame_length (signature : list Z) : length signature = 32%nat -> len (final_frame signature).2 = 50.
Proof.
  intros H. unfold final_frame. cbn [snd]. rewrite !len_app, len_be32. unfold len. rewrite base64_length, H. done.
Qed.

Lemma final_frame_ok (signature : list Z) : length signature = 32%nat -> frame_ok (final_frame signature).
Proof. intros H. split; [by vm_compute|]. pose proof (final_frame_length _ H) as Hl. unfold len in Hl. lia. Qed.

Lemma final_signature (signature : list Z) :
  bytes_ok signature -> base64_decode K (drop 11 (m_data (as_message (final_frame signature)))) = signature.
Proof.
  intros H. change 11%nat with (5 + (4 + 2))%nat. rewrite message_payload. unfold final_frame. cbn [snd].
  rewrite <- drop_drop. change (drop 4 (be32 12 ++ str "v=" ++ base64_encode K signature)) with (str "v=" ++ base64_encode K signature).
  change (drop 2 (str "v=" ++ base64_encode K signature)) with (base64_encode K signature). by apply base64_inverse.
Qed.
End laws.

(** ** Two sides *)

(** What a side of an exchange does next, with the messages that have arrived and the
    random bytes it will get; [hash] is that of the certificate of the connection. *)
Inductive move (A : Type) :=
| Ended (a : A)
| Sent (m : message) (p : conv A)
| Went (p : conv A) (inbox : list message) (random : list (list Z))
| Waits.
Arguments Ended {A} a.
Arguments Sent {A} m p.
Arguments Went {A} p inbox random.
Arguments Waits {A}.

Definition step {A} (hash : list Z) (p : conv A) (inbox : list message) (random : list (list Z)) : move A :=
  match p with
  | Ret a => Ended a
  | Crash => Waits
  | More => Waits
  | Call c k =>
      match c in call R return (R -> conv A) -> move A with
      | WriteMsg _ _ m => fun k => Sent m (k true)
      | ReadMsg _ _ => fun k => match inbox with m :: inbox => Went (k (Some m)) inbox random | [] => Waits end
      | ReadComplete _ _ => fun k => match inbox with m :: inbox => Went (k (Some m)) inbox random | [] => Waits end
      | RandBytes _ => fun k => match random with r :: random => Went (k (Some r)) inbox random | [] => Waits end
      | CertHash _ => fun k => Went (k (Some hash)) inbox random
      | _ => fun _ => Waits
      end k
  end.

Definition outcome {A} (p : conv A) : option A := match p with Ret a => Some a | _ => None end.

(** Both sides run until neither can go on: the results of those that have ended. *)
Fixpoint talk {A B} (fuel : nat) (hash : list Z) (p : conv A) (ip : list message) (rp : list (list Z))
  (q : conv B) (iq : list message) (rq : list (list Z)) : option (option A * option B) :=
  match fuel with
  | O => None
  | S fuel =>
      match step hash p ip rp with
      | Sent m p => talk fuel hash p ip rp q (iq ++ [m]) rq
      | Went p ip rp => talk fuel hash p ip rp q iq rq
      | _ =>
          match step hash q iq rq with
          | Sent m q => talk fuel hash p (ip ++ [m]) rp q iq rq
          | Went q iq rq => talk fuel hash p ip rp q iq rq
          | _ => Some (outcome p, outcome q)
          end
      end
  end.

Section steps.
Context {A B : Type} (fuel : nat) (hash : list Z) (p : conv A) (ip : list message) (rp : list (list Z))
  (q : conv B) (iq : list message) (rq : list (list Z)).

Lemma talk_front_sends (m : message) (p' : conv A) :
  step hash p ip rp = Sent m p' -> talk (S fuel) hash p ip rp q iq rq = talk fuel hash p' ip rp q (iq ++ [m]) rq.
Proof. cbn [talk]. by intros ->. Qed.

Lemma talk_front_goes (p' : conv A) (ip' : list message) (rp' : list (list Z)) :
  step hash p ip rp = Went p' ip' rp' -> talk (S fuel) hash p ip rp q iq rq = talk fuel hash p' ip' rp' q iq rq.
Proof. cbn [talk]. by intros ->. Qed.

Definition idle (m : move A) : bool := match m with Ended _ | Waits => true | _ => false end.

Lemma talk_back_sends (m : message) (q' : conv B) :
  idle (step hash p ip rp) = true -> step hash q iq rq = Sent m q' ->
  talk (S fuel) hash p ip rp q iq rq = talk fuel hash p (ip ++ [m]) rp q' iq rq.
Proof. cbn [talk]. intros Hi ->. by destruct (step hash p ip rp). Qed.

Lemma talk_back_goes (q' : conv B) (iq' : list message) (rq' : list (list Z)) :
  idle (step hash p ip rp) = true -> step hash q iq rq = Went q' iq' rq' ->
  talk (S fuel) hash p ip rp q iq rq = talk fuel hash p ip rp q' iq' rq'.
Proof. cbn [talk]. intros Hi ->. by destruct (step hash p ip rp). Qed.

Lemma talk_ends :
  idle (step hash p ip rp) = true ->
  match step hash q iq rq with Ended _ | Waits => true | _ => false end = true ->
  talk (S fuel) hash p ip rp q iq rq = Some (outcome p, outcome q).
Proof. cbn [talk]. intros Hi Hj. destruct (step hash p ip rp); try done; by destruct (step hash q iq rq). Qed.
End steps.

Ltac tidy := cbn [negb need bind ask app].
Ltac front_sends := erewrite talk_front_sends by reflexivity; tidy.
Ltac front_goes := erewrite talk_front_goes by reflexivity; tidy.
Ltac back_sends := erewrite talk_back_sends by reflexivity; tidy.
Ltac back_goes := erewrite talk_back_goes by reflexivity; tidy.

(** The part of [use_unpooled_connection] that answers the server. *)
Definition backend_login (K : crypto) (tls binding required : bool) (password : list Z) (c : connection)
  : conv (Z * connection) :=
  msg <- ask (ReadMsg Backend tls) ;;
  match msg with
  | None => Ret (AUTH_ERROR, c)
  | Some msg =>
      auth_type <- need (get_auth_type msg) ;;
      server_authenticate K tls binding required msg auth_type (Some password) c
  end.

Lemma read_retry_unfold (tries : nat) (tls : bool) :
  read_retry tries tls =
    (m <- ask (ReadMsg Client tls) ;;
     match m with
     | Some m => Ret (Some m)
     | None =>
         in_time <- ask TimeLeft ;;
         if in_time then
           valid <- ask (SocketValid Client) ;;
           if valid then match tries with O => More | S tries => read_retry tries tls end else Ret None
         else Ret None
     end).
Proof. by destruct tries. Qed.

Section exchange.
Context (K : crypto) `{HK : !CryptoLaws K}.
Context (tries : nat) (tls binding required : bool) (p1 p2 : list Z) (r1 r2 salt hash : list Z) (c : connection).
Context (Hp1 : sasl_prep (Some p1) = Some p1) (Hp2 : sasl_prep (Some p2) = Some p2).
Context (Hr1 : bytes_ok r1) (Hl1 : length r1 = 19%nat) (Hr2 : bytes_ok r2) (Hl2 : length r2 = 19%nat).
Context (Hsalt : bytes_ok salt) (Hls : length salt = 16%nat) (Hhash : bytes_ok hash) (Hlh : (length hash <= 64)%nat).
Context (Hreq : required = true -> tls = true /\ binding = true) (Hc : length (c_security_lengths c) = 5%nat).
Context (plus : bool) (Hplus : plus = tls && binding).

Let cn := base64_encode K (take 18 r2).
Let sn := base64_encode K (take 18 r1).
Let first := first_of cn sn (base64_encode K salt).
Let gs2 := if plus then str "p=tls-server-end-point,," ++ hash else str "n,,".
Let final := final_of (base64_encode K gs2) (cn ++ sn).

Let offer := as_message (chr "R", be32 10 ++ (if true && tls then str "SCRAM-SHA-256-PLUS" ++ [0] else []) ++
                                  str "SCRAM-SHA-256" ++ [0] ++ [0]).
Let response := as_message (chr "p",
  if plus then str "SCRAM-SHA-256-PLUS" ++ [0] ++ be32 (29 + len cn) ++ str "p=tls-server-end-point,,n=,r=" ++ cn
  else str "SCRAM-SHA-256" ++ [0] ++ be32 32 ++ str "n,,n=,r=" ++ cn).

Lemma nounce_bytes (r : list Z) : bytes_ok r -> bytes_ok (take 18 r).
Proof. apply Forall_take. Qed.

Lemma nounce_length (r : list Z) : length r = 19%nat -> length (base64_encode K (take 18 r)) = 24%nat.
Proof. intros H. by rewrite base64_length, length_take, H. Qed.

Lemma cn_plain : Forall plain_byte cn.
Proof. by apply base64_plain, nounce_bytes. Qed.

Lemma sn_plain : Forall plain_byte sn.
Proof. by apply base64_plain, nounce_bytes. Qed.

Lemma gs2_bytes : bytes_ok gs2.
Proof. unfold gs2. destruct plus; [apply Forall_app_2; [|done]|]; literal. Qed.

Lemma offer_read :
  get_auth_type offer = Some 10 /\ (SECURITY_BUFFER_SIZE <? m_length offer) = false
  /\ scram_mechanism_offered (m_data offer) (str "SCRAM-SHA-256-PLUS") = tls.
Proof. unfold offer. destruct tls; by vm_compute. Qed.

Lemma response_made :
  (if plus then create_auth_scram256_plus_response false cn else create_auth_scram256_response false cn) = Some response.
Proof. unfold response. destruct plus; [apply scram256_plus_response_layout|apply scram256_response_layout]. Qed.

Lemma response_read :
  read_initial tls response
  = Some (InitialResponse plus (if plus then str "p=tls-server-end-point,," else str "n,,") (bare_of cn) cn).
Proof.
  unfold response. destruct plus.
  - symmetry in Hplus. apply andb_prop in Hplus as [-> _]. apply read_initial_plus; [apply cn_plain|by apply nounce_length].
  - apply read_initial_response; [apply cn_plain|by apply nounce_length].
Qed.

Lemma bare_sent : (if plus then snprintf 128 (str "n=,r=" ++ cn) else drop 26 (m_data response)) = bare_of cn.
Proof.
  unfold response. destruct plus.
  - unfold snprintf. change (bare_of cn) with (str "n=,r=" ++ cn). apply take_ge. rewrite length_app. unfold cn. rewrite nounce_length by done. simpl. lia.
  - change 26%nat with (5 + 21)%nat. rewrite message_payload. cbn [snd]. done.
Qed.

Lemma final_sent (h : list Z) :
  h = (if plus then hash else []) ->
  (if plus then snprintf 256 (str "c=" ++ base64_encode K (str "p=tls-server-end-point,," ++ h) ++ str ",r=" ++ cn ++ sn)
   else snprintf 58 (str "c=biws,r=" ++ cn ++ sn)) = final.
Proof.
  intros ->.
  assert (length (cn ++ sn) = 48%nat) as Hl.
  { rewrite length_app. unfold cn, sn. by rewrite !nounce_length. }
  unfold final, gs2, snprintf. destruct plus.
  - change (final_of ?b ?n) with (str "c=" ++ b ++ str ",r=" ++ n).
    apply take_ge. rewrite length_app, (length_app (base64_encode _ _)), (length_app (str ",r=")), Hl, base64_length, length_app.
    change (length (str "p=tls-server-end-point,,")) with 24%nat. change (length (str "c=")) with 2%nat.
    change (length (str ",r=")) with 3%nat. assert ((24 + length hash + 2) / 3 <= 30)%nat; [|lia].
    apply Nat.Div0.div_le_upper_bound. lia.
  - rewrite base64_gs2. change (final_of (str "biws") (cn ++ sn)) with (str "c=biws,r=" ++ cn ++ sn).
    apply take_ge. rewrite length_app, Hl. simpl. lia.
Qed.

(** The two sides after the server-first-message. *)
Let front_tail : conv Z :=
  m <- ask (ReadMsg Client tls) ;;
  match m ≫= read_final K with
  | None => Ret AUTH_ERROR
  | Some fr =>
      h <- (if plus then ask (CertHash Client) else Ret (Some [])) ;;
      match h with
      | None => Ret AUTH_ERROR
      | Some h =>
          if negb (bool_decide (fr_binding fr = (if plus then str "p=tls-server-end-point,," else str "n,,") ++ h))
          then Ret AUTH_ERROR else check_proof K tls p1 salt (bare_of cn) first fr
      end
  end.

(** The end of [server_authenticate]. *)
Let keep_key (r : Z * connection) : conv (Z * connection) :=
  let '(ret, c) := r in
  k <- backend_key c ;;
  match k with
  | None => Ret (AUTH_ERROR, set_c_has_security SECURITY_INVALID c)
  | Some c => Ret (ret, c)
  end.

Let back_tail (c : connection) : conv (Z * connection) :=
  bind (match client_proof K p2 salt 4096 (bare_of cn) first final with
        | None => Ret (AUTH_ERROR, c)
        | Some proof =>
            response <- need (create_auth_scram256_continue_response false final (base64_encode K proof)) ;;
            let c := keep 3 response c in
            ok <- ask (WriteMsg Backend tls response) ;;
            if negb ok then Ret (AUTH_ERROR, c)
            else check_signature K tls p2 salt 4096 (bare_of cn) first final c
        end) keep_key.

Let proof_of (p : list Z) := client_proof K p salt 4096 (bare_of cn) first final.
Let signature_of (p : list Z) := server_signature K (Some p) salt 4096 [] (bare_of cn) first final.

(** The binding that the server reads is the one it expects. *)
Lemma binding_agrees (n : nat) (proof : list Z) (q : conv (Z * connection)) :
  proof_of p2 = Some proof ->
  exists k, (k <= 2)%nat /\
  talk (2 + n) hash front_tail [as_message (chr "p", final ++ str ",p=" ++ base64_encode K proof)] [] q [] []
  = talk (k + n) hash (check_proof K tls p1 salt (bare_of cn) first (FinalResponse proof final gs2)) [] [] q [] [].
Proof.
  intros Hp. destruct (client_proof_total K p2 salt 4096 (bare_of cn) first final) as (proof' & Hp' & Hl & Hb).
  fold (proof_of p2) in Hp'. rewrite Hp in Hp'. injection Hp' as <-.
  assert (length (cn ++ sn) = 48%nat) as Hn. { rewrite length_app. unfold cn, sn. by rewrite !nounce_length. }
  unfold front_tail. change (2 + n)%nat with (S (S n)). tidy. front_goes.
  cbn [mbind option_bind]. unfold final at 1. rewrite (read_proof K);
    [|apply gs2_bytes|apply Forall_app_2; [apply cn_plain|apply sn_plain]|done|done|done].
  destruct plus.
  - exists 0%nat. split; [lia|]. tidy. front_goes. cbn [fr_binding]. unfold gs2. rewrite bool_decide_eq_true_2 by done. done.
  - exists 1%nat. split; [lia|]. tidy. cbn [fr_binding]. unfold gs2. rewrite app_nil_r, bool_decide_eq_true_2 by done. done.
Qed.

Lemma kept_keep (i : nat) (f : Z * list Z) (c1 : connection) :
  frame_ok f -> (i < length (c_security_lengths c1))%nat -> (i < length (c_security_messages c1))%nat ->
  kept i (keep i (as_message f) c1) = Some (as_message f).
Proof.
  intros Hf H1 H2. unfold kept, keep. cbn [c_security_messages c_security_lengths set_c_security_messages set_c_security_lengths].
  rewrite !list_lookup_total_insert_eq by done. unfold create_message.
  destruct (frame_header [] [] f 0 Hf eq_refl) as (Hb & _ & Hr). cbn [app] in Hb, Hr. rewrite app_nil_r in Hb, Hr.
  cbn [m_data m_length as_message]. rewrite Hb. cbn [mbind option_bind].
  replace (Z.of_nat (length (frame f))) with (1 + (4 + Z.of_nat (length f.2))) by (rewrite length_frame; lia).
  rewrite Hr. cbn [mbind option_bind]. unfold as_message. do 2 f_equal. rewrite length_frame. lia.
Qed.

(** The client side goes on with its proof. *)
Lemma proof_sent (h : list Z) (c1 : connection) :
  h = (if plus then hash else []) ->
  bind (send_proof K tls plus p2 cn response (as_message (chr "R", be32 11 ++ first)) (ServerFirst (cn ++ sn) salt 4096) h c1)
    keep_key = back_tail c1.
Proof.
  intros Hh. unfold send_proof. cbn [sf_salt sf_iteration sf_nounce].
  rewrite (continue_payload first 0 : drop 9 (m_data (as_message (chr "R", be32 11 ++ first))) = _), drop_0.
  by rewrite bare_sent, (final_sent h Hh).
Qed.

(** The server side takes its own final message. *)
Lemma signature_checked (c1 : connection) (sig : list Z) :
  signature_of p1 = Some sig -> c_has_security c1 = SECURITY_INVALID -> length (c_security_lengths c1) = 5%nat ->
  length (c_security_messages c1) = 5%nat ->
  exists c', (signature_of p1 = signature_of p2 -> c_has_security c' = SECURITY_SCRAM256) /\
  forall n,
  talk (2 + n) hash (Ret AUTH_SUCCESS) [] []
    (bind (check_signature K tls p2 salt 4096 (bare_of cn) first final c1) keep_key) [as_message (final_frame K sig)] []
  = Some (Some AUTH_SUCCESS,
          Some (if bool_decide (signature_of p1 = signature_of p2) then AUTH_SUCCESS else AUTH_BAD_PASSWORD, c')).
Proof.
  intros Hsig Hinv Hcl Hcm. set (m := as_message (final_frame K sig)). set (c2 := keep 4 m c1).
  destruct (server_signature_total K p1 salt 4096 [] (bare_of cn) first final) as (sig' & Hs' & Hl & Hb).
  fold (signature_of p1) in Hs'. rewrite Hsig in Hs'. injection Hs' as <-.
  destruct (server_signature_total K p2 salt 4096 [] (bare_of cn) first final) as (sig2 & Hs2 & _).
  assert (forall type, extract_message (S (length (m_data m))) type m = Done (if type =? chr "R" then Some m else None)) as Hx.
  { intros type. unfold m. by rewrite extract_single by by apply final_frame_ok. }
  assert (m_length m = 55) as Hm. { unfold m. rewrite message_length, final_frame_length by done. done. }
  exists (if bool_decide (signature_of p1 = signature_of p2) then set_c_has_security SECURITY_SCRAM256 c2 else c2).
  split. { intros E. by rewrite bool_decide_eq_true_2. }
  intros n. unfold check_signature. change (2 + n)%nat with (S (S n)). tidy. back_goes. fold m. rewrite Hm.
  change (SECURITY_BUFFER_SIZE <? 55) with false. cbv iota. rewrite Hx. change (chr "R" =? chr "R") with true. cbn [loop bind].
  rewrite Hm. change (55 <=? 11) with false. cbv iota. rewrite (final_signature K sig Hb : base64_decode K (drop 11 (m_data m)) = sig).
  rewrite Hs2. fold c2. rewrite Hsig. fold (signature_of p2) in Hs2. rewrite Hs2.
  rewrite (bool_decide_ext (Some sig = Some sig2) (sig = sig2)) by (split; congruence).
  case_bool_decide as E; cbn [negb bind]; unfold keep_key.
  - subst sig2. unfold backend_key at 1. cbn [c_has_security set_c_has_security final_index].
    change (final_index SECURITY_SCRAM256) with (Some 4%nat). cbv iota.
    rewrite (kept_keep 4 (final_frame K sig) c1 (final_frame_ok K sig Hl) ltac:(lia) ltac:(lia)
             : kept 4 (set_c_has_security SECURITY_SCRAM256 c2) = Some m). cbn [need bind].
    rewrite !Hx. change (chr "E" =? chr "R") with false. change (chr "K" =? chr "R") with false. cbn [loop bind].
    by rewrite talk_ends.
  - unfold backend_key at 1. change (c_has_security c2) with (c_has_security c1). rewrite Hinv.
    change (final_index SECURITY_INVALID) with (@None nat). cbn [bind]. by rewrite talk_ends.
Qed.

Lemma talk_tail (c1 : connection) :
  c_has_security c1 = SECURITY_INVALID -> length (c_security_lengths c1) = 5%nat -> length (c_security_messages c1) = 5%nat ->
  exists c', (signature_of p1 = signature_of p2 -> c_has_security c' = SECURITY_SCRAM256) /\
  forall n, talk (8 + n) hash front_tail [] [] (back_tail c1) [] []
  = Some (if bool_decide (proof_of p1 = proof_of p2)
          then (Some AUTH_SUCCESS,
                Some (if bool_decide (signature_of p1 = signature_of p2) then AUTH_SUCCESS else AUTH_BAD_PASSWORD, c'))
          else (Some AUTH_BAD_PASSWORD, None)).
Proof.
  intros Hinv Hcl Hcm.
  destruct (client_proof_total K p1 salt 4096 (bare_of cn) first final) as (proof1 & Hq1 & _).
  destruct (client_proof_total K p2 salt 4096 (bare_of cn) first final) as (proof2 & Hq2 & _).
  destruct (server_signature_total K p1 salt 4096 [] (bare_of cn) first final) as (sig & Hs1 & _).
  set (m := as_message (chr "p", final ++ str ",p=" ++ base64_encode K proof2)).
  destruct (signature_checked (keep 3 m c1) sig Hs1) as (c' & Hc' & Ht).
  { done. } { by cbn; rewrite length_insert. } { by cbn; rewrite length_insert. }
  exists c'. split; [done|]. intros n. unfold back_tail. rewrite Hq2, scram256_continue_response_layout. fold m.
  change (8 + n)%nat with (S (7 + n)). tidy. back_sends.
  destruct (binding_agrees (5 + n) proof2 (bind (check_signature K tls p2 salt 4096 (bare_of cn) first final (keep 3 m c1)) keep_key) Hq2) as (k & Hk & E).
  fold m in E. change (2 + (5 + n))%nat with (7 + n)%nat in E. rewrite E. clear E.
  unfold check_proof. rewrite Hp1. tidy. cbn [fr_without_proof fr_proof].
  unfold proof_of. rewrite Hq1, Hq2. rewrite (bool_decide_ext (Some proof1 = Some proof2) (proof2 = proof1)) by (split; congruence).
  replace (k + (5 + n))%nat with (S (2 + (2 + k + n)))%nat by lia.
  destruct (bool_decide (proof2 = proof1)); cbn [negb].
  - rewrite Hs1. unfold write. rewrite scram256_final_layout. tidy. front_sends. apply Ht.
  - by rewrite talk_ends.
Qed.

Lemma talk_scram :
  c_has_security c = SECURITY_INVALID ->
  exists c', (signature_of p1 = signature_of p2 -> c_has_security c' = SECURITY_SCRAM256) /\
  talk 20 hash (client_scram256 K tries tls p1) [] [r1; salt] (backend_login K tls binding required p2 c) [] [r2]
  = Some (if bool_decide (proof_of p1 = proof_of p2)
          then (Some AUTH_SUCCESS,
                Some (if bool_decide (signature_of p1 = signature_of p2) then AUTH_SUCCESS else AUTH_BAD_PASSWORD, c'))
          else (Some AUTH_BAD_PASSWORD, None)).
Proof.
  intros Hinv. destruct offer_read as (Ho1 & Ho2 & Ho3).
  set (m := as_message (chr "R", be32 11 ++ first)).
  set (c1 := keep 2 m (keep 1 response (keep 0 offer (clear_messages c)))).
  destruct (talk_tail c1) as (c' & Hc' & Ht); [done|by cbn; rewrite !length_insert|done|].
  exists c'. split; [done|].
  unfold client_scram256, write, backend_login. rewrite auth_scram256_layout, read_retry_unfold. fold offer.
  tidy. front_sends. back_goes. fold offer.
  rewrite Ho1. tidy. unfold server_authenticate. rewrite Ho2.
  change (10 =? SECURITY_TRUST) with false. change (10 =? SECURITY_PASSWORD) with false.
  change (10 =? SECURITY_SCRAM256) with true. cbv iota. unfold server_scram256. rewrite Hp2. unfold generate_nounce. tidy.
  back_goes. fold cn.
  change (c_security_messages (keep 0 offer (clear_messages c)) !!! 0%nat) with (m_data offer). rewrite Ho3.
  assert (tls && binding && tls = plus) as -> by (rewrite Hplus; by destruct tls, binding).
  assert (negb plus && required = false) as -> by (rewrite Hplus; destruct required; [destruct Hreq as [-> ->]|]; by rewrite ?andb_false_r).
  rewrite response_made. tidy. back_sends.
  front_goes. cbn [mbind option_bind]. rewrite response_read. tidy. front_goes. unfold generate_salt. tidy. front_goes. fold sn.
  cbn [ir_nounce ir_plus ir_gs2_header ir_bare].
  rewrite scram256_continue_layout, first_text. fold first. fold m. tidy. front_sends. back_goes.
  assert (length cn = 24%nat /\ length sn = 24%nat) as [Hcn Hsn] by (split; by apply nounce_length).
  assert (length (base64_encode K salt) = 24%nat) as Hb by (by rewrite base64_length, Hls).
  rewrite server_first_whole by lia. fold first.
  assert (m_length m = 93) as ->.
  { unfold m. rewrite message_length. cbn [snd]. rewrite len_app, len_be32. unfold first. rewrite <- first_text.
    unfold len. rewrite !length_app, Hcn, Hsn, Hb. done. }
  change (SECURITY_BUFFER_SIZE <? 93) with false. change ((m_data m !!! 0%nat =? chr "E") || (93 <=? 9)) with false. cbv iota.
  rewrite (read_continue K cn sn salt cn_plain sn_plain Hsalt : read_server_first K m = _).
  fold c1. pose proof (fun h => proof_sent h c1) as Hp. fold m in Hp.
  destruct plus.
  - tidy. back_goes. etransitivity; [|exact (Ht 2%nat)]. f_equal. by apply (Hp hash).
  - tidy. etransitivity; [|exact (Ht 3%nat)]. f_equal. by apply (Hp []).
Qed.
End exchange.

(** What the two sides are given: passwords that SASLprep accepts, random bytes, the hash of
    a certificate and a new connection. *)
Record fresh_exchange (p1 p2 r1 r2 salt hash : list Z) (c : connection) : Prop := {
  fe_p1 : sasl_prep (Some p1) = Some p1;
  fe_p2 : sasl_prep (Some p2) = Some p2;
  fe_r1 : bytes_ok r1 /\ length r1 = 19%nat;
  fe_r2 : bytes_ok r2 /\ length r2 = 19%nat;
  fe_salt : bytes_ok salt /\ length salt = 16%nat;
  fe_hash : bytes_ok hash /\ (length hash <= 64)%nat;
  fe_connection : c_has_security c = SECURITY_INVALID /\ length (c_security_lengths c) = 5%nat }.

(** The proof that belongs to a password in the exchange with these nonces and salt. *)
Definition exchange_proof (K : crypto) (plus : bool) (r1 r2 salt hash p : list Z) : option (list Z) :=
  let cn := base64_encode K (take 18 r2) in
  let sn := base64_encode K (take 18 r1) in
  client_proof K p salt 4096 (bare_of cn) (first_of cn sn (base64_encode K salt))
    (final_of (base64_encode K (if plus then str "p=tls-server-end-point,," ++ hash else str "n,,")) (cn ++ sn)).

(** C12: when pgagroal authenticates itself with SCRAM-SHA-256 to another pgagroal, with or
    without TLS and channel binding, both accept each other when they have the same
    password, and the connection is marked for the pool; a password whose proof differs
    is refused. *)
Theorem scram_exchange (K : crypto) (HK : CryptoLaws K) (tries : nat) (tls binding required : bool)
  (p1 p2 r1 r2 salt hash : list Z) (c : connection)
  (Hf : fresh_exchange p1 p2 r1 r2 salt hash c) (Hreq : required = true -> tls = true /\ binding = true) :
  let talks := talk 20 hash (client_scram256 K tries tls p1) [] [r1; salt]
                 (backend_login K tls binding required p2 c) [] [r2] in
  (p1 = p2 -> exists c', talks = Some (Some AUTH_SUCCESS, Some (AUTH_SUCCESS, c')) /\ c_has_security c' = SECURITY_SCRAM256)
  /\ (exchange_proof K (tls && binding) r1 r2 salt hash p1 <> exchange_proof K (tls && binding) r1 r2 salt hash p2 ->
      talks = Some (Some AUTH_BAD_PASSWORD, None)).
Proof.
  destruct Hf as [Hp1 Hp2 [Hr1 Hl1] [Hr2 Hl2] [Hs Hls] [Hh Hlh] [Hi Hc]].
  destruct (talk_scram K tries tls binding required p1 p2 r1 r2 salt hash c Hp1 Hp2 Hr1 Hl1 Hr2 Hl2 Hs Hls Hh Hlh
              Hreq Hc (tls && binding) eq_refl Hi) as (c' & Hc' & Ht).
  cbv zeta. rewrite Ht. split.
  - intros ->. rewrite !bool_decide_eq_true_2 by done. eauto.
  - intros Hne. by rewrite bool_decide_eq_false_2.
Qed.

(** ** An instance *)

Definition b64_of (n : Z) : Z :=
  if n <? 26 then 65 + n else if n <? 52 then 71 + n else if n <? 62 then n - 4 else if n =? 62 then 43 else 47.

Definition of_b64 (c : Z) : Z :=
  if c =? 43 then 62 else if c =? 47 then 63 else if c <? 58 then c + 4 else if c <? 91 then c - 65 else c - 71.

Fixpoint encode64 (x : list Z) : list Z :=
  match x with
  | a :: b :: c :: r =>
      b64_of (a / 4) :: b64_of (a `mod` 4 * 16 + b / 16) :: b64_of (b `mod` 16 * 4 + c / 64) :: b64_of (c `mod` 64) :: encode64 r
  | [a; b] => [b64_of (a / 4); b64_of (a `mod` 4 * 16 + b / 16); b64_of (b `mod` 16 * 4); 61]
  | [a] => [b64_of (a / 4); b64_of (a `mod` 4 * 16); 61; 61]
  | [] => []
  end.

Fixpoint decode64 (s : list Z) : list Z :=
  match s with
  | p :: q :: r :: t :: s =>
      let a := of_b64 p * 4 + of_b64 q / 16 in
      let b := of_b64 q `mod` 16 * 16 + of_b64 r / 4 in
      let c := of_b64 r `mod` 4 * 64 + of_b64 t in
      if r =? 61 then [a] else if t =? 61 then [a; b] else a :: b :: c :: decode64 s
  | _ => []
  end.

Lemma b64_of_spec (n : Z) : 0 <= n < 64 -> of_b64 (b64_of n) = n /\ b64_of n <> 61 /\ b64_char (b64_of n).
Proof.
  intros H. unfold of_b64, b64_of, b64_char.
  repeat match goal with |- context [?a <? ?b] => destruct (Z.ltb_spec a b); try lia
                       | |- context [?a =? ?b] => destruct (Z.eqb_spec a b); try lia end.
Qed.

Lemma of_b64_of (n : Z) : 0 <= n < 64 -> of_b64 (b64_of n) = n.
Proof. apply b64_of_spec. Qed.

Lemma b64_of_pad (n : Z) : 0 <= n < 64 -> (b64_of n =? 61) = false.
Proof. intros H. by apply Z.eqb_neq, b64_of_spec. Qed.

(** Lists by groups of three. *)
Lemma list_ind3 (P : list Z -> Prop) :
  P [] -> (forall a, P [a]) -> (forall a b, P [a; b]) -> (forall a b c r, P r -> P (a :: b :: c :: r)) -> forall l, P l.
Proof.
  intros H0 H1 H2 H3 l. assert (forall n l, (length l <= n)%nat -> P l) as H; [|by apply (H (length l))].
  intros n; induction n as [|n IH]; intros [|a [|b [|c r]]] Hl; cbn [length] in Hl; auto; try lia.
  apply H3, IH. lia.
Qed.

Lemma divisions (a b c : Z) :
  0 <= a < 256 -> 0 <= b < 256 -> 0 <= c < 256 ->
  (0 <= a / 4 < 64 /\ 0 <= a `mod` 4 * 16 + b / 16 < 64 /\ 0 <= b `mod` 16 * 4 + c / 64 < 64 /\ 0 <= c `mod` 64 < 64)
  /\ (a / 4 * 4 + (a `mod` 4 * 16 + b / 16) / 16 = a
      /\ (a `mod` 4 * 16 + b / 16) `mod` 16 * 16 + (b `mod` 16 * 4 + c / 64) / 4 = b
      /\ (b `mod` 16 * 4 + c / 64) `mod` 4 * 64 + c `mod` 64 = c).
Proof. intros. Z.to_euclidean_division_equations. lia. Qed.

Lemma encode64_inverse (x : list Z) : bytes_ok x -> decode64 (encode64 x) = x.
Proof.
  induction x as [|a|a b|a b c r IH] using list_ind3; intros H; [done|..];
    unfold bytes_ok in H; rewrite !Forall_cons in H; destruct_and!.
  - pose proof (divisions a 0 0 ltac:(lia) ltac:(lia) ltac:(lia)) as [(? & ? & ? & ?) (Ha & _ & _)].
    rewrite Z.add_0_r in *. cbn [encode64 decode64].
    rewrite !of_b64_of by done. by rewrite Ha.
  - pose proof (divisions a b 0 ltac:(lia) ltac:(lia) ltac:(lia)) as [(? & ? & H5 & ?) (Ha & Hb & _)].
    rewrite Z.add_0_r in *. cbn [encode64 decode64].
    rewrite !of_b64_of by done. rewrite b64_of_pad by done.
    by rewrite Ha, Hb.
  - pose proof (divisions a b c ltac:(lia) ltac:(lia) ltac:(lia)) as [(? & ? & ? & ?) (Ha & Hb & Hc)].
    cbn [encode64 decode64]. rewrite !of_b64_of by done.
    rewrite !b64_of_pad by done. by rewrite Ha, Hb, Hc, IH.
Qed.

Lemma encode64_alphabet (x : list Z) : bytes_ok x -> Forall b64_char (encode64 x).
Proof.
  assert (b64_char 61) as Hpad by (unfold b64_char; lia).
  induction x as [|a|a b|a b c r IH] using list_ind3; intros H; [done|..];
    unfold bytes_ok in H; rewrite !Forall_cons in H; destruct_and!.
  - pose proof (divisions a 0 0 ltac:(lia) ltac:(lia) ltac:(lia)) as [(? & ? & ? & ?) _].
    rewrite Z.add_0_r in *. repeat apply Forall_cons_2; try apply Forall_nil_2; try done; by apply b64_of_spec.
  - pose proof (divisions a b 0 ltac:(lia) ltac:(lia) ltac:(lia)) as [(? & ? & ? & ?) _].
    rewrite Z.add_0_r in *. repeat apply Forall_cons_2; try apply Forall_nil_2; try done; by apply b64_of_spec.
  - pose proof (divisions a b c ltac:(lia) ltac:(lia) ltac:(lia)) as [(? & ? & ? & ?) _].
    repeat apply Forall_cons_2; try (by apply IH); by apply b64_of_spec.
Qed.

Lemma encode64_length (x : list Z) : length (encode64 x) = (4 * ((length x + 2) / 3))%nat.
Proof.
  induction x as [|a|a b|a b c r IH] using list_ind3; [done..|]. cbn [encode64 length]. rewrite IH.
  replace (S (S (S (length r))) + 2)%nat with (length r + 2 + 1 * 3)%nat by lia. rewrite Nat.div_add by done. lia.
Qed.

Definition sum (l : list Z) : Z := fold_right Z.add 0 l.

(** A checksum in place of the hash functions. *)
Definition toy : crypto :=
  Crypto (fun k m => Some (replicate 32 ((3 * sum k + sum m) `mod` 256))) (fun m => Some (replicate 32 ((7 + sum m) `mod` 256)))
    encode64 decode64.

#[export] Instance toy_laws : CryptoLaws toy.
Proof.
  split.
  - intros k m. eexists; split; [reflexivity|]. split; [apply length_replicate|].
    apply Forall_replicate, Z.mod_pos_bound. lia.
  - intros m. eexists. reflexivity.
  - apply encode64_inverse.
  - apply encode64_alphabet.
  - apply encode64_length.
  - by vm_compute.
Qed.

Definition new_connection : connection :=
  Connection "" "" "" true 0 false SECURITY_INVALID (replicate 5 0) (replicate 5 []) 0 0 (-1) 0 0 (-1) 7 0 [] false.

Lemma scram_exchange_witness :
  (exists c', talk 20 (replicate 32 5) (client_scram256 toy 0 true (str "secret")) [] [replicate 19 1; replicate 16 2]
                (backend_login toy true true true (str "secret") new_connection) [] [replicate 19 3]
              = Some (Some AUTH_SUCCESS, Some (AUTH_SUCCESS, c')) /\ c_has_security c' = SECURITY_SCRAM256)
  /\ talk 20 [] (client_scram256 toy 0 false (str "secret")) [] [replicate 19 1; replicate 16 2]
       (backend_login toy false true false (str "wrong") new_connection) [] [replicate 19 3]
     = Some (Some AUTH_BAD_PASSWORD, None).
Proof.
  assert (forall n b, 0 <= b < 256 -> bytes_ok (replicate n b)) as Hb by (intros n b H; by apply Forall_replicate).
  split.
  - apply (scram_exchange toy toy_laws 0 true true true (str "secret") (str "secret") (replicate 19 1) (replicate 19 3)
             (replicate 16 2) (replicate 32 5) new_connection); [|done|done].
    split; try (by vm_compute); try (split; [apply Hb; lia|done]). split; [apply Hb; lia|]. vm_compute. lia.
  - apply (scram_exchange toy toy_laws 0 false true false (str "secret") (str "wrong") (replicate 19 1) (replicate 19 3)
             (replicate 16 2) [] new_connection); [|done|by vm_compute].
    split; try (by vm_compute); try (split; [apply Hb; lia|done]). split; [apply Forall_nil_2|]. vm_compute. lia.
Defined.

(** The buffer of 89 bytes is too short for a nonce of more than 28 characters: the server
    checks the proof against a text that is not the one it has sent. *)
Lemma long_nounce_truncated (cn sn salt64 : list Z) :
  length sn = 24%nat -> length salt64 = 24%nat -> (28 < length cn)%nat -> server_first cn sn salt64 <> first_of cn sn salt64.
Proof.
  intros Hs Ht Hc E. apply (f_equal length) in E. revert E. unfold server_first, snprintf. rewrite first_text, length_take.
  rewrite <- first_text, !length_app, Hs, Ht. cbn [length str map String.list_ascii_of_string]. lia.
Qed.
