(* ===== verification/Pipeline.v ===== *)
(** * Pipelines and workers ([libpgagroal/pipeline_*.c], [libpgagroal/worker.c])

    A worker serves one client.  Its event loop calls the client handler of the pipeline
    when the client has sent something and the server handler when the server has; a
    handler may leave the loop.  What the calls of a handler answer (the pool, the
    sockets) is its input; what it does to the pool and to the sockets is the list of
    [action]s it returns.  The static variables of a pipeline and the [worker_io] of the
    client are its state.  [pipeline_transaction.c] comes first, then the two pipelines
    that keep one connection, and the end of the worker, which gives the connection
    back. *)

From S2P Require Import Prelude Wire Frames Message Config.
From Stdlib Require Import Ascii.

Local Open Scope Z_scope.

(** [WORKER_*]. *)
Inductive worker_code :=
| WORKER_SUCCESS | WORKER_FAILURE | WORKER_SHUTDOWN | WORKER_CLIENT_FAILURE
| WORKER_SERVER_FAILURE | WORKER_SERVER_FATAL | WORKER_FAILOVER.

(** What [pgagroal_recv_message] answers: the bytes of one read, the end, or an error. *)
Inductive recv := Got (b : Z) (bs : list Z) | GotZero | GotError.

Inductive action :=
| GetConnection (slot : option Z)
| ReturnConnection (slot : Z)
| KillConnection (slot : Z)
| Rollback (slot : Z)
| ResetQuery
| SetResetFailed (slot : Z)
| DeallocateAll
| ToServer (data : list Z)
| ToClient (data : list Z)
| WritePoolFull
| WriteClientFailover
| ServerFailover (slot : Z)
| IoStart
| IoStop
| DisconnectFd (fd : Z).

(** The settings that the pipelines read. *)
Record settings := Settings {
  track_prepared_statements : bool;
  failover : bool;
  server_reset_query_always : bool;
  reset_query_set : bool;   (** [server_reset_query[0] != '\0'] *)
  on_reset_failure : reset_behavior }.

(** [struct worker_io] of the client. *)
Record worker_io := WorkerIo { wi_server_fd : Z; wi_server_ssl : option Z; wi_slot : Z }.

(** ** The transaction pipeline *)

(** Its static variables, the watcher of the client, the exit code of the worker and
    whether the event loop goes on. *)
Record transaction := Transaction {
  slot : Z; in_tx : bool; deallocate : bool; fatal : bool; saw_x : bool; io_watcher_active : bool;
  fds : list Z; client_state : message_state; server_state : message_state;
  wi : worker_io; exit_code : worker_code; running : bool; queries : Z }.

Definition leave (code : worker_code) (t : transaction) : transaction :=
  Transaction (slot t) (in_tx t) (deallocate t) (fatal t) (saw_x t) (io_watcher_active t) (fds t)
    (client_state t) (server_state t) (wi t) code false (queries t).

Definition set_slot (s : Z) (t : transaction) : transaction :=
  Transaction s (in_tx t) (deallocate t) (fatal t) (saw_x t) (io_watcher_active t) (fds t)
    (client_state t) (server_state t) (wi t) (exit_code t) (running t) (queries t).

Definition set_deallocate (b : bool) (t : transaction) : transaction :=
  Transaction (slot t) (in_tx t) b (fatal t) (saw_x t) (io_watcher_active t) (fds t)
    (client_state t) (server_state t) (wi t) (exit_code t) (running t) (queries t).

Definition set_watcher (b : bool) (t : transaction) : transaction :=
  Transaction (slot t) (in_tx t) (deallocate t) (fatal t) (saw_x t) b (fds t)
    (client_state t) (server_state t) (wi t) (exit_code t) (running t) (queries t).

(** [transaction_start] for the connection [w] of the authentication, with the
    descriptors of all slots; [bound] tells whether the Unix socket of the worker
    was bound.  The event loop is started afterwards, which undoes its break. *)
Definition transaction_start (bound : bool) (connection_fds : list Z) (w : worker_io) : transaction * list action :=
  let t := Transaction (-1) false false false false false connection_fds zero_state zero_state w WORKER_FAILURE true 0 in
  if negb bound then (t, [])
  else
    (Transaction (-1) false false false false false connection_fds zero_state zero_state
       (WorkerIo (-1) (wi_server_ssl w) (-1)) WORKER_FAILURE true 0,
     [ReturnConnection (wi_slot w)]).

(** [transaction_stop]. *)
Definition transaction_stop (t : transaction) : transaction * list action :=
  if slot t =? -1 then (t, [])
  else
    let rb := if in_tx t then [Rollback (slot t)] else [] in
    let io := if io_watcher_active t then [IoStop] else [] in
    (set_slot (-1) (set_watcher false t), rb ++ io ++ [ReturnConnection (slot t)]).

(** [transaction_client_message]: the flag and the number of queries.  [pgagroal_strcmp]
    compares the name of the statement with the empty string, so that its first byte
    decides. *)
Definition transaction_client_message (cfg : settings) (kind : Z) (msg : list Z) (msglen : Z) (a : bool * Z) : bool * Z :=
  let d := if track_prepared_statements cfg && (kind =? chr "P") && (msg !!! 5%nat =? 0) then true else a.1 in
  let q := if (kind =? chr "Q") || (kind =? chr "E") then a.2 + 1 else a.2 in
  (d, q).

(** What [pgagroal_get_connection] answers: a slot and its TLS session, or an error.  It works on
    the static variable [slot] itself, and an error leaves there what the last attempt
    wrote: -1, or a slot that it took and set free or killed again. *)
Inductive got := GetDone (s : Z) (ssl : option Z) | GetFailed (left : Z).

(** What the calls of [transaction_client] answer: [pgagroal_get_connection], the bytes of the
    client, and the status of the write. *)
Record client_in := ClientIn { ci_get : got; ci_recv : recv; ci_send : Z }.

Section transaction.
Context (bigendian : bool) (cfg : settings).

(** The bytes of the client: parsed and sent on, unless they are a Terminate. *)
Definition client_bytes (t : transaction) (b : Z) (bs : list Z) (send : Z) : result (transaction * list action) :=
  let data := b :: bs in
  if negb (i8 b =? chr "X") || (0 <? payload_remaining (client_state t)) || (0 <? header_len (client_state t)) then
    match parse_message bigendian (transaction_client_message cfg) (client_state t) data (deallocate t, queries t) with
    | Done (st, (d, q)) =>
        let t := Transaction (slot t) (in_tx t) d (fatal t) (saw_x t) (io_watcher_active t) (fds t)
                   st (server_state t) (wi t) (exit_code t) (running t) q in
        if send =? MESSAGE_STATUS_ERROR then
          if failover cfg
          then Done (leave WORKER_FAILOVER t, [ToServer data; ServerFailover (slot t); WriteClientFailover])
          else Done (leave WORKER_SERVER_FAILURE t, [ToServer data])
        else Done (t, [ToServer data])
    | Undefined => Undefined
    | Running => Running
    end
  else
    Done (Transaction (slot t) (in_tx t) (deallocate t) (fatal t) true (io_watcher_active t) (fds t)
            (client_state t) (server_state t) (wi t) (exit_code t) false (queries t), []).

(** The part of [transaction_client] after a connection is there. *)
Definition client_receive (t : transaction) (i : client_in) : result (transaction * list action) :=
  match ci_recv i with
  | Got b bs => client_bytes t b bs (ci_send i)
  | GotZero => Done (leave (if saw_x t then WORKER_SUCCESS else WORKER_CLIENT_FAILURE) t, [])
  | GotError => Done (leave WORKER_CLIENT_FAILURE t, [])
  end.

Definition with_actions (pre : list action) (r : result (transaction * list action)) : result (transaction * list action) :=
  match r with
  | Done (t, acts) => Done (t, pre ++ acts)
  | Undefined => Undefined
  | Running => Running
  end.

(** [transaction_client]. *)
Definition transaction_client (t : transaction) (i : client_in) : result (transaction * list action) :=
  if slot t =? -1 then
    match ci_get i with
    | GetFailed s => Done (leave WORKER_SERVER_FAILURE (set_slot s t), [GetConnection None; WritePoolFull])
    | GetDone s ssl =>
        let t := Transaction s (in_tx t) (deallocate t) false (saw_x t) true (fds t) (client_state t) zero_state
                   (WorkerIo (fds t !!! Z.to_nat s) ssl s) (exit_code t) (running t) (queries t) in
        with_actions [GetConnection (Some s); IoStart] (client_receive t i)
    end
  else client_receive t i.

(** What the calls of [transaction_server] answer: whether the socket of the client is
    valid, the bytes of the server, the status of the write, the flag
    [reset_query_failed] of the slot, and whether the reset query and the return fail. *)
Record server_in := ServerIn {
  si_valid : bool; si_recv : recv; si_send : Z; si_reset_failed : bool; si_reset : bool; si_return : bool }.

(** The end of a transaction: the reset query, DEALLOCATE ALL, and the return. *)
Definition release_slot (t : transaction) (i : server_in) : transaction * list action :=
  let finish (t : transaction) (pre : list action) :=
    let dealloc := if deallocate t then [DeallocateAll] else [] in
    let t := set_deallocate false t in
    let acts := pre ++ dealloc ++ [ReturnConnection (slot t)] in
    if si_return i then (leave WORKER_SERVER_FAILURE t, acts) else (set_slot (-1) t, acts) in
  if server_reset_query_always cfg && reset_query_set cfg && negb (si_reset_failed i) then
    if si_reset i then
      match on_reset_failure cfg with
      | RESET_IGNORE => finish (set_deallocate false t) [ResetQuery; SetResetFailed (slot t)]
      | _ => (leave WORKER_SERVER_FAILURE (set_slot (-1) t), [ResetQuery; KillConnection (slot t)])
      end
    else finish (set_deallocate false t) [ResetQuery]
  else finish t [].

(** The bytes of the server. *)
Definition server_bytes (t : transaction) (data : list Z) (i : server_in) : result (transaction * list action) :=
  match parse_message bigendian pipeline_server_rfq (server_state t) data
          (Some (PipelineServerState (Some (in_tx t)) (Some false) (Some (fatal t)) 0)) with
  | Done (st, Some s) =>
      let saw_rfq := default false (p_saw_rfq s) in
      let t := Transaction (slot t) (default (in_tx t) (p_in_tx s)) (deallocate t) (default (fatal t) (p_fatal s))
                 (saw_x t) (io_watcher_active t) (fds t) (client_state t) st (wi t) (exit_code t) (running t) (queries t) in
      if negb (si_send i =? MESSAGE_STATUS_OK) then Done (leave WORKER_CLIENT_FAILURE t, [ToClient data])
      else if saw_rfq && negb (in_tx t) && negb (slot t =? -1) then
        let io := if io_watcher_active t then [IoStop] else [] in
        let t := set_watcher false t in
        if fatal t then Done (leave WORKER_SERVER_FATAL t, ToClient data :: io)
        else with_actions (ToClient data :: io) (Done (release_slot t i))
      else Done (t, [ToClient data])
  | Done (_, None) => Undefined
  | Undefined => Undefined
  | Running => Running
  end.

(** [transaction_server]; a server that closes its connection leaves the exit code. *)
Definition transaction_server (t : transaction) (i : server_in) : result (transaction * list action) :=
  if negb (si_valid i) then Done (leave WORKER_CLIENT_FAILURE t, [])
  else
    match si_recv i with
    | Got b bs => server_bytes t (b :: bs) i
    | GotZero => Done (leave (exit_code t) t, [])
    | GotError => Done (leave WORKER_SERVER_FAILURE t, [])
    end.

(** [accept_cb]: a message of the main process about the descriptor of a slot.
    [removable] is the test on the shared connection. *)
Definition accept_cb (id : Z) (s fd : Z) (removable : bool) (t : transaction) : transaction * list action :=
  let with_fd (fd : Z) := Transaction (slot t) (in_tx t) (deallocate t) (fatal t) (saw_x t) (io_watcher_active t)
    (<[Z.to_nat s := fd]> (fds t)) (client_state t) (server_state t) (wi t) (exit_code t) (running t) (queries t) in
  if id =? 3 then (with_fd fd, [])
  else if id =? 4 then
    if (fds t !!! Z.to_nat s =? fd) && removable then (with_fd 0, [DisconnectFd fd]) else (t, [])
  else (t, []).

(** The callbacks of the event loop, and [SIGQUIT]. *)
Inductive event := EClient (i : client_in) | EServer (i : server_in) | EShutdown.

Definition handle (t : transaction) (e : event) : result (transaction * list action) :=
  match e with
  | EClient i => transaction_client t i
  | EServer i => transaction_server t i
  | EShutdown => Done (leave WORKER_SHUTDOWN t, [])
  end.

(** The event loop: the server is watched while [io_watcher_active]. *)
Fixpoint transaction_loop (t : transaction) (es : list event) : result (transaction * list action) :=
  match es with
  | [] => Done (t, [])
  | e :: es =>
      if negb (running t) then Done (t, [])
      else if match e with EServer _ => negb (io_watcher_active t) | _ => false end then transaction_loop t es
      else
        match handle t e with
        | Done (t, acts) => with_actions acts (transaction_loop t es)
        | Undefined => Undefined
        | Running => Running
        end
  end.
End transaction.

(** ** The end of a worker *)

(** What the end of [pgagroal_worker] reads: the status of the authentication, the
    security of the connection, and whether the socket still answers. *)
Inductive auth_result := AUTH_SUCCESS | AUTH_BAD_PASSWORD | AUTH_ERROR | AUTH_TIMEOUT.

Record end_in := EndIn { ei_auth : auth_result; ei_security_invalid : bool; ei_socket_valid : bool; ei_answers : bool }.

(** "Return to pool", for the slot [s] that the worker holds after the event loop;
    [transactional] tells the pipeline, [stop] are the actions of its stop function. *)
Definition return_to_pool (transactional : bool) (code : worker_code) (s : Z) (stop : list action) (i : end_in) : list action :=
  if s =? -1 then []
  else
    stop ++
    (let auth_ok := match ei_auth i with AUTH_SUCCESS | AUTH_BAD_PASSWORD => true | _ => false end in
     let fine := match code with
                 | WORKER_SUCCESS | WORKER_CLIENT_FAILURE => true
                 | WORKER_FAILURE => negb (ei_security_invalid i)
                 | _ => false
                 end in
     let broken := match code with
                   | WORKER_SERVER_FAILURE | WORKER_SERVER_FATAL | WORKER_SHUTDOWN | WORKER_FAILOVER => true
                   | WORKER_FAILURE => ei_security_invalid i
                   | _ => false
                   end in
     if auth_ok && fine then if transactional then [] else [ReturnConnection s]
     else if broken then [KillConnection s]
     else if ei_socket_valid i && ei_answers i && negb (ei_security_invalid i) then [ReturnConnection s]
     else [KillConnection s]).

(** [pgagroal_worker] with the transaction pipeline, for a client that authenticated with
    the connection [w]: the pool actions of its whole life. *)
Definition transaction_worker (bigendian : bool) (cfg : settings) (bound : bool) (connection_fds : list Z) (w : worker_io)
  (es : list event) (security_invalid socket_valid answers : bool) : result (list action) :=
  let '(t, acts) := transaction_start bound connection_fds w in
  match transaction_loop bigendian cfg t es with
  | Done (t, acts') =>
      let s := wi_slot (wi t) in
      let '(t, acts'') := transaction_stop t in
      Done (acts ++ acts' ++ return_to_pool true (exit_code t) s acts''
              (EndIn AUTH_SUCCESS security_invalid socket_valid answers))
  | Undefined => Undefined
  | Running => Running
  end.

(** ** The session pipeline *)

Inductive client_mode := CLIENT_INIT | CLIENT_IDLE | CLIENT_ACTIVE | CLIENT_CHECK.

#[export] Instance client_mode_eq_dec : EqDecision client_mode.
Proof. solve_decision. Defined.

(** [struct client_session]. *)
Record client_session := ClientSession { cs_state : client_mode; cs_timestamp : Z }.

(** The static variables; the table is there when clients are disconnected after a time. *)
Record session := Session {
  ss_in_tx : bool; ss_client : message_state; ss_server : message_state; ss_saw_x : bool; ss_slot : nat;
  ss_table : option (list client_session); ss_exit : worker_code; ss_running : bool; ss_queries : Z }.

Definition set_client (now : Z) (m : client_mode) (s : session) : session :=
  Session (ss_in_tx s) (ss_client s) (ss_server s) (ss_saw_x s) (ss_slot s)
    (match ss_table s with Some l => Some (<[ss_slot s := ClientSession m now]> l) | None => None end)
    (ss_exit s) (ss_running s) (ss_queries s).

Definition client_active (now : Z) : session -> session := set_client now CLIENT_ACTIVE.
Definition client_inactive (now : Z) : session -> session := set_client now CLIENT_IDLE.

Definition session_leave (code : worker_code) (s : session) : session :=
  Session (ss_in_tx s) (ss_client s) (ss_server s) (ss_saw_x s) (ss_slot s) (ss_table s) code false (ss_queries s).

(** [session_initialize], [session_start] and [session_stop]. *)
Definition session_initialize (disconnect_client : Z) (max_connections : nat) (now : Z) : option (list client_session) :=
  if 0 <? disconnect_client then Some (replicate max_connections (ClientSession CLIENT_INIT now)) else None.

Definition session_start (table : option (list client_session)) (now : Z) (i : nat) : session :=
  set_client now CLIENT_IDLE (Session false zero_state zero_state false i table WORKER_FAILURE true 0).

Definition session_stop (now : Z) (s : session) : session := set_client now CLIENT_INIT s.

(** [session_client_message] counts the queries. *)
Definition session_client_message (kind : Z) (msg : list Z) (msglen : Z) (q : Z) : Z :=
  if (kind =? chr "Q") || (kind =? chr "E") then q + 1 else q.

Section session.
Context (bigendian : bool) (cfg : settings).

(** [session_client], at the times [t0] and [t1]. *)
Definition session_client (s : session) (t0 t1 : Z) (r : recv) (send : Z) : result (session * list action) :=
  let s := client_active t0 s in
  match r with
  | Got b bs =>
      let data := b :: bs in
      if negb (i8 b =? chr "X") || (0 <? payload_remaining (ss_client s)) || (0 <? header_len (ss_client s)) then
        match parse_message bigendian session_client_message (ss_client s) data (ss_queries s) with
        | Done (st, q) =>
            let s := Session (ss_in_tx s) st (ss_server s) (ss_saw_x s) (ss_slot s) (ss_table s) (ss_exit s) (ss_running s) q in
            if send =? MESSAGE_STATUS_ERROR then
              if failover cfg
              then Done (session_leave WORKER_FAILOVER (client_inactive t1 s),
                         [ToServer data; ServerFailover (Z.of_nat (ss_slot s)); WriteClientFailover])
              else Done (session_leave WORKER_SERVER_FAILURE (client_inactive t1 s), [ToServer data])
            else Done (client_inactive t1 s, [ToServer data])
        | Undefined => Undefined
        | Running => Running
        end
      else
        Done (client_inactive t1 (Session (ss_in_tx s) (ss_client s) (ss_server s) true (ss_slot s) (ss_table s) (ss_exit s)
                false (ss_queries s)), [])
  | GotZero =>
      Done (session_leave (if ss_saw_x s then WORKER_SUCCESS else WORKER_CLIENT_FAILURE) (client_inactive t1 s), [])
  | GotError => Done (session_leave WORKER_CLIENT_FAILURE (client_inactive t1 s), [])
  end.

(** [session_server]. *)
Definition session_server (s : session) (t0 t1 : Z) (r : recv) (send : Z) : result (session * list action) :=
  let s := client_active t0 s in
  match r with
  | Got b bs =>
      let data := b :: bs in
      match parse_message bigendian pipeline_server_rfq (ss_server s) data
              (Some (PipelineServerState (Some (ss_in_tx s)) None (Some false) 0)) with
      | Done (st, Some p) =>
          let s := Session (default (ss_in_tx s) (p_in_tx p)) (ss_client s) st (ss_saw_x s) (ss_slot s) (ss_table s)
                     (ss_exit s) (ss_running s) (ss_queries s) in
          if negb (send =? MESSAGE_STATUS_OK) then Done (session_leave WORKER_CLIENT_FAILURE (client_inactive t1 s), [ToClient data])
          else if default false (p_fatal p)
          then Done (client_inactive t1 (session_leave WORKER_SERVER_FATAL s), [ToClient data])
          else Done (client_inactive t1 s, [ToClient data])
      | Done (_, None) => Undefined
      | Undefined => Undefined
      | Running => Running
      end
  | GotZero => Done (session_leave (ss_exit s) (client_inactive t1 s), [])
  | GotError => Done (session_leave WORKER_SERVER_FAILURE (client_inactive t1 s), [])
  end.
End session.

(** One round of the loop of [session_periodic] for slot [i], used by process [pid]: the
    entry and whether the client is disconnected. *)
Definition periodic_slot (disconnect_client now : Z) (force : bool) (pid : Z) (c : client_session) : client_session * bool :=
  if disconnect_client <? now - cs_timestamp c then
    if pid =? 0 then (c, false)
    else if force then (c, true)
    else if decide (cs_state c = CLIENT_IDLE) then (ClientSession CLIENT_CHECK (cs_timestamp c), true)
    else (c, false)
  else (c, false).

(** [session_periodic]: the table and the slots whose clients are disconnected. *)
Fixpoint periodic_loop (disconnect_client now : Z) (force : bool) (i : nat) (pids : list Z) (l : list client_session)
  : list client_session * list nat :=
  match pids, l with
  | pid :: pids, c :: l =>
      let '(c, kill) := periodic_slot disconnect_client now force pid c in
      let '(l, kills) := periodic_loop disconnect_client now force (S i) pids l in
      (c :: l, if kill then i :: kills else kills)
  | _, _ => (l, [])
  end.

Definition session_periodic (disconnect_client now : Z) (force : bool) (pids : list Z) (table : option (list client_session))
  : option (list client_session) * list nat :=
  match table with
  | Some l => if 0 <? disconnect_client
              then let '(l, kills) := periodic_loop disconnect_client now force 0 pids l in (Some l, kills)
              else (table, [])
  | None => (table, [])
  end.

(** ** The performance pipeline *)

Record performance := Performance { pf_saw_x : bool; pf_exit : worker_code; pf_running : bool }.

Definition performance_client (p : performance) (r : recv) (send : Z) : performance * list action :=
  match r with
  | Got b bs =>
      if negb (i8 b =? chr "X") then
        if negb (send =? MESSAGE_STATUS_OK) then (Performance (pf_saw_x p) WORKER_SERVER_FAILURE false, [ToServer (b :: bs)])
        else (p, [ToServer (b :: bs)])
      else (Performance true (pf_exit p) (pf_running p), [])
  | GotZero => (Performance (pf_saw_x p) (if pf_saw_x p then WORKER_SUCCESS else WORKER_CLIENT_FAILURE) false, [])
  | GotError => (Performance (pf_saw_x p) WORKER_CLIENT_FAILURE false, [])
  end.

Definition performance_server (p : performance) (r : recv) (send : Z) : performance * list action :=
  match r with
  | Got b bs =>
      let data := b :: bs in
      if negb (send =? MESSAGE_STATUS_OK) then (Performance (pf_saw_x p) WORKER_CLIENT_FAILURE false, [ToClient data])
      else if (i8 b =? chr "E") && (12 <=? len data) && (i8 (data !!! 5%nat) =? chr "S") &&
              (bytes_at data 6 (str "FATAL") || bytes_at data 6 (str "PANIC"))
      then (Performance (pf_saw_x p) WORKER_SERVER_FATAL false, [ToClient data])
      else (p, [ToClient data])
  | GotZero => (Performance (pf_saw_x p) (pf_exit p) false, [])
  | GotError => (Performance (pf_saw_x p) WORKER_SERVER_FAILURE false, [])
  end.
