(* ===== verification/PipelineFacts.v ===== *)
(** * Facts about pipelines and workers

    A transaction worker holds at most one connection and gives each one back once, as
    long as the pool takes it; it gives it back when the server reports that no
    transaction is open.  The places where this breaks are stated as well. *)

From S2P Require Import Prelude Wire Frames Message MessageFacts MessageStream Config Pipeline.
From Stdlib Require Import Ascii.

Local Open Scope Z_scope.

(** ** The ledger of connections *)

(** The connection that is held after an action; none if it is taken while another one
    is held, or given back by a worker that does not hold it. *)
Definition ledger_step (h : option Z) (a : action) : option (option Z) :=
  match a with
  | GetConnection (Some s) => match h with None => Some (Some s) | Some _ => None end
  | ReturnConnection s | KillConnection s =>
      match h with Some s' => if s =? s' then Some None else None | None => None end
  | _ => Some h
  end.

Fixpoint ledger (h : option Z) (acts : list action) : option (option Z) :=
  match acts with
  | [] => Some h
  | a :: acts => h' ← ledger_step h a; ledger h' acts
  end.

Lemma ledger_app (h : option Z) (a b : list action) : ledger h (a ++ b) = h' ← ledger h a; ledger h' b.
Proof. revert h. induction a as [|x a IH]; intros h; [done|]. simpl. destruct (ledger_step h x); [apply IH|done]. Qed.

Definition held (t : transaction) : option Z := if slot t =? -1 then None else Some (slot t).

(** What the handlers keep: both parsers can go on, and the watcher of the client knows
    the connection that is held. *)
Record worker_ok (t : transaction) : Prop := {
  k_client : state_ok (client_state t);
  k_server : state_ok (server_state t);
  k_slot : slot t <> -1 -> wi_slot (wi t) = slot t }.

(** The pool hands out slots or fails, and takes connections back. *)
Definition event_ok (e : event) : Prop :=
  match e with
  | EClient i => match ci_get i with GetDone s _ => 0 <= s | GetFailed _ => True end
  | EServer i => si_return i = false
  | EShutdown => True
  end.

(** A handler ends and keeps the books. *)
Definition sound (t : transaction) (r : result (transaction * list action)) : Prop :=
  exists t' acts, r = Done (t', acts) /\ worker_ok t' /\ ledger (held t) acts = Some (held t').

(** The pool failed to give a connection: the worker holds none and ends, and its slot is what the call left. *)
Definition gave_up (e : event) (t : transaction) : Prop :=
  running t = false /\ exit_code t = WORKER_SERVER_FAILURE /\ exists i, e = EClient i /\ ci_get i = GetFailed (slot t).

(** A handler ends and keeps the books, or gave up. *)
Definition sound_or_up (t : transaction) (e : event) (r : result (transaction * list action)) : Prop :=
  sound t r \/ held t = None /\ exists t' acts, r = Done (t', acts) /\ gave_up e t' /\ ledger None acts = Some None.

Lemma leave_ok (code : worker_code) (t : transaction) : worker_ok t -> worker_ok (leave code t).
Proof. intros [H1 H2 H3]. by split. Qed.

Lemma held_leave (code : worker_code) (t : transaction) : held (leave code t) = held t.
Proof. done. Qed.

Section handlers.
Context (big : bool) (cfg : settings).

Lemma client_bytes_sound (t : transaction) (b : Z) (bs : list Z) (send : Z) :
  worker_ok t -> sound t (client_bytes big cfg t b bs send).
Proof.
  intros [H1 H2 H3]. unfold client_bytes. destruct (negb _ || _ || _).
  - destruct (parse_loop_total big (transaction_client_message cfg) (S (length (b :: bs))) (client_state t) (b :: bs)
      (deallocate t, queries t) H1 ltac:(lia)) as (st & [d q] & E & Hst).
    unfold parse_message. rewrite E.
    destruct (send =? MESSAGE_STATUS_ERROR); [destruct (failover cfg)|]; eexists _, _; (split; [reflexivity|]); by split.
  - eexists _, _. split; [reflexivity|]. by split.
Qed.

Lemma client_receive_sound (t : transaction) (i : client_in) : worker_ok t -> sound t (client_receive big cfg t i).
Proof.
  intros H. unfold client_receive. destruct (ci_recv i); [by apply client_bytes_sound| |].
  all: eexists _, _; split; [reflexivity|]; split; [by apply leave_ok|done].
Qed.

Lemma transaction_client_sound (t : transaction) (i : client_in) :
  worker_ok t -> event_ok (EClient i) -> sound_or_up t (EClient i) (transaction_client big cfg t i).
Proof.
  intros Ht Hi. unfold transaction_client.
  destruct (Z.eqb_spec (slot t) (-1)) as [Hs|Hs]; [|left; by apply client_receive_sound].
  assert (Hnone : held t = None) by (unfold held; by rewrite Hs).
  simpl in Hi. destruct (ci_get i) as [s ssl|s] eqn:Eget.
  - left. match goal with |- context [client_receive big cfg ?t0 i] => set (t1 := t0) end.
    destruct (client_receive_sound t1 i) as (t' & acts & E & Hok & Hl).
    { destruct Ht as [H1 H2 H3]. split; [done|apply zero_state_ok|done]. }
    rewrite E. exists t', ([GetConnection (Some s); IoStart] ++ acts). split; [done|]. split; [done|].
    rewrite <- Hl, Hnone. unfold held. change (slot t1) with s. rewrite (proj2 (Z.eqb_neq s (-1))) by lia. done.
  - right. split; [done|]. eexists _, _. split; [reflexivity|]. split; [|done]. split_and!; [done|done|]. by exists i.
Qed.

Lemma release_slot_sound (t : transaction) (i : server_in) :
  worker_ok t -> slot t <> -1 -> si_return i = false -> sound t (Done (release_slot cfg t i)).
Proof.
  intros [H1 H2 H3] Hs Hr. unfold release_slot. rewrite Hr.
  assert (Hh : held t = Some (slot t)) by (unfold held; by rewrite (proj2 (Z.eqb_neq _ _))).
  assert (Hfin : forall t' pre, slot t' = slot t -> client_state t' = client_state t -> server_state t' = server_state t ->
    ledger (Some (slot t)) pre = Some (Some (slot t)) ->
    sound t (Done (set_slot (-1) (set_deallocate false t'),
      pre ++ (if deallocate t' then [DeallocateAll] else []) ++ [ReturnConnection (slot (set_deallocate false t'))]))).
  { intros t' pre E1 E2 E3 Hp. eexists _, _. split; [done|]. split.
    - split; cbn; [by rewrite E2|by rewrite E3|done].
    - rewrite Hh, ledger_app, Hp. cbn [mbind option_bind slot set_deallocate]. rewrite E1.
      destruct (deallocate t'); simpl; by rewrite Z.eqb_refl. }
  destruct (server_reset_query_always cfg && reset_query_set cfg && negb (si_reset_failed i)); [|by apply Hfin].
  destruct (si_reset i); [|by apply Hfin].
  destruct (on_reset_failure cfg); try (by apply Hfin); (eexists _, _; split; [done|]; split;
    [by split|rewrite Hh; simpl; by rewrite Z.eqb_refl]).
Qed.

Lemma server_bytes_sound (t : transaction) (data : list Z) (i : server_in) :
  worker_ok t -> si_return i = false -> sound t (server_bytes big cfg t data i).
Proof.
  intros [H1 H2 H3] Hr. unfold server_bytes.
  destruct (parse_loop_total big pipeline_server_rfq (S (length data)) (server_state t) data
    (Some (PipelineServerState (Some (in_tx t)) (Some false) (Some (fatal t)) 0)) H2 ltac:(lia)) as (st & a & E & Hst).
  unfold parse_message. rewrite E.
  assert (is_Some a) as [s ->].
  { eapply (parse_loop_keeps big pipeline_server_rfq is_Some); [|done|exact E]. intros k b n [p|] Hp; [|by apply is_Some_None in Hp].
    unfold pipeline_server_rfq. destruct (p_in_tx p); [|done]. by repeat case_match. }
  match goal with |- context [leave WORKER_CLIENT_FAILURE ?t0] => set (t1 := t0) end.
  assert (Ht1 : worker_ok t1) by by split. assert (Hh1 : held t1 = held t) by done.
  destruct (negb (si_send i =? MESSAGE_STATUS_OK)).
  { eexists _, _. split; [reflexivity|]. split; [by apply leave_ok|done]. }
  destruct (_ && _ && negb (slot t1 =? -1)) eqn:Erel; [|eexists _, _; by split].
  apply andb_prop in Erel as [_ Hs]. apply negb_true_iff, Z.eqb_neq in Hs.
  set (io := if io_watcher_active t1 then [IoStop] else []).
  assert (Hio : forall h acts, ledger h (ToClient data :: io ++ acts) = ledger h acts) by (intros; unfold io; by destruct (io_watcher_active t1)).
  change (fatal (set_watcher false t1)) with (fatal t1). destruct (fatal t1).
  - eexists _, _. split; [reflexivity|]. split; [by split|]. rewrite <- (app_nil_r io), Hio. done.
  - destruct (release_slot_sound (set_watcher false t1) i) as (t' & acts & E' & Hok & Hl); [by split|done|done|].
    injection E' as E'. rewrite E'. cbn [with_actions]. eexists _, _. split; [reflexivity|]. split; [done|].
    change ((ToClient data :: io) ++ acts) with (ToClient data :: io ++ acts). rewrite Hio. exact Hl.
Qed.

Lemma handle_sound (t : transaction) (e : event) : worker_ok t -> event_ok e -> sound_or_up t e (handle big cfg t e).
Proof.
  intros Ht He. destruct e as [i|i|]; cbn [handle]; [by apply transaction_client_sound|left..].
  - unfold transaction_server. destruct (negb (si_valid i)); [|destruct (si_recv i); [by apply server_bytes_sound| |]];
      (eexists _, _; split; [reflexivity|]; split; [by apply leave_ok|done]).
  - eexists _, _. split; [reflexivity|]. split; [by apply leave_ok|done].
Qed.

(** The event loop: the books are kept to its end; or its last handler gave up, and they are balanced. *)
Lemma transaction_loop_sound (t : transaction) (es : list event) :
  worker_ok t -> Forall event_ok es ->
  sound t (transaction_loop big cfg t es) \/
  exists t' acts e, transaction_loop big cfg t es = Done (t', acts) /\ e ∈ es /\ gave_up e t' /\ ledger (held t) acts = Some None.
Proof.
  intros Ht Hes. revert t Ht. induction Hes as [|e es He Hes IH]; intros t Ht; cbn [transaction_loop].
  { left. eexists _, _. split; [reflexivity|]. by split. }
  destruct (negb (running t)); [left; eexists _, _; split; [reflexivity|]; by split|].
  destruct (match e with EServer _ => _ | _ => _ end).
  { destruct (IH t Ht) as [?|(t' & acts & e' & ? & ? & ?)]; [by left|right]. exists t', acts, e'. split; [done|]. by split; [right|]. }
  destruct (handle_sound t e Ht He) as [(t1 & acts1 & -> & Hok1 & Hl1)|(Hn & t1 & acts1 & -> & Hup & Hl1)].
  - destruct (IH t1 Hok1) as [(t2 & acts2 & -> & Hok2 & Hl2)|(t2 & acts2 & e2 & -> & He2 & Hup2 & Hl2)]; [left|right].
    + eexists _, _. split; [reflexivity|]. split; [done|]. rewrite ledger_app, Hl1. exact Hl2.
    + eexists _, _, e2. split; [reflexivity|]. split; [by right|]. split; [done|]. rewrite ledger_app, Hl1. exact Hl2.
  - right. exists t1, acts1, e. rewrite Hn. split; [|split_and!; [by left|done|done]].
    destruct Hup as [Hr _]. destruct es as [|e2 es]; cbn [transaction_loop with_actions]; rewrite ?Hr; cbn [negb with_actions]; by rewrite app_nil_r.
Qed.
End handlers.

Lemma stop_ledger (t : transaction) : ledger (held t) (transaction_stop t).2 = Some None.
Proof.
  unfold transaction_stop, held. destruct (slot t =? -1); [done|]. cbn [snd]. rewrite ledger_app.
  destruct (in_tx t), (io_watcher_active t); simpl; by rewrite Z.eqb_refl.
Qed.

(** A worker that holds nothing gives back what its slot says. *)
Lemma stop_ledger_none (t : transaction) : ledger None (transaction_stop t).2 = Some None <-> slot t = -1.
Proof.
  unfold transaction_stop. destruct (Z.eqb_spec (slot t) (-1)) as [E|E]; [done|]. cbn [snd]. split; [|done].
  by destruct (in_tx t), (io_watcher_active t).
Qed.

Lemma start_ok (bound : bool) (cfds : list Z) (w : worker_io) : worker_ok (transaction_start bound cfds w).1.
Proof. destruct bound; (split; [apply zero_state_ok..|done]). Qed.

(** C6: while the pool takes connections back, a transaction worker never takes a second
    connection while it holds one and its handlers never give back one that it does not
    hold, through any sequence of events.  At the end of the event loop it holds the connection
    of its slot, and its stop function gives back that one and no other; or else its
    last call of the pool failed, it holds none, it ends with [WORKER_SERVER_FAILURE], and its slot is
    what that call left there: then the stop function gives back nothing exactly when this is
    -1.  When the client ends the session, the books of the whole worker, from the
    connection of the authentication to the end, are balanced.  (After the other exit codes the
    worker also kills the slot of its watcher, which it may not hold: [stale_slot_killed].) *)
Theorem transaction_worker_balanced (big : bool) (cfg : settings) (cfds : list Z) (w : worker_io) (es : list event)
  (invalid valid answers : bool) (Hes : Forall event_ok es) :
  exists t acts,
    transaction_loop big cfg (transaction_start true cfds w).1 es = Done (t, acts) /\
    (ledger None acts = Some (held t) /\ ledger (held t) (transaction_stop t).2 = Some None \/
     ledger None acts = Some None /\ exit_code t = WORKER_SERVER_FAILURE /\
     (exists i, EClient i ∈ es /\ ci_get i = GetFailed (slot t)) /\
     (ledger None (transaction_stop t).2 = Some None <-> slot t = -1)) /\
    (exit_code t = WORKER_SUCCESS \/ exit_code t = WORKER_CLIENT_FAILURE ->
     exists all, transaction_worker big cfg true cfds w es invalid valid answers = Done all /\
       ledger (Some (wi_slot w)) all = Some None).
Proof.
  destruct (transaction_loop_sound big cfg (transaction_start true cfds w).1 es (start_ok true cfds w) Hes)
    as [(t & acts & E & Hok & Hl)|(t & acts & e & E & He & (Hr & Hc & i & -> & Hi) & Hl)]; exists t, acts; (split; [exact E|]).
  2: { split; [|rewrite Hc; by intros []]. right. split_and!; [exact Hl|done|by exists i|]. by rewrite stop_ledger_none. }
  split; [left; split; [exact Hl|apply stop_ledger]|].
  intros Hcode. unfold transaction_worker. assert (Hl' : ledger None acts = Some (held t)) by exact Hl.
  pose proof (stop_ledger t) as Hstop. assert (Hc : exit_code (transaction_stop t).1 = exit_code t).
  { unfold transaction_stop. by destruct (slot t =? -1). }
  destruct (transaction_start true cfds w) as [t0 acts0] eqn:E0. cbn [fst] in E. rewrite E.
  assert (acts0 = [ReturnConnection (wi_slot w)]) as -> by (injection E0; done).
  destruct (transaction_stop t) as [t' stop]. cbn [fst snd] in *. eexists. split; [reflexivity|].
  cbn [app]. simpl ledger. rewrite Z.eqb_refl. cbn [mbind option_bind]. rewrite ledger_app.
  rewrite Hl'. cbn [mbind option_bind].
  unfold return_to_pool. destruct (Z.eqb_spec (wi_slot (wi t)) (-1)) as [Hw|Hw].
  - unfold held. destruct (Z.eqb_spec (slot t) (-1)) as [|Hs]; [done|]. by rewrite (k_slot t Hok Hs) in Hw.
  - rewrite Hc. cbn [ei_auth]. destruct Hcode as [-> | ->]; cbn [andb]; rewrite app_nil_r; exact Hstop.
Qed.

Lemma transaction_worker_balanced_witness :
  exists all, transaction_worker false (Settings false false false false RESET_DISCARD) true [5; 6] (WorkerIo 5 None 0)
      [EClient (ClientIn (GetDone 1 None) GotZero 1)] false true true = Done all /\ ledger (Some 0) all = Some None.
Proof.
  destruct (transaction_worker_balanced false (Settings false false false false RESET_DISCARD) [5; 6] (WorkerIo 5 None 0)
    [EClient (ClientIn (GetDone 1 None) GotZero 1)] false true true) as (t & acts & E & _ & H).
  - constructor; [simpl; lia|constructor].
  - apply H. right. vm_compute in E. by injection E as <- _.
Defined.

(** ** When a connection is given back *)

Definition releases (acts : list action) : bool :=
  existsb (fun a => match a with ReturnConnection _ | KillConnection _ => true | _ => false end) acts.

Lemma releases_app (a b : list action) : releases (a ++ b) = releases a || releases b.
Proof. apply existsb_app. Qed.

Lemma release_slot_releases (cfg : settings) (t : transaction) (i : server_in) : releases (release_slot cfg t i).2 = true.
Proof.
  unfold release_slot.
  assert (H : forall pre t', releases (pre ++ (if deallocate t' then [DeallocateAll] else []) ++ [ReturnConnection (slot (set_deallocate false t'))]) = true).
  { intros pre t'. rewrite !releases_app. by rewrite !orb_true_r. }
  repeat case_match; try apply H; done.
Qed.

Lemma existsb_last_status (fs : list (Z * list Z)) : last_status fs = Some (chr "I") -> existsb rfq_idle fs = true.
Proof.
  unfold last_status. induction fs as [|f fs IH] using rev_ind; [done|]. rewrite foldl_app, existsb_app. cbn [foldl existsb].
  unfold rfq_idle at 2. destruct (rfq_status f) as [s|]; [intros [= ->]; by rewrite Z.eqb_refl, orb_true_r|].
  intros H. by rewrite IH.
Qed.

Lemma idle_status (fs : list (Z * list Z)) (tx : bool) :
  existsb rfq_idle fs && negb (match last_status fs with Some x => negb (x =? chr "I") | None => tx end) =
    bool_decide (last_status fs = Some (chr "I")).
Proof.
  case_bool_decide as H; [by rewrite H, existsb_last_status|].
  destruct (last_status fs) as [s|] eqn:E.
  - rewrite negb_involutive. destruct (Z.eqb_spec s (chr "I")) as [-> |]; [done|]. apply andb_false_r.
  - assert (existsb rfq_idle fs = false) as ->; [|done]. clear H. revert E. unfold last_status.
    induction fs as [|f fs IH] using rev_ind; [done|]. rewrite foldl_app, existsb_app. cbn [foldl existsb].
    unfold rfq_idle at 2. destruct (rfq_status f); [done|]. intros H. by rewrite IH.
Qed.

(** C7: after the bytes of a server that complete the messages [fs], a connection that is
    held is given back or killed exactly when the last ReadyForQuery among them reports
    that no transaction is open, unless a fatal error was seen; the bytes were sent to
    the client before that, unchanged. *)
Theorem released_when_idle (big : bool) (cfg : settings) (t : transaction) (b : Z) (bs : list Z) (i : server_in)
  (fs : list (Z * list Z)) (g : Z * list Z) (p q : list Z)
  (Hslot : slot t <> -1) (Hv : si_valid i = true) (Hr : si_recv i = Got b bs) (Hsend : si_send i = MESSAGE_STATUS_OK)
  (Hst : partial (server_state t) (current g fs) p) (Hp : begins p (current g fs))
  (Hfs : Forall frame_fits fs) (Hsv : Forall server_frame fs) (Hg : frame_fits g) (Hq : begins q g)
  (E : p ++ b :: bs = frames fs ++ q) :
  exists t' acts, transaction_server big cfg t i = Done (t', ToClient (b :: bs) :: acts) /\
    releases acts = bool_decide (last_status fs = Some (chr "I")) && negb (fatal t || existsb fatal_error fs).
Proof.
  unfold transaction_server. rewrite Hv, Hr. cbn [negb]. unfold server_bytes.
  destruct (parse_loop_spec big pipeline_server_rfq g q fs (server_state t) p (b :: bs)
    (Some (PipelineServerState (Some (in_tx t)) (Some false) (Some (fatal t)) 0)) (S (length (b :: bs))) Hg Hfs Hq Hst Hp E ltac:(lia))
    as (st & a & Ep & _ & Hd).
  unfold parse_message. rewrite Ep. apply rfq_delivers in Hd as [-> _]; [|done|done].
  destruct (server_steps fs (in_tx t) false (fatal t) 0) as (H1 & H2 & H3). cbv zeta in *.
  set (s := foldl server_step _ fs) in *. rewrite H1, H2, H3. cbn [from_option id orb]. rewrite Hsend. cbn [Z.eqb MESSAGE_STATUS_OK Pos.eqb negb].
  cbn [in_tx slot]. rewrite idle_status. rewrite (proj2 (Z.eqb_neq _ _)) by done. cbn [negb]. rewrite andb_true_r.
  match goal with |- context [set_watcher false ?t0] => set (t1 := t0) end.
  destruct (bool_decide _); [|eexists _, []; by split].
  change (fatal (set_watcher false t1)) with (fatal t || existsb fatal_error fs).
  assert (Hio : forall acts, releases ((if io_watcher_active t1 then [IoStop] else []) ++ acts) = releases acts)
    by (intros; by destruct (io_watcher_active t1)).
  destruct (fatal t || existsb fatal_error fs).
  - eexists _, _. split; [reflexivity|]. specialize (Hio []). rewrite app_nil_r in Hio. by rewrite Hio.
  - pose proof (release_slot_releases cfg (set_watcher false t1) i) as Hrel.
    destruct (release_slot cfg (set_watcher false t1) i) as [t' acts]. cbn [with_actions snd] in *. eexists _, _.
    split; [reflexivity|]. by rewrite Hio, Hrel.
Qed.

Definition sample_tx : transaction :=
  Transaction 2 true false false false true [] zero_state zero_state (WorkerIo 7 None 2) WORKER_FAILURE true 0.

Lemma released_when_idle_witness :
  exists t' acts, transaction_server false (Settings false false false false RESET_DISCARD) sample_tx
      (ServerIn true (Got 90 [0; 0; 0; 5; 73]) 1 false false false) = Done (t', ToClient [90; 0; 0; 0; 5; 73] :: acts) /\
    releases acts = true.
Proof.
  apply (released_when_idle false (Settings false false false false RESET_DISCARD) sample_tx 90 [0; 0; 0; 5; 73]
    (ServerIn true (Got 90 [0; 0; 0; 5; 73]) 1 false false false) [(90, [73])] (67, []) [] []).
  - discriminate.
  - reflexivity.
  - reflexivity.
  - reflexivity.
  - apply idle_partial, zero_idle.
  - apply begins_nil.
  - repeat constructor; try (simpl; lia); vm_compute; discriminate.
  - repeat constructor; simpl; try lia; discriminate.
  - split; [simpl; lia|]. vm_compute. discriminate.
  - apply begins_nil.
  - reflexivity.
Defined.

(** ** What goes wrong *)

(** A query and its answer. *)
Definition a_query : list Z := [81; 0; 0; 0; 5; 0].
Definition an_answer : list Z := [90; 0; 0; 0; 5; 73].

(** The slot in the watcher of the client outlives the transaction: a worker that gave
    the connection [s] back and gets no other one (the pool is full), or is told to shut
    down, kills [s] at its end although it may belong to another client by then. *)
Theorem stale_slot_killed (big : bool) (cfg : settings) (cfds : list Z) (w : worker_io) (s : Z) (invalid valid answers : bool)
  (Hcfg : cfg = Settings false false false false RESET_DISCARD) (Hs : 0 <= s) :
  let transaction := [EClient (ClientIn (GetDone s None) (Got 81 [0; 0; 0; 5; 0]) 1);
                      EServer (ServerIn true (Got 90 [0; 0; 0; 5; 73]) 1 false false false)] in
  let used := [ReturnConnection (wi_slot w); GetConnection (Some s); IoStart; ToServer a_query; ToClient an_answer; IoStop;
               ReturnConnection s] in
  transaction_worker big cfg true cfds w (transaction ++ [EClient (ClientIn (GetFailed (-1)) GotZero 1)]) invalid valid answers =
    Done (used ++ [GetConnection None; WritePoolFull; KillConnection s]) /\
  transaction_worker big cfg true cfds w (transaction ++ [EShutdown]) invalid valid answers =
    Done (used ++ [KillConnection s]) /\
  ledger (Some (wi_slot w)) (used ++ [KillConnection s]) = None.
Proof.
  subst cfg. cbv zeta. split_and!.
  - destruct big, s; [vm_compute; reflexivity..|lia|vm_compute; reflexivity|vm_compute; reflexivity|lia].
  - destruct big, s; [vm_compute; reflexivity..|lia|vm_compute; reflexivity|vm_compute; reflexivity|lia].
  - cbn [app ledger ledger_step]. rewrite Z.eqb_refl. cbn [mbind option_bind]. by rewrite Z.eqb_refl.
Qed.

Lemma stale_slot_killed_witness :
  transaction_worker false (Settings false false false false RESET_DISCARD) true [] (WorkerIo 9 None 4)
    ([EClient (ClientIn (GetDone 3 None) (Got 81 [0; 0; 0; 5; 0]) 1);
      EServer (ServerIn true (Got 90 [0; 0; 0; 5; 73]) 1 false false false)] ++ [EShutdown]) false true true =
  Done [ReturnConnection 4; GetConnection (Some 3); IoStart; ToServer a_query; ToClient an_answer; IoStop; ReturnConnection 3;
        KillConnection 3].
Proof.
  refine (proj1 (proj2 (stale_slot_killed false (Settings false false false false RESET_DISCARD) [] (WorkerIo 9 None 4) 3 false true true
    eq_refl _))). lia.
Defined.

(** A call of the pool that fails after it took the slot [n] and set it free or killed it
    leaves [n] in the slot of the worker, which gives it back although it does not hold it, and
    kills the connection of its last transaction as well. *)
Theorem failed_get_returned (big : bool) (cfg : settings) (cfds : list Z) (w : worker_io) (s n : Z) (invalid valid answers : bool)
  (Hcfg : cfg = Settings false false false false RESET_DISCARD) (Hs : 0 <= s) (Hn : 0 <= n) :
  transaction_worker big cfg true cfds w
    [EClient (ClientIn (GetDone s None) (Got 81 [0; 0; 0; 5; 0]) 1);
     EServer (ServerIn true (Got 90 [0; 0; 0; 5; 73]) 1 false false false);
     EClient (ClientIn (GetFailed n) GotZero 1)] invalid valid answers =
  Done [ReturnConnection (wi_slot w); GetConnection (Some s); IoStart; ToServer a_query; ToClient an_answer; IoStop;
        ReturnConnection s; GetConnection None; WritePoolFull; ReturnConnection n; KillConnection s].
Proof.
  subst cfg. destruct big, s, n; try lia; vm_compute; reflexivity.
Qed.

Lemma failed_get_returned_witness :
  transaction_worker true (Settings false false false false RESET_DISCARD) true [] (WorkerIo 9 None 4)
    [EClient (ClientIn (GetDone 3 None) (Got 81 [0; 0; 0; 5; 0]) 1);
     EServer (ServerIn true (Got 90 [0; 0; 0; 5; 73]) 1 false false false);
     EClient (ClientIn (GetFailed 6) GotZero 1)] false true true =
  Done [ReturnConnection 4; GetConnection (Some 3); IoStart; ToServer a_query; ToClient an_answer; IoStop;
        ReturnConnection 3; GetConnection None; WritePoolFull; ReturnConnection 6; KillConnection 3].
Proof.
  apply (failed_get_returned true (Settings false false false false RESET_DISCARD) [] (WorkerIo 9 None 4) 3 6 false true true eq_refl);
    lia.
Defined.

(** When the pool fails to take a connection back after a transaction, the worker
    gives it back a second time when it stops, and kills it after that. *)
Theorem failed_return_repeated (big : bool) (cfg : settings) (cfds : list Z) (w : worker_io) (s : Z) (invalid valid answers : bool)
  (Hcfg : cfg = Settings false false false false RESET_DISCARD) (Hs : 0 <= s) :
  transaction_worker big cfg true cfds w
    [EClient (ClientIn (GetDone s None) (Got 81 [0; 0; 0; 5; 0]) 1);
     EServer (ServerIn true (Got 90 [0; 0; 0; 5; 73]) 1 false false true)] invalid valid answers =
  Done [ReturnConnection (wi_slot w); GetConnection (Some s); IoStart; ToServer a_query; ToClient an_answer; IoStop;
        ReturnConnection s; ReturnConnection s; KillConnection s].
Proof.
  subst cfg. destruct big, s; [vm_compute; reflexivity..|lia|vm_compute; reflexivity|vm_compute; reflexivity|lia].
Qed.

Lemma failed_return_repeated_witness :
  transaction_worker true (Settings false false false false RESET_DISCARD) true [] (WorkerIo 9 None 4)
    [EClient (ClientIn (GetDone 3 None) (Got 81 [0; 0; 0; 5; 0]) 1);
     EServer (ServerIn true (Got 90 [0; 0; 0; 5; 73]) 1 false false true)] false true true =
  Done [ReturnConnection 4; GetConnection (Some 3); IoStart; ToServer a_query; ToClient an_answer; IoStop;
        ReturnConnection 3; ReturnConnection 3; KillConnection 3].
Proof.
  apply (failed_return_repeated true (Settings false false false false RESET_DISCARD) [] (WorkerIo 9 None 4) 3 false true true eq_refl).
  lia.
Defined.

(** A worker that cannot bind its Unix socket goes on without giving back the
    connection of the authentication, and forgets it with the next one. *)
Theorem unbound_worker_forgets (big : bool) (cfg : settings) (cfds : list Z) (w : worker_io) (s : Z) (invalid valid answers : bool)
  (Hs : 0 <= s) :
  transaction_worker big cfg false cfds w [EClient (ClientIn (GetDone s None) GotZero 1)] invalid valid answers =
    Done [GetConnection (Some s); IoStart; IoStop; ReturnConnection s].
Proof.
  unfold transaction_worker, transaction_start. cbn [negb transaction_loop running handle]. unfold transaction_client.
  cbn [slot Z.eqb ci_get Pos.eqb]. unfold client_receive. cbn [ci_recv with_actions leave saw_x app wi wi_slot].
  unfold transaction_stop. cbn [slot leave]. rewrite (proj2 (Z.eqb_neq s (-1))) by lia. cbn [in_tx io_watcher_active app].
  unfold return_to_pool. cbn [wi leave set_slot set_watcher wi_slot exit_code]. rewrite (proj2 (Z.eqb_neq s (-1))) by lia. done.
Qed.

Lemma unbound_worker_forgets_witness :
  transaction_worker false (Settings false false false false RESET_DISCARD) false [] (WorkerIo 9 None 4)
    [EClient (ClientIn (GetDone 3 None) GotZero 1)] false true true =
  Done [GetConnection (Some 3); IoStart; IoStop; ReturnConnection 3].
Proof. apply (unbound_worker_forgets false _ [] (WorkerIo 9 None 4) 3 false true true). lia. Defined.

(** The name of the statement of a Parse message, in the buffer of the callback. *)
Lemma shows_first (f : Z * list Z) (b : list Z) (x : Z) (p : list Z) : shows f b -> f.2 = x :: p -> b !!! 5%nat = x.
Proof.
  intros Hs E. pose proof (shows_payload f b 1 Hs ltac:(lia) ltac:(rewrite E; simpl; lia)) as H. rewrite E in H.
  destruct (drop 5 b) as [|y r] eqn:Ed; simpl in H; [done|]. simplify_eq.
  rewrite <- (Nat.add_0_r 5), <- lookup_total_drop, Ed. done.
Qed.

(** With prepared statements tracked, a Parse message that names its statement does
    not ask for DEALLOCATE ALL, and one for the unnamed statement does. *)
Theorem statement_tracking_inverted (big : bool) (cfg : settings) (t : transaction) (name rest : list Z)
  (Hcfg : track_prepared_statements cfg = true) (Hn : text name) (Ht : idle (client_state t)) (Hd : deallocate t = false)
  (Hfit : frame_fits (chr "P", name ++ [0] ++ rest)) :
  exists t', client_bytes big cfg t (chr "P") (tail (frame (chr "P", name ++ [0] ++ rest))) MESSAGE_STATUS_OK =
      Done (t', [ToServer (frame (chr "P", name ++ [0] ++ rest))]) /\
    deallocate t' = bool_decide (name = []).
Proof.
  set (f := (chr "P", name ++ [0] ++ rest)) in *. unfold client_bytes.
  change (chr "P" :: tail (frame f)) with (frame f). change (negb (i8 (chr "P") =? chr "X")) with true. cbn [orb].
  destruct (parse_loop_spec big (transaction_client_message cfg) f [] [f] (client_state t) [] (frame f) (deallocate t, queries t)
    (S (length (frame f)))) as (st & a & Ep & _ & Hdel).
  - done.
  - by constructor.
  - apply begins_nil.
  - by apply idle_partial.
  - apply begins_nil.
  - unfold frames. cbn [map concat app]. by rewrite !app_nil_r.
  - lia.
  - unfold parse_message. rewrite Ep. inversion Hdel as [|? ? b ? ? Hb Hrest]; subst. inversion Hrest; subst. cbn [fst snd].
    eexists. split; [reflexivity|]. cbn [deallocate]. unfold transaction_client_message. rewrite Hcfg, Hd. cbn [fst f andb].
    change (chr "P" =? chr "P") with true. cbn [andb].
    destruct name as [|x name].
    + rewrite (shows_first f b 0 rest Hb eq_refl). done.
    + rewrite (shows_first f b x (name ++ [0] ++ rest) Hb eq_refl). inversion Hn as [|? ? Hx]; subst.
      destruct (Z.eqb_spec x 0); [lia|]. done.
Qed.

Lemma statement_tracking_inverted_witness :
  exists t', client_bytes false (Settings true false false false RESET_DISCARD) sample_tx (chr "P")
      (tail (frame (chr "P", str "s1" ++ [0] ++ str "SELECT 1" ++ [0; 0; 0]))) MESSAGE_STATUS_OK =
      Done (t', [ToServer (frame (chr "P", str "s1" ++ [0] ++ str "SELECT 1" ++ [0; 0; 0]))]) /\
    deallocate t' = false.
Proof.
  apply (statement_tracking_inverted false (Settings true false false false RESET_DISCARD) sample_tx (str "s1") (str "SELECT 1" ++ [0; 0; 0])).
  - reflexivity.
  - repeat constructor; vm_compute; congruence.
  - apply zero_idle.
  - reflexivity.
  - split; [vm_compute; split; congruence|vm_compute; congruence].
Defined.

(** The performance pipeline takes every chunk that starts with an X for a Terminate
    and drops it, also in the middle of a message, where the session pipeline sends it
    to the server. *)
Theorem performance_drops_chunk (big : bool) (cfg : settings) (p : performance) (s : session) (bs : list Z) (t0 t1 : Z)
  (Hs : state_ok (ss_client s)) (Hmid : 0 < header_len (ss_client s) \/ 0 < payload_remaining (ss_client s)) :
  performance_client p (Got (chr "X") bs) MESSAGE_STATUS_OK = (Performance true (pf_exit p) (pf_running p), []) /\
  exists s', session_client big cfg s t0 t1 (Got (chr "X") bs) MESSAGE_STATUS_OK = Done (s', [ToServer (chr "X" :: bs)]).
Proof.
  split; [done|]. unfold session_client. cbn [client_active set_client ss_client].
  assert (negb (i8 (chr "X") =? chr "X") || (0 <? payload_remaining (ss_client s)) || (0 <? header_len (ss_client s)) = true) as ->.
  { change (negb (i8 (chr "X") =? chr "X")) with false. cbn [orb]. apply orb_true_iff. rewrite !Z.ltb_lt. tauto. }
  destruct (parse_loop_total big session_client_message (S (length (chr "X" :: bs))) (ss_client s) (chr "X" :: bs)
    (ss_queries (client_active t0 s)) Hs ltac:(lia)) as (st & q & E & _).
  unfold parse_message. change (ss_client (client_active t0 s)) with (ss_client s). rewrite E. by eexists.
Qed.

Definition sample_session : session :=
  Session false (MessageState [68; 0; 0; 0; 9] 5 3 (zeroed PARSE_BUFFER_LIMIT) 7 10) zero_state false 0 None WORKER_FAILURE true 0.

Lemma performance_drops_chunk_witness :
  performance_client (Performance false WORKER_FAILURE true) (Got (chr "X") [1; 2]) MESSAGE_STATUS_OK =
    (Performance true WORKER_FAILURE true, []) /\
  exists s', session_client false (Settings false false false false RESET_DISCARD) sample_session 1 2 (Got (chr "X") [1; 2]) MESSAGE_STATUS_OK =
    Done (s', [ToServer [88; 1; 2]]).
Proof.
  apply (performance_drops_chunk false (Settings false false false false RESET_DISCARD) (Performance false WORKER_FAILURE true)
    sample_session [1; 2] 1 2).
  - split; cbn; try done; vm_compute; split; congruence.
  - left. reflexivity.
Defined.

(** ** Clients that are disconnected *)

Lemma periodic_loop_kills (dc now : Z) (k i : nat) (pids : list Z) (l : list client_session) :
  length pids = length l ->
  i ∈ (periodic_loop dc now false k pids l).2 <->
  exists j pid c, i = (k + j)%nat /\ pids !! j = Some pid /\ l !! j = Some c /\
    pid <> 0 /\ cs_state c = CLIENT_IDLE /\ dc < now - cs_timestamp c.
Proof.
  revert k l. induction pids as [|pid pids IH]; intros k [|c l] Hl; try done.
  { simpl. split; [by intros ?%elem_of_nil|]. intros (j & ? & ? & _ & H & _). by rewrite lookup_nil in H. }
  cbn [periodic_loop]. injection Hl as Hl. specialize (IH (S k) l Hl).
  destruct (periodic_slot dc now false pid c) as [c' kill] eqn:Ep. destruct (periodic_loop dc now false (S k) pids l) as [l' kills].
  cbn [snd] in *.
  assert (Hk : kill = true <-> pid <> 0 /\ cs_state c = CLIENT_IDLE /\ dc < now - cs_timestamp c).
  { unfold periodic_slot in Ep. destruct (Z.ltb_spec dc (now - cs_timestamp c)); [|simplify_eq; split; [done|lia]].
    destruct (Z.eqb_spec pid 0); [simplify_eq; split; [done|tauto]|]. destruct (decide (cs_state c = CLIENT_IDLE)); simplify_eq; split; done || tauto. }
  assert (Hrest : i ∈ kills <-> exists j pid0 c0, i = (k + S j)%nat /\ pids !! j = Some pid0 /\ l !! j = Some c0 /\
    pid0 <> 0 /\ cs_state c0 = CLIENT_IDLE /\ dc < now - cs_timestamp c0).
  { rewrite IH. split; intros (j & pid0 & c0 & -> & H); exists j, pid0, c0; (split; [lia|done]). }
  transitivity (kill = true /\ i = k \/ i ∈ kills).
  { destruct kill; [rewrite elem_of_cons|]; intuition congruence. }
  rewrite Hrest. split.
  - intros [[Hkill ->]|(j & pid0 & c0 & -> & H)]; [exists 0%nat, pid, c; split; [lia|]; tauto|by exists (S j), pid0, c0].
  - intros ([|j] & pid0 & c0 & -> & H1 & H2 & H3); [left|right; exists j, pid0, c0; split; [lia|done]].
    cbn in H1, H2. simplify_eq. split; [tauto|lia].
Qed.

(** Without force, the periodic task of the session pipeline disconnects exactly the
    clients of live processes that have been idle for longer than the limit. *)
Theorem session_periodic_exact (dc now : Z) (pids : list Z) (l : list client_session) (i : nat)
  (Hdc : 0 < dc) (Hl : length pids = length l) :
  i ∈ (session_periodic dc now false pids (Some l)).2 <->
  exists pid c, pids !! i = Some pid /\ l !! i = Some c /\ pid <> 0 /\ cs_state c = CLIENT_IDLE /\ dc < now - cs_timestamp c.
Proof.
  unfold session_periodic. rewrite (proj2 (Z.ltb_lt _ _)) by done.
  pose proof (periodic_loop_kills dc now 0 i pids l Hl) as H. destruct (periodic_loop dc now false 0 pids l) as [l' kills].
  cbn [snd] in *. rewrite H. split.
  - intros (j & pid & c & -> & Hj). by exists pid, c.
  - intros (pid & c & Hj). by exists i, pid, c.
Qed.

Lemma session_periodic_exact_witness :
  1%nat ∈ (session_periodic 60 1000 false [4; 5; 0] (Some [ClientSession CLIENT_ACTIVE 10; ClientSession CLIENT_IDLE 900; ClientSession CLIENT_IDLE 1])).2 <->
  exists pid c, [4; 5; 0] !! 1%nat = Some pid /\
    [ClientSession CLIENT_ACTIVE 10; ClientSession CLIENT_IDLE 900; ClientSession CLIENT_IDLE 1] !! 1%nat = Some c /\
    pid <> 0 /\ cs_state c = CLIENT_IDLE /\ 60 < 1000 - cs_timestamp c.
Proof. apply (session_periodic_exact 60 1000 [4; 5; 0] _ 1%nat); [lia|reflexivity]. Defined.
