(* ===== verification/Limits.v ===== *)
(** * Validation of the limit file ([libpgagroal/configuration.c])

    [pgagroal_validate_limit_configuration] runs after the limit file was read and before
    the first process is forked.  It refuses the configuration or adjusts the initial and
    minimal sizes of the entries.  The theorem says that what it lets through satisfies
    the interface [ValidLimits] the pool relies on. *)

From S2P Require Import Prelude Config.

Local Open Scope Z_scope.

Definition set_l_initial_size (v : Z) (l : limit) : limit :=
  Limit (l_database l) (l_username l) (l_aliases l) (l_max_size l) v (l_min_size l) (l_lineno l).
Definition set_l_min_size (v : Z) (l : limit) : limit :=
  Limit (l_database l) (l_username l) (l_aliases l) (l_max_size l) (l_initial_size l) v (l_lineno l).

(** ** The code *)

(** The other entries: the loops over [k] that skip the current entry. *)
Definition others (ls : list limit) (i : nat) : list limit := take i ls ++ drop (S i) ls.

(** The loop over the aliases of one entry: an alias is not empty, does not occur again,
    is no database name and no alias of another entry. *)
Fixpoint aliases_ok (ls : list limit) (i : nat) (aliases : list string) : bool :=
  match aliases with
  | [] => true
  | a :: rest =>
      negb (streq a "") && negb (existsb (streq a) rest)
      && negb (existsb (fun k => streq a (l_database k)) ls)
      && negb (existsb (fun k => existsb (streq a) (l_aliases k)) (others ls i))
      && aliases_ok ls i rest
  end.

(** The database name of an entry is no alias of another one. *)
Definition database_ok (ls : list limit) (i : nat) (l : limit) : bool :=
  negb (existsb (fun j => existsb (streq (l_database l)) (l_aliases j)) (others ls i)).

(** The adjustments, in the order of the code. *)
Definition adjust_sizes (l : limit) : limit :=
  let l := if negb (l_initial_size l =? 0) && (l_initial_size l <? l_min_size l)
           then set_l_initial_size (l_min_size l) l else l in
  let l := if negb (l_initial_size l =? 0) && (l_max_size l <? l_initial_size l)
           then set_l_initial_size (l_max_size l) l else l in
  if l_max_size l <? l_min_size l then set_l_min_size (l_max_size l) l else l.

(** One iteration for entry [i]; [None] is the return value 1. *)
Definition validate_entry (us : list user) (ls : list limit) (i : nat) : option (list limit) :=
  let l := ls !!! i in
  if l_max_size l <=? 0 then None
  else if l_initial_size l <? 0 then None
  else if l_min_size l <? 0 then None
  else if negb (aliases_ok ls i (l_aliases l)) then None
  else if negb (database_ok ls i l) then None
  else if (0 <? l_initial_size l) || (0 <? l_min_size l) then
    if existsb (fun u => streq (l_username l) (u_username u)) us
    then Some (<[i := adjust_sizes l]> ls)
    else None
  else Some ls.

(** The loop; [total_connections] is an [int]. *)
Fixpoint validate_loop (us : list user) (ls : list limit) (total : Z) (todo : list nat) :
  option (list limit * Z) :=
  match todo with
  | [] => Some (ls, total)
  | i :: todo =>
      let total := i32 (total + l_max_size (ls !!! i)) in
      ls ← validate_entry us ls i; validate_loop us ls total todo
  end.

(** [pgagroal_validate_limit_configuration]: the limits as they are afterwards. *)
Definition validate_limit_configuration (us : list user) (ls : list limit) (max_connections : Z) :
  option (list limit) :=
  '(ls, total) ← validate_loop us ls 0 (upto (Z.of_nat (length ls)));
  if max_connections <? total then None else Some ls.

(** ** What is let through *)

(** The fields the validation does not change. *)
Definition fixed (l : limit) : string * string * list string * Z :=
  (l_database l, l_username l, l_aliases l, l_max_size l).

Definition sizes_ok (l : limit) : Prop :=
  0 < l_max_size l /\ 0 <= l_initial_size l <= l_max_size l /\ 0 <= l_min_size l <= l_max_size l.

(** The aliases of entry [i] of [ls] are its own. *)
Definition names_ok (ls : list limit) (i : nat) (l : limit) : Prop :=
  forall a, a ∈ l_aliases l -> a <> "" /\ (forall k, k ∈ ls -> a <> l_database k) /\
    forall j k, j <> i -> ls !! j = Some k -> a ∉ l_aliases k.

Lemma existsb_false {A} (f : A -> bool) (l : list A) : existsb f l = false <-> forall x, x ∈ l -> f x = false.
Proof.
  induction l as [|y l IH]; simpl; [split; [intros _ x Hx; by apply elem_of_nil in Hx|done]|].
  rewrite Bool.orb_false_iff, IH. setoid_rewrite elem_of_cons. naive_solver.
Qed.

Lemma elem_of_others (ls : list limit) (i j : nat) (k : limit) :
  ls !! j = Some k -> j <> i -> k ∈ others ls i.
Proof.
  intros Hj Hne. unfold others. apply elem_of_app. destruct (decide (j < i)%nat); [left|right];
    apply list_elem_of_lookup.
  - exists j. by rewrite lookup_take_lt.
  - exists (j - S i)%nat. rewrite lookup_drop. rewrite <- Hj. f_equal. lia.
Qed.

Lemma aliases_ok_names (ls : list limit) (i : nat) (aliases : list string) :
  aliases_ok ls i aliases = true ->
  forall a, a ∈ aliases -> a <> "" /\ (forall k, k ∈ ls -> a <> l_database k) /\
    forall j k, j <> i -> ls !! j = Some k -> a ∉ l_aliases k.
Proof.
  induction aliases as [|b aliases IH]; cbn [aliases_ok]; intros H a Ha; [by apply elem_of_nil in Ha|].
  rewrite !Bool.andb_true_iff, !Bool.negb_true_iff, streq_false in H.
  destruct H as ((((He & _) & Hd) & Ho) & Hr). apply elem_of_cons in Ha as [->|Ha]; [|by apply IH].
  rewrite existsb_false in Hd, Ho. split; [done|]. split.
  - intros k Hk. apply streq_false. by apply Hd.
  - intros j k Hne Hj Hin. specialize (Ho k (elem_of_others _ _ _ _ Hj Hne)).
    rewrite existsb_false in Ho. specialize (Ho b Hin). rewrite streq_refl in Ho. done.
Qed.

Lemma adjust_sizes_ok (l : limit) :
  0 < l_max_size l -> 0 <= l_initial_size l -> 0 <= l_min_size l ->
  fixed (adjust_sizes l) = fixed l /\ sizes_ok (adjust_sizes l).
Proof.
  intros Hm Hi Hn. unfold adjust_sizes, fixed, sizes_ok, set_l_initial_size, set_l_min_size. cbv zeta.
  repeat (case_match; simpl in *); bool_prop; split; try done; simpl; lia.
Qed.

Lemma validate_entry_ok (us : list user) (ls ls' : list limit) (i : nat) (l : limit) :
  ls !! i = Some l -> validate_entry us ls i = Some ls' ->
  fixed <$> ls' = fixed <$> ls /\ names_ok ls i l /\
  exists l', ls' = <[i := l']> ls /\ sizes_ok l'.
Proof.
  intros Hi. unfold validate_entry. rewrite (list_lookup_total_correct _ _ _ Hi).
  do 3 (case_if; [done|]). destruct (aliases_ok _ _ _) eqn:Ea; [|done]. destruct (database_ok _ _ _) eqn:Ed; [|done].
  cbn [negb]. pose proof (aliases_ok_names _ _ _ Ea) as Hn. bool_prop.
  case_if.
  - case_if; [|done]. intros [= <-]. destruct (adjust_sizes_ok l) as [Hf Hs]; [lia..|].
    split; [|by eauto]. rewrite list_fmap_insert, Hf, list_insert_id; [done|]. by rewrite list_lookup_fmap, Hi.
  - intros [= <-]. split; [done|]. split; [done|]. exists l. rewrite list_insert_id by done. split; [done|].
    bool_prop. unfold sizes_ok. lia.
Qed.

Lemma names_ok_fixed (ls ls' : list limit) (i : nat) (l l' : limit) :
  fixed <$> ls' = fixed <$> ls -> fixed l' = fixed l -> names_ok ls i l -> names_ok ls' i l'.
Proof.
  assert (forall j k', fixed <$> ls' = fixed <$> ls -> ls' !! j = Some k' ->
    exists k, ls !! j = Some k /\ fixed k = fixed k') as Hlk.
  { intros j k' E Hj. assert ((fixed <$> ls') !! j = Some (fixed k')) as H by by rewrite list_lookup_fmap, Hj.
    rewrite E, list_lookup_fmap in H. destruct (ls !! j) as [k|]; [|done]. exists k. split; [done|]. by apply (inj Some) in H. }
  intros E [= _ _ Ha _] Hn a Hin. rewrite Ha in Hin. destruct (Hn a Hin) as (H0 & H1 & H2).
  split; [done|]. split.
  - intros k' Hk. apply list_elem_of_lookup in Hk as [j Hj]. destruct (Hlk j k' E Hj) as (k & Hk & [= <- _ _ _]).
    apply H1, list_elem_of_lookup. by exists j.
  - intros j k' Hne Hj. destruct (Hlk j k' E Hj) as (k & Hk & [= _ _ <- _]). by apply (H2 j).
Qed.

(** The entries before [n] have been checked. *)
Definition checked_upto (ls : list limit) (n : nat) : Prop :=
  forall i l, (i < n)%nat -> ls !! i = Some l -> sizes_ok l /\ names_ok ls i l.

Lemma checked_step (ls : list limit) (n : nat) (l l' : limit) :
  ls !! n = Some l -> fixed <$> <[n := l']> ls = fixed <$> ls -> names_ok ls n l -> sizes_ok l' ->
  checked_upto ls n -> checked_upto (<[n := l']> ls) (S n).
Proof.
  intros Hn E Hnm Hs H i k Hi Hk. destruct (decide (i = n)) as [->|Hne].
  - rewrite list_lookup_insert_eq in Hk by (by eapply lookup_lt_Some). injection Hk as <-. split; [done|].
    apply (names_ok_fixed ls _ n l); try done.
    assert ((fixed <$> <[n := l']> ls) !! n = (fixed <$> ls) !! n) as E' by by rewrite E.
    rewrite !list_lookup_fmap, Hn, list_lookup_insert_eq in E' by (by eapply lookup_lt_Some). simpl in E'. congruence.
  - rewrite list_lookup_insert_ne in Hk by done. destruct (H i k) as [? Hk']; [lia|done|]. split; [done|].
    by apply (names_ok_fixed ls _ i k).
Qed.

Lemma validate_loop_ok (us : list user) (m n : nat) (ls ls' : list limit) (total total' : Z) :
  length ls = (n + m)%nat -> checked_upto ls n ->
  validate_loop us ls total (seq n m) = Some (ls', total') ->
  fixed <$> ls' = fixed <$> ls /\ checked_upto ls' (n + m).
Proof.
  revert n ls total. induction m as [|m IH]; intros n ls total Hl Hc; simpl.
  { intros [= <- <-]. by rewrite Nat.add_0_r. }
  intros (ls1 & He & Hr)%bind_Some. destruct (lookup_lt_is_Some_2 ls n) as [l Hn]; [lia|].
  destruct (validate_entry_ok us ls ls1 n l Hn He) as (Hf & Hnm & l' & -> & Hs).
  destruct (IH (S n) (<[n := l']> ls) _ ltac:(rewrite length_insert; lia) (checked_step _ _ _ _ Hn Hf Hnm Hs Hc) Hr)
    as [Hf' Hc'].
  split; [by rewrite Hf', Hf|]. by replace (n + S m)%nat with (S n + m)%nat by lia.
Qed.

Lemma total_max_size_fixed (ls ls' : list limit) :
  fixed <$> ls' = fixed <$> ls -> total_max_size ls' = total_max_size ls.
Proof.
  revert ls'; induction ls as [|l ls IH]; intros [|l' ls']; simpl; try done.
  intros E. injection E as _ _ _ Hm E. rewrite Hm, (IH ls' E). done.
Qed.

Lemma max_size_fixed (ls ls' : list limit) :
  fixed <$> ls' = fixed <$> ls -> (forall l, l ∈ ls' -> 0 < l_max_size l) -> forall l, l ∈ ls -> 0 < l_max_size l.
Proof.
  revert ls'; induction ls as [|l ls IH]; intros [|l' ls'] E Hp k Hk; try done;
    [by apply elem_of_nil in Hk|].
  simpl in E. injection E as _ _ _ Hm E. apply elem_of_cons in Hk as [->|Hk].
  - rewrite <- Hm. apply Hp. by left.
  - apply (IH ls' E); [|done]. intros; apply Hp. by right.
Qed.

Lemma validate_loop_total (us : list user) (m n : nat) (ls ls' : list limit) (total total' : Z) :
  length ls = (n + m)%nat -> (forall l, l ∈ ls -> 0 < l_max_size l) -> 0 <= total ->
  total + total_max_size (drop n ls) < 2 ^ 31 ->
  validate_loop us ls total (seq n m) = Some (ls', total') -> total' = total + total_max_size (drop n ls).
Proof.
  revert n ls total. induction m as [|m IH]; intros n ls total Hl Hp Ht Hlt; simpl.
  { intros [= <- <-]. rewrite drop_ge by lia. simpl. lia. }
  intros (ls1 & He & Hr)%bind_Some. destruct (lookup_lt_is_Some_2 ls n) as [l Hn]; [lia|].
  destruct (validate_entry_ok us ls ls1 n l Hn He) as (Hf & _ & l' & -> & _).
  rewrite (list_lookup_total_correct _ _ _ Hn) in Hr. rewrite (drop_S _ _ _ Hn) in *. simpl in *.
  assert (0 < l_max_size l) by (apply Hp, list_elem_of_lookup; by exists n).
  assert (0 <= total_max_size (drop (S n) ls)).
  { apply total_max_size_nonneg. intros k (j & Hj)%list_elem_of_lookup. rewrite lookup_drop in Hj.
    apply Hp, list_elem_of_lookup. by eexists. }
  rewrite wraps_id in Hr by (unfold in_i; simpl; lia).
  apply IH in Hr; [|rewrite length_insert; lia|by eapply max_size_fixed|lia|];
    rewrite drop_insert_lt in * by lia; lia.
Qed.

Lemma validate_fixed (us : list user) (ls ls' : list limit) (max_connections : Z) :
  validate_limit_configuration us ls max_connections = Some ls' ->
  fixed <$> ls' = fixed <$> ls /\
  (forall i l, ls' !! i = Some l -> sizes_ok l /\ names_ok ls' i l) /\
  (total_max_size ls < 2 ^ 31 -> total_max_size ls <= max_connections).
Proof.
  unfold validate_limit_configuration. intros ([ls1 total] & Hr & Hm)%bind_Some.
  destruct (_ <? _) eqn:Ht; [done|]. injection Hm as ->. unfold upto in Hr. rewrite Nat2Z.id in Hr.
  destruct (validate_loop_ok _ _ 0 _ _ _ _ eq_refl ltac:(intros i l Hi; lia) Hr) as [Hf Hc].
  assert (forall i l, ls' !! i = Some l -> sizes_ok l /\ names_ok ls' i l) as Hall.
  { intros i l Hi. apply Hc; [|done]. apply lookup_lt_Some in Hi.
    assert (length (fixed <$> ls') = length (fixed <$> ls)) as E by by rewrite Hf.
    rewrite !length_fmap in E. lia. }
  split; [done|]. split; [done|]. intros Hsum.
  assert (forall l, l ∈ ls -> 0 < l_max_size l) as Hp.
  { apply (max_size_fixed _ _ Hf). intros l (i & Hi)%list_elem_of_lookup. by apply (Hall i). }
  pose proof (validate_loop_total us (length ls) 0 ls ls' 0 total eq_refl Hp ltac:(lia) Hsum Hr) as E.
  rewrite drop_0 in E. apply Z.ltb_ge in Ht. lia.
Qed.

Lemma validate_valid (cfg : config) (ls : list limit) :
  validate_limit_configuration (users cfg) ls (max_connections cfg) = Some (limits cfg) ->
  total_max_size ls < 2 ^ 31 -> ValidLimits cfg.
Proof.
  intros (Hf & Hall & Ht)%validate_fixed Hsum.
  assert (forall l, l ∈ limits cfg -> sizes_ok l) as Hs
    by (intros l (i & Hi)%list_elem_of_lookup; by apply (Hall i)).
  split; try (intros l Hl; apply (Hs l Hl)).
  - rewrite (total_max_size_fixed _ _ Hf). auto.
  - intros i j l1 l2 a Hi Hj H1 H2. destruct (decide (i = j)) as [|Hne]; [done|].
    destruct (Hall i l1 Hi) as [_ Hn]. destruct (Hn a H1) as (_ & _ & Ho). by destruct (Ho j l2 (not_eq_sym Hne) Hj).
  - intros l1 l2 (i & Hi)%list_elem_of_lookup Hl2 Hin. destruct (Hall i l1 Hi) as [_ Hn].
    destruct (Hn _ Hin) as (_ & Hd & _). by apply (Hd l2).
Qed.

(** Limits that [pgagroal_validate_limit_configuration] lets through keep their names
    and maximal sizes and satisfy the interface of the pool: the sizes are consistent,
    the maximal sizes fit [max_connections] together, and an alias belongs to one entry
    and is no database name. *)
Theorem limits_validated (cfg : config) (ls : list limit)
  (H : validate_limit_configuration (users cfg) ls (max_connections cfg) = Some (limits cfg))
  (Hsum : total_max_size ls < 2 ^ 31) :
  fixed <$> limits cfg = fixed <$> ls /\ ValidLimits cfg.
Proof. split; [by apply validate_fixed in H as [? _]|by apply (validate_valid cfg ls)]. Qed.

(** An entry whose sizes are adjusted: 9 connections at the start, of at most 4. *)
Lemma limits_validated_witness :
  let cfg := Config 10 [Limit "db" "alice" ["a"; "b"] 4 4 2 1; Limit "all" "all" [] 3 0 0 2]
    [User "alice" "pw"] [] false false false "" 0 250 60 0 5 VALIDATION_OFF STARTUP_VALIDATION_OFF "" ""
    RESET_DISCARD 0 in
  l_initial_size <$> limits cfg = [4; 0] /\ ValidLimits cfg.
Proof.
  split; [reflexivity|].
  refine (proj2 (limits_validated _ [Limit "db" "alice" ["a"; "b"] 4 9 2 1; Limit "all" "all" [] 3 0 0 2] _ _)); done.
Defined.
