(* ===== verification/Effects.v ===== *)
(** * Effects: how a process touches shared memory and the operating system

    A pgagroal process is a [prog]: a tree whose nodes are the single accesses
    it makes, each an atomic operation on the shared segment ([op]) or a call
    answered by the environment ([syscall]: sockets, clock, fork, the transfer
    socket to the main process, metrics).  The programs of the other files are
    written once against this type and have two meanings: [run] executes one
    process alone with an oracle that answers the calls, and the interleaving
    semantics of [PoolConc] lets the accesses of many processes alternate. *)

From S2P Require Import Prelude Config.

Local Open Scope Z_scope.

(** ** Calls answered by the environment *)

(** [include/tracker.h]: the events of the pool. *)
Inductive tracker_event :=
| TRACKER_GET_CONNECTION_SUCCESS | TRACKER_GET_CONNECTION_TIMEOUT
| TRACKER_GET_CONNECTION_ERROR | TRACKER_RETURN_CONNECTION_SUCCESS
| TRACKER_RETURN_CONNECTION_KILL | TRACKER_KILL_CONNECTION | TRACKER_BAD_CONNECTION
| TRACKER_IDLE_TIMEOUT | TRACKER_MAX_CONNECTION_AGE | TRACKER_INVALID_CONNECTION
| TRACKER_FLUSH | TRACKER_REMOVE_CONNECTION | TRACKER_PREFILL | TRACKER_PREFILL_RETURN
| TRACKER_PREFILL_KILL.

(** The [pgagroal_prometheus_*] calls. *)
Inductive metric :=
| M_connection_get | M_connection_awaiting (rule : Z) | M_connection_unawaiting (rule : Z)
| M_client_wait_time (seconds : Z) | M_connection_success | M_connection_timeout
| M_connection_error | M_connection_return | M_connection_kill | M_connection_remove
| M_connection_idletimeout | M_connection_max_connection_age | M_connection_invalid
| M_connection_flush | M_server_error (server : Z) | M_failed_servers.

(** The [CONNECTION_*] request identifiers of [include/connection.h]. *)
Inductive transfer_id :=
| CONNECTION_TRANSFER | CONNECTION_RETURN | CONNECTION_KILL | CONNECTION_CLIENT_FD
| CONNECTION_REMOVE_FD | CONNECTION_CLIENT_DONE | CONNECTION_GET_FD.

(** What a forked child is started for. *)
Inductive task :=
| TFlush (mode : flush_mode) (database : string)
| TFlushServer (server : Z)
| TPrefill (initial : bool).

(** How [waitpid] reports a script: it could not be forked, it exited with a
    status, or it ended in another way. *)
Inductive script_result := ScriptNoFork | ScriptExit (status : Z) | ScriptSignal.

(** A backend's TLS session: [struct tls] when the socket is decoupled. *)
Record tls := Tls { t_owned : bool; t_rbuf_len : Z; t_record : list Z }.
Record ssl := Ssl { ssl_tls : option tls }.

(** What a successful authentication stores in a connection. *)
Record auth_data := AuthData {
  a_has_security : Z;
  a_lengths : list Z;
  a_messages : list (list Z);
  a_backend_pid : Z;
  a_backend_secret : Z
}.

Inductive signal := SIGQUIT | SIGTRAP.

(** The result type is the index.  A call of C type [int] that only says
    success or failure answers [true] for failure, as the code tests it. *)
Inductive syscall : Type -> Type :=
| Time : syscall Z
| Sleep (ns : Z) : syscall unit
| Fork (t : task) : syscall unit
| Kill (pid : Z) (s : signal) : syscall unit
| SocketIsValid (fd : Z) : syscall bool
| SocketHasError (fd : Z) : syscall bool
| ConnectionIsValid (fd : Z) : syscall bool
| ConnectUnix (dir path : string) : syscall (option Z)
| ConnectTcp (host : string) (port : Z) : syscall (option Z)
| Disconnect (fd : Z) : syscall unit
| WriteTerminate (s : option ssl) (fd : Z) : syscall unit
| WriteResetQuery (s : option ssl) (fd : Z) : syscall bool
| ReleaseSsl (s : ssl) : syscall unit
| TlsRecordExport (record : list Z) : syscall (option (list Z))
| ConnectionGet : syscall (option Z)
| IdWrite (fd : Z) (id : transfer_id) : syscall bool
| SlotWrite (fd : Z) (slot : nat) : syscall bool
| TransferWrite (fd : Z) (slot : nat) : syscall bool
| GenerationWrite (fd : Z) (generation : Z) : syscall bool
| GenerationRead (fd : Z) : syscall (option Z)
| TransferRead (fd : Z) : syscall (option (Z * Z))
| FdIsOpen (fd : Z) : syscall bool
| Dup2 (old new : Z) : syscall bool
| FailoverScript (old_primary new_primary : nat) : syscall script_result
| NotifyStandbys (old_primary new_primary : nat) (standbys : list nat) : syscall unit
| QuerySystemIdentifier (server : nat) : syscall (bool * string * Z)
| StartupExchange (fd : Z) (username database : string) : syscall (option Z)
| ServerAuthenticate (slot : nat) (auth_type : Z) (username password : string) : syscall (option auth_data)
| RecoveryByte (slot : nat) : syscall (option Z)
| ServerParameters (slot : nat) : syscall (option (list (string * string)))
| Metric (m : metric) : syscall unit
| Track (e : tracker_event) (slot : nat) : syscall unit
| TrackBasic (e : tracker_event) (username database : string) : syscall unit.

(** ** Accesses to shared memory *)

Inductive op : Type -> Type :=
| LoadActive : op Z
| FetchAddActive (d : Z) : op Z
| FetchAddRuleActive (rule d : Z) : op Z
| FetchAddRuleBackend (rule d : Z) : op Z
| LoadState (i : nat) : op slot_state
| StoreState (i : nat) (s : slot_state) : op unit
| CasState (i : nat) (expected desired : slot_state) : op bool
| GetConn (i : nat) : op connection
| SetConn (i : nat) (f : connection -> connection) : op unit
| LoadServer (s : Z) : op server_state
| StoreServer (s : Z) (st : server_state) : op unit
| XchgServer (s : Z) (st : server_state) : op server_state
| CasServer (s : Z) (expected desired : server_state) : op bool
| ServerValid (s : Z) : op bool
| SetServerValid (s : Z) (b : bool) : op unit
| SetServerVersion (s version minor : Z) : op unit
| SetServerIdentifier (s version : Z) (identifier : string) : op unit
| LoadGracefully : op bool
| LoadKeepRunning : op bool
| Sys {R : Type} (c : syscall R) : op R.

(** ** Programs *)

Inductive prog (A : Type) : Type :=
| Ret (a : A)
| Vis {R : Type} (o : op R) (k : R -> prog A).
Arguments Ret {A} a.
Arguments Vis {A R} o k.

Fixpoint bind {A B} (p : prog A) (f : A -> prog B) : prog B :=
  match p with
  | Ret a => f a
  | Vis o k => Vis o (fun r => bind (k r) f)
  end.

Definition act {R} (o : op R) : prog R := Vis o Ret.
Definition sys {R} (c : syscall R) : prog R := Vis (Sys c) Ret.

Declare Scope prog_scope.
Delimit Scope prog_scope with prog.
Bind Scope prog_scope with prog.

Notation "x <- p ;; q" := (bind p (fun x => q))
  (at level 100, p at next level, right associativity) : prog_scope.
Notation "p ;;; q" := (bind p (fun _ => q))
  (at level 100, right associativity) : prog_scope.
Notation "'when' b 'do' p" := (if b then p else Ret tt)
  (at level 99, b at level 98, p at level 98) : prog_scope.

Open Scope prog_scope.

(** A [for] loop over the indices [l] that threads its local variables [s]. *)
Fixpoint for_each {A S} (l : list A) (s : S) (body : A -> S -> prog S) : prog S :=
  match l with
  | [] => Ret s
  | x :: l => s' <- body x s ;; for_each l s' body
  end.

(** A [for] loop whose body may leave it with a value. *)
Fixpoint for_until {A B} (l : list A) (body : A -> prog (option B)) : prog (option B) :=
  match l with
  | [] => Ret None
  | x :: l => r <- body x ;; match r with Some b => Ret (Some b) | None => for_until l body end
  end.

(** ** One process alone *)

(** A call that was made, in the order of the calls. *)
Inductive event :=
| Ev {R : Type} (c : syscall R).

(** The oracle answers call number [n] of a run. *)
Definition oracle := forall R : Type, syscall R -> nat -> R.

Record world := World { w_shm : shm; w_trace : list event; w_tick : nat }.

Definition list_upd {A} `{Inhabited A} (f : A -> A) (i : nat) (l : list A) : list A :=
  <[i := f (l !!! i)]> l.

Definition upd_state (i : nat) (s : slot_state) (m : shm) : shm :=
  set_m_states (<[i := s]> (m_states m)) m.

Definition upd_conn (i : nat) (f : connection -> connection) (m : shm) : shm :=
  set_m_connections (list_upd f i (m_connections m)) m.

Definition upd_server (s : Z) (st : server_state) (m : shm) : shm :=
  set_m_server_states (<[Z.to_nat s := st]> (m_server_states m)) m.

Definition add_active (d : Z) (m : shm) : shm :=
  set_m_active_connections (u16 (m_active_connections m + d)) m.

Definition add_rule_active (r d : Z) (m : shm) : shm :=
  set_m_limit_active (list_upd (fun x => u16 (x + d)) (Z.to_nat r) (m_limit_active m)) m.

Definition add_rule_backend (r d : Z) (m : shm) : shm :=
  set_m_limit_backend (list_upd (fun x => u16 (x + d)) (Z.to_nat r) (m_limit_backend m)) m.

Definition upd_server_version (s version minor : Z) (m : shm) : shm :=
  set_m_server_minor_version (<[Z.to_nat s := minor]> (m_server_minor_version m))
    (set_m_server_version (<[Z.to_nat s := version]> (m_server_version m)) m).

Definition upd_server_identifier (s version : Z) (identifier : string) (m : shm) : shm :=
  set_m_server_identifier (<[Z.to_nat s := identifier]> (m_server_identifier m))
    (if 0 <? version
     then set_m_server_version (<[Z.to_nat s := version / 100]> (m_server_version m)) m
     else m).

(** The effect of one access on the shared segment.  A call does not touch it. *)
Definition exec_shm {R} (o : op R) (answer : forall Q, syscall Q -> Q) (m : shm) : R * shm :=
  match o in op R return R * shm with
  | LoadActive => (m_active_connections m, m)
  | FetchAddActive d => (m_active_connections m, add_active d m)
  | FetchAddRuleActive r d => (rule_active m r, add_rule_active r d m)
  | FetchAddRuleBackend r d => (rule_backend m r, add_rule_backend r d m)
  | LoadState i => (state_at m i, m)
  | StoreState i s => (tt, upd_state i s m)
  | CasState i expected desired =>
      if decide (state_at m i = expected) then (true, upd_state i desired m) else (false, m)
  | GetConn i => (conn_at m i, m)
  | SetConn i f => (tt, upd_conn i f m)
  | LoadServer s => (server_state_at m s, m)
  | StoreServer s st => (tt, upd_server s st m)
  | XchgServer s st => (server_state_at m s, upd_server s st m)
  | CasServer s expected desired =>
      if decide (server_state_at m s = expected) then (true, upd_server s desired m)
      else (false, m)
  | ServerValid s => (server_valid_at m s, m)
  | SetServerValid s b => (tt, set_m_server_valid (<[Z.to_nat s := b]> (m_server_valid m)) m)
  | SetServerVersion s version minor => (tt, upd_server_version s version minor m)
  | SetServerIdentifier s version id => (tt, upd_server_identifier s version id m)
  | LoadGracefully => (m_gracefully m, m)
  | LoadKeepRunning => (m_keep_running m, m)
  | Sys c => (answer _ c, m)
  end.

Definition events_of {R} (o : op R) : list event :=
  match o with Sys c => [Ev c] | _ => [] end.

Section run.
Context (orc : oracle).

Definition exec {R} (o : op R) (w : world) : R * world :=
  let '(r, m) := exec_shm o (fun _ c => orc _ c (w_tick w)) (w_shm w) in
  let es := events_of o in
  (r, World m (w_trace w ++ es) (length es + w_tick w)).

Fixpoint run {A} (p : prog A) (w : world) : A * world :=
  match p with
  | Ret a => (a, w)
  | Vis o k => let '(r, w') := exec o w in run (k r) w'
  end.
End run.

(** ** Reasoning about one process for every behaviour of the environment

    [wp p Q m]: started in [m], whatever the calls answer, the program ends in a
    segment and with a value that satisfy [Q]. *)

Fixpoint wp {A} (p : prog A) (Q : A -> shm -> Prop) (m : shm) : Prop :=
  match p with
  | Ret a => Q a m
  | Vis o k =>
      forall answer, let '(r, m') := exec_shm o answer m in wp (k r) Q m'
  end.

Lemma wp_bind {A B} (p : prog A) (f : A -> prog B) (Q : B -> shm -> Prop) (m : shm) :
  wp (bind p f) Q m <-> wp p (fun a m' => wp (f a) Q m') m.
Proof.
  revert m; induction p as [a|R o k IH]; intros m; simpl; [done|].
  split; intros H answer; specialize (H answer); destruct (exec_shm o answer m) as [r m'];
    by apply IH.
Qed.

Lemma wp_mono {A} (p : prog A) (P Q : A -> shm -> Prop) (m : shm) :
  (forall a m', P a m' -> Q a m') -> wp p P m -> wp p Q m.
Proof.
  intros HPQ; revert m; induction p as [a|R o k IH]; intros m; simpl; [by auto|].
  intros H answer; specialize (H answer); destruct (exec_shm o answer m) as [r m']; by apply IH.
Qed.

Lemma wp_sys {A R} (c : syscall R) (k : R -> prog A) (Q : A -> shm -> Prop) (m : shm) :
  (forall r, wp (k r) Q m) -> wp (Vis (Sys c) k) Q m.
Proof. intros H answer; simpl; apply H. Qed.

(** [run] with any oracle is one of the executions [wp] quantifies over. *)
Lemma wp_run {A} (p : prog A) (Q : A -> shm -> Prop) (orc : oracle) (w : world) :
  wp p Q (w_shm w) -> Q (fst (run orc p w)) (w_shm (snd (run orc p w))).
Proof.
  revert w; induction p as [a|R o k IH]; intros w; simpl; [done|].
  unfold exec; intros H; specialize (H (fun _ c => orc _ c (w_tick w))).
  destruct (exec_shm o _ (w_shm w)) as [r m'] eqn:E.
  apply (IH r (World m' (w_trace w ++ events_of o) (length (events_of o) + w_tick w))), H.
Qed.

Lemma run_bind {A B} (orc : oracle) (p : prog A) (f : A -> prog B) (w : world) :
  run orc (bind p f) w = let '(a, w') := run orc p w in run orc (f a) w'.
Proof.
  revert w; induction p as [a|R o k IH]; intros w; simpl; [done|].
  destruct (exec orc o w) as [r w']; apply IH.
Qed.

Lemma wp_act {R} (o : op R) (Q : R -> shm -> Prop) (m : shm) :
  (forall answer, let '(r, m') := exec_shm o answer m in Q r m') -> wp (act o) Q m.
Proof. intros H answer; apply H. Qed.

Lemma wp_syscall {R} (c : syscall R) (Q : R -> shm -> Prop) (m : shm) :
  (forall r, Q r m) -> wp (sys c) Q m.
Proof. intros H answer; apply H. Qed.

Lemma wp_cas_state (i : nat) (e d : slot_state) (Q : bool -> shm -> Prop) (m : shm) :
  (state_at m i = e -> Q true (upd_state i d m)) -> (state_at m i <> e -> Q false m) ->
  wp (act (CasState i e d)) Q m.
Proof. intros Ht Hf. apply wp_act. intros answer. cbn [exec_shm]. case_decide; auto. Qed.

Lemma wp_cas_server (s : Z) (e d : server_state) (Q : bool -> shm -> Prop) (m : shm) :
  (server_state_at m s = e -> Q true (upd_server s d m)) -> (server_state_at m s <> e -> Q false m) ->
  wp (act (CasServer s e d)) Q m.
Proof. intros Ht Hf. apply wp_act. intros answer. cbn [exec_shm]. case_decide; auto. Qed.

(** ** Programs that only read the segment *)

Definition readonly_op {R} (o : op R) : Prop :=
  match o with
  | LoadActive | LoadState _ | GetConn _ | LoadServer _ | ServerValid _ | LoadGracefully
  | LoadKeepRunning | Sys _ => True
  | _ => False
  end.

Fixpoint readonly {A} (p : prog A) : Prop :=
  match p with
  | Ret _ => True
  | Vis o k => readonly_op o /\ forall r, readonly (k r)
  end.

Lemma readonly_wp {A} (p : prog A) (Q : A -> shm -> Prop) (m : shm) :
  readonly p -> (forall a, Q a m) -> wp p Q m.
Proof.
  intros Hp HQ. induction p as [a|R o k IH]; [apply HQ|]. destruct Hp as [Ho Hk].
  destruct o; try done; intros answer; cbn [exec_shm]; apply IH, Hk.
Qed.

Lemma readonly_bind {A B} (p : prog A) (f : A -> prog B) :
  readonly p -> (forall a, readonly (f a)) -> readonly (bind p f).
Proof.
  intros Hp Hf. induction p as [a|R o k IH]; [apply Hf|]. destruct Hp as [Ho Hk].
  split; [done|]. intros r. apply IH, Hk.
Qed.

Lemma readonly_for_until {A B} (l : list A) (body : A -> prog (option B)) :
  (forall x, readonly (body x)) -> readonly (for_until l body).
Proof.
  intros H. induction l as [|x l IH]; [done|]. apply readonly_bind; [apply H|]. by intros [].
Qed.

Lemma readonly_for_each {A S} (l : list A) (s : S) (body : A -> S -> prog S) :
  (forall x s, readonly (body x s)) -> readonly (for_each l s body).
Proof.
  intros H. revert s; induction l as [|x l IH]; intros s; [done|]. apply readonly_bind; [apply H|done].
Qed.

Ltac solve_readonly :=
  repeat first
    [ done
    | apply readonly_bind; [|intros ?]
    | apply readonly_for_until; intros ?
    | apply readonly_for_each; intros ? ?
    | match goal with
      | |- readonly (act _) => split; [exact I|done]
      | |- readonly (sys _) => split; [exact I|done]
      | |- readonly (if ?b then _ else _) => destruct b
      | |- readonly (match ?x with _ => _ end) => destruct x
      end
    | progress cbv zeta ].

(** Symbolic execution of a program without loops: every call answers anything. *)
Ltac wp_step :=
  match goal with
  | |- wp (bind _ _) _ _ => apply wp_bind
  | |- wp (sys _) _ _ =>
      apply wp_syscall; let r := fresh "r" in intros r;
      lazymatch type of r with unit => destruct r | _ => idtac end; cbv beta
  | |- wp (act (CasState ?i ?e ?d)) _ _ =>
      apply wp_cas_state; intros ?; cbv beta iota
  | |- wp (act (CasServer ?i ?e ?d)) _ _ =>
      apply wp_cas_server; intros ?; cbv beta iota
  | |- wp (act _) _ _ => apply wp_act; intros ?; cbn [exec_shm]; cbv beta iota
  | |- wp (Ret _) _ _ => cbn [wp]
  | |- wp (if ?b then _ else _) _ _ =>
      lazymatch eval cbv in b with
      | true => cbn [negb]
      | false => cbn [negb]
      | _ => let E := fresh "E" in destruct b eqn:E
      end; cbv iota
  | |- wp (match ?x with Some _ => _ | None => _ end) _ _ => destruct x eqn:?
  end; cbv zeta.
