(* ===== verification/Server.v ===== *)
(** * Servers: the primary, failover and duplicate detection ([libpgagroal/server.c])

    The state of a server is an [atomic_schar] of the shared segment.  The
    scripts, the queries to a server and the messages are calls answered by the
    environment. *)

From S2P Require Import Prelude Text Config Effects.
From Stdlib Require Import Ascii.

Local Open Scope Z_scope.

(** ** [sscanf(s, "%d.%d", &major, &minor)] *)

(** A [%d] conversion: blanks, an optional sign, at least one digit. *)
Definition scan_d (s : string) : option (Z * string) :=
  let s := skip_space s in
  let '(sg, s) := match s with
                  | String "-" s' => (-1, s')
                  | String "+" s' => (1, s')
                  | _ => (1, s)
                  end%char in
  match s with
  | String c _ => if is_digit c then let '(v, r) := scan_digits 0 s in Some (sg * v, r) else None
  | EmptyString => None
  end.

Definition sscanf_version (s : string) : option (Z * Z) :=
  match scan_d s with
  | Some (major, String "." r) =>
      match scan_d r with Some (minor, _) => Some (major, minor) | None => None end
  | _ => None
  end.

(** ** Operations *)

Section server.
Context (cfg : config).

Definition server_indices : list nat := upto (number_of_servers cfg).

(** The first server of [l] that is valid and whose state satisfies [p]: the
    loops [for (i = 0; primary == -1 && i < number_of_servers; i++)]. *)
Definition find_server (p : server_state -> bool) (l : list nat) : prog (option nat) :=
  for_until l (fun i =>
    v <- act (ServerValid (Z.of_nat i)) ;;
    if negb v then Ret None
    else
      st <- act (LoadServer (Z.of_nat i)) ;;
      Ret (if p st then Some i else None)).

(** [pgagroal_get_primary]; [None] is the error return. *)
Definition get_primary : prog (option nat) :=
  primary <- find_server (fun st => bool_decide (st = SERVER_PRIMARY)) server_indices ;;
  match primary with
  | Some i => Ret (Some i)
  | None =>
      primary <- find_server (fun st => bool_decide (st = SERVER_NOTINIT_PRIMARY)) server_indices ;;
      match primary with
      | Some i => Ret (Some i)
      | None =>
          find_server (fun st => negb (bool_decide (st = SERVER_FAILOVER))
                                 && negb (bool_decide (st = SERVER_FAILED))) server_indices
      end
  end.

(** [pgagroal_server_is_primary]. *)
Definition server_is_primary (i : nat) : prog bool :=
  st <- act (LoadServer (Z.of_nat i)) ;;
  Ret (bool_decide (st = SERVER_PRIMARY) || bool_decide (st = SERVER_NOTINIT_PRIMARY)).

(** [has_active_connections]. *)
Definition has_active_connections (server_idx : nat) : prog bool :=
  r <- for_until (upto (max_connections cfg)) (fun k =>
    st <- act (LoadState k) ;;
    if negb (bool_decide (st = STATE_NOTINIT)) && negb (bool_decide (st = STATE_INIT))
       && negb (bool_decide (st = STATE_FREE))
    then
      c <- act (GetConn k) ;;
      Ret (if c_server c =? Z.of_nat server_idx then Some tt else None)
    else Ret None) ;;
  Ret (bool_decide (is_Some r)).

(** [determine_loser]. *)
Definition determine_loser (i j : nat) : prog nat :=
  i_active <- has_active_connections i ;;
  j_active <- has_active_connections j ;;
  if i_active && negb j_active then Ret j
  else if j_active && negb i_active then Ret i
  else
    pi <- server_is_primary i ;;
    nj <- (if pi : bool then pj <- server_is_primary j ;; Ret (negb pj) else Ret false) ;;
    if pi && nj then Ret j
    else
      pj <- server_is_primary j ;;
      ni <- (if pj : bool then pi <- server_is_primary i ;; Ret (negb pi) else Ret false) ;;
      if pj && ni then Ret i
      else Ret (if (i <? j)%nat then i else j).

(** First loop of [pgagroal_check_server_identifiers]: query every valid
    server; [None] is the fatal return of a strict check. *)
Fixpoint query_identifiers (strict : bool) (l : list nat) (ids : list string) (vers : list Z) :
  prog (option (list string * list Z)) :=
  match l with
  | [] => Ret (Some (ids, vers))
  | i :: l =>
      v <- act (ServerValid (Z.of_nat i)) ;;
      if negb v then query_identifiers strict l ids vers
      else
        q <- sys (QuerySystemIdentifier i) ;;
        let '(failed, identifier, version) := q in
        let ids := <[i := identifier]> ids in
        let vers := <[i := version]> vers in
        if failed : bool then
          if bool_decide (startup_validation cfg = STARTUP_VALIDATION_ON) && strict
          then Ret None
          else query_identifiers strict l ids vers
        else
          act (SetServerIdentifier (Z.of_nat i) version identifier) ;;;
          query_identifiers strict l ids vers
  end.

(** Inner loop of the duplicate check for server [i]; [false] is the fatal
    return of a strict check. *)
Fixpoint check_duplicates_of (strict : bool) (ids : list string) (i : nat) (l : list nat) : prog bool :=
  match l with
  | [] => Ret true
  | j :: l =>
      v <- act (ServerValid (Z.of_nat j)) ;;
      if negb v then check_duplicates_of strict ids i l
      else
        pj <- (if streq (ids !!! j) "" then Ret true else server_is_primary j) ;;
        if pj : bool then check_duplicates_of strict ids i l
        else if streq (ids !!! i) (ids !!! j) then
          if strict then Ret false
          else
            loser <- determine_loser i j ;;
            act (SetServerValid (Z.of_nat loser) false) ;;;
            if (loser =? i)%nat then Ret true else check_duplicates_of strict ids i l
        else check_duplicates_of strict ids i l
  end.

(** Outer loop of the duplicate check. *)
Fixpoint check_duplicates (strict : bool) (ids : list string) (l : list nat) : prog bool :=
  match l with
  | [] => Ret true
  | i :: l =>
      v <- act (ServerValid (Z.of_nat i)) ;;
      if negb v then check_duplicates strict ids l
      else
        pi <- (if streq (ids !!! i) "" then Ret true else server_is_primary i) ;;
        if pi : bool then check_duplicates strict ids l
        else
          ok <- check_duplicates_of strict ids i
                  (seq (S i) (length (servers cfg) - S i)) ;;
          if ok : bool then check_duplicates strict ids l else Ret false
  end.

(** [pgagroal_check_server_identifiers]; the version comparison that ends it
    only writes log lines. *)
Definition check_server_identifiers (strict : bool) : prog Z :=
  if bool_decide (startup_validation cfg = STARTUP_VALIDATION_OFF) then Ret 0
  else if streq (health_check_user cfg) "" then
    if bool_decide (startup_validation cfg = STARTUP_VALIDATION_ON)
    then (if strict then Ret 1 else Ret 0)
    else Ret 0
  else
    q <- query_identifiers strict server_indices
           (replicate (length (servers cfg)) "") (replicate (length (servers cfg)) 0) ;;
    match q with
    | None => Ret 1
    | Some (ids, _) =>
        ok <- check_duplicates strict ids server_indices ;;
        Ret (if ok : bool then 0 else 1)
    end.

(** [notify_standbys]: the child collects the standbys and runs the script. *)
Definition notify_standbys (old_primary new_primary : nat) : prog unit :=
  standbys <- for_each server_indices [] (fun i acc =>
    v <- act (ServerValid (Z.of_nat i)) ;;
    if negb v then Ret acc
    else if (i =? old_primary)%nat || (i =? new_primary)%nat then Ret acc
    else
      st <- act (LoadServer (Z.of_nat i)) ;;
      Ret (if bool_decide (st = SERVER_REPLICA) || bool_decide (st = SERVER_NOTINIT)
              || bool_decide (st = SERVER_NOTINIT_PRIMARY)
           then acc ++ [i] else acc)) ;;
  match standbys with
  | [] => Ret tt
  | _ => sys (NotifyStandbys old_primary new_primary standbys)
  end.

(** [failover]. *)
Definition do_failover (old_primary : nat) : prog Z :=
  new_primary <- find_server (fun st => bool_decide (st = SERVER_NOTINIT)
                                        || bool_decide (st = SERVER_NOTINIT_PRIMARY)
                                        || bool_decide (st = SERVER_REPLICA)) server_indices ;;
  match new_primary with
  | None => act (StoreServer (Z.of_nat old_primary) SERVER_FAILED) ;;; Ret 1
  | Some new_primary =>
      r <- sys (FailoverScript old_primary new_primary) ;;
      match r with
      | ScriptNoFork => act (StoreServer (Z.of_nat old_primary) SERVER_FAILED) ;;; Ret 1
      | ScriptExit status =>
          act (StoreServer (Z.of_nat old_primary) SERVER_FAILED) ;;;
          if status =? 0 then
            act (StoreServer (Z.of_nat new_primary) SERVER_PRIMARY) ;;;
            (when negb (streq (failover_notify_script cfg) "")
             do notify_standbys old_primary new_primary) ;;;
            Ret 0
          else act (StoreServer (Z.of_nat new_primary) SERVER_FAILED) ;;; Ret 0
      | ScriptSignal =>
          act (StoreServer (Z.of_nat old_primary) SERVER_FAILED) ;;;
          act (StoreServer (Z.of_nat new_primary) SERVER_FAILED) ;;;
          Ret 0
      end
  end.

(** [pgagroal_server_failover]. *)
Definition server_failover (slot : nat) : prog Z :=
  c <- act (GetConn slot) ;;
  let old_primary := c_server c in
  ok <- act (CasServer old_primary SERVER_PRIMARY SERVER_FAILOVER) ;;
  if ok : bool then
    ret <- do_failover (Z.to_nat old_primary) ;;
    sys (Fork (TFlushServer old_primary)) ;;;
    Ret ret
  else Ret 1.

(** [pgagroal_server_force_failover]. *)
Definition server_force_failover (server : nat) : prog Z :=
  cur_state <- act (LoadServer (Z.of_nat server)) ;;
  if negb (bool_decide (cur_state = SERVER_FAILOVER)) && negb (bool_decide (cur_state = SERVER_FAILED))
  then
    prev_state <- act (XchgServer (Z.of_nat server) SERVER_FAILOVER) ;;
    if bool_decide (prev_state = SERVER_NOTINIT) || bool_decide (prev_state = SERVER_NOTINIT_PRIMARY)
       || bool_decide (prev_state = SERVER_PRIMARY) || bool_decide (prev_state = SERVER_REPLICA)
    then do_failover server
    else if bool_decide (prev_state = SERVER_FAILED)
    then act (StoreServer (Z.of_nat server) SERVER_FAILED) ;;; Ret 1
    else Ret 1
  else Ret 1.

(** The server named [name] among the valid ones. *)
Definition find_server_by_name (name : string) : prog (option nat) :=
  for_until server_indices (fun i =>
    v <- act (ServerValid (Z.of_nat i)) ;;
    Ret (if v && streq (s_name (servers cfg !!! i)) name then Some i else None)).

(** [pgagroal_server_clear]. *)
Definition server_clear (name : string) : prog Z :=
  r <- find_server_by_name name ;;
  match r with
  | Some i =>
      st <- act (LoadServer (Z.of_nat i)) ;;
      (when bool_decide (st = SERVER_FAILED) do act (StoreServer (Z.of_nat i) SERVER_NOTINIT)) ;;;
      Ret 0
  | None => Ret 1
  end.

(** [pgagroal_server_switch]. *)
Definition server_switch (name : string) : prog Z :=
  old_primary <- find_server (fun st => bool_decide (st = SERVER_PRIMARY)) server_indices ;;
  new_primary <- find_server_by_name name ;;
  match old_primary, new_primary with
  | Some old, Some new =>
      if (old =? new)%nat then Ret 0
      else
        act (StoreServer (Z.of_nat old) SERVER_FAILED) ;;;
        act (StoreServer (Z.of_nat new) SERVER_PRIMARY) ;;;
        Ret 0
  | None, Some new => act (StoreServer (Z.of_nat new) SERVER_PRIMARY) ;;; Ret 0
  | _, None => Ret 1
  end.

(** [process_server_parameters]: the versions start at 0; a version that does
    not scan makes the status 1. *)
Definition process_server_parameters (server : Z) (parameters : list (string * string)) : prog Z :=
  act (SetServerVersion server 0 0) ;;;
  for_each parameters 0 (fun '(tag, value) status =>
    if streq "server_version" tag then
      match sscanf_version value with
      | Some (major, minor) => act (SetServerVersion server major minor) ;;; Ret status
      | None => Ret 1
      end
    else Ret status).

(** [pgagroal_update_server_state]: the byte at offset 54 of the answer to
    [SELECT * FROM pg_is_in_recovery()] is ['f'] on a primary. *)
Definition update_server_state (slot : nat) : prog Z :=
  c <- act (GetConn slot) ;;
  let server := c_server c in
  b <- sys (RecoveryByte slot) ;;
  match b with
  | None => Ret 1
  | Some state =>
      act (StoreServer server (if state =? 102 then SERVER_PRIMARY else SERVER_REPLICA)) ;;;
      ps <- sys (ServerParameters slot) ;;
      match ps with
      | None => Ret 1
      | Some ps =>
          status <- process_server_parameters server ps ;;
          Ret (if status =? 0 then 0 else 1)
      end
  end.
End server.
