(* ===== verification/ServerFacts.v ===== *)
(** * Theorems on servers: choosing the primary, failover, switch, duplicates

    All statements are about one process, for every answer of the environment
    ([wp]): which server [pgagroal_get_primary] chooses, what a failover does to
    the server states, that switching leaves one primary, and that the check of
    system identifiers leaves one server per identifier. *)

From S2P Require Import Prelude Config Effects Server.

Local Open Scope Z_scope.

Section server_facts.
Context (cfg : config).

Definition valid_at (m : shm) (i : nat) : bool := server_valid_at m (Z.of_nat i).
Definition sstate (m : shm) (i : nat) : server_state := server_state_at m (Z.of_nat i).

Lemma in_servers (i : nat) : i ∈ server_indices cfg <-> (i < length (servers cfg))%nat.
Proof. unfold server_indices, number_of_servers. rewrite elem_of_upto. lia. Qed.

Lemma sstate_upd (m : shm) (i j : nat) (st : server_state) :
  (j < length (m_server_states m))%nat ->
  sstate (upd_server (Z.of_nat i) st m) j = if decide (i = j) then st else sstate m j.
Proof.
  intros Hj. unfold sstate, server_state_at, upd_server; simpl. rewrite !Nat2Z.id.
  destruct (decide (i = j)) as [->|]; [by apply lookup_total_insert_eq|by apply lookup_total_insert_ne].
Qed.

(** ** The search loops *)

(** What a search over the servers finds, as a function of the segment. *)
Definition first_server (m : shm) (p : server_state -> bool) (l : list nat) : option nat :=
  List.find (fun i => valid_at m i && p (sstate m i)) l.

Lemma wp_find_server (p : server_state -> bool) (l : list nat) (Q : option nat -> shm -> Prop) (m : shm) :
  Q (first_server m p l) m -> wp (find_server p l) Q m.
Proof.
  unfold find_server. induction l as [|i l IH]; intros HQ; [exact HQ|].
  unfold first_server in HQ; simpl in HQ. unfold valid_at at 1, sstate at 1 in HQ.
  cbn [for_until]. do 3 wp_step. destruct (server_valid_at m (Z.of_nat i)); cbn [negb andb] in *.
  - do 3 wp_step. destruct (p (server_state_at m (Z.of_nat i))); [exact HQ|by apply IH].
  - by apply IH.
Qed.

Lemma first_server_Some (m : shm) (p : server_state -> bool) (i : nat) :
  first_server m p (server_indices cfg) = Some i ->
  (i < length (servers cfg))%nat /\ valid_at m i = true /\ p (sstate m i) = true /\
  forall j, (j < i)%nat -> valid_at m j = true -> p (sstate m j) = false.
Proof.
  intros H. unfold first_server in H.
  assert (forall n k, List.find (fun i => valid_at m i && p (sstate m i)) (seq k n) = Some i ->
    (k <= i < k + n)%nat /\ valid_at m i = true /\ p (sstate m i) = true /\
    forall j, (k <= j < i)%nat -> valid_at m j = true -> p (sstate m j) = false) as Hgen.
  { induction n as [|n IH]; intros k Hk; [done|]. simpl in Hk.
    destruct (valid_at m k && p (sstate m k)) eqn:E.
    - simplify_eq. bool_prop. destruct E. repeat split; try done; lia.
    - destruct (IH _ Hk) as (Hr & Hv & Hp & Hj). repeat split; try done; try lia.
      intros j Hjr Hvj. destruct (decide (j = k)) as [->|]; [by rewrite Hvj in E|].
      apply Hj; [lia|done]. }
  apply Hgen in H as (Hr & Hv & Hp & Hj). unfold number_of_servers in Hr.
  repeat split; [lia|done|done|]. intros j ? ?. apply Hj; [lia|done].
Qed.

Lemma first_server_None (m : shm) (p : server_state -> bool) :
  first_server m p (server_indices cfg) = None ->
  forall j, (j < length (servers cfg))%nat -> valid_at m j = true -> p (sstate m j) = false.
Proof.
  intros H j Hj Hv. pose proof (List.find_none _ _ H j) as Hn. simpl in Hn.
  rewrite Hv in Hn. apply Hn, list_elem_of_In, in_servers, Hj.
Qed.

(** ** Choosing the primary *)

(** How good a server is for a client: a primary, else one the configuration
    calls the primary, else any that has not failed. *)
Definition rank (st : server_state) : Z :=
  match st with
  | SERVER_PRIMARY => 0
  | SERVER_NOTINIT_PRIMARY => 1
  | SERVER_FAILOVER | SERVER_FAILED => 3
  | _ => 2
  end.

(** The best usable server, the lowest index among equals. *)
Definition best_server (m : shm) (r : option nat) : Prop :=
  match r with
  | Some i =>
      (i < length (servers cfg))%nat /\ valid_at m i = true /\ rank (sstate m i) < 3 /\
      forall j, (j < length (servers cfg))%nat -> valid_at m j = true ->
        rank (sstate m i) < rank (sstate m j) \/
        rank (sstate m i) = rank (sstate m j) /\ (i <= j)%nat
  | None =>
      forall j, (j < length (servers cfg))%nat -> valid_at m j = true -> rank (sstate m j) = 3
  end.

Lemma rank_bounds (st : server_state) : 0 <= rank st.
Proof. by destruct st. Qed.

(** A search for the states of rank [k] finds the best server, if no server has a
    better rank. *)
Lemma first_server_best (m : shm) (p : server_state -> bool) (i : nat) (k : Z) :
  first_server m p (server_indices cfg) = Some i ->
  (forall st, p st = (rank st =? k)) -> k < 3 ->
  (forall j, (j < length (servers cfg))%nat -> valid_at m j = true -> k <= rank (sstate m j)) ->
  best_server m (Some i).
Proof.
  intros E Hp Hk Hle. apply first_server_Some in E as (Hi & Hv & E & Hfirst).
  rewrite Hp in E. bool_prop. repeat split; try done; [lia|].
  intros j Hj Hvj. specialize (Hle j Hj Hvj). destruct (decide (i <= j)%nat) as [|Hlt]; [lia|].
  specialize (Hfirst j ltac:(lia) Hvj). rewrite Hp in Hfirst. bool_prop. lia.
Qed.

(** [pgagroal_get_primary] returns the best usable server: a primary if there
    is one, else the server configured as primary, else the first that is neither
    failed nor failing over; it fails exactly when no server is usable, and it
    changes nothing. *)
Theorem get_primary_best (m : shm) :
  wp (get_primary cfg) (fun r m' => m' = m /\ best_server m r) m.
Proof.
  unfold get_primary. wp_step. apply wp_find_server.
  destruct (first_server m _ _) as [i|] eqn:E1; [cbn [wp]; split; [done|]|].
  { refine (first_server_best m _ i 0 E1 _ _ _); [by intros []|lia|]. intros; apply rank_bounds. }
  wp_step. apply wp_find_server. pose proof (first_server_None _ _ E1) as N1. clear E1.
  destruct (first_server m _ _) as [i|] eqn:E2; [cbn [wp]; split; [done|]|].
  { refine (first_server_best m _ i 1 E2 _ _ _); [by intros []|lia|].
    intros j Hj Hv. specialize (N1 j Hj Hv). by destruct (sstate m j). }
  apply wp_find_server. split; [done|]. pose proof (first_server_None _ _ E2) as N2. clear E2.
  destruct (first_server m _ _) as [i|] eqn:E3.
  - assert (forall j, (j < length (servers cfg))%nat -> valid_at m j = true -> 2 <= rank (sstate m j)) as Hle.
    { intros j Hj Hv. specialize (N1 j Hj Hv). specialize (N2 j Hj Hv). by destruct (sstate m j). }
    apply first_server_Some in E3 as (Hi & Hv & E & Hfirst). pose proof (Hle i Hi Hv).
    assert (rank (sstate m i) < 3) by by destruct (sstate m i).
    repeat split; try done. intros j Hj Hvj. specialize (Hle j Hj Hvj).
    destruct (decide (i <= j)%nat) as [|Hlt]; [lia|left].
    specialize (Hfirst j ltac:(lia) Hvj). destruct (sstate m j); simpl in *; try done; lia.
  - intros j Hj Hv. pose proof (first_server_None _ _ E3 j Hj Hv) as N3. simpl in N3.
    specialize (N1 j Hj Hv). specialize (N2 j Hj Hv). by destruct (sstate m j).
Qed.

(** ** Failover *)

Definition candidate (st : server_state) : bool :=
  bool_decide (st = SERVER_NOTINIT) || bool_decide (st = SERVER_NOTINIT_PRIMARY)
  || bool_decide (st = SERVER_REPLICA).

(** The outcome of giving up [old]: it is failed; the first candidate is the new
    primary, or failed as well when the script did not succeed. *)
Definition gave_up (m : shm) (old : nat) (r : Z) (m' : shm) : Prop :=
  (r = 1 /\ m' = upd_server (Z.of_nat old) SERVER_FAILED m) \/
  exists new st,
    r = 0 /\ first_server m candidate (server_indices cfg) = Some new /\
    (st = SERVER_PRIMARY \/ st = SERVER_FAILED) /\
    m' = upd_server (Z.of_nat new) st (upd_server (Z.of_nat old) SERVER_FAILED m).

Lemma readonly_notify (old new : nat) : readonly (notify_standbys cfg old new).
Proof. unfold notify_standbys. solve_readonly. Qed.

Lemma wp_do_failover (m : shm) (old : nat) :
  wp (do_failover cfg old) (gave_up m old) m.
Proof.
  unfold do_failover. wp_step. apply wp_find_server. fold candidate.
  destruct (first_server m _ _) as [new|] eqn:E; [|do 3 wp_step; left; done].
  repeat wp_step. destruct r as [|status|].
  - repeat wp_step. by left.
  - do 2 wp_step. wp_step; bool_prop; [do 2 wp_step|].
    + wp_step. apply readonly_wp; [case_if; [apply readonly_notify|done]|].
      intros ?. right; exists new, SERVER_PRIMARY; auto.
    + do 3 wp_step. right; exists new, SERVER_FAILED; auto.
  - repeat wp_step. right; exists new, SERVER_FAILED; auto.
Qed.

Lemma upd_server_twice (s : Z) (a b : server_state) (m : shm) :
  upd_server s a (upd_server s b m) = upd_server s a m.
Proof. unfold upd_server; simpl. by rewrite list_insert_insert_eq. Qed.

(** Changing the state of a server that is no candidate to one that is none
    does not change the choice. *)
Lemma first_server_upd (m : shm) (p : server_state -> bool) (l : list nat) (old : nat) (st : server_state) :
  p (sstate m old) = false -> p st = false -> (length (m_server_states m) > old)%nat ->
  first_server (upd_server (Z.of_nat old) st m) p l = first_server m p l.
Proof.
  intros Ho Hs Hl. unfold first_server. induction l as [|i l IH]; [done|]. simpl.
  replace (p (sstate (upd_server (Z.of_nat old) st m) i)) with (p (sstate m i)); [by rewrite IH|].
  destruct (decide (old = i)) as [<-|Hne].
  - by rewrite sstate_upd, decide_True, Ho by done.
  - unfold sstate, server_state_at, upd_server; simpl. rewrite !Nat2Z.id.
    by rewrite lookup_total_insert_ne.
Qed.

(** A failover through [pgagroal_server_failover] acts only on a server that is
    the primary: it is marked failed, and a valid server that is neither failed nor
    failing over is made primary when the script succeeds and failed when it does
    not; every other server keeps its state.  For any other server the call answers
    1 and changes nothing. *)
Theorem server_failover_effect (slot old : nat) (m : shm) (Hwf : shm_wf cfg m)
  (Hs : c_server (conn_at m slot) = Z.of_nat old) (Ho : (old < length (servers cfg))%nat) :
  wp (server_failover cfg slot)
    (fun r m' => if bool_decide (sstate m old = SERVER_PRIMARY) then gave_up m old r m'
                 else r = 1 /\ m' = m) m.
Proof.
  unfold server_failover. do 2 wp_step. rewrite Hs, Nat2Z.id. wp_step. wp_step; last first.
  { wp_step. by rewrite bool_decide_eq_false_2. }
  rewrite bool_decide_eq_true_2 by done.
  wp_step. eapply wp_mono; [|apply wp_do_failover]. intros r m' Hg. do 3 wp_step.
  destruct Hg as [[-> ->]|(new & st & -> & E & Hst & ->)]; [left|right; exists new, st];
    rewrite !upd_server_twice; [done|].
  rewrite first_server_upd in E; [done| |done|rewrite (wf_server_states _ _ Hwf); lia].
  unfold sstate. by rewrite H.
Qed.

(** A forced failover acts on any server that has not failed; the server it
    promotes is never the one it gave up. *)
Theorem server_force_failover_effect (old : nat) (m : shm) (Hwf : shm_wf cfg m)
  (Ho : (old < length (servers cfg))%nat) :
  wp (server_force_failover cfg old)
    (fun r m' =>
       if bool_decide (rank (sstate m old) = 3) then r = 1 /\ m' = m
       else sstate m' old = SERVER_FAILED /\ (r = 0 \/ r = 1) /\
            forall i, (i < length (servers cfg))%nat -> i <> old ->
              sstate m' i = sstate m i \/
              candidate (sstate m i) = true /\ valid_at m i = true /\ r = 0 /\
              (sstate m' i = SERVER_PRIMARY \/ sstate m' i = SERVER_FAILED)) m.
Proof.
  pose proof (wf_server_states _ _ Hwf) as Hl.
  unfold server_force_failover. do 2 wp_step. fold (sstate m old).
  destruct (decide (rank (sstate m old) = 3)) as [E|E].
  { rewrite (bool_decide_eq_true_2 (rank _ = 3)) by done.
    destruct (sstate m old); try done; by repeat wp_step. }
  rewrite (bool_decide_eq_false_2 (rank _ = 3)) by done.
  assert (negb (bool_decide (sstate m old = SERVER_FAILOVER))
    && negb (bool_decide (sstate m old = SERVER_FAILED)) = true) as -> by by destruct (sstate m old).
  do 2 wp_step. fold (sstate m old).
  assert (bool_decide (sstate m old = SERVER_NOTINIT) || bool_decide (sstate m old = SERVER_NOTINIT_PRIMARY)
    || bool_decide (sstate m old = SERVER_PRIMARY) || bool_decide (sstate m old = SERVER_REPLICA) = true)
    as -> by by destruct (sstate m old).
  eapply wp_mono; [|apply wp_do_failover].
  intros r m' [[-> ->]|(new & st & -> & Ef & Hst & ->)]; rewrite upd_server_twice.
  { split; [by rewrite sstate_upd, decide_True by lia|]. split; [by right|]. intros i Hi Hne. left.
    by rewrite sstate_upd, decide_False by lia. }
  apply first_server_Some in Ef as (Hn & Hv & Hc & _).
  rewrite sstate_upd in Hc by lia.
  destruct (decide (old = new)) as [->|Hon]; [by destruct st|].
  assert (forall i, (i < length (servers cfg))%nat ->
    sstate (upd_server (Z.of_nat new) st (upd_server (Z.of_nat old) SERVER_FAILED m)) i =
    if decide (new = i) then st else if decide (old = i) then SERVER_FAILED else sstate m i) as Hs.
  { intros i Hi. rewrite sstate_upd by (simpl; rewrite length_insert; lia). case_decide; [done|].
    apply sstate_upd; lia. }
  rewrite Hs, decide_False, decide_True by (done || lia). split; [done|]. split; [by left|].
  intros i Hi Hne. rewrite Hs by done. case_decide; [subst; by right|]. left. by rewrite decide_False.
Qed.

(** ** Switch and clear *)

Definition named (m : shm) (name : string) (i : nat) : bool :=
  valid_at m i && streq (s_name (servers cfg !!! i)) name.

Lemma wp_find_server_by_name (name : string) (Q : option nat -> shm -> Prop) (m : shm) :
  Q (List.find (named m name) (server_indices cfg)) m -> wp (find_server_by_name cfg name) Q m.
Proof.
  unfold find_server_by_name. generalize (server_indices cfg) as l.
  induction l as [|i l IH]; intros HQ; [exact HQ|]. simpl in HQ. unfold named at 1, valid_at at 1 in HQ.
  cbn [for_until]. do 3 wp_step. destruct (_ && _); [exact HQ|by apply IH].
Qed.

Lemma find_named (m : shm) (name : string) (i : nat) :
  List.find (named m name) (server_indices cfg) = Some i ->
  (i < length (servers cfg))%nat /\ valid_at m i = true /\ s_name (servers cfg !!! i) = name.
Proof.
  intros H. apply List.find_some in H as [Hi H]. apply list_elem_of_In, in_servers in Hi.
  unfold named in H. bool_prop. naive_solver.
Qed.

(** At most one valid server is the primary. *)
Definition unique_primary (m : shm) : Prop :=
  forall i j, (i < length (servers cfg))%nat -> (j < length (servers cfg))%nat ->
    valid_at m i = true -> valid_at m j = true ->
    sstate m i = SERVER_PRIMARY -> sstate m j = SERVER_PRIMARY -> i = j.

(** [m'] is [m] with [new] as the primary in place of the one there was. *)
Definition switched (m : shm) (new : nat) (m' : shm) : Prop :=
  forall i, (i < length (servers cfg))%nat -> valid_at m i = true ->
    valid_at m' i = true /\
    sstate m' i = if decide (i = new) then SERVER_PRIMARY
                  else if bool_decide (sstate m i = SERVER_PRIMARY) then SERVER_FAILED
                  else sstate m i.

Lemma switched_unique (m m' : shm) (new : nat) :
  m_server_valid m' = m_server_valid m -> switched m new m' -> unique_primary m'.
Proof.
  intros Ev Hs.
  assert (forall i, (i < length (servers cfg))%nat -> valid_at m' i = true ->
    sstate m' i = SERVER_PRIMARY -> i = new) as Hk.
  { intros i Hi Hv Hp. unfold valid_at, server_valid_at in Hv. rewrite Ev in Hv.
    destruct (Hs i Hi Hv) as [_ E]. rewrite E in Hp. case_decide; [done|]. case_bool_decide; done. }
  intros i j Hi Hj Hvi Hvj Hpi Hpj. rewrite (Hk i), (Hk j); done.
Qed.

(** If no two valid servers are primaries, a successful [switch-to] makes the
    named server the only primary, marks the old one failed, and keeps the state of
    every other valid server; it fails, without any effect, exactly when no valid
    server has the name. *)
Theorem server_switch_moves_primary (name : string) (m : shm) (Hwf : shm_wf cfg m)
  (Hu : unique_primary m) :
  wp (server_switch cfg name)
    (fun r m' =>
       if r =? 0
       then unique_primary m' /\
            exists new, (new < length (servers cfg))%nat /\ s_name (servers cfg !!! new) = name /\
              switched m new m'
       else m' = m /\ forall i, (i < length (servers cfg))%nat -> named m name i = false) m.
Proof.
  pose proof (wf_server_states _ _ Hwf) as Hl.
  unfold server_switch. wp_step. apply wp_find_server. wp_step. apply wp_find_server_by_name.
  destruct (List.find (named m name) _) as [new|] eqn:En; last first.
  { assert (forall i, (i < length (servers cfg))%nat -> named m name i = false) as Hn.
    { intros i Hi. apply (List.find_none _ _ En i), list_elem_of_In, in_servers, Hi. }
    destruct (first_server m _ _) as [old|]; cbn; auto. }
  apply find_named in En as (Hn & Hv & Hname).
  assert (forall m', m_server_valid m' = m_server_valid m -> switched m new m' ->
    unique_primary m' /\ exists new, (new < length (servers cfg))%nat /\
      s_name (servers cfg !!! new) = name /\ switched m new m') as Hdone
    by (intros m' ? ?; split; [by eapply switched_unique|by exists new]).
  destruct (first_server m _ _) as [old|] eqn:Eo; [|pose proof (first_server_None _ _ Eo) as No].
  - apply first_server_Some in Eo as (Hol & Hov & Ho & _). apply bool_decide_eq_true in Ho.
    destruct (old =? new)%nat eqn:E; repeat wp_step; apply Hdone; try done; intros i Hi Hvi; split; try done.
    + apply Nat.eqb_eq in E as <-. case_decide; [by subst|]. rewrite bool_decide_eq_false_2; [done|].
      intros Hp. by apply H, (Hu i old).
    + apply Nat.eqb_neq in E. rewrite sstate_upd by (simpl; rewrite length_insert; lia).
      case_decide; [by rewrite decide_True by done|]. rewrite decide_False, sstate_upd by (done || lia).
      case_decide as Eo; [subst; by rewrite bool_decide_eq_true_2|].
      rewrite bool_decide_eq_false_2; [done|]. intros Hp. by apply Eo, (Hu old i).
  - repeat wp_step. apply Hdone; try done. intros i Hi Hvi. split; [done|].
    specialize (No i Hi Hvi). apply bool_decide_eq_false in No.
    rewrite sstate_upd, (bool_decide_eq_false_2 (sstate m i = _)) by (done || lia).
    by destruct (decide (new = i)), (decide (i = new)).
Qed.

(** [clear server] takes the named server out of the failed state and changes
    nothing else; it fails exactly when no valid server has the name. *)
Theorem server_clear_effect (name : string) (m : shm) :
  wp (server_clear cfg name)
    (fun r m' =>
       match List.find (named m name) (server_indices cfg) with
       | Some i => r = 0 /\ m' = if bool_decide (sstate m i = SERVER_FAILED)
                                 then upd_server (Z.of_nat i) SERVER_NOTINIT m else m
       | None => r = 1 /\ m' = m
       end) m.
Proof.
  unfold server_clear. wp_step. apply wp_find_server_by_name.
  destruct (List.find _ _) as [i|]; [|by wp_step]. do 2 wp_step. fold (sstate m i).
  wp_step. case_bool_decide; by repeat wp_step.
Qed.

(** ** Duplicate servers *)

Definition primary_b (m : shm) (i : nat) : bool :=
  bool_decide (sstate m i = SERVER_PRIMARY) || bool_decide (sstate m i = SERVER_NOTINIT_PRIMARY).

Lemma readonly_active (i : nat) : readonly (has_active_connections cfg i).
Proof. unfold has_active_connections. solve_readonly. Qed.

Lemma wp_is_primary (i : nat) (Q : bool -> shm -> Prop) (m : shm) :
  Q (primary_b m i) m -> wp (server_is_primary i) Q m.
Proof. intros HQ. unfold server_is_primary. by repeat wp_step. Qed.

Lemma wp_determine_loser (i j : nat) (Q : nat -> shm -> Prop) (m : shm) :
  Q i m -> Q j m -> wp (determine_loser cfg i j) Q m.
Proof.
  intros Hi Hj. unfold determine_loser.
  wp_step. apply readonly_wp; [apply readonly_active|]. intros a.
  wp_step. apply readonly_wp; [apply readonly_active|]. intros b.
  repeat first [ match goal with |- wp (server_is_primary _) _ _ => apply wp_is_primary end
               | progress cbn [andb negb] | wp_step ];
    try done.
  all: by destruct (i <? j)%nat.
Qed.

(** A server the duplicate check looks at: its identifier is known and it is not
    the primary. *)
Definition checked (ids : list string) (m : shm) (i : nat) : Prop :=
  valid_at m i = true /\ ids !!! i <> "" /\ primary_b m i = false.

(** What the check may do to the segment: it only takes servers out, never one it
    does not look at, and never the last one of an identifier. *)
Record pruned (ids : list string) (m m' : shm) : Prop := {
  pruned_only : m' = set_m_server_valid (m_server_valid m') m;
  pruned_length : length (m_server_valid m') = length (m_server_valid m);
  pruned_shrinks : forall k, valid_at m' k = true -> valid_at m k = true;
  pruned_others : forall k, valid_at m k = true -> ~ checked ids m k -> valid_at m' k = true;
  pruned_keeps : forall k, checked ids m k -> exists k', checked ids m' k' /\ ids !!! k' = ids !!! k
}.

Lemma pruned_checked (ids : list string) (m m' : shm) (k : nat) :
  pruned ids m m' -> checked ids m' k <-> checked ids m k /\ valid_at m' k = true.
Proof.
  intros P. assert (primary_b m' k = primary_b m k) as Hp by (by rewrite (pruned_only _ _ _ P)).
  unfold checked. rewrite Hp. pose proof (pruned_shrinks _ _ _ P k). naive_solver.
Qed.

#[local] Instance pruned_preorder (ids : list string) : PreOrder (pruned ids).
Proof.
  split.
  - intros m. split; try done; [by destruct m|]. intros k Hk; by exists k.
  - intros a b c P1 P2. split.
    + rewrite (pruned_only _ _ _ P2), (pruned_only _ _ _ P1). done.
    + by rewrite (pruned_length _ _ _ P2), (pruned_length _ _ _ P1).
    + intros k Hk. by apply (pruned_shrinks _ _ _ P1), (pruned_shrinks _ _ _ P2).
    + intros k Hk Hn. pose proof (pruned_others _ _ _ P1 k Hk Hn) as Hb.
      apply (pruned_others _ _ _ P2); [done|]. rewrite (pruned_checked _ _ _ _ P1). tauto.
    + intros k Hk. destruct (pruned_keeps _ _ _ P1 k Hk) as (k' & Hk' & E).
      destruct (pruned_keeps _ _ _ P2 k' Hk') as (k'' & Hk'' & E'). exists k''; split; [done|congruence].
Qed.

Definition invalidate (i : nat) (m : shm) : shm :=
  set_m_server_valid (<[i := false]> (m_server_valid m)) m.

Lemma valid_invalidate (i k : nat) (m : shm) :
  (i < length (m_server_valid m))%nat ->
  valid_at (invalidate i m) k = if decide (i = k) then false else valid_at m k.
Proof.
  intros Hi. unfold valid_at, server_valid_at, invalidate; simpl. rewrite !Nat2Z.id.
  destruct (decide (i = k)) as [->|]; [by apply lookup_total_insert_eq|by apply lookup_total_insert_ne].
Qed.

(** Taking out one of two servers with the same identifier. *)
Lemma pruned_invalidate (ids : list string) (m : shm) (i j : nat) :
  (i < length (m_server_valid m))%nat -> i <> j -> checked ids m i -> checked ids m j ->
  ids !!! i = ids !!! j -> pruned ids m (invalidate i m).
Proof.
  intros Hi Hne Ci Cj E. split.
  - done.
  - apply length_insert.
  - intros k. rewrite valid_invalidate by done. by case_decide.
  - intros k Hk Hn. rewrite valid_invalidate by done. case_decide; [by subst|done].
  - intros k Ck. destruct (decide (k = i)) as [->|Hk].
    + exists j. split; [|done]. destruct Cj as (Hv & ? & ?).
      repeat split; try done. by rewrite valid_invalidate, decide_False.
    + exists k. split; [|done]. destruct Ck as (Hv & ? & ?).
      repeat split; try done. by rewrite valid_invalidate, decide_False.
Qed.

Definition distinct_in (ids : list string) (m : shm) (i : nat) (l : list nat) : Prop :=
  forall j, j ∈ l -> checked ids m i -> checked ids m j -> ids !!! i <> ids !!! j.

Lemma distinct_pruned (ids : list string) (m m' : shm) (i : nat) (l : list nat) :
  pruned ids m m' -> distinct_in ids m i l -> distinct_in ids m' i l.
Proof.
  intros P Hd j Hj Ci Cj. apply (pruned_checked _ _ _ _ P) in Ci as [Ci _], Cj as [Cj _]. by apply Hd.
Qed.

Lemma distinct_cons (ids : list string) (m : shm) (i j : nat) (l : list nat) :
  (checked ids m i -> checked ids m j -> ids !!! i <> ids !!! j) ->
  distinct_in ids m i l -> distinct_in ids m i (j :: l).
Proof. intros H Hd k [->|Hk]%elem_of_cons; [done|by apply Hd]. Qed.

(** The guard of both loops: an identifier is known and the server is no primary. *)
Lemma wp_skip (ids : list string) (j : nat) (Q : bool -> shm -> Prop) (m : shm) :
  (ids !!! j = "" \/ primary_b m j = true -> Q true m) ->
  (ids !!! j <> "" /\ primary_b m j = false -> Q false m) ->
  wp (if streq (ids !!! j) "" then Ret true else server_is_primary j) Q m.
Proof.
  intros Ht Hf. destruct (streq (ids !!! j) "") eqn:E; bool_prop; [by apply Ht; left|].
  apply wp_is_primary. destruct (primary_b m j) eqn:Ep; [by apply Ht; right|by apply Hf].
Qed.

Lemma wp_check_duplicates_of (ids : list string) (i : nat) (l : list nat) (m : shm) :
  checked ids m i -> i ∉ l -> (forall j, j ∈ i :: l -> (j < length (m_server_valid m))%nat) ->
  wp (check_duplicates_of cfg false ids i l)
    (fun ok m' => ok = true /\ pruned ids m m' /\ distinct_in ids m' i l) m.
Proof.
  revert m. induction l as [|j l IH]; intros m Ci Hnin Hlt; cbn [check_duplicates_of].
  { wp_step. split; [done|]. split; [reflexivity|]. by intros j Hj%elem_of_nil. }
  apply not_elem_of_cons in Hnin as [Hij Hnin].
  assert ((j < length (m_server_valid m))%nat) as Hj by (apply Hlt; set_solver).
  assert (forall j, j ∈ i :: l -> (j < length (m_server_valid m))%nat) as Hlt' by (intros; apply Hlt; set_solver).
  assert (~ checked ids m j \/ ids !!! i <> ids !!! j ->
    wp (check_duplicates_of cfg false ids i l)
      (fun ok m' => ok = true /\ pruned ids m m' /\ distinct_in ids m' i (j :: l)) m) as Hskip.
  { intros Hs. eapply wp_mono; [|by apply IH]. intros ok m' (-> & P & Hd). split; [done|]. split; [done|].
    apply distinct_cons; [|done]. intros _ Cj.
    apply (pruned_checked _ _ _ _ P) in Cj as [Cj _]. by destruct Hs. }
  do 2 wp_step. fold (valid_at m j). destruct (valid_at m j) eqn:Ev; cbn [negb]; last first.
  { apply Hskip. left. intros (Hv & _). congruence. }
  wp_step. apply wp_skip; [intros Hs; apply Hskip; left; intros (_ & ? & ?); destruct Hs; congruence|].
  intros [Hne Hnp].
  assert (checked ids m j) as Cj by done.
  destruct (streq (ids !!! i) (ids !!! j)) eqn:Eid; [|bool_prop; by apply Hskip; right].
  apply streq_true in Eid. wp_step. apply wp_determine_loser; do 2 wp_step; fold (invalidate i m); fold (invalidate j m).
  - rewrite Nat2Z.id, Nat.eqb_refl. wp_step. split; [done|]. fold (invalidate i m).
    split; [apply (pruned_invalidate ids m i j); auto; apply Hlt; set_solver|].
    intros k _ (Hv & _) _. rewrite valid_invalidate, decide_True in Hv by (done || apply Hlt; set_solver). done.
  - rewrite Nat2Z.id. fold (invalidate j m). assert (pruned ids m (invalidate j m)) as P
      by (apply (pruned_invalidate ids m j i); auto).
    replace (j =? i)%nat with false by (symmetry; apply Nat.eqb_neq; auto).
    eapply wp_mono; [|apply IH]; [intros ok m' (-> & P' & Hd)| |done|].
    + split; [done|]. split; [by etrans|]. apply distinct_cons; [|done]. intros _ Cj'.
      apply (pruned_checked _ _ _ _ P') in Cj' as [(Hv & _) _]. by rewrite valid_invalidate, decide_True in Hv.
    + apply (pruned_checked _ _ _ _ P). split; [done|]. rewrite valid_invalidate, decide_False by done. apply Ci.
    + intros k Hk. rewrite (pruned_length _ _ _ P). by apply Hlt'.
Qed.

(** Pairwise distinct identifiers from server [k] on. *)
Definition distinct_from (ids : list string) (m : shm) (k : nat) : Prop :=
  forall i, (k <= i)%nat -> distinct_in ids m i (seq (S i) (length (servers cfg) - S i)).

Lemma wp_check_duplicates (ids : list string) (n k : nat) (m : shm) :
  (k + n = length (servers cfg))%nat -> length (m_server_valid m) = length (servers cfg) ->
  wp (check_duplicates cfg false ids (seq k n))
    (fun ok m' => ok = true /\ pruned ids m m' /\ distinct_from ids m' k) m.
Proof.
  revert k m. induction n as [|n IH]; intros k m Hk Hl; cbn [seq check_duplicates].
  { wp_step. split; [done|]. split; [reflexivity|]. intros i Hi j Hj%elem_of_seq. lia. }
  assert (distinct_in ids m k (seq (S k) (length (servers cfg) - S k)) ->
    wp (check_duplicates cfg false ids (seq (S k) n))
      (fun ok m' => ok = true /\ pruned ids m m' /\ distinct_from ids m' k) m) as Hskip.
  { intros Hs. eapply wp_mono; [|apply IH; lia]. intros ok m' (-> & P & Hd). split; [done|]. split; [done|].
    intros i Hi. destruct (decide (i = k)) as [->|]; [by apply (distinct_pruned _ m)|apply Hd; lia]. }
  do 2 wp_step. fold (valid_at m k). destruct (valid_at m k) eqn:Ev; cbn [negb]; last first.
  { apply Hskip. intros j _ (Hv & _). congruence. }
  wp_step. apply wp_skip; [intros Hs; apply Hskip; intros j _ (_ & ? & ?); destruct Hs; congruence|].
  intros [Hne Hnp].
  wp_step. eapply wp_mono; [|apply wp_check_duplicates_of; [done|rewrite elem_of_seq; lia|]].
  - intros ok m' (-> & P & Hd). cbv iota.
    eapply wp_mono; [|apply IH; [lia|by rewrite (pruned_length _ _ _ P)]].
    intros ok m'' (-> & P' & Hd'). split; [done|]. split; [by etrans|].
    intros i Hi. destruct (decide (i = k)) as [->|]; [by apply (distinct_pruned _ m')|apply Hd'; lia].
  - intros j [->|Hj]%elem_of_cons; [lia|]. apply elem_of_seq in Hj. lia.
Qed.

(** The check made on a reload leaves exactly one valid server per known
    identifier among the servers that are not primaries: no two keep the same
    identifier, every identifier keeps a server, servers without an identifier and
    primaries stay valid, and nothing but validity changes. *)
Theorem duplicates_pruned (ids : list string) (m : shm) (Hwf : shm_wf cfg m) :
  wp (check_duplicates cfg false ids (server_indices cfg))
    (fun ok m' => ok = true /\ pruned ids m m' /\
       forall i j, (i < j < length (servers cfg))%nat -> checked ids m' i -> checked ids m' j ->
         ids !!! i <> ids !!! j) m.
Proof.
  unfold server_indices, upto, number_of_servers. rewrite Nat2Z.id.
  eapply wp_mono; [|apply wp_check_duplicates; [done|apply (wf_server_valid _ _ Hwf)]].
  intros ok m' (-> & P & Hd). split; [done|]. split; [done|]. intros i j Hij.
  apply (Hd i); [lia|]. apply elem_of_seq. lia.
Qed.

(** A client uses server [i]. *)
Definition busy (m : shm) (i : nat) : bool :=
  existsb (fun k => negb (bool_decide (state_at m k = STATE_NOTINIT))
                    && negb (bool_decide (state_at m k = STATE_INIT))
                    && negb (bool_decide (state_at m k = STATE_FREE))
                    && (c_server (conn_at m k) =? Z.of_nat i)) (upto (max_connections cfg)).

Lemma wp_has_active (i : nat) (Q : bool -> shm -> Prop) (m : shm) :
  Q (busy m i) m -> wp (has_active_connections cfg i) Q m.
Proof.
  unfold has_active_connections, busy. generalize (upto (max_connections cfg)) as l.
  intros l HQ. wp_step.
  induction l as [|k l IH]; simpl in HQ; cbn [for_until]; [wp_step; exact HQ|].
  do 3 wp_step.
  destruct (negb (bool_decide (state_at m k = STATE_NOTINIT)) && negb (bool_decide (state_at m k = STATE_INIT))
    && negb (bool_decide (state_at m k = STATE_FREE))); [|by apply IH].
  do 2 wp_step. simpl in HQ. destruct (_ =? _); [exact HQ|by apply IH].
Qed.

(** Clients count more than being the primary. *)
Definition weight (m : shm) (i : nat) : Z :=
  (if busy m i then 2 else 0) + (if primary_b m i then 1 else 0).

(** Of two duplicates the lighter one is taken out (clients first, then the
    primary); between equals it is the one with the lower index that goes, where the
    comment on [determine_loser] says that one is kept. *)
Theorem determine_loser_spec (i j : nat) (m : shm) :
  wp (determine_loser cfg i j)
    (fun loser m' => m' = m /\
       loser = if weight m i <? weight m j then i
               else if weight m j <? weight m i then j else Nat.min i j) m.
Proof.
  assert ((if (i <? j)%nat then i else j) = Nat.min i j) as Hm
    by (destruct (Nat.ltb_spec i j); lia).
  unfold determine_loser, weight. wp_step. apply wp_has_active. wp_step. apply wp_has_active.
  destruct (busy m i), (busy m j), (primary_b m i) eqn:Pi, (primary_b m j) eqn:Pj; cbn [andb negb];
    repeat first [ match goal with |- wp (server_is_primary _) _ _ => apply wp_is_primary; rewrite ?Pi, ?Pj end
                 | progress cbn [andb negb] | wp_step ]; split; try done.
Qed.
End server_facts.
