(* ===== verification/Pool.v ===== *)
(** * The connection pool ([libpgagroal/pool.c])

    One definition per function of the file.  A [goto] target of
    [pgagroal_get_connection] and [pgagroal_return_connection] is a definition
    of its own.  The local memory of a process that the code reads
    ([getpid()], [getppid()], the process global [pgagroal_fd_generation] and
    [pgagroal_known_fds]) is the record [process]. *)

From S2P Require Import Prelude Config Effects Server.
From Stdlib Require Import Ascii.
From stdpp Require Import pretty.

Local Open Scope Z_scope.
Local Open Scope prog_scope.

Record process := Process {
  p_pid : Z;
  p_ppid : Z;
  p_fd_generation : Z;
  p_known_fds : list Z
}.

(** ** Rules *)

Section rules.
Context (cfg : config).

(** [is_alias_of_limit]. *)
Definition is_alias_of_limit (database : string) (limit_index : Z) : bool :=
  if (limit_index <? 0) || (number_of_limits cfg <=? limit_index) then false
  else existsb (streq database) (l_aliases (limit_at cfg limit_index)).

(** The database test of [find_best_rule]. *)
Definition database_match (database : string) (l : limit) : bool :=
  streq "all" (l_database l) || streq database (l_database l)
  || existsb (streq database) (l_aliases l).

Definition username_match (username : string) (l : limit) : bool :=
  streq "all" (l_username l) || streq username (l_username l).

(** One iteration of the loop of [find_best_rule]. *)
Definition best_rule_step (username database : string) (best_rule : Z) (i : nat) : Z :=
  let l := limit_at cfg (Z.of_nat i) in
  if username_match username l && database_match database l then
    if best_rule =? -1 then Z.of_nat i
    else
      let b := limit_at cfg best_rule in
      if streq username (l_username b)
         && (streq database (l_database b) || is_alias_of_limit database best_rule)
      then best_rule
      else if streq "all" (l_username b) then
        if negb (streq "all" (l_username l)) then Z.of_nat i else best_rule
      else if streq "all" (l_database b) then
        if negb (streq "all" (l_database l)) then Z.of_nat i else best_rule
      else best_rule
  else best_rule.

(** [find_best_rule]; [-1] when no rule matches. *)
Definition find_best_rule (username database : string) : Z :=
  foldl (best_rule_step username database) (-1) (upto (number_of_limits cfg)).

(** [resolve_database_name]. *)
Definition resolve_database_name (database : string) (best_rule : Z) : string :=
  if (best_rule <? 0) || (number_of_limits cfg <=? best_rule) then database
  else if existsb (streq database) (l_aliases (limit_at cfg best_rule))
  then l_database (limit_at cfg best_rule)
  else database.

(** [resolve_database_alias] of [libpgagroal/security.c], the name in the startup message. *)
Definition resolve_database_alias (username database : string) : string :=
  default database
    (l_database <$> List.find (fun l => username_match username l && existsb (streq database) (l_aliases l))
                      (limits cfg)).

(** [pgagroal_user_known] of [libpgagroal/security.c]. *)
Definition user_known (user : string) : bool :=
  existsb (fun u => streq user (u_username u)) (users cfg).

(** [pgagroal_can_prefill] of [libpgagroal/configuration.c]. *)
Definition can_prefill : bool := (0 <? number_of_users cfg) && (0 <? number_of_limits cfg).
End rules.

(** [pgagroal_is_username_reserved] and [pgagroal_is_database_reserved] of
    [libpgagroal/utils.c]. *)
Definition is_username_reserved (username : string) : bool :=
  if streq username "" then false else existsb (streq username) ["all"; "sameuser"].

Definition is_database_reserved (database : string) : bool :=
  if streq database "" then false else existsb (streq database) ["all"; "replication"].

(** [pgagroal_time_is_valid] of [libpgagroal/utils.c]. *)
Definition time_is_valid (t : Z) : bool := 0 <? t.

(** [pgagroal_pool_next_retry_delay]; [long] is 64 bits wide. *)
Definition next_retry_delay (current_ns cap_ms : Z) : Z :=
  let cap_ms :=
    if cap_ms <? MIN_CONNECTION_RETRY_DELAY then MIN_CONNECTION_RETRY_DELAY
    else if MAX_CONNECTION_RETRY_DELAY <? cap_ms then MAX_CONNECTION_RETRY_DELAY
    else cap_ms in
  let cap_ns := i64 (cap_ms * 1000000) in
  let next := if current_ns <=? 0 then 1000000 else i64 (current_ns * 2) in
  if cap_ns <? next then cap_ns else next.

(** ** Slots *)

Section pool.
Context (cfg : config) (self : process).

Definition slots_up : list nat := upto (max_connections cfg).
Definition slots_down : list nat := downfrom (max_connections cfg).

(** [holds_descriptor]. *)
Definition holds_descriptor (slot : nat) : prog bool :=
  c <- act (GetConn slot) ;;
  Ret (c_generation c <=? p_fd_generation self).

(** The [error] label of [fetch_descriptor]. *)
Definition fetch_error (target fd transfer_fd : Z) : prog bool :=
  (when (0 <=? fd) && negb (fd =? target) do sys (Disconnect fd)) ;;;
  sys (Disconnect transfer_fd) ;;;
  Ret false.

(** [fetch_descriptor]. *)
Definition fetch_descriptor (slot : nat) : prog bool :=
  c <- act (GetConn slot) ;;
  let target := c_fd c in
  c <- act (GetConn slot) ;;
  let expected := c_generation c in
  if (target <? 0) || (expected =? FD_GENERATION_PENDING) then fetch_error target (-1) (-1)
  else
    t <- sys ConnectionGet ;;
    match t with
    | None => fetch_error target (-1) (-1)
    | Some transfer_fd =>
        e <- sys (IdWrite transfer_fd CONNECTION_GET_FD) ;;
        if e : bool then fetch_error target (-1) transfer_fd
        else
        e <- sys (SlotWrite transfer_fd slot) ;;
        if e : bool then fetch_error target (-1) transfer_fd
        else
        g <- sys (GenerationRead transfer_fd) ;;
        match g with
        | None => fetch_error target (-1) transfer_fd
        | Some generation =>
            if negb (generation =? expected) then fetch_error target (-1) transfer_fd
            else
            r <- sys (TransferRead transfer_fd) ;;
            match r with
            | None => fetch_error target (-1) transfer_fd
            | Some (s, fd) =>
                if negb (s =? Z.of_nat slot) || (fd <? 0) then fetch_error target fd transfer_fd
                else
                sys (Disconnect transfer_fd) ;;;
                if negb (fd =? target) then
                  o <- sys (FdIsOpen target) ;;
                  if o && negb (p_known_fds self !!! slot =? target)
                  then fetch_error target fd (-1)
                  else
                  e <- sys (Dup2 fd target) ;;
                  if e : bool then fetch_error target fd (-1)
                  else sys (Disconnect fd) ;;; Ret true
                else Ret true
            end
        end
    end.

(** [increase_connections]. *)
Definition increase_connections (best_rule : Z) : prog bool :=
  connections <- act (FetchAddActive 1) ;;
  if max_connections cfg <=? connections then
    act (FetchAddActive (-1)) ;;;
    Ret false
  else
    (when 0 <=? best_rule do (act (FetchAddRuleActive best_rule 1) ;;; Ret tt)) ;;;
    Ret true.

(** [check_graceful_shutdown_trigger]. *)
Definition check_graceful_shutdown_trigger : prog unit :=
  remaining <- act LoadActive ;;
  gracefully <- (if remaining =? 0 then act LoadGracefully else Ret false) ;;
  skip <- (if gracefully : bool then k <- act LoadKeepRunning ;; Ret (negb k) else Ret false) ;;
  if skip : bool then Ret tt
  else
    gracefully <- (if remaining =? 0 then act LoadGracefully else Ret false) ;;
    trigger <- (if gracefully : bool then act LoadKeepRunning else Ret false) ;;
    if trigger : bool then
      sys (Sleep 1000000) ;;;
      final <- act LoadActive ;;
      gracefully <- (if final =? 0 then act LoadGracefully else Ret false) ;;
      confirmed <- (if gracefully : bool then act LoadKeepRunning else Ret false) ;;
      when confirmed do sys (Kill (p_ppid self) SIGTRAP)
    else Ret tt.

(** [pgagroal_prefill_if_can] with [do_fork]. *)
Definition prefill_if_can_fork (initial : bool) : prog unit :=
  if can_prefill cfg then
    primary <- get_primary cfg ;;
    match primary with
    | None => Ret tt
    | Some _ => sys (Fork (TPrefill initial))
    end
  else Ret tt.

(** What [pgagroal_kill_connection] and [pgagroal_pool_init] leave in a slot
    that is not in use. *)
Definition reset_connection (c : connection) : connection :=
  Connection "" "" "" true (-1) false SECURITY_INVALID
    (replicate NUMBER_OF_SECURITY_MESSAGES 0) (replicate NUMBER_OF_SECURITY_MESSAGES [])
    0 0 (-1) (-1) (-1) (-1) (-1) 0 [] false.

(** [pgagroal_kill_connection]: tell main, drop the descriptor, release the
    counters, reset the slot. *)
Definition kill_connection (slot : nat) (s : option ssl) : prog Z :=
  sys (Track TRACKER_KILL_CONNECTION slot) ;;;
  c <- act (GetConn slot) ;;
  let fd := c_fd c in
  result <-
    (if negb (fd =? -1) then
       t <- sys ConnectionGet ;;
       let transfer_fd := default (-1) t in
       e1 <- sys (IdWrite transfer_fd CONNECTION_KILL) ;;
       e2 <- sys (SlotWrite transfer_fd slot) ;;
       c <- act (GetConn slot) ;;
       e3 <- sys (GenerationWrite transfer_fd (c_generation c)) ;;
       sys (Disconnect transfer_fd) ;;;
       (match s with Some s => sys (ReleaseSsl s) | None => Ret tt end) ;;;
       err <- sys (SocketHasError fd) ;;
       (when negb err do
          (c <- act (GetConn slot) ;;
           v <- sys (SocketIsValid (c_fd c)) ;;
           (when v do sys (WriteTerminate None (c_fd c))) ;;;
           sys (Disconnect fd))) ;;;
       Ret (if bool_decide (t = None) || e1 || e2 || e3 then 1 else 0)
     else Ret 1) ;;
  c <- act (GetConn slot) ;;
  (when 0 <=? c_limit_rule c do (act (FetchAddRuleBackend (c_limit_rule c) (-1)) ;;; Ret tt)) ;;;
  c <- act (GetConn slot) ;;
  (when negb (c_pid c =? -1) do
     ((when 0 <=? c_limit_rule c do (act (FetchAddRuleActive (c_limit_rule c) (-1)) ;;; Ret tt)) ;;;
      act (FetchAddActive (-1)) ;;;
      check_graceful_shutdown_trigger)) ;;;
  act (SetConn slot reset_connection) ;;;
  act (StoreState slot STATE_NOTINIT) ;;;
  sys (Metric M_connection_kill) ;;;
  Ret result.

(** [remove_connection]. *)
Definition remove_slot (username database : string) (i : nat) : prog (option unit) :=
  ok <- act (CasState i STATE_FREE STATE_REMOVE) ;;
  if ok : bool then
    held <- holds_descriptor i ;;
    if negb held then act (StoreState i STATE_FREE) ;;; Ret None
    else
      c <- act (GetConn i) ;;
      let kill :=
        sys (Metric M_connection_remove) ;;;
        sys (Track TRACKER_REMOVE_CONNECTION i) ;;;
        kill_connection i None ;;;
        Ret (Some tt) in
      if streq username (c_username c) && streq database (c_database c) then
        back <- act (CasState i STATE_REMOVE STATE_FREE) ;;
        if negb back then kill else Ret (Some tt)
      else kill
  else Ret None.

Definition remove_connection (username database : string) : prog bool :=
  r <- for_until slots_down (remove_slot username database) ;;
  Ret (bool_decide (is_Some r)).

(** ** [pgagroal_get_connection] *)

(** The ways one pass from [start] ends: a slot, or one of the labels with the
    values of [slot] and [has_lock] there. *)
Inductive attempt :=
| Success (slot : nat)
| GotoRetry (slot : option nat) (has_lock : bool)
| GotoRetry2 (slot : option nat)
| GotoTimeout (slot : option nat)
| GotoError (slot : option nat).

(** How the two loops over the slots end. *)
Inductive acquired := Acquired (slot : nat) | Saturated | NoSlot.

Section get.
Context (username database : string) (reuse transaction_mode : bool) (best_rule : Z).

(** The test whether the free slot [i] serves this client. *)
Definition slot_matches (c : connection) : bool :=
  (best_rule =? c_limit_rule c) && streq (c_username c) username
  && streq (c_database c) (resolve_database_name cfg database best_rule).

(** The loop under [if (reuse)]. *)
Fixpoint reuse_loop (l : list nat) : prog acquired :=
  match l with
  | [] => Ret NoSlot
  | i :: l =>
      ok <- act (CasState i STATE_FREE STATE_IN_USE) ;;
      if ok : bool then
        c <- act (GetConn i) ;;
        can_reuse <-
          (if slot_matches c && negb transaction_mode then
             held <- holds_descriptor i ;;
             if held : bool then Ret true else fetch_descriptor i
           else Ret (slot_matches c)) ;;
        if can_reuse : bool then
          inc <- increase_connections best_rule ;;
          if inc : bool then Ret (Acquired i)
          else act (StoreState i STATE_FREE) ;;; Ret Saturated
        else
          act (StoreState i STATE_FREE) ;;;
          reuse_loop l
      else reuse_loop l
  end.

(** The loop that takes a slot for a new connection. *)
Fixpoint create_loop (l : list nat) : prog acquired :=
  match l with
  | [] => Ret NoSlot
  | i :: l =>
      ok <- act (CasState i STATE_NOTINIT STATE_INIT) ;;
      if ok : bool then
        inc <- increase_connections best_rule ;;
        if inc : bool then Ret (Acquired i)
        else
          act (StoreState i STATE_NOTINIT) ;;;
          (when 0 <=? best_rule do (act (FetchAddRuleBackend best_rule (-1)) ;;; Ret tt)) ;;;
          Ret Saturated
      else create_loop l
  end.

(** The branch taken when no slot was found and the mode is not transaction mode. *)
Definition create_slot : prog acquired :=
  ok <- (if 0 <=? best_rule then
           reserved <- act (FetchAddRuleBackend best_rule 1) ;;
           if l_max_size (limit_at cfg best_rule) <=? reserved then
             act (FetchAddRuleBackend best_rule (-1)) ;;;
             Ret false
           else Ret true
         else Ret true) ;;
  if negb ok then Ret Saturated
  else
    r <- create_loop slots_up ;;
    match r with
    | NoSlot =>
        (when 0 <=? best_rule do (act (FetchAddRuleBackend best_rule (-1)) ;;; Ret tt)) ;;;
        Ret NoSlot
    | r => Ret r
    end.

(** Give back a slot whose backend was never established. *)
Definition undo_slot (slot : nat) : prog unit :=
  (when 0 <=? best_rule do (act (FetchAddRuleBackend best_rule (-1)) ;;; Ret tt)) ;;;
  act (SetConn slot (fun c => set_c_pid (-1) (set_c_limit_rule (-1) c))) ;;;
  act (StoreState slot STATE_NOTINIT).

(** The branch [if (do_init)]: find the server and connect to it. *)
Definition establish (slot : nat) : prog attempt :=
  server <- get_primary cfg ;;
  match server with
  | None =>
      undo_slot slot ;;;
      sys (Fork (TFlush FLUSH_GRACEFULLY "*")) ;;;
      Ret (GotoError (Some slot))
  | Some server =>
      let srv := servers cfg !!! server in
      ret <- (match s_host srv with
              | String "/" _ =>
                  sys (ConnectUnix (s_host srv) (".s.PGSQL." +:+ pretty (s_port srv)))
              | _ => sys (ConnectTcp (s_host srv) (s_port srv))
              end%char) ;;
      match ret with
      | None =>
          undo_slot slot ;;;
          sys (Metric (M_server_error (Z.of_nat server))) ;;;
          sys (Fork (TFlushServer (Z.of_nat server))) ;;;
          if failover cfg then
            server_force_failover cfg server ;;;
            sys (Metric M_failed_servers) ;;;
            Ret (GotoRetry (Some slot) true)
          else Ret (GotoError (Some slot))
      | Some fd =>
          act (SetConn slot (fun c =>
            set_c_fd fd (set_c_has_security SECURITY_INVALID
              (set_c_database (strtrunc MAX_DATABASE_LENGTH (resolve_database_name cfg database best_rule))
                (set_c_username (strtrunc MAX_USERNAME_LENGTH username)
                  (set_c_server (Z.of_nat server) c)))))) ;;;
          act (StoreState slot STATE_IN_USE) ;;;
          Ret (Success slot)
      end
  end.

(** The branch for a slot that was free: verify its socket. *)
Definition verify (slot : nat) : prog attempt :=
  c <- act (GetConn slot) ;;
  valid <- sys (SocketIsValid (c_fd c)) ;;
  if negb valid && transaction_mode then
    act (StoreState slot STATE_FREE) ;;;
    Ret (GotoRetry (Some slot) true)
  else
    kill <- (if valid && bool_decide (validation cfg = VALIDATION_FOREGROUND) then
               c <- act (GetConn slot) ;;
               ok <- sys (ConnectionIsValid (c_fd c)) ;;
               Ret (negb ok)
             else Ret (negb valid)) ;;
    if kill : bool then
      sys (Track TRACKER_BAD_CONNECTION slot) ;;;
      status <- kill_connection slot None ;;
      prefill_if_can_fork false ;;;
      Ret (if status =? 0 then GotoRetry2 (Some slot) else GotoTimeout (Some slot))
    else Ret (Success slot).

(** One pass from the label [start]. *)
Definition attempt_connection : prog attempt :=
  connections <- act LoadActive ;;
  if max_connections cfg <=? connections then Ret (GotoRetry None false)
  else
    r <- (if reuse then reuse_loop slots_up else Ret NoSlot) ;;
    got <-
      (match r with
       | Acquired i => Ret (Acquired i, false)
       | Saturated => Ret (Saturated, false)
       | NoSlot =>
           if negb transaction_mode then r <- create_slot ;; Ret (r, true)
           else Ret (NoSlot, false)
       end) ;;
    match got with
    | (Acquired slot, do_init) =>
        act (SetConn slot (fun c => set_c_pid (p_pid self) (set_c_limit_rule best_rule c))) ;;;
        if do_init : bool then establish slot else verify slot
    | _ => Ret (GotoRetry None false)
    end.

(** The tail of a successful pass. *)
Definition finish_success (start_time : Z) (slot : nat) : prog (Z * option nat) :=
  c <- act (GetConn slot) ;;
  (when c_start_time c =? -1 do
     (now <- sys Time ;; act (SetConn slot (set_c_start_time now)))) ;;;
  now <- sys Time ;;
  act (SetConn slot (set_c_timestamp now)) ;;;
  (when 0 <? metrics cfg do
     (now <- sys Time ;; sys (Metric (M_client_wait_time (now - start_time))))) ;;;
  sys (Metric M_connection_success) ;;;
  sys (Track TRACKER_GET_CONNECTION_SUCCESS slot) ;;;
  sys (Metric (M_connection_unawaiting best_rule)) ;;;
  Ret (0, Some slot).

(** The labels [timeout] and [error]. *)
Definition finish_timeout (start_time : Z) (slot : option nat) : prog (Z * option nat) :=
  (when 0 <? metrics cfg do
     (now <- sys Time ;; sys (Metric (M_client_wait_time (now - start_time))))) ;;;
  sys (Metric M_connection_timeout) ;;;
  sys (TrackBasic TRACKER_GET_CONNECTION_TIMEOUT username database) ;;;
  sys (Metric (M_connection_unawaiting best_rule)) ;;;
  Ret (1, slot).

Definition release_active : prog unit :=
  (when 0 <=? best_rule do (act (FetchAddRuleActive best_rule (-1)) ;;; Ret tt)) ;;;
  act (FetchAddActive (-1)) ;;; Ret tt.

Definition finish_error (start_time : Z) (slot : option nat) : prog (Z * option nat) :=
  release_active ;;;
  (when 0 <? metrics cfg do
     (now <- sys Time ;; sys (Metric (M_client_wait_time (now - start_time))))) ;;;
  sys (Metric M_connection_error) ;;;
  sys (Metric (M_connection_unawaiting best_rule)) ;;;
  sys (TrackBasic TRACKER_GET_CONNECTION_ERROR username database) ;;;
  Ret (2, slot).

(** The label [retry2]: [Some] goes back to [start] with the new values of
    [retries] and [retry_delay], [None] falls to [timeout]. *)
Definition retry_again (start_time retries retry_delay : Z) : prog (option (Z * Z)) :=
  if time_is_valid (blocking_timeout cfg) then
    let retry_delay := next_retry_delay retry_delay (connection_retry_delay cfg) in
    sys (Sleep retry_delay) ;;;
    now <- sys Time ;;
    if blocking_timeout cfg <=? now - start_time then Ret None
    else
      (when best_rule =? -1 do (remove_connection username database ;;; Ret tt)) ;;;
      Ret (Some (retries, retry_delay))
  else if negb transaction_mode then
    if best_rule =? -1 then
      removed <- remove_connection username database ;;
      Ret (if removed && (retries <? max_retries cfg) then Some (retries + 1, retry_delay) else None)
    else Ret (if retries <? max_retries cfg then Some (retries + 1, retry_delay) else None)
  else
    sys (Sleep 1000) ;;;
    Ret (Some (retries, retry_delay)).

(** Everything from [start] on; [None] when [fuel] passes were not enough. *)
Fixpoint get_connection_loop (fuel : nat) (start_time retries retry_delay : Z) :
  prog (option (Z * option nat)) :=
  match fuel with
  | O => Ret None
  | S fuel =>
      a <- attempt_connection ;;
      let again slot :=
        r <- retry_again start_time retries retry_delay ;;
        match r with
        | Some (retries, retry_delay) => get_connection_loop fuel start_time retries retry_delay
        | None => r <- finish_timeout start_time slot ;; Ret (Some r)
        end in
      match a with
      | Success slot => r <- finish_success start_time slot ;; Ret (Some r)
      | GotoRetry slot has_lock => (when has_lock do release_active) ;;; again slot
      | GotoRetry2 slot => again slot
      | GotoTimeout slot => r <- finish_timeout start_time slot ;; Ret (Some r)
      | GotoError slot => r <- finish_error start_time slot ;; Ret (Some r)
      end
  end.
End get.

(** [pgagroal_get_connection]: the result code with the value left in the slot argument. *)
Definition get_connection (fuel : nat) (username database : string)
  (reuse transaction_mode : bool) : prog (option (Z * option nat)) :=
  sys (Metric M_connection_get) ;;;
  let best_rule := find_best_rule cfg username database in
  start_time <- sys Time ;;
  sys (Metric (M_connection_awaiting best_rule)) ;;;
  get_connection_loop username database reuse transaction_mode best_rule fuel start_time 0 0.

(** ** [pgagroal_return_connection] *)

(** The label [kill_connection]. *)
Definition return_kill (slot : nat) (s : option ssl) (transfer_fd : Z) : prog Z :=
  sys (Disconnect transfer_fd) ;;;
  sys (Track TRACKER_RETURN_CONNECTION_KILL slot) ;;;
  kill_connection slot s.

(** The age check on entry; [true] goes to [kill_connection]. *)
Definition return_age_check (slot : nat) : prog bool :=
  if time_is_valid (max_connection_age cfg) then
    now <- sys Time ;;
    ok <- act (CasState slot STATE_IN_USE STATE_MAX_CONNECTION_AGE) ;;
    if ok : bool then
      c <- act (GetConn slot) ;;
      kill <- (if (max_connection_age cfg <=? now - c_start_time c) && negb (c_tx_mode c)
               then Ret true
               else back <- act (CasState slot STATE_MAX_CONNECTION_AGE STATE_IN_USE) ;;
                    Ret (negb back)) ;;
      if kill : bool then
        sys (Metric M_connection_max_connection_age) ;;;
        sys (Track TRACKER_MAX_CONNECTION_AGE slot) ;;;
        Ret true
      else Ret false
    else Ret false
  else Ret false.

(** The test that decides whether a connection may go back to the pool. *)
Definition cacheable (s : option ssl) (tls_owned : bool) (c : connection) : bool :=
  negb (c_has_security c =? SECURITY_INVALID)
  && (negb (c_has_security c =? SECURITY_SCRAM256)
      || (authquery cfg || user_known cfg (c_username c)))
  && (bool_decide (s = None) || tls_owned).

(** The reset query of session pooling; [true] goes to [kill_connection]. *)
Definition return_reset (slot : nat) (s : option ssl) : prog bool :=
  c <- act (GetConn slot) ;;
  if negb (streq (server_reset_query cfg) "") && negb (c_reset_query_failed c) then
    failed <- sys (WriteResetQuery s (c_fd c)) ;;
    if failed : bool then
      match server_reset_query_behavior cfg with
      | RESET_IGNORE => act (SetConn slot (set_c_reset_query_failed true)) ;;; Ret false
      | _ => Ret true
      end
    else Ret false
  else Ret false.

(** Park the TLS context; [true] goes to [kill_connection]. *)
Definition return_park (slot : nat) (t : option tls) (tls_owned : bool) : prog bool :=
  match t with
  | Some t =>
      if negb tls_owned then Ret false
      else if negb (t_rbuf_len t =? 0) then Ret true
      else
        e <- sys (TlsRecordExport (t_record t)) ;;
        match e with
        | None => Ret true
        | Some ctx => act (SetConn slot (set_c_tls_context ctx)) ;;; Ret false
        end
  | None => Ret false
  end.

(** One request over the transfer socket; [Some fd] is the failure with the
    value of [transfer_fd], [None] success. *)
Definition send_request (id : transfer_id) (payload : Z -> syscall bool) : prog (option Z) :=
  t <- sys ConnectionGet ;;
  match t with
  | None => Ret (Some (-1))
  | Some fd =>
      e <- sys (IdWrite fd id) ;;
      if e : bool then Ret (Some fd)
      else
        e <- sys (payload fd) ;;
        if e : bool then Ret (Some fd)
        else sys (Disconnect fd) ;;; Ret None
  end.

(** The branch [state == STATE_IN_USE]: reset, park, hand the descriptor to
    main, give the slot back. *)
Definition return_in_use (slot : nat) (s : option ssl) (t : option tls) (tls_owned transaction_mode : bool) :
  prog Z :=
  kill <- (if negb transaction_mode then return_reset slot s else Ret false) ;;
  if kill : bool then return_kill slot s (-1)
  else
  kill <- return_park slot t tls_owned ;;
  if kill : bool then return_kill slot s (-1)
  else
  sys (Track TRACKER_RETURN_CONNECTION_SUCCESS slot) ;;;
  now <- sys Time ;;
  act (SetConn slot (set_c_timestamp now)) ;;;
  c <- act (GetConn slot) ;;
  e <- (if c_new c then
          act (SetConn slot (set_c_generation FD_GENERATION_PENDING)) ;;;
          send_request CONNECTION_TRANSFER (fun fd => TransferWrite fd slot)
        else Ret None) ;;
  match e with
  | Some fd => return_kill slot s fd
  | None =>
      e <- send_request CONNECTION_RETURN (fun fd => SlotWrite fd slot) ;;
      match e with
      | Some fd => return_kill slot s fd
      | None =>
          c <- act (GetConn slot) ;;
          (when 0 <=? c_limit_rule c do
             (act (FetchAddRuleActive (c_limit_rule c) (-1)) ;;; Ret tt)) ;;;
          act (SetConn slot (fun c =>
            set_c_appname "" (set_c_tx_mode transaction_mode
              (set_c_pid (-1) (set_c_new false c))))) ;;;
          act (StoreState slot STATE_FREE) ;;;
          act (FetchAddActive (-1)) ;;;
          check_graceful_shutdown_trigger ;;;
          sys (Metric M_connection_return) ;;;
          Ret 0
      end
  end.

(** [pgagroal_return_connection]. *)
Definition return_connection (slot : nat) (s : option ssl) (transaction_mode : bool) : prog Z :=
  let t := match s with Some s => ssl_tls s | None => None end in
  let tls_owned := match t with Some t => t_owned t && negb transaction_mode | None => false end in
  kill <- return_age_check slot ;;
  if kill : bool then return_kill slot s (-1)
  else
  (when negb transaction_mode do
     (c <- act (GetConn slot) ;;
      v <- sys (SocketIsValid (c_fd c)) ;;
      when negb v do act (SetConn slot (set_c_has_security SECURITY_INVALID)))) ;;;
  c <- act (GetConn slot) ;;
  if cacheable s tls_owned c then
    state <- act (LoadState slot) ;;
    match state with
    | STATE_IN_USE => return_in_use slot s t tls_owned transaction_mode
    | STATE_GRACEFULLY =>
        c <- act (GetConn slot) ;;
        sys (WriteTerminate s (c_fd c)) ;;;
        check_graceful_shutdown_trigger ;;;
        return_kill slot s (-1)
    | _ => return_kill slot s (-1)
    end
  else return_kill slot s (-1).

(** [pgagroal_pool_close_inherited]: the new contents of [pgagroal_known_fds]. *)
Definition pool_close_inherited (server_fd : Z) : prog (list Z) :=
  for_each slots_up (p_known_fds self) (fun i known =>
    (when (0 <? known !!! i) && negb (known !!! i =? server_fd)
     do sys (Disconnect (known !!! i))) ;;;
    Ret (<[i := 0]> known)).

(** ** The periodic sweeps

    [pgagroal_idle_timeout], [pgagroal_max_connection_age] and
    [pgagroal_validation] have the same loop body up to the state that marks
    the slot, the test and the metric; the value is [prefill]. *)

Definition sweep_slot (mark : slot_state) (expired : nat -> prog bool) (m : metric) (e : tracker_event)
  (i : nat) (prefill : bool) : prog bool :=
  let kill := sys (Metric m) ;;; sys (Track e i) ;;; kill_connection i None ;;; Ret true in
  ok <- act (CasState i STATE_FREE mark) ;;
  if ok : bool then
    held <- holds_descriptor i ;;
    if negb held then act (StoreState i STATE_FREE) ;;; Ret prefill
    else
      x <- expired i ;;
      if x : bool then kill
      else
        back <- act (CasState i mark STATE_FREE) ;;
        if negb back then kill else Ret prefill
  else Ret prefill.

Definition idle_expired (now : Z) (i : nat) : prog bool :=
  c <- act (GetConn i) ;;
  Ret ((idle_timeout cfg <=? now - c_timestamp c) && negb (c_tx_mode c)).

Definition pool_idle_timeout : prog unit :=
  now <- sys Time ;;
  prefill <- for_each slots_down false
    (sweep_slot STATE_IDLE_CHECK (idle_expired now) M_connection_idletimeout TRACKER_IDLE_TIMEOUT) ;;
  when prefill do prefill_if_can_fork false.

Definition age_expired (now : Z) (i : nat) : prog bool :=
  c <- act (GetConn i) ;;
  Ret ((max_connection_age cfg <=? now - c_start_time c) && negb (c_tx_mode c)).

Definition pool_max_connection_age : prog unit :=
  now <- sys Time ;;
  prefill <- for_each slots_down false
    (sweep_slot STATE_MAX_CONNECTION_AGE (age_expired now) M_connection_max_connection_age
       TRACKER_MAX_CONNECTION_AGE) ;;
  when prefill do prefill_if_can_fork false.

Definition validation_failed (now : Z) (i : nat) : prog bool :=
  c <- act (GetConn i) ;;
  v <- sys (SocketIsValid (c_fd c)) ;;
  if negb v then Ret true
  else
  idle <- (if time_is_valid (idle_timeout cfg) then
             c <- act (GetConn i) ;; Ret (idle_timeout cfg <=? now - c_timestamp c)
           else Ret false) ;;
  if idle : bool then Ret true
  else
  old <- (if time_is_valid (max_connection_age cfg) then
            c <- act (GetConn i) ;; Ret (max_connection_age cfg <=? now - c_start_time c)
          else Ret false) ;;
  if old : bool then Ret true
  else
  c <- act (GetConn i) ;;
  ok <- sys (ConnectionIsValid (c_fd c)) ;;
  Ret (negb ok).

Definition pool_validation : prog unit :=
  now <- sys Time ;;
  prefill <- for_each slots_down true
    (sweep_slot STATE_VALIDATION (validation_failed now) M_connection_invalid TRACKER_INVALID_CONNECTION) ;;
  when prefill do prefill_if_can_fork false.

(** ** Flush *)

(** The [switch] on the state of a slot whose server failed. *)
Definition flush_failed_slot (terminate : bool) (i : nat) (prefill : bool) : prog bool :=
  st <- act (LoadState i) ;;
  match st with
  | STATE_NOTINIT | STATE_INIT => Ret prefill
  | STATE_FREE =>
      held <- holds_descriptor i ;;
      if negb held then Ret prefill
      else
        act (StoreState i STATE_GRACEFULLY) ;;;
        (when terminate do
           (c <- act (GetConn i) ;;
            v <- sys (SocketIsValid (c_fd c)) ;;
            when v do sys (WriteTerminate None (c_fd c)))) ;;;
        sys (Metric M_connection_flush) ;;;
        sys (Track TRACKER_FLUSH i) ;;;
        kill_connection i None ;;;
        Ret true
  | _ => act (StoreState i STATE_GRACEFULLY) ;;; Ret prefill
  end.

(** Kill a connection a client holds: the [FLUSH_ALL] branches. *)
Definition flush_kill_client (i : nat) : prog bool :=
  c <- act (GetConn i) ;;
  sys (Kill (c_pid c) SIGQUIT) ;;;
  sys (Metric M_connection_flush) ;;;
  sys (Track TRACKER_FLUSH i) ;;;
  kill_connection i None ;;;
  Ret true.

(** The branch for a slot whose server did not fail. *)
Definition flush_considered (mode : flush_mode) (i : nat) (prefill : bool) : prog bool :=
  ok <- act (CasState i STATE_FREE STATE_FLUSH) ;;
  if ok : bool then
    held <- holds_descriptor i ;;
    if negb held then act (StoreState i STATE_FREE) ;;; Ret prefill
    else
      c <- act (GetConn i) ;;
      v <- sys (SocketIsValid (c_fd c)) ;;
      (when v do sys (WriteTerminate None (c_fd c))) ;;;
      sys (Metric M_connection_flush) ;;;
      sys (Track TRACKER_FLUSH i) ;;;
      kill_connection i None ;;;
      Ret true
  else
    match mode with
    | FLUSH_IDLE => Ret prefill
    | FLUSH_GRACEFULLY =>
        ok <- act (CasState i STATE_IN_USE STATE_FLUSH) ;;
        if ok : bool then act (StoreState i STATE_GRACEFULLY) ;;; Ret prefill else Ret prefill
    | FLUSH_ALL =>
        ok <- act (CasState i STATE_IN_USE STATE_FLUSH) ;;
        if ok : bool then flush_kill_client i
        else
          ok <- act (CasState i STATE_GRACEFULLY STATE_FLUSH) ;;
          if ok : bool then flush_kill_client i else Ret prefill
    end.

Definition flush_slot (mode : flush_mode) (database : string) (i : nat) (prefill : bool) : prog bool :=
  c <- act (GetConn i) ;;
  do_kill <- (if negb (c_server c =? -1) then
                st <- act (LoadServer (c_server c)) ;;
                Ret (bool_decide (st = SERVER_FAILED))
              else Ret false) ;;
  if negb do_kill then
    c <- act (GetConn i) ;;
    if streq database "all" || streq (c_database c) database
    then flush_considered mode i prefill
    else Ret prefill
  else flush_failed_slot false i prefill.

(** [pgagroal_flush]. *)
Definition pool_flush (mode : flush_mode) (database : string) : prog unit :=
  prefill <- for_each slots_down false (flush_slot mode database) ;;
  when prefill do prefill_if_can_fork false.

(** [pgagroal_request_flush]: the request without a database. *)
Definition request_flush (mode : flush_mode) (database : option string) : prog unit :=
  match database with
  | Some database => pool_flush mode database
  | None => pool_flush mode "*"
  end.

(** [pgagroal_flush_server]. *)
Definition pool_flush_server (server : Z) : prog unit :=
  for_each slots_up false (fun i prefill =>
    c <- act (GetConn i) ;;
    if c_server c =? server then flush_failed_slot true i prefill else Ret prefill) ;;;
  primary <- get_primary cfg ;;
  match primary with
  | None => Ret tt
  | Some primary =>
      when negb (server =? u8 (Z.of_nat primary)) do prefill_if_can_fork true
  end.

(** ** Life cycle *)

(** The connection fields [pgagroal_pool_init] sets; the others keep the zeros
    of a fresh segment. *)
Definition init_connection (c : connection) : connection :=
  set_c_generation 0 (set_c_pid (-1) (set_c_fd (-1) (set_c_timestamp (-1) (set_c_start_time (-1)
    (set_c_limit_rule (-1) (set_c_has_security SECURITY_INVALID (set_c_server (-1)
      (set_c_reset_query_failed false (set_c_tx_mode false (set_c_new true c)))))))))).

Definition pool_init : prog Z :=
  for_each (upto 10000) tt (fun i _ => act (StoreState i STATE_NOTINIT)) ;;;
  for_each slots_up tt (fun i _ => act (SetConn i init_connection)) ;;;
  Ret 0.

(** [pgagroal_pool_shutdown]. *)
Definition pool_shutdown : prog Z :=
  for_each slots_up tt (fun i _ =>
    state <- act (LoadState i) ;;
    if bool_decide (state = STATE_NOTINIT) then Ret tt
    else
      (when bool_decide (state = STATE_FREE) do
         (c <- act (GetConn i) ;;
          v <- sys (SocketIsValid (c_fd c)) ;;
          when v do sys (WriteTerminate None (c_fd c)))) ;;;
      c <- act (GetConn i) ;;
      sys (Disconnect (c_fd c)) ;;;
      (when negb (c_pid c =? -1) do sys (Kill (c_pid c) SIGQUIT)) ;;;
      act (StoreState i STATE_NOTINIT)) ;;;
  Ret 0.

(** ** Prefill *)

(** [get_connection_count_for_limit_rule]. *)
Definition connection_count_for_rule (rule_index : Z) (username : string) : prog Z :=
  if (rule_index <? 0) || (number_of_limits cfg <=? rule_index) then Ret 0
  else
    let l := limit_at cfg rule_index in
    for_each slots_up 0 (fun i count =>
      st <- act (LoadState i) ;;
      if bool_decide (st = STATE_NOTINIT) then Ret count
      else
        c <- act (GetConn i) ;;
        Ret (if streq (c_username c) username
                && (streq (c_database c) (l_database l) || existsb (streq (c_database c)) (l_aliases l))
             then count + 1 else count)).

(** [do_prefill]. *)
Definition do_prefill (username database : string) (size : Z) : prog bool :=
  let rule_index := find_best_rule cfg username database in
  connections <-
    (if negb (rule_index =? -1) then connection_count_for_rule rule_index username
     else for_each slots_up 0 (fun i count =>
            c <- act (GetConn i) ;;
            Ret (if streq (c_username c) username && streq (c_database c) database
                 then count + 1 else count))) ;;
  free <- for_each slots_up 0 (fun i free =>
            st <- act (LoadState i) ;;
            Ret (if bool_decide (st = STATE_NOTINIT) then free + 1 else free)) ;;
  Ret ((connections <? size) && (0 <? free)).

(** [pgagroal_prefill_auth] of [libpgagroal/security.c]: the result says success, with the
    value left in the slot argument; [None] when the acquisition used up its [fuel].  The
    exchange of the startup message and [server_authenticate] are calls answered by the
    environment; [ssl] stays NULL. *)
Definition prefill_auth (fuel : nat) (username password database : string) :
  prog (option (bool * option nat)) :=
  sys (TrackBasic TRACKER_PREFILL username database) ;;;
  r <- get_connection fuel username database false false ;;
  match r with
  | None => Ret None
  | Some (ret, slot) =>
      let error :=
        (match slot with
         | Some slot => sys (Track TRACKER_PREFILL_KILL slot) ;;; kill_connection slot None ;;; Ret tt
         | None => Ret tt
         end) ;;;
        Ret (Some (false, None)) in
      match slot with
      | Some slot =>
          if negb (ret =? 0) then error
          else
            c <- act (GetConn slot) ;;
            a <- sys (StartupExchange (c_fd c) username (resolve_database_alias cfg username database)) ;;
            match a with
            | None => error
            | Some auth_type =>
                if negb (auth_type =? SECURITY_TRUST) && negb (auth_type =? SECURITY_PASSWORD)
                   && negb (auth_type =? SECURITY_SCRAM256)
                then error
                else
                  a <- sys (ServerAuthenticate slot auth_type username password) ;;
                  match a with
                  | None => error
                  | Some a =>
                      act (SetConn slot (fun c =>
                        set_c_backend_secret (a_backend_secret a) (set_c_backend_pid (a_backend_pid a)
                          (set_c_security_messages (a_messages a) (set_c_security_lengths (a_lengths a)
                            (set_c_has_security (a_has_security a) c)))))) ;;;
                      c <- act (GetConn slot) ;;
                      st <- act (LoadServer (c_server c)) ;;
                      (if bool_decide (st = SERVER_NOTINIT) || bool_decide (st = SERVER_NOTINIT_PRIMARY)
                       then update_server_state slot ;;; Ret tt else Ret tt) ;;;
                      Ret (Some (true, Some slot))
                  end
            end
      | None => error
      end
  end.

(** Close a connection that could not be prefilled. *)
Definition prefill_kill (slot : nat) : prog unit :=
  c <- act (GetConn slot) ;;
  (if negb (c_fd c =? -1) then
     v <- sys (SocketIsValid (c_fd c)) ;;
     when v do sys (WriteTerminate None (c_fd c))
   else Ret tt) ;;;
  sys (Track TRACKER_PREFILL_KILL slot) ;;;
  kill_connection slot None ;;;
  Ret tt.

(** The [while] loop of [pgagroal_prefill] for one entry; [None] when [n] rounds were not
    enough. *)
Fixpoint prefill_loop (n fuel : nat) (username password database : string) (size : Z) : prog (option unit) :=
  match n with
  | O => Ret None
  | S n =>
      more <- do_prefill username database size ;;
      if more : bool then
        r <- prefill_auth fuel username password database ;;
        match r with
        | None => Ret None
        | Some (false, slot) =>
            (match slot with Some slot => prefill_kill slot | None => Ret tt end) ;;;
            Ret (Some tt)
        | Some (true, None) => prefill_loop n fuel username password database size
        | Some (true, Some slot) =>
            c <- act (GetConn slot) ;;
            if negb (c_has_security c =? SECURITY_INVALID) then
              sys (Track TRACKER_PREFILL_RETURN slot) ;;;
              return_connection slot None false ;;;
              prefill_loop n fuel username password database size
            else prefill_kill slot ;;; Ret (Some tt)
        end
      else Ret (Some tt)
  end.

(** One entry of the limits. *)
Definition prefill_entry (n fuel : nat) (initial : bool) (l : limit) : prog (option unit) :=
  let size := if initial then l_initial_size l else l_min_size l in
  if negb (0 <? size) then Ret (Some tt)
  else if is_database_reserved (l_database l) || is_username_reserved (l_username l) then Ret (Some tt)
  else if negb (streq "all" (l_database l)) && negb (streq "all" (l_username l)) then
    match List.find (fun u => streq (l_username l) (u_username u)) (users cfg) with
    | Some u => prefill_loop n fuel (u_username u) (u_password u) (l_database l) size
    | None => Ret (Some tt)
    end
  else Ret (Some tt).

(** [pgagroal_prefill]. *)
Fixpoint prefill_entries (n fuel : nat) (initial : bool) (ls : list limit) : prog (option unit) :=
  match ls with
  | [] => Ret (Some tt)
  | l :: ls =>
      r <- prefill_entry n fuel initial l ;;
      match r with None => Ret None | Some _ => prefill_entries n fuel initial ls end
  end.

Definition pool_prefill (n fuel : nat) (initial : bool) : prog (option unit) :=
  prefill_entries n fuel initial (limits cfg).

(** [pgagroal_prefill_if_can] without [do_fork]. *)
Definition prefill_if_can (n fuel : nat) (initial : bool) : prog (option unit) :=
  if can_prefill cfg then
    primary <- get_primary cfg ;;
    match primary with
    | None => Ret (Some tt)
    | Some _ => pool_prefill n fuel initial
    end
  else Ret (Some tt).
End pool.
