(* ===== verification/ConfFile.v ===== *)
(** * The configuration files ([libpgagroal/configuration.c])

    The readers of [pgagroal.conf], [pgagroal_hba.conf], [pgagroal_databases.conf] and of
    the files with users.  A file is its text, or [None] when it cannot be opened.  The
    arrays of [struct main_configuration] keep their size while a file is read: a store
    outside of one, and a read of the server that was never set, is undefined ([None]).
    Warnings are dropped. *)

From Stdlib Require Import Ascii.
From S2P Require Import Prelude Utf8 Text Config Hba ConfText Settings Pool.

Local Open Scope Z_scope.

Definition NUMBER_OF_SERVERS : nat := 64.
Definition NUMBER_OF_HBAS : nat := 64.
Definition NUMBER_OF_USERS : nat := 64.
Definition NUMBER_OF_ADMINS : nat := 8.
Definition MAX_TYPE_LENGTH : nat := 16.
Definition MAX_ADDRESS_LENGTH : nat := 64.
Definition MIN_PASSWORD_LENGTH : Z := 8.

Definition STATUS_OK : Z := 0.
Definition STATUS_FILE_NOT_FOUND : Z := -1.
Definition STATUS_FILE_TOO_BIG : Z := -2.
Definition STATUS_KO : Z := -3.
Definition STATUS_CANNOT_DECRYPT : Z := -4.

Definition PROMETHEUS_DEFAULT_CACHE_SIZE : Z := 256 * 1024.

(** [pgagroal_init_configuration]; memory is zero before it. *)
Definition init_configuration : main_configuration :=
  MainConfiguration
    (Configuration "" 0 5 LOGGING_TYPE_CONSOLE LOGGING_LEVEL_INFO "" false false LOGGING_MODE_APPEND 0 0 "" false
       "" "" "" "" HUGEPAGE_TRY 0 0 0 "" "" "")
    0 0 PIPELINE_AUTO false "" "" UPDATE_PROCESS_TITLE_VERBOSE false 100 true 30 250 0 0 MIN_PASSWORD_LENGTH 0 60
    VALIDATION_OFF 300 3600 5 false 30 5 "" STARTUP_VALIDATION_TRY 0 false "" EVENT_BACKEND_AUTO true true (-1) false
    false "DISCARD ALL" false RESET_DISCARD "" [] [] [] [] [] [] (User "" "").

(** ** Settings *)

Section apply.
Context (c : main_configuration) (srv : option server_entry) (section key value : string).

(** What a setting does: the configuration, the server of the section, and whether the
    setting was understood. *)
Definition applied : Type := main_configuration * option server_entry * bool.

Definition in_main (f : main_configuration -> main_configuration) : applied := (f c, srv, true).
Definition in_server (f : server_entry -> server_entry) : applied := (c, f <$> srv, true).
Definition try_main {A} (o : option A) (f : A -> main_configuration -> main_configuration) : applied :=
  match o with Some v => (f v c, srv, true) | None => (c, srv, false) end.
Definition try_server {A} (o : option A) (f : A -> server_entry -> server_entry) : applied :=
  match o with Some v => (c, f v <$> srv, true) | None => (c, srv, false) end.
Definition seconds (default : Z) (f : Z -> main_configuration -> main_configuration) : applied :=
  let '(v, ok) := as_seconds value default in (f v c, srv, ok).
Definition bytes (default : Z) (f : Z -> main_configuration -> main_configuration) : option applied :=
  '(v, ok) ← as_bytes value default; Some (f v c, srv, ok).

(** The key belongs to the global sections, or to that of a server. *)
Definition global (wanted : string) : bool := key_in_section wanted section key true.
Definition local (wanted : string) : bool := key_in_section wanted section key false.

(** The host and the port of a server also set its name and its state. *)
Definition server_host (s : server_entry) : server_entry :=
  set_sv_state SERVER_NOTINIT (set_sv_host (store MISC_LENGTH value) (set_sv_name (store MISC_LENGTH section) s)).
Definition server_port (s : server_entry) : server_entry :=
  set_sv_state SERVER_NOTINIT
    (from_option (fun p => set_sv_port p) id (as_int value) (set_sv_name section s)).

(** The back-off, in its range. *)
Definition retry_delay (crd : Z) : Z :=
  if crd <? MIN_CONNECTION_RETRY_DELAY then MIN_CONNECTION_RETRY_DELAY
  else if MAX_CONNECTION_RETRY_DELAY <? crd then MAX_CONNECTION_RETRY_DELAY else crd.

(** [pgagroal_apply_main_configuration], the settings of the network and the metrics. *)
Definition apply_network : option (option applied) :=
  if global "host" then Some (Some (in_main (on_common (set_cf_host (store MISC_LENGTH value)))))
  else if local "host" then Some (Some (in_server server_host))
  else if global "port" then Some (Some (try_main (as_int value) (fun v => on_common (set_cf_port v))))
  else if local "port" then
    Some (Some (c, server_port <$> srv, match as_int value with Some _ => true | None => false end))
  else if local "primary" then
    Some (Some (c, set_sv_state (if from_option id false (as_bool value) then SERVER_NOTINIT_PRIMARY else SERVER_NOTINIT) <$> srv,
                match as_bool value with Some _ => true | None => false end))
  else if global "metrics" then Some (Some (try_main (as_int value) (fun v => on_common (set_cf_metrics v))))
  else if global "metrics_ca_file" then Some (Some (in_main (on_common (set_cf_metrics_ca_file (store (Z.to_nat MAX_PATH) value)))))
  else if global "metrics_cert_file" then Some (Some (in_main (on_common (set_cf_metrics_cert_file (store (Z.to_nat MAX_PATH) value)))))
  else if global "metrics_key_file" then Some (Some (in_main (on_common (set_cf_metrics_key_file (store (Z.to_nat MAX_PATH) value)))))
  else if global "metrics_cache_max_age" then Some (Some (seconds 0 (fun v => on_common (set_cf_metrics_cache_max_age v))))
  else if global "metrics_cache_max_size" then
    Some (bytes PROMETHEUS_DEFAULT_CACHE_SIZE (fun v => on_common (set_cf_metrics_cache_max_size v)))
  else if global "management" then Some (Some (try_main (as_int value) set_mc_management))
  else if global "console" then Some (Some (try_main (as_int value) set_mc_console))
  else if global "pipeline" then Some (Some (try_main (as_pipeline value) set_mc_pipeline))
  else if global "failover" then Some (Some (try_main (as_bool value) set_mc_failover))
  else if global "failover_script" then Some (Some (in_main (set_mc_failover_script (store MISC_LENGTH value))))
  else if global "failover_notify_script" then
    Some (Some (in_main (set_mc_failover_notify_script
      (if (MISC_LENGTH - 1 <? String.length value)%nat then "" else value))))
  else if global "auth_query" then Some (Some (try_main (as_bool value) set_mc_authquery))
  else None.

(** The settings of TLS. *)
Definition apply_tls : option (option applied) :=
  let path := store (Z.to_nat MAX_PATH) value in
  if global "tls" then Some (Some (try_main (as_bool value) (fun v => on_common (set_cf_tls v))))
  else if local "tls" then Some (Some (try_server (as_bool value) set_sv_tls))
  else if local "channel_binding" then Some (Some (try_server (as_channel_binding value) set_sv_channel_binding))
  else if global "tls_ca_file" then Some (Some (in_main (on_common (set_cf_tls_ca_file path))))
  else if local "tls_ca_file" then Some (Some (in_server (set_sv_tls_ca_file path)))
  else if global "tls_crl_file" then Some (Some (in_main (on_common (set_cf_tls_crl_file path))))
  else if local "tls_crl_file" then Some (Some (in_server (set_sv_tls_crl_file path)))
  else if global "tls_cert_file" then Some (Some (in_main (on_common (set_cf_tls_cert_file path))))
  else if local "tls_cert_file" then Some (Some (in_server (set_sv_tls_cert_file path)))
  else if global "tls_key_file" then Some (Some (in_main (on_common (set_cf_tls_key_file path))))
  else if local "tls_key_file" then Some (Some (in_server (set_sv_tls_key_file path)))
  else None.

(** The time outs, the health checks and what concerns clients. *)
Definition apply_timeouts : option (option applied) :=
  if global "blocking_timeout" then Some (Some (seconds 30 set_mc_blocking_timeout))
  else if global "connection_retry_delay" then
    Some (Some (try_main (as_int value) (fun v => set_mc_connection_retry_delay (retry_delay v))))
  else if global "idle_timeout" then Some (Some (seconds 0 set_mc_idle_timeout))
  else if global "rotate_frontend_password_timeout" then Some (Some (seconds 0 set_mc_rotate_frontend_password_timeout))
  else if global "rotate_frontend_password_length" then Some (Some (try_main (as_int value) set_mc_rotate_frontend_password_length))
  else if global "max_connection_age" then Some (Some (seconds 0 set_mc_max_connection_age))
  else if global "flush_timeout" then Some (Some (seconds 60 set_mc_flush_timeout))
  else if global "validation" then Some (Some (try_main (as_validation value) set_mc_validation))
  else if global "background_interval" then Some (Some (seconds 300 set_mc_background_interval))
  else if global "tls_cert_monitor_interval" then Some (Some (seconds 3600 set_mc_tls_cert_monitor_interval))
  else if global "max_retries" then Some (Some (try_main (as_int value) set_mc_max_retries))
  else if global "health_check" then Some (Some (try_main (as_bool value) set_mc_health_check))
  else if global "health_check_period" then Some (Some (seconds 30 set_mc_health_check_period))
  else if global "health_check_timeout" then Some (Some (seconds 5 set_mc_health_check_timeout))
  else if global "health_check_user" then Some (Some (in_main (set_mc_health_check_user (store MAX_USERNAME_LENGTH value))))
  else if global "startup_validation" then Some (Some (try_main (as_startup_validation value) set_mc_startup_validation))
  else if global "authentication_timeout" then Some (Some (seconds 5 (fun v => on_common (set_cf_authentication_timeout v))))
  else if global "disconnect_client" then Some (Some (try_main (as_int value) set_mc_disconnect_client))
  else if global "disconnect_client_force" then Some (Some (try_main (as_bool value) set_mc_disconnect_client_force))
  else None.

(** Logging and the rest. *)
Definition apply_logging : option (option applied) :=
  if global "pidfile" then Some (Some (in_main (set_mc_pidfile (store (Z.to_nat MAX_PATH) value))))
  else if global "allow_unknown_users" then Some (Some (try_main (as_bool value) set_mc_allow_unknown_users))
  else if global "log_type" then Some (Some (try_main (as_logging_type value) (fun v => on_common (set_cf_log_type v))))
  else if global "log_level" then Some (Some (in_main (on_common (set_cf_log_level (as_logging_level value)))))
  else if global "log_path" then Some (Some (in_main (on_common (set_cf_log_path (store MISC_LENGTH value)))))
  else if global "log_rotation_size" then Some (bytes 0 (fun v => on_common (set_cf_log_rotation_size v)))
  else if global "log_rotation_age" then Some (Some (seconds 0 (fun v => on_common (set_cf_log_rotation_age v))))
  else if global "log_line_prefix" then Some (Some (in_main (on_common (set_cf_log_line_prefix (store MISC_LENGTH value)))))
  else if global "log_connections" then Some (Some (try_main (as_bool value) (fun v => on_common (set_cf_log_connections v))))
  else if global "log_disconnections" then
    Some (Some (try_main (as_bool value) (fun v => on_common (set_cf_log_disconnections v))))
  else if global "log_mode" then Some (Some (try_main (as_logging_mode value) (fun v => on_common (set_cf_log_mode v))))
  else None.

Definition apply_process : option (option applied) :=
  if global "max_connections" then Some (Some (try_main (as_int value) set_mc_max_connections))
  else if global "unix_socket_dir" then Some (Some (in_main (set_mc_unix_socket_dir (store MISC_LENGTH value))))
  else if global "ev_backend" then Some (Some (in_main (set_mc_ev_backend (to_backend_type value))))
  else if global "keep_alive" then Some (Some (try_main (as_bool value) set_mc_keep_alive))
  else if global "nodelay" then Some (Some (try_main (as_bool value) set_mc_nodelay))
  else if global "backlog" then Some (Some (try_main (as_int value) set_mc_backlog))
  else if global "hugepage" then Some (Some (try_main (as_hugepage value) (fun v => on_common (set_cf_hugepage v))))
  else if global "tracker" then Some (Some (try_main (as_bool value) set_mc_tracker))
  else if global "track_prepared_statements" then Some (Some (try_main (as_bool value) set_mc_track_prepared_statements))
  else if global "server_reset_query" then Some (Some (in_main (set_mc_server_reset_query (store MISC_LENGTH value))))
  else if global "server_reset_query_always" then Some (Some (try_main (as_bool value) set_mc_server_reset_query_always))
  else if global "server_reset_query_behavior_on_failure" then
    Some (Some (try_main (as_server_reset_query_behavior value) set_mc_server_reset_query_behavior))
  else if global "update_process_title" then
    let '(v, ok) := as_update_process_title value UPDATE_PROCESS_TITLE_VERBOSE in
    Some (Some (set_mc_update_process_title v c, srv, ok))
  else None.

(** [pgagroal_apply_main_configuration]: the answer of the first group that knows the key. *)
Definition apply_main_configuration : option applied :=
  match apply_network with
  | Some r => r
  | None =>
      match apply_tls with
      | Some r => r
      | None =>
          match apply_timeouts with
          | Some r => r
          | None =>
              match apply_logging with
              | Some r => r
              | None => match apply_process with Some r => r | None => Some (c, srv, false) end
              end
          end
      end
  end.
End apply.

(** ** [pgagroal.conf] *)

(** The state of [pgagroal_read_configuration]: the array of servers, the server of the
    current section, the sections with their lines, and the number of servers. *)
Record reading := Reading {
  rd_config : main_configuration;
  rd_servers : list server_entry;
  rd_srv : option server_entry;
  rd_section : string;
  rd_sections : list string;
  rd_count : nat;
  rd_lineno : Z }.

(** The server of a new section. *)
Definition new_server (name : string) (lineno : Z) : server_entry :=
  ServerEntry name "" 0 0 0 "" false true "" "" "" "" CHANNEL_BINDING_PREFER SERVER_NOTINIT 0 0 0 0 lineno.

Definition server_section (name : string) : bool :=
  negb (streq name "pgagroal") && negb (streq name "health_check") && negb (streq name "prometheus").

(** A line with a section; [None] when there are too many. *)
Definition read_section (name : string) (r : reading) : option reading :=
  if (NUMBER_OF_SERVERS + 1 <=? length (rd_sections r))%nat then None
  else
    let r := Reading (rd_config r) (rd_servers r) (rd_srv r) name (rd_sections r ++ [name]) (rd_count r) (rd_lineno r) in
    if server_section name then
      let servers :=
        if (0 <? rd_count r)%nat && (rd_count r <=? NUMBER_OF_SERVERS)%nat
        then match rd_srv r with Some s => <[(rd_count r - 1)%nat := s]> (rd_servers r) | None => rd_servers r end
        else rd_servers r in
      Some (Reading (rd_config r) servers (Some (new_server name (rd_lineno r))) name (rd_sections r)
              (S (rd_count r)) (rd_lineno r))
    else Some r.

(** The settings whose value is a path. *)
Definition is_syskey (line : string) : bool :=
  existsb (starts_with (Some line))
    ["log_path"; "unix_socket_dir"; "tls_cert_file"; "tls_key_file"; "tls_ca_file"; "tls_crl_file"; "pidfile"].

(** A line with a setting; [None] is undefined. *)
Definition read_setting (getenv : string -> option string) (line : string) (r : reading) : option reading :=
  match (if is_syskey line then extract_syskey_value getenv line else extract_key_value line) with
  | (Some key, Some value) =>
      '(c, srv, _) ← apply_main_configuration (rd_config r) (rd_srv r) (rd_section r) key value;
      Some (Reading c (rd_servers r) srv (rd_section r) (rd_sections r) (rd_count r) (rd_lineno r))
  | _ => Some r
  end.

(** The outcome of a file: its status, or undefined. *)
Inductive read_result (A : Type) := Read (status : Z) (a : A) | ReadUndefined.
Arguments Read {A} status a.
Arguments ReadUndefined {A}.

Definition next_line (r : reading) : reading :=
  Reading (rd_config r) (rd_servers r) (rd_srv r) (rd_section r) (rd_sections r) (rd_count r) (rd_lineno r + 1).

(** The loop over the lines; a status when it is left early. *)
Fixpoint read_loop (getenv : string -> option string) (lines : list string) (r : reading) : read_result reading :=
  match lines with
  | [] => Read STATUS_OK r
  | line :: lines =>
      let r := next_line r in
      if is_empty_string line || is_comment_line line then read_loop getenv lines r
      else
        match section_line line with
        | Some name =>
            match read_section name r with
            | Some r => read_loop getenv lines r
            | None => Read STATUS_FILE_TOO_BIG r
            end
        | None =>
            match read_setting getenv line r with
            | Some r => read_loop getenv lines r
            | None => ReadUndefined
            end
        end
  end.

(** The pairs of sections with the same name. *)
Fixpoint duplicates (names : list string) : Z :=
  match names with
  | [] => 0
  | n :: names => Z.of_nat (length (filter (fun m => n = m /\ n <> "") names)) + duplicates names
  end.

(** The end of [pgagroal_read_configuration]: the last server is stored, the sections are
    checked. *)
Definition finish_reading (r : reading) : read_result main_configuration :=
  match rd_srv r with
  | None => ReadUndefined
  | Some s =>
      let stored :=
        if streq (sv_name s) "" then Some (rd_servers r)
        else if (rd_count r <=? NUMBER_OF_SERVERS)%nat then Some (<[(rd_count r - 1)%nat := s]> (rd_servers r))
        else None in
      match stored with
      | None => ReadUndefined
      | Some servers =>
          let c := set_mc_servers (take (rd_count r) servers) (rd_config r) in
          if negb (existsb (streq "pgagroal") (rd_sections r)) then Read STATUS_KO c
          else Read (duplicates (rd_sections r)) c
      end
  end.

(** [pgagroal_read_configuration] into the configuration [c]. *)
Definition read_configuration (getenv : string -> option string) (c : main_configuration) (file : option string)
  : read_result main_configuration :=
  match file with
  | None => Read STATUS_FILE_NOT_FOUND c
  | Some content =>
      match read_loop getenv (read_lines content)
              (Reading c (replicate NUMBER_OF_SERVERS inhabitant) None "" [] 0 0) with
      | ReadUndefined => ReadUndefined
      | Read status r => if status =? STATUS_OK then finish_reading r else Read status (rd_config r)
      end
  end.

(** ** [pgagroal_hba.conf] *)

(** [pgagroal_apply_hba_configuration] for one field of [max] bytes: a value that is too
    long leaves the field as it is. *)
Definition apply_hba_field (max : nat) (value : option string) (old : string) : option string :=
  match value with
  | None => None
  | Some v => if streq v "" then None else Some (if (String.length v <? max)%nat then v else old)
  end.

(** The five fields, one after the other until one fails; whether the entry is complete. *)
Definition apply_hba (fields : list (option string)) (h : hba) : hba * bool :=
  let field i := default None (fields !! i) in
  match apply_hba_field MAX_TYPE_LENGTH (field 0%nat) (h_type h) with
  | None => (h, false)
  | Some t =>
      let h := Hba t (h_database h) (h_username h) (h_address h) (h_method h) in
      match apply_hba_field MAX_DATABASE_LENGTH (field 1%nat) (h_database h) with
      | None => (h, false)
      | Some d =>
          let h := Hba t d (h_username h) (h_address h) (h_method h) in
          match apply_hba_field MAX_USERNAME_LENGTH (field 2%nat) (h_username h) with
          | None => (h, false)
          | Some u =>
              let h := Hba t d u (h_address h) (h_method h) in
              match apply_hba_field MAX_ADDRESS_LENGTH (field 3%nat) (h_address h) with
              | None => (h, false)
              | Some a =>
                  let h := Hba t d u a (h_method h) in
                  match apply_hba_field MAX_ADDRESS_LENGTH (field 4%nat) (h_method h) with
                  | None => (h, false)
                  | Some m => (Hba t d u a m, true)
                  end
              end
          end
      end
  end.

(** The loop of [pgagroal_read_hba_configuration]: the entries so far, and the memory of the
    next one, which a bad line has written to. *)
Fixpoint hba_loop (lines : list string) (entries : list hba) (cur : hba) : Z * list hba :=
  match lines with
  | [] => (STATUS_OK, entries)
  | line :: lines =>
      if is_empty_string line || is_comment_line line then hba_loop lines entries cur
      else
        let '(h, ok) := apply_hba (extract_hba line) cur in
        if ok then
          let entries := entries ++ [h] in
          if (NUMBER_OF_HBAS <=? length entries)%nat then (STATUS_FILE_TOO_BIG, entries)
          else hba_loop lines entries (Hba "" "" "" "" "")
        else hba_loop lines entries h
  end.

(** [pgagroal_read_hba_configuration]; the number of entries is only stored at the end. *)
Definition read_hba_configuration (c : main_configuration) (file : option string) : Z * main_configuration :=
  match file with
  | None => (STATUS_FILE_NOT_FOUND, c)
  | Some content =>
      let '(status, entries) := hba_loop (read_lines content) [] (Hba "" "" "" "" "") in
      (status, if status =? STATUS_OK then set_mc_hbas entries c else c)
  end.

(** ** [pgagroal_databases.conf] *)

(** A line of limits: its columns, or the end of the process. *)
Inductive limit_line :=
| LimitExit
| LimitLine (database username : option string) (max_size initial_size min_size : Z) (aliases : list string).

Definition no_limit (max_size : Z) (aliases : list string) : limit_line := LimitLine None None max_size 0 0 aliases.

(** The aliases of an entry; [None] when one is too long or reserved. *)
Fixpoint take_aliases (tokens : list string) (aliases : list string) : option (list string) :=
  match tokens with
  | [] => Some aliases
  | t :: tokens =>
      if (length aliases <? MAX_ALIASES)%nat then
        if (MAX_DATABASE_LENGTH <=? String.length t)%nat || is_database_reserved t then None
        else take_aliases tokens (aliases ++ [t])
      else take_aliases tokens aliases
  end.

(** [strtok(s, ",")]. *)
Definition comma_tokens (s : string) : list string := filter (fun t => t <> "") (pieces "," s).

(** A size column: a number, or [all] for what is left of [max_connections]. *)
Definition size_column (server_max : Z) (v : string) : option Z :=
  if strcasecmp "all" v then Some server_max else as_int v.

(** The columns after the database; without the columns for the initial and the minimal
    size the entry is dropped. *)
Definition limit_columns (server_max : Z) (database rest : string) (aliases : list string) : limit_line :=
  match extract_value rest with
  | None => no_limit 0 aliases
  | Some (user, rest) =>
      match extract_value rest with
      | None => no_limit 0 aliases
      | Some (v, rest) =>
          match size_column server_max v with
          | None => LimitLine (Some database) (Some user) (-1) 0 0 aliases
          | Some max_size =>
              match extract_value rest with
              | None => no_limit max_size aliases
              | Some (v, rest) =>
                  let initial_size := default 0 (size_column server_max v) in
                  match extract_value rest with
                  | None => LimitLine None None max_size initial_size 0 aliases
                  | Some (v, _) =>
                      LimitLine (Some database) (Some user) max_size initial_size
                        (default 0 (size_column server_max v)) aliases
                  end
              end
          end
      end
  end.

(** The line without the end of line. *)
Fixpoint strip_eol (s : string) : string :=
  match s with
  | EmptyString => ""
  | String c r => match strip_eol r with
                  | EmptyString => if is_eol c then "" else String c ""
                  | t => String c t
                  end
  end.

(** [extract_limit]. *)
Definition extract_limit (line : string) (server_max : Z) : limit_line :=
  match extract_alias_with_space (strip_eol line) with
  | None => no_limit 0 []
  | Some (part, rest) =>
      match remove_all_whitespace (Some part) with
      | None => no_limit 0 []
      | Some part =>
          match split_at "=" part with
          | Some (database, names) =>
              if is_database_reserved database then LimitExit
              else match take_aliases (comma_tokens names) [] with
                   | None => LimitExit
                   | Some aliases => limit_columns server_max database rest aliases
                   end
          | None => limit_columns server_max part rest []
          end
      end
  end.

(** An entry that is stored: the sizes are at most the maximum. *)
Definition limit_of (database username : string) (max_size initial_size min_size : Z) (aliases : list string)
  (lineno : Z) : limit_entry :=
  let initial_size := if max_size <? initial_size then max_size else initial_size in
  let min_size := if max_size <? min_size then max_size else min_size in
  LimitEntry (Limit database username aliases max_size initial_size min_size lineno) 0 0.

(** The loop of [pgagroal_read_limit_configuration]; [None] is the end of the process. *)
Fixpoint limit_loop (lines : list string) (lineno server_max : Z) (entries : list limit_entry)
  : option (Z * list limit_entry) :=
  match lines with
  | [] => Some (STATUS_OK, entries)
  | line :: lines =>
      let lineno := lineno + 1 in
      if is_empty_string line || is_comment_line line then limit_loop lines lineno server_max entries
      else
        match extract_limit line server_max with
        | LimitExit => None
        | LimitLine (Some database) (Some username) max_size initial_size min_size aliases =>
            if (String.length database <? MAX_DATABASE_LENGTH)%nat && (String.length username <? MAX_USERNAME_LENGTH)%nat then
              let entries := entries ++ [limit_of database username max_size initial_size min_size aliases lineno] in
              if (length entries <? NUMBER_OF_LIMITS)%nat
              then limit_loop lines lineno (i32 (server_max - max_size)) entries
              else Some (STATUS_FILE_TOO_BIG, entries)
            else limit_loop lines lineno server_max entries
        | LimitLine _ _ _ _ _ _ => limit_loop lines lineno server_max entries
        end
  end.

(** [pgagroal_read_limit_configuration]. *)
Definition read_limit_configuration (c : main_configuration) (file : option string) : option (Z * main_configuration) :=
  match file with
  | None => Some (STATUS_FILE_NOT_FOUND, c)
  | Some content =>
      '(status, entries) ← limit_loop (read_lines content) 0 (mc_max_connections c) [];
      Some (status, if status =? STATUS_OK then set_mc_limits entries c else c)
  end.

(** ** Users *)

Definition MAX_USER_LINE_LENGTH : nat := Z.to_nat 16384.
Definition MAX_PASSWORD : nat := Z.to_nat 8192.

(** The code points of a password for [pgagroal_utf8_valid]. *)
Definition password_valid (password : string) : bool :=
  utf8_valid (map (fun c => code c) (String.list_ascii_of_string password)).

Section users.
(** The password behind the text of a line: base64 and [pgagroal_decrypt] with the master
    key; [None] when there is no master key. *)
Context (decrypt : option (string -> option string)).

(** A line of users: the user, [Some None] when it is skipped, [None] when it cannot be
    decrypted.  An entry that is too long leaves the memory of the user empty. *)
Definition read_user (dec : string -> option string) (line : string) : option (option user) :=
  match filter (fun t => t <> "") (pieces ":" line) with
  | username :: encrypted :: _ =>
      password ← dec encrypted;
      if negb (password_valid password) then Some None
      else if (String.length username <? MAX_USERNAME_LENGTH)%nat && (String.length password <? MAX_PASSWORD)%nat
      then Some (Some (User username password))
      else Some (Some (User "" ""))
  | _ => None
  end.

(** The loop of [pgagroal_read_users_configuration]: a store behind the array of [max]
    users is undefined. *)
Fixpoint users_loop (max : nat) (dec : string -> option string) (lines : list string) (us : list user) : read_result (list user) :=
  match lines with
  | [] => Read (if (max <? length us)%nat then STATUS_FILE_TOO_BIG else STATUS_OK) us
  | line :: lines =>
      if is_empty_string line || is_comment_line line then users_loop max dec lines us
      else
        match read_user dec line with
        | None => Read STATUS_CANNOT_DECRYPT us
        | Some None => users_loop max dec lines us
        | Some (Some u) =>
            if (max <=? length us)%nat && negb (streq (u_username u) "") then ReadUndefined
            else users_loop max dec lines (us ++ [u])
        end
  end.

(** The body of the three readers, which store to different arrays. *)
Definition read_user_entries (max : nat) (set : list user -> main_configuration -> main_configuration)
  (c : main_configuration) (file : option string) : read_result main_configuration :=
  match file, decrypt with
  | None, _ => Read STATUS_FILE_NOT_FOUND c
  | Some _, None => Read STATUS_KO c
  | Some content, Some dec =>
      match users_loop max dec (fgets_lines (MAX_USER_LINE_LENGTH - 1) (MAX_USER_LINE_LENGTH - 1) "" content) [] with
      | ReadUndefined => ReadUndefined
      | Read status us => Read status (if status =? STATUS_OK then set us c else c)
      end
  end.

(** [pgagroal_read_users_configuration], [pgagroal_read_frontend_users_configuration] and
    [pgagroal_read_admins_configuration]. *)
Definition read_users_configuration : main_configuration -> option string -> read_result main_configuration :=
  read_user_entries NUMBER_OF_USERS set_mc_users.
Definition read_frontend_users_configuration : main_configuration -> option string -> read_result main_configuration :=
  read_user_entries NUMBER_OF_USERS set_mc_frontend_users.
Definition read_admins_configuration : main_configuration -> option string -> read_result main_configuration :=
  read_user_entries NUMBER_OF_ADMINS set_mc_admins.

(** [pgagroal_read_superuser_configuration]: one entry. *)
Fixpoint superuser_loop (dec : string -> option string) (lines : list string) (seen : bool) (u : user) : Z * user :=
  match lines with
  | [] => (STATUS_OK, u)
  | line :: lines =>
      if is_empty_string line || is_comment_line line then superuser_loop dec lines seen u
      else if seen then (STATUS_FILE_TOO_BIG, u)
      else
        match read_user dec line with
        | None => (STATUS_CANNOT_DECRYPT, u)
        | Some None => superuser_loop dec lines seen u
        | Some (Some v) => superuser_loop dec lines true v
        end
  end.

Definition read_superuser_configuration (c : main_configuration) (file : option string) : Z * main_configuration :=
  match file, decrypt with
  | None, _ => (STATUS_FILE_NOT_FOUND, c)
  | Some _, None => (STATUS_KO, c)
  | Some content, Some dec =>
      let '(status, u) := superuser_loop dec
                            (fgets_lines (MAX_USER_LINE_LENGTH - 1) (MAX_USER_LINE_LENGTH - 1) "" content) false (User "" "") in
      (status, if status =? STATUS_OK then set_mc_superuser u c else c)
  end.
End users.
