(* ===== verification/ConfFileFacts.v ===== *)
(** * The configuration files read back

    What is written to a file in its format is what the readers of [ConfFile] make of it:
    the host-based rules, the users, the limits with their aliases, and the sections and
    settings of [pgagroal.conf].  And where the readers go wrong: 64 entries, one user or
    server too many, a line of limits without its last columns. *)

From Stdlib Require Import Ascii.
From stdpp Require Import pretty.
From S2P Require Import Prelude Utf8 Text Config Hba ConfText ConfTextFacts Settings Pool ConfFile.

Local Open Scope Z_scope.

(** ** Lines *)

Definition eol : string := String "010" "".

Definition line_char (c : ascii) : bool := negb (code c =? 10).

Lemma fgets_line (size n : nat) (cur l rest : string) :
  all_chars line_char l = true -> (String.length l < n)%nat ->
  fgets_lines size n cur (l +:+ String "010" rest) = (cur +:+ l +:+ eol) :: fgets_lines size size "" rest.
Proof.
  revert n cur; induction l as [|c l IH]; intros n cur Hl Hn; [done|].
  cbn [all_chars] in Hl. apply andb_prop in Hl as [Hc Hl]. unfold line_char in Hc. apply negb_true_iff in Hc.
  change (String c l +:+ String "010" rest) with (String c (l +:+ String "010" rest)). cbn [fgets_lines]. rewrite Hc.
  cbn [String.length] in Hn. destruct n as [|[|n]]; [lia..|]. rewrite IH by (done || lia). f_equal.
  by rewrite sapp_assoc.
Qed.

(** A file of lines. *)
Fixpoint unlines (ls : list string) : string :=
  match ls with [] => "" | l :: ls => l +:+ String "010" (unlines ls) end.

Definition is_line (size : nat) (l : string) : bool := all_chars line_char l && (String.length l <? size)%nat.

Lemma fgets_unlines (size : nat) (ls : list string) :
  forallb (is_line size) ls = true -> fgets_lines size size "" (unlines ls) = (fun l => l +:+ eol) <$> ls.
Proof.
  induction ls as [|l ls IH]; [done|]. cbn [forallb unlines]. intros [Hl Hls]%andb_prop.
  apply andb_prop in Hl as [Hc Hn%Nat.ltb_lt]. rewrite fgets_line by done. rewrite IH by done. done.
Qed.

(** ** [pgagroal_hba.conf] *)

(** The line of an entry. *)
Definition hba_line (h : hba) : string := columns [h_type h; h_database h; h_username h; h_address h; h_method h].

(** An entry that the file can hold: columns without white space that fit their fields, and
    a line that fits the buffer and does not look like a comment. *)
Definition hba_printable (h : hba) : bool :=
  forallb is_token [h_type h; h_database h; h_username h; h_address h; h_method h]
  && (String.length (h_type h) <? MAX_TYPE_LENGTH)%nat && (String.length (h_database h) <? MAX_DATABASE_LENGTH)%nat
  && (String.length (h_username h) <? MAX_USERNAME_LENGTH)%nat && (String.length (h_address h) <? MAX_ADDRESS_LENGTH)%nat
  && (String.length (h_method h) <? MAX_ADDRESS_LENGTH)%nat
  && negb (is_comment_line (h_type h)) && is_line (LINE_LENGTH - 1) (hba_line h).

Lemma token_not_empty_line (t r : string) : is_token t = true -> is_empty_string (t +:+ r) = false.
Proof.
  intros Ht. destruct (token_cons t Ht) as (c & t' & -> & _ & Hc). cbn [all_chars] in Hc. apply andb_prop in Hc as [Hc _].
  unfold is_empty_string. change (String c t' +:+ r) with (String c (t' +:+ r)). rewrite skip_none; [done|].
  by apply negb_true_iff.
Qed.

Lemma comment_first (t r : string) : is_token t = true -> is_comment_line (t +:+ r) = is_comment_line t.
Proof.
  intros Ht. destruct (token_cons t Ht) as (c & t' & -> & Hb & _).
  change (String c t' +:+ r) with (String c (t' +:+ r)). cbn [is_comment_line]. by rewrite Hb; destruct (_ || _).
Qed.

Lemma apply_hba_fits (h h0 : hba) :
  hba_printable h = true -> apply_hba (extract_hba (hba_line h +:+ eol)) h0 = (h, true).
Proof.
  destruct h as [t d u a m]. unfold hba_printable, hba_line. cbn [h_type h_database h_username h_address h_method].
  rewrite !andb_true_iff. intros (((((((Htok & H1) & H2) & H3) & H4) & H5) & _) & _).
  rewrite forallb_forall in Htok.
  assert (Forall (fun s => is_token s = true) [t; d; u; a; m]) as Hf
    by (apply Forall_forall; intros s Hs; apply Htok; by apply list_elem_of_In).
  unfold eol. rewrite extract_hba_columns by done. rewrite !Forall_cons in Hf.
  destruct Hf as (Ft & Fd & Fu & Fa & Fm & _).
  change (Some <$> [t; d; u; a; m]) with [Some t; Some d; Some u; Some a; Some m].
  assert (forall s, is_token s = true -> streq s "" = false) as Hne
    by (intros s (Hs & _)%andb_prop; by apply negb_true_iff).
  assert (forall n s old, is_token s = true -> (String.length s <? n)%nat = true -> apply_hba_field n (Some s) old = Some s) as Hfit
    by (intros n s old Hs Hn; unfold apply_hba_field; by rewrite Hne, Hn).
  unfold apply_hba. cbv zeta. cbn [lookup list_lookup default from_option id].
  by rewrite !Hfit.
Qed.

Lemma hba_line_first (h : hba) : hba_printable h = true ->
  is_empty_string (hba_line h +:+ eol) = false /\ is_comment_line (hba_line h +:+ eol) = false.
Proof.
  intros H. unfold hba_printable in H. rewrite !andb_true_iff in H.
  destruct H as (((((((Htok & _) & _) & _) & _) & _) & Hc) & _). cbn in Htok. apply andb_prop in Htok as [Ht _].
  unfold hba_line. cbn [columns]. rewrite !sapp_assoc. split; [by apply token_not_empty_line|].
  rewrite comment_first by done. by apply negb_true_iff.
Qed.

Lemma hba_loop_lines (hs es : list hba) (h0 : hba) :
  forallb hba_printable hs = true ->
  hba_loop ((fun l => l +:+ eol) <$> (hba_line <$> hs)) es h0 =
  if decide (hs = []) then (STATUS_OK, es)
  else if (length es + length hs <? NUMBER_OF_HBAS)%nat then (STATUS_OK, es ++ hs)
  else (STATUS_FILE_TOO_BIG, take (Nat.max (S (length es)) NUMBER_OF_HBAS) (es ++ hs)).
Proof.
  revert es h0. induction hs as [|h hs IH]; intros es h0; [done|].
  cbn [forallb]. intros [Hh Hhs]%andb_prop. rewrite !fmap_cons. cbn [hba_loop].
  destruct (hba_line_first h Hh) as [-> ->]. cbn [orb]. rewrite apply_hba_fits by done.
  rewrite decide_False by done. rewrite length_app. cbn [length].
  destruct (Nat.leb_spec NUMBER_OF_HBAS (length es + 1)) as [Hn|Hn].
  - destruct (Nat.ltb_spec (length es + S (length hs)) NUMBER_OF_HBAS); [lia|].
    f_equal. replace (Nat.max (S (length es)) NUMBER_OF_HBAS) with (length (es ++ [h])) by (rewrite length_app; cbn [length]; lia).
    by rewrite (cons_middle h es hs), (app_assoc es [h] hs), take_app_length.
  - rewrite IH by done. rewrite length_app. cbn [length]. destruct (decide (hs = [])) as [->|Hne].
    + cbn [length]. destruct (Nat.ltb_spec (length es + 1) NUMBER_OF_HBAS); [done|lia].
    + replace (length es + 1 + length hs)%nat with (length es + S (length hs))%nat by lia.
      rewrite <- app_assoc. cbn [app]. destruct (_ <? _)%nat; [done|].
      replace (Nat.max (S (length es + 1)) NUMBER_OF_HBAS) with NUMBER_OF_HBAS by lia.
      by replace (Nat.max (S (length es)) NUMBER_OF_HBAS) with NUMBER_OF_HBAS by lia.
Qed.

(** The file of host-based rules is read as it was written.  Entries whose columns fit
    their fields come back in their order, up to 63 of them; a file with 64 entries or more,
    although the array holds 64, is refused as too big and leaves the configuration. *)
Theorem hba_file_roundtrip (c : main_configuration) (hs : list hba) (Hs : forallb hba_printable hs = true) :
  read_hba_configuration c (Some (unlines (hba_line <$> hs))) =
  if (length hs <? NUMBER_OF_HBAS)%nat then (STATUS_OK, set_mc_hbas hs c) else (STATUS_FILE_TOO_BIG, c).
Proof.
  assert (forallb (is_line (LINE_LENGTH - 1)) (hba_line <$> hs) = true) as Hl.
  { rewrite forallb_forall in *. intros l Hl. apply list_elem_of_In, list_elem_of_fmap in Hl as (h & -> & Hh).
    apply list_elem_of_In, Hs in Hh. unfold hba_printable in Hh. rewrite !andb_true_iff in Hh. apply Hh. }
  unfold read_hba_configuration, read_lines. rewrite fgets_unlines by done. rewrite hba_loop_lines by done.
  destruct (decide (hs = [])) as [->|Hne]; [done|]. cbn [length Nat.add]. by destruct (_ <? _)%nat.
Qed.

Lemma hba_file_roundtrip_witness :
  let hs := [Hba "host" "all" "alice" "10.0.0.0/8" "scram-sha-256"; Hba "hostssl" "mydb" "all" "all" "cert"] in
  read_hba_configuration init_configuration (Some (unlines (hba_line <$> hs))) = (STATUS_OK, set_mc_hbas hs init_configuration).
Proof. cbv zeta. rewrite hba_file_roundtrip; [reflexivity|vm_compute; reflexivity]. Defined.

(** ** The files with users *)

Lemma pieces_last (c : ascii) (s : string) :
  all_chars (fun x => negb (bool_decide (x = c))) s = true -> pieces c s = [s].
Proof.
  induction s as [|x s IH]; [done|]. cbn [all_chars]. intros [Hx Hs]%andb_prop. cbn [pieces].
  apply negb_true_iff in Hx. by rewrite Hx, IH.
Qed.

Lemma pieces_cons (c : ascii) (s r : string) :
  all_chars (fun x => negb (bool_decide (x = c))) s = true -> pieces c (s +:+ String c r) = s :: pieces c r.
Proof.
  induction s as [|x s IH]; intros H.
  - change ("" +:+ String c r) with (String c r). cbn [pieces]. by rewrite bool_decide_eq_true_2.
  - cbn [all_chars] in H. apply andb_prop in H as [Hx Hs]. change (String x s +:+ String c r) with (String x (s +:+ String c r)).
    cbn [pieces]. apply negb_true_iff in Hx. by rewrite Hx, IH.
Qed.

Section users.
Context (dec enc : string -> option string).

(** A line of the file: the name and the text of the password. *)
Definition user_line (u : user) : string := u_username u +:+ String ":" (default "" (enc (u_password u))).

(** A user that the file can hold: the name is a column without a colon that does not look
    like a comment, the text of the password has no colon and deciphers to it. *)
Definition user_printable (u : user) : bool :=
  is_token (u_username u) && negb (is_comment_line (u_username u))
  && all_chars (fun c => negb (bool_decide (c = ":"%char))) (u_username u)
  && all_chars (fun c => negb (bool_decide (c = ":"%char))) (default "" (enc (u_password u)))
  && (String.length (u_username u) <? MAX_USERNAME_LENGTH)%nat && (String.length (u_password u) <? MAX_PASSWORD)%nat
  && password_valid (u_password u)
  && bool_decide (dec (default "" (enc (u_password u)) +:+ eol) = Some (u_password u))
  && is_line (MAX_USER_LINE_LENGTH - 1) (user_line u).

Lemma read_user_line (u : user) : user_printable u = true -> read_user dec (user_line u +:+ eol) = Some (Some u).
Proof.
  destruct u as [name password]. unfold user_printable, read_user, user_line. cbn [u_username u_password].
  rewrite !andb_true_iff. intros ((((((((Ht & _) & Hn) & He) & Hln) & Hlp) & Hv) & Hd) & _).
  rewrite sapp_assoc. change (String ":" (default "" (enc password)) +:+ eol) with (String ":" (default "" (enc password) +:+ eol)).
  rewrite pieces_cons by done. rewrite pieces_last by (rewrite all_chars_app, He; done).
  rewrite filter_cons_True by (intros ->; done). rewrite filter_cons_True by (by destruct (default "" _)).
  apply bool_decide_eq_true in Hd. rewrite Hd. cbn [mbind option_bind]. rewrite Hv. cbn [negb]. by rewrite Hln, Hlp.
Qed.

Lemma user_line_first (u : user) : user_printable u = true ->
  is_empty_string (user_line u +:+ eol) = false /\ is_comment_line (user_line u +:+ eol) = false /\ streq (u_username u) "" = false.
Proof.
  unfold user_printable. rewrite !andb_true_iff. intros ((((((((Ht & Hc) & _) & _) & _) & _) & _) & _) & _).
  unfold user_line. rewrite sapp_assoc. split; [by apply token_not_empty_line|].
  rewrite comment_first by done. split; [by apply negb_true_iff|]. apply andb_prop in Ht as [Ht _]. by apply negb_true_iff.
Qed.

Lemma users_loop_lines (max : nat) (us acc : list user) :
  forallb user_printable us = true -> (length acc <= max)%nat ->
  users_loop max dec ((fun l => l +:+ eol) <$> (user_line <$> us)) acc =
  if (length acc + length us <=? max)%nat then Read STATUS_OK (acc ++ us) else ReadUndefined.
Proof.
  revert acc. induction us as [|u us IH]; intros acc Hus Hacc.
  - cbn [fmap list_fmap users_loop length]. rewrite Nat.add_0_r, app_nil_r.
    destruct (Nat.ltb_spec max (length acc)); [lia|]. by destruct (Nat.leb_spec (length acc) max); [|lia].
  - cbn [forallb] in Hus. apply andb_prop in Hus as [Hu Hus]. rewrite !fmap_cons. cbn [users_loop].
    destruct (user_line_first u Hu) as (-> & -> & Hne). cbn [orb]. rewrite read_user_line by done. rewrite Hne. cbn [negb length].
    rewrite andb_true_r. destruct (Nat.leb_spec max (length acc)) as [Hm|Hm].
    + by destruct (Nat.leb_spec (length acc + S (length us)) max); [lia|].
    + rewrite IH by (done || (rewrite length_app; cbn [length]; lia)). rewrite length_app, <- app_assoc. cbn [length].
      by replace (length acc + 1 + length us)%nat with (length acc + S (length us))%nat by lia.
Qed.

(** A file of users is read as it was written.  Users whose names and passwords fit their
    fields come back in their order, with the passwords deciphered, as many as the array
    holds.  One user more is written behind the array before the number is checked. *)
Theorem users_file_roundtrip (max : nat) (set : list user -> main_configuration -> main_configuration)
  (c : main_configuration) (us : list user) (Hu : forallb user_printable us = true) :
  read_user_entries (Some dec) max set c (Some (unlines (user_line <$> us))) =
  if (length us <=? max)%nat then Read STATUS_OK (set us c) else ReadUndefined.
Proof.
  assert (forallb (is_line (MAX_USER_LINE_LENGTH - 1)) (user_line <$> us) = true) as Hl.
  { rewrite forallb_forall in *. intros l Hl. apply list_elem_of_In, list_elem_of_fmap in Hl as (h & -> & Hh).
    apply list_elem_of_In, Hu in Hh. unfold user_printable in Hh. rewrite !andb_true_iff in Hh. apply Hh. }
  unfold read_user_entries. rewrite fgets_unlines by done. rewrite users_loop_lines by (done || cbn; lia).
  cbn [length Nat.add app]. by destruct (_ <=? _)%nat.
Qed.
End users.

(** The cipher that keeps the text: 64 users are read, the 65th is written behind the array. *)
Lemma users_file_roundtrip_witness :
  let us n := repeat (User "alice" "secret") n in
  let dec s := Some (strip_eol s) in
  let file n := Some (unlines (user_line Some <$> us n)) in
  read_users_configuration (Some dec) init_configuration (file 64%nat)
  = Read STATUS_OK (set_mc_users (us 64%nat) init_configuration)
  /\ read_users_configuration (Some dec) init_configuration (file 65%nat) = ReadUndefined.
Proof.
  cbv zeta beta. split.
  - etransitivity; [apply (users_file_roundtrip _ Some NUMBER_OF_USERS set_mc_users); vm_compute; reflexivity|reflexivity].
  - etransitivity; [apply (users_file_roundtrip _ Some NUMBER_OF_USERS set_mc_users); vm_compute; reflexivity|reflexivity].
Defined.

(** ** [pgagroal_databases.conf] *)

Lemma strip_text (s : string) : all_chars (fun c => negb (is_eol c)) s = true -> strip_eol (s +:+ eol) = s.
Proof.
  induction s as [|c s IH]; [done|]. cbn [all_chars]. intros [Hc Hs]%andb_prop.
  change (String c s +:+ eol) with (String c (s +:+ eol)). cbn [strip_eol]. rewrite IH by done.
  destruct s; [|done]. apply negb_true_iff in Hc. by rewrite Hc.
Qed.

Lemma remove_none (s acc : string) : all_chars token_char s = true -> remove_loop s (Some acc) = Some (acc +:+ s).
Proof.
  revert acc; induction s as [|c s IH]; intros acc; [by rewrite sapp_nil_r|]. cbn [all_chars]. intros [Hc Hs]%andb_prop.
  cbn [remove_loop]. unfold token_char, is_blank, is_eol in Hc. apply negb_true_iff in Hc.
  rewrite !orb_assoc in Hc. rewrite Hc. unfold append_char, append; cbn [default from_option]. rewrite IH by done. by rewrite sapp_assoc.
Qed.

Lemma remove_token (s : string) : is_token s = true -> remove_all_whitespace (Some s) = Some s.
Proof.
  intros Hs. destruct (token_cons s Hs) as (c & r & -> & _ & Hc). cbn [all_chars] in Hc. apply andb_prop in Hc as [Hc Hr].
  unfold remove_all_whitespace. cbn [remove_loop]. unfold token_char, is_blank, is_eol in Hc. apply negb_true_iff in Hc.
  rewrite !orb_assoc in Hc. rewrite Hc. unfold append_char, append; cbn [default from_option]. by rewrite remove_none.
Qed.

(** The last character of a text that is not empty. *)
Fixpoint last_char (prev : option ascii) (s : string) : option ascii :=
  match s with EmptyString => prev | String c s => last_char (Some c) s end.

Definition ends_open (o : option ascii) : bool := match o with Some c => (code c =? 44) || (code c =? 61) | None => false end.

(** The database with its aliases ends at the first blank. *)
Lemma alias_loop_names (fuel : nat) (prev : option ascii) (equals : bool) (acc s r : string) :
  all_chars token_char s = true -> (String.length s < fuel)%nat -> ends_open (last_char prev s) = false ->
  match r with String c _ => token_char c && negb ((code c =? 44) || (code c =? 61)) = true | EmptyString => False end ->
  alias_loop fuel prev equals acc (s +:+ String " " r) = (acc +:+ s, String " " r).
Proof.
  intros Hs Hf Ho Hr. revert fuel prev equals acc Hf Ho. induction s as [|c s IH]; intros fuel prev equals acc Hf Ho.
  - destruct fuel as [|fuel]; [cbn in Hf; lia|]. rewrite sapp_nil_r. change ("" +:+ String " " r) with (String " " r).
    destruct r as [|d r]; [done|]. apply andb_prop in Hr as [Hd Hn]. apply negb_true_iff, orb_false_iff in Hn as [H44 H61].
    assert (is_blank d = false) as Hb by (unfold token_char in Hd; by destruct (is_blank d)).
    cbn [alias_loop]. change (code " " =? 61) with false. change (is_blank " ") with true. cbv iota.
    assert (span is_blank (String " " (String d r)) = (" ", String d r)) as ->.
    { cbn [span]. change (is_blank " ") with true. by rewrite Hb. }
    cbn [last_char] in Ho. rewrite H44, H61.
    assert (match prev with Some p => code p =? 44 | None => false end = false) as ->.
    { destruct prev as [p|]; [|done]. cbn in Ho. by apply orb_false_iff in Ho as [-> _]. }
    by destruct equals.
  - cbn [all_chars] in Hs. apply andb_prop in Hs as [Hc Hs]. cbn [String.length] in Hf. destruct fuel as [|fuel]; [lia|].
    change (String c s +:+ String " " r) with (String c (s +:+ String " " r)). cbn [alias_loop]. cbn [last_char] in Ho.
    unfold token_char in Hc. apply negb_true_iff, orb_false_iff in Hc as [Hb He].
    destruct (code c =? 61) eqn:E61.
    + destruct s as [|d s]; [cbn in Ho; rewrite E61, orb_true_r in Ho; done|].
      assert (is_blank d = false) as Hbd.
      { cbn [all_chars] in Hs. apply andb_prop in Hs as [Hd _]. unfold token_char in Hd. by destruct (is_blank d). }
      change (String d s +:+ String " " r) with (String d (s +:+ String " " r)).
      assert (span is_blank (String d (s +:+ String " " r)) = ("", String d (s +:+ String " " r))) as ->
        by (cbn [span]; by rewrite Hbd).
      change (String d (s +:+ String " " r)) with (String d s +:+ String " " r).
      rewrite (IH Hs fuel) by (lia || done). by rewrite sapp_assoc.
    + rewrite Hb, He. rewrite (IH Hs fuel) by (lia || done). by rewrite sapp_assoc.
Qed.

Definition no_char (c : ascii) (s : string) : bool := all_chars (fun x => negb (bool_decide (x = c))) s.

Fixpoint joined (names : list string) : string :=
  match names with [] => "" | [n] => n | n :: rest => n +:+ String "," (joined rest) end.

(** The first column: the database with its aliases. *)
Definition names_column (l : limit) : string :=
  match l_aliases l with [] => l_database l | names => l_database l +:+ String "=" (joined names) end.

Definition limit_columns_of (l : limit) : list string :=
  [names_column l; l_username l; pretty (l_max_size l); pretty (l_initial_size l); pretty (l_min_size l)].

Definition in_int (n : Z) : bool := (0 <=? n) && (n <? 2 ^ 31).

Definition alias_printable (a : string) : bool :=
  is_token a && no_char "," a && (String.length a <? MAX_DATABASE_LENGTH)%nat && negb (is_database_reserved a).

(** An entry that the file can hold. *)
Definition limit_printable (l : limit) : bool :=
  is_token (l_database l) && no_char "=" (l_database l) && (String.length (l_database l) <? MAX_DATABASE_LENGTH)%nat
  && negb (is_comment_line (names_column l)) && negb (ends_open (last_char None (names_column l)))
  && (bool_decide (l_aliases l = []) || negb (is_database_reserved (l_database l)))
  && forallb alias_printable (l_aliases l) && (length (l_aliases l) <=? MAX_ALIASES)%nat
  && is_token (l_username l) && (String.length (l_username l) <? MAX_USERNAME_LENGTH)%nat
  && match l_username l with String c _ => negb ((code c =? 44) || (code c =? 61)) | EmptyString => false end
  && in_int (l_max_size l) && in_int (l_initial_size l) && in_int (l_min_size l)
  && (l_initial_size l <=? l_max_size l) && (l_min_size l <=? l_max_size l)
  && is_line (LINE_LENGTH - 1) (columns (limit_columns_of l)).

Lemma comma_joined (names : list string) :
  forallb alias_printable names = true -> comma_tokens (joined names) = names.
Proof.
  unfold comma_tokens. induction names as [|n [|m names] IH]; [done|..]; cbn [forallb joined]; intros [Hn Hns]%andb_prop;
    unfold alias_printable in Hn; rewrite !andb_true_iff in Hn; destruct Hn as (((Ht & Hc) & _) & _);
    (assert (n <> "") by (intros ->; done)).
  - rewrite pieces_last by done. by rewrite filter_cons_True.
  - rewrite pieces_cons by done. rewrite filter_cons_True by done. f_equal. by apply IH.
Qed.

Lemma take_aliases_all (names acc : list string) :
  forallb alias_printable names = true -> (length acc + length names <= MAX_ALIASES)%nat ->
  take_aliases names acc = Some (acc ++ names).
Proof.
  revert acc; induction names as [|n names IH]; intros acc H Hl; [by rewrite app_nil_r|].
  cbn [forallb] in H. apply andb_prop in H as [Hn Hns]. cbn [take_aliases length] in *.
  unfold alias_printable in Hn. rewrite !andb_true_iff in Hn. destruct Hn as (((_ & _) & Hlen%Nat.ltb_lt) & Hr%negb_true_iff).
  destruct (Nat.ltb_spec (length acc) MAX_ALIASES); [|lia].
  destruct (Nat.leb_spec MAX_DATABASE_LENGTH (String.length n)); [lia|]. rewrite Hr. cbn [orb].
  rewrite IH by (done || (rewrite length_app; cbn [length]; lia)). by rewrite <- app_assoc.
Qed.

Lemma split_at_none (c : ascii) (s : string) : no_char c s = true -> split_at c s = None.
Proof.
  induction s as [|x s IH]; [done|]. unfold no_char. cbn [all_chars split_at]. intros [Hx Hs]%andb_prop.
  apply negb_true_iff in Hx. by rewrite Hx, IH.
Qed.

Lemma split_at_first (c : ascii) (s r : string) : no_char c s = true -> split_at c (s +:+ String c r) = Some (s, r).
Proof.
  induction s as [|x s IH]; intros H.
  - change ("" +:+ String c r) with (String c r). cbn [split_at]. by rewrite bool_decide_eq_true_2.
  - unfold no_char in H. cbn [all_chars] in H. apply andb_prop in H as [Hx Hs].
    change (String x s +:+ String c r) with (String x (s +:+ String c r)). cbn [split_at].
    apply negb_true_iff in Hx. by rewrite Hx, IH.
Qed.

Lemma number_token (n : Z) : 0 <= n -> is_token (pretty n) = true.
Proof.
  intros Hn. destruct (pretty_digit n Hn) as (c & s & E & _). unfold is_token. rewrite E at 1. cbn [streq negb andb].
  apply (all_chars_impl is_digit); [|by apply pretty_digits]. by intros [[] [] [] [] [] [] [] []].
Qed.

Lemma size_number (server_max n : Z) : in_int n = true -> size_column server_max (pretty n) = Some n.
Proof.
  unfold in_int. rewrite andb_true_iff, Z.leb_le, Z.ltb_lt. intros [H0 H1]. unfold size_column.
  assert (strcasecmp "all" (pretty n) = false) as ->.
  { destruct (pretty_digit n H0) as (c & s & -> & Hc). cbn [strcasecmp].
    by destruct c as [[] [] [] [] [] [] [] []]. }
  rewrite as_int_pretty by lia. by rewrite i32_small by lia.
Qed.

Lemma joined_chars (names : list string) : forallb alias_printable names = true -> all_chars token_char (joined names) = true.
Proof.
  induction names as [|n [|m names] IH]; [done|..]; cbn [forallb joined]; intros [Hn Hns]%andb_prop;
    unfold alias_printable in Hn; rewrite !andb_true_iff in Hn; destruct Hn as (((Ht & _) & _) & _);
    apply andb_prop in Ht as [_ Ht]; [done|].
  rewrite all_chars_app, Ht. cbn [all_chars]. change (token_char ",") with true. by apply IH.
Qed.

Lemma names_token (l : limit) : limit_printable l = true -> is_token (names_column l) = true.
Proof.
  unfold limit_printable. rewrite !andb_true_iff. intros H.
  destruct H as ((((((((((((((((Hd & _) & _) & _) & _) & _) & Ha) & _) & _) & _) & _) & _) & _) & _) & _) & _) & _).
  unfold names_column. destruct (l_aliases l) as [|a names]; [done|]. apply joined_chars in Ha.
  destruct (token_cons _ Hd) as (c & s & E & _ & Hc). unfold is_token. rewrite all_chars_app, Hc. rewrite E at 1.
  cbn [all_chars]. change (token_char "=") with true. by rewrite Ha.
Qed.

Lemma columns_text (ts : list string) :
  Forall (fun t => is_token t = true) ts -> all_chars (fun c => negb (is_eol c)) (columns ts) = true.
Proof.
  assert (forall t, is_token t = true -> all_chars (fun c => negb (is_eol c)) t = true) as Ht.
  { intros t (_ & H)%andb_prop. revert H. apply all_chars_impl. unfold token_char. intros c. by destruct (is_eol c), (is_blank c). }
  induction ts as [|t [|u ts] IH]; [done|..]; rewrite Forall_cons; intros [H Hs]; cbn [columns]; [by apply Ht|].
  rewrite all_chars_app, Ht by done. cbn [all_chars]. change (is_eol " ") with false. by apply IH.
Qed.

Lemma length_sapp (a b : string) : String.length (a +:+ b) = (String.length a + String.length b)%nat.
Proof. induction a as [|c a IH]; [done|]. change (String c a +:+ b) with (String c (a +:+ b)). cbn. by rewrite IH. Qed.

(** The first column of a line. *)
Lemma extract_names (p u : string) (ts : list string) :
  is_token p = true -> ends_open (last_char None p) = false -> is_token u = true ->
  match u with String c _ => negb ((code c =? 44) || (code c =? 61)) = true | EmptyString => False end ->
  extract_alias_with_space (columns (p :: u :: ts)) = Some (p, columns (u :: ts)).
Proof.
  intros Hp Ho Hu Hc. unfold extract_alias_with_space.
  assert (columns (p :: u :: ts) = p +:+ String " " (columns (u :: ts))) as -> by done.
  rewrite skip_token by done. rewrite alias_loop_names.
  - change ("" +:+ p) with p. destruct (token_cons p Hp) as (c & p' & -> & _). do 2 f_equal.
    rewrite skip_cons by done. destruct ts as [|v ts]; cbn [columns]; [|by apply skip_token].
    rewrite <- (sapp_nil_r u) at 1. rewrite skip_token by done. by rewrite sapp_nil_r.
  - by apply andb_prop in Hp as [_ Hp].
  - rewrite length_sapp. lia.
  - done.
  - destruct (token_cons u Hu) as (c & u' & -> & _ & Ha). cbn [all_chars] in Ha. apply andb_prop in Ha as [Ha _].
    destruct ts as [|v ts]; exact (andb_true_intro (conj Ha Hc)).
Qed.

(** A line of an entry. *)
Lemma extract_limit_line (l : limit) (server_max : Z) : limit_printable l = true ->
  extract_limit (columns (limit_columns_of l) +:+ eol) server_max =
  LimitLine (Some (l_database l)) (Some (l_username l)) (l_max_size l) (l_initial_size l) (l_min_size l) (l_aliases l).
Proof.
  intros H. pose proof (names_token l H) as Hp. unfold limit_printable in H. rewrite !andb_true_iff in H.
  destruct H as ((((((((((((((((Hd & Hne) & _) & _) & Ho%negb_true_iff) & Hr) & Ha) & Hm) & Hu) & _) & Hc) & H1) & H2) & H3) & _) & _) & _).
  assert (forall n, in_int n = true -> is_token (pretty n) = true) as Hn.
  { unfold in_int. intros n (Hn%Z.leb_le & _)%andb_prop. by apply number_token. }
  unfold extract_limit, limit_columns_of. rewrite strip_text by (apply columns_text; repeat constructor; auto).
  rewrite extract_names by (done || by destruct (l_username l)). rewrite remove_token by done.
  assert (forall aliases, limit_columns server_max (l_database l)
    (columns [l_username l; pretty (l_max_size l); pretty (l_initial_size l); pretty (l_min_size l)]) aliases =
    LimitLine (Some (l_database l)) (Some (l_username l)) (l_max_size l) (l_initial_size l) (l_min_size l) aliases) as Hcol.
  { intros aliases. unfold limit_columns.
    rewrite <- (sapp_nil_r (columns [l_username l; _; _; _])), extract_column by auto.
    rewrite extract_column by auto. rewrite size_number by done. rewrite extract_column by auto.
    rewrite size_number by done. cbn [columns]. rewrite extract_last by auto. by rewrite size_number. }
  unfold names_column. destruct (l_aliases l) as [|a names] eqn:Ea.
  - rewrite split_at_none by done. apply Hcol.
  - rewrite split_at_first by done. apply orb_true_iff in Hr as [Hr|Hr]; [by apply bool_decide_eq_true in Hr|].
    apply negb_true_iff in Hr. rewrite Hr. rewrite comma_joined by done.
    rewrite take_aliases_all by (done || by apply Nat.leb_le). apply Hcol.
Qed.

(** The entry that is stored for the line [n]. *)
Definition stored (n : Z) (l : limit) : limit_entry :=
  LimitEntry (Limit (l_database l) (l_username l) (l_aliases l) (l_max_size l) (l_initial_size l) (l_min_size l) n) 0 0.

Fixpoint stored_from (n : Z) (ls : list limit) : list limit_entry :=
  match ls with [] => [] | l :: ls => stored (n + 1) l :: stored_from (n + 1) ls end.

Lemma limit_of_stored (n : Z) (l : limit) : limit_printable l = true ->
  limit_of (l_database l) (l_username l) (l_max_size l) (l_initial_size l) (l_min_size l) (l_aliases l) n = stored n l.
Proof.
  unfold limit_printable. rewrite !andb_true_iff. intros H. destruct H as (((_ & Hi%Z.leb_le) & Hm%Z.leb_le) & _).
  unfold limit_of, stored. destruct (Z.ltb_spec (l_max_size l) (l_initial_size l)); [lia|].
  by destruct (Z.ltb_spec (l_max_size l) (l_min_size l)); [lia|].
Qed.

Lemma limit_line_first (l : limit) : limit_printable l = true ->
  let line := columns (limit_columns_of l) +:+ eol in
  is_empty_string line || is_comment_line line = false
  /\ (String.length (l_database l) <? MAX_DATABASE_LENGTH)%nat && (String.length (l_username l) <? MAX_USERNAME_LENGTH)%nat = true.
Proof.
  intros H. pose proof (names_token l H) as Hp. unfold limit_printable in H. rewrite !andb_true_iff in H.
  destruct H as ((((((((((((((((_ & _) & Hd) & Hc) & _) & _) & _) & _) & _) & Hu) & _) & _) & _) & _) & _) & _) & _).
  cbv zeta. rewrite Hd, Hu. split; [|done].
  assert (exists r, columns (limit_columns_of l) +:+ eol = names_column l +:+ r) as (r & ->)
    by (unfold limit_columns_of; cbn [columns]; rewrite sapp_assoc; eauto).
  rewrite token_not_empty_line, comment_first by done. by apply negb_true_iff.
Qed.

Lemma limit_loop_lines (ls : list limit) (n server_max : Z) (es : list limit_entry) :
  forallb limit_printable ls = true -> (length es < NUMBER_OF_LIMITS)%nat ->
  exists es', limit_loop ((fun l => l +:+ eol) <$> ((fun l => columns (limit_columns_of l)) <$> ls)) n server_max es =
    Some (if (length es + length ls <? NUMBER_OF_LIMITS)%nat then (STATUS_OK, es ++ stored_from n ls)
          else (STATUS_FILE_TOO_BIG, es')).
Proof.
  revert n server_max es. induction ls as [|l ls IH]; intros n server_max es Hls Hes.
  - exists []. cbn [length]. rewrite Nat.add_0_r, app_nil_r. by destruct (Nat.ltb_spec (length es) NUMBER_OF_LIMITS); [|lia].
  - cbn [forallb] in Hls. apply andb_prop in Hls as [Hl Hls]. rewrite !fmap_cons. cbn [limit_loop].
    destruct (limit_line_first l Hl) as [-> Hf]. rewrite extract_limit_line by done. rewrite Hf, limit_of_stored by done.
    rewrite length_app. cbn [length]. destruct (Nat.ltb_spec (length es + 1) NUMBER_OF_LIMITS) as [Hn|Hn].
    + destruct (IH (n + 1) (i32 (server_max - l_max_size l)) (es ++ [stored (n + 1) l]) Hls) as (es' & ->);
        [by rewrite length_app|]. exists es'. rewrite length_app, <- app_assoc. cbn [length stored_from app].
      by replace (length es + 1 + length ls)%nat with (length es + S (length ls))%nat by lia.
    + exists (es ++ [stored (n + 1) l]). by destruct (Nat.ltb_spec (length es + S (length ls)) NUMBER_OF_LIMITS); [lia|].
Qed.

(** The file of limits is read as it was written.  Entries with their aliases, their user
    and their three sizes come back in their order, each with the number of its line and
    with counters that are zero, up to 63 of them; a file with 64 entries or more, although
    the array holds 64, is refused as too big and leaves the configuration. *)
Theorem limit_file_roundtrip (c : main_configuration) (ls : list limit) (Hls : forallb limit_printable ls = true) :
  read_limit_configuration c (Some (unlines ((fun l => columns (limit_columns_of l)) <$> ls))) =
  Some (if (length ls <? NUMBER_OF_LIMITS)%nat then (STATUS_OK, set_mc_limits (stored_from 0 ls) c)
        else (STATUS_FILE_TOO_BIG, c)).
Proof.
  assert (forallb (is_line (LINE_LENGTH - 1)) ((fun l => columns (limit_columns_of l)) <$> ls) = true) as Hl.
  { rewrite forallb_forall in *. intros s Hl. apply list_elem_of_In, list_elem_of_fmap in Hl as (h & -> & Hh).
    apply list_elem_of_In, Hls in Hh. unfold limit_printable in Hh. rewrite !andb_true_iff in Hh. apply Hh. }
  unfold read_limit_configuration, read_lines. rewrite fgets_unlines by done.
  destruct (limit_loop_lines ls 0 (mc_max_connections c) [] Hls) as (es' & ->); [by apply Nat.ltb_lt|].
  cbn [length Nat.add app mbind option_bind]. by destruct (_ <? _)%nat.
Qed.

Lemma limit_file_roundtrip_witness :
  let ls := [Limit "mydb" "alice" ["m1"; "m2"] 10 5 2 1; Limit "all" "all" [] 20 0 0 2] in
  read_limit_configuration init_configuration (Some (unlines ((fun l => columns (limit_columns_of l)) <$> ls)))
  = Some (STATUS_OK, set_mc_limits ((fun l => LimitEntry l 0 0) <$> ls) init_configuration).
Proof. cbv zeta. rewrite limit_file_roundtrip; [reflexivity|vm_compute; reflexivity]. Defined.

(** An entry without the last columns is dropped.  A line with a database, a user and a
    maximal size, and nothing else, or with an initial size but no minimal one, leaves no
    entry, although the sizes have a default: the rest of the file is read as if the line
    were a comment. *)
Theorem short_limit_dropped (d u : string) (sizes : list Z) (lines : list string) (n server_max : Z) (es : list limit_entry)
  (Hd : is_token d && no_char "=" d && no_char "," d && negb (is_comment_line d) = true) (Hu : is_token u = true)
  (Hc : match u with String c _ => negb ((code c =? 44) || (code c =? 61)) = true | EmptyString => False end)
  (Hs : forallb in_int sizes = true) (Hn : (1 <= length sizes <= 2)%nat) :
  limit_loop ((columns (d :: u :: (pretty <$> sizes)) +:+ eol) :: lines) n server_max es
  = limit_loop lines (n + 1) server_max es.
Proof.
  rewrite !andb_true_iff in Hd. destruct Hd as (((Hd & He) & Hk) & Hcm%negb_true_iff).
  assert (forall n, in_int n = true -> is_token (pretty n) = true) as Hnum.
  { unfold in_int. intros m (Hm%Z.leb_le & _)%andb_prop. by apply number_token. }
  assert (ends_open (last_char None d) = false) as Ho.
  { clear -He Hk. assert (forall prev, ends_open prev = false -> ends_open (last_char prev d) = false) as H; [|by apply H].
    induction d as [|c d IH]; [done|]. unfold no_char in *. cbn [all_chars last_char] in *.
    apply andb_prop in He as [He1 He2], Hk as [Hk1 Hk2]. intros prev _. apply IH; [done..|]. cbn.
    apply negb_true_iff, bool_decide_eq_false in He1, Hk1. by destruct c as [[] [] [] [] [] [] [] []]. }
  cbn [limit_loop].
  assert (exists r, columns (d :: u :: (pretty <$> sizes)) +:+ eol = d +:+ r) as (r & Er)
    by (cbn [columns]; rewrite sapp_assoc; eauto).
  assert (is_empty_string (columns (d :: u :: (pretty <$> sizes)) +:+ eol)
          || is_comment_line (columns (d :: u :: (pretty <$> sizes)) +:+ eol) = false) as ->
    by (rewrite Er, token_not_empty_line, comment_first by done; done).
  unfold extract_limit. rewrite strip_text.
  2: { apply columns_text. repeat constructor; try done. apply Forall_fmap. rewrite forallb_forall in Hs.
       apply Forall_forall. intros x Hx. apply Hnum, Hs. by apply list_elem_of_In. }
  rewrite extract_names by done. rewrite remove_token, split_at_none by done. unfold limit_columns.
  destruct sizes as [|m [|i [|]]]; cbn in Hn; try lia; cbn [fmap list_fmap forallb] in *; rewrite !andb_true_iff in Hs.
  - destruct Hs as [Hm _]. rewrite <- (sapp_nil_r (columns _)), extract_column by auto. cbn [columns].
    rewrite extract_last by auto. by rewrite size_number.
  - destruct Hs as (Hm & Hi & _). rewrite <- (sapp_nil_r (columns _)), extract_column by auto. rewrite extract_column by auto.
    rewrite size_number by done. cbn [columns]. rewrite extract_last by auto. by rewrite size_number.
Qed.

(** The two lines of the documentation, of which only one is kept. *)
Lemma short_limit_dropped_witness :
  limit_loop ["mydb myuser 10" +:+ eol] 0 100 [] = Some (STATUS_OK, [])
  /\ limit_loop ["mydb myuser 10 5 1" +:+ eol] 0 100 []
     = Some (STATUS_OK, [LimitEntry (Limit "mydb" "myuser" [] 10 5 1 1) 0 0]).
Proof.
  split; [|reflexivity].
  exact (short_limit_dropped "mydb" "myuser" [10] [] 0 100 [] eq_refl eq_refl eq_refl eq_refl ltac:(cbn; lia)).
Defined.

(** ** [pgagroal.conf] *)

(** What a file says: sections and settings. *)
Inductive item := ItemSection (name : string) | ItemSetting (key value : string).

(** Its line, with the value as [to_string] prints it. *)
Definition item_text (i : item) : string :=
  match i with
  | ItemSection name => "[" +:+ name +:+ "]"
  | ItemSetting key value => key +:+ " = " +:+ default "" (to_string value MISC_LENGTH)
  end.

(** What it means for the state of the reader. *)
Definition item_meaning (i : item) (r : reading) : option (reading + reading) :=
  let r := next_line r in
  match i with
  | ItemSection name => Some (match read_section name r with Some r => inr r | None => inl r end)
  | ItemSetting key value =>
      '(c, srv, _) ← apply_main_configuration (rd_config r) (rd_srv r) (rd_section r) key value;
      Some (inr (Reading c (rd_servers r) srv (rd_section r) (rd_sections r) (rd_count r) (rd_lineno r)))
  end.

Fixpoint items_meaning (its : list item) (r : reading) : read_result reading :=
  match its with
  | [] => Read STATUS_OK r
  | i :: its => match item_meaning i r with
               | None => ReadUndefined
               | Some (inl r) => Read STATUS_FILE_TOO_BIG r
               | Some (inr r) => items_meaning its r
               end
  end.

Definition item_printable (i : item) : bool :=
  is_line (LINE_LENGTH - 1) (item_text i)
  && match i with
     | ItemSection name => no_char "]" name && (String.length name <? MISC_LENGTH)%nat
     | ItemSetting key value =>
         all_chars key_char key && printable value && bool_decide (is_Some (to_string value MISC_LENGTH))
         && negb (is_syskey (item_text i +:+ eol)) && negb (is_comment_line key)
         && match key with String c _ => negb (is_blank c || is_eol c || bool_decide (c = "["%char)) | EmptyString => false end
     end.

Lemma store_fits (n : nat) (s : string) : (String.length s < n)%nat -> store n s = s.
Proof.
  unfold store. intros H. assert (forall m, (String.length s <= m)%nat -> String.substring 0 m s = s) as Hs; [|apply Hs; lia].
  clear H. induction s as [|c s IH]; intros m Hm; [by destruct m|]. destruct m as [|m]; cbn in *; [lia|]. by rewrite IH by lia.
Qed.

Lemma read_item (getenv : string -> option string) (i : item) (lines : list string) (r : reading) :
  item_printable i = true ->
  read_loop getenv ((item_text i +:+ eol) :: lines) r =
  match item_meaning i r with
  | None => ReadUndefined
  | Some (inl r) => Read STATUS_FILE_TOO_BIG r
  | Some (inr r) => read_loop getenv lines r
  end.
Proof.
  intros Hi. apply andb_prop in Hi as [_ Hi]. cbn [read_loop]. destruct i as [name|key value]; cbn [item_meaning item_text].
  - apply andb_prop in Hi as [Hn Hl%Nat.ltb_lt].
    change (("[" +:+ name +:+ "]") +:+ eol) with (String "[" ((name +:+ "]") +:+ eol)). cbn [is_comment_line].
    change (is_empty_string (String "[" ((name +:+ "]") +:+ eol))) with false. cbn [orb].
    change ((code "[" =? 35) || (code "[" =? 59)) with false. change (is_blank "[") with false. cbv iota.
    unfold section_line. rewrite sapp_assoc. change ("]" +:+ eol) with (String "]" eol). rewrite split_at_first by done.
    rewrite store_fits by done. by destruct (read_section name (next_line r)).
  - rewrite !andb_true_iff in Hi. destruct Hi as (((((Hk & Hp) & Hw) & Hs%negb_true_iff) & Hcm%negb_true_iff) & Hf).
    apply bool_decide_eq_true in Hw as [w Hw]. cbn [item_text] in Hs. rewrite Hw in *. cbn [default from_option id] in *.
    destruct key as [|c key]; [done|]. apply negb_true_iff, orb_false_iff in Hf as [Hb Hbr].
    apply orb_false_iff in Hb as [Hb He]. apply bool_decide_eq_false in Hbr.
    rewrite !sapp_assoc in *. 
    assert (is_empty_string (String c key +:+ " = " +:+ w +:+ eol) = false) as ->.
    { unfold is_empty_string. change (String c key +:+ ?x) with (String c (key +:+ x)). rewrite skip_none; [done|]. by rewrite Hb, He. }
    assert (is_comment_line (String c key +:+ " = " +:+ w +:+ eol) = false) as ->.
    { cbn [is_comment_line] in Hcm. change (String c key +:+ ?x) with (String c (key +:+ x)). cbn [is_comment_line].
      destruct (_ || _); [done|]. by rewrite Hb. }
    cbn [orb].
    assert (section_line (String c key +:+ " = " +:+ w +:+ eol) = None) as ->.
    { change (String c key +:+ ?x) with (String c (key +:+ x)). unfold section_line.
      by destruct c as [[] [] [] [] [] [] [] []]. }
    unfold read_setting. rewrite Hs. unfold eol.
    rewrite (extract_setting (String c key) value w "" MISC_LENGTH) by done.
    destruct (apply_main_configuration _ _ _ _ _) as [[[c' srv] ok]|]; done.
Qed.

Lemma read_items (getenv : string -> option string) (its : list item) (r : reading) :
  forallb item_printable its = true ->
  read_loop getenv ((fun l => l +:+ eol) <$> (item_text <$> its)) r = items_meaning its r.
Proof.
  revert r; induction its as [|i its IH]; intros r H; [done|]. cbn [forallb] in H. apply andb_prop in H as [Hi H].
  rewrite !fmap_cons, read_item by done. cbn [items_meaning]. destruct (item_meaning i r) as [[r'|r']|]; [done| |done].
  by apply IH.
Qed.

(** What a file means as a whole. *)
Definition file_meaning (c : main_configuration) (its : list item) : read_result main_configuration :=
  match items_meaning its (Reading c (replicate NUMBER_OF_SERVERS inhabitant) None "" [] 0 0) with
  | ReadUndefined => ReadUndefined
  | Read status r => if status =? STATUS_OK then finish_reading r else Read status (rd_config r)
  end.

(** C19: [pgagroal.conf] is read for what it says.  A file that is printed from sections and
    settings, the values quoted by [to_string] where they need it, has the effect of the
    settings applied one after the other, each in its section; buffers, white space and
    quotes do not show.  This is for the lines that [item_printable] admits: up to 510 bytes
    on one line; names of sections without a closing bracket; keys without spaces and equal signs that
    are none of those for paths (which expand variables); and values without both kinds of
    quotes and, unless a space or a quote makes [to_string] quote them, without the signs
    of a comment, with which the code cuts a value off. *)
Theorem main_file_meaning (getenv : string -> option string) (c : main_configuration) (its : list item)
  (H : forallb item_printable its = true) :
  read_configuration getenv c (Some (unlines (item_text <$> its))) = file_meaning c its.
Proof.
  assert (forallb (is_line (LINE_LENGTH - 1)) (item_text <$> its) = true) as Hl.
  { rewrite forallb_forall in *. intros s Hl. apply list_elem_of_In, list_elem_of_fmap in Hl as (h & -> & Hh).
    apply list_elem_of_In, H in Hh. unfold item_printable in Hh. rewrite !andb_true_iff in Hh. apply Hh. }
  unfold read_configuration, file_meaning, read_lines. rewrite fgets_unlines by done. by rewrite read_items.
Qed.

Definition items0 : list item :=
  [ItemSection "pgagroal"; ItemSetting "host" "localhost"; ItemSetting "port" "2345";
   ItemSetting "server_reset_query" "SET x = 'y # z'"; ItemSetting "blocking_timeout" "1m";
   ItemSection "primary"; ItemSetting "host" "db1"; ItemSetting "port" "5432"].

Lemma main_file_meaning_witness :
  exists c, read_configuration (fun _ => None) init_configuration (Some (unlines (item_text <$> items0))) = Read STATUS_OK c
  /\ mc_server_reset_query c = "SET x = 'y # z'" /\ mc_blocking_timeout c = 60
  /\ sv_host <$> mc_servers c = ["db1"].
Proof. eexists. rewrite main_file_meaning; [vm_compute; split_and!; reflexivity|vm_compute; reflexivity]. Defined.

(** A file without a server reads the server that was never set. *)
Lemma no_server_undefined :
  read_configuration (fun _ => None) init_configuration
    (Some (unlines (item_text <$> [ItemSection "pgagroal"; ItemSetting "host" "localhost"]))) = ReadUndefined.
Proof. by vm_compute. Qed.

(** The sections of 65 servers pass the check of their number, and the last server is stored
    behind the array. *)
Lemma too_many_servers_undefined :
  read_configuration (fun _ => None) init_configuration
    (Some (unlines (item_text <$> map (fun i => ItemSection ("s" +:+ pretty (Z.of_nat i))) (seq 0 65)))) = ReadUndefined.
Proof. by vm_compute. Qed.
