(* ===== verification/ConfReload.v ===== *)
(** * Validation and reload of the configuration ([libpgagroal/configuration.c])

    [pgagroal_validate_configuration], the test for changes that need a restart, the
    transfer of a new configuration and [pgagroal_reload_configuration].  The file system,
    the resolver and [/proc] are the fields of [system]; [None] is the return value 1.
    Log lines and the restart of the logging are dropped. *)

From Stdlib Require Import Ascii.
From stdpp Require Import pretty.
From S2P Require Import Prelude Text Config Hba Limits ConfText Settings Pool ConfFile.

Local Open Scope Z_scope.

Definition MAX_NUMBER_OF_CONNECTIONS : Z := 10000.
Definition HEALTH_CHECK_MIN_INTERVAL : Z := 1.
Definition DEFAULT_AUTHENTICATION_TIMEOUT : Z := 5.

(** [struct stat] of a script: a regular file, owned by the user, readable or executable. *)
Record file_info := FileInfo { fi_regular : bool; fi_owned : bool; fi_mode : bool }.

(** What the code asks of the system: directories, files, whether two host names resolve to
    a common address, the backends that were compiled in with the default one, and the
    first character of [io_uring_disabled] ([None]: it cannot be opened, [Some None]: it
    cannot be read). *)
Record system := System {
  is_directory : string -> bool;
  stat_file : string -> option file_info;
  same_address : string -> string -> Z -> bool;
  supported_backends : list Z;
  default_backend : Z;
  io_uring_disabled : option (option ascii) }.

Section reload.
Context (sys : system).

(** [is_same_server], [is_same_tls] and [is_supported_backend]. *)
Definition is_same_server (s1 s2 : server_entry) : bool :=
  if negb (sv_port s1 =? sv_port s2) then false
  else if streq (sv_host s1) (sv_host s2) then true
  else same_address sys (sv_host s1) (sv_host s2) (sv_port s1).

Definition is_same_tls (src dst : server_entry) : bool :=
  Bool.eqb (sv_tls src) (sv_tls dst) && (sv_channel_binding src =? sv_channel_binding dst)
  && streq (sv_tls_cert_file src) (sv_tls_cert_file dst) && streq (sv_tls_key_file src) (sv_tls_key_file dst)
  && streq (sv_tls_ca_file src) (sv_tls_ca_file dst) && streq (sv_tls_crl_file src) (sv_tls_crl_file dst).

Definition is_supported_backend (backend : Z) : bool := existsb (Z.eqb backend) (supported_backends sys).

(** ** Validation *)

Definition guard_ok (b : bool) : option unit := if b then Some tt else None.

(** The checks of a failover script. *)
Definition script_ok (path : string) : bool :=
  match stat_file sys path with
  | None => false
  | Some fi => fi_regular fi && fi_owned fi && fi_mode fi
  end.

(** The sockets, the directory and the values with a default. *)
Definition validate_sockets (has_unix_socket has_main_sockets : bool) (c : main_configuration)
  : option main_configuration :=
  guard_ok (has_main_sockets || (negb (streq (cf_host (mc_common c)) "") && (0 <? cf_port (mc_common c))));;
  guard_ok (has_unix_socket || (negb (streq (mc_unix_socket_dir c) "") && is_directory sys (mc_unix_socket_dir c)));;
  let c := if mc_backlog c <=? 0 then set_mc_backlog (Z.max (Z.quot (mc_max_connections c) 4) 16) c else c in
  let c := if time_is_valid (cf_authentication_timeout (mc_common c)) then c
           else on_common (set_cf_authentication_timeout DEFAULT_AUTHENTICATION_TIMEOUT) c in
  Some (if mc_disconnect_client c <=? 0 then set_mc_disconnect_client 0 c else c).

(** The authentication query excludes users and limits. *)
Definition validate_authquery (c : main_configuration) : option main_configuration :=
  if negb (mc_authquery c) then Some c
  else if streq (u_username (mc_superuser c)) "" then None
  else
    guard_ok (bool_decide (length (mc_users c) = 0%nat));;
    guard_ok (bool_decide (length (mc_frontend_users c) = 0%nat));;
    guard_ok (bool_decide (length (mc_limits c) = 0%nat));;
    Some (set_mc_allow_unknown_users true c).

(** The number of connections, the length of passwords and the health check. *)
Definition validate_numbers (c : main_configuration) : option main_configuration :=
  guard_ok (0 <? mc_max_connections c);;
  guard_ok ((MIN_PASSWORD_LENGTH <=? mc_rotate_frontend_password_length c) && (mc_rotate_frontend_password_length c <=? 8192));;
  let c := if MAX_NUMBER_OF_CONNECTIONS <? mc_max_connections c then set_mc_max_connections MAX_NUMBER_OF_CONNECTIONS c else c in
  let c := if mc_health_check c && (mc_health_check_period c <? HEALTH_CHECK_MIN_INTERVAL) then set_mc_health_check false c else c in
  let c := if mc_health_check c && (mc_health_check_timeout c <? HEALTH_CHECK_MIN_INTERVAL) then set_mc_health_check false c else c in
  guard_ok (negb (mc_health_check c && streq (mc_health_check_user c) ""));;
  guard_ok (negb (bool_decide (length (mc_frontend_users c) = 0%nat) && bool_decide (length (mc_users c) = 0%nat)
                  && time_is_valid (mc_rotate_frontend_password_timeout c)));;
  Some c.

(** The failover scripts. *)
Definition validate_failover (c : main_configuration) : option unit :=
  (if mc_failover c
   then guard_ok (negb (streq (mc_failover_script c) "") && script_ok (mc_failover_script c)
                  && (1 <? length (mc_servers c))%nat)
   else Some tt);;
  if streq (mc_failover_notify_script c) "" then Some tt
  else guard_ok (negb (streq (mc_failover_script c) "") && negb (streq (mc_failover_script c) (mc_failover_notify_script c))
                 && script_ok (mc_failover_notify_script c)).

Definition server_ok (s : server_entry) : bool :=
  negb (sv_valid s)
  || (negb (streq (sv_host s) "") && negb (sv_port s =? 0)
      && negb (negb (streq (sv_tls_crl_file s) "") && streq (sv_tls_ca_file s) "")).

(** A valid server is the same as a later one. *)
Fixpoint duplicated_servers (ss : list server_entry) : bool :=
  match ss with
  | [] => false
  | s :: ss => (sv_valid s && existsb (is_same_server s) ss) || duplicated_servers ss
  end.

Definition primaries (ss : list server_entry) : nat :=
  length (filter (fun s => sv_valid s = true /\ sv_state s = SERVER_NOTINIT_PRIMARY) ss).

Definition validate_servers (c : main_configuration) : option unit :=
  guard_ok (0 <? length (mc_servers c))%nat;;
  guard_ok (forallb server_ok (mc_servers c));;
  guard_ok (negb (negb (streq (cf_tls_crl_file (mc_common c)) "") && streq (cf_tls_ca_file (mc_common c)) ""));;
  guard_ok (negb (duplicated_servers (mc_servers c)));;
  guard_ok (primaries (mc_servers c) <=? 1)%nat.

(** TLS with a certificate or a key. *)
Definition uses_tls (c : main_configuration) : bool :=
  cf_tls (mc_common c) && (negb (streq (cf_tls_cert_file (mc_common c)) "") || negb (streq (cf_tls_key_file (mc_common c)) "")).

(** The choice of a pipeline, and what it does not go with. *)
Definition choose_pipeline (c : main_configuration) : main_configuration :=
  if mc_pipeline c =? PIPELINE_AUTO then
    set_mc_pipeline (if mc_failover c || uses_tls c || (0 <? mc_disconnect_client c) then PIPELINE_SESSION
                     else PIPELINE_PERFORMANCE) c
  else c.

Definition limit_sized (l : limit_entry) : bool :=
  (0 <? l_min_size (le_limit l)) && (0 <? l_initial_size (le_limit l)) && (0 <? l_max_size (le_limit l)).

Definition validate_pipeline (c : main_configuration) : option unit :=
  if mc_pipeline c =? PIPELINE_SESSION then Some tt
  else if mc_pipeline c =? PIPELINE_TRANSACTION then
    guard_ok (mc_disconnect_client c <=? 0);;
    guard_ok (mc_authquery c || (negb (bool_decide (length (mc_users c) = 0%nat)) && negb (mc_allow_unknown_users c)));;
    guard_ok (negb (existsb (fun s => sv_valid s && sv_tls s) (mc_servers c)));;
    guard_ok (negb (bool_decide (length (mc_limits c) = 0%nat)));;
    guard_ok (forallb limit_sized (mc_limits c))
  else if mc_pipeline c =? PIPELINE_PERFORMANCE then
    guard_ok (negb (mc_failover c) && negb (uses_tls c) && (mc_disconnect_client c <=? 0))
  else Some tt.

(** The event backend. *)
Definition choose_backend (c : main_configuration) : option main_configuration :=
  let b := mc_ev_backend c in
  let b := if (b =? EVENT_BACKEND_INVALID) || (b =? EVENT_BACKEND_EMPTY) then EVENT_BACKEND_AUTO else b in
  let b := if (b =? EVENT_BACKEND_AUTO) || negb (is_supported_backend b) then default_backend sys else b in
  b ← (if negb (is_supported_backend EVENT_BACKEND_IO_URING) || negb (b =? EVENT_BACKEND_IO_URING) then Some b
       else match io_uring_disabled sys with
            | None => Some EVENT_BACKEND_EPOLL
            | Some None => None
            | Some (Some v) =>
                Some (if cf_tls (mc_common c) || (code v =? 49) || (code v =? 50) then EVENT_BACKEND_EPOLL else b)
            end);
  Some (set_mc_ev_backend b c).

(** [pgagroal_validate_configuration].  The name of the file with the process identifier is
    set in the running configuration and not here ([init_pidfile]). *)
Definition validate_configuration (has_unix_socket has_main_sockets : bool) (c : main_configuration)
  : option main_configuration :=
  c ← validate_sockets has_unix_socket has_main_sockets c;
  c ← validate_authquery c;
  c ← validate_numbers c;
  validate_failover c;;
  validate_servers c;;
  let c := choose_pipeline c in
  validate_pipeline c;;
  choose_backend c.

(** [pgagroal_init_pidfile_if_needed]. *)
Definition init_pidfile (c : main_configuration) : main_configuration :=
  if streq (mc_pidfile c) ""
  then set_mc_pidfile (store (Z.to_nat MAX_PATH)
         (mc_unix_socket_dir c +:+ "/pgagroal." +:+ pretty (cf_port (mc_common c)) +:+ ".pid")) c
  else c.

(** [pgagroal_validate_hba_configuration]. *)
Definition hba_ok (c : main_configuration) (h : hba) : bool :=
  (strcasecmp "host" (h_type h) || strcasecmp "hostssl" (h_type h))
  && existsb (fun m => strcasecmp m (h_method h)) ["trust"; "reject"; "password"; "scram-sha-256"; "cert"; "all"]
  && (negb (strcasecmp "cert" (h_method h))
      || (strcasecmp "hostssl" (h_type h) && cf_tls (mc_common c) && negb (streq (cf_tls_ca_file (mc_common c)) ""))).

Definition validate_hba_configuration (c : main_configuration) : bool :=
  negb (bool_decide (length (mc_hbas c) = 0%nat)) && forallb (hba_ok c) (mc_hbas c).

(** [pgagroal_validate_frontend_users_configuration]. *)
Definition validate_frontend_users_configuration (c : main_configuration) : bool :=
  forallb (fun f => existsb (fun u => streq (u_username f) (u_username u)) (mc_users c)) (mc_frontend_users c).

(** [pgagroal_validate_limit_configuration] on the entries of a configuration. *)
Definition validate_limits (c : main_configuration) : option main_configuration :=
  ls ← validate_limit_configuration (mc_users c) (le_limit <$> mc_limits c) (mc_max_connections c);
  Some (set_mc_limits (zip_with (fun l e => LimitEntry l (le_active_connections e) (le_backend_connections e)) ls (mc_limits c)) c).

(** ** Restart and transfer *)

(** [restart_int], [restart_bool] and [restart_string]: whether a restart is needed. *)
Definition restart_int (e n : Z) : bool := negb (e =? n).
Definition restart_bool (e n : bool) : bool := negb (Bool.eqb e n).
Definition restart_string (e n : string) (skip_non_existing : bool) : bool :=
  if skip_non_existing && streq n "" then false else negb (streq e n).

Definition restart_limit (c r : main_configuration) : bool :=
  negb (length (mc_limits c) =? length (mc_limits r))%nat
  || existsb (fun '(e, n) =>
       let e := le_limit e in let n := le_limit n in
       negb (streq (l_database e) (l_database n)) || negb (streq (l_username e) (l_username n))
       || negb (l_max_size e =? l_max_size n) || negb (l_initial_size e =? l_initial_size n)
       || negb (l_min_size e =? l_min_size n)) (zip (mc_limits c) (mc_limits r)).

Definition restart_server (src dst : server_entry) : bool := negb (is_same_server src dst) || negb (is_same_tls src dst).

Definition check_restart_required (c r : main_configuration) : bool :=
  let cc := mc_common c in
  let rc := mc_common r in
  restart_string (cf_host cc) (cf_host rc) false
  || restart_int (cf_port cc) (cf_port rc)
  || restart_int (cf_metrics cc) (cf_metrics rc)
  || restart_int (cf_metrics_cache_max_size cc) (cf_metrics_cache_max_size rc)
  || restart_int (mc_management c) (mc_management r)
  || restart_int (mc_console c) (mc_console r)
  || restart_int (mc_pipeline c) (mc_pipeline r)
  || restart_int (cf_log_type cc) (cf_log_type rc)
  || restart_int (mc_max_connections c) (mc_max_connections r)
  || restart_string (mc_pidfile c) (mc_pidfile r) true
  || restart_int (mc_ev_backend c) (mc_ev_backend r)
  || restart_int (cf_hugepage cc) (cf_hugepage rc)
  || restart_string (mc_unix_socket_dir c) (mc_unix_socket_dir r) false
  || restart_bool (cf_tls cc) (cf_tls rc)
  || (length (mc_servers r) <? length (mc_servers c))%nat
  || existsb (fun '(n, e) => restart_server n e) (zip (mc_servers r) (mc_servers c))
  || restart_limit c r.

(** [health_check_settings_changed]. *)
Definition health_check_settings_changed (c r : main_configuration) : bool :=
  negb (Bool.eqb (mc_health_check c) (mc_health_check r))
  || negb (mc_health_check_period c =? mc_health_check_period r)
  || negb (mc_health_check_timeout c =? mc_health_check_timeout r)
  || negb (streq (mc_health_check_user c) (mc_health_check_user r)).

(** [copy_server]; the identifier that was kept is overwritten with the new, empty one. *)
Definition copy_server (dst src : server_entry) : server_entry :=
  let same := is_same_server dst src in
  ServerEntry (sv_name src) (sv_host src) (sv_port src)
    (if same then sv_version dst else 0) (if same then sv_minor_version dst else 0) (sv_system_identifier src)
    (sv_tls src) (sv_valid src) (sv_tls_cert_file src) (sv_tls_key_file src) (sv_tls_ca_file src) (sv_tls_crl_file src)
    (sv_channel_binding src)
    (if same then sv_state dst else SERVER_NOTINIT) (if same then sv_health_state dst else SERVER_HEALTH_UNKNOWN) 0
    (if same then sv_failures dst else 0) (if same then sv_auth_type dst else HEALTH_CHECK_AUTH_UNKNOWN) (sv_lineno src).

(** [copy_limit] into zeroed memory. *)
Definition copy_limit (src : limit_entry) : limit_entry := LimitEntry (le_limit src) 0 0.

(** [reset_health_check_state] for one server. *)
Definition reset_health (s : server_entry) : server_entry :=
  set_sv_auth_type HEALTH_CHECK_AUTH_UNKNOWN (set_sv_health_state SERVER_HEALTH_UNKNOWN (set_sv_failures 0 s)).

(** The logging is only restarted, and its prefix only taken over, when one of these four
    has changed. *)
Definition log_changed (c r : configuration) : bool :=
  negb (strncmp_eq (cf_log_path c) (cf_log_path r) MISC_LENGTH)
  || negb (cf_log_rotation_size c =? cf_log_rotation_size r)
  || negb (cf_log_rotation_age c =? cf_log_rotation_age r)
  || negb (cf_log_mode c =? cf_log_mode r).

Definition transfer_common (c r : configuration) : configuration :=
  let log := if log_changed c r then r else c in
  Configuration (cf_host r) (cf_port r) (cf_authentication_timeout r) (cf_log_type r) (cf_log_level r) (cf_log_path log)
    (cf_log_connections r) (cf_log_disconnections r) (cf_log_mode log) (cf_log_rotation_size log) (cf_log_rotation_age log)
    (cf_log_line_prefix log) (cf_tls r) (cf_tls_cert_file r) (cf_tls_key_file r) (cf_tls_ca_file r) (cf_tls_crl_file r)
    (cf_hugepage r) (cf_metrics r) (cf_metrics_cache_max_age r) (cf_metrics_cache_max_size r) (cf_metrics_cert_file r)
    (cf_metrics_key_file r) (cf_metrics_ca_file r).

(** The servers: a new one is copied over zeroed memory. *)
Definition transfer_servers (reset : bool) (old new : list server_entry) : list server_entry :=
  let copied := imap (fun i s => copy_server (default inhabitant (old !! i)) s) new in
  if reset then reset_health <$> copied else copied.

Definition transfer (c r : main_configuration) : main_configuration :=
  MainConfiguration (transfer_common (mc_common c) (mc_common r))
    (mc_management r) (mc_console r) (mc_pipeline r) (mc_failover r) (mc_failover_script r) (mc_failover_notify_script r)
    (mc_update_process_title r) (mc_authquery r) (mc_max_connections r) (mc_allow_unknown_users r) (mc_blocking_timeout r)
    (mc_connection_retry_delay r) (mc_idle_timeout r) (mc_rotate_frontend_password_timeout r)
    (mc_rotate_frontend_password_length r) (mc_max_connection_age r) (mc_flush_timeout r) (mc_validation r)
    (mc_background_interval r) (mc_tls_cert_monitor_interval r) (mc_max_retries r) (mc_health_check r)
    (mc_health_check_period r) (mc_health_check_timeout r) (mc_health_check_user r) (mc_startup_validation r)
    (mc_disconnect_client r) (mc_disconnect_client_force r) (mc_pidfile r) (mc_ev_backend r) (mc_keep_alive r) (mc_nodelay r)
    (mc_backlog r) (mc_tracker r) (mc_track_prepared_statements r) (mc_server_reset_query r) (mc_server_reset_query_always r)
    (mc_server_reset_query_behavior r) (mc_unix_socket_dir r)
    (transfer_servers (health_check_settings_changed c r) (mc_servers c) (mc_servers r))
    (mc_hbas r) (copy_limit <$> mc_limits r) (mc_users r) (mc_frontend_users r) (mc_admins r) (mc_superuser r).

(** The outcome of [transfer_configuration] and of a reload: the running configuration
    afterwards, or the end of the process (TLS that is not valid, a bad alias), or a file
    whose reading is undefined. *)
Inductive reloaded :=
| ReloadFailed (c : main_configuration)
| ReloadRestart (c : main_configuration)
| ReloadDone (c : main_configuration) (health_check_changed : bool)
| ReloadExit
| ReloadUndefined.

(** [tls_valid] is [pgagroal_tls_valid] for the new settings. *)
Definition transfer_configuration (tls_valid : main_configuration -> bool) (c r : main_configuration) : reloaded :=
  if check_restart_required c r then ReloadRestart c
  else
    let c' := transfer c r in
    if cf_tls (mc_common c') && ((mc_pipeline c' =? PIPELINE_SESSION) || (mc_pipeline c' =? PIPELINE_TRANSACTION))
       && negb (tls_valid c')
    then ReloadExit
    else ReloadDone c' (health_check_settings_changed c r).

(** ** Reload *)

(** The files of a reload; [None] when no path is set. *)
Record files := Files {
  f_main : option string;
  f_hba : option string;
  f_limit : option (option string);
  f_users : option (option string);
  f_frontend_users : option (option string);
  f_admins : option (option string);
  f_superuser : option (option string) }.

Context (getenv : string -> option string) (decrypt : option (string -> option string)).

(** [pgagroal_reload_configuration] once the files are read.  The validation of the new
    configuration sets the name of the file with the process identifier in the running one. *)
Definition apply_reload (tls_valid : main_configuration -> bool) (c r : main_configuration) : reloaded :=
  match validate_configuration false false r with
  | None => ReloadFailed c
  | Some r =>
      let c := init_pidfile c in
      if negb (validate_hba_configuration r) then ReloadFailed c
      else
        match validate_limits r with
        | None => ReloadFailed c
        | Some r =>
            if negb (validate_frontend_users_configuration r) then ReloadFailed c
            else transfer_configuration tls_valid c r
        end
  end.

(** A reader of users, when its path is set. *)
Definition read_when_set (reader : main_configuration -> option string -> read_result main_configuration)
  (file : option (option string)) (c : main_configuration) : read_result main_configuration :=
  match file with
  | None => Read STATUS_OK c
  | Some file => reader c file
  end.

Definition then_read (c : main_configuration) (r : read_result main_configuration)
  (f : main_configuration -> reloaded) : reloaded :=
  match r with
  | ReadUndefined => ReloadUndefined
  | Read status r => if status =? STATUS_OK then f r else ReloadFailed c
  end.

(** [pgagroal_reload_configuration] of the running configuration [c]. *)
Definition reload_configuration (tls_valid : main_configuration -> bool) (fs : files) (c : main_configuration) : reloaded :=
  then_read c (read_configuration getenv init_configuration (f_main fs)) (fun r =>
  let '(status, r) := read_hba_configuration r (f_hba fs) in
  if negb (status =? STATUS_OK) then ReloadFailed c
  else
    match (match f_limit fs with None => Some (STATUS_OK, r) | Some file => read_limit_configuration r file end) with
    | None => ReloadExit
    | Some (status, r) =>
        if negb (status =? STATUS_OK) then ReloadFailed c
        else
          then_read c (read_when_set (read_users_configuration decrypt) (f_users fs) r) (fun r =>
          then_read c (read_when_set (read_frontend_users_configuration decrypt) (f_frontend_users fs) r) (fun r =>
          then_read c (read_when_set (read_admins_configuration decrypt) (f_admins fs) r) (fun r =>
          let '(status, r) :=
            match f_superuser fs with None => (STATUS_OK, r) | Some file => read_superuser_configuration decrypt r file end in
          if negb (status =? STATUS_OK) then ReloadFailed c
          else apply_reload tls_valid c r)))
    end).
End reload.
