(* ===== verification/ConfStart.v ===== *)
(** * The start of the process ([main.c])

    The part of [main] that reads the files and checks them, with the passwords of the
    frontend users that are made up at the start and rotated later.  [None] is the end of
    the process with an error.  The shared memory is grown afterwards and the first process
    forked; that is not part of this file. *)

From Stdlib Require Import Ascii.
From S2P Require Import Prelude Utf8 Text Config Hba Limits ConfText Settings Pool ConfFile ConfReload.

Local Open Scope Z_scope.

(** ** Passwords that are made up ([libpgagroal/security.c]) *)

(** [CHARS]. *)
Definition CHARS : list ascii :=
  map (fun c => ascii_of_nat c)
    (seq 65 26 ++ seq 97 26 ++ seq 48 10
     ++ [33; 64; 36; 37; 94; 38; 42; 40; 41; 45; 95; 61; 43; 91; 123; 93; 125; 92; 124; 58; 39; 34; 44; 60; 46; 62; 47; 63])%nat.

(** [pgagroal_generate_password] from random bytes; [None] when there are none. *)
Definition generate_password (random : option (list Z)) : option string :=
  bytes ← random;
  Some (String.string_of_list_ascii (map (fun b => nth (Z.to_nat b mod length CHARS)%nat CHARS zero) bytes)).

Section start.
(** The random bytes for the password of the user at an index. *)
Context (random : nat -> option (list Z)).

(** [frontend_user_password_startup]: the number of users is only set when every password
    could be made. *)
Definition frontend_user_password_startup (c : main_configuration) : main_configuration :=
  if bool_decide (length (mc_frontend_users c) = 0%nat) && time_is_valid (mc_rotate_frontend_password_timeout c)
  then match mapM (M:=option) (fun '(i, u) => p ← generate_password (random i); Some (User (u_username u) p))
                  (imap pair (mc_users c)) with
       | Some fs => set_mc_frontend_users fs c
       | None => c
       end
  else c.

(** [rotate_frontend_password_cb]: stops at the first password that cannot be made. *)
Fixpoint rotate_passwords (i : nat) (us : list user) : list user :=
  match us with
  | [] => []
  | u :: rest =>
      match generate_password (random i) with
      | Some p => User (u_username u) p :: rotate_passwords (S i) rest
      | None => us
      end
  end.

Definition rotate_frontend_password_cb (c : main_configuration) : main_configuration :=
  set_mc_frontend_users (rotate_passwords 0 (mc_frontend_users c)) c.

(** ** The files *)

(** A file of the command line, or the default one, which may be missing. *)
Record file_arg := FileArg { fa_mandatory : bool; fa_content : option string }.

Record arguments := Arguments {
  ar_main : option string;
  ar_hba : option string;
  ar_limit : file_arg;
  ar_users : file_arg;
  ar_frontend_users : file_arg;
  ar_admins : file_arg;
  ar_superuser : file_arg }.

(** The statuses that end the process. *)
Definition fatal (fa : file_arg) (status : Z) : bool :=
  (fa_mandatory fa && (status =? STATUS_FILE_NOT_FOUND))
  || (status =? STATUS_FILE_TOO_BIG) || (status =? STATUS_KO) || (status =? STATUS_CANNOT_DECRYPT).

(** One of the readers of users; reading that is undefined has no result either. *)
Definition start_users (reader : main_configuration -> option string -> read_result main_configuration) (fa : file_arg) (c : main_configuration)
  : option main_configuration :=
  match reader c (fa_content fa) with
  | Read status c => if fatal fa status then None else Some c
  | ReadUndefined => None
  end.

(** The HBA file: only two statuses are looked at. *)
Definition start_hba (file : option string) (c : main_configuration) : option main_configuration :=
  let '(status, c) := read_hba_configuration c file in
  if (status =? STATUS_FILE_NOT_FOUND) || (status =? STATUS_FILE_TOO_BIG) then None else Some c.

Definition start_limit (fa : file_arg) (c : main_configuration) : option main_configuration :=
  '(status, c) ← read_limit_configuration c (fa_content fa);
  if (fa_mandatory fa && (status =? STATUS_FILE_NOT_FOUND)) || (status =? STATUS_FILE_TOO_BIG) then None else Some c.

Definition start_superuser (decrypt : option (string -> option string)) (fa : file_arg) (c : main_configuration)
  : option main_configuration :=
  let '(status, c) := read_superuser_configuration decrypt c (fa_content fa) in
  if fatal fa status then None else Some c.

(** The files, one after the other. *)
Definition start_files (getenv : string -> option string) (decrypt : option (string -> option string)) (args : arguments)
  : option main_configuration :=
  c ← match read_configuration getenv init_configuration (ar_main args) with
      | Read status c => if status =? STATUS_OK then Some c else None
      | ReadUndefined => None
      end;
  c ← start_hba (ar_hba args) c;
  c ← start_limit (ar_limit args) c;
  c ← start_users (read_users_configuration decrypt) (ar_users args) c;
  c ← start_users (read_frontend_users_configuration decrypt) (ar_frontend_users args) c;
  c ← start_users (read_admins_configuration decrypt) (ar_admins args) c;
  start_superuser decrypt (ar_superuser args) c.

(** The checks of [main], in their order; here the configuration that is checked is the
    running one, so the name of the file with the process identifier is set in it. *)
Definition start_checks (sys : system) (has_unix_socket has_main_sockets : bool) (c : main_configuration)
  : option main_configuration :=
  c ← validate_configuration sys has_unix_socket has_main_sockets c;
  let c := frontend_user_password_startup (init_pidfile c) in
  guard_ok (validate_hba_configuration c);;
  c ← validate_limits c;
  guard_ok (validate_frontend_users_configuration c);;
  Some c.

(** The configuration with which the processes start. *)
Definition start_configuration (sys : system) (getenv : string -> option string)
  (decrypt : option (string -> option string)) (has_unix_socket has_main_sockets : bool) (args : arguments)
  : option main_configuration :=
  c ← start_files getenv decrypt args;
  start_checks sys has_unix_socket has_main_sockets c.
End start.
