(* ===== verification/ConfSet.v ===== *)
(** * Settings at run time ([libpgagroal/configuration.c])

    The requests [conf set] and [conf get] of the management protocol: the key of a request,
    the value of a key as text, and [pgagroal_apply_configuration], which changes one
    setting of the running configuration.  The requests are served by a child of the main
    process, which works on the shared configuration. *)

From Stdlib Require Import Ascii.
From S2P Require Import Prelude Text Config Hba Limits ConfText Settings Pool ConfFile ConfReload.

Local Open Scope Z_scope.

(** ** Keys *)

(** [section_type] of [struct config_key_info]. *)
Inductive section_type := MainSection | ServerSection | HbaSection | LimitSection.

(** [struct config_key_info]; [is_main_section] is not read by any caller. *)
Record config_key_info := KeyInfo {
  ki_section : string;
  ki_context : string;
  ki_key : string;
  ki_type : section_type }.

Definition same_name (a b : string) : bool := strncmp_eq a b MISC_LENGTH.

(** The entry that a key names exists. *)
Definition key_exists (c : main_configuration) (t : section_type) (context : string) : bool :=
  match t with
  | MainSection => true
  | ServerSection => existsb (fun s => sv_valid s && same_name (sv_name s) context) (mc_servers c)
  | HbaSection => existsb (fun h => same_name (h_username h) context) (mc_hbas c)
  | LimitSection => existsb (fun l => same_name (l_database (le_limit l)) context) (mc_limits c)
  end.

(** The parts of a key between its dots: section, context and key. *)
Definition split_key (parts : list string) : option config_key_info :=
  match parts with
  | [k] => Some (KeyInfo "" "" k MainSection)
  | [s; k] => if same_name s "pgagroal" then Some (KeyInfo s "" k MainSection) else None
  | [s; c; k] =>
      if same_name s "server" then Some (KeyInfo s c k ServerSection)
      else if same_name s "hba" then Some (KeyInfo s c k HbaSection)
      else if same_name s "limit" then Some (KeyInfo s c k LimitSection)
      else None
  | _ => None
  end.

(** [is_valid_config_key]: the parts of a key that is valid, [Some None] otherwise.  A dot
    at the start, at the end or after another one is a part that is empty.  The parts are
    copied into fields of [MISC_LENGTH] bytes without a test of their length: [None]. *)
Definition is_valid_config_key (c : main_configuration) (config_key : string) : option (option config_key_info) :=
  let parts := pieces "." config_key in
  if existsb (fun p => streq p "") parts then Some None
  else if (3 <? length parts)%nat then Some None
  else if existsb (fun p => (MISC_LENGTH <=? String.length p)%nat) parts then None
  else
    Some (ki ← split_key parts;
          if key_exists c (ki_type ki) (ki_context ki) then Some ki else None).

(** ** Values as text *)

(** The chain of comparisons of [pgagroal_write_config_value] for global settings. *)
Definition global_values : list (string * (main_configuration -> option string)) :=
  let str f := fun c : main_configuration => to_string (f c) MISC_LENGTH in
  let int f := fun c : main_configuration => to_int (f c) in
  let sec f := fun c : main_configuration => to_int (i32 (f c)) in
  let flag f := fun c : main_configuration => to_bool (f c) in
  let com {A} (f : configuration -> A) := fun c => f (mc_common c) in
  [("host", str (com cf_host)); ("port", int (com cf_port));
   ("log_type", fun c => to_log_type "" (cf_log_type (mc_common c)));
   ("log_mode", fun c => to_log_mode "" (cf_log_mode (mc_common c)));
   ("log_line_prefix", str (com cf_log_line_prefix));
   ("log_level", fun c => to_log_level "" (cf_log_level (mc_common c)));
   ("log_rotation_size", sec (com cf_log_rotation_size)); ("log_rotation_age", sec (com cf_log_rotation_age));
   ("log_connections", flag (com cf_log_connections)); ("log_disconnections", flag (com cf_log_disconnections));
   ("log_path", str (com cf_log_path)); ("metrics", int (com cf_metrics));
   ("metrics_cache_max_age", sec (com cf_metrics_cache_max_age));
   ("metrics_cache_max_size", sec (com cf_metrics_cache_max_size));
   ("management", int mc_management); ("console", int mc_console);
   ("pipeline", fun c => to_pipeline "" (mc_pipeline c));
   ("failover_script", str mc_failover_script); ("health_check", flag mc_health_check);
   ("health_check_period", sec mc_health_check_period); ("health_check_timeout", sec mc_health_check_timeout);
   ("health_check_user", str mc_health_check_user); ("failover_notify_script", str mc_failover_notify_script);
   ("tls", flag (com cf_tls)); ("auth_query", flag mc_authquery); ("tls_ca_file", str (com cf_tls_ca_file));
   ("tls_crl_file", str (com cf_tls_crl_file)); ("tls_cert_file", str (com cf_tls_cert_file));
   ("tls_key_file", str (com cf_tls_key_file)); ("metrics_ca_file", str (com cf_metrics_ca_file));
   ("metrics_cert_file", str (com cf_metrics_cert_file)); ("metrics_key_file", str (com cf_metrics_key_file));
   ("blocking_timeout", sec mc_blocking_timeout); ("connection_retry_delay", int mc_connection_retry_delay);
   ("idle_timeout", sec mc_idle_timeout); ("rotate_frontend_password_timeout", sec mc_rotate_frontend_password_timeout);
   ("rotate_frontend_password_length", int mc_rotate_frontend_password_length);
   ("max_connection_age", sec mc_max_connection_age); ("flush_timeout", sec mc_flush_timeout);
   ("validation", fun c => to_validation (mc_validation c));
   ("startup_validation", fun c => to_startup_validation (mc_startup_validation c));
   ("update_process_title", fun c => to_update_process_title "" (mc_update_process_title c));
   ("background_interval", sec mc_background_interval); ("tls_cert_monitor_interval", sec mc_tls_cert_monitor_interval);
   ("max_retries", int mc_max_retries); ("authentication_timeout", sec (com cf_authentication_timeout));
   ("disconnect_client", int mc_disconnect_client); ("pidfile", str mc_pidfile);
   ("allow_unknown_users", flag mc_allow_unknown_users); ("max_connections", int mc_max_connections);
   ("unix_socket_dir", str mc_unix_socket_dir); ("keep_alive", flag mc_keep_alive);
   ("nodelay", int (fun c => if mc_nodelay c then 1 else 0)); ("backlog", int mc_backlog);
   ("hugepage", fun c => to_hugepage "" (cf_hugepage (mc_common c)));
   ("track_prepared_statements", flag mc_track_prepared_statements);
   ("server_reset_query", str mc_server_reset_query); ("server_reset_query_always", flag mc_server_reset_query_always);
   ("server_reset_query_behavior_on_failure", fun c => to_server_reset_query_behavior (mc_server_reset_query_behavior c))].

Fixpoint value_of {A} (values : list (string * (A -> option string))) (key : string) (a : A) : option string :=
  match values with
  | [] => None
  | (k, f) :: values => if same_name key k then f a else value_of values key a
  end.

(** [pgagroal_write_server_config_value]. *)
Definition server_values : list (string * (server_entry -> option string)) :=
  let str f := fun s : server_entry => to_string (f s) MISC_LENGTH in
  [("host", str sv_host); ("port", fun s => to_int (sv_port s));
   ("primary", fun s => to_bool (match sv_state s with SERVER_NOTINIT_PRIMARY | SERVER_PRIMARY => true | _ => false end));
   ("tls", fun s => to_bool (sv_tls s)); ("channel_binding", fun s => to_channel_binding "" (sv_channel_binding s));
   ("tls_cert_file", str sv_tls_cert_file); ("tls_key_file", str sv_tls_key_file); ("tls_ca_file", str sv_tls_ca_file);
   ("tls_crl_file", str sv_tls_crl_file)].

Definition write_server_config_value (c : main_configuration) (server_name key : string) : option string :=
  s ← List.find (fun s => same_name (sv_name s) server_name) (mc_servers c); value_of server_values key s.

(** [pgagroal_write_hba_config_value]. *)
Definition hba_values : list (string * (hba -> option string)) :=
  let str f := fun h : hba => to_string (f h) MISC_LENGTH in
  [("type", str h_type); ("database", str h_database); ("username", str h_username); ("address", str h_address);
   ("method", str h_method)].

Definition write_hba_config_value (c : main_configuration) (username key : string) : option string :=
  h ← List.find (fun h => same_name (h_username h) username) (mc_hbas c); value_of hba_values key h.

(** [pgagroal_write_limit_config_value]. *)
Definition limit_values : list (string * (limit -> option string)) :=
  [("username", fun l => to_string (l_username l) MISC_LENGTH); ("database", fun l => to_string (l_database l) MISC_LENGTH);
   ("max_size", fun l => to_int (l_max_size l)); ("min_size", fun l => to_int (l_min_size l));
   ("initial_size", fun l => to_int (l_initial_size l))].

Definition write_limit_config_value (c : main_configuration) (database key : string) : option string :=
  l ← List.find (fun l => same_name (l_database (le_limit l)) database) (mc_limits c); value_of limit_values key (le_limit l).

(** [pgagroal_write_config_value] for a key that is valid. *)
Definition write_config_value (c : main_configuration) (ki : config_key_info) : option string :=
  match ki_type ki with
  | ServerSection => write_server_config_value c (ki_context ki) (ki_key ki)
  | HbaSection => write_hba_config_value c (ki_context ki) (ki_key ki)
  | LimitSection => write_limit_config_value c (ki_context ki) (ki_key ki)
  | MainSection => value_of global_values (ki_key ki) c
  end.

(** ** Changes *)

(** [pgagroal_apply_hba_configuration]: a key that is not known, and a value that is too long
    for its field, change nothing. *)
Definition apply_hba_configuration (key value : string) (h : hba) : option hba :=
  let fits n := (String.length value <? n)%nat in
  if streq key "" || streq value "" then None
  else Some
    (if strncmp_eq key "type" MAX_TYPE_LENGTH && fits MAX_TYPE_LENGTH
     then Hba value (h_database h) (h_username h) (h_address h) (h_method h)
     else if strncmp_eq key "database" MAX_DATABASE_LENGTH && fits MAX_DATABASE_LENGTH
     then Hba (h_type h) value (h_username h) (h_address h) (h_method h)
     else if strncmp_eq key "username" MAX_USERNAME_LENGTH && fits MAX_USERNAME_LENGTH
     then Hba (h_type h) (h_database h) value (h_address h) (h_method h)
     else if strncmp_eq key "address" MAX_ADDRESS_LENGTH && fits MAX_ADDRESS_LENGTH
     then Hba (h_type h) (h_database h) (h_username h) value (h_method h)
     else if strncmp_eq key "method" MAX_ADDRESS_LENGTH && fits MAX_ADDRESS_LENGTH
     then Hba (h_type h) (h_database h) (h_username h) (h_address h) value
     else h).

(** [pgagroal_apply_limit_configuration_string]. *)
Definition apply_limit_configuration_string (key value : string) (l : limit) : option limit :=
  if strncmp_eq key "database" MAX_DATABASE_LENGTH && (String.length value <? MAX_DATABASE_LENGTH)%nat
  then Some (Limit value (l_username l) (l_aliases l) (l_max_size l) (l_initial_size l) (l_min_size l) (l_lineno l))
  else if strncmp_eq key "username" MAX_USERNAME_LENGTH && (String.length value <? MAX_USERNAME_LENGTH)%nat
  then Some (Limit (l_database l) value (l_aliases l) (l_max_size l) (l_initial_size l) (l_min_size l) (l_lineno l))
  else if same_name key "max_size"
  then n ← as_int value; Some (Limit (l_database l) (l_username l) (l_aliases l) n (l_initial_size l) (l_min_size l) (l_lineno l))
  else if same_name key "min_size" then n ← as_int value; Some (set_l_min_size n l)
  else if same_name key "initial_size" then n ← as_int value; Some (set_l_initial_size n l)
  else if same_name key "line_number"
  then n ← as_int value; Some (Limit (l_database l) (l_username l) (l_aliases l) (l_max_size l) (l_initial_size l) (l_min_size l) n)
  else None.

(** The change of the first entry that satisfies [p]; [Some] of the list when the change
    was accepted or there is no such entry. *)
Fixpoint change_first {A} (p : A -> bool) (f : A -> option A) (l : list A) : option (list A) :=
  match l with
  | [] => Some []
  | a :: l => if p a then a ← f a; Some (a :: l) else l ← change_first p f l; Some (a :: l)
  end.

(** A global key whose code goes through the pointer to a server, which is NULL here. *)
Definition needs_server (key value : string) : bool :=
  same_name "primary" key
  || (same_name "channel_binding" key && match as_channel_binding value with Some _ => true | None => false end).

(** The change of the copy of the configuration: [Some None] when it is refused, [None] when
    it is undefined. *)
Definition change_setting (ki : config_key_info) (value : string) (c : main_configuration)
  : option (option main_configuration) :=
  match ki_type ki with
  | MainSection =>
      if needs_server (ki_key ki) value then None
      else
        '(c', _, ok) ← apply_main_configuration c None "pgagroal" (ki_key ki) value;
        Some (if ok : bool then Some c' else None)
  | ServerSection =>
      match List.find (fun '(_, s) => same_name (sv_name s) (ki_context ki)) (imap pair (mc_servers c)) with
      | None => Some (Some c)
      | Some (i, s) =>
          '(c', s', ok) ← apply_main_configuration c (Some s) (ki_context ki) (ki_key ki) value;
          Some (if ok : bool
                then Some (set_mc_servers (match s' with Some s' => <[i := s']> (mc_servers c') | None => mc_servers c' end) c')
                else None)
      end
  | HbaSection =>
      Some (hs ← change_first (fun h => same_name (h_username h) (ki_context ki))
                   (apply_hba_configuration (ki_key ki) value) (mc_hbas c);
            Some (set_mc_hbas hs c))
  | LimitSection =>
      Some (ls ← change_first (fun l => same_name (l_database (le_limit l)) (ki_context ki))
                   (fun l => l' ← apply_limit_configuration_string (ki_key ki) value (le_limit l);
                             Some (LimitEntry l' (le_active_connections l) (le_backend_connections l))) (mc_limits c);
            Some (set_mc_limits ls c))
  end.

(** What [transfer_configuration] has stored when it finds that TLS is not valid and ends
    the process: the network, the pipeline, failover, the log and TLS. *)
Definition transfer_until_tls (c r : main_configuration) : main_configuration :=
  set_mc_common (set_cf_authentication_timeout (cf_authentication_timeout (mc_common c))
                   (set_cf_hugepage (cf_hugepage (mc_common c)) (transfer_common (mc_common c) (mc_common r))))
    (set_mc_authquery (mc_authquery r) (set_mc_failover_notify_script (mc_failover_notify_script r)
      (set_mc_failover_script (mc_failover_script r) (set_mc_failover (mc_failover r)
        (set_mc_pipeline (mc_pipeline r) (set_mc_update_process_title (mc_update_process_title r)
          (set_mc_console (mc_console r) (set_mc_management (mc_management r) c)))))))).

(** The outcome of [pgagroal_apply_configuration], with the shared configuration after it. *)
Inductive conf_set_result :=
| SetError (c : main_configuration)
| SetRestart (c : main_configuration)
| SetDone (c : main_configuration)
| SetExit (c : main_configuration)
| SetUndefined.

Section conf_set.
Context (sys : system) (tls_valid : main_configuration -> bool).

(** [pgagroal_apply_configuration]. *)
Definition apply_configuration (ki : config_key_info) (value : string) (c : main_configuration) : conf_set_result :=
  match change_setting ki value c with
  | None => SetUndefined
  | Some None => SetError c
  | Some (Some r) =>
      match validate_configuration sys false false r with
      | None => SetError c
      | Some r =>
          let c := init_pidfile c in
          if negb (validate_hba_configuration r) then SetError c
          else
            match validate_limits r with
            | None => SetError c
            | Some r =>
                match transfer_configuration sys tls_valid c r with
                | ReloadRestart c => SetRestart c
                | ReloadDone c _ => SetDone c
                | ReloadExit => SetExit (transfer_until_tls c r)
                | _ => SetUndefined
                end
            end
      end
  end.

(** The answer of [pgagroal_conf_set]. *)
Inductive conf_set_response :=
| ResponseError
| ResponseRestart (key requested current : string)
| ResponseSuccess (key old new : string).

Definition shown (v : option string) : string := default "<unknown>" v.

(** [pgagroal_conf_set] of a key and a value: the outcome and the answer; [None] is no
    answer (the process has ended or is in an undefined state). *)
Definition conf_set (config_key config_value : string) (c : main_configuration)
  : conf_set_result * option conf_set_response :=
  match is_valid_config_key c config_key with
  | None => (SetUndefined, None)
  | Some None => (SetError c, Some ResponseError)
  | Some (Some ki) =>
      let old := shown (write_config_value c ki) in
      match apply_configuration ki config_value c with
      | SetError c => (SetError c, Some ResponseError)
      | SetRestart c => (SetRestart c, Some (ResponseRestart config_key config_value old))
      | SetDone c => (SetDone c, Some (ResponseSuccess config_key old (shown (write_config_value c ki))))
      | SetExit c => (SetExit c, None)
      | SetUndefined => (SetUndefined, None)
      end
  end.
End conf_set.
