(* ===== verification/ConfReloadFacts.v ===== *)
(** * From the start through every reload

    The settings that the start of a process has checked stay in order through every
    reload: the checks, the interface of the pool, and what a running process cannot change.
    And what a reload loses: the counters of the limits, the frontend users with a password
    that was made up, the name of the file with the process identifier, the identifiers of
    the servers. *)

From Stdlib Require Import Ascii.
From S2P Require Import Prelude Text Config Hba Limits ConfText Settings Pool ConfFile ConfReload ConfStart ConfSet.

Local Open Scope Z_scope.

(** ** Validation *)

Lemma guard_Some (b : bool) (u : unit) : guard_ok b = Some u -> b = true.
Proof. by destruct b. Qed.

(** Takes a chain of checks apart. *)
Ltac checks H :=
  repeat match type of H with
  | (_ ≫= _) = Some _ => let x := fresh "x" in let E := fresh "E" in apply bind_Some in H as (x & E & H);
                         try (apply guard_Some in E)
  end.

(** The pipelines with what they do not go with. *)
Definition pipeline_valid (c : main_configuration) : Prop :=
  mc_pipeline c <> PIPELINE_AUTO
  /\ (mc_pipeline c = PIPELINE_TRANSACTION ->
      mc_disconnect_client c <= 0
      /\ (mc_authquery c = true \/ mc_users c <> [] /\ mc_allow_unknown_users c = false)
      /\ (forall s, s ∈ mc_servers c -> sv_valid s = true -> sv_tls s = false)
      /\ mc_limits c <> [])
  /\ (mc_pipeline c = PIPELINE_PERFORMANCE ->
      mc_failover c = false /\ uses_tls c = false /\ mc_disconnect_client c <= 0).

(** What the validation establishes. *)
Record valid_configuration (sys : system) (c : main_configuration) : Prop := {
  vc_address : cf_host (mc_common c) <> "" /\ 0 < cf_port (mc_common c);
  vc_connections : 0 < mc_max_connections c <= MAX_NUMBER_OF_CONNECTIONS;
  vc_backlog : 0 < mc_backlog c;
  vc_timeout : 0 < cf_authentication_timeout (mc_common c);
  vc_authquery : mc_authquery c = true ->
    u_username (mc_superuser c) <> "" /\ mc_users c = [] /\ mc_frontend_users c = [] /\ mc_limits c = [];
  vc_failover : mc_failover c = true -> script_ok sys (mc_failover_script c) = true /\ (1 < length (mc_servers c))%nat;
  vc_health : mc_health_check c = true ->
    mc_health_check_user c <> "" /\ 0 < mc_health_check_period c /\ 0 < mc_health_check_timeout c;
  vc_servers : mc_servers c <> [] /\ forall s, s ∈ mc_servers c -> sv_valid s = true -> sv_host s <> "" /\ sv_port s <> 0;
  vc_distinct : duplicated_servers sys (mc_servers c) = false;
  vc_pipeline : pipeline_valid c }.

Section facts.
Context (sys : system).

(** What a validation does not touch, and what only its first step does. *)
Definition kept (c : main_configuration) :=
  (cf_host (mc_common c), cf_port (mc_common c), cf_tls (mc_common c), mc_failover c, mc_failover_script c, mc_servers c,
   mc_authquery c, mc_superuser c, mc_users c, mc_frontend_users c, mc_limits c, mc_hbas c,
   (mc_health_check_user c, mc_health_check_period c, mc_health_check_timeout c)).

Definition kept_first (c : main_configuration) := (mc_backlog c, cf_authentication_timeout (mc_common c)).

Lemma sockets_valid (a b : bool) (c c' : main_configuration) :
  validate_sockets sys a b c = Some c' ->
  kept c' = kept c /\ 0 < mc_backlog c' /\ 0 < cf_authentication_timeout (mc_common c')
  /\ (b = false -> cf_host (mc_common c') <> "" /\ 0 < cf_port (mc_common c')).
Proof.
  unfold validate_sockets. intros H. checks H. injection H as <-.
  assert (b = false -> cf_host (mc_common c) <> "" /\ 0 < cf_port (mc_common c)) as Ha
    by (intros ->; cbn in E; by bool_prop).
  clear E E0. revert Ha. unfold time_is_valid, DEFAULT_AUTHENTICATION_TIMEOUT, kept.
  destruct (Z.leb_spec (mc_backlog c) 0); cbn; destruct (Z.ltb_spec 0 (cf_authentication_timeout (mc_common c))); cbn;
    destruct (Z.leb_spec (mc_disconnect_client c) 0); cbn; intros Ha; split_and!; try done; lia.
Qed.

Lemma authquery_valid (c c' : main_configuration) :
  validate_authquery c = Some c' ->
  kept c' = kept c /\ kept_first c' = kept_first c
  /\ (mc_authquery c = true ->
      u_username (mc_superuser c) <> "" /\ mc_users c = [] /\ mc_frontend_users c = [] /\ mc_limits c = []).
Proof.
  unfold validate_authquery. destruct (mc_authquery c) eqn:Ea; cbn [negb]; [|by intros [= <-]].
  destruct (streq _ _) eqn:Eu; [done|]. intros H. checks H. injection H as <-. bool_prop.
  split; [done|]. split; [done|]. intros _. by repeat split; try apply nil_length_inv.
Qed.

Lemma numbers_valid (c c' : main_configuration) :
  validate_numbers c = Some c' ->
  kept c' = kept c /\ kept_first c' = kept_first c
  /\ 0 < mc_max_connections c' <= MAX_NUMBER_OF_CONNECTIONS
  /\ (mc_health_check c' = true ->
      mc_health_check_user c' <> "" /\ 0 < mc_health_check_period c' /\ 0 < mc_health_check_timeout c').
Proof.
  unfold validate_numbers. intros H. checks H. injection H as <-.
  apply Z.ltb_lt in E. clear E0 E2. revert E1.
  unfold MAX_NUMBER_OF_CONNECTIONS, HEALTH_CHECK_MIN_INTERVAL, kept, kept_first.
  destruct (Z.ltb_spec 10000 (mc_max_connections c)); cbn;
    destruct (mc_health_check c) eqn:Eh; cbn; rewrite ?Eh;
    (destruct (Z.ltb_spec (mc_health_check_period c) 1); cbn; rewrite ?Eh);
    (destruct (Z.ltb_spec (mc_health_check_timeout c) 1); cbn; rewrite ?Eh);
    cbn; intros He; (split; [done|]); (split; [done|]); (split; [lia|]);
    intros ?; try congruence; apply negb_true_iff, streq_false in He; (split; [done|]); lia.
Qed.

Lemma failover_valid (c : main_configuration) :
  validate_failover sys c = Some tt ->
  mc_failover c = true -> script_ok sys (mc_failover_script c) = true /\ (1 < length (mc_servers c))%nat.
Proof.
  unfold validate_failover. intros H Hf. rewrite Hf in H. checks H. bool_prop.
  destruct E as ((_ & ?) & ?%Nat.ltb_lt). done.
Qed.

Lemma servers_valid (c : main_configuration) :
  validate_servers sys c = Some tt ->
  mc_servers c <> []
  /\ (forall s, s ∈ mc_servers c -> sv_valid s = true -> sv_host s <> "" /\ sv_port s <> 0)
  /\ duplicated_servers sys (mc_servers c) = false /\ (primaries (mc_servers c) <= 1)%nat.
Proof.
  unfold validate_servers. intros H. checks H. apply guard_Some, Nat.leb_le in H. bool_prop.
  split; [by intros Hn; rewrite Hn in E|]. split; [|done].
  intros s Hs Hv. rewrite forallb_forall in E0. specialize (E0 s ltac:(by apply list_elem_of_In)).
  unfold server_ok in E0. rewrite Hv in E0. cbn in E0. bool_prop. naive_solver.
Qed.

Definition kept_second (c : main_configuration) := (mc_max_connections c, mc_health_check c).

Lemma choose_pipeline_kept (c : main_configuration) :
  kept (choose_pipeline c) = kept c /\ kept_first (choose_pipeline c) = kept_first c
  /\ kept_second (choose_pipeline c) = kept_second c /\ mc_pipeline (choose_pipeline c) <> PIPELINE_AUTO.
Proof.
  unfold choose_pipeline. destruct (_ =? _) eqn:E; [|by bool_prop].
  split_and!; try done. cbn. by case_match.
Qed.

Lemma valid_backend (c c' : main_configuration) :
  choose_backend sys c = Some c' ->
  kept c' = kept c /\ (valid_configuration sys c -> valid_configuration sys c').
Proof.
  unfold choose_backend. intros H. checks H. injection H as <-. split; [done|]. intros []. by split.
Qed.

Lemma pipeline_checked (c : main_configuration) :
  validate_pipeline c = Some tt -> mc_pipeline c <> PIPELINE_AUTO -> pipeline_valid c.
Proof.
  unfold validate_pipeline, pipeline_valid. intros H Ha. split; [done|].
  split; intros Hp; rewrite Hp in H; cbn in H.
  - checks H. apply guard_Some in H. bool_prop. split; [done|]. split.
    { apply orb_true_iff in E0 as [->|[Hu%negb_true_iff%bool_decide_eq_false ?%negb_true_iff]%andb_true_iff]; [by left|right].
      split; [|done]. intros Hn. by rewrite Hn in Hu. }
    split; [|intros Hn; by rewrite Hn in E2].
    intros s Hs Hv. rewrite existsb_false in E1. specialize (E1 s Hs). by rewrite Hv in E1.
  - apply guard_Some in H. bool_prop. naive_solver.
Qed.

Lemma validate_valid_configuration (a : bool) (r c' : main_configuration) :
  validate_configuration sys a false r = Some c' -> kept c' = kept r /\ valid_configuration sys c'.
Proof.
  unfold validate_configuration. intros H. checks H.
  apply sockets_valid in E as (K1 & Hbl & Ht & Haddr).
  apply authquery_valid in E0 as (K2 & F2 & Haq).
  apply numbers_valid in E1 as (K3 & F3 & Hmx & Hhc).
  destruct (choose_pipeline_kept x1) as (K4 & F4 & S4 & Hna).
  apply valid_backend in H as (K5 & Hv). split; [congruence|]. apply Hv. clear Hv K5 c'.
  destruct x2, x3, x4. pose proof (failover_valid _ E2) as Hf. apply servers_valid in E3 as (Hs1 & Hs2 & Hs3 & _).
  apply pipeline_checked in E4; [|done]. clear E2 K1. unfold kept, kept_first, kept_second in *. specialize (Haddr eq_refl).
  remember (choose_pipeline x1) as y. clear Heqy.
  repeat match goal with H : (_, _) = (_, _) |- _ => injection H; clear H; intros end.
  split; [..|exact E4]; congruence || (repeat match goal with H : _ = _ |- _ => rewrite H in * end; done).
Qed.

(** ** What the pool is given *)

(** The settings the connection pool works with. *)
Definition pool_config (c : main_configuration) : config :=
  Config (mc_max_connections c) (le_limit <$> mc_limits c) (mc_users c)
    ((fun s => Server (sv_name s) (sv_host s) (sv_port s)) <$> mc_servers c)
    (mc_allow_unknown_users c) (mc_authquery c) (mc_failover c) (mc_failover_notify_script c) (mc_blocking_timeout c)
    (mc_connection_retry_delay c) (mc_idle_timeout c) (mc_max_connection_age c) (mc_max_retries c) (mc_validation c)
    (mc_startup_validation c) (mc_health_check_user c) (mc_server_reset_query c) (mc_server_reset_query_behavior c)
    (cf_metrics (mc_common c)).

(** The settings of a running process: what the start has established. *)
Record running_ok (c : main_configuration) : Prop := {
  ro_valid : valid_configuration sys c;
  ro_hba : validate_hba_configuration c = true;
  ro_limits : ValidLimits (pool_config c) }.

(** What a process cannot change while it runs: its sockets, the size of its shared memory,
    its pipeline, and the rules with their sizes. *)
Definition rule (l : limit_entry) : string * string * Z * Z * Z :=
  let l := le_limit l in (l_database l, l_username l, l_max_size l, l_initial_size l, l_min_size l).

Definition pinned (c : main_configuration) :=
  (cf_host (mc_common c), cf_port (mc_common c), cf_metrics (mc_common c), cf_metrics_cache_max_size (mc_common c),
   mc_management c, mc_console c, mc_pipeline c, mc_max_connections c, mc_unix_socket_dir c, cf_tls (mc_common c),
   cf_hugepage (mc_common c), mc_ev_backend c, rule <$> mc_limits c).

(** Every running server is still at its place. *)
Definition servers_stay (c c' : main_configuration) : Prop :=
  (length (mc_servers c) <= length (mc_servers c'))%nat
  /\ forall i s s', mc_servers c !! i = Some s -> mc_servers c' !! i = Some s' ->
     is_same_server sys s' s = true /\ sv_tls s' = sv_tls s.

Lemma validate_limits_kept (r r' : main_configuration) :
  validate_limits r = Some r' ->
  exists ls, length ls = length (mc_limits r) /\ r' = set_mc_limits ls r
  /\ fixed <$> (le_limit <$> ls) = fixed <$> (le_limit <$> mc_limits r)
  /\ (total_max_size (le_limit <$> mc_limits r) < 2 ^ 31 -> ValidLimits (pool_config r')).
Proof.
  unfold validate_limits. intros H. apply bind_Some in H as (ls & Hv & [= <-]).
  pose proof (validate_fixed _ _ _ _ Hv) as (Hf & _ & _).
  assert (length ls = length (mc_limits r)) as Hl by (by apply (f_equal length) in Hf; rewrite !length_fmap in Hf).
  eexists. split; [|split; [reflexivity|]]; [rewrite length_zip_with; lia|].
  assert (le_limit <$> zip_with (fun l e => LimitEntry l (le_active_connections e) (le_backend_connections e)) ls
            (mc_limits r) = ls) as Hz.
  { clear -Hl. revert Hl. generalize (mc_limits r). induction ls as [|l ls IH]; intros [|e es]; try done.
    intros [= Hl]. cbn. by rewrite IH. }
  rewrite Hz. split; [done|]. intros Hsum. apply (validate_valid _ (le_limit <$> mc_limits r)); [|done].
  cbn. by rewrite Hz.
Qed.

Lemma valid_limits (ls : list limit_entry) (c : main_configuration) :
  length ls = length (mc_limits c) -> valid_configuration sys c -> valid_configuration sys (set_mc_limits ls c).
Proof.
  intros Hl [Ha Hc Hb Ht Hq Hf Hh Hs Hd (Hp1 & Hp2 & Hp3)].
  split; try done; cbn.
  - intros E. destruct (Hq E) as (? & ? & ? & H). rewrite H in Hl. split_and!; try done. by apply nil_length_inv.
  - split; [done|]. split; [|done]. intros E. destruct (Hp2 E) as (? & ? & ? & H). split_and!; try done.
    cbn. intros ->. by apply H, nil_length_inv.
Qed.

(** *** Transfer *)

Lemma transfer_servers_lookup (reset : bool) (old new : list server_entry) (i : nat) (s' : server_entry) :
  transfer_servers sys reset old new !! i = Some s' ->
  exists s, new !! i = Some s /\ sv_host s' = sv_host s /\ sv_port s' = sv_port s /\ sv_valid s' = sv_valid s
    /\ sv_tls s' = sv_tls s.
Proof.
  unfold transfer_servers. destruct reset; rewrite ?list_lookup_fmap, list_lookup_imap;
    destruct (new !! i) as [s|]; cbn; intros [= <-]; by exists s.
Qed.

Lemma transfer_servers_length (reset : bool) (old new : list server_entry) :
  length (transfer_servers sys reset old new) = length new.
Proof. unfold transfer_servers. destruct reset; by rewrite ?length_fmap, length_imap. Qed.

Lemma is_same_server_ext (s1 s1' s2 s2' : server_entry) :
  sv_host s1' = sv_host s1 -> sv_port s1' = sv_port s1 -> sv_host s2' = sv_host s2 -> sv_port s2' = sv_port s2 ->
  is_same_server sys s1' s2' = is_same_server sys s1 s2.
Proof. unfold is_same_server. by intros -> -> -> ->. Qed.

(** No two places hold the same valid server. *)
Lemma duplicated_lookup (ss : list server_entry) :
  duplicated_servers sys ss = false <->
  forall i j s1 s2, (i < j)%nat -> ss !! i = Some s1 -> ss !! j = Some s2 -> sv_valid s1 = true -> is_same_server sys s1 s2 = false.
Proof.
  induction ss as [|s ss IH]; cbn; [done|]. rewrite orb_false_iff, IH, andb_false_iff. clear IH. split.
  - intros [Hs H] [|i] [|j] s1 s2 Hij; cbn; try lia.
    + intros [= <-] Hj Hv. destruct Hs as [|Hs]; [congruence|]. rewrite existsb_false in Hs.
      apply Hs, list_elem_of_lookup. eauto.
    + apply H. lia.
  - intros H. split.
    + destruct (sv_valid s) eqn:Hv; [right|by left]. apply existsb_false. intros s2 (j & Hj)%list_elem_of_lookup.
      by apply (H 0%nat (S j) s s2 ltac:(lia)).
    + intros i j s1 s2 Hij. apply (H (S i) (S j)). lia.
Qed.

Lemma transfer_valid (c r : main_configuration) : valid_configuration sys r -> valid_configuration sys (transfer sys c r).
Proof.
  intros [Ha Hc Hb Ht Hq Hf Hh [Hs1 Hs2] Hd (Hp1 & Hp2 & Hp3)].
  assert (forall s', s' ∈ mc_servers (transfer sys c r) -> exists s, s ∈ mc_servers r /\ sv_host s' = sv_host s
    /\ sv_port s' = sv_port s /\ sv_valid s' = sv_valid s /\ sv_tls s' = sv_tls s) as Hin.
  { intros s' (i & (s & Hs & ?)%transfer_servers_lookup)%list_elem_of_lookup. exists s. split; [|done].
    apply list_elem_of_lookup. eauto. }
  split; try done; cbn.
  - intros E. destruct (Hq E) as (? & ? & ? & ->). done.
  - rewrite transfer_servers_length. exact Hf.
  - split.
    + intros E%(f_equal length). rewrite transfer_servers_length in E. by apply Hs1, nil_length_inv.
    + intros s' (s & Hs & -> & -> & -> & _)%Hin. by apply Hs2.
  - rewrite duplicated_lookup in *. intros i j s1' s2' Hij
      (s1 & H1 & Hh1 & Hr1 & -> & _)%transfer_servers_lookup (s2 & H2 & Hh2 & Hr2 & _)%transfer_servers_lookup Hv.
    rewrite (is_same_server_ext s1 s1' s2 s2') by done. by apply (Hd i j).
  - split; [done|]. split; [|done]. intros E. destruct (Hp2 E) as (? & ? & Ht' & Hl). split_and!; try done.
    + intros s' (s & Hs & _ & _ & -> & ->)%Hin. by apply Ht'.
    + intros E'%fmap_nil_inv. done.
Qed.

Lemma restart_limit_rules (c r : main_configuration) :
  restart_limit c r = false -> rule <$> mc_limits r = rule <$> mc_limits c.
Proof.
  unfold restart_limit. generalize (mc_limits c) (mc_limits r). clear.
  intros ls. induction ls as [|e ls IH]; intros [|n ns]; try done.
  cbn [length Nat.eqb zip zip_with existsb]. rewrite !orb_false_iff. intros (Hl & ((((H1 & H2) & H3) & H4) & H5) & H6).
  cbn. rewrite IH; [|by rewrite Hl, H6]. f_equal. unfold rule. by bool_prop; congruence.
Qed.

Lemma rules_total (ls ls' : list limit_entry) :
  rule <$> ls' = rule <$> ls -> total_max_size (le_limit <$> ls') = total_max_size (le_limit <$> ls).
Proof.
  revert ls'; induction ls as [|l ls IH]; intros [|l' ls']; try done.
  intros E. cbn in E. injection E as _ _ Hm _ _ E. cbn. rewrite Hm. f_equal. by apply IH.
Qed.

Lemma rules_total_copy (ls : list limit_entry) :
  total_max_size (le_limit <$> (copy_limit <$> ls)) = total_max_size (le_limit <$> ls).
Proof. by rewrite <- list_fmap_compose. Qed.

Lemma rules_copy (ls : list limit_entry) : rule <$> (copy_limit <$> ls) = rule <$> ls.
Proof. by rewrite <- list_fmap_compose. Qed.

Lemma restart_server_same (n e : server_entry) :
  restart_server sys n e = false -> is_same_server sys n e = true /\ sv_tls n = sv_tls e.
Proof.
  unfold restart_server. rewrite orb_false_iff, !negb_false_iff. intros [? H]. split; [done|].
  unfold is_same_tls in H. rewrite !andb_true_iff in H. destruct H as (((((H & _) & _) & _) & _) & _). by apply eqb_prop.
Qed.

Lemma no_restart (c r : main_configuration) :
  check_restart_required sys c r = false -> pinned (transfer sys c r) = pinned c /\ servers_stay c (transfer sys c r).
Proof.
  unfold check_restart_required, restart_int, restart_bool, restart_string. cbn [andb].
  rewrite !orb_false_iff, !negb_false_iff.
  intros ((((((((((((((((H1 & H2) & H3) & H4) & H5) & H6) & H7) & H8) & H9) & _) & H11) & H12) & H13) & H14) & H15) & H16) & H17).
  apply restart_limit_rules in H17. apply streq_true in H1, H13. apply Z.eqb_eq in H2, H3, H4, H5, H6, H7, H8, H9, H11, H12.
  apply eqb_prop in H14. apply Nat.ltb_ge in H15. split.
  - assert (rule <$> mc_limits (transfer sys c r) = rule <$> mc_limits c) as Hr by (rewrite <- H17; exact (rules_copy _)).
    unfold pinned. rewrite Hr. cbn. congruence.
  - split; [cbn; by rewrite transfer_servers_length|]. intros i s s' Hi (n & Hn & Hh & Hp & _ & Ht)%transfer_servers_lookup.
    rewrite existsb_false in H16. specialize (H16 (n, s)). destruct (restart_server_same n s) as [Hs Hts].
    { apply H16, list_elem_of_lookup. exists i. by rewrite lookup_zip_with, Hn, Hi. }
    by rewrite (is_same_server_ext n s' s s), Ht.
Qed.

Lemma init_pidfile_same (c : main_configuration) :
  pinned (init_pidfile c) = pinned c /\ mc_servers (init_pidfile c) = mc_servers c /\ (running_ok c -> running_ok (init_pidfile c)).
Proof.
  unfold init_pidfile. destruct (streq _ _); [|done]. split; [done|]. split; [done|].
  intros [[] ? []]; split; [by split|done|by split].
Qed.

Lemma validate_hba_ext (c c' : main_configuration) :
  mc_hbas c' = mc_hbas c -> cf_tls (mc_common c') = cf_tls (mc_common c) ->
  cf_tls_ca_file (mc_common c') = cf_tls_ca_file (mc_common c) ->
  validate_hba_configuration c' = validate_hba_configuration c.
Proof. unfold validate_hba_configuration, hba_ok. by intros -> -> ->. Qed.

Lemma pool_limits_ext (c c' : main_configuration) :
  le_limit <$> mc_limits c' = le_limit <$> mc_limits c -> mc_max_connections c' = mc_max_connections c ->
  ValidLimits (pool_config c) -> ValidLimits (pool_config c').
Proof. intros E Em []. split; cbn; rewrite ?E, ?Em; done. Qed.

(** The outcome [o] of a reload keeps a running process in order. *)
Definition reload_keeps (c : main_configuration) (o : reloaded) : Prop :=
  match o with
  | ReloadFailed c' | ReloadRestart c' => c' = c \/ c' = init_pidfile c
  | ReloadDone c' _ => running_ok c' /\ pinned c' = pinned c /\ servers_stay c c'
  | ReloadExit | ReloadUndefined => True
  end.

Lemma transfer_keeps (tls_valid : main_configuration -> bool) (c r r1 r2 : main_configuration) :
  running_ok c -> validate_configuration sys false false r = Some r1 -> validate_hba_configuration r1 = true ->
  validate_limits r1 = Some r2 -> reload_keeps c (transfer_configuration sys tls_valid (init_pidfile c) r2).
Proof.
  intros Hc Ev Eh El. apply validate_valid_configuration in Ev as (_ & Hv).
  apply validate_limits_kept in El as (ls & Hls & -> & Hfx & Hvl).
  unfold transfer_configuration. destruct (check_restart_required _ _ _) eqn:Er; [by right|].
  destruct (_ && negb _); [done|]. cbn.
  destruct (init_pidfile_same c) as (Hp & Hs & Hr). apply no_restart in Er as [Ep Es].
  split; [|split; [by rewrite Ep|by unfold servers_stay in *; rewrite Hs in Es]].
  split.
  - by apply transfer_valid, valid_limits.
  - by rewrite (validate_hba_ext r1).
  - apply (pool_limits_ext (set_mc_limits ls r1)); [|done|].
    { cbn. rewrite <- list_fmap_compose. by apply list_fmap_ext. }
    apply Hvl. rewrite <- (total_max_size_fixed _ _ Hfx), <- (rules_total_copy ls), (rules_total (mc_limits c)).
    + pose proof (@vl_total _ (ro_limits c Hc)) as Ht.
      change (total_max_size (le_limit <$> mc_limits c) <= mc_max_connections c) in Ht.
      pose proof (vc_connections _ _ (ro_valid c Hc)). unfold MAX_NUMBER_OF_CONNECTIONS in *. lia.
    + rewrite Hp in Ep. exact (f_equal snd Ep).
Qed.

Lemma apply_reload_keeps (tls_valid : main_configuration -> bool) (c r : main_configuration) :
  running_ok c -> reload_keeps c (apply_reload sys tls_valid c r).
Proof.
  intros Hc. unfold apply_reload. destruct (validate_configuration _ _ _ _) as [r1|] eqn:Ev; [|by left].
  destruct (validate_hba_configuration r1) eqn:Eh; [|by right]. cbn [negb].
  destruct (validate_limits r1) as [r2|] eqn:El; [|by right].
  destruct (validate_frontend_users_configuration _); [|by right]. by apply (transfer_keeps _ c r r1 r2).
Qed.

(** The same for the outcome of a request to set a value. *)
Definition conf_set_keeps (c : main_configuration) (o : conf_set_result) : Prop :=
  match o with
  | SetError c' | SetRestart c' => c' = c \/ c' = init_pidfile c
  | SetDone c' => running_ok c' /\ pinned c' = pinned c /\ servers_stay c c'
  | SetExit _ | SetUndefined => True
  end.

Lemma conf_set_sound (tls_valid : main_configuration -> bool) (key value : string) (c : main_configuration) :
  running_ok c -> conf_set_keeps c (conf_set sys tls_valid key value c).1.
Proof.
  intros Hc. unfold conf_set. destruct (is_valid_config_key c key) as [[ki|]|]; [|by left|done].
  assert (conf_set_keeps c (apply_configuration sys tls_valid ki value c)) as H;
    [|by destruct (apply_configuration _ _ _ _ _)].
  unfold apply_configuration. destruct (change_setting ki value c) as [[r|]|]; [|by left|done].
  destruct (validate_configuration _ _ _ _) as [r1|] eqn:Ev; [|by left].
  destruct (validate_hba_configuration r1) eqn:Eh; [|by right]. cbn [negb].
  destruct (validate_limits r1) as [r2|] eqn:El; [|by right].
  pose proof (transfer_keeps tls_valid c r r1 r2 Hc Ev Eh El) as H.
  by destruct (transfer_configuration _ _ _ _).
Qed.

(** The end of a reader in a reload. *)
Lemma then_read_keeps (c : main_configuration) (r : read_result main_configuration) (f : main_configuration -> reloaded) :
  (forall r, reload_keeps c (f r)) -> reload_keeps c (then_read c r f).
Proof. intros H. unfold then_read. destruct r; [|done]. destruct (_ =? _); [done|by left]. Qed.

(** A reload keeps a running process in order.  When the new files are taken over, the
    settings satisfy the checks of the start (address, sizes, pipeline, failover, distinct
    servers, host-based rules) and the interface of the connection pool; the sockets, the
    size of the shared memory, the pipeline, the rules with their sizes and the addresses of the servers are those of the
    running process.  When the reload fails or needs a restart, the running settings stay,
    but for the name of the file with the process identifier. *)
Lemma reload_sound (getenv : string -> option string) (decrypt : option (string -> option string))
  (tls_valid : main_configuration -> bool) (fs : files) (c : main_configuration) 
  : running_ok c -> reload_keeps c (reload_configuration sys getenv decrypt tls_valid fs c).
Proof.
  intros Hc. unfold reload_configuration. apply then_read_keeps. intros r.
  destruct (read_hba_configuration _ _) as [st1 r1]. destruct (st1 =? STATUS_OK); [|by left]. cbn [negb].
  destruct (match f_limit fs with None => _ | Some _ => _ end) as [[st2 r2]|]; [|done].
  destruct (st2 =? STATUS_OK); [|by left]. cbn [negb].
  do 3 (apply then_read_keeps; intros ?).
  destruct (match f_superuser fs with None => _ | Some _ => _ end) as [st3 rs].
  destruct (st3 =? STATUS_OK); [|by left]. by apply apply_reload_keeps.
Qed.

(** ** From the start on *)

Lemma frontend_startup_valid (random : nat -> option (list Z)) (c : main_configuration) :
  valid_configuration sys c -> valid_configuration sys (frontend_user_password_startup random c).
Proof.
  intros [Ha Hc Hb Ht Hq Hf Hh Hs Hd (Hp1 & Hp2 & Hp3)]. unfold frontend_user_password_startup.
  destruct (_ && _) eqn:E; [|by split]. destruct (mapM _ _) as [fs|] eqn:Em; [|by split].
  split; try done; cbn. intros Eq. destruct (Hq Eq) as (? & Hu & ? & ?). rewrite Hu in Em. cbn in Em. injection Em as <-. done.
Qed.

Lemma frontend_startup_limits (random : nat -> option (list Z)) (c : main_configuration) :
  mc_limits (frontend_user_password_startup random c) = mc_limits c.
Proof. unfold frontend_user_password_startup. destruct (_ && _); [|done]. by destruct (mapM _ _). Qed.

Lemma init_pidfile_valid (c : main_configuration) :
  valid_configuration sys c -> valid_configuration sys (init_pidfile c).
Proof. intros []. unfold init_pidfile. destruct (streq _ _); by split. Qed.

(** The configurations of a process: that of the start, and those that follow by a reload
    from any files, by a request to set a value and by the rotation of the passwords. *)
Inductive configured (getenv : string -> option string) (decrypt : option (string -> option string))
  (c0 : main_configuration) : main_configuration -> Prop :=
| configured_start : configured getenv decrypt c0 c0
| configured_failed tls_valid fs c c' : configured getenv decrypt c0 c ->
    reload_configuration sys getenv decrypt tls_valid fs c = ReloadFailed c' -> configured getenv decrypt c0 c'
| configured_restart tls_valid fs c c' : configured getenv decrypt c0 c ->
    reload_configuration sys getenv decrypt tls_valid fs c = ReloadRestart c' -> configured getenv decrypt c0 c'
| configured_done tls_valid fs c c' b : configured getenv decrypt c0 c ->
    reload_configuration sys getenv decrypt tls_valid fs c = ReloadDone c' b -> configured getenv decrypt c0 c'
| configured_set tls_valid key value c c' : configured getenv decrypt c0 c ->
    (conf_set sys tls_valid key value c).1 ∈ [SetError c'; SetRestart c'; SetDone c'] -> configured getenv decrypt c0 c'
| configured_rotate random c : configured getenv decrypt c0 c ->
    configured getenv decrypt c0 (rotate_frontend_password_cb random c).

Lemma rotate_running (random : nat -> option (list Z)) (c : main_configuration) :
  running_ok c -> running_ok (rotate_frontend_password_cb random c).
Proof.
  intros [[Ha Hc Hb Ht Hq Hf Hh Hs Hd Hp] Hhba []]. split; [|done|by split].
  split; try done; cbn. intros Eq. destruct (Hq Eq) as (? & ? & -> & ?). done.
Qed.

Lemma start_running (random : nat -> option (list Z)) (has_unix_socket : bool) (c c' : main_configuration) :
  start_checks random sys has_unix_socket false c = Some c' ->
  total_max_size (le_limit <$> mc_limits c) < 2 ^ 31 -> running_ok c'.
Proof.
  unfold start_checks. intros H Hsum. checks H. injection H as <-.
  apply validate_valid_configuration in E as (K & Hv).
  apply validate_limits_kept in E1 as (ls & Hls & -> & _ & Hvl).
  apply init_pidfile_valid, (frontend_startup_valid random) in Hv.
  split; [by apply valid_limits|by rewrite (validate_hba_ext (frontend_user_password_startup random (init_pidfile x)))|].
  apply Hvl. rewrite frontend_startup_limits. replace (mc_limits (init_pidfile x)) with (mc_limits c); [done|].
  unfold kept in K. unfold init_pidfile. destruct (streq _ _); cbn; congruence.
Qed.

Lemma configured_running (getenv : string -> option string) (decrypt : option (string -> option string))
  (c0 c : main_configuration) :
  running_ok c0 -> configured getenv decrypt c0 c -> running_ok c /\ pinned c = pinned c0.
Proof.
  assert (forall c, running_ok c /\ pinned c = pinned c0 -> running_ok (init_pidfile c) /\ pinned (init_pidfile c) = pinned c0) as Hi.
  { intros d [Hd Hp]. destruct (init_pidfile_same d) as (-> & _ & Hr). auto. }
  intros H0. induction 1 as [|tv fs c c' _ IH H|tv fs c c' _ IH H|tv fs c c' b _ IH H|tv key v c c' _ IH H|random c _ [IH Hp]];
    [done| | | | |by split; [apply rotate_running|]];
    [pose proof (reload_sound getenv decrypt tv fs c (proj1 IH)) as Hr; rewrite H in Hr; cbn in Hr..|].
  - destruct Hr as [->| ->]; auto.
  - destruct Hr as [->| ->]; auto.
  - destruct Hr as (? & -> & _). by destruct IH.
  - pose proof (conf_set_sound tv key v c (proj1 IH)) as Hr. rewrite !elem_of_cons, elem_of_nil in H.
    destruct H as [H|[H|[H|[]]]]; rewrite H in Hr; cbn in Hr.
    + destruct Hr as [->| ->]; auto.
    + destruct Hr as [->| ->]; auto.
    + destruct Hr as (? & -> & _). by destruct IH.
Qed.
End facts.

(** C13: From its start a process works with settings that are in order.  When the files of
    the command line are accepted, the settings of the process satisfy, at the start and
    after any sequence of reloads (from any files), of requests to set a value, that succeed,
    fail or ask for a restart, and of rotations of the passwords, the checks of the start: an address, sizes within
    their bounds, a pipeline that goes with TLS, failover and limits, distinct servers with
    an address, host-based rules that are well formed, and limits that satisfy the
    interface of the connection pool.  The sockets, the size of the shared memory, the
    pipeline and the rules with their sizes stay those of the start.  Two conditions: the process opens
    its sockets itself (it does not get them from systemd, in which case the check of the
    host is left out), and the sizes of the limits in the file are below 2^31 together:
    [pgagroal_validate_limit_configuration] adds them up in an [int] without a check. *)
Theorem settings_invariant (sys : system) (random : nat -> option (list Z)) (has_unix_socket : bool)
  (getenv : string -> option string) (decrypt : option (string -> option string))
  (read started c : main_configuration)
  (Hstart : start_checks random sys has_unix_socket false read = Some started)
  (Hsum : total_max_size (le_limit <$> mc_limits read) < 2 ^ 31)
  (Hc : configured sys getenv decrypt started c) :
  running_ok sys c /\ pinned c = pinned started.
Proof. eauto using configured_running, start_running. Qed.

(** ** Examples *)

Definition nl : string := String (ascii_of_nat 10) "".

Definition system0 : system := System (fun _ => true) (fun _ => None) (fun _ _ _ => false) [EVENT_BACKEND_EPOLL]
  EVENT_BACKEND_EPOLL None.

(** A file with two servers, with the time out of a blocking client and further settings. *)
Definition main_file (timeout more : string) : string :=
  "[pgagroal]" +:+ nl +:+ "host = localhost" +:+ nl +:+ "port = 2345" +:+ nl +:+ "unix_socket_dir = /tmp" +:+ nl
  +:+ "max_connections = 20" +:+ nl +:+ "blocking_timeout = " +:+ timeout +:+ nl +:+ more
  +:+ "[first]" +:+ nl +:+ "host = db1" +:+ nl +:+ "port = 5432" +:+ nl +:+ "primary = on" +:+ nl
  +:+ "[second]" +:+ nl +:+ "host = db2" +:+ nl +:+ "port = 5432" +:+ nl.

Definition hba_file : string := "host all all all scram-sha-256" +:+ nl.
Definition limit_file : string := "mydb=m1,m2 alice 5 2 1" +:+ nl.
Definition users_file : string := "alice:YQ==" +:+ nl.
Definition decrypt0 : option (string -> option string) := Some Some.

Definition files0 (timeout more : string) : files :=
  Files (Some (main_file timeout more)) (Some hba_file) (Some (Some limit_file)) (Some (Some users_file)) None None None.

Definition arguments0 (timeout more : string) : arguments :=
  let none := FileArg false None in
  Arguments (Some (main_file timeout more)) (Some hba_file) (FileArg true (Some limit_file))
    (FileArg true (Some users_file)) none none none.

Definition random0 (i : nat) : option (list Z) := Some (repeat (Z.of_nat i) 8).

Definition start0 (more : string) : main_configuration :=
  default init_configuration
    (start_configuration random0 system0 (fun _ => None) decrypt0 false false (arguments0 "30" more)).

Definition reload0 (timeout more : string) (c : main_configuration) : reloaded :=
  reload_configuration system0 (fun _ => None) decrypt0 (fun _ => true) (files0 timeout more) c.

Definition reloaded_to (r : reloaded) : main_configuration :=
  match r with ReloadDone c _ => c | _ => init_configuration end.


Definition read0 : main_configuration :=
  default init_configuration (start_files (fun _ => None) decrypt0 (arguments0 "30" "")).

(** A start, and a reload with another time out. *)
Lemma settings_invariant_witness :
  let started := start0 "" in
  let c := reloaded_to (reload0 "10" "" started) in
  mc_blocking_timeout c = 10 /\ running_ok system0 c /\ pinned c = pinned started.
Proof.
  cbv zeta. split; [vm_compute; reflexivity|].
  apply (settings_invariant system0 random0 false (fun _ => None) decrypt0 read0); [vm_compute; reflexivity..|].
  eapply (configured_done _ _ _ _ (fun _ => true) (files0 "10" "")); [apply configured_start|].
  vm_compute. reflexivity.
Defined.

(** A reload that takes new files over is a transfer. *)
Lemma then_read_done (c c' : main_configuration) (r : read_result main_configuration) (f : main_configuration -> reloaded)
  (b : bool) : then_read c r f = ReloadDone c' b -> exists r, f r = ReloadDone c' b.
Proof. unfold then_read. destruct r; [|done]. destruct (_ =? _); [eauto|done]. Qed.

Lemma reload_transfer (sys : system) (getenv : string -> option string) (decrypt : option (string -> option string))
  (tls_valid : main_configuration -> bool) (fs : files) (c c' : main_configuration) (b : bool) :
  reload_configuration sys getenv decrypt tls_valid fs c = ReloadDone c' b ->
  exists r, c' = transfer sys (init_pidfile c) r.
Proof.
  unfold reload_configuration. intros (r & H)%then_read_done.
  destruct (read_hba_configuration _ _) as [st1 r1]. destruct (st1 =? STATUS_OK); [|done]. cbn [negb] in H.
  destruct (match f_limit fs with None => _ | Some _ => _ end) as [[st2 r2]|]; [|done].
  destruct (st2 =? STATUS_OK); [|done]. cbn [negb] in H.
  apply then_read_done in H as (ra & (rb & (rc & H)%then_read_done)%then_read_done).
  destruct (match f_superuser fs with None => _ | Some _ => _ end) as [st3 rs].
  destruct (st3 =? STATUS_OK); [|done]. cbn [negb] in H. unfold apply_reload, transfer_configuration in H.
  repeat case_match; simplify_eq; eauto.
Qed.

(** A reload forgets what is in use.  Whenever new files are taken over, the counters of
    every rule are zero afterwards, whatever they were: the connections that are in use, and
    that will be returned, are no longer counted against the sizes of their rules.  The rules
    and their sizes are those of before. *)
Theorem reload_forgets_counters (sys : system) (getenv : string -> option string)
  (decrypt : option (string -> option string)) (tls_valid : main_configuration -> bool) (fs : files)
  (c c' : main_configuration) (b : bool) (Hc : running_ok sys c)
  (H : reload_configuration sys getenv decrypt tls_valid fs c = ReloadDone c' b) :
  rule <$> mc_limits c' = rule <$> mc_limits c
  /\ forall l, l ∈ mc_limits c' -> le_active_connections l = 0 /\ le_backend_connections l = 0.
Proof.
  pose proof (reload_sound sys getenv decrypt tls_valid fs c Hc) as Hr. rewrite H in Hr. destruct Hr as (_ & Hp & _).
  split; [exact (f_equal snd Hp)|].
  apply reload_transfer in H as (r & ->). intros l Hl. cbn in Hl. apply list_elem_of_fmap in Hl as (l' & -> & _). done.
Qed.

(** The configuration of the start, with [n] connections of each rule in use. *)
Definition in_use (n : Z) (c : main_configuration) : main_configuration :=
  set_mc_limits ((fun l => LimitEntry (le_limit l) n n) <$> mc_limits c) c.

Lemma start0_running (more : string) (c : main_configuration) :
  start_files (fun _ => None) decrypt0 (arguments0 "30" more) = Some c ->
  start_checks random0 system0 false false c = Some (start0 more) ->
  total_max_size (le_limit <$> mc_limits c) < 2 ^ 31 -> running_ok system0 (start0 more).
Proof. eauto using start_running. Qed.

Lemma in_use_running (sys : system) (n : Z) (c : main_configuration) : running_ok sys c -> running_ok sys (in_use n c).
Proof.
  intros [Hv Hh Hl]. split; [by apply valid_limits; [rewrite length_fmap|]|done|].
  apply (pool_limits_ext c); [|done|done]. cbn. by rewrite <- list_fmap_compose.
Qed.

(** Three connections of the rule for [mydb] are in use, none is counted after a reload. *)
Lemma reload_forgets_counters_witness :
  let c := in_use 3 (start0 "") in
  let c' := reloaded_to (reload0 "10" "" c) in
  le_active_connections <$> mc_limits c = [3] /\ length (mc_limits c') = 1%nat
  /\ forall l, l ∈ mc_limits c' -> le_active_connections l = 0 /\ le_backend_connections l = 0.
Proof.
  cbv zeta. split; [vm_compute; reflexivity|]. split; [vm_compute; reflexivity|].
  eapply (reload_forgets_counters system0 (fun _ => None) decrypt0 (fun _ => true) (files0 "10" "") (in_use 3 (start0 "")) _ false).
  - apply in_use_running, (start0_running "" read0); vm_compute; reflexivity.
  - vm_compute. reflexivity.
Defined.

(** The name of the file with the process identifier, which the start has made up, is empty
    after a reload: the file is not removed at the end. *)
Lemma reload_forgets_pidfile :
  let started := start0 "" in
  let c := reloaded_to (reload0 "10" "" started) in
  mc_pidfile started = "/tmp/pgagroal.2345.pid" /\ mc_pidfile c = "".
Proof. by vm_compute. Qed.

(** The identifier of a server, which its first connection has set, is lost with every copy. *)
Lemma copy_server_forgets_identifier (sys : system) (dst src : server_entry) :
  is_same_server sys dst src = true ->
  sv_system_identifier (copy_server sys dst src) = sv_system_identifier src
  /\ sv_version (copy_server sys dst src) = sv_version dst.
Proof. unfold copy_server. by intros ->. Qed.

(** A new prefix of the log lines alone is not taken over. *)
Lemma prefix_not_reloaded (c r : configuration) :
  log_changed c r = false -> cf_log_line_prefix (transfer_common c r) = cf_log_line_prefix c.
Proof. unfold transfer_common. by intros ->. Qed.

(** The frontend users with a password that is made up are gone after a reload: their
    clients have to know the password of the user on the server. *)
Lemma reload_forgets_frontend_users :
  let more := "rotate_frontend_password_timeout = 60" +:+ nl in
  let started := start0 more in
  let c := reloaded_to (reload0 "30" more started) in
  u_username <$> mc_frontend_users started = ["alice"] /\ mc_frontend_users c = []
  /\ mc_blocking_timeout c = 30.
Proof. by vm_compute. Qed.
