(* ===== verification/ConfSetFacts.v ===== *)
(** * Requests to set a value

    What the request [conf set] answers is what was asked for and what is set afterwards;
    that the settings stay in order is shown in [ConfReloadFacts].  And what a request
    loses or does not do. *)

From Stdlib Require Import Ascii.
From stdpp Require Import pretty.
From S2P Require Import Prelude Text Config Hba Limits ConfText ConfTextFacts Settings Pool ConfFile ConfReload ConfStart ConfSet ConfReloadFacts.

Local Open Scope Z_scope.

(** ** What is asked is what is shown *)

(** The settings that every check leaves alone and that need no restart. *)
Inductive plain_kind := Flag | Number | Seconds.

Definition plain_settings : list (string * plain_kind) :=
  [("log_connections", Flag); ("log_disconnections", Flag); ("keep_alive", Flag); ("track_prepared_statements", Flag);
   ("server_reset_query_always", Flag); ("max_retries", Number); ("rotate_frontend_password_length", Number);
   ("blocking_timeout", Seconds); ("idle_timeout", Seconds); ("rotate_frontend_password_timeout", Seconds);
   ("max_connection_age", Seconds); ("flush_timeout", Seconds); ("background_interval", Seconds);
   ("tls_cert_monitor_interval", Seconds); ("metrics_cache_max_age", Seconds); ("health_check_period", Seconds);
   ("health_check_timeout", Seconds)].

(** A value as it is printed. *)
Definition plain_value (k : plain_kind) (v : string) : Prop :=
  match k with
  | Flag => v = "on" \/ v = "off"
  | Number => exists n, - 2 ^ 31 <= n < 2 ^ 31 /\ v = pretty n
  | Seconds => exists n, 0 <= n < 2 ^ 31 /\ v = pretty n
  end.

(** The fields of these settings. *)
Definition plain_view (c : main_configuration) :=
  ((cf_log_connections (mc_common c), cf_log_disconnections (mc_common c), mc_keep_alive c, mc_track_prepared_statements c,
    mc_server_reset_query_always c, mc_max_retries c, mc_rotate_frontend_password_length c),
   (mc_blocking_timeout c, mc_idle_timeout c, mc_rotate_frontend_password_timeout c, mc_max_connection_age c,
    mc_flush_timeout c, mc_background_interval c, mc_tls_cert_monitor_interval c, cf_metrics_cache_max_age (mc_common c),
    mc_health_check_period c, mc_health_check_timeout c)).

Lemma validate_plain (sys : system) (a b : bool) (r r' : main_configuration) :
  validate_configuration sys a b r = Some r' -> plain_view r' = plain_view r.
Proof.
  unfold validate_configuration. intros H. checks H.
  transitivity (plain_view (choose_pipeline x1)).
  { unfold choose_backend in H. checks H. by injection H as <-. }
  transitivity (plain_view x1); [by unfold choose_pipeline; destruct (_ =? _)|].
  transitivity (plain_view x0).
  { unfold validate_numbers in E1. checks E1. injection E1 as <-. by repeat case_match. }
  transitivity (plain_view x).
  { unfold validate_authquery in E0. repeat case_match; checks E0; by simplify_eq. }
  unfold validate_sockets in E. checks E. injection E as <-. by repeat case_match.
Qed.

Lemma transfer_plain (sys : system) (tls_valid : main_configuration -> bool) (c r r1 r2 c' : main_configuration) (b : bool) :
  validate_configuration sys false false r = Some r1 -> validate_limits r1 = Some r2 ->
  transfer_configuration sys tls_valid c r2 = ReloadDone c' b -> plain_view c' = plain_view r.
Proof.
  intros Hv Hl Ht. rewrite <- (validate_plain _ _ _ _ _ Hv). apply validate_limits_kept in Hl as (ls & _ & -> & _).
  unfold transfer_configuration in Ht. destruct (check_restart_required _ _ _); [done|].
  destruct (_ && _); [done|]. by injection Ht as <- _.
Qed.

Lemma seconds_printed (n d : Z) : 0 <= n < 2 ^ 31 -> as_seconds (pretty n) d = (n, true).
Proof.
  intros Hn. unfold as_seconds. destruct (pretty_digit n ltac:(lia)) as (c & s & E & Hc).
  assert (is_empty_string (pretty n) = false) as ->.
  { rewrite E. unfold is_empty_string. rewrite skip_none; [done|]. by destruct c as [[] [] [] [] [] [] [] []]. }
  rewrite <- (sapp_nil_r (pretty n)), parse_seconds_printed by (done || lia).
  unfold INT64_MAX. destruct (Z.ltb_spec (2 ^ 63 - 1) n); [lia|]. cbn [mbind option_bind].
  rewrite Z.div_1_r, Z.mul_1_r. by destruct (Z.ltb_spec (2 ^ 63 - 1) n); [lia|].
Qed.

Lemma number_printed (n : Z) : - 2 ^ 31 <= n < 2 ^ 31 -> as_int (pretty n) = Some n.
Proof. intros Hn. rewrite as_int_pretty by lia. by rewrite i32_small. Qed.

Definition main_key (k : string) : config_key_info := KeyInfo "" "" k MainSection.

Lemma plain_key (c : main_configuration) (k : string) (kind : plain_kind) :
  (k, kind) ∈ plain_settings -> is_valid_config_key c k = Some (Some (main_key k)).
Proof.
  intros H. repeat (apply elem_of_cons in H as [[= -> ->]|H]; [vm_compute; reflexivity|]). by apply elem_of_nil in H.
Qed.

Lemma plain_effect (c : main_configuration) (k v : string) (kind : plain_kind) :
  (k, kind) ∈ plain_settings -> plain_value kind v ->
  exists r, change_setting (main_key k) v c = Some (Some r) /\ value_of global_values k r = Some v.
Proof.
  intros H Hv.
  repeat (apply elem_of_cons in H as [[= -> ->]|H]; cbn [plain_value] in *;
    [match type of Hv with
     | _ \/ _ => destruct Hv as [->| ->]; eexists; (split; [lazy; reflexivity|lazy; reflexivity])
     | exists n, _ /\ _ => destruct Hv as (n & Hn & ->); lazy -[as_int as_seconds pretty i32 Z.le Z.lt];
         rewrite ?number_printed, ?seconds_printed by exact Hn;
         eexists; (split; [reflexivity|lazy -[pretty i32]; rewrite ?i32_small by (clear -Hn; lia); reflexivity])
     end|]).
  by apply elem_of_nil in H.
Qed.

Lemma plain_shown (k : string) (kind : plain_kind) (c1 c2 : main_configuration) :
  (k, kind) ∈ plain_settings -> plain_view c1 = plain_view c2 -> value_of global_values k c1 = value_of global_values k c2.
Proof.
  intros H E. unfold plain_view in E. injection E as ?????????????????.
  repeat (apply elem_of_cons in H as [[= -> ->]|H];
    [lazy -[mc_common cf_log_connections cf_log_disconnections mc_keep_alive mc_track_prepared_statements
            mc_server_reset_query_always mc_max_retries mc_rotate_frontend_password_length mc_blocking_timeout mc_idle_timeout
            mc_rotate_frontend_password_timeout mc_max_connection_age mc_flush_timeout mc_background_interval
            mc_tls_cert_monitor_interval cf_metrics_cache_max_age mc_health_check_period mc_health_check_timeout
            to_bool to_int i32 pretty]; congruence|]).
  apply elem_of_nil in H as [].
Qed.

(** A request to set a value shows what was asked for.  For every setting that the checks
    leave alone, and every value as it is printed (a flag, a number, a number of seconds), a
    request that is applied without a restart answers with the value that was set before and
    with the value of the request, and that is what the running configuration then shows. *)
Theorem conf_set_shows (sys : system) (tls_valid : main_configuration -> bool) (k v : string) (kind : plain_kind)
  (c c' : main_configuration) (Hk : (k, kind) ∈ plain_settings) (Hv : plain_value kind v)
  (Hset : (conf_set sys tls_valid k v c).1 = SetDone c') :
  write_config_value c' (main_key k) = Some v
  /\ (conf_set sys tls_valid k v c).2 = Some (ResponseSuccess k (shown (write_config_value c (main_key k))) v).
Proof.
  unfold conf_set in *. rewrite (plain_key c k kind Hk) in *. cbv zeta in *.
  destruct (apply_configuration sys tls_valid (main_key k) v c) as [| |d| |] eqn:Ea; cbn [fst snd] in *; try discriminate.
  injection Hset as ->. unfold apply_configuration in Ea. destruct (plain_effect c k v kind Hk Hv) as (r & Er & Hr).
  rewrite Er in Ea. destruct (validate_configuration _ _ _ _) as [r1|] eqn:Ev; [|discriminate].
  destruct (negb _); [discriminate|]. destruct (validate_limits r1) as [r2|] eqn:El; [|discriminate].
  destruct (transfer_configuration _ _ _ _) as [| |d b| |] eqn:Et; try discriminate. injection Ea as ->.
  pose proof (transfer_plain _ _ _ _ _ _ _ _ Ev El Et) as Hp.
  assert (write_config_value c' (main_key k) = Some v) as Hw.
  { change (value_of global_values k c' = Some v). rewrite (plain_shown k kind c' r Hk Hp). exact Hr. }
  rewrite Hw. split; reflexivity.
Qed.

Lemma conf_set_shows_witness :
  (conf_set system0 (fun _ => true) "blocking_timeout" "90" (start0 "")).2 = Some (ResponseSuccess "blocking_timeout" "30" "90").
Proof.
  refine (proj2 (conf_set_shows system0 (fun _ => true) "blocking_timeout" "90" Seconds (start0 "")
    (match (conf_set system0 (fun _ => true) "blocking_timeout" "90" (start0 "")).1 with SetDone c => c | _ => init_configuration end)
    _ _ _)).
  - apply list_elem_of_lookup. by exists 7%nat.
  - exists 90. split; [lia|reflexivity].
  - vm_compute. reflexivity.
Defined.

(** ** What a request loses *)

(** The counters of the rules are zero after every request that is applied, as after a
    reload. *)
Lemma conf_set_forgets_counters (sys : system) (tls_valid : main_configuration -> bool) (k v : string) (c c' : main_configuration) :
  (conf_set sys tls_valid k v c).1 = SetDone c' ->
  forall l, l ∈ mc_limits c' -> le_active_connections l = 0 /\ le_backend_connections l = 0.
Proof.
  unfold conf_set. intros H. destruct (is_valid_config_key c k) as [[ki|]|]; [|discriminate..]. cbv zeta in H.
  destruct (apply_configuration sys tls_valid ki v c) as [| |d| |] eqn:Ea; try discriminate. injection H as ->.
  unfold apply_configuration in Ea. destruct (change_setting ki v c) as [[r|]|]; try discriminate.
  destruct (validate_configuration _ _ _ _) as [r1|]; [|discriminate]. destruct (negb _); [discriminate|].
  destruct (validate_limits r1) as [r2|]; [|discriminate].
  destruct (transfer_configuration sys tls_valid (init_pidfile c) r2) as [| |d b| |] eqn:Et; try discriminate. injection Ea as ->.
  unfold transfer_configuration in Et. destruct (check_restart_required _ _ _); [discriminate|].
  destruct (_ && _); [discriminate|]. injection Et as <- _.
  intros l Hl. cbn in Hl. apply list_elem_of_fmap in Hl as (l' & -> & _). done.
Qed.

(** A request to change the primary is answered with success, and changes nothing: the
    transfer keeps the state of a server that stays. *)
Lemma conf_set_primary_ignored :
  let r := conf_set system0 (fun _ => true) "server.first.primary" "off" (start0 "") in
  r.2 = Some (ResponseSuccess "server.first.primary" "on" "on").
Proof. by vm_compute. Qed.

(** A key of a host-based rule that does not exist is answered with success. *)
Lemma conf_set_unknown_hba_key :
  (conf_set system0 (fun _ => true) "hba.all.nosuchkey" "x" (start0 "")).2
  = Some (ResponseSuccess "hba.all.nosuchkey" "<unknown>" "<unknown>").
Proof. by vm_compute. Qed.

(** Settings that [pgagroal_write_config_value] does not know are set and not shown. *)
Lemma conf_set_not_shown :
  (conf_set system0 (fun _ => true) "disconnect_client_force" "on" (start0 "")).2
  = Some (ResponseSuccess "disconnect_client_force" "<unknown>" "<unknown>").
Proof. by vm_compute. Qed.

(** The setting of a server without a server goes through a NULL pointer, and a part of a key
    with 128 characters is written behind its field. *)
Lemma conf_set_undefined :
  (conf_set system0 (fun _ => true) "primary" "on" (start0 "")).1 = SetUndefined
  /\ (conf_set system0 (fun _ => true) (String.concat "" (repeat "x" 128)) "on" (start0 "")).1 = SetUndefined.
Proof. by vm_compute. Qed.

(** TLS files that are not valid end the child that serves the request, and stay in the
    shared configuration. *)
Lemma conf_set_bad_tls_stays :
  let c := start0 ("tls = on" +:+ nl +:+ "pipeline = session" +:+ nl) in
  match conf_set system0 (fun c => streq (cf_tls_cert_file (mc_common c)) "") "tls_cert_file" "/nosuchfile" c with
  | (SetExit c', None) => cf_tls_cert_file (mc_common c) = "" /\ cf_tls_cert_file (mc_common c') = "/nosuchfile"
  | _ => False
  end.
Proof. by vm_compute. Qed.
