(* ===== verification/Compress.v ===== *)
(** * Compression ([gzip_compression.c], [zstandard_compression.c], [lz4_compression.c],
      [bzip2_compression.c])

    Strings are compressed into buffers and back for the management protocol.  The
    compression libraries are a record of functions; the sizes of the buffers, the loops
    that let them grow and the end of the string are those of the code.  A result is
    [Undefined] when memory outside a buffer, or memory that was not written, is part of the
    string, and [Running] when a loop has used up its fuel. *)

From S2P Require Import Prelude Utf8 Wire Frames Message Scram.

Local Open Scope Z_scope.

Definition BUFFER_LENGTH : nat := Z.to_nat 8192.

(** ** The libraries *)

(** What [deflate] and [inflate] answer. *)
Inductive z_status := Z_OK | Z_BUF_ERROR | Z_STREAM_END | Z_FAILED.

(** What [BZ2_bzBuffToBuffDecompress] answers. *)
Inductive bz_status := BZ_OK | BZ_OUTBUFF_FULL | BZ_FAILED.

(** [ZSTD_getFrameContentSize]. *)
Inductive zstd_size := CONTENTSIZE_ERROR | CONTENTSIZE_UNKNOWN | CONTENTSIZE (n : nat).

(** A stream of zlib is a state; a call gets the room that is left and writes some bytes.
    The others work on whole buffers: they get the input and the size of the output, and
    answer what they wrote. *)
Record libraries := Libraries {
  z_stream : Type;
  deflate_init : list Z -> option z_stream;
  deflate : z_stream -> nat -> z_status * list Z * z_stream;
  inflate_init : list Z -> option z_stream;
  inflate : z_stream -> nat -> z_status * list Z * z_stream;
  zstd_compress : list Z -> option (list Z);
  zstd_content_size : list Z -> zstd_size;
  zstd_decompress : list Z -> nat -> option (list Z);
  lz4_compress : list Z -> option (list Z);
  lz4_decompress : list Z -> nat -> option (list Z);
  bz_compress : list Z -> nat -> option (list Z);
  bz_decompress : list Z -> nat -> bz_status * list Z }.

Section compress.
Context (B : libraries).

(** The loop of [pgagroal_gzip_string] and [pgagroal_gunzip_string]: the buffer is doubled
    when it is full. *)
Fixpoint stream_loop (step : z_stream B -> nat -> z_status * list Z * z_stream B) (fuel : nat) (st : z_stream B)
  (chunk_size : nat) (out : list Z) : result (option (list Z)) :=
  match fuel with
  | O => Running
  | S fuel =>
      let chunk_size := if (chunk_size <=? length out)%nat then (chunk_size * 2)%nat else chunk_size in
      let '(ret, bs, st) := step st (chunk_size - length out)%nat in
      let out := out ++ bs in
      match ret with
      | Z_OK | Z_BUF_ERROR => stream_loop step fuel st chunk_size out
      | Z_STREAM_END => Done (Some out)
      | Z_FAILED => Done None
      end
  end.

(** [pgagroal_gzip_string]. *)
Definition gzip_string (fuel : nat) (s : list Z) : result (option (list Z)) :=
  match deflate_init B s with
  | None => Done None
  | Some st => stream_loop (deflate B) fuel st BUFFER_LENGTH []
  end.

(** [pgagroal_gunzip_string]: a zero byte is stored behind the output. *)
Definition gunzip_string (fuel : nat) (compressed : list Z) : result (option (list Z)) :=
  match inflate_init B compressed with
  | None => Done None
  | Some st =>
      match stream_loop (inflate B) fuel st BUFFER_LENGTH [] with
      | Done (Some out) => Done (Some (upto_nul out))
      | r => r
      end
  end.

(** [pgagroal_zstdc_string]. *)
Definition zstdc_string (s : list Z) : result (option (list Z)) := Done (zstd_compress B s).

(** [pgagroal_zstdd_string]: the zero byte is stored at the announced size. *)
Definition zstdd_string (compressed : list Z) : result (option (list Z)) :=
  match zstd_content_size B compressed with
  | CONTENTSIZE_ERROR | CONTENTSIZE_UNKNOWN => Done None
  | CONTENTSIZE n =>
      match zstd_decompress B compressed n with
      | None => Done None
      | Some out =>
          if (length out =? n)%nat || existsb (Z.eqb 0) out then Done (Some (upto_nul out)) else Undefined
      end
  end.

(** [pgagroal_lz4c_string]. *)
Definition lz4c_string (s : list Z) : result (option (list Z)) := Done (lz4_compress B s).

(** [pgagroal_lz4d_string]: room for four times the input, and no room for the zero byte. *)
Definition lz4d_string (compressed : list Z) : result (option (list Z)) :=
  let max_decompressed_size := (length compressed * 4)%nat in
  match lz4_decompress B compressed max_decompressed_size with
  | None => Done None
  | Some out => if (length out <? max_decompressed_size)%nat then Done (Some (upto_nul out)) else Undefined
  end.

(** [pgagroal_bzip2_string]. *)
Definition bzip2_string (s : list Z) : result (option (list Z)) :=
  Done (bz_compress B s (length s + length s / 100 + 600)%nat).

(** The buffer of [pgagroal_bunzip2_string] is not ended by a zero byte: it is a string
    only when there is one in the output. *)
Definition unterminated (out : list Z) : result (option (list Z)) :=
  if existsb (Z.eqb 0) out then Done (Some (upto_nul out)) else Undefined.

(** [pgagroal_bunzip2_string]: room for ten times the input, then for twenty times. *)
Definition bunzip2_string (compressed : list Z) : result (option (list Z)) :=
  let estimated_size := u32 (len compressed * 10) in
  match bz_decompress B compressed (Z.to_nat estimated_size) with
  | (BZ_OK, out) => unterminated out
  | (BZ_FAILED, _) => Done None
  | (BZ_OUTBUFF_FULL, _) =>
      match bz_decompress B compressed (Z.to_nat (u32 (estimated_size * 2))) with
      | (BZ_OK, out) => unterminated out
      | _ => Done None
      end
  end.
End compress.
