(* ===== verification/CompressFacts.v ===== *)
(** * Facts about compression

    Which strings come back: all of them with gzip and zstd, those that do not shrink to a
    quarter with LZ4, and none with bzip2. *)

From S2P Require Import Prelude Utf8 Wire Frames Message Scram Compress.

Local Open Scope Z_scope.

(** A call with room writes the next pending bytes, as many as fit or fewer; it answers the
    end of the stream when none are left, and otherwise it has written something. *)
Definition stream_progress {S} (step : S -> nat -> z_status * list Z * S) (pending : S -> list Z) : Prop :=
  forall st n, (0 < n)%nat ->
    let '(ret, bs, st') := step st n in
    pending st = bs ++ pending st' /\ (length bs <= n)%nat /\
    match ret with
    | Z_STREAM_END => pending st' = []
    | Z_OK | Z_BUF_ERROR => bs <> []
    | Z_FAILED => False
    end.

(** Strings of at most 64 megabytes: all libraries take them, and no size overflows. *)
Definition small (s : list Z) : Prop := len s <= 0x4000000.

(** What is documented of the libraries, when memory suffices. *)
Class library_laws (B : libraries) := {
  gz : list Z -> list Z;
  deflate_pending : z_stream B -> list Z;
  inflate_pending : z_stream B -> list Z;
  law_deflate_init (s : list Z) : small s -> exists st, deflate_init B s = Some st /\ deflate_pending st = gz s;
  law_deflate : stream_progress (deflate B) deflate_pending;
  law_inflate_init (s : list Z) : small s -> exists st, inflate_init B (gz s) = Some st /\ inflate_pending st = s;
  law_inflate : stream_progress (inflate B) inflate_pending;
  law_gz_bytes (s : list Z) : bytes_ok s -> bytes_ok (gz s);
  law_zstd (s : list Z) : small s ->
    exists c, zstd_compress B s = Some c /\ (bytes_ok s -> bytes_ok c) /\ zstd_content_size B c = CONTENTSIZE (length s) /\
      zstd_decompress B c (length s) = Some s;
  law_lz4 (s : list Z) : small s ->
    exists c, lz4_compress B s = Some c /\ (bytes_ok s -> bytes_ok c) /\
      forall n, lz4_decompress B c n = if (length s <=? n)%nat then Some s else None;
  law_bz (s : list Z) : small s ->
    exists c, bz_compress B s (length s + length s / 100 + 600) = Some c /\ (length c <= length s + length s / 100 + 600)%nat /\
      forall n, bz_decompress B c n = if (length s <=? n)%nat then (BZ_OK, s) else (BZ_OUTBUFF_FULL, []) }.

Section facts.
Context (B : libraries) {Laws : library_laws B}.

(** The loop writes everything that is pending, within as many calls as there are bytes and
    one more. *)
Lemma stream_loop_spec (step : z_stream B -> nat -> z_status * list Z * z_stream B) (pending : z_stream B -> list Z)
  (fuel : nat) (st : z_stream B) (chunk : nat) (out : list Z) :
  stream_progress step pending -> (0 < chunk)%nat -> (length out <= chunk)%nat -> (length (pending st) < fuel)%nat ->
  stream_loop B step fuel st chunk out = Done (Some (out ++ pending st)).
Proof.
  intros Hstep. revert st chunk out. induction fuel as [|fuel IH]; intros st chunk out Hc Ho Hf; [lia|].
  cbn [stream_loop]. set (chunk' := if (chunk <=? length out)%nat then _ else chunk).
  assert (Hc' : (length out < chunk')%nat) by (subst chunk'; destruct (Nat.leb_spec chunk (length out)); lia).
  clearbody chunk'. specialize (Hstep st (chunk' - length out)%nat ltac:(lia)).
  destruct (step st _) as [[ret bs] st']. destruct Hstep as (Hp & Hl & Hr). rewrite Hp in Hf |- *. rewrite length_app in Hf.
  assert (Hn : bs <> [] -> stream_loop B step fuel st' chunk' (out ++ bs) = Done (Some (out ++ bs ++ pending st'))).
  { intros Hb. rewrite IH; [by rewrite <- app_assoc|lia|rewrite length_app; lia|]. destruct bs; [done|]. simpl in Hf. lia. }
  destruct ret; [by apply Hn|by apply Hn| |done]. by rewrite Hr, app_nil_r.
Qed.

Lemma upto_nul_text (s : list Z) : text s -> upto_nul s = s.
Proof.
  induction 1 as [|b bs Hb _ IH]; [done|]. cbn [upto_nul]. fold (upto_nul bs).
  rewrite (proj2 (Z.eqb_neq _ _)) by lia. by f_equal.
Qed.

Lemma text_no_nul (s : list Z) : text s -> existsb (Z.eqb 0) s = false.
Proof. induction 1 as [|b bs Hb _ IH]; [done|]. cbn [existsb]. rewrite IH, (proj2 (Z.eqb_neq _ _)) by lia. done. Qed.

Lemma gzip_reads_back (s : list Z) (f f' : nat) :
  text s -> small s -> (length (gz (B := B) s) < f)%nat -> (length s < f')%nat ->
  gzip_string B f s = Done (Some (gz (B := B) s)) /\ gunzip_string B f' (gz (B := B) s) = Done (Some s).
Proof.
  intros Ht Hs Hf Hf'. unfold gzip_string, gunzip_string.
  destruct (law_deflate_init s Hs) as (d & -> & Hd). destruct (law_inflate_init s Hs) as (i & -> & Hi).
  rewrite (stream_loop_spec (deflate B) deflate_pending); [|exact law_deflate|unfold BUFFER_LENGTH; lia|apply Nat.le_0_l|by rewrite Hd].
  rewrite (stream_loop_spec (inflate B) inflate_pending); [|exact law_inflate|unfold BUFFER_LENGTH; lia|apply Nat.le_0_l|by rewrite Hi].
  by rewrite Hd, Hi, !app_nil_l, upto_nul_text.
Qed.

Lemma zstd_reads_back (s : list Z) :
  text s -> small s -> exists c, zstdc_string B s = Done (Some c) /\ zstdd_string B c = Done (Some s).
Proof.
  intros Ht Hs. destruct (law_zstd s Hs) as (c & Hc & _ & Hn & Hd). exists c. unfold zstdc_string, zstdd_string.
  rewrite Hc, Hn, Hd, Nat.eqb_refl. cbn [orb]. by rewrite upto_nul_text.
Qed.

Lemma lz4_reads_back (s : list Z) :
  text s -> small s ->
  exists c, lz4c_string B s = Done (Some c) /\
    lz4d_string B c = if (length s <? length c * 4)%nat then Done (Some s)
                      else if (length s =? length c * 4)%nat then Undefined else Done None.
Proof.
  intros Ht Hs. destruct (law_lz4 s Hs) as (c & Hc & _ & Hd). exists c. unfold lz4c_string, lz4d_string.
  rewrite Hc, Hd. split; [done|]. destruct (Nat.leb_spec (length s) (length c * 4)) as [Hl|Hl].
  - destruct (Nat.ltb_spec (length s) (length c * 4)) as [Hl'|Hl']; [by rewrite upto_nul_text|].
    by rewrite (proj2 (Nat.eqb_eq _ _)) by lia.
  - rewrite (proj2 (Nat.ltb_ge _ _)), (proj2 (Nat.eqb_neq _ _)) by lia. done.
Qed.

Lemma bzip2_lost (s : list Z) :
  text s -> small s ->
  exists c, bzip2_string B s = Done (Some c) /\
    bunzip2_string B c = if (length s <=? length c * 20)%nat then Undefined else Done None.
Proof.
  intros Ht Hs. destruct (law_bz s Hs) as (c & Hc & Hl & Hd). exists c. unfold bzip2_string, bunzip2_string, unterminated.
  pose proof (text_no_nul s Ht) as Hz.
  rewrite Hc, !Hd. split; [done|]. unfold small, len in *.
  assert (length s / 100 <= length s)%nat by (apply Nat.Div0.div_le_upper_bound; lia).
  assert (Z.of_nat (length c) * 20 < 2 ^ 32) by lia.
  rewrite (wrapu_id 32 (_ * 10)) by (unfold in_u; lia). rewrite (wrapu_id 32 (_ * 2)) by (unfold in_u; lia).
  destruct (Nat.leb_spec (length s) (Z.to_nat (Z.of_nat (length c) * 10))) as [H1|H1];
    [rewrite Hz, (proj2 (Nat.leb_le _ _)) by lia; done|].
  destruct (Nat.leb_spec (length s) (Z.to_nat (Z.of_nat (length c) * 10 * 2))) as [H2|H2].
  - rewrite Hz, (proj2 (Nat.leb_le _ _)) by lia. done.
  - by rewrite (proj2 (Nat.leb_gt _ _)) by lia.
Qed.

(** A string that is compressed comes back with gzip and with zstd, whose loops end.  With
    LZ4 it comes back when it is shorter than four times its compressed form; at exactly
    four times the zero byte is stored behind the buffer, and above that the call fails.
    With bzip2 no string comes back: the output has no zero byte at its end, and above
    twenty times the compressed form the call fails. *)
Theorem compressed_strings (s : list Z) (Ht : text s) (Hs : small s) :
  (forall f f', (length (gz (B := B) s) < f)%nat -> (length s < f')%nat ->
     exists c, gzip_string B f s = Done (Some c) /\ gunzip_string B f' c = Done (Some s)) /\
  (exists c, zstdc_string B s = Done (Some c) /\ zstdd_string B c = Done (Some s)) /\
  (exists c, lz4c_string B s = Done (Some c) /\
     lz4d_string B c = if (length s <? length c * 4)%nat then Done (Some s)
                       else if (length s =? length c * 4)%nat then Undefined else Done None) /\
  (exists c, bzip2_string B s = Done (Some c) /\
     bunzip2_string B c = if (length s <=? length c * 20)%nat then Undefined else Done None).
Proof.
  split_and!.
  - intros f f' Hf Hf'. exists (gz s). by apply gzip_reads_back.
  - by apply zstd_reads_back.
  - by apply lz4_reads_back.
  - by apply bzip2_lost.
Qed.

(** A compressed text that ends too early leaves the loop of [pgagroal_gunzip_string] going round:
    without further input [inflate] answers [Z_BUF_ERROR] and writes nothing. *)
Lemma gunzip_truncated_hangs (compressed : list Z) (st : z_stream B) (fuel : nat) :
  inflate_init B compressed = Some st -> (forall n, inflate B st n = (Z_BUF_ERROR, [], st)) ->
  gunzip_string B fuel compressed = Running.
Proof.
  intros Hi Hstuck. unfold gunzip_string. rewrite Hi.
  assert (H : forall chunk out, stream_loop B (inflate B) fuel st chunk out = Running).
  { induction fuel as [|fuel IH]; intros chunk out; [done|]. cbn [stream_loop]. rewrite Hstuck. apply IH. }
  by rewrite H.
Qed.
End facts.

(** ** A small instance: every library copies. *)

Definition toy_step (st : list Z) (n : nat) : z_status * list Z * list Z :=
  if (length st <=? n)%nat then (Z_STREAM_END, st, []) else (Z_OK, take n st, drop n st).

Definition toy_libraries : libraries :=
  Libraries (list Z) Some toy_step Some toy_step Some (fun c => CONTENTSIZE (length c)) (fun c n => Some c)
    Some (fun c n => if (length c <=? n)%nat then Some c else None)
    (fun s _ => Some s) (fun c n => if (length c <=? n)%nat then (BZ_OK, c) else (BZ_OUTBUFF_FULL, [])).

Lemma toy_progress : stream_progress toy_step id.
Proof.
  intros st n Hn. unfold toy_step. destruct (Nat.leb_spec (length st) n) as [Hl|Hl]; simpl.
  - by rewrite app_nil_r.
  - rewrite take_drop, length_take. split_and!; [done|lia|]. destruct st, n; simpl in *; try done; lia.
Qed.

#[export] Instance toy_library_laws : library_laws toy_libraries.
Proof.
  refine {| gz := id; deflate_pending := id : z_stream toy_libraries -> list Z;
            inflate_pending := id : z_stream toy_libraries -> list Z |}; try exact toy_progress;
    intros s Hs; try done; eexists; split_and!; try done. simpl. lia.
Defined.

Lemma compressed_strings_witness :
  (exists c, gzip_string toy_libraries 3 (str "{}") = Done (Some c) /\ gunzip_string toy_libraries 3 c = Done (Some (str "{}"))) /\
  (exists c, lz4c_string toy_libraries (str "{}") = Done (Some c) /\ lz4d_string toy_libraries c = Done (Some (str "{}"))).
Proof.
  destruct (compressed_strings toy_libraries (str "{}") ltac:(repeat constructor) ltac:(unfold small; vm_compute; discriminate))
    as (Hg & _ & (c & Hc & Hd) & _).
  split; [apply Hg; vm_compute; repeat constructor|]. exists c. injection Hc as <-. split; [reflexivity|exact Hd].
Defined.
