(* ===== verification/Aes.v ===== *)
(** * Encryption ([libpgagroal/aes.c], [pgagroal_get_master_key] of [security.c])

    The files with passwords and the requests of the management protocol are encrypted with
    a key that is derived from the master key.  The derivation is slow, so that its first
    step is kept in a cache per thread; the cache is the state of this file.  The functions
    of OpenSSL are a record of functions.  Allocation does not fail, and wiping memory is
    not modelled. *)

From Stdlib Require Import Ascii.
From S2P Require Import Prelude Utf8 Wire Frames Message Text Config ConfText Scram.

Local Open Scope Z_scope.

(** ** Constants *)

Definition PBKDF2_ITERATIONS : Z := 600000.
Definition PBKDF2_SALT_LENGTH : nat := 16.
Definition PBKDF2_IV_LENGTH : nat := 12.
Definition GCM_TAG_LENGTH : nat := 16.
Definition ENCRYPTION_AES_256_GCM : Z := 1.
Definition ENCRYPTION_AES_192_GCM : Z := 2.
Definition ENCRYPTION_AES_128_GCM : Z := 3.

(** [EVP_MAX_KEY_LENGTH], [EVP_MAX_IV_LENGTH] and [INT_MAX] of the system. *)
Definition EVP_MAX_KEY_LENGTH : nat := 64.
Definition EVP_MAX_IV_LENGTH : nat := 16.
Definition INT_MAX : Z := 2 ^ 31 - 1.

(** ** OpenSSL *)

(** The functions that are called.  [pbkdf2] answers its status and what is in the buffer
    afterwards.  [gcm_encrypt] and [gcm_decrypt] are the calls from the initialisation of a
    context to its end, with the bytes of the update, of the final call and the tag;
    the order of the calls is fixed, and each failure leads to the same error. *)
Record evp := Evp {
  evp_sha256 : list Z -> option (list Z);
  pbkdf2 : list Z -> list Z -> Z -> nat -> bool * list Z;
  iv_length : Z -> nat;
  gcm_encrypt : Z -> list Z -> list Z -> list Z -> option (list Z * list Z * list Z);
  gcm_decrypt : Z -> list Z -> list Z -> list Z -> list Z -> option (list Z * list Z) }.

(** ** Modes *)

(** [get_cipher]: whether there is a cipher for a mode. *)
Definition get_cipher (mode : Z) : bool :=
  (mode =? ENCRYPTION_AES_256_GCM) || (mode =? ENCRYPTION_AES_192_GCM) || (mode =? ENCRYPTION_AES_128_GCM).

Definition get_key_length (mode : Z) : nat :=
  if mode =? ENCRYPTION_AES_192_GCM then 24 else if mode =? ENCRYPTION_AES_128_GCM then 16 else 32.

Definition is_gcm (mode : Z) : bool :=
  (mode =? ENCRYPTION_AES_256_GCM) || (mode =? ENCRYPTION_AES_192_GCM) || (mode =? ENCRYPTION_AES_128_GCM).

Definition get_tag_length (mode : Z) : nat := if is_gcm mode then GCM_TAG_LENGTH else 0.

(** ** The cache of the derived key *)

(** [master_key_cache], [cached_password_hash] with its length, [master_key_cached], and
    [master_salt_cache] with [master_salt_set]. *)
Record cache := Cache {
  master_key_cache : list Z;
  cached_password_hash : list Z;
  master_key_cached : bool;
  master_salt : option (list Z) }.

Definition empty_cache : cache := Cache (replicate EVP_MAX_KEY_LENGTH 0) [] false None.

(** [pgagroal_clear_aes_cache]. *)
Definition clear_aes_cache (c : cache) : cache :=
  Cache (replicate EVP_MAX_KEY_LENGTH 0) [] false (master_salt c).

Definition with_salt (s : option (list Z)) (c : cache) : cache :=
  Cache (master_key_cache c) (cached_password_hash c) (master_key_cached c) s.

(** [pgagroal_set_master_salt]. *)
Definition set_master_salt (salt : option (list Z)) (c : cache) : cache :=
  let new := take PBKDF2_SALT_LENGTH <$> salt in
  if decide (new = master_salt c) then c else with_salt new (clear_aes_cache c).

(** [memcpy] into a zeroed array of [n] bytes. *)
Definition into_array (n : nat) (bs : list Z) : list Z := bs ++ replicate (n - length bs) 0.

Section aes.
Context (E : evp).

(** The first step of [derive_key_iv]: the key for the master password, from the cache if
    it is the one that was used last. *)
Definition cached_key (password ms hash : list Z) (c : cache) : bool * cache :=
  if master_key_cached c && bool_decide (hash = cached_password_hash c) then (true, c)
  else
    let '(ok, key) := pbkdf2 E password ms PBKDF2_ITERATIONS EVP_MAX_KEY_LENGTH in
    if ok then (true, Cache key hash true (master_salt c))
    else (false, Cache key (cached_password_hash c) (master_key_cached c) (master_salt c)).

(** The second step: key and initialisation vector for a salt, in their arrays. *)
Definition session_key (mode : Z) (master salt : list Z) : option (list Z * list Z) :=
  let kl := get_key_length mode in
  let il := iv_length E mode in
  let '(ok, derived) := pbkdf2 E master salt 1 (kl + il) in
  if ok then Some (into_array EVP_MAX_KEY_LENGTH (take kl derived), into_array EVP_MAX_IV_LENGTH (take il (drop kl derived)))
  else None.

(** [derive_key_iv]; the password is a C string. *)
Definition derive_key_iv (password salt : list Z) (mode : Z) (c : cache) : option (list Z * list Z) * cache :=
  if MAX_PASSWORD_LENGTH <=? len password then (None, c)
  else
    match master_salt c with
    | None => (None, c)
    | Some ms =>
        if negb (get_cipher mode) then (None, c)
        else
          match evp_sha256 E password with
          | None => (None, c)
          | Some hash =>
              let '(ok, c) := cached_key password ms hash c in
              (if ok then session_key mode (master_key_cache c) salt else None, c)
          end
    end.

(** ** Strings *)

(** [aes_encrypt]: the bytes of the cipher text and the tag. *)
Definition aes_encrypt (plaintext key iv : list Z) (mode : Z) : option (list Z) :=
  if negb (get_cipher mode) then None
  else
    '(ct, fin, tag) ← gcm_encrypt E mode key iv plaintext;
    Some (ct ++ fin ++ (if is_gcm mode then tag else [])).

(** [aes_decrypt]: the bytes in front of the zero that is appended. *)
Definition aes_decrypt (ciphertext key iv : list Z) (mode : Z) : option (list Z) :=
  let tl := get_tag_length mode in
  if negb (get_cipher mode) then None
  else if is_gcm mode && (length ciphertext <? tl)%nat then None
  else
    let n := (length ciphertext - tl)%nat in
    '(pt, fin) ← gcm_decrypt E mode key iv (take n ciphertext) (drop n ciphertext);
    Some (pt ++ fin).

(** [pgagroal_encrypt]; [salt] is what [RAND_bytes] answers. *)
Definition encrypt (salt : option (list Z)) (plaintext password : list Z) (mode : Z) (c : cache)
  : option (list Z) * cache :=
  match salt with
  | None => (None, c)
  | Some salt =>
      let '(k, c) := derive_key_iv password salt mode c in
      ('(key, iv) ← k;
       encrypted ← aes_encrypt plaintext key iv mode;
       Some (salt ++ take PBKDF2_IV_LENGTH iv ++ encrypted), c)
  end.

(** [pgagroal_decrypt]: the plain text is a C string. *)
Definition decrypt (ciphertext password : list Z) (mode : Z) (c : cache) : option (list Z) * cache :=
  if (length ciphertext <? PBKDF2_SALT_LENGTH + PBKDF2_IV_LENGTH + get_tag_length mode)%nat then (None, c)
  else
    let salt := take PBKDF2_SALT_LENGTH ciphertext in
    let iv := take PBKDF2_IV_LENGTH (drop PBKDF2_SALT_LENGTH ciphertext) in
    let '(k, c) := derive_key_iv password salt mode c in
    ('(key, _) ← k;
     pt ← aes_decrypt (drop (PBKDF2_SALT_LENGTH + PBKDF2_IV_LENGTH) ciphertext) key
            (into_array EVP_MAX_IV_LENGTH iv) mode;
     Some (upto_nul pt), c).

(** ** The master key *)

(** What [pgagroal_get_master_key] finds: the home directory, the modes of the directory
    and of the file ([None] when [stat] fails), and the text of the file. *)
Record key_file := KeyFile {
  kf_home : option string;
  kf_dir_mode : option Z;
  kf_key_mode : option Z;
  kf_text : option string }.

Definition S_IFMT : Z := 0xF000.
Definition S_IFDIR : Z := 0x4000.
Definition S_IFREG : Z := 0x8000.

(** Of the right kind, with one of the rights [rights] for its owner and none for others. *)
Definition private_mode (kind rights mode : Z) : bool :=
  (Z.land mode S_IFMT =? kind) && negb (Z.land mode rights =? 0)
  && (Z.land mode 0x38 =? 0) && (Z.land mode 0x7 =? 0).

Definition usable_key_file (kf : key_file) : option string :=
  _ ← kf_home kf;
  d ← kf_dir_mode kf;
  if negb (private_mode S_IFDIR 0x1C0 d) then None
  else
    f ← kf_key_mode kf;
    if negb (private_mode S_IFREG 0x180 f) then None else kf_text kf.

Context (base64_decode : list Z -> list Z).

Definition without_eol (line : string) : string := (span (fun ch => negb (is_eol ch)) line).1.

(** [pgagroal_get_master_key]: the key as a C string, and the salt is set or removed. *)
Definition get_master_key (kf : key_file) (c : cache) : option (list Z) * cache :=
  let lines := default [] (fgets_lines (MISC_LENGTH - 1) (MISC_LENGTH - 1) "" <$> usable_key_file kf) in
  match lines with
  | l1 :: l2 :: _ =>
      let mk := base64_decode (str (without_eol l1)) in
      let salt := base64_decode (str (without_eol l2)) in
      if (length mk =? 0)%nat then (None, set_master_salt None c)
      else if (length salt =? PBKDF2_SALT_LENGTH)%nat then (Some (upto_nul mk), set_master_salt (Some salt) c)
      else (None, set_master_salt None c)
  | _ => (None, set_master_salt None c)
  end.

(** ** Buffers *)

(** [pgagroal_encrypt_buffer]. *)
Definition encrypt_buffer (kf : key_file) (salt : option (list Z)) (origin : list Z) (mode : Z) (c : cache)
  : option (list Z) * cache :=
  if negb (get_cipher mode) then (None, c)
  else
    let '(mk, c) := get_master_key kf c in
    match mk, salt with
    | Some mk, Some salt =>
        let '(k, c) := derive_key_iv mk salt mode c in
        ('(key, iv) ← k;
         if INT_MAX <? len origin then None
         else
           '(ct, fin, tag) ← gcm_encrypt E mode key iv origin;
           Some (salt ++ take PBKDF2_IV_LENGTH iv ++ ct ++ fin ++ (if is_gcm mode then tag else [])), c)
    | _, _ => (None, c)
    end.

(** [pgagroal_decrypt_buffer]; a zero byte follows the result. *)
Definition decrypt_buffer (kf : key_file) (origin : list Z) (mode : Z) (c : cache) : option (list Z) * cache :=
  if negb (get_cipher mode) then (None, c)
  else
    let '(mk, c) := get_master_key kf c in
    match mk with
    | None => (None, c)
    | Some mk =>
        let tl := get_tag_length mode in
        let head := (PBKDF2_SALT_LENGTH + PBKDF2_IV_LENGTH)%nat in
        if (length origin <? head + tl)%nat then (None, c)
        else
          let salt := take PBKDF2_SALT_LENGTH origin in
          let iv := take PBKDF2_IV_LENGTH (drop PBKDF2_SALT_LENGTH origin) in
          let input := take (length origin - head - tl) (drop head origin) in
          let '(k, c) := derive_key_iv mk salt mode c in
          ('(key, _) ← k;
           if INT_MAX <? len input then None
           else
             '(pt, fin) ← gcm_decrypt E mode key (into_array EVP_MAX_IV_LENGTH iv) input (drop (length origin - tl) origin);
             Some (pt ++ fin), c)
    end.
End aes.
