(* ===== verification/AesFacts.v ===== *)
(** * Facts about encryption

    The cache of the derived key cannot be seen: from every state that the code can reach
    the key is the one that is computed without it.  So what one process encrypts, with
    whatever it did before, another one decrypts. *)

From Stdlib Require Import Ascii.
From S2P Require Import Prelude Utf8 Wire Frames Message Text Config ConfText Scram Aes.

Local Open Scope Z_scope.

(** What is documented of the functions of OpenSSL, when memory suffices: the digest and the
    derivation answer, a derived key is as long as asked for, the initialisation vector of
    GCM has 12 bytes, GCM keeps the length, has nothing left for the final call and a tag of
    16 bytes, and decryption with the tag gives the plain text; all of these are bytes. *)
Class evp_laws (E : evp) : Prop := {
  law_digest (p : list Z) : is_Some (evp_sha256 E p);
  law_pbkdf2 (p s : list Z) (n : Z) (l : nat) : 
    (pbkdf2 E p s n l).1 = true /\ length (pbkdf2 E p s n l).2 = l /\ bytes_ok (pbkdf2 E p s n l).2;
  law_iv (mode : Z) : get_cipher mode = true -> iv_length E mode = PBKDF2_IV_LENGTH;
  law_gcm (mode : Z) (key iv pt : list Z) : get_cipher mode = true ->
    exists ct tag, gcm_encrypt E mode key iv pt = Some (ct, [], tag) /\ length ct = length pt /\
      length tag = GCM_TAG_LENGTH /\ gcm_decrypt E mode key iv ct tag = Some (pt, []) /\ (bytes_ok pt -> bytes_ok (ct ++ tag)) }.

Section facts.
Context (E : evp) {Laws : evp_laws E} (base64_decode : list Z -> list Z).

(** The key and the vector without the cache. *)
Definition derive_plain (password ms salt : list Z) (mode : Z) : option (list Z * list Z) :=
  if MAX_PASSWORD_LENGTH <=? len password then None
  else if negb (get_cipher mode) then None
  else session_key E mode (pbkdf2 E password ms PBKDF2_ITERATIONS EVP_MAX_KEY_LENGTH).2 salt.

(** The passwords in use, of which no two have the same digest. *)
Context (P : list Z -> Prop).
Context (Hdigest : forall p q, P p -> P q -> evp_sha256 E p = evp_sha256 E q -> p = q).

(** The states of the cache in a process that uses these passwords. *)
Inductive cache_states : cache -> Prop :=
| cs_start : cache_states empty_cache
| cs_salt salt c : cache_states c -> cache_states (set_master_salt salt c)
| cs_clear c : cache_states c -> cache_states (clear_aes_cache c)
| cs_derive p salt mode c : P p -> cache_states c -> cache_states (derive_key_iv E p salt mode c).2.

(** A key in the cache belongs to the digest and the salt beside it. *)
Definition cache_sound (c : cache) : Prop :=
  master_key_cached c = true ->
  exists p ms, P p /\ master_salt c = Some ms /\ evp_sha256 E p = Some (cached_password_hash c) /\
    master_key_cache c = (pbkdf2 E p ms PBKDF2_ITERATIONS EVP_MAX_KEY_LENGTH).2.

Lemma cached_key_spec (p ms hash : list Z) (c : cache) :
  cache_sound c -> P p -> master_salt c = Some ms -> evp_sha256 E p = Some hash ->
  exists c', cached_key E p ms hash c = (true, c') /\ cache_sound c' /\ master_salt c' = Some ms /\
    master_key_cache c' = (pbkdf2 E p ms PBKDF2_ITERATIONS EVP_MAX_KEY_LENGTH).2.
Proof using Hdigest Laws.
  intros Hc Hp Hs Hh. unfold cached_key.
  destruct (master_key_cached c) eqn:Hk; [case_bool_decide as Hq|]; simpl.
  - exists c. destruct (Hc Hk) as (q & ms' & Hq' & Hms & Hd & Hkey).
    assert (p = q) as -> by (apply Hdigest; congruence).
    assert (ms' = ms) as -> by congruence. done.
  - destruct (law_pbkdf2 p ms PBKDF2_ITERATIONS EVP_MAX_KEY_LENGTH) as (Hok & _).
    destruct (pbkdf2 E p ms _ _) as [? key] eqn:Hkey; simpl in *; subst.
    eexists; split_and!; [done|intros _; exists p, ms; by rewrite Hkey|done|done].
  - destruct (law_pbkdf2 p ms PBKDF2_ITERATIONS EVP_MAX_KEY_LENGTH) as (Hok & _).
    destruct (pbkdf2 E p ms _ _) as [? key] eqn:Hkey; simpl in *; subst.
    eexists; split_and!; [done|intros _; exists p, ms; by rewrite Hkey|done|done].
Qed.

Lemma derive_spec (p salt : list Z) (mode : Z) (c : cache) :
  cache_sound c -> P p ->
  (derive_key_iv E p salt mode c).1 = (ms ← master_salt c; derive_plain p ms salt mode) /\
  cache_sound (derive_key_iv E p salt mode c).2 /\
  master_salt (derive_key_iv E p salt mode c).2 = master_salt c.
Proof using Hdigest Laws.
  intros Hc Hp. unfold derive_key_iv, derive_plain.
  destruct (MAX_PASSWORD_LENGTH <=? len p); [split_and!; [by destruct (master_salt c)|done|done]|].
  destruct (master_salt c) as [ms|] eqn:Hs; [|split_and!; done].
  destruct (get_cipher mode); simpl; [|split_and!; done].
  destruct (law_digest p) as [hash Hh]. rewrite Hh.
  destruct (cached_key_spec p ms hash c Hc Hp Hs Hh) as (c' & -> & Hc' & Hs' & Hk). simpl. by rewrite Hk.
Qed.

Lemma set_salt_sound (salt : option (list Z)) (c : cache) : cache_sound c -> cache_sound (set_master_salt salt c).
Proof. intros Hc. unfold set_master_salt. by case_decide. Qed.

Lemma set_salt_value (salt : option (list Z)) (c : cache) :
  master_salt (set_master_salt salt c) = take PBKDF2_SALT_LENGTH <$> salt.
Proof. unfold set_master_salt. by case_decide. Qed.

Lemma cache_states_sound (c : cache) : cache_states c -> cache_sound c.
Proof using Hdigest Laws.
  induction 1 as [|salt c _ IH|c _ _|p salt mode c Hp _ IH]; [done|by apply set_salt_sound|done|].
  by apply derive_spec.
Qed.

(** The key file gives the master key and the salt. *)
Definition master_of (kf : key_file) : option (list Z * list Z) :=
  match default [] (fgets_lines (MISC_LENGTH - 1) (MISC_LENGTH - 1) "" <$> usable_key_file kf) with
  | l1 :: l2 :: _ =>
      let mk := base64_decode (str (without_eol l1)) in
      let salt := base64_decode (str (without_eol l2)) in
      if (length mk =? 0)%nat then None
      else if (length salt =? PBKDF2_SALT_LENGTH)%nat then Some (upto_nul mk, salt) else None
  | _ => None
  end.

Lemma get_master_key_spec (kf : key_file) (c : cache) :
  get_master_key base64_decode kf c = (fst <$> master_of kf, set_master_salt (snd <$> master_of kf) c).
Proof.
  unfold get_master_key, master_of. destruct (default [] _) as [|l1 [|l2 ls]]; try done. simpl.
  destruct (length _ =? 0)%nat; [done|]. by destruct (length _ =? _)%nat.
Qed.

Lemma master_of_salt (kf : key_file) (mk ms : list Z) : master_of kf = Some (mk, ms) -> take PBKDF2_SALT_LENGTH ms = ms.
Proof.
  unfold master_of. destruct (default [] _) as [|l1 [|l2 ls]]; try done. simpl.
  destruct (length _ =? 0)%nat; [done|]. destruct (Nat.eqb_spec (length (base64_decode (str (without_eol l2)))) PBKDF2_SALT_LENGTH); [|done].
  intros [= _ <-]. by apply take_ge, Nat.eq_le_incl.
Qed.

(** The derivation that a call with the key file ends in. *)
Lemma derive_from_file (kf : key_file) (mk ms salt : list Z) (mode : Z) (c : cache) :
  cache_states c -> P mk -> master_of kf = Some (mk, ms) ->
  (derive_key_iv E mk salt mode (get_master_key base64_decode kf c).2).1 = derive_plain mk ms salt mode.
Proof using Hdigest Laws.
  intros Hc Hp Hk. rewrite get_master_key_spec, Hk. simpl.
  destruct (derive_spec mk salt mode (set_master_salt (Some ms) c)) as [-> _]; [|done|].
  - apply set_salt_sound, cache_states_sound, Hc.
  - rewrite set_salt_value. simpl. by rewrite (master_of_salt kf mk ms Hk).
Qed.

Lemma session_key_some (mode : Z) (master salt : list Z) :
  get_cipher mode = true ->
  exists key iv, session_key E mode master salt = Some (key, into_array EVP_MAX_IV_LENGTH iv) /\
    length iv = PBKDF2_IV_LENGTH /\ bytes_ok iv.
Proof using Laws.
  intros Hm. unfold session_key. rewrite (law_iv mode Hm).
  destruct (law_pbkdf2 master salt 1 (get_key_length mode + PBKDF2_IV_LENGTH)) as (Hok & Hl & Hb).
  destruct (pbkdf2 E master salt 1 _) as [? d]; simpl in *; subst.
  eexists _, _; split_and!; [done|rewrite length_take, length_drop; lia|by apply Forall_take, Forall_drop].
Qed.

Lemma derive_plain_some (p ms salt : list Z) (mode : Z) :
  get_cipher mode = true -> len p < MAX_PASSWORD_LENGTH ->
  exists key iv, derive_plain p ms salt mode = Some (key, into_array EVP_MAX_IV_LENGTH iv) /\
    length iv = PBKDF2_IV_LENGTH /\ bytes_ok iv.
Proof using Laws.
  intros Hm Hl. unfold derive_plain. rewrite (proj2 (Z.leb_gt _ _)) by done. rewrite Hm. by apply session_key_some.
Qed.

Lemma is_gcm_cipher (mode : Z) : get_cipher mode = true -> is_gcm mode = true.
Proof. done. Qed.

(** The parts of an encrypted text. *)
Lemma encrypted_parts (salt iv ct tag : list Z) :
  length salt = PBKDF2_SALT_LENGTH -> length iv = PBKDF2_IV_LENGTH ->
  let e := salt ++ take PBKDF2_IV_LENGTH (into_array EVP_MAX_IV_LENGTH iv) ++ ct ++ [] ++ tag in
  take PBKDF2_SALT_LENGTH e = salt /\ take PBKDF2_IV_LENGTH (drop PBKDF2_SALT_LENGTH e) = iv /\
  drop (PBKDF2_SALT_LENGTH + PBKDF2_IV_LENGTH) e = ct ++ tag /\
  length e = (PBKDF2_SALT_LENGTH + PBKDF2_IV_LENGTH + (length ct + length tag))%nat.
Proof.
  intros Hs Hi e. assert (He : e = salt ++ iv ++ ct ++ tag).
  { subst e. unfold into_array. by rewrite (take_app_length' iv _ PBKDF2_IV_LENGTH). }
  clearbody e. subst e. rewrite <- Hs, <- Hi. split_and!.
  - by rewrite take_app_length.
  - by rewrite drop_app_length, take_app_length.
  - by rewrite <- drop_drop, drop_app_length, drop_app_length.
  - rewrite !length_app. lia.
Qed.

(** C26: the cache of the derived key cannot be seen.  In every state that a process reaches by
    setting and removing the salt, clearing the cache and deriving keys, the key and the
    initialisation vector for a password are those that are computed without a cache from the
    salt that is set, and there is none when no salt is set; provided that the digests
    of the passwords in use differ. *)
Theorem key_cache_transparent (p salt : list Z) (mode : Z) (c : cache) (Hc : cache_states c) (Hp : P p) :
  (derive_key_iv E p salt mode c).1 = (ms ← master_salt c; derive_plain p ms salt mode) /\
  (forall s, (derive_key_iv E p salt mode (set_master_salt (Some s) c)).1 =
             derive_plain p (take PBKDF2_SALT_LENGTH s) salt mode).
Proof using Hdigest Laws.
  split; [by apply derive_spec; [apply cache_states_sound|]|]. intros s.
  destruct (derive_spec p salt mode (set_master_salt (Some s) c)) as [-> _];
    [by apply set_salt_sound, cache_states_sound|done|]. by rewrite set_salt_value.
Qed.

Lemma encrypt_decrypt (pw ms salt pt : list Z) (mode : Z) (c c' : cache) :
  cache_states c -> cache_states c' -> P pw -> master_salt c = Some ms -> master_salt c' = Some ms ->
  len pw < MAX_PASSWORD_LENGTH -> length salt = PBKDF2_SALT_LENGTH -> get_cipher mode = true -> text pt ->
  exists e, (encrypt E (Some salt) pt pw mode c).1 = Some e /\ (decrypt E e pw mode c').1 = Some pt.
Proof using Hdigest Laws.
  intros Hc Hc' Hp Hs Hs' Hl Hn Hm Ht.
  destruct (derive_spec pw salt mode c) as [Hd _]; [by apply cache_states_sound|done|].
  destruct (derive_spec pw salt mode c') as [Hd' _]; [by apply cache_states_sound|done|].
  destruct (derive_plain_some pw ms salt mode Hm Hl) as (key & iv & Hk & Hi & _).
  rewrite Hs in Hd. rewrite Hs' in Hd'. simpl in Hd, Hd'. rewrite Hk in Hd, Hd'.
  destruct (law_gcm mode key (into_array EVP_MAX_IV_LENGTH iv) pt Hm) as (ct & tag & Henc & Hlen & Htag & Hdec & Hbytes).
  destruct (encrypted_parts salt iv ct tag Hn Hi) as (E1 & E2 & E3 & E4).
  eexists; split.
  - unfold encrypt. destruct (derive_key_iv E pw salt mode c) as [k c1]; simpl in Hd; subst k. simpl.
    unfold aes_encrypt. rewrite Hm, Henc. simpl. by rewrite (is_gcm_cipher mode Hm).
  - set (e := salt ++ _) in *. change (salt ++ _) with e in E1, E2, E3, E4. unfold decrypt.
    assert (Htl : get_tag_length mode = GCM_TAG_LENGTH) by (unfold get_tag_length; by rewrite (is_gcm_cipher mode Hm)).
    rewrite (proj2 (Nat.ltb_ge _ _)) by (rewrite Htl, E4, Htag; lia). rewrite E1, E2, E3.
    destruct (derive_key_iv E pw salt mode c') as [k c2]; simpl in Hd'; subst k. simpl.
    unfold aes_decrypt. rewrite Hm, (is_gcm_cipher mode Hm). cbn [negb andb]. rewrite Htl.
    rewrite (proj2 (Nat.ltb_ge _ _)) by (rewrite length_app; lia).
    replace (length (ct ++ tag) - GCM_TAG_LENGTH)%nat with (length ct) by (rewrite length_app; lia).
    rewrite take_app_length, drop_app_length, Hdec. simpl. rewrite app_nil_r. f_equal.
    clear - Ht. induction Ht as [|b bs Hb _ IH]; [done|]. cbn [upto_nul]. fold (upto_nul bs).
    rewrite (proj2 (Z.eqb_neq _ _)) by lia. by f_equal.
Qed.

Lemma buffer_spec (kf : key_file) (mk ms salt origin : list Z) (mode : Z) (c c' : cache) :
  cache_states c -> cache_states c' -> P mk -> master_of kf = Some (mk, ms) -> len mk < MAX_PASSWORD_LENGTH ->
  length salt = PBKDF2_SALT_LENGTH -> get_cipher mode = true -> len origin <= INT_MAX ->
  exists e, (encrypt_buffer E base64_decode kf (Some salt) origin mode c).1 = Some e /\
    (decrypt_buffer E base64_decode kf e mode c').1 = Some origin /\
    length e = (44 + length origin)%nat /\ (bytes_ok salt -> bytes_ok origin -> bytes_ok e).
Proof using Hdigest Laws.
  intros Hc Hc' Hp Hk Hl Hn Hm Ho.
  destruct (derive_plain_some mk ms salt mode Hm Hl) as (key & iv & Hd & Hi & Hib).
  pose proof (derive_from_file kf mk ms salt mode c Hc Hp Hk) as D1.
  pose proof (derive_from_file kf mk ms salt mode c' Hc' Hp Hk) as D2.
  rewrite get_master_key_spec, Hk, Hd in D1, D2. simpl in D1, D2.
  destruct (law_gcm mode key (into_array EVP_MAX_IV_LENGTH iv) origin Hm) as (ct & tag & Henc & Hlen & Htag & Hdec & Hbytes).
  destruct (encrypted_parts salt iv ct tag Hn Hi) as (E1 & E2 & E3 & E4).
  exists (salt ++ take PBKDF2_IV_LENGTH (into_array EVP_MAX_IV_LENGTH iv) ++ ct ++ [] ++ tag); split_and!.
  - unfold encrypt_buffer. rewrite Hm, get_master_key_spec, Hk. simpl.
    destruct (derive_key_iv E mk salt mode _) as [k c1]; simpl in D1; subst k. simpl.
    rewrite (proj2 (Z.ltb_ge _ _)) by done. rewrite Henc. simpl. by rewrite (is_gcm_cipher mode Hm).
  - set (e := salt ++ _) in *. change (salt ++ _) with e in E1, E2, E3, E4. unfold decrypt_buffer.
    rewrite Hm, get_master_key_spec, Hk. cbn [negb fmap option_fmap option_map fst snd].
    assert (Htl : get_tag_length mode = GCM_TAG_LENGTH) by (unfold get_tag_length; by rewrite (is_gcm_cipher mode Hm)).
    rewrite (proj2 (Nat.ltb_ge _ _)) by (rewrite Htl, E4, Htag; lia). rewrite E1, E2, E3, Htl.
    replace (length e - (PBKDF2_SALT_LENGTH + PBKDF2_IV_LENGTH) - GCM_TAG_LENGTH)%nat with (length ct) by (rewrite E4; lia).
    replace (length e - GCM_TAG_LENGTH)%nat with (PBKDF2_SALT_LENGTH + PBKDF2_IV_LENGTH + length ct)%nat by (rewrite E4; lia).
    rewrite <- (drop_drop e), E3, take_app_length, drop_app_length.
    destruct (derive_key_iv E mk salt mode (set_master_salt (Some ms) c')) as [k c1]; simpl in D2; rewrite D2. simpl.
    rewrite (proj2 (Z.ltb_ge _ _)) by (unfold len in *; rewrite Hlen; done). rewrite Hdec. simpl. by rewrite app_nil_r.
  - rewrite E4, Htag, Hlen. unfold PBKDF2_SALT_LENGTH, PBKDF2_IV_LENGTH, GCM_TAG_LENGTH. lia.
  - intros Hsb Hob. specialize (Hbytes Hob). apply Forall_app in Hbytes as [Hcb Htb].
    unfold into_array. rewrite (take_app_length' iv _ PBKDF2_IV_LENGTH) by done.
    unfold bytes_ok in *. by rewrite !Forall_app.
Qed.

(** C25: what one process encrypts, another one that has the same key file decrypts, whatever
    keys and salts the two used before; this also says that neither call fails.  The
    encrypted text is the salt, the vector, the cipher text and the tag, 44 bytes more. *)
Theorem buffers_read_back (kf : key_file) (mk ms salt origin : list Z) (mode : Z) (c c' : cache)
  (Hc : cache_states c) (Hc' : cache_states c') (Hp : P mk) (Hk : master_of kf = Some (mk, ms))
  (Hl : len mk < MAX_PASSWORD_LENGTH) (Hn : length salt = PBKDF2_SALT_LENGTH) (Hm : get_cipher mode = true)
  (Ho : len origin <= INT_MAX) :
  exists e, (encrypt_buffer E base64_decode kf (Some salt) origin mode c).1 = Some e /\
    (decrypt_buffer E base64_decode kf e mode c').1 = Some origin /\ length e = (44 + length origin)%nat.
Proof using Hdigest Laws.
  edestruct buffer_spec as (e & H1 & H2 & H3 & _); [exact Hc|exact Hc'|done..|]. by exists e.
Qed.

End facts.

(** ** A small instance *)

Definition toy_evp : evp :=
  Evp (fun p => Some p) (fun p s n l => (true, replicate l ((len p + 3 * len s + n) mod 256)))
      (fun _ => PBKDF2_IV_LENGTH)
      (fun _ _ _ pt => Some (Z.sub 255 <$> pt, [], replicate GCM_TAG_LENGTH 7))
      (fun _ _ _ ct _ => Some (Z.sub 255 <$> ct, [])).

#[export] Instance toy_evp_laws : evp_laws toy_evp.
Proof.
  split; [by eexists| |done|].
  - intros p s n l. split_and!; [done|apply length_replicate|]. apply Forall_replicate, Z.mod_pos_bound. lia.
  - intros mode key iv pt _. eexists _, _. split_and!; [done|by rewrite length_fmap|done| |].
    + simpl. do 2 f_equal. induction pt as [|b pt IH]; [done|]. simpl. f_equal; [lia|done].
    + intros Hb. apply Forall_app. split; [|by apply Forall_replicate].
      apply Forall_fmap. eapply Forall_impl; [exact Hb|]. simpl. lia.
Qed.

Definition toy_key_file : key_file :=
  KeyFile (Some "/home/pgagroal") (Some 0x41C0) (Some 0x8180) (Some ("hi" +:+ String "010" ("0123456789abcdef" +:+ String "010" ""))).

(** A process that derived a key for another salt before. *)
Definition toy_cache : cache := (derive_key_iv toy_evp (str "other") [9] ENCRYPTION_AES_128_GCM (set_master_salt (Some [1; 2; 3]) empty_cache)).2.

Lemma toy_cache_reached : cache_states toy_evp (fun _ => True) toy_cache.
Proof. apply cs_derive, cs_salt, cs_start. done. Defined.

Lemma key_cache_transparent_witness :
  master_key_cached toy_cache = true /\
  (derive_key_iv toy_evp (str "other") [5] ENCRYPTION_AES_128_GCM toy_cache).1 =
    derive_plain toy_evp (str "other") [1; 2; 3] [5] ENCRYPTION_AES_128_GCM /\
  is_Some (derive_key_iv toy_evp (str "other") [5] ENCRYPTION_AES_128_GCM toy_cache).1.
Proof.
  split; [vm_compute; reflexivity|]. split; [|vm_compute; by eexists].
  exact (proj1 (key_cache_transparent toy_evp (fun _ => True) ltac:(intros p q _ _ [= H]; exact H)
                  (str "other") [5] ENCRYPTION_AES_128_GCM toy_cache toy_cache_reached I)).
Defined.

Lemma buffers_read_back_witness :
  exists e, (encrypt_buffer toy_evp id toy_key_file (Some (replicate 16 4)) [10; 0; 200] ENCRYPTION_AES_256_GCM toy_cache).1 = Some e /\
    (decrypt_buffer toy_evp id toy_key_file e ENCRYPTION_AES_256_GCM empty_cache).1 = Some [10; 0; 200] /\ length e = 47%nat.
Proof.
  exact (buffers_read_back toy_evp id (fun _ => True) ltac:(intros p q _ _ [= H]; exact H) toy_key_file
           (str "hi") (str "0123456789abcdef") (replicate 16 4) [10; 0; 200] ENCRYPTION_AES_256_GCM toy_cache empty_cache
           toy_cache_reached (cs_start _ _) I eq_refl eq_refl eq_refl eq_refl ltac:(vm_compute; discriminate)).
Defined.
