(* ===== verification/Management.v ===== *)
(** * The management protocol ([libpgagroal/management.c])

    A request or a response is a JSON document, sent as one byte for the compression, one
    byte for the encryption and a string behind its length.  A document that is compressed or
    encrypted is sent in base64.  The sockets answer as in [Message]; the libraries are those
    of [Compress] and [Aes].  Log lines and the release of memory are left out. *)

From Stdlib Require Import Ascii.
From stdpp Require Import pretty.
From S2P Require Import Prelude Utf8 Wire Frames Message Text Value Json Config ConfText Scram Compress Aes.

Local Open Scope Z_scope.

(** ** Constants *)

Definition MANAGEMENT_COMPRESSION_NONE : Z := 0.
Definition MANAGEMENT_COMPRESSION_GZIP : Z := 1.
Definition MANAGEMENT_COMPRESSION_ZSTD : Z := 2.
Definition MANAGEMENT_COMPRESSION_LZ4 : Z := 3.
Definition MANAGEMENT_COMPRESSION_BZIP2 : Z := 4.

Definition MANAGEMENT_ENCRYPTION_NONE : Z := 0.
Definition MANAGEMENT_ENCRYPTION_AES256_GCM : Z := 1.
Definition MANAGEMENT_ENCRYPTION_AES192_GCM : Z := 2.
Definition MANAGEMENT_ENCRYPTION_AES128_GCM : Z := 3.

(** The commands, with their codes. *)
Inductive management_command :=
| CANCEL_SHUTDOWN | CONFIG_LS | CONFIG_GET | CONFIG_SET | DETAILS | DISABLEDB | ENABLEDB | FLUSH | GET_PASSWORD
| GRACEFULLY | PING | RELOAD | CLEAR | CLEAR_SERVER | SHUTDOWN | STATUS | SWITCH_TO | CONFIG_ALIAS.

Definition command_code (c : management_command) : Z :=
  match c with
  | CANCEL_SHUTDOWN => 1 | CONFIG_LS => 2 | CONFIG_GET => 3 | CONFIG_SET => 4 | DETAILS => 5 | DISABLEDB => 6
  | ENABLEDB => 7 | FLUSH => 8 | GET_PASSWORD => 9 | GRACEFULLY => 10 | PING => 11 | RELOAD => 12 | CLEAR => 13
  | CLEAR_SERVER => 14 | SHUTDOWN => 15 | STATUS => 16 | SWITCH_TO => 17 | CONFIG_ALIAS => 18
  end.

(** ** Sockets *)

(** [read_complete]: reads [needs] bytes, in at most 101 pieces; the end of the stream is a
    piece without bytes. *)
Fixpoint read_complete (rs : list rres) (needs : Z) (retries : Z) (buf : list Z) : result (option (list Z) * list rres) :=
  match rs with
  | [] => Running
  | RFail EAGAIN :: rs => read_complete rs needs retries buf
  | RFail EOTHER :: rs => Done (None, rs)
  | REof :: rs =>
      if 0 <? needs then if retries <? 100 then read_complete rs needs (retries + 1) buf else Done (None, rs)
      else Done (Some buf, rs)
  | RData b bs :: rs' =>
      if len (b :: bs) <? needs
      then if retries <? 100 then read_complete rs' (needs - len (b :: bs)) (retries + 1) (buf ++ b :: bs) else Done (None, rs')
      else let '(data, rest) := read_data needs (b :: bs) rs' in Done (Some (buf ++ data), rest)
  end.

(** What the calls of [write] or of [SSL_write] answer. *)
Inductive writer := PlainWriter (ws : list wres) | SslWriter (ws : list swres).

(** [write_complete] with [write_socket] and [write_ssl], whose loops are those of
    [write_message] and [ssl_write_message]: success, the bytes that were sent, and the answers that
    are left. *)
Definition write_complete (w : writer) (buf : list Z) : result (bool * list Z * writer) :=
  let msg := Message 0 (len buf) buf in
  let finish {A} (mk : list A -> writer) (r : result (Z * list Z * list A)) :=
    match r with
    | Done (status, sent, rest) => Done (status =? MESSAGE_STATUS_OK, sent, mk rest)
    | Undefined => Undefined
    | Running => Running
    end in
  match w with
  | PlainWriter ws => finish PlainWriter (write_message ws msg)
  | SslWriter ws => finish SslWriter (ssl_write_message ws msg)
  end.

Section protocol.
Context (bigendian : bool).

(** [read_uint8] and [read_string].  The length is an unsigned 32 bit number, and so is its
    successor that is allocated: the largest one leaves no room at all. *)
Definition read_uint8 (rs : list rres) : result (option Z * list rres) :=
  match read_complete rs 1 0 [] with
  | Done (Some buf, rs) => Done (Wire.read_uint8 buf 0, rs)
  | Done (None, rs) => Done (None, rs)
  | Undefined => Undefined
  | Running => Running
  end.

Definition read_string (rs : list rres) : result (option (option (list Z)) * list rres) :=
  match read_complete rs 4 0 [] with
  | Done (Some buf, rs) =>
      match read_uint32 bigendian buf 0 with
      | None => Undefined
      | Some size =>
          if size =? 0 then Done (Some None, rs)
          else if u32 (size + 1) =? 0 then Undefined
          else
            match read_complete rs size 0 [] with
            | Done (Some s, rs) => Done (Some (Some (upto_nul s)), rs)
            | Done (None, rs) => Done (None, rs)
            | Undefined => Undefined
            | Running => Running
            end
      end
  | Done (None, rs) => Done (None, rs)
  | Undefined => Undefined
  | Running => Running
  end.

(** [write_uint8] and [write_string]. *)
Definition write_uint8 (w : writer) (i : Z) : result (bool * list Z * writer) :=
  match Wire.write_uint8 [0] 0 i with Some buf => write_complete w buf | None => Undefined end.

Definition then_write (r : result (bool * list Z * writer)) (k : writer -> result (bool * list Z * writer))
  : result (bool * list Z * writer) :=
  match r with
  | Done (true, sent, w) =>
      match k w with
      | Done (ok, sent', w) => Done (ok, sent ++ sent', w)
      | r => r
      end
  | r => r
  end.

Definition write_string (w : writer) (s : option (list Z)) : result (bool * list Z * writer) :=
  match write_uint32 bigendian [0; 0; 0; 0] 0 (match s with Some s => len s | None => 0 end) with
  | None => Undefined
  | Some buf =>
      then_write (write_complete w buf)
        (fun w => match s with Some s => write_complete w s | None => Done (true, [], w) end)
  end.

(** ** Payloads *)

(** What a process has for the payloads: the libraries, the key file, and fuel for the loops
    of zlib. *)
Context (B : libraries) (E : evp) (K : crypto) (kf : key_file) (fuel : nat).

(** The switch over the compression codes when a document is written and read. *)
Definition compress (compression : Z) (s : list Z) : result (option (list Z)) :=
  if compression =? MANAGEMENT_COMPRESSION_GZIP then gzip_string B fuel s
  else if compression =? MANAGEMENT_COMPRESSION_ZSTD then zstdc_string B s
  else if compression =? MANAGEMENT_COMPRESSION_LZ4 then lz4c_string B s
  else if compression =? MANAGEMENT_COMPRESSION_BZIP2 then bzip2_string B s
  else Done (Some s).

Definition decompress (compression : Z) (bs : list Z) : result (option (list Z)) :=
  if compression =? MANAGEMENT_COMPRESSION_GZIP then gunzip_string B fuel bs
  else if compression =? MANAGEMENT_COMPRESSION_ZSTD then zstdd_string B bs
  else if compression =? MANAGEMENT_COMPRESSION_LZ4 then lz4d_string B bs
  else if compression =? MANAGEMENT_COMPRESSION_BZIP2 then bunzip2_string B bs
  else Done (Some (upto_nul bs)).

(** The mode for an encryption code: [Some 0] is none, [None] is an unknown code. *)
Definition encryption_mode (encryption : Z) : option Z :=
  if encryption =? MANAGEMENT_ENCRYPTION_AES256_GCM then Some ENCRYPTION_AES_256_GCM
  else if encryption =? MANAGEMENT_ENCRYPTION_AES192_GCM then Some ENCRYPTION_AES_192_GCM
  else if encryption =? MANAGEMENT_ENCRYPTION_AES128_GCM then Some ENCRYPTION_AES_128_GCM
  else if encryption =? MANAGEMENT_ENCRYPTION_NONE then Some 0
  else None.

Definition encrypt_payload (salt : option (list Z)) (mode : Z) (bs : list Z) (c : cache) : option (list Z) * cache :=
  if mode =? 0 then (Some bs, c) else encrypt_buffer E (base64_decode K) kf salt bs mode c.

Definition decrypt_payload (mode : Z) (bs : list Z) (c : cache) : option (list Z) * cache :=
  if mode =? 0 then (Some bs, c) else decrypt_buffer E (base64_decode K) kf bs mode c.

(** Compression, encryption and encoding of a text, in [pgagroal_management_write_json]. *)
Definition encode_payload (compression encryption : Z) (salt : option (list Z)) (s : list Z) (c : cache)
  : result (option (list Z) * cache) :=
  if (compression =? 0) && (encryption =? 0) then Done (Some s, c)
  else
    match compress compression s with
    | Done None => Done (None, c)
    | Done (Some bs) =>
        match encryption_mode encryption with
        | None => Done (None, c)
        | Some mode =>
            let '(e, c) := encrypt_payload salt mode bs c in Done (base64_encode K <$> e, c)
        end
    | Undefined => Undefined
    | Running => Running
    end.

(** And back, in [pgagroal_management_read_json]: [strlen] of a missing string is undefined. *)
Definition decode_payload (compression encryption : Z) (s : option (list Z)) (c : cache)
  : result (option (option (list Z)) * cache) :=
  if (compression =? 0) && (encryption =? 0) then Done (Some s, c)
  else
    match s with
    | None => Undefined
    | Some s =>
        match encryption_mode encryption with
        | None => Done (None, c)
        | Some mode =>
            let '(d, c) := decrypt_payload mode (base64_decode K s) c in
            match d with
            | None => Done (None, c)
            | Some bs =>
                match decompress compression bs with
                | Done (Some t) => Done (Some (Some t), c)
                | Done None => Done (None, c)
                | Undefined => Undefined
                | Running => Running
                end
            end
        end
    end.

(** ** Documents on the wire *)

(** The text of a C string. *)
Definition string_of (bs : list Z) : string :=
  String.string_of_list_ascii (map (fun b => ascii_of_nat (Z.to_nat b)) bs).

(** The text of a document on the wire. *)
Definition wire_text (j : json) : list Z := str (default "" (json_to_string j FORMAT_JSON_COMPACT None 0)).

(** [pgagroal_management_write_json]: success and what was sent. *)
Definition write_json (w : writer) (compression encryption : Z) (salt : option (list Z)) (j : json) (c : cache)
  : result (bool * list Z * writer * cache) :=
  let s := wire_text j in
  match then_write (write_uint8 w compression) (fun w => write_uint8 w encryption) with
  | Done (true, sent, w) =>
      match encode_payload compression encryption salt s c with
      | Done (Some t, c) =>
          match write_string w (Some t) with
          | Done (ok, sent', w) => Done (ok, sent ++ sent', w, c)
          | Undefined => Undefined
          | Running => Running
          end
      | Done (None, c) => Done (false, sent, w, c)
      | Undefined => Undefined
      | Running => Running
      end
  | Done (false, sent, w) => Done (false, sent, w, c)
  | Undefined => Undefined
  | Running => Running
  end.

(** What [pgagroal_management_read_json] leaves: the two codes, zero until they are read,
    and the document unless it fails. *)
Record read_outcome := ReadOutcome {
  ro_compression : Z;
  ro_encryption : Z;
  ro_json : option json;
  ro_rest : list rres;
  ro_cache : cache }.

Definition read_json (rs : list rres) (c : cache) : result read_outcome :=
  match read_uint8 rs with
  | Done (None, rs) => Done (ReadOutcome 0 0 None rs c)
  | Done (Some compression, rs) =>
      match read_uint8 rs with
      | Done (None, rs) => Done (ReadOutcome compression 0 None rs c)
      | Done (Some encryption, rs) =>
          match read_string rs with
          | Done (None, rs) => Done (ReadOutcome compression encryption None rs c)
          | Done (Some s, rs) =>
              match decode_payload compression encryption s c with
              | Done (None, c) => Done (ReadOutcome compression encryption None rs c)
              | Done (Some s, c) =>
                  match json_parse_string (string_of <$> s) with
                  | POk j => Done (ReadOutcome compression encryption (Some j) rs c)
                  | PErr => Done (ReadOutcome compression encryption None rs c)
                  | POut => Running
                  end
              | Undefined => Undefined
              | Running => Running
              end
          | Undefined => Undefined
          | Running => Running
          end
      | Undefined => Undefined
      | Running => Running
      end
  | Undefined => Undefined
  | Running => Running
  end.
End protocol.

(** ** Documents *)

(** [pgagroal_json_put] whose status is not looked at. *)
Definition put (o : json) (kv : string * jvalue) : json := (json_put o (Some kv.1) kv.2).2.

Definition put_all (o : json) (kvs : list (string * jvalue)) : json := fold_left put kvs o.

Definition int32_value (n : Z) : jvalue := VWord ValueInt32 (u64 n).
Definition int64_value (n : Z) : jvalue := VWord ValueInt64 (u64 n).
Definition uint8_value (n : Z) : jvalue := VWord ValueUInt8 (u64 n).
Definition bool_value (b : bool) : jvalue := VWord ValueBool (if b then 1 else 0).
Definition string_value (s : string) : jvalue := VStr ValueString (Some s).

Section documents.
(** [PGAGROAL_VERSION]. *)
Context (version : string).

(** [pgagroal_management_create_header]; [timestamp] is the local time. *)
Definition create_header (timestamp : string) (command compression encryption output_format : Z) : json :=
  put JSONUnknown
    ("Header", VJson (put_all JSONUnknown
       [("Command", int32_value command); ("ClientVersion", string_value version); ("Output", uint8_value output_format);
        ("Timestamp", string_value timestamp); ("Compression", uint8_value compression);
        ("Encryption", uint8_value encryption)])).

(** [pgagroal_management_create_request]: the request is stored in the document before its
    arguments are stored in it. *)
Definition create_request (j : json) (arguments : list (string * jvalue)) : json :=
  put j ("Request", VJson (put_all JSONUnknown arguments)).

(** [pgagroal_get_timestamp_string] of the seconds between two times. *)
Definition two_digits (n : Z) : string :=
  if (0 <=? n) && (n <? 10) then "0" +:+ pretty n else pretty n.

Definition elapsed_string (start_time end_time : Z) : string :=
  let t := i32 (end_time - start_time) in
  two_digits (Z.quot t 3600) +:+ ":" +:+ two_digits (Z.quot (Z.rem t 3600) 60) +:+ ":" +:+ two_digits (Z.rem t 60).

(** [pgagroal_management_create_outcome_success] and [_failure]. *)
Definition create_outcome_success (j : json) (start_time end_time : Z) : json :=
  put j ("Outcome", VJson (put_all JSONUnknown
    [("Status", bool_value true); ("Time", string_value (elapsed_string start_time end_time))])).

Definition create_outcome_failure (j : json) (error : Z) : json :=
  put j ("Outcome", VJson (put_all JSONUnknown [("Status", bool_value false); ("Error", int32_value error)])).

(** [pgagroal_management_create_response], with the fields that the caller adds to it. *)
Definition create_response (j : json) (server : option string) (fields : list (string * jvalue)) : json :=
  put j ("Response", VJson (put_all JSONUnknown
    (match server with Some name => [("Server", string_value name)] | None => [] end
     ++ [("ServerVersion", string_value version)] ++ fields))).

(** The document of [pgagroal_management_response_error]: the name of the server is added
    when there is no response yet; it is looked up among the valid servers, whose names are
    [servers], and stored anyhow. *)
Definition error_document (j : json) (server : option string) (servers : list string) (error : Z) : json :=
  let j := create_outcome_failure j error in
  match server with
  | Some name =>
      if streq name "" then j
      else
        match json_get j (Some "Response") with
        | Some (VWord _ 0) | Some (VStr _ None) | None =>
            create_response j (if existsb (streq name) servers then Some name else None) [("Server", string_value name)]
        | Some _ => j
        end
  | None => j
  end.

(** What the client gets when its request could not be read: [pgagroal_management_response_error]
    without a document stores the outcome nowhere. *)
Definition error_reply (j : option json) (server : option string) (servers : list string) (error : Z) : json :=
  match j with
  | Some j => error_document j server servers error
  | None => JSONUnknown
  end.

(** The requests of the clients: the command and its arguments. *)
Definition request_flush (mode : Z) (database : option string) (timeout : Z) : management_command * list (string * jvalue) :=
  (FLUSH, [("Mode", int32_value mode); ("Database", VStr ValueString database); ("Timeout", int64_value timeout)]).
Definition request_enabledb (database : option string) : management_command * list (string * jvalue) :=
  (ENABLEDB, [("Database", VStr ValueString database)]).
Definition request_disabledb (database : option string) : management_command * list (string * jvalue) :=
  (DISABLEDB, [("Database", VStr ValueString database)]).
Definition request_get_password (username : option string) : management_command * list (string * jvalue) :=
  (GET_PASSWORD, [("Username", VStr ValueString username)]).
Definition request_gracefully (timeout : Z) : management_command * list (string * jvalue) :=
  (GRACEFULLY, [("Timeout", int64_value timeout)]).
Definition request_clear_server (server : option string) : management_command * list (string * jvalue) :=
  (CLEAR_SERVER, [("Server", VStr ValueString server)]).
Definition request_switch_to (server : option string) : management_command * list (string * jvalue) :=
  (SWITCH_TO, [("Server", VStr ValueString server)]).
Definition request_conf_set (key value : option string) : management_command * list (string * jvalue) :=
  (CONFIG_SET, [("ConfigKey", VStr ValueString key); ("ConfigValue", VStr ValueString value)]).

(** The requests without arguments: [shutdown], [cancel_shutdown], [status], [details], [ping],
    [clear], [reload], [conf_ls], [conf_get] and [conf_alias]. *)
Definition request_plain (c : management_command) : management_command * list (string * jvalue) := (c, []).

(** The document that a request sends. *)
Definition request_document (timestamp : string) (compression encryption output_format : Z)
  (r : management_command * list (string * jvalue)) : json :=
  create_request (create_header timestamp (command_code r.1) compression encryption output_format) r.2.
End documents.
