(* ===== verification/ManagementFacts.v ===== *)
(** * Facts about the management protocol

    A document that is written is read back, however the bytes are cut into pieces on the
    way, and the server finds in it the command and the arguments of the client. *)

From Stdlib Require Import Ascii Sorting.Sorted.
From stdpp Require Import pretty.
From S2P Require Import Prelude Utf8 Wire Frames Message MessageFacts MessageStream Text Value Json JsonFacts Config ConfText Scram ScramFacts Compress CompressFacts Aes AesFacts Management.

Local Open Scope Z_scope.

(** ** Sockets *)

(** The answers of a socket bring these bytes, in [n] pieces, with interruptions. *)
Inductive arrives : list rres -> list Z -> nat -> Prop :=
| arrives_nil : arrives [] [] 0
| arrives_again rs d n : arrives rs d n -> arrives (RFail EAGAIN :: rs) d n
| arrives_data b bs rs d n : arrives rs d n -> arrives (RData b bs :: rs) ((b :: bs) ++ d) (S n).

Lemma arrives_pieces (rs : list rres) (d : list Z) (n : nat) : arrives rs d n -> d <> [] -> (0 < n)%nat.
Proof. induction 1; [done|auto|lia]. Qed.

(** The bytes that are asked for are read when they come in at most 101 pieces. *)
Lemma read_complete_arrives (rs : list rres) (a d : list Z) (n : nat) (retries : Z) (buf : list Z) :
  arrives rs (a ++ d) n -> a <> [] -> retries + Z.of_nat n <= 101 ->
  exists rs' n', read_complete rs (len a) retries buf = Done (Some (buf ++ a), rs') /\ arrives rs' d n' /\ (n' <= n)%nat.
Proof.
  intros H. remember (a ++ d) as t eqn:Et. revert a retries buf Et.
  induction H as [|rs t n H IH|b bs rs t n H IH]; intros a retries buf Et Ha Hn; cbn [read_complete].
  - by destruct a.
  - by apply IH.
  - destruct (Z.ltb_spec (len (b :: bs)) (len a)) as [Hl|Hl].
    + assert (exists a', a = (b :: bs) ++ a' /\ t = a' ++ d) as (a' & -> & ->).
      { apply app_eq_inv in Et as [(k & E1 & E2)|(k & E1 & E2)]; [|by exists k].
        rewrite E1 in Hl. unfold len in Hl. rewrite length_app in Hl. lia. }
      assert (Ha' : a' <> []) by (intros ->; rewrite app_nil_r in Hl; lia).
      pose proof (arrives_pieces _ _ _ H) as Hp.
      rewrite (proj2 (Z.ltb_lt _ _)) by (specialize (Hp ltac:(by destruct a')); lia).
      replace (len ((b :: bs) ++ a') - len (b :: bs)) with (len a') by (unfold len; rewrite length_app; lia).
      destruct (IH a' (retries + 1) (buf ++ b :: bs) eq_refl Ha' ltac:(lia)) as (rs' & n' & E & Hr & Hle).
      exists rs', n'. rewrite E, <- app_assoc. split_and!; [done|done|lia].
    + assert (exists d', b :: bs = a ++ d' /\ d = d' ++ t) as (d' & E1 & ->).
      { apply app_eq_inv in Et as [(k & E1 & E2)|(k & E1 & E2)]; [by exists k|].
        rewrite E1 in Hl. unfold len in Hl. rewrite length_app in Hl.
        assert (k = []) as -> by (apply length_zero_iff_nil; lia). exists []. by rewrite app_nil_r in *. }
      unfold read_data. rewrite E1. unfold len. rewrite Nat2Z.id, take_app_length, drop_app_length.
      destruct d' as [|x d']; [exists rs, n|exists (RData x d' :: rs), (S n)]; (split_and!; [done| |lia]).
      * done.
      * by apply (arrives_data x d').
Qed.

(** A write that succeeds has sent its bytes. *)
Lemma write_complete_sent (w w' : writer) (buf sent : list Z) :
  write_complete w buf = Done (true, sent, w') -> sent = buf.
Proof.
  unfold write_complete, write_message, ssl_write_message. cbn [m_length]. destruct w as [ws|ws].
  - pose proof (write_loop_outcome ws 0 buf 0 (or_intror eq_refl)) as H. rewrite Z.sub_0_r in H. cbn [Z.to_nat take] in H.
    destruct (write_loop _ _ _ _ _ _) as [[[st d] rest]| |]; simpl in *; [|done|done].
    intros [= E <- _]. destruct H as [[_ H]|[-> _]]; [done|]. by vm_compute in E.
  - pose proof (ssl_write_loop_outcome ws 0 buf 0 (or_intror eq_refl)) as H. rewrite Z.sub_0_r in H. cbn [Z.to_nat take] in H.
    destruct (ssl_write_loop _ _ _ _ _ _) as [[[st d] rest]| |]; simpl in *; [|done|done].
    intros [= E <- _]. destruct H as [[_ H]|[-> _]]; [done|]. by vm_compute in E.
Qed.

(** ** Frames *)

Definition mgt_frame (compression encryption : Z) (t : list Z) : list Z :=
  [u8 compression; u8 encryption] ++ rev (le_bytes 4 (len t)) ++ t.

Section frames.
Context (big : bool).

Lemma write_uint32_bytes (v : Z) : write_uint32 big [0; 0; 0; 0] 0 v = Some (rev (le_bytes 4 v)).
Proof.
  unfold write_uint32. rewrite host_network_bytes. unfold Wire.store. rewrite length_rev, length_le_bytes.
  cbn [length Z.of_nat]. change (0 <=? 0) with true. change (0 + 4 <=? 4) with true. cbn [andb Z.to_nat take app].
  rewrite app_nil_r. done.
Qed.

Lemma read_uint32_bytes (v : Z) : in_u 32 v -> read_uint32 big (rev (le_bytes 4 v)) 0 = Some v.
Proof.
  intros Hv. unfold read_uint32, region. rewrite length_rev, length_le_bytes.
  change ((0 <=? 0) && (0 <=? 4) && (0 + 4 <=? Z.of_nat 4)) with true. cbn match. rewrite drop_0.
  rewrite take_ge by (rewrite length_rev, length_le_bytes; lia). cbn [mbind option_bind].
  rewrite network_read_write. f_equal. change (256 ^ Z.of_nat 4) with (2 ^ 32). rewrite Z.mod_small by done. by apply wrapu_id.
Qed.

(** What a successful write of a string has sent. *)
Lemma write_string_sent (w w' : writer) (t sent : list Z) :
  write_string big w (Some t) = Done (true, sent, w') -> sent = rev (le_bytes 4 (len t)) ++ t.
Proof.
  unfold write_string. rewrite write_uint32_bytes. unfold then_write.
  destruct (write_complete w _) as [[[[] s1] w1]| |] eqn:E1; try done.
  destruct (write_complete w1 t) as [[[ok s2] w2]| |] eqn:E2; try done. intros [= -> <- _].
  by rewrite (write_complete_sent _ _ _ _ E1), (write_complete_sent _ _ _ _ E2).
Qed.

Lemma write_bytes_sent (w w' : writer) (a b : Z) (sent : list Z) :
  then_write (write_uint8 w a) (fun w => write_uint8 w b) = Done (true, sent, w') -> sent = [u8 a; u8 b].
Proof.
  unfold then_write, write_uint8.
  change (Wire.write_uint8 [0] 0 a) with (Some [u8 a]). change (Wire.write_uint8 [0] 0 b) with (Some [u8 b]).
  destruct (write_complete w [u8 a]) as [[[[] s1] w1]| |] eqn:E1; try done.
  destruct (write_complete w1 [u8 b]) as [[[ok s2] w2]| |] eqn:E2; try done. intros [= -> <- _].
  by rewrite (write_complete_sent _ _ _ _ E1), (write_complete_sent _ _ _ _ E2).
Qed.

Lemma read_uint8_arrives (rs : list rres) (b : Z) (d : list Z) (n : nat) :
  arrives rs (b :: d) n -> (n <= 101)%nat -> 0 <= b < 256 ->
  exists rs' n', read_uint8 rs = Done (Some b, rs') /\ arrives rs' d n' /\ (n' <= 101)%nat.
Proof.
  intros H Hn Hb. destruct (read_complete_arrives rs [b] d n 0 [] H ltac:(done) ltac:(lia)) as (rs' & n' & E & Hr & Hle).
  exists rs', n'. unfold read_uint8. change (len [b]) with 1 in E. rewrite E. split_and!; [|done|lia].
  rewrite app_nil_l. do 2 f_equal. change (Wire.read_uint8 [b] 0) with (Some (u8 (b + 0))).
  rewrite Z.add_0_r. f_equal. by apply wrapu_id.
Qed.

Lemma read_string_arrives (rs : list rres) (t d : list Z) (n : nat) :
  arrives rs ((rev (le_bytes 4 (len t)) ++ t) ++ d) n -> (n <= 101)%nat -> text t -> t <> [] -> len t < 2 ^ 32 - 1 ->
  exists rs' n', read_string big rs = Done (Some (Some t), rs') /\ arrives rs' d n' /\ (n' <= 101)%nat.
Proof.
  intros H Hn Ht Hne Hl. rewrite <- app_assoc in H. assert (Hp : 0 < len t) by (unfold len; destruct t; [done|simpl; lia]).
  destruct (read_complete_arrives rs (rev (le_bytes 4 (len t))) (t ++ d) n 0 [] H) as (rs1 & n1 & E1 & H1 & L1); [|lia|].
  { intros E%(f_equal length). by rewrite length_rev, length_le_bytes in E. }
  destruct (read_complete_arrives rs1 t d n1 0 [] H1 Hne ltac:(lia)) as (rs2 & n2 & E2 & H2 & L2).
  exists rs2, n2. unfold read_string. replace (len (rev (le_bytes 4 (len t)))) with 4 in E1
    by (unfold len; by rewrite length_rev, length_le_bytes).
  rewrite E1. cbn match. rewrite app_nil_l, read_uint32_bytes by (unfold in_u; lia).
  rewrite (proj2 (Z.eqb_neq (len t) 0)) by lia. rewrite wrapu_id by (unfold in_u; lia).
  rewrite (proj2 (Z.eqb_neq (len t + 1) 0)) by lia. rewrite E2. cbn match.
  rewrite app_nil_l, upto_nul_text by done. split_and!; [done|done|lia].
Qed.
End frames.

(** ** Payloads *)

Section payloads.
Context (big : bool) (B : libraries) {BL : library_laws B} (E : evp) {EL : evp_laws E} (K : crypto) {KL : CryptoLaws K}.
Context (kf : key_file) (fuel : nat) (P : list Z -> Prop).
Context (Hdigest : forall p q, P p -> P q -> evp_sha256 E p = evp_sha256 E q -> p = q).

(** The key file of both sides, when something is encrypted. *)
Definition key_present (encryption : Z) : Prop :=
  encryption = 0 \/
  exists mk ms, master_of (base64_decode K) kf = Some (mk, ms) /\ P mk /\ len mk < MAX_PASSWORD_LENGTH.

(** The codes with which a text comes back. *)
Definition readable (compression : Z) (s : list Z) : Prop :=
  compression <> MANAGEMENT_COMPRESSION_BZIP2 /\
  (compression = MANAGEMENT_COMPRESSION_LZ4 -> forall c, lz4_compress B s = Some c -> (length s < length c * 4)%nat).

Lemma text_bytes (s : list Z) : text s -> bytes_ok s.
Proof. intros H. eapply Forall_impl; [exact H|]. simpl. lia. Qed.

Lemma compress_reads_back (compression : Z) (s bs : list Z) :
  text s -> small s -> (length s < fuel)%nat -> (length (gz (B := B) s) < fuel)%nat -> readable compression s ->
  compress B fuel compression s = Done (Some bs) -> bytes_ok bs /\ decompress B fuel compression bs = Done (Some s).
Proof.
  intros Ht Hs Hf Hf' [Hb Hl]. unfold compress, decompress. pose proof (text_bytes s Ht) as Hsb.
  destruct (Z.eqb_spec compression MANAGEMENT_COMPRESSION_GZIP).
  { destruct (gzip_reads_back B s fuel fuel Ht Hs Hf' Hf) as [-> Hd]. intros [= <-]. split; [by apply law_gz_bytes|done]. }
  destruct (Z.eqb_spec compression MANAGEMENT_COMPRESSION_ZSTD).
  { destruct (law_zstd s Hs) as (c & Hc & Hcb & _). destruct (zstd_reads_back B s Ht Hs) as (c' & Hc' & Hd).
    unfold zstdc_string in *. rewrite Hc in *. intros [= <-]. injection Hc' as <-. auto. }
  destruct (Z.eqb_spec compression MANAGEMENT_COMPRESSION_LZ4) as [->|].
  { destruct (law_lz4 s Hs) as (c & Hc & Hcb & _). destruct (lz4_reads_back B s Ht Hs) as (c' & Hc' & Hd).
    unfold lz4c_string in *. rewrite Hc in *. intros [= <-]. injection Hc' as <-.
    rewrite (proj2 (Nat.ltb_lt _ _)) in Hd by (by apply Hl). auto. }
  rewrite (proj2 (Z.eqb_neq _ _)) by done. intros [= <-]. by rewrite upto_nul_text.
Qed.

Lemma encrypt_reads_back (encryption mode : Z) (salt bs e : list Z) (c c1 c' : cache) :
  encryption_mode encryption = Some mode -> key_present encryption -> length salt = PBKDF2_SALT_LENGTH -> bytes_ok salt ->
  bytes_ok bs -> len bs <= INT_MAX -> cache_states E P c -> cache_states E P c' ->
  encrypt_payload E K kf (Some salt) mode bs c = (Some e, c1) ->
  bytes_ok e /\ exists c2, decrypt_payload E K kf mode e c' = (Some bs, c2).
Proof using EL Hdigest.
  intros Hm Hk Hsl Hsb Hb Hlen Hc Hc'. unfold encrypt_payload, decrypt_payload.
  destruct (Z.eqb_spec mode 0) as [->|Hmode]; [intros [= <- _]; eauto|].
  assert (get_cipher mode = true /\ encryption <> 0) as [Hg Hne].
  { unfold encryption_mode in Hm. repeat case_match; simplify_eq; try done; (split; [done|]); intros ->; done. }
  destruct Hk as [?|(mk & ms & Hk & Hp & Hl)]; [done|].
  destruct (buffer_spec E (base64_decode K) P Hdigest kf mk ms salt bs mode c c' Hc Hc' Hp Hk Hl Hsl Hg Hlen)
    as (x & Hx & Hd & _ & Hbx).
  destruct (encrypt_buffer _ _ _ _ _ _ _) as [o c3]. simpl in Hx. subst o. intros [= <- _].
  split; [by apply Hbx|]. destruct (decrypt_buffer _ _ _ _ _ _) as [o c4]. simpl in Hd. subst o. eauto.
Qed.

Lemma base64_text (bs : list Z) : bytes_ok bs -> text (base64_encode K bs).
Proof. intros H. eapply Forall_impl; [by apply base64_alphabet|]. intros b Hb. unfold b64_char in Hb. lia. Qed.

(** What is sent for a text is decoded again on the other side. *)
Lemma payload_reads_back (compression encryption : Z) (salt s t : list Z) (c c1 c' : cache) :
  text s -> small s -> (length s < fuel)%nat -> (length (gz (B := B) s) < fuel)%nat -> readable compression s ->
  key_present encryption -> length salt = PBKDF2_SALT_LENGTH -> bytes_ok salt -> cache_states E P c -> cache_states E P c' ->
  (forall bs, compress B fuel compression s = Done (Some bs) -> len bs <= INT_MAX) ->
  encode_payload B E K kf fuel compression encryption (Some salt) s c = Done (Some t, c1) ->
  text t /\ exists c2, decode_payload B E K kf fuel compression encryption (Some t) c' = Done (Some (Some s), c2).
Proof using EL KL Hdigest.
  intros Ht Hs Hf Hf' Hr Hk Hsl Hsb Hc Hc' Hlen. unfold encode_payload, decode_payload.
  destruct ((compression =? 0) && (encryption =? 0)); [intros [= <- _]; eauto|].
  destruct (compress B fuel compression s) as [[bs|]| |] eqn:Ec; try done.
  destruct (compress_reads_back compression s bs Ht Hs Hf Hf' Hr Ec) as [Hbs Hd].
  destruct (encryption_mode encryption) as [mode|] eqn:Em; [|done].
  destruct (encrypt_payload E K kf (Some salt) mode bs c) as [[e|] c2] eqn:Ee; [|done]. intros [= <- _].
  destruct (encrypt_reads_back encryption mode salt bs e c c2 c' Em Hk Hsl Hsb Hbs (Hlen bs eq_refl) Hc Hc' Ee) as [Heb (c3 & Hx)].
  split; [by apply base64_text|]. exists c3. rewrite base64_inverse by done. by rewrite Hx, Hd.
Qed.

Lemma string_of_str (s : string) : string_of (str s) = s.
Proof.
  unfold string_of, str. rewrite map_map. rewrite <- (String.string_of_list_ascii_of_string s) at 2. f_equal.
  rewrite <- map_id. apply map_ext. intros ch. by rewrite Nat2Z.id, ascii_nat_embedding.
Qed.

Lemma write_json_sent (w w' : writer) (compression encryption : Z) (salt : option (list Z)) (j : json) (c c1 : cache) (sent : list Z) :
  write_json big B E K kf fuel w compression encryption salt j c = Done (true, sent, w', c1) ->
  exists t, encode_payload B E K kf fuel compression encryption salt (wire_text j) c
            = Done (Some t, c1) /\ sent = mgt_frame compression encryption t.
Proof.
  unfold write_json. destruct (then_write _ _) as [[[[] s1] w1]| |] eqn:E1; try done.
  destruct (encode_payload _ _ _ _ _ _ _ _ _ _) as [[[t|] c2]| |] eqn:E2; try done.
  destruct (write_string _ _ _) as [[[ok s2] w2]| |] eqn:E3; try done. intros [= -> <- _ <-].
  exists t. split; [done|]. apply write_bytes_sent in E1 as ->. by apply write_string_sent in E3 as ->.
Qed.

Lemma json_text_length (j : json) : jok j -> (2 <= String.length (default "" (json_to_string j FORMAT_JSON_COMPACT None 0)))%nat.
Proof.
  intros Hj. change (json_to_string j FORMAT_JSON_COMPACT None 0) with (value_to_string (S (jdepth j)) (VJson j) FORMAT_JSON_COMPACT None 0).
  rewrite (value_to_string_text (S (jdepth j)) (VJson j) FORMAT_JSON_COMPACT 0 ltac:(done) (vok_json j Hj) (le_n _) None).
  apply vbody_length.
Qed.

(** The reading side of a frame. *)
Lemma read_json_arrives (rs : list rres) (compression encryption : Z) (t d : list Z) (n : nat) (c : cache) :
  arrives rs (mgt_frame compression encryption t ++ d) n -> (n <= 101)%nat -> 0 <= compression < 256 -> 0 <= encryption < 256 ->
  text t -> t <> [] -> len t < 2 ^ 32 - 1 ->
  exists rs' n', arrives rs' d n' /\
    forall s c' j, decode_payload B E K kf fuel compression encryption (Some t) c = Done (Some (Some s), c') ->
      json_parse_string (Some (string_of s)) = POk j ->
      read_json big B E K kf fuel rs c = Done (ReadOutcome compression encryption (Some j) rs' c').
Proof.
  intros H Hn Hc He Ht Hne Hl. unfold mgt_frame in H. rewrite !wrapu_id in H by done.
  destruct (read_uint8_arrives rs compression _ n H Hn Hc) as (rs1 & n1 & E1 & H1 & L1).
  destruct (read_uint8_arrives rs1 encryption _ n1 H1 L1 He) as (rs2 & n2 & E2 & H2 & L2).
  destruct (read_string_arrives big rs2 t d n2 H2 L2 Ht Hne Hl) as (rs3 & n3 & E3 & H3 & L3).
  exists rs3, n3. split; [done|]. intros s c' j Hd Hj. unfold read_json. rewrite E1, E2, E3, Hd.
  cbn [fmap option_fmap option_map]. by rewrite Hj.
Qed.

(** C14: a document that was written completely is read back on the other side as the same
    document, up to the widths of its integers, with the codes of compression and
    encryption; however the socket cuts the bytes into at most 101 pieces, with
    interruptions, and whatever comes behind them.  This holds without compression, with
    gzip and zstd, and with LZ4 for texts that do not shrink to a quarter; with and
    without encryption; and whatever keys the two processes used before. *)
Theorem document_read_back (w w' : writer) (compression encryption : Z) (salt : list Z) (j : json) (c c1 c' : cache)
  (sent d : list Z) (rs : list rres) (n : nat)
  (Hj : jok j) (Ht : text (wire_text j))
  (Hs : small (wire_text j))
  (Hr : readable compression (wire_text j))
  (Hf : (length (wire_text j) < fuel)%nat)
  (Hf' : (length (gz (B := B) (wire_text j)) < fuel)%nat)
  (Hcomp : 0 <= compression < 256) (Henc : 0 <= encryption < 256) (Hk : key_present encryption)
  (Hsl : length salt = PBKDF2_SALT_LENGTH) (Hsb : bytes_ok salt) (Hc : cache_states E P c) (Hc' : cache_states E P c')
  (Hlen : forall bs, compress B fuel compression (wire_text j) = Done (Some bs) ->
            len bs <= INT_MAX)
  (Hwrite : write_json big B E K kf fuel w compression encryption (Some salt) j c = Done (true, sent, w', c1))
  (Hsent : 6 < len sent < 2 ^ 32) (Harr : arrives rs (sent ++ d) n) (Hn : (n <= 101)%nat) :
  exists rs' n' c2, arrives rs' d n' /\
    read_json big B E K kf fuel rs c' = Done (ReadOutcome compression encryption (Some (jnorm j)) rs' c2).
Proof using EL KL Hdigest.
  destruct (write_json_sent _ _ _ _ _ _ _ _ _ Hwrite) as (t & He & ->).
  destruct (payload_reads_back _ _ _ _ _ _ _ c' Ht Hs Hf Hf' Hr Hk Hsl Hsb Hc Hc' Hlen He) as [Htt (c2 & Hd)].
  assert (Hl : len (mgt_frame compression encryption t) = 6 + len t).
  { unfold mgt_frame, len. rewrite !length_app, length_rev, length_le_bytes. cbn [length]. lia. }
  destruct (read_json_arrives rs compression encryption t d n c' Harr Hn Hcomp Henc Htt) as (rs' & n' & Ha & Hread);
    [intros ->; unfold len in *; simpl in *; lia|lia|].
  exists rs', n', c2. split; [done|]. apply (Hread _ _ _ Hd). unfold wire_text. rewrite string_of_str.
  pose proof (json_reads_back j FORMAT_JSON_COMPACT Hj ltac:(discriminate)) as Hp.
  pose proof (json_text_length j Hj). destruct (json_to_string j FORMAT_JSON_COMPACT None 0); [done|]. simpl in *; lia.
Qed.
End payloads.

(** ** Requests *)

(** A member that [pgagroal_json_put] stores and that is read back. *)
Definition member_ok (kv : string * jvalue) : Prop := kv.1 <> "" /\ vok kv.2.

Lemma vok_type (v : jvalue) : vok v -> type_allowed (jtype v) = true /\ jtype v <> ValueNone.
Proof. intros H. inversion H as [t w Ht| |t s Ht|]; subst; simpl; [by destruct t|done|by destruct Ht as [-> | ->]|done]. Qed.

Definition object (o : json) : option (list (string * jvalue)) :=
  match o with JSONUnknown => Some [] | JSONItem es => Some es | JSONArray _ => None end.

Lemma put_object (o : json) (es : list (string * jvalue)) (kv : string * jvalue) :
  object o = Some es -> member_ok kv -> put o kv = JSONItem (item_put kv.1 kv.2 es).
Proof.
  intros Ho [Hk Hv]. destruct kv as [k v]. simpl in *. destruct (vok_type v Hv) as [Ht Hn]. unfold put, json_put. cbn [fst snd].
  assert (E : (String.length k =? 0)%nat = false) by (by destruct k).
  destruct o as [|es'|]; simpl in *; [| |done]; simplify_eq; rewrite Ht, E, bool_decide_eq_false_2 by done; done.
Qed.

Lemma item_put_elem (k k' : string) (v v' : jvalue) (es : list (string * jvalue)) :
  (k', v') ∈ item_put k v es -> (k' = k /\ v' = v) \/ (k', v') ∈ es.
Proof.
  induction es as [|[k1 v1] es IH]; cbn [item_put]; [intros [= -> ->]%list_elem_of_singleton; auto|].
  destruct (_ <? 0); [|destruct (_ =? 0)]; rewrite !elem_of_cons; intros; intuition (simplify_eq; auto).
Qed.

(** The members after a sequence of stores. *)
Lemma put_all_spec (kvs : list (string * jvalue)) (o : json) (es : list (string * jvalue)) :
  object o = Some es -> jok o -> Forall member_ok kvs -> NoDup kvs.*1 ->
  exists es', object (put_all o kvs) = Some es' /\ jok (put_all o kvs) /\
    (forall k v, (k, v) ∈ kvs -> item_get k es' = Some v) /\
    (forall k, k ∉ kvs.*1 -> item_get k es' = item_get k es).
Proof.
  revert o es. induction kvs as [|[k v] kvs IH]; intros o es Ho Hj Hok Hnd.
  { exists es. split_and!; [done|done|by intros ?? ?%elem_of_nil|done]. }
  apply Forall_cons in Hok as [Hkv Hok]. apply NoDup_cons in Hnd as [Hnin Hnd]. cbn [fst] in Hnin.
  change (put_all o ((k, v) :: kvs)) with (put_all (put o (k, v)) kvs).
  pose proof (put_object o es (k, v) Ho Hkv) as Hp. cbn [fst snd] in Hp. rewrite Hp.
  destruct (IH (JSONItem (item_put k v es)) (item_put k v es)) as (es' & H1 & H2 & H3 & H4); [done| |done|done|].
  { destruct Hkv as [Hk Hv]. assert (StronglySorted key_before es.*1 /\ forall k v, (k, v) ∈ es -> k <> "" /\ vok v) as [Hs He].
    { destruct o; simpl in Ho; simplify_eq; [by split; [constructor|intros ?? ?%elem_of_nil]|by inversion Hj]. }
    apply jok_item; [by apply item_put_sorted|]. intros k' v' [[-> ->]|Hin]%item_put_elem; [done|by eapply He]. }
  exists es'. split_and!; [done|done| |].
  - intros k' v' [[= -> ->]|Hin]%elem_of_cons; [|by apply H3]. rewrite H4 by done. by rewrite item_get_put, decide_True.
  - intros k' Hk'. cbn [fmap list_fmap fst] in Hk'. rewrite not_elem_of_cons in Hk'. destruct Hk' as [Hne Hk'].
    rewrite H4 by done. by rewrite item_get_put, decide_False.
Qed.

Lemma item_get_norm (k : string) (es : list (string * jvalue)) :
  item_get k (map (fun e => (e.1, vnorm e.2)) es) = vnorm <$> item_get k es.
Proof. induction es as [|[k' v] es IH]; [done|]. cbn [map item_get fst snd]. by destruct (strcmp k k' =? 0). Qed.

(** A member of a document that was read back. *)
Lemma json_get_norm (o : json) (es : list (string * jvalue)) (k : string) (v : jvalue) :
  object o = Some es -> k <> "" -> item_get k es = Some v -> json_get (jnorm o) (Some k) = Some (vnorm v).
Proof.
  intros Ho Hk Hg. destruct o as [|es'|]; simpl in Ho; simplify_eq/=. destruct es as [|e es]; [done|].
  cbn [jnorm]. unfold json_get. assert (E : (String.length k =? 0)%nat = false) by (by destruct k). rewrite E.
  by rewrite item_get_norm, Hg.
Qed.

Lemma int32_value_ok (n : Z) : vok (int32_value n).
Proof. apply vok_int; [done|]. simpl. pose proof (wraps_range 32 (u64 n) ltac:(lia)). unfold in_i in *. lia. Qed.
Lemma int64_value_ok (n : Z) : vok (int64_value n).
Proof. apply vok_int; [done|]. simpl. pose proof (wraps_range 64 (u64 n) ltac:(lia)). unfold in_i in *. lia. Qed.
Lemma uint8_value_ok (n : Z) : vok (uint8_value n).
Proof. apply vok_int; [done|]. simpl. pose proof (wrapu_range 8 (u64 n) ltac:(lia)). unfold in_u in *. lia. Qed.
Lemma string_ok (s : option string) : vok (VStr ValueString s).
Proof. apply vok_str. by left. Qed.
Lemma bool_value_ok (b : bool) : vok (bool_value b).
Proof. apply vok_bool. Qed.
Lemma document_ok (o : json) : jok o -> vok (VJson o).
Proof. apply vok_json. Qed.

Create HintDb management.
#[export] Hint Resolve int32_value_ok int64_value_ok uint8_value_ok string_ok bool_value_ok document_ok jok_unknown : management.

Ltac members := repeat (apply Forall_cons; split; [split; [discriminate|]; cbn [snd]; eauto with management|]); try apply Forall_nil_2.
Ltac distinct := vm_compute; repeat constructor; rewrite ?elem_of_cons, ?elem_of_nil; intuition discriminate.

(** The requests of the clients. *)
Inductive is_request : management_command * list (string * jvalue) -> Prop :=
| rq_flush mode db timeout : is_request (request_flush mode db timeout)
| rq_enabledb db : is_request (request_enabledb db)
| rq_disabledb db : is_request (request_disabledb db)
| rq_get_password u : is_request (request_get_password u)
| rq_gracefully timeout : is_request (request_gracefully timeout)
| rq_clear_server s : is_request (request_clear_server s)
| rq_switch_to s : is_request (request_switch_to s)
| rq_conf_set k v : is_request (request_conf_set k v)
| rq_plain c : c ∈ [SHUTDOWN; CANCEL_SHUTDOWN; STATUS; DETAILS; PING; CLEAR; RELOAD; CONFIG_LS; CONFIG_GET; CONFIG_ALIAS] ->
    is_request (request_plain c).

Lemma requests_ok (r : management_command * list (string * jvalue)) : is_request r -> Forall member_ok r.2 /\ NoDup r.2.*1.
Proof. destruct 1; (split; [cbn [snd request_flush request_enabledb request_disabledb request_get_password request_gracefully
  request_clear_server request_switch_to request_conf_set request_plain]; members|distinct]). Qed.

(** The document of a request: the header has the command, the request its arguments. *)
Lemma request_document_spec (version timestamp : string) (compression encryption output : Z)
  (r : management_command * list (string * jvalue)) :
  Forall member_ok r.2 -> NoDup r.2.*1 ->
  let j := request_document version timestamp compression encryption output r in
  jok j /\ exists h q,
    json_get (jnorm j) (Some "Header") = Some (VJson h) /\
    json_get h (Some "Command") = Some (VWord ValueInt64 (command_code r.1)) /\
    json_get (jnorm j) (Some "Request") = Some (VJson q) /\
    forall k v, (k, v) ∈ r.2 -> json_get q (Some k) = Some (vnorm v).
Proof.
  intros Hok Hnd j. destruct r as [c args]. cbn [fst snd] in *.
  pose (hs := [("Command", int32_value (command_code c)); ("ClientVersion", string_value version); ("Output", uint8_value output);
     ("Timestamp", string_value timestamp); ("Compression", uint8_value compression); ("Encryption", uint8_value encryption)]).
  destruct (put_all_spec hs JSONUnknown []) as (he & Hh1 & Hh2 & Hh3 & _); [done|constructor|subst hs; members|subst hs; distinct|].
  destruct (put_all_spec args JSONUnknown []) as (qe & Hq1 & Hq2 & Hq3 & _); [done|constructor|done|done|].
  assert (Ej : j = put_all JSONUnknown [("Header", VJson (put_all JSONUnknown hs)); ("Request", VJson (put_all JSONUnknown args))]) by done.
  destruct (put_all_spec [("Header", VJson (put_all JSONUnknown hs)); ("Request", VJson (put_all JSONUnknown args))] JSONUnknown [])
    as (je & Hj1 & Hj2 & Hj3 & _); [done|constructor|members|distinct|].
  rewrite <- Ej in Hj1, Hj2. split; [done|]. exists (jnorm (put_all JSONUnknown hs)), (jnorm (put_all JSONUnknown args)). split_and!.
  - apply (json_get_norm j je "Header" (VJson (put_all JSONUnknown hs)) Hj1); [done|]. apply Hj3. left.
  - rewrite (json_get_norm _ he "Command" (int32_value (command_code c)) Hh1); [|done|apply Hh3; left]. by destruct c.
  - apply (json_get_norm j je "Request" (VJson (put_all JSONUnknown args)) Hj1); [done|]. apply Hj3. right. left.
  - intros k v Hin. apply (json_get_norm _ qe k v Hq1); [|by apply Hq3].
    rewrite Forall_forall in Hok. by apply (Hok (k, v)).
Qed.

(** ** Limits of the protocol *)

(** A string with the largest length is read into a buffer without any room. *)
Lemma largest_length_undefined (big : bool) (rs : list rres) :
  read_string big (RData 255 [255; 255; 255] :: rs) = Undefined.
Proof. by destruct big. Qed.

(** A string that comes in more than 101 pieces is refused. *)
Lemma many_pieces_refused (rs : list rres) :
  read_complete (replicate 101 (RData 65 []) ++ rs) 102 0 [] = Done (None, rs).
Proof. done. Qed.

(** ** An exchange *)

Lemma text_checked (s : list Z) : forallb (fun b => (0 <? b) && (b <? 256)) s = true -> text s.
Proof. induction s as [|b s IH]; [constructor|]. cbn [forallb]. rewrite !andb_true_iff. intros [H Hs]. constructor; [lia|by apply IH]. Qed.

(** A request that is compressed with gzip and encrypted with AES 256, written in several
    pieces and read in two. *)
Definition ping0 : json := request_document "2.0.0" "20260101120000" 1 1 0 (request_plain PING).

Definition key_file0 : key_file :=
  KeyFile (Some "/home/pgagroal") (Some 0x41C0) (Some 0x8180)
    (Some ("aGk=" +:+ String "010" ("MDEyMzQ1Njc4OWFiY2RlZg==" +:+ String "010" ""))).

Definition writer0 : writer := PlainWriter [Wrote 1; WFail EAGAIN; Wrote 1; Wrote 3; Wrote 9; Wrote 60; Wrote 1000].

Definition written0 : result (bool * list Z * writer * cache) :=
  Eval vm_compute in write_json false toy_libraries toy_evp toy key_file0 500 writer0 1 1 (Some (replicate 16 4)) ping0 empty_cache.

Definition sent0 : list Z := match written0 with Done (_, sent, _, _) => sent | _ => [] end.

Definition arriving0 : list rres :=
  match sent0 with
  | a :: b :: c :: d :: sent => [RData a [b; c]; RFail EAGAIN; RData d sent]
  | _ => []
  end.

Lemma document_read_back_witness :
  length sent0 = 242%nat /\
  exists rs' n' c2, arrives rs' [] n' /\
    read_json false toy_libraries toy_evp toy key_file0 500 arriving0 empty_cache = Done (ReadOutcome 1 1 (Some (jnorm ping0)) rs' c2).
Proof.
  split; [vm_compute; reflexivity|].
  refine (document_read_back false toy_libraries toy_evp toy key_file0 500 (fun _ => True) ltac:(intros p q _ _ [= H]; exact H)
    writer0 (match written0 with Done (_, _, w, _) => w | _ => writer0 end) 1 1 (replicate 16 4) ping0
    empty_cache (match written0 with Done (_, _, _, c) => c | _ => empty_cache end) empty_cache sent0 [] arriving0 2%nat
    _ _ _ _ _ _ _ _ _ _ _ (cs_start _ _) (cs_start _ _) _ _ _ _ _).
  - exact (proj1 (request_document_spec _ _ _ _ _ (request_plain PING) ltac:(constructor) ltac:(constructor))).
  - apply text_checked. vm_compute. reflexivity.
  - unfold small. vm_compute. discriminate.
  - split; [discriminate|]. intros ?. discriminate.
  - apply Nat.ltb_lt. vm_compute. reflexivity.
  - apply Nat.ltb_lt. vm_compute. reflexivity.
  - lia.
  - lia.
  - right. exists (str "hi"), (str "0123456789abcdef"). vm_compute. repeat split.
  - reflexivity.
  - apply text_bytes, text_checked. vm_compute. reflexivity.
  - intros bs Hbs. assert (match compress toy_libraries 500 1 (wire_text ping0) with Done (Some b) => len b <=? INT_MAX | _ => false end = true) as Hl
      by (vm_compute; reflexivity). rewrite Hbs in Hl. by apply Z.leb_le.
  - vm_compute. reflexivity.
  - split; vm_compute; reflexivity.
  - unfold arriving0. vm_compute. exact (arrives_data _ _ _ _ _ (arrives_again _ _ _ (arrives_data _ _ _ _ _ arrives_nil))).
  - lia.
Defined.
