(* ===== verification/MainProcess.v ===== *)
(** * The main process ([main.c])

    The handler of the management socket and the timers of the main process.  A handler is a
    function of the state that only the main process writes, of what it reads elsewhere and
    of the answers of the system; what it does to others is a list of actions: children that
    are forked, whose work is that of [Pool], [Server] and [ConfSet], signals and the end of
    the event loop. *)

From Stdlib Require Import Ascii.
From S2P Require Import Prelude Utf8 Wire Frames Message Text Value Json Config Hba Settings Scram Compress Aes Pool Management.

Local Open Scope Z_scope.

Definition NUMBER_OF_DISABLED : nat := 64.

(** ** State *)

(** [struct timespec] of the monotonic clock. *)
Record timespec := Timespec { tv_sec : Z; tv_nsec : Z }.

(** [struct flush_timeout_slot]. *)
Record flush_timeout_slot := FlushSlot { in_use : bool; fs_database : string; expires_at : timespec }.

Definition free_flush_slot (f : flush_timeout_slot) : flush_timeout_slot := FlushSlot false "" (expires_at f).

(** A timer of the event loop that was started: when, and its delay in milliseconds. *)
Record timer := Timer { tm_start : timespec; tm_delay : Z }.

(** What the main process writes: [all_disabled], [disabled], [gracefully] and [keep_running] of the
    shared configuration, [flush_timeouts], the timers for the shutdown and for flushes, and
    the processes of [clients]. *)
Record main_state := MainState {
  st_all_disabled : bool;
  st_disabled : list string;
  st_gracefully : bool;
  st_keep_running : bool;
  st_shutdown_timer : option timer;
  st_flush_timeouts : list flush_timeout_slot;
  st_flush_alarm : option timer;
  st_clients : list Z }.

Definition set_disabled (all : bool) (l : list string) (st : main_state) : main_state :=
  MainState all l (st_gracefully st) (st_keep_running st) (st_shutdown_timer st) (st_flush_timeouts st) (st_flush_alarm st) (st_clients st).
Definition set_running (gracefully keep_running : bool) (t : option timer) (st : main_state) : main_state :=
  MainState (st_all_disabled st) (st_disabled st) gracefully keep_running t (st_flush_timeouts st) (st_flush_alarm st) (st_clients st).
Definition set_flush (l : list flush_timeout_slot) (a : option timer) (st : main_state) : main_state :=
  MainState (st_all_disabled st) (st_disabled st) (st_gracefully st) (st_keep_running st) (st_shutdown_timer st) l a (st_clients st).
Definition set_clients (l : list Z) (st : main_state) : main_state :=
  MainState (st_all_disabled st) (st_disabled st) (st_gracefully st) (st_keep_running st) (st_shutdown_timer st) (st_flush_timeouts st)
    (st_flush_alarm st) l.

(** The children of a handler. *)
Inductive child :=
| ChildFlush | ChildStatus | ChildDetails | ChildConfGet | ChildConfSet | ChildConfAlias
| ChildFlushServer (server : nat)
| ChildFlushDatabase (mode : flush_mode) (database : string).

Inductive action :=
| ActFork (c : child)
| ActBreak
| ActClearMetrics
| ActClearServer (server : option string)
| ActReload.

(** What the system answers during a handler: the clock at its first and at its second reading, whether [fork] and the start of a
    timer succeed, the number of active connections, the result of [pgagroal_server_switch], the
    primary before it, the result of a reload, and what the servers say to a [ping]. *)
Record answers := Answers {
  an_now : timespec;
  an_later : timespec;
  an_fork : bool;
  an_timer : bool;
  an_active : Z;
  an_old_primary : option nat;
  an_switched : bool;
  an_restart : bool;
  an_connectivity : nat -> string * string * Z }.

(** ** Timers *)

(** [start_periodic_watcher] and [stop_periodic_watcher]: a timer that runs is replaced. *)
Definition start_periodic_watcher (ok : bool) (now : timespec) (timeout_ms : Z) : option timer :=
  if ok then Some (Timer now timeout_ms) else None.
Definition stop_periodic_watcher : option timer := None.

(** The comparison of two points in time. *)
Definition ts_before (a b : timespec) : bool :=
  (tv_sec a <? tv_sec b) || ((tv_sec a =? tv_sec b) && (tv_nsec a <? tv_nsec b)).

(** The loop of [rearm_flush_alarm]. *)
Definition earliest (l : list flush_timeout_slot) : option timespec :=
  fold_left (fun e f =>
    if in_use f
    then match e with
         | Some t => if ts_before (expires_at f) t then Some (expires_at f) else e
         | None => Some (expires_at f)
         end
    else e) l None.

(** The milliseconds until a point in time. *)
Definition delta_ms (now t : timespec) : Z :=
  (tv_sec t - tv_sec now) * 1000 + Z.quot (tv_nsec t - tv_nsec now) 1000000.

(** Whether a number fits [int64_t]: the overflow of signed numbers is undefined. *)
Definition fits64 (x : Z) : bool := (- 2 ^ 63 <=? x) && (x <? 2 ^ 63).

(** Whether the three operations of [delta_ms] fit. *)
Definition delta_fits (now t : timespec) : bool :=
  fits64 (tv_sec t - tv_sec now) && fits64 ((tv_sec t - tv_sec now) * 1000) && fits64 (delta_ms now t).

(** [rearm_flush_alarm]: the new alarm; [None] is an overflow. *)
Definition rearm_flush_alarm (ok : bool) (now : timespec) (l : list flush_timeout_slot) : option (option timer) :=
  match earliest l with
  | None => Some stop_periodic_watcher
  | Some t =>
      if delta_fits now t
      then Some (start_periodic_watcher ok now (if delta_ms now t <=? 0 then 1 else delta_ms now t)) else None
  end.

(** The index of the first slot that satisfies [p]. *)
Fixpoint first_slot (p : flush_timeout_slot -> bool) (l : list flush_timeout_slot) : option nat :=
  match l with
  | [] => None
  | f :: l => if p f then Some O else S <$> first_slot p l
  end.

(** [arm_flush_timeout]; [None] is an overflow. *)
Definition arm_flush_timeout (an : answers) (seconds : Z) (database : option string) (st : main_state) : option main_state :=
  let db := match database with Some "" | None => "*" | Some d => d end in
  if seconds <=? 0 then Some st
  else
    let l := st_flush_timeouts st in
    let slot := match first_slot (fun f => in_use f && streq (fs_database f) db) l with
                | Some i => Some i
                | None => first_slot (fun f => negb (in_use f)) l
                end in
    match slot with
    | None => Some st
    | Some i =>
        if negb (fits64 (tv_sec (an_now an) + seconds)) then None
        else
          let expires := Timespec (tv_sec (an_now an) + seconds) (tv_nsec (an_now an)) in
          let l' := <[i := FlushSlot true (strtrunc MAX_DATABASE_LENGTH db) expires]> l in
          alarm ← rearm_flush_alarm (an_timer an) (an_later an) l';
          Some (match alarm with
                | Some t => set_flush l' (Some t) st
                | None => set_flush (<[i := FlushSlot false "" expires]> l') None st
                end)
    end.

(** One slot in [flush_alarm_cb]: what becomes of it, and the flush that it causes. *)
Definition expired (now : timespec) (f : flush_timeout_slot) : bool := in_use f && negb (ts_before now (expires_at f)).

Definition flush_all_action (an : answers) (f : flush_timeout_slot) : list action :=
  if (0 <? an_active an) && an_fork an
  then [ActFork (ChildFlushDatabase FLUSH_ALL (if streq (fs_database f) "" then "*" else fs_database f))]
  else [].

(** [flush_alarm_cb]: the callback of the alarm; [None] is an overflow. *)
Definition flush_alarm_cb (an : answers) (st : main_state) : option (main_state * list action) :=
  let l := st_flush_timeouts st in
  let l' := map (fun f => if expired (an_now an) f then free_flush_slot f else f) l in
  alarm ← rearm_flush_alarm (an_timer an) (an_later an) l';
  Some (set_flush l' alarm st, mjoin (map (flush_all_action an) (List.filter (expired (an_now an)) l))).

(** [shutdown_timeout_cb], [shutdown_cb] and [graceful_cb]. *)
Definition shutdown_timeout_cb (st : main_state) : main_state * list action :=
  (set_running false false (st_shutdown_timer st) st, [ActBreak]).

Definition shutdown_cb (st : main_state) : main_state * list action :=
  (set_running (st_gracefully st) false (st_shutdown_timer st) st, [ActBreak]).

Definition graceful_cb (an : answers) (st : main_state) : main_state * list action :=
  (set_running true (st_keep_running st) (st_shutdown_timer st) st,
   if an_active an =? 0 then [ActBreak] else []).

(** ** Clients *)

(** [add_client] and [remove_client]. *)
Definition add_client (pid : Z) (st : main_state) : main_state := set_clients (st_clients st ++ [pid]) st.

Fixpoint unlink_client (pid : Z) (l : list Z) : list Z :=
  match l with
  | [] => []
  | p :: l => if p =? pid then l else p :: unlink_client pid l
  end.

Definition remove_client (pid : Z) (st : main_state) : main_state := set_clients (unlink_client pid (st_clients st)) st.

(** ** Databases *)

(** What the answer says about a database. *)
Definition database_entry (database : string) (enabled : bool) : jvalue :=
  VJson (put_all JSONUnknown [("Database", string_value database); ("Enabled", bool_value enabled)]).

(** The first entry that satisfies [p] is replaced. *)
Fixpoint replace_first (p : string -> bool) (new : string) (l : list string) : list string * bool :=
  match l with
  | [] => ([], false)
  | d :: l => if p d then (new :: l, true) else let '(l, b) := replace_first p new l in (d :: l, b)
  end.

(** [MANAGEMENT_ENABLEDB]: the databases of the answer. *)
Definition enabledb (database : option string) (st : main_state) : main_state * list jvalue :=
  match database with
  | Some db =>
      if streq db "all" then (set_disabled false (replicate NUMBER_OF_DISABLED "") st, [database_entry db true])
      else
        let '(l, found) := replace_first (fun d => streq d db) "" (st_disabled st) in
        (set_disabled (st_all_disabled st) l st, if found then [database_entry db true] else [])
  | None => (st, [])
  end.

(** [MANAGEMENT_DISABLEDB]: [None] is a name that is missing, or that does not fit an
    entry with its zero byte. *)
Definition disabledb (database : option string) (st : main_state) : option (main_state * list jvalue) :=
  match database with
  | Some db =>
      if streq db "*" || streq db "all"
      then Some (set_disabled true (replicate NUMBER_OF_DISABLED "") st, [database_entry db false])
      else if negb (existsb (fun d => streq d "") (st_disabled st)) then Some (set_disabled false (st_disabled st) st, [])
      else if (MAX_DATABASE_LENGTH <=? String.length db)%nat then None
      else Some (set_disabled false (replace_first (fun d => streq d "") db (st_disabled st)).1 st, [database_entry db false])
  | None =>
      if existsb (fun d => streq d "") (st_disabled st) then None else Some (set_disabled false (st_disabled st) st, [])
  end.

(** ** Requests *)

(** A member that is used as a document, as a string and as a number.  [pgagroal_json_get]
    answers the stored word or pointer: a member of another type is used as a pointer, or
    the other way round. *)
Definition member_json (o : option json) (key : string) : option (option json) :=
  match match o with Some o => json_get o (Some key) | None => None end with
  | None | Some (VWord _ 0) | Some (VStr _ None) => Some None
  | Some (VJson o) => Some (Some o)
  | _ => None
  end.

Definition member_string (o : option json) (key : string) : option (option string) :=
  match match o with Some o => json_get o (Some key) | None => None end with
  | None | Some (VWord _ 0) => Some None
  | Some (VStr _ s) => Some s
  | _ => None
  end.

Definition member_word (o : option json) (key : string) : option Z :=
  match match o with Some o => json_get o (Some key) | None => None end with
  | None | Some (VStr _ None) => Some 0
  | Some (VWord _ w) => Some w
  | _ => None
  end.

Definition command_of (id : Z) : option management_command :=
  List.find (fun c => command_code c =? id)
    [CANCEL_SHUTDOWN; CONFIG_LS; CONFIG_GET; CONFIG_SET; DETAILS; DISABLEDB; ENABLEDB; FLUSH; GET_PASSWORD; GRACEFULLY; PING;
     RELOAD; CLEAR; CLEAR_SERVER; SHUTDOWN; STATUS; SWITCH_TO; CONFIG_ALIAS].

(** What goes back to the client: the fields of the response, an error, or nothing, because a
    child answers. *)
Inductive reply := ReplyOk (fields : option (list (string * jvalue))) | ReplyError (code : Z) | ReplyChild.

Definition MANAGEMENT_ERROR_UNKNOWN_COMMAND : Z := 2.
Definition MANAGEMENT_ERROR_FLUSH_NOFORK : Z := 200.
Definition MANAGEMENT_ERROR_STATUS_NOFORK : Z := 700.
Definition MANAGEMENT_ERROR_CONF_GET_NOFORK : Z := 900.
Definition MANAGEMENT_ERROR_CONF_SET_NOFORK : Z := 1000.
Definition MANAGEMENT_ERROR_CONF_ALIAS_NOFORK : Z := 1200.
Definition MANAGEMENT_ERROR_SWITCH_TO_FAILED : Z := 1300.

(** The timeout of a request, or that of the configuration. *)
Definition timeout_seconds (c : main_configuration) (requested : Z) : Z :=
  if 0 <=? requested then requested
  else if time_is_valid (mc_flush_timeout c) then time_convert (mc_flush_timeout c) FORMAT_TIME_S else 0.

(** A request that a child serves. *)
Definition serve_child (an : answers) (error : Z) (c : child) (st : main_state) : main_state * list action * reply :=
  if an_fork an then (st, [ActFork c], ReplyChild) else (st, [], ReplyError error).

(** The servers in the answer to a [ping]. *)
Definition valid_server_entry (an : answers) (i : nat) (s : server_entry) : jvalue :=
  let '(status, primary, behind) := an_connectivity an i in
  VJson (put_all JSONUnknown
    ([("Host", string_value (sv_host s)); ("Port", int32_value (sv_port s)); ("Status", string_value status);
      ("Primary", string_value primary)] ++ (if 0 <=? behind then [("Behind", int64_value behind)] else []))).

Definition invalid_server_entry (s : server_entry) : jvalue :=
  VJson (put_all JSONUnknown
    [("Host", string_value (sv_host s)); ("Port", int32_value (sv_port s)); ("Status", string_value "Invalid")]).

Definition ping_fields (an : answers) (c : main_configuration) : list (string * jvalue) :=
  let named f := omap (fun '(i, s) => if streq (sv_name s) "" then None else f i s) (imap pair (mc_servers c)) in
  [("Servers", VJson (put_all JSONUnknown
     (named (fun i s => if sv_valid s then Some (sv_name s, valid_server_entry an i s) else None))));
   ("invalid_servers", VJson (put_all JSONUnknown
     (named (fun i s => if sv_valid s then None else Some (sv_name s, invalid_server_entry s)))))].

(** The paths of [conf ls] are those of the configuration; they do not change. *)
Record conf_paths := ConfPaths {
  cp_main : string; cp_hba : string; cp_limit : string; cp_users : string; cp_frontend_users : string; cp_admins : string;
  cp_superuser : string }.

Section handler.
Context (c : main_configuration) (paths : conf_paths) (an : answers).

(** The branches of the handler, with the request of the document: [None] is undefined. *)

(** [MANAGEMENT_FLUSH]. *)
Definition serve_flush (req : option json) (st : main_state) : option (main_state * list action * reply) :=
  mode ← match req with Some _ => member_word req "Mode" | None => Some (-1) end;
  timeout ← match req with Some _ => member_word req "Timeout" | None => Some (-1) end;
  database ← member_string req "Database";
  let '(st, acts, r) := serve_child an MANAGEMENT_ERROR_FLUSH_NOFORK ChildFlush st in
  let secs := timeout_seconds c (i64 timeout) in
  if an_fork an && (i32 mode =? 1) && (0 <? secs) && (0 <? an_active an)
  then st ← arm_flush_timeout an secs database st; Some (st, acts, r)
  else Some (st, acts, r).

(** The answer to [MANAGEMENT_ENABLEDB] and [MANAGEMENT_DISABLEDB]. *)
Definition databases_reply (dbs : list jvalue) : reply :=
  ReplyOk (Some [("Databases", VJson (fold_left (fun a v => (json_append a v).2) dbs JSONUnknown))]).

(** [MANAGEMENT_GRACEFULLY]. *)
Definition serve_gracefully (req : option json) (st : main_state) : option (main_state * list action * reply) :=
  timeout ← match req with Some _ => member_word req "Timeout" | None => Some (-1) end;
  let secs := timeout_seconds c (i64 timeout) in
  t ← (if (0 <? secs) && (0 <? an_active an)
       then if fits64 (secs * 1000) then Some (start_periodic_watcher (an_timer an) (an_now an) (secs * 1000)) else None
       else Some (st_shutdown_timer st));
  Some (set_running true (st_keep_running st) t st, [], ReplyOk None).

(** [MANAGEMENT_SWITCH_TO]. *)
Definition serve_switch_to (req : option json) (st : main_state) : option (main_state * list action * reply) :=
  _ ← member_string req "Server";
  Some (if an_switched an
        then (st, if an_fork an
                  then [ActFork (match an_old_primary an with
                                 | Some i => ChildFlushServer i
                                 | None => ChildFlushDatabase FLUSH_GRACEFULLY "*"
                                 end)]
                  else [], ReplyOk None)
        else (st, [], ReplyError MANAGEMENT_ERROR_SWITCH_TO_FAILED)).

(** [MANAGEMENT_CONFIG_LS]. *)
Definition conf_ls_fields : list (string * jvalue) :=
  [("main_configuration_path", string_value (cp_main paths)); ("hba_configuration_path", string_value (cp_hba paths));
   ("limit_configuration_path", string_value (cp_limit paths)); ("users_configuration_path", string_value (cp_users paths));
   ("frontend_users_configuration_path", string_value (cp_frontend_users paths));
   ("admin_configuration_path", string_value (cp_admins paths));
   ("superuser_configuration_path", string_value (cp_superuser paths))].

(** [MANAGEMENT_GET_PASSWORD]. *)
Definition serve_get_password (req : option json) (st : main_state) : option (main_state * list action * reply) :=
  username ← member_string req "Username";
  let known := u ← username; List.find (fun f => streq (u_username f) u) (mc_frontend_users c) in
  Some (st, [], ReplyOk (Some [("Username", VStr ValueString username); ("Password", VStr ValueString (u_password <$> known))])).

(** One command. *)
Definition serve (cmd : management_command) (req : option json) (st : main_state)
  : option (main_state * list action * reply) :=
  match cmd with
  | FLUSH => serve_flush req st
  | ENABLEDB =>
      database ← member_string req "Database";
      let '(st, dbs) := enabledb database st in Some (st, [], databases_reply dbs)
  | DISABLEDB =>
      database ← member_string req "Database";
      '(st, dbs) ← disabledb database st;
      Some (st, [], databases_reply dbs)
  | GRACEFULLY => serve_gracefully req st
  | SHUTDOWN => Some (set_running (st_gracefully st) false (st_shutdown_timer st) st, [ActBreak], ReplyOk None)
  | CANCEL_SHUTDOWN => Some (set_running false (st_keep_running st) stop_periodic_watcher st, [], ReplyOk None)
  | STATUS => Some (serve_child an MANAGEMENT_ERROR_STATUS_NOFORK ChildStatus st)
  | DETAILS => Some (serve_child an MANAGEMENT_ERROR_STATUS_NOFORK ChildDetails st)
  | PING => Some (st, [], ReplyOk (Some (ping_fields an c)))
  | CLEAR => Some (st, [ActClearMetrics], ReplyOk None)
  | CLEAR_SERVER => server ← member_string req "Server"; Some (st, [ActClearServer server], ReplyOk None)
  | SWITCH_TO => serve_switch_to req st
  | RELOAD => Some (st, [ActReload], ReplyOk (Some [("Restart", bool_value (an_restart an))]))
  | CONFIG_LS => Some (st, [], ReplyOk (Some conf_ls_fields))
  | CONFIG_GET => Some (serve_child an MANAGEMENT_ERROR_CONF_GET_NOFORK ChildConfGet st)
  | CONFIG_SET => Some (serve_child an MANAGEMENT_ERROR_CONF_SET_NOFORK ChildConfSet st)
  | CONFIG_ALIAS => Some (serve_child an MANAGEMENT_ERROR_CONF_ALIAS_NOFORK ChildConfAlias st)
  | GET_PASSWORD => serve_get_password req st
  end.

(** The part of [accept_mgt_cb] behind the document: the command, and the end of the event
    loop when the pool is to stop and no connection is active.  The label [error] leaves
    before that check. *)
Definition accept_mgt_cb (payload : json) (st : main_state) : option (main_state * list action * reply) :=
  header ← member_json (Some payload) "Header";
  id ← member_word header "Command";
  match command_of (i32 id) with
  | None => Some (st, [], ReplyError MANAGEMENT_ERROR_UNKNOWN_COMMAND)
  | Some cmd =>
      req ← member_json (Some payload) "Request";
      '(st, acts, r) ← serve cmd req st;
      let failed := match r with ReplyError code => negb (code =? MANAGEMENT_ERROR_SWITCH_TO_FAILED) | _ => false end in
      Some (st, acts ++ (if negb failed && st_gracefully st && st_keep_running st && (an_active an =? 0) then [ActBreak] else []), r)
  end.
End handler.

(** The document that goes back. *)
Definition reply_document (version : string) (start_time end_time : Z) (payload : json) (r : reply) : option json :=
  match r with
  | ReplyOk None => Some (create_outcome_success payload start_time end_time)
  | ReplyOk (Some fields) => Some (create_outcome_success (create_response version payload None fields) start_time end_time)
  | ReplyError code => Some (create_outcome_failure payload code)
  | ReplyChild => None
  end.
