(* ===== verification/MainFacts.v ===== *)
(** * Facts about the main process

    A request that a client sends is served as the command and the arguments that it
    has; which databases are disabled; the alarm for the timeouts of flushes is set in
    time; and the event loop ends only when it was asked for. *)

From Stdlib Require Import Ascii.
From S2P Require Import Prelude Utf8 Wire Frames Message Text Value Json JsonFacts Config Hba Settings Scram Compress Aes Pool ConfFile ConfReload ConfSet ConfReloadFacts Management ManagementFacts MainProcess.

Local Open Scope Z_scope.

(** ** Requests *)

(** How the handler ends after a command. *)
Definition finish (an : answers) (x : main_state * list action * reply) : main_state * list action * reply :=
  let '(st, acts, r) := x in
  let failed := match r with ReplyError code => negb (code =? MANAGEMENT_ERROR_SWITCH_TO_FAILED) | _ => false end in
  (st, acts ++ (if negb failed && st_gracefully st && st_keep_running st && (an_active an =? 0) then [ActBreak] else []), r).

Lemma command_of_code (cmd : management_command) : command_of (i32 (command_code cmd)) = Some cmd.
Proof. by destruct cmd. Qed.

Lemma member_string_norm (q : json) (k : string) (s : option string) :
  json_get q (Some k) = Some (vnorm (VStr ValueString s)) -> member_string (Some q) k = Some s.
Proof. unfold member_string. by intros ->. Qed.

Lemma member_word_int32 (q : json) (k : string) (n : Z) :
  in_i 32 n -> json_get q (Some k) = Some (vnorm (int32_value n)) -> exists w, member_word (Some q) k = Some w /\ i32 w = n.
Proof.
  unfold member_word. intros Hn ->. eexists; split; [done|]. simpl.
  assert (H : forall x, i32 (u64 x) = i32 x).
  { intros x. unfold wraps, wrapu. rewrite <- (Zplus_mod_idemp_l (x mod _)).
    rewrite Z.mod_mod_divide by (exists (2 ^ 32); done). by rewrite Zplus_mod_idemp_l. }
  rewrite !H. by rewrite !(wraps_id 32 n) by (done || lia).
Qed.

Lemma member_word_int64 (q : json) (k : string) (n : Z) :
  in_i 64 n -> json_get q (Some k) = Some (vnorm (int64_value n)) -> exists w, member_word (Some q) k = Some w /\ i64 w = n.
Proof.
  unfold member_word. intros Hn ->. eexists; split; [done|]. simpl.
  rewrite !wraps_wrapu by lia. by rewrite !wraps_id by (done || lia || (rewrite wraps_id; done || lia)).
Qed.

(** C17: a request of a client, once its document was read, is served as the command that
    it is, and the handler finds the arguments that the client gave: its strings, and its
    numbers within their width. *)
Theorem request_served (c : main_configuration) (paths : conf_paths) (an : answers) (version timestamp : string)
  (compression encryption output : Z) (r : management_command * list (string * jvalue)) (st : main_state) (Hr : is_request r) :
  exists req,
    accept_mgt_cb c paths an (jnorm (request_document version timestamp compression encryption output r)) st =
      (x ← serve c paths an r.1 (Some req) st; Some (finish an x)) /\
    (forall k s, (k, VStr ValueString s) ∈ r.2 -> member_string (Some req) k = Some s) /\
    (forall k n, in_i 32 n -> (k, int32_value n) ∈ r.2 -> exists w, member_word (Some req) k = Some w /\ i32 w = n) /\
    (forall k n, in_i 64 n -> (k, int64_value n) ∈ r.2 -> exists w, member_word (Some req) k = Some w /\ i64 w = n).
Proof.
  destruct (requests_ok r Hr) as [Hok Hnd].
  destruct (request_document_spec version timestamp compression encryption output r Hok Hnd) as (_ & h & q & Hh & Hc & Hq & Ha).
  exists q. split_and!.
  - unfold accept_mgt_cb, member_json. rewrite Hh. cbn [mbind option_bind]. unfold member_word. rewrite Hc. cbn [mbind option_bind].
    rewrite command_of_code, Hq. cbn [mbind option_bind]. destruct (serve c paths an r.1 (Some q) st) as [[[st' acts] rep]|]; done.
  - intros k s Hin. by apply member_string_norm, Ha.
  - intros k n Hn Hin. apply member_word_int32; [done|]. by apply Ha.
  - intros k n Hn Hin. apply member_word_int64; [done|]. by apply Ha.
Qed.

(** A header or a request that is a number is used as a pointer. *)
Lemma header_number_undefined (c : main_configuration) (paths : conf_paths) (an : answers) (w : positive) (st : main_state) :
  accept_mgt_cb c paths an (JSONItem [("Header", VWord ValueInt64 (Zpos w))]) st = None.
Proof. done. Qed.

(** ** The end of the event loop *)

Lemma arm_running (an : answers) (secs : Z) (db : option string) (st st' : main_state) :
  arm_flush_timeout an secs db st = Some st' -> st_keep_running st' = st_keep_running st /\ st_gracefully st' = st_gracefully st.
Proof.
  unfold arm_flush_timeout. destruct (secs <=? 0); [by intros [= <-]|].
  destruct (match first_slot _ _ with Some _ => _ | None => _ end); [|by intros [= <-]].
  destruct (negb _); [done|]. destruct (rearm_flush_alarm _ _ _) as [[]|]; [by intros [= <-]..|done].
Qed.

Lemma enabledb_running (db : option string) (st : main_state) : st_keep_running (enabledb db st).1 = st_keep_running st.
Proof. unfold enabledb. destruct db as [db|]; [|done]. destruct (streq db "all"); [done|]. by destruct (replace_first _ _ _). Qed.

Lemma disabledb_running (db : option string) (st st' : main_state) (l : list jvalue) :
  disabledb db st = Some (st', l) -> st_keep_running st' = st_keep_running st.
Proof. unfold disabledb. repeat case_match; intros; by simplify_eq/=. Qed.

(** A command ends the loop only as a shutdown, and none starts the pool again. *)
Lemma serve_running (c : main_configuration) (paths : conf_paths) (an : answers) (cmd : management_command) (req : option json)
  (st st' : main_state) (acts : list action) (r : reply) :
  serve c paths an cmd req st = Some (st', acts, r) ->
  (ActBreak ∈ acts -> st_keep_running st' = false) /\ (st_keep_running st' = true -> st_keep_running st = true).
Proof.
  assert (Hchild : forall e ch st1 acts1 r1, serve_child an e ch st = (st1, acts1, r1) -> st1 = st /\ (ActBreak ∈ acts1 -> False)).
  { unfold serve_child. intros e ch st1 acts1 r1. destruct (an_fork an); intros [= <- <- _]; (split; [done|]);
      [intros [=]%list_elem_of_singleton|apply not_elem_of_nil]. }
  assert (Hnil : ActBreak ∈ ([] : list action) -> False) by apply not_elem_of_nil.
  assert (Hone : forall a, a <> ActBreak -> ActBreak ∈ [a] -> False) by (intros a Ha H%list_elem_of_singleton; congruence).
  destruct cmd; cbv beta iota zeta delta [serve serve_flush serve_gracefully serve_switch_to serve_get_password]; intros H; repeat (apply bind_Some in H as (? & ? & H)).
  all: try (injection H as <- <- <-; split; [intros []%Hnil|done]).
  all: try (injection H as <- <- <-; split; [intros []%Hone; done|done]).
  all: try (injection H as H; apply Hchild in H as [-> Hb]; split; [by intros []%Hb|done]).
  - destruct x0 as [st1 l]. injection H as <- <- <-. split; [intros []%Hnil|]. by rewrite (disabledb_running _ _ _ _ H1).
  - pose proof (enabledb_running x st). destruct (enabledb x st) as [st1 l]. injection H as <- <- <-.
    split; [intros []%Hnil|]. simpl in *. congruence.
  - destruct (serve_child an MANAGEMENT_ERROR_FLUSH_NOFORK ChildFlush st) as [[st1 a1] r1] eqn:Ef. apply Hchild in Ef as [-> Hb].
    destruct (_ && _); [apply bind_Some in H as (st2 & Ha%arm_running & H)|]; injection H as <- <- <-; (split; [by intros []%Hb|]); [by rewrite (proj1 Ha)|done].
  - by injection H as <- <- <-.
  - destruct (an_switched an); injection H as <- <- <-; (split; [|done]); [|intros []%Hnil].
    destruct (an_fork an); [intros []%Hone; done|intros []%Hnil].
Qed.

(** C37: serving a request ends the event loop only when a shutdown was asked for, or when the
    pool is to stop gracefully and no connection is active; a pool that stopped running does
    not run again. *)
Theorem loop_ends_when_asked (c : main_configuration) (paths : conf_paths) (an : answers) (payload : json)
  (st st' : main_state) (acts : list action) (r : reply)
  (H : accept_mgt_cb c paths an payload st = Some (st', acts, r)) :
  (ActBreak ∈ acts -> st_keep_running st' = false \/ (st_gracefully st' = true /\ an_active an = 0)) /\
  (st_keep_running st' = true -> st_keep_running st = true).
Proof.
  unfold accept_mgt_cb in H. destruct (member_json (Some payload) "Header") as [h|]; [|done]. cbn [mbind option_bind] in H.
  destruct (member_word h "Command") as [id|]; [|done]. cbn [mbind option_bind] in H.
  destruct (command_of (i32 id)) as [cmd|]; [|by injection H as <- <- _; split; [intros ?%elem_of_nil|]].
  destruct (member_json (Some payload) "Request") as [req|]; [|done]. cbn [mbind option_bind] in H.
  destruct (serve c paths an cmd req st) as [[[st1 acts1] r1]|] eqn:Es; [|done]. injection H as -> <- <-.
  destruct (serve_running _ _ _ _ _ _ _ _ _ Es) as [H1 H2]. split; [|done]. rewrite elem_of_app. intros [Hin|Hin]; [by left; apply H1|]. right.
  destruct (_ && _) eqn:E; [|by apply elem_of_nil in Hin]. rewrite !andb_true_iff, Z.eqb_eq in E. tauto.
Qed.

(** ** Databases *)

(** The databases of the state, for the check that authentication makes. *)
Definition with_databases (cfg : security) (st : main_state) : security :=
  Security (s_config cfg) (s_tls cfg) (hbas cfg) (frontend_users cfg) (admins cfg) (superuser cfg) (st_all_disabled st) (st_disabled st).

Lemma is_disabled_state (cfg : security) (st : main_state) (d : string) :
  is_disabled (with_databases cfg st) d = true <-> st_all_disabled st = true \/ d ∈ st_disabled st.
Proof.
  unfold is_disabled, with_databases. cbn [all_disabled disabled]. rewrite orb_true_iff, existsb_exists. split.
  - intros [H|(x & Hin & E%streq_true)]; [by left|right]. subst x. by apply list_elem_of_In.
  - intros [H|H]; [by left|right]. exists d. rewrite <- list_elem_of_In. split; [done|apply streq_refl].
Qed.

Lemma replace_first_found (p : string -> bool) (new : string) (l : list string) :
  existsb p l = true -> exists l1 x l2, l = l1 ++ x :: l2 /\ p x = true /\ replace_first p new l = (l1 ++ new :: l2, true).
Proof.
  induction l as [|d l IH]; [done|]. cbn [existsb replace_first]. destruct (p d) eqn:Ep.
  - intros _. by exists [], d, l.
  - intros H. destruct (IH H) as (l1 & x & l2 & -> & Hx & E). exists (d :: l1), x, l2. rewrite E. done.
Qed.

Lemma replace_first_absent (p : string -> bool) (new : string) (l : list string) :
  existsb p l = false -> replace_first p new l = (l, false).
Proof. induction l as [|d l IH]; [done|]. cbn [existsb replace_first]. intros [-> H]%orb_false_iff. by rewrite IH. Qed.

Lemma existsb_streq_elem (d : string) (l : list string) : existsb (fun x => streq x d) l = bool_decide (d ∈ l).
Proof.
  apply eq_true_iff_eq. rewrite existsb_exists, bool_decide_eq_true. split.
  - intros (x & Hin & ->%streq_true). by apply list_elem_of_In.
  - intros H. exists d. rewrite <- list_elem_of_In. split; [done|apply streq_refl].
Qed.

Definition no_database : list string := replicate NUMBER_OF_DISABLED "".

Lemma not_in_no_database (d : string) : d <> "" -> d ∉ no_database.
Proof. intros Hd H. apply elem_of_replicate in H as [H _]. done. Qed.

(** Storing a name in a free entry. *)
Lemma disabledb_one (db : string) (st : main_state) :
  db <> "*" -> db <> "all" -> "" ∈ st_disabled st -> (String.length db < MAX_DATABASE_LENGTH)%nat ->
  exists l1 l2, st_disabled st = l1 ++ "" :: l2 /\
    disabledb (Some db) st = Some (set_disabled false (l1 ++ db :: l2) st, [database_entry db false]).
Proof.
  intros H1 H2 H3 H4. unfold disabledb. rewrite (proj2 (streq_false db "*")), (proj2 (streq_false db "all")) by done. cbn [orb].
  rewrite existsb_streq_elem, bool_decide_eq_true_2 by done. cbn [negb]. rewrite (proj2 (Nat.leb_gt _ _)) by done.
  destruct (replace_first_found (fun d => streq d "") db (st_disabled st)) as (l1 & x & l2 & E & Hx%streq_true & ->);
    [by rewrite existsb_streq_elem, bool_decide_eq_true_2|]. subst x. eauto.
Qed.

(** Removing a name. *)
Lemma enabledb_one (db : string) (st : main_state) :
  db <> "all" -> db ∈ st_disabled st ->
  exists l1 l2, st_disabled st = l1 ++ db :: l2 /\
    enabledb (Some db) st = (set_disabled (st_all_disabled st) (l1 ++ "" :: l2) st, [database_entry db true]).
Proof.
  intros H1 H2. unfold enabledb. rewrite (proj2 (streq_false db "all")) by done.
  destruct (replace_first_found (fun d => streq d db) "" (st_disabled st)) as (l1 & x & l2 & E & Hx%streq_true & ->);
    [by rewrite existsb_streq_elem, bool_decide_eq_true_2|]. subst x. eauto.
Qed.

(** What the requests [enabledb] and [disabledb] do to the check that authentication makes.
    Enabling all leaves no database disabled, disabling all leaves none enabled.  Disabling
    one, when the table has a free entry and the name fits, disables it and keeps the
    others that were disabled by name; enabling one that was disabled once enables it and
    changes no other one. *)
Theorem databases_switched (cfg : security) (st : main_state) (db : string)
  (Hdb : db <> "" /\ db <> "*" /\ db <> "all") :
  (forall d, d <> "" -> is_disabled (with_databases cfg (enabledb (Some "all") st).1) d = false) /\
  (forall d, exists st' l, disabledb (Some "all") st = Some (st', l) /\ is_disabled (with_databases cfg st') d = true) /\
  ("" ∈ st_disabled st -> (String.length db < MAX_DATABASE_LENGTH)%nat ->
   exists st' l, disabledb (Some db) st = Some (st', l) /\ is_disabled (with_databases cfg st') db = true /\
     forall d, d <> "" -> d <> db -> is_disabled (with_databases cfg st') d = bool_decide (d ∈ st_disabled st)) /\
  (st_all_disabled st = false -> forall l1 l2, st_disabled st = l1 ++ db :: l2 -> db ∉ l1 ++ l2 ->
   is_disabled (with_databases cfg (enabledb (Some db) st).1) db = false /\
   forall d, d <> "" -> d <> db ->
     is_disabled (with_databases cfg (enabledb (Some db) st).1) d = is_disabled (with_databases cfg st) d).
Proof.
  destruct Hdb as (Hne & Hstar & Hall). split_and!.
  - intros d Hd. apply not_true_iff_false. rewrite is_disabled_state. simpl. intros [?|Hin]; [done|].
    by apply (not_in_no_database d Hd).
  - intros d. eexists _, _; split; [done|]. apply is_disabled_state. by left.
  - intros Hfree Hlen. destruct (disabledb_one db st Hstar Hall Hfree Hlen) as (l1 & l2 & El & E). eexists _, _; split; [exact E|]. split.
    + apply is_disabled_state. right. simpl. rewrite elem_of_app, elem_of_cons. auto.
    + intros d Hd1 Hd2. apply eq_true_iff_eq. rewrite is_disabled_state, bool_decide_eq_true, El. simpl.
      rewrite !elem_of_app, !elem_of_cons. intuition congruence.
  - intros Hno l1 l2 El Hnin. destruct (enabledb_one db st Hall) as (k1 & k2 & Ek & ->); [rewrite El; apply elem_of_app; right; left|].
    cbn [fst]. assert (k1 = l1 /\ k2 = l2) as [-> ->].
    { rewrite El in Ek. rewrite not_elem_of_app in Hnin. destruct Hnin as [Hn1 Hn2]. clear -Ek Hn1 Hn2.
      revert l1 Ek Hn1. induction k1 as [|x k1 IH]; intros [|y l1] Ek Hn1; simpl in Ek; simplify_eq; [done|..].
      - by apply not_elem_of_cons in Hn1 as [? _].
      - exfalso. apply Hn2. apply elem_of_app. right. left.
      - apply not_elem_of_cons in Hn1 as [_ Hn1]. match goal with H : l1 ++ _ = k1 ++ _ |- _ => by destruct (IH l1 H Hn1) as [-> ->] end. }
    rewrite not_elem_of_app in Hnin. split.
    + apply not_true_iff_false. rewrite is_disabled_state. simpl. rewrite elem_of_app, elem_of_cons, Hno. intuition congruence.
    + intros d Hd1 Hd2. apply eq_true_iff_eq. rewrite !is_disabled_state, El. simpl. rewrite !elem_of_app, !elem_of_cons. intuition congruence.
Qed.

(** Two surprises of the same requests.  Disabling one database while all are disabled enables
    all others; and a database that is disabled twice is still disabled after it was enabled
    once. *)
Theorem disabledb_surprises (cfg : security) (st : main_state) (db other : string)
  (Hst : st_all_disabled st = true /\ st_disabled st = no_database)
  (Hdb : db <> "" /\ db <> "*" /\ db <> "all") (Ho : other <> "" /\ other <> db)
  (Hlen : (String.length db < MAX_DATABASE_LENGTH)%nat) :
  is_disabled (with_databases cfg st) other = true /\
  exists st1 st2 l1 l2, disabledb (Some db) st = Some (st1, l1) /\ disabledb (Some db) st1 = Some (st2, l2) /\
    is_disabled (with_databases cfg st1) other = false /\
    is_disabled (with_databases cfg (enabledb (Some db) st2).1) db = true.
Proof.
  destruct Hst as [Ha Hd], Hdb as (H1 & H2 & H3), Ho as [Ho1 Ho2]. split; [apply is_disabled_state; by left|].
  assert (E1 : disabledb (Some db) st = Some (set_disabled false (db :: replicate 63 "") st, [database_entry db false])).
  { unfold disabledb. rewrite (proj2 (streq_false db "*")), (proj2 (streq_false db "all")) by done.
    rewrite Hd. change no_database with ("" :: replicate 63 ""). cbn [existsb orb negb replace_first fst]. rewrite streq_refl.
    cbn [orb negb fst]. by rewrite (proj2 (Nat.leb_gt _ _)) by done. }
  set (st1 := set_disabled false (db :: replicate 63 "") st) in *.
  assert (E2 : disabledb (Some db) st1 = Some (set_disabled false (db :: db :: replicate 62 "") st1, [database_entry db false])).
  { unfold disabledb. rewrite (proj2 (streq_false db "*")), (proj2 (streq_false db "all")) by done.
    subst st1. cbn [st_disabled set_disabled]. change (replicate 63 "") with ("" :: replicate 62 ""). cbn [existsb orb negb replace_first fst].
    rewrite (proj2 (streq_false db "")), streq_refl by done. cbn [orb negb fst]. by rewrite (proj2 (Nat.leb_gt _ _)) by done. }
  exists st1, (set_disabled false (db :: db :: replicate 62 "") st1), [database_entry db false], [database_entry db false].
  split_and!; [done|done| |].
  - apply not_true_iff_false. rewrite is_disabled_state. simpl. rewrite elem_of_cons. intros [?|[?|Hin]]; [done|done|].
    apply (not_in_no_database other Ho1). by right.
  - apply is_disabled_state. right. unfold enabledb. rewrite (proj2 (streq_false db "all")) by done. cbn. rewrite streq_refl.
    cbn. right. left.
Qed.

(** ** Timeouts of flushes *)

Definition ts_ok (t : timespec) : Prop := 0 <= tv_nsec t < 1000000000.

Lemma ts_before_false (a b : timespec) :
  ts_before a b = false <-> tv_sec b < tv_sec a \/ (tv_sec a = tv_sec b /\ tv_nsec b <= tv_nsec a).
Proof.
  unfold ts_before. rewrite orb_false_iff, andb_false_iff, !Z.ltb_ge, Z.eqb_neq. lia.
Qed.

Lemma ts_before_trans (a b c : timespec) : ts_before b a = false -> ts_before c b = false -> ts_before c a = false.
Proof. rewrite !ts_before_false. lia. Qed.

Lemma delta_mono (now a b : timespec) :
  ts_ok now -> ts_ok a -> ts_ok b -> ts_before b a = false -> delta_ms now a <= delta_ms now b.
Proof.
  unfold ts_ok, delta_ms. rewrite ts_before_false. intros Hn Ha Hb [H|[H1 H2]].
  - assert (Z.quot (tv_nsec a - tv_nsec now) 1000000 - Z.quot (tv_nsec b - tv_nsec now) 1000000 <= 1000); [|lia].
    Z.to_euclidean_division_equations. lia.
  - rewrite H1. apply Z.add_le_mono_l, Z.quot_le_mono; lia.
Qed.

(** The earliest of the points in time, starting from one. *)
Lemma earliest_spec (l : list flush_timeout_slot) :
  match earliest l with
  | Some e => (exists f, f ∈ l /\ in_use f = true /\ expires_at f = e) /\
              forall f, f ∈ l -> in_use f = true -> ts_before (expires_at f) e = false
  | None => forall f, f ∈ l -> in_use f = false
  end.
Proof.
  unfold earliest. induction l as [|f l IH] using rev_ind; [by intros f ?%elem_of_nil|]. rewrite fold_left_app. cbn [fold_left].
  destruct (fold_left _ l None) as [e|]; destruct (in_use f) eqn:Ef.
  - destruct IH as [(g & Hg & Hu & He) Hall]. destruct (ts_before (expires_at f) e) eqn:Eb.
    + split; [exists f; split; [apply elem_of_app; right; left|done]|].
      intros g' [Hin| ->%list_elem_of_singleton]%elem_of_app Hu'.
      * apply (ts_before_trans _ e); [|by apply Hall]. revert Eb. unfold ts_before. lia.
      * unfold ts_before. lia.
    + split; [exists g; split; [apply elem_of_app; by left|done]|].
      intros g' [Hin| ->%list_elem_of_singleton]%elem_of_app Hu'; [by apply Hall|done].
  - destruct IH as [(g & Hg & Hu & He) Hall]. split; [exists g; split; [apply elem_of_app; by left|done]|].
    intros g' [Hin| ->%list_elem_of_singleton]%elem_of_app Hu'; [by apply Hall|congruence].
  - split; [exists f; split; [apply elem_of_app; right; left|done]|].
    intros g' [Hin| ->%list_elem_of_singleton]%elem_of_app Hu'; [by rewrite (IH g' Hin) in Hu'|unfold ts_before; lia].
  - intros g' [Hin| ->%list_elem_of_singleton]%elem_of_app; [by apply IH|done].
Qed.

Lemma first_slot_spec (p : flush_timeout_slot -> bool) (l : list flush_timeout_slot) (i : nat) :
  first_slot p l = Some i -> exists f, l !! i = Some f /\ p f = true.
Proof.
  revert i. induction l as [|f l IH]; intros i; [done|]. cbn [first_slot]. destruct (p f) eqn:Ep; [intros [= <-]; eauto|].
  destruct (first_slot p l) as [j|]; [|done]. intros [= <-]. by apply IH.
Qed.

Lemma first_slot_none (p : flush_timeout_slot -> bool) (l : list flush_timeout_slot) :
  first_slot p l = None -> Forall (fun f => p f = false) l.
Proof. induction l as [|f l IH]; [done|]. cbn [first_slot]. destruct (p f) eqn:Ep; [done|]. destruct (first_slot p l); [done|]. auto. Qed.

(** The alarm goes off at the latest at the expiry of every slot in use, or one millisecond
    after it was set. *)
Definition alarm_in_time (st : main_state) : Prop :=
  forall f, f ∈ st_flush_timeouts st -> in_use f = true ->
    exists t, st_flush_alarm st = Some t /\ 1 <= tm_delay t <= Z.max 1 (delta_ms (tm_start t) (expires_at f)).

Definition expiries_ok (l : list flush_timeout_slot) : Prop := Forall (fun f => in_use f = true -> ts_ok (expires_at f)) l.

(** The alarm is there and goes off in time, or it is off and the last start of a timer failed. *)
Definition alarm_state (failed : bool) (st : main_state) : Prop :=
  alarm_in_time st \/ (st_flush_alarm st = None /\ failed = true).

Lemma rearm_in_time (ok : bool) (now : timespec) (l : list flush_timeout_slot) (alarm : option timer) (st : main_state) :
  ts_ok now -> expiries_ok l -> rearm_flush_alarm ok now l = Some alarm ->
  alarm_in_time (set_flush l alarm st) \/ (alarm = None /\ ok = false).
Proof.
  intros Hn Hl. unfold rearm_flush_alarm. pose proof (earliest_spec l) as He. destruct (earliest l) as [e|].
  2: { intros _. left. intros f Hin Hu. cbn [st_flush_timeouts set_flush] in *. by rewrite (He f Hin) in Hu. }
  destruct (delta_fits now e); [|done]. intros [= <-]. unfold start_periodic_watcher. destruct ok; [left|by right].
  intros f Hin Hu. cbn [st_flush_timeouts st_flush_alarm set_flush] in *.
  destruct He as [(g & Hg & Hgu & <-) Hall]. unfold expiries_ok in Hl. rewrite Forall_forall in Hl. eexists; split; [done|]. cbn [tm_delay tm_start].
  pose proof (delta_mono now (expires_at g) (expires_at f) Hn (Hl g Hg Hgu) (Hl f Hin Hu) (Hall f Hin Hu)).
  destruct (Z.leb_spec (delta_ms now (expires_at g)) 0); lia.
Qed.

(** Whether the clock of the system works as documented. *)
Definition clock_ok (an : answers) : Prop := ts_ok (an_now an) /\ ts_ok (an_later an).

Lemma arm_in_time (an : answers) (secs : Z) (db : option string) (st st' : main_state) (failed : bool) :
  clock_ok an -> expiries_ok (st_flush_timeouts st) -> alarm_state failed st -> arm_flush_timeout an secs db st = Some st' ->
  expiries_ok (st_flush_timeouts st') /\ alarm_state (failed || negb (an_timer an)) st'.
Proof.
  intros (Hn & Hl) Hok Ha. unfold arm_flush_timeout.
  assert (Hsame : expiries_ok (st_flush_timeouts st) /\ alarm_state (failed || negb (an_timer an)) st).
  { split; [done|]. destruct Ha as [Ha|[Ha ->]]; [by left|by right]. }
  destruct (secs <=? 0); [by intros [= <-]|].
  set (name := match db with Some "" | None => "*" | Some d => d end). clearbody name.
  destruct (match first_slot _ _ with Some _ => _ | None => _ end) as [i|]; [|by intros [= <-]].
  destruct (negb (fits64 _)); [done|]. set (l' := <[i := _]> _). intros (alarm & Er & E)%bind_Some. injection E as <-.
  assert (Hl' : expiries_ok l') by (apply Forall_insert; [done|by intros _]).
  destruct alarm as [t|].
  - split; [done|]. destruct (rearm_in_time _ _ _ _ st Hl Hl' Er) as [H|[H _]]; [by left|done].
  - split; [by apply Forall_insert|]. destruct (rearm_in_time _ _ _ _ st Hl Hl' Er) as [H|[_ ->]]; [left|right; split; [done|apply orb_true_r]].
    intros f Hin Hu. cbn [st_flush_timeouts set_flush] in Hin.
    assert (f ∈ l') as Hin'; [|destruct (H f Hin' Hu) as (t & ? & _); done].
    apply list_elem_of_lookup in Hin as (j & Hj). destruct (decide (i = j)) as [<-|Hij].
    + destruct (decide (i < length l')%nat); [rewrite list_lookup_insert_eq in Hj by done; by simplify_eq|].
      rewrite list_insert_ge in Hj by lia. by eapply list_elem_of_lookup_2.
    + rewrite list_lookup_insert_ne in Hj by done. by eapply list_elem_of_lookup_2.
Qed.

Lemma alarm_cb_in_time (an : answers) (st st' : main_state) (acts : list action) (failed : bool) :
  clock_ok an -> expiries_ok (st_flush_timeouts st) -> flush_alarm_cb an st = Some (st', acts) ->
  expiries_ok (st_flush_timeouts st') /\ alarm_state (failed || negb (an_timer an)) st'.
Proof.
  intros (Hn & Hl) Hok. unfold flush_alarm_cb. intros (alarm & Er & E)%bind_Some. injection E as <- _.
  assert (H : expiries_ok (map (fun f => if expired (an_now an) f then free_flush_slot f else f) (st_flush_timeouts st))).
  { apply Forall_map. eapply Forall_impl; [exact Hok|]. intros f Hf. simpl. by destruct (expired (an_now an) f). }
  split; [exact H|]. destruct (rearm_in_time _ _ _ _ st Hl H Er) as [Ha|[-> ->]]; [by left|right]. split; [done|apply orb_true_r].
Qed.

Definition same_flushes (st st' : main_state) : Prop :=
  st_flush_timeouts st' = st_flush_timeouts st /\ st_flush_alarm st' = st_flush_alarm st.

Lemma enabledb_flushes (db : option string) (st : main_state) : same_flushes st (enabledb db st).1.
Proof. unfold enabledb. destruct db as [db|]; [|done]. destruct (streq db "all"); [done|]. by destruct (replace_first _ _ _). Qed.

Lemma disabledb_flushes (db : option string) (st st' : main_state) (l : list jvalue) :
  disabledb db st = Some (st', l) -> same_flushes st st'.
Proof. unfold disabledb. repeat case_match; intros; by simplify_eq/=. Qed.

(** Only the request to flush touches the table. *)
Lemma serve_flushes (c : main_configuration) (paths : conf_paths) (an : answers) (cmd : management_command) (req : option json)
  (st st' : main_state) (acts : list action) (r : reply) :
  serve c paths an cmd req st = Some (st', acts, r) ->
  same_flushes st st' \/ exists secs db, arm_flush_timeout an secs db st = Some st'.
Proof.
  assert (Hchild : forall e ch st1 acts1 r1, serve_child an e ch st = (st1, acts1, r1) -> st1 = st).
  { unfold serve_child. intros e ch st1 acts1 r1. by destruct (an_fork an); intros [= <- _ _]. }
  destruct cmd; cbv beta iota zeta delta [serve serve_flush serve_gracefully serve_switch_to serve_get_password]; intros H; repeat (apply bind_Some in H as (? & ? & H)).
  all: try (injection H as <- _ _; by left).
  all: try (injection H as H; apply Hchild in H as ->; by left).
  - destruct x0 as [st1 l]. injection H as <- _ _. left. by eapply disabledb_flushes.
  - pose proof (enabledb_flushes x st). destruct (enabledb x st) as [st1 l]. injection H as <- _ _. by left.
  - destruct (serve_child an MANAGEMENT_ERROR_FLUSH_NOFORK ChildFlush st) as [[st1 a1] r1] eqn:Ef. apply Hchild in Ef as ->.
    destruct (_ && _); [apply bind_Some in H as (st2 & Ha & H)|]; injection H as <- _ _; [right; eauto|by left].
  - destruct (an_switched an); injection H as <- _ _; by left.
Qed.

Lemma accept_flushes (c : main_configuration) (paths : conf_paths) (an : answers) (payload : json) (st st' : main_state)
  (acts : list action) (r : reply) :
  accept_mgt_cb c paths an payload st = Some (st', acts, r) -> same_flushes st st' \/ exists secs db, arm_flush_timeout an secs db st = Some st'.
Proof.
  unfold accept_mgt_cb. intros H. apply bind_Some in H as (h & _ & H). apply bind_Some in H as (id & _ & H).
  destruct (command_of (i32 id)) as [cmd|]; [|injection H as <- _ _; by left]. apply bind_Some in H as (req & _ & H).
  apply bind_Some in H as ([[st1 acts1] r1] & Hs & H). injection H as <- _ _. by eapply serve_flushes.
Qed.

(** The states of a main process, and whether the start of a timer failed before. *)
Inductive main_runs : bool -> main_state -> Prop :=
| mr_start st : Forall (fun f => in_use f = false) (st_flush_timeouts st) -> main_runs false st
| mr_request failed c paths an payload st st' acts r :
    clock_ok an -> main_runs failed st -> accept_mgt_cb c paths an payload st = Some (st', acts, r) ->
    main_runs (failed || negb (an_timer an)) st'
| mr_alarm failed an st st' acts :
    clock_ok an -> main_runs failed st -> flush_alarm_cb an st = Some (st', acts) -> main_runs (failed || negb (an_timer an)) st'
| mr_shutdown_timeout failed st : main_runs failed st -> main_runs failed (shutdown_timeout_cb st).1
| mr_shutdown failed st : main_runs failed st -> main_runs failed (shutdown_cb st).1
| mr_graceful failed an st : main_runs failed st -> main_runs failed (graceful_cb an st).1
| mr_add_client failed pid st : main_runs failed st -> main_runs failed (add_client pid st)
| mr_remove_client failed pid st : main_runs failed st -> main_runs failed (remove_client pid st).

Definition flushes_ok (failed : bool) (st : main_state) : Prop := expiries_ok (st_flush_timeouts st) /\ alarm_state failed st.

Lemma same_flushes_ok (failed : bool) (st st' : main_state) : same_flushes st st' -> flushes_ok failed st -> flushes_ok failed st'.
Proof. intros [E1 E2] [H1 H2]. split; [by rewrite E1|]. unfold alarm_state, alarm_in_time in *. by rewrite E1, E2. Qed.

Lemma flushes_ok_failed (failed b : bool) (st : main_state) : flushes_ok failed st -> flushes_ok (failed || b) st.
Proof. intros [H1 H2]. split; [done|]. destruct H2 as [H2|[H2 ->]]; [by left|by right]. Qed.

(** C18: the alarm for the timeouts of flushes is set in time.  In every state that the main process
    reaches by serving requests, by its alarm, its other callbacks and the bookkeeping of
    its clients, as long as a timeout is pending, there is an alarm that goes off no later than
    the first timeout expires (or after a millisecond, if that has passed); or there is no alarm and
    the start of a timer has failed before, which leaves the timeouts that were pending
    without one until the next one is armed.  (The nanoseconds of the clock are below 10^9, and no
    time in milliseconds exceeds 2^63: the overflow is undefined.) *)
Theorem flush_alarm_set (failed : bool) (st : main_state) (H : main_runs failed st) (f : flush_timeout_slot)
  (Hin : f ∈ st_flush_timeouts st) (Hu : in_use f = true) :
  (exists t, st_flush_alarm st = Some t /\ 1 <= tm_delay t <= Z.max 1 (delta_ms (tm_start t) (expires_at f))) \/
  (st_flush_alarm st = None /\ failed = true).
Proof.
  enough (flushes_ok failed st) as [_ [Ha|Ha]]; [left; by apply Ha|by right|]. clear f Hin Hu.
  induction H as [st Hst|failed c paths an payload st st' acts r Han _ IH E|failed an st st' acts Han _ IH E|? st _ IH|? st _ IH
    |? an st _ IH|? pid st _ IH|? pid st _ IH].
  - rewrite Forall_forall in Hst. split; [apply Forall_forall|left]; intros f Hin; rewrite (Hst f Hin); done.
  - destruct (accept_flushes _ _ _ _ _ _ _ _ E) as [Hs|(secs & db & Ea)].
    + eapply same_flushes_ok; [exact Hs|]. by apply flushes_ok_failed.
    + destruct IH. by eapply arm_in_time.
  - destruct IH. by eapply alarm_cb_in_time.
  - exact IH.
  - exact IH.
  - exact IH.
  - exact IH.
  - exact IH.
Qed.

(** A failure does not last: the next timeout that is armed sets the alarm for all. *)
Lemma alarm_recovers (an : answers) (secs : Z) (db : option string) (st st' : main_state) :
  clock_ok an -> expiries_ok (st_flush_timeouts st) -> an_timer an = true -> 0 < secs ->
  (exists f, f ∈ st_flush_timeouts st /\ in_use f = false) -> arm_flush_timeout an secs db st = Some st' -> alarm_in_time st'.
Proof.
  intros [Hn Hl] Hok Ht Hs (f & Hf & Hu). unfold arm_flush_timeout. rewrite (proj2 (Z.leb_gt _ _)) by done.
  set (name := match db with Some "" | None => "*" | Some d => d end). clearbody name.
  destruct (match first_slot _ _ with Some _ => _ | None => _ end) as [i|] eqn:Ei.
  2: { exfalso. destruct (first_slot (fun f => in_use f && _) _); [done|]. apply first_slot_none in Ei. rewrite Forall_forall in Ei.
       specialize (Ei f Hf). by rewrite Hu in Ei. }
  destruct (negb (fits64 _)); [done|]. intros (alarm & Er & E)%bind_Some. injection E as <-.
  assert (Hl' : expiries_ok (<[i:=FlushSlot true (strtrunc MAX_DATABASE_LENGTH name) (Timespec (tv_sec (an_now an) + secs) (tv_nsec (an_now an)))]>
    (st_flush_timeouts st))) by (apply Forall_insert; [done|by intros _]).
  destruct (rearm_in_time _ _ _ _ st Hl Hl' Er) as [H|[_ ?]]; [|congruence]. destruct alarm as [t|]; [exact H|].
  exfalso. assert (i < length (st_flush_timeouts st))%nat as Hi.
  { destruct (first_slot (fun f => in_use f && _) _) as [j|] eqn:Ej; [injection Ei as ->; rename Ej into Ei|];
      destruct (first_slot_spec _ _ _ Ei) as (g & Hg & _); by eapply lookup_lt_Some. }
  destruct (H (FlushSlot true (strtrunc MAX_DATABASE_LENGTH name) (Timespec (tv_sec (an_now an) + secs) (tv_nsec (an_now an)))))
    as (t & ? & _); [|done|done]. eapply list_elem_of_lookup_2. by apply list_lookup_insert_eq.
Qed.

(** ** The flush at the end of a timeout *)

(** Points in time for which no number of milliseconds overflows. *)
Definition moderate (now : timespec) : Prop := ts_ok now /\ 0 <= tv_sec now < 2 ^ 52.
Definition expiries_moderate (l : list flush_timeout_slot) : Prop :=
  Forall (fun f => in_use f = true -> ts_ok (expires_at f) /\ 0 <= tv_sec (expires_at f) < 2 ^ 53) l.

Lemma delta_moderate (now t : timespec) : moderate now -> ts_ok t -> 0 <= tv_sec t < 2 ^ 53 -> delta_fits now t = true.
Proof.
  intros [Hn Hs] Ht Hts. unfold ts_ok in *. unfold delta_fits, fits64, delta_ms.
  assert (-1000 <= Z.quot (tv_nsec t - tv_nsec now) 1000000 <= 1000) by (Z.to_euclidean_division_equations; lia).
  change (2 ^ 52) with 4503599627370496 in *. change (2 ^ 53) with 9007199254740992 in *. change (2 ^ 63) with 9223372036854775808.
  rewrite !andb_true_iff, !Z.leb_le, !Z.ltb_lt. lia.
Qed.

Lemma rearm_moderate (ok : bool) (now : timespec) (l : list flush_timeout_slot) :
  moderate now -> expiries_moderate l -> is_Some (rearm_flush_alarm ok now l).
Proof.
  intros Hn Hl. unfold rearm_flush_alarm. pose proof (earliest_spec l) as He. destruct (earliest l) as [e|]; [|done].
  destruct He as [(g & Hg & Hgu & <-) _]. unfold expiries_moderate in Hl. rewrite Forall_forall in Hl. destruct (Hl g Hg Hgu).
  by rewrite delta_moderate.
Qed.

(** A timeout that is armed is stored. *)
Lemma arm_stores (an : answers) (secs : Z) (db : string) (st : main_state) :
  moderate (an_now an) -> moderate (an_later an) -> an_timer an = true -> 0 < secs < 2 ^ 52 ->
  expiries_moderate (st_flush_timeouts st) -> db <> "" /\ (String.length db < MAX_DATABASE_LENGTH)%nat ->
  (exists f, f ∈ st_flush_timeouts st /\ (in_use f = false \/ fs_database f = db)) ->
  exists st1, arm_flush_timeout an secs (Some db) st = Some st1 /\
    FlushSlot true db (Timespec (tv_sec (an_now an) + secs) (tv_nsec (an_now an))) ∈ st_flush_timeouts st1 /\
    expiries_moderate (st_flush_timeouts st1).
Proof.
  intros Hn Hl Ht Hsecs Hp [Hne Hlen] (f0 & Hf0 & Hu0). set (expiry := Timespec _ _).
  assert (Hs : strtrunc MAX_DATABASE_LENGTH db = db).
  { unfold strtrunc. clear -Hlen. assert (H : forall n s, (String.length s <= n)%nat -> String.substring 0 n s = s).
    { induction n as [|n IH]; intros [|ch s] Hs; simpl in *; [done|lia|done|]. f_equal. apply IH. lia. }
    apply H. lia. }
  unfold arm_flush_timeout. rewrite (proj2 (Z.leb_gt _ _)) by lia.
  replace (match Some db with Some "" | None => "*" | Some d => d end) with db by (by destruct db).
  set (slot := match first_slot _ _ with Some _ => _ | None => _ end).
  assert (exists i g, slot = Some i /\ st_flush_timeouts st !! i = Some g) as (i & g & -> & Hg).
  { subst slot. destruct (first_slot (fun f => in_use f && streq (fs_database f) db) _) as [i|] eqn:E1.
    - destruct (first_slot_spec _ _ _ E1) as (g & Hg & _). eauto.
    - destruct (first_slot (fun f => negb (in_use f)) _) as [i|] eqn:E2; [destruct (first_slot_spec _ _ _ E2) as (g & Hg & _); eauto|].
      apply first_slot_none in E1, E2. rewrite Forall_forall in E1, E2. specialize (E1 f0 Hf0). specialize (E2 f0 Hf0). cbv beta in E1, E2.
      destruct Hu0 as [Hu0| <-]; [by rewrite Hu0 in E2|]. rewrite streq_refl, andb_true_r in E1. by rewrite E1 in E2. }
  destruct Hn as [Hn1 Hn2]. assert (fits64 (tv_sec (an_now an) + secs) = true) as ->.
  { unfold fits64. change (2 ^ 52) with 4503599627370496 in *. change (2 ^ 63) with 9223372036854775808.
    rewrite andb_true_iff, Z.leb_le, Z.ltb_lt. lia. }
  cbn [negb]. rewrite Hs, Ht. fold expiry. set (l' := <[i := _]> _).
  assert (Hi : l' !! i = Some (FlushSlot true db expiry)).
  { apply list_lookup_insert_eq. by eapply lookup_lt_Some. }
  assert (Hm : expiries_moderate l').
  { apply Forall_insert; [done|]. intros _. cbn [expires_at tv_sec expiry]. split; [done|].
    change (2 ^ 52) with 4503599627370496 in *. change (2 ^ 53) with 9007199254740992. lia. }
  pose proof (earliest_spec l') as He. destruct (rearm_moderate true (an_later an) l' Hl Hm) as [alarm Er]. rewrite Er.
  revert Er. unfold rearm_flush_alarm. destruct (earliest l') as [e|].
  2: { by specialize (He _ (list_elem_of_lookup_2 _ _ _ Hi)). }
  destruct (delta_fits _ _); [|done]. intros [= <-]. cbn [mbind option_bind start_periodic_watcher].
  eexists. split; [done|]. split; [|done]. by eapply list_elem_of_lookup_2.
Qed.

(** C24: a flush with a timeout is carried out.  When a timeout of some seconds is armed for a
    database with a name below 256 bytes, for which the table has a slot already or a free
    one, and the timer can be started, the slot holds it; the alarm callback, at or after its end, with
    connections active and a successful fork, starts a child that runs [pgagroal_flush]
    for this name with [FLUSH_ALL]; and before its end it leaves the timeout pending.  (The child
    matches the names of the databases, so that the name [*], which the main process puts for an
    empty one, flushes nothing: a finding.  Without the conditions the timeout is dropped, or lost with
    no flush.  The clock is below 2^52 seconds, and so are the seconds of this request and
    of those pending: 2^54 or more overflow, another finding.) *)
Theorem flush_timeout_fires (an an' : answers) (secs : Z) (db : string) (st : main_state)
  (Han : moderate (an_now an) /\ moderate (an_later an) /\ an_timer an = true)
  (Hsecs : 0 < secs < 2 ^ 52) (Hpending : expiries_moderate (st_flush_timeouts st))
  (Hdb : db <> "" /\ (String.length db < MAX_DATABASE_LENGTH)%nat)
  (Hroom : exists f, f ∈ st_flush_timeouts st /\ (in_use f = false \/ fs_database f = db))
  (Han' : moderate (an_now an') /\ moderate (an_later an') /\ an_fork an' = true /\ 0 < an_active an') :
  let expiry := Timespec (tv_sec (an_now an) + secs) (tv_nsec (an_now an)) in
  exists st1 st2 acts,
    arm_flush_timeout an secs (Some db) st = Some st1 /\ FlushSlot true db expiry ∈ st_flush_timeouts st1 /\
    flush_alarm_cb an' st1 = Some (st2, acts) /\
    (if ts_before (an_now an') expiry then FlushSlot true db expiry ∈ st_flush_timeouts st2
     else ActFork (ChildFlushDatabase FLUSH_ALL db) ∈ acts).
Proof.
  destruct Han as (Hn & Hl & Ht), Han' as (Hn' & Hl' & Hfork & Hact). intros expiry.
  destruct (arm_stores an secs db st) as (st1 & E1 & Hin & Hm); [done..|]. exists st1. fold expiry in Hin.
  unfold flush_alarm_cb.
  destruct (rearm_moderate (an_timer an') (an_later an') (map (fun f => if expired (an_now an') f then free_flush_slot f else f) (st_flush_timeouts st1)))
    as [alarm ->]; [done| |].
  { apply Forall_map. eapply Forall_impl; [exact Hm|]. intros f Hf. simpl. by destruct (expired (an_now an') f). }
  cbn [mbind option_bind]. eexists _, _. split_and!; [done|done|done|]. cbn [st_flush_timeouts set_flush].
  destruct (ts_before (an_now an') expiry) eqn:Hb.
  - apply list_elem_of_fmap. exists (FlushSlot true db expiry). split; [|done].
    unfold expired. cbn [in_use expires_at]. by rewrite Hb.
  - assert (E : expired (an_now an') (FlushSlot true db expiry) = true) by (unfold expired; cbn [in_use expires_at]; by rewrite Hb).
    apply list_elem_of_join. exists (flush_all_action an' (FlushSlot true db expiry)). split.
    + unfold flush_all_action. rewrite Hfork, (proj2 (Z.ltb_lt _ _)) by done. cbn [andb fs_database].
      rewrite (proj2 (streq_false db "")) by apply Hdb. left.
    + apply list_elem_of_fmap. exists (FlushSlot true db expiry). split; [done|]. by apply list_elem_of_In, filter_In; rewrite <- list_elem_of_In.
Qed.

(** ** A small main process *)

Definition security0 : security := Security (pool_config init_configuration) false [] [] [] (User "" "") false [].

Definition paths0 : conf_paths := ConfPaths "" "" "" "" "" "" "".

Definition answers0 (sec active : Z) : answers :=
  Answers (Timespec sec 500000000) (Timespec sec 500000000) true true active None false false (fun _ => ("", "", -1)).

Definition main0 : main_state :=
  MainState false no_database false true None (replicate 64 (FlushSlot false "" (Timespec 0 0))) None [].

Lemma answers0_ok (sec active : Z) : clock_ok (answers0 sec active).
Proof. repeat split; simpl; lia. Qed.

Lemma answers0_moderate (sec active : Z) : 0 <= sec < 2 ^ 52 -> moderate (an_now (answers0 sec active)).
Proof. intros H. split; [split; simpl; lia|exact H]. Qed.

(** The document of a flush of [postgres] that gives the connections 30 seconds. *)
Definition flush0 : json := jnorm (request_document "2.0.0" "20260101120000" 0 0 0 (request_flush 1 (Some "postgres") 30)).

Lemma request_served_witness :
  exists req,
    accept_mgt_cb init_configuration paths0 (answers0 100 3) flush0 main0 =
      (x ← serve init_configuration paths0 (answers0 100 3) FLUSH (Some req) main0; Some (finish (answers0 100 3) x)) /\
    member_string (Some req) "Database" = Some (Some "postgres").
Proof.
  destruct (request_served init_configuration paths0 (answers0 100 3) "2.0.0" "20260101120000" 0 0 0
              (request_flush 1 (Some "postgres") 30) main0 (rq_flush 1 (Some "postgres") 30)) as (req & E & Hs & _).
  exists req. split; [exact E|]. apply Hs. cbn. right. left.
Defined.

(** The state after that request. *)
Definition main1 : main_state :=
  match accept_mgt_cb init_configuration paths0 (answers0 100 3) flush0 main0 with Some (st, _, _) => st | None => main0 end.

Lemma main1_reached : main_runs false main1.
Proof.
  apply (mr_request false init_configuration paths0 (answers0 100 3) flush0 main0 _ [ActFork ChildFlush] ReplyChild (answers0_ok _ _)).
  - apply mr_start. vm_compute. repeat constructor.
  - vm_compute. reflexivity.
Defined.

Lemma flush_alarm_set_witness :
  exists t, st_flush_alarm main1 = Some t /\
    1 <= tm_delay t <= Z.max 1 (delta_ms (tm_start t) (Timespec 130 500000000)) /\ tm_delay t = 30000.
Proof.
  destruct (flush_alarm_set false main1 main1_reached (FlushSlot true "postgres" (Timespec 130 500000000))
              ltac:(vm_compute; left) eq_refl) as [(t & E & H)|[_ H]]; [|discriminate].
  exists t. split; [exact E|]. split; [exact H|]. vm_compute in E. by injection E as <-.
Defined.

Lemma flush_timeout_fires_witness :
  exists st1 st2 acts, arm_flush_timeout (answers0 100 3) 30 (Some "postgres") main0 = Some st1 /\
    flush_alarm_cb (answers0 130 1) st1 = Some (st2, acts) /\ ActFork (ChildFlushDatabase FLUSH_ALL "postgres") ∈ acts.
Proof.
  destruct (flush_timeout_fires (answers0 100 3) (answers0 130 1) 30 "postgres" main0) as (st1 & st2 & acts & H1 & _ & H2 & H3).
  - split_and!; [apply (answers0_moderate 100 3); lia|apply (answers0_moderate 100 3); lia|reflexivity].
  - lia.
  - apply Forall_forall. intros f Hf Hu. vm_compute in Hf. repeat (apply elem_of_cons in Hf as [-> |Hf]; [discriminate|]). by apply not_elem_of_nil in Hf.
  - split; [discriminate|apply Nat.ltb_lt; vm_compute; reflexivity].
  - exists (FlushSlot false "" (Timespec 0 0)). split; [vm_compute; left|by left].
  - split_and!; [apply (answers0_moderate 130 1); lia|apply (answers0_moderate 130 1); lia|reflexivity|simpl; lia].
  - exists st1, st2, acts. split_and!; [exact H1|exact H2|exact H3].
Defined.

(** A graceful shutdown that finds no active connection. *)
Definition gracefully0 : json := jnorm (request_document "2.0.0" "20260101120000" 0 0 0 (request_gracefully (-1))).

Lemma loop_ends_when_asked_witness :
  exists st' acts r, accept_mgt_cb init_configuration paths0 (answers0 100 0) gracefully0 main0 = Some (st', acts, r) /\
    acts = [ActBreak] /\ (st_keep_running st' = false \/ (st_gracefully st' = true /\ an_active (answers0 100 0) = 0)).
Proof.
  destruct (accept_mgt_cb init_configuration paths0 (answers0 100 0) gracefully0 main0) as [[[st' acts] r]|] eqn:E;
    [|vm_compute in E; discriminate].
  exists st', acts, r. assert (acts = [ActBreak]) as Ha by (vm_compute in E; injection E as _ <- _; reflexivity).
  split; [reflexivity|]. split; [exact Ha|].
  apply (proj1 (loop_ends_when_asked _ _ _ _ _ _ _ _ E)). rewrite Ha. left.
Defined.

Lemma databases_switched_witness :
  exists st' l, disabledb (Some "sales") main0 = Some (st', l) /\ is_disabled (with_databases security0 st') "sales" = true /\
    is_disabled (with_databases security0 st') "hr" = false.
Proof.
  destruct (proj1 (proj2 (proj2 (databases_switched security0 main0 "sales" ltac:(repeat split; discriminate))))
              ltac:(vm_compute; left) ltac:(apply Nat.ltb_lt; vm_compute; reflexivity)) as (st' & l & E & H1 & H2).
  exists st', l. split; [exact E|]. split; [exact H1|]. rewrite (H2 "hr") by discriminate. vm_compute. reflexivity.
Defined.

Lemma disabledb_surprises_witness :
  exists st1 st2 l1 l2, disabledb (Some "sales") (set_disabled true no_database main0) = Some (st1, l1) /\
    disabledb (Some "sales") st1 = Some (st2, l2) /\
    is_disabled (with_databases security0 st1) "hr" = false /\
    is_disabled (with_databases security0 (enabledb (Some "sales") st2).1) "sales" = true.
Proof.
  exact (proj2 (disabledb_surprises security0 (set_disabled true no_database main0) "sales" "hr" ltac:(split; reflexivity)
           ltac:(repeat split; discriminate) ltac:(split; discriminate) ltac:(apply Nat.ltb_lt; vm_compute; reflexivity))).
Defined.
