(* ===== verification/EventLoop.v ===== *)
(** * The event loop ([libpgagroal/ev.c])

    A table of watchers, the operations that enter and remove them, and two of the backends: epoll and
    io_uring.  The kernel is a parameter: what epoll is told is remembered by it according to laws; what
    it announces, and the completions of io_uring, are lists.  The callbacks belong to other components; what
    one of them does with the loop is a list of operations next to the event.  Of memory only the
    watchers are modelled, by their addresses. *)

From stdpp Require Import gmap.
From S2P Require Import Prelude Wire Frames.

Local Open Scope Z_scope.

Definition MAX_EVENTS : nat := 32.

Inductive event_type := EVENT_TYPE_INVALID | EVENT_TYPE_MAIN | EVENT_TYPE_WORKER | EVENT_TYPE_SIGNAL | EVENT_TYPE_PERIODIC.
Inductive ev_rc := RC_OK | RC_ERROR | RC_FATAL | RC_CONN_CLOSED.

#[global] Instance event_type_eq_dec : EqDecision event_type.
Proof. solve_decision. Defined.
#[global] Instance ev_rc_eq_dec : EqDecision ev_rc.
Proof. solve_decision. Defined.

(** [struct io_watcher] and [struct periodic_watcher]; the two descriptors are those of the union: client and listener, or
    the ones to receive and to send.  [w_length] is the length of the message. *)
Record watcher := Watcher {
  w_type : event_type;
  w_fds : Z * Z;
  w_stopped : bool;
  w_length : Z;
  w_timer : Z;
  w_repeat_ms : Z }.

Definition listen_fd (w : watcher) : Z := (w_fds w).2.
Definition rcv_fd (w : watcher) : Z := (w_fds w).1.

Definition set_stopped (b : bool) (w : watcher) : watcher := Watcher (w_type w) (w_fds w) b (w_length w) (w_timer w) (w_repeat_ms w).
Definition set_length (n : Z) (w : watcher) : watcher := Watcher (w_type w) (w_fds w) (w_stopped w) n (w_timer w) (w_repeat_ms w).
Definition set_client_fd (fd : Z) (w : watcher) : watcher := Watcher (w_type w) (fd, (w_fds w).2) (w_stopped w) (w_length w) (w_timer w) (w_repeat_ms w).
Definition set_timer (fd : Z) (w : watcher) : watcher := Watcher (w_type w) (w_fds w) (w_stopped w) (w_length w) fd (w_repeat_ms w).

(** [pgagroal_event_accept_init] and [pgagroal_event_worker_init]. *)
Definition event_accept_init (fd : Z) (w : watcher) : watcher := Watcher EVENT_TYPE_MAIN (-1, fd) (w_stopped w) (w_length w) (w_timer w) (w_repeat_ms w).
Definition event_worker_init (rcv snd : Z) (w : watcher) : watcher := Watcher EVENT_TYPE_WORKER (rcv, snd) (w_stopped w) (w_length w) (w_timer w) (w_repeat_ms w).

(** The descriptor of an io watcher; the type decides. *)
Definition io_fd (w : watcher) : option Z :=
  match w_type w with
  | EVENT_TYPE_MAIN => Some (listen_fd w)
  | EVENT_TYPE_WORKER => Some (rcv_fd w)
  | _ => None
  end.

(** The timer of a periodic watcher; another one has none, and the functions for it are never called. *)
Definition timer_fd (w : watcher) : option Z := match w_type w with EVENT_TYPE_PERIODIC => Some (w_timer w) | _ => None end.

Definition fd_of (w : watcher) : option Z := match io_fd w with Some fd => Some fd | None => timer_fd w end.

(** What happened to a watcher; it was also given another descriptor, or its descriptor was closed, while it was in the
    table. *)
Inductive mark :=
| Started (p : nat) | Stopped (p : nat) | Timer_started (p : nat) | Timer_stopped (p : nat) | Dispatched (p : nat)
| Redirected (p : nat) | Closed (fd : Z).

(** [struct event_loop], with the memory of the watchers, the state of the kernel and what happened so far. *)
Record event_loop (K : Type) := Loop {
  running : bool;
  forked : bool;
  events : list nat;
  memory : gmap nat watcher;
  kernel : K;
  marks : list mark }.
Arguments Loop {_}. Arguments running {_}. Arguments forked {_}. Arguments events {_}. Arguments memory {_}. Arguments kernel {_}. Arguments marks {_}.

(** The functions that [setup_ops] chooses; they see one watcher and the kernel.  [b_close] is what the kernel makes of the
    close of a descriptor of the process. *)
Record backend (K : Type) := Backend {
  b_close : Z -> K -> K;
  b_io_start : nat -> watcher -> K -> option (ev_rc * watcher * K);
  b_io_stop : nat -> watcher -> K -> option (ev_rc * watcher * K);
  b_periodic_start : nat -> watcher -> K -> option (ev_rc * watcher * K);
  b_periodic_stop : nat -> watcher -> K -> option (ev_rc * watcher * K) }.
Arguments Backend {_}. Arguments b_close {_}. Arguments b_io_start {_}. Arguments b_io_stop {_}. Arguments b_periodic_start {_}. Arguments b_periodic_stop {_}.

Section loop.
Context {K : Type} (B : backend K).
Implicit Types l : event_loop K.

Definition set_loop_running (b : bool) l := Loop b (forked l) (events l) (memory l) (kernel l) (marks l).
Definition set_events (es : list nat) l := Loop (running l) (forked l) es (memory l) (kernel l) (marks l).
Definition set_memory (m : gmap nat watcher) l := Loop (running l) (forked l) (events l) m (kernel l) (marks l).
Definition add_mark (k : mark) l := Loop (running l) (forked l) (events l) (memory l) (kernel l) (marks l ++ [k]).

(** A function of the backend on the watcher at this address; [None] when there is none, and when the function ends the
    process. *)
Definition call_backend (f : nat -> watcher -> K -> option (ev_rc * watcher * K)) (p : nat) l : option (ev_rc * event_loop K) :=
  w ← memory l !! p;
  '(rc, w, k) ← f p w (kernel l);
  Some (rc, Loop (running l) (forked l) (events l) (<[p := w]> (memory l)) k (marks l)).

(** [pgagroal_io_start] and [pgagroal_periodic_start]: the watcher is in the table before the backend is
    asked. *)
Definition start_watcher (k : nat -> mark) (f : nat -> watcher -> K -> option (ev_rc * watcher * K)) (p : nat) l : option (ev_rc * event_loop K) :=
  if forked l then Some (RC_OK, l)
  else if (MAX_EVENTS <=? length (events l))%nat then Some (RC_FATAL, l)
  else call_backend f p (add_mark (k p) (set_events (events l ++ [p]) l)).

Definition io_start := start_watcher Started (b_io_start B).
Definition periodic_start := start_watcher Timer_started (b_periodic_start B).

(** The table without the first entry of this address. *)
Fixpoint remove_event (p : nat) (es : list nat) : list nat :=
  match es with
  | [] => []
  | q :: es => if (p =? q)%nat then es else q :: remove_event p es
  end.

(** [pgagroal_io_stop] and [pgagroal_periodic_stop]. *)
Definition stop_watcher (k : nat -> mark) (f : nat -> watcher -> K -> option (ev_rc * watcher * K)) (p : nat) l : option (ev_rc * event_loop K) :=
  if forked l then Some (RC_OK, l)
  else if negb (existsb (Nat.eqb p) (events l)) then Some (RC_ERROR, l)
  else
    '(rc, l) ← call_backend f p (add_mark (k p) l);
    if decide (rc = RC_OK) then Some (RC_OK, set_events (remove_event p (events l)) l) else Some (rc, l).

Definition io_stop := stop_watcher Stopped (b_io_stop B).
Definition periodic_stop := stop_watcher Timer_stopped (b_periodic_stop B).

(** [pgagroal_event_loop_start], [_break] and [_fork]. *)
Definition event_loop_start := set_loop_running true.
Definition event_loop_break := set_loop_running false.
Definition event_loop_fork l : event_loop K := Loop (running l) true (events l) (memory l) (kernel l) (marks l).

(** A worker is initialised again in place, as [transaction_client] does it with that of its client and with that of the
    server.  It may be in the table, and have another descriptor then than the one the kernel knows. *)
Definition worker_init (p : nat) (rcv snd : Z) l : option (event_loop K) :=
  w ← memory l !! p;
  if decide (w_type w = EVENT_TYPE_WORKER) then
    let l' := set_memory (<[p := event_worker_init rcv snd w]> (memory l)) l in
    Some (if existsb (Nat.eqb p) (events l) && negb (rcv =? rcv_fd w) then add_mark (Redirected p) l' else l')
  else None.

(** Whether a watcher of the table has this descriptor. *)
Definition fd_in_table (fd : Z) l : bool := existsb (fun p => bool_decide ((w ← memory l !! p; fd_of w) = Some fd)) (events l).

(** [pgagroal_disconnect]: the process closes a descriptor. *)
Definition close_fd (fd : Z) l : event_loop K :=
  if fd =? -1 then l
  else
    let l' := Loop (running l) (forked l) (events l) (memory l) (b_close B fd (kernel l)) (marks l) in
    if fd_in_table fd l then add_mark (Closed fd) l' else l'.

(** What a callback does with the loop. *)
Inductive loop_op :=
| Op_io_start (p : nat) | Op_io_stop (p : nat) | Op_periodic_start (p : nat) | Op_periodic_stop (p : nat) | Op_break
| Op_worker_init (p : nat) (rcv snd : Z) | Op_close (fd : Z).

Definition run_op (o : loop_op) l : option (event_loop K) :=
  match o with
  | Op_io_start p => r ← io_start p l; Some r.2
  | Op_io_stop p => r ← io_stop p l; Some r.2
  | Op_periodic_start p => r ← periodic_start p l; Some r.2
  | Op_periodic_stop p => r ← periodic_stop p l; Some r.2
  | Op_break => Some (event_loop_break l)
  | Op_worker_init p rcv snd => worker_init p rcv snd l
  | Op_close fd => Some (close_fd fd l)
  end.

Fixpoint run_loop_ops (os : list loop_op) l : option (event_loop K) :=
  match os with
  | [] => Some l
  | o :: os => l ← run_op o l; run_loop_ops os l
  end.

(** The call of the callback of a watcher. *)
Definition dispatch (p : nat) (ops : list loop_op) l : option (event_loop K) := run_loop_ops ops (add_mark (Dispatched p) l).
End loop.

(** ** epoll *)

(** The errors of [epoll_ctl] that the code looks at. *)
Inductive ep_errno := EEXIST | EBADF | ENOENT | EINVAL | E_OTHER.

#[global] Instance ep_errno_eq_dec : EqDecision ep_errno.
Proof. solve_decision. Defined.

(** The kernel: the answers of [epoll_ctl], the end of a descriptor, and what one instance of epoll watches, which is
    open as long as the loop is.  Epoll knows a file by its open file description and its number.  [watched] has the
    data of the files that are open under their number in this process; [orphans] those whose number was closed here
    although another process has the file open, by fork or because it was sent there: epoll goes on to announce these. *)
Record epoll := Epoll {
  ep : Type;
  ctl_add : Z -> nat -> ep -> option ep_errno * ep;
  ctl_mod : Z -> nat -> ep -> option ep_errno * ep;
  ctl_del : Z -> ep -> option ep_errno * ep;
  fd_closed : Z -> ep -> ep;
  watched : ep -> gmap Z nat;
  orphans : ep -> gset (Z * nat) }.

(** What epoll_ctl(2) and epoll(7) say of them.  [EBADF]: no file is open under the number; [ENOENT]: the one that is
    open is not registered; [EINVAL]: the number is that of the instance itself, which cannot be registered. *)
Class EpollLaws (E : epoll) : Prop := {
  add_ok fd p k k' : ctl_add E fd p k = (None, k') -> watched E k' = <[fd := p]> (watched E k);
  add_fails fd p k e k' : ctl_add E fd p k = (Some e, k') -> watched E k' = watched E k;
  mod_ok fd p k k' : ctl_mod E fd p k = (None, k') -> watched E k' = <[fd := p]> (watched E k);
  mod_fails fd p k e k' : ctl_mod E fd p k = (Some e, k') -> watched E k' = watched E k;
  del_ok fd k k' : ctl_del E fd k = (None, k') -> watched E k' = delete fd (watched E k);
  del_fails fd k e k' : ctl_del E fd k = (Some e, k') -> watched E k' = watched E k;
  del_unknown fd k e k' : ctl_del E fd k = (Some e, k') -> e = EBADF \/ e = ENOENT \/ e = EINVAL -> watched E k !! fd = None;
  add_orphans fd p k : orphans E (ctl_add E fd p k).2 = orphans E k;
  mod_orphans fd p k : orphans E (ctl_mod E fd p k).2 = orphans E k;
  del_orphans fd k : orphans E (ctl_del E fd k).2 = orphans E k;
  closed_watched fd k : watched E (fd_closed E fd k) = delete fd (watched E k);
  closed_orphans fd k q : q ∈ orphans E (fd_closed E fd k) -> q ∈ orphans E k \/ (q.1 = fd /\ watched E k !! fd = Some q.2) }.

Section epoll.
Context (E : epoll).

(** [ev_epoll_io_start]: a watcher of another type ends the process. *)
Definition epoll_io_start (p : nat) (w : watcher) (k : ep E) : option (ev_rc * watcher * ep E) :=
  match io_fd w with
  | None => None
  | Some fd =>
      match ctl_add E fd p k with
      | (None, k) => Some (RC_OK, w, k)
      | (Some EEXIST, k) => match ctl_mod E fd p k with (None, k) => Some (RC_OK, w, k) | (Some _, k) => Some (RC_FATAL, w, k) end
      | (Some _, k) => Some (RC_FATAL, w, k)
      end
  end.

(** [ev_epoll_io_stop]. *)
Definition epoll_io_stop (p : nat) (w : watcher) (k : ep E) : option (ev_rc * watcher * ep E) :=
  match io_fd w with
  | None => Some (RC_FATAL, w, k)
  | Some fd =>
      match ctl_del E fd k with
      | (None, k) | (Some (EBADF | ENOENT | EINVAL), k) => Some (RC_OK, w, k)
      | (Some _, k) => Some (RC_FATAL, w, k)
      end
  end.

(** [ev_epoll_periodic_start] and [ev_epoll_periodic_stop]. *)
Definition epoll_periodic_start (p : nat) (w : watcher) (k : ep E) : option (ev_rc * watcher * ep E) :=
  fd ← timer_fd w;
  match ctl_add E fd p k with (None, k) => Some (RC_OK, w, k) | (Some _, k) => Some (RC_FATAL, w, k) end.

Definition epoll_periodic_stop (p : nat) (w : watcher) (k : ep E) : option (ev_rc * watcher * ep E) :=
  fd ← timer_fd w;
  match ctl_del E fd k with (None, k) => Some (RC_OK, set_timer (-1) w, k) | (Some _, k) => Some (RC_ERROR, w, k) end.

Definition epoll_backend : backend (ep E) := Backend (fd_closed E) epoll_io_start epoll_io_stop epoll_periodic_start epoll_periodic_stop.

(** An event: the address that was stored with the descriptor, what the call of the handler answers, and what the
    callback does. *)
Inductive handler_answer := A_ok (fd : Z) | A_again | A_error.
Record announced := Announced { a_watcher : nat; a_answer : handler_answer; a_ops : list loop_op }.

(** [ev_epoll_handler] with [ev_epoll_periodic_handler] and [ev_epoll_io_handler].  A timer that has not expired is an
    error, a connection that is gone is none. *)
Definition epoll_handler (a : announced) (l : event_loop (ep E)) : option (ev_rc * event_loop (ep E)) :=
  let p := a_watcher a in
  w ← memory l !! p;
  match w_type w with
  | EVENT_TYPE_PERIODIC =>
      match a_answer a with
      | A_ok _ => l ← dispatch epoll_backend p (a_ops a) l; Some (RC_OK, l)
      | _ => Some (RC_ERROR, l)
      end
  | EVENT_TYPE_MAIN =>
      match a_answer a with
      | A_ok fd => l ← dispatch epoll_backend p (a_ops a) (set_memory (<[p := set_client_fd fd w]> (memory l)) l); Some (RC_OK, l)
      | A_again => Some (RC_OK, l)
      | A_error => Some (RC_ERROR, l)
      end
  | EVENT_TYPE_WORKER => l ← dispatch epoll_backend p (a_ops a) l; Some (RC_OK, l)
  | _ => Some (RC_FATAL, l)
  end.

(** The loop over the events of one answer: the first error ends it, and the loop; a break does not. *)
Fixpoint epoll_batch (rc : ev_rc) (es : list announced) (l : event_loop (ep E)) : option (ev_rc * event_loop (ep E)) :=
  match es with
  | [] => Some (rc, l)
  | a :: es =>
      '(rc, l) ← epoll_handler a l;
      if decide (rc = RC_OK) then epoll_batch rc es l else Some (rc, event_loop_break l)
  end.

(** What [epoll_pwait] answers. *)
Inductive waited := W_interrupted | W_failed | W_events (es : list announced).

(** [ev_epoll_loop] over the answers. *)
Fixpoint epoll_rounds (rc : ev_rc) (ws : list waited) (l : event_loop (ep E)) : result (ev_rc * event_loop (ep E)) :=
  if negb (running l) then Done (rc, l)
  else
    match ws with
    | [] => Running
    | W_interrupted :: ws => epoll_rounds rc ws l
    | W_failed :: _ => Done (RC_ERROR, event_loop_break l)
    | W_events es :: ws => match epoll_batch rc es l with Some (rc, l) => epoll_rounds rc ws l | None => Undefined end
    end.

Definition epoll_loop (ws : list waited) (l : event_loop (ep E)) : result (ev_rc * event_loop (ep E)) := epoll_rounds RC_OK ws (event_loop_start l).
End epoll.

(** ** io_uring *)

(** What was asked of the kernel. *)
Inductive uring_request := R_accept (fd : Z) (p : nat) | R_recv (fd : Z) (p : nat) | R_cancel (p : nat) | R_timeout (multishot : bool) (p : nat) | R_timeout_remove (p : nat).

(** The ring: whether the next calls of [io_uring_get_sqe] find an entry, and the requests so far. *)
Record ring := Ring { r_sqes : list bool; r_requests : list uring_request }.

(** Without an answer there is an entry. *)
Definition get_sqe (k : ring) : bool * ring :=
  match r_sqes k with
  | [] => (true, k)
  | b :: bs => (b, Ring bs (r_requests k))
  end.

Definition submit (q : uring_request) (k : ring) : ring := Ring (r_sqes k) (r_requests k ++ [q]).

(** [ev_io_uring_io_start]. *)
Definition uring_io_start (p : nat) (w : watcher) (k : ring) : option (ev_rc * watcher * ring) :=
  let '(ok, k) := get_sqe k in
  if ok : bool then
    let w := set_stopped false w in
    match w_type w with
    | EVENT_TYPE_MAIN => Some (RC_OK, w, submit (R_accept (listen_fd w) p) k)
    | EVENT_TYPE_WORKER => Some (RC_OK, w, submit (R_recv (rcv_fd w) p) k)
    | _ => None
    end
  else Some (RC_ERROR, w, k).

(** The attempts of [ev_io_uring_io_stop]. *)
Fixpoint retry_sqe (n : nat) (k : ring) : bool * ring :=
  match n with
  | O => (false, k)
  | S n => let '(ok, k) := get_sqe k in if ok : bool then (true, k) else retry_sqe n k
  end.

(** [ev_io_uring_io_stop]: the mark comes first. *)
Definition uring_io_stop (p : nat) (w : watcher) (k : ring) : option (ev_rc * watcher * ring) :=
  let w := set_stopped true w in
  let '(ok, k) := retry_sqe 100 k in
  if ok : bool then Some (RC_OK, w, submit (R_cancel p) k) else Some (RC_ERROR, w, k).

(** [ev_io_uring_periodic_start] and [ev_io_uring_periodic_stop]. *)
Definition uring_periodic_start (p : nat) (w : watcher) (k : ring) : option (ev_rc * watcher * ring) :=
  let '(ok, k) := get_sqe k in
  if ok : bool then Some (RC_OK, w, submit (R_timeout (0 <? w_repeat_ms w) p) k) else Some (RC_ERROR, w, k).

Definition uring_periodic_stop (p : nat) (w : watcher) (k : ring) : option (ev_rc * watcher * ring) :=
  let '(ok, k) := get_sqe k in
  if ok : bool then Some (RC_OK, w, submit (R_timeout_remove p) k) else Some (RC_ERROR, w, k).

Definition uring_backend : backend ring := Backend (fun _ k => k) uring_io_start uring_io_stop uring_periodic_start uring_periodic_stop.

(** A completion, with what the callback does. *)
Record cqe := Cqe { q_watcher : option nat; q_res : Z; q_more : bool; q_ops : list loop_op }.

Definition ECANCELED : Z := 125.

(** A request is made again, whatever comes of it. *)
Definition rearm (f : nat -> watcher -> ring -> option (ev_rc * watcher * ring)) (p : nat) (l : event_loop ring) : option (event_loop ring) :=
  r ← call_backend f p l; Some r.2.

(** [ev_io_uring_handler]. *)
Definition uring_handler (c : cqe) (l : event_loop ring) : option (ev_rc * event_loop ring) :=
  match q_watcher c with
  | None => Some (RC_OK, l)
  | Some p =>
      if q_res c =? - ECANCELED then Some (RC_OK, l)
      else
        w ← memory l !! p;
        match w_type w with
        | EVENT_TYPE_INVALID => Some (RC_OK, l)
        | EVENT_TYPE_PERIODIC =>
            l ← dispatch uring_backend p (q_ops c) l;
            w ← memory l !! p;
            l ← (if (0 <? w_repeat_ms w) && negb (q_more c) then rearm uring_periodic_start p l else Some l);
            Some (RC_OK, l)
        | EVENT_TYPE_MAIN =>
            if q_res c <? 0 then
              l ← (if running l then rearm uring_io_start p l else Some l);
              Some (RC_OK, l)
            else
              l ← dispatch uring_backend p (q_ops c) (set_memory (<[p := set_client_fd (q_res c) w]> (memory l)) l);
              l ← (if negb (q_more c) && running l then rearm uring_io_start p l else Some l);
              Some (RC_OK, l)
        | EVENT_TYPE_WORKER =>
            if w_stopped w then Some (RC_OK, l)
            else
              l ← dispatch uring_backend p (q_ops c) (set_memory (<[p := set_length (Z.max 0 (q_res c)) w]> (memory l)) l);
              if q_res c <=? 0 then Some (RC_CONN_CLOSED, l)
              else
                w ← memory l !! p;
                l ← (if running l && negb (w_stopped w) then rearm uring_io_start p l else Some l);
                Some (RC_OK, l)
        | EVENT_TYPE_SIGNAL => Some (RC_FATAL, l)
        end
  end.

Fixpoint uring_batch (rc : ev_rc) (cs : list cqe) (l : event_loop ring) : option (ev_rc * event_loop ring) :=
  match cs with
  | [] => Some (rc, l)
  | c :: cs =>
      '(rc, l) ← uring_handler c l;
      if decide (rc = RC_OK) then uring_batch rc cs l else Some (rc, event_loop_break l)
  end.

(** [ev_io_uring_loop] over what the waits give: an overflow of the ring, or completions. *)
Fixpoint uring_rounds (rc : ev_rc) (ws : list (option (list cqe))) (l : event_loop ring) : result (ev_rc * event_loop ring) :=
  if negb (running l) then Done (rc, l)
  else
    match ws with
    | [] => Running
    | None :: _ => Done (RC_FATAL, event_loop_break l)
    | Some cs :: ws => match uring_batch rc cs l with Some (rc, l) => uring_rounds rc ws l | None => Undefined end
    end.

Definition uring_loop (ws : list (option (list cqe))) (l : event_loop ring) : result (ev_rc * event_loop ring) := uring_rounds RC_ERROR ws (event_loop_start l).

(** ** Sending with io_uring *)

Definition EOVERFLOW : Z := 75.

(** An answer for a round: no entry or an error of a call, or the result of the completion. *)
Inductive send_answer := S_failed | S_result (res : Z).

(** [pgagroal_event_prep_submit_send]: the result and the bytes that went out. *)
Fixpoint submit_send (rs : list send_answer) (data : list Z) (total : Z) : result (Z * list Z) :=
  if Z.of_nat (length data) <=? total then Done (total, [])
  else
    match rs with
    | [] => Running
    | S_failed :: _ => Done (-1, [])
    | S_result res :: rs =>
        if res <? 0 then Done (res, [])
        else if res =? 0 then Done (total, [])
        else if 2 ^ 31 - 1 - res <? total then Done (- EOVERFLOW, take (Z.to_nat res) (drop (Z.to_nat total) data))
        else
          match submit_send rs data (total + res) with
          | Done (r, sent) => Done (r, take (Z.to_nat res) (drop (Z.to_nat total) data) ++ sent)
          | Running => Running
          | Undefined => Undefined
          end
    end.

Definition event_prep_submit_send (rs : list send_answer) (data : list Z) : result (Z * list Z) := submit_send rs data 0.

(** ** Timers and the end of the loop *)

(** [struct timespec] from milliseconds, as in [ev_epoll_periodic_init] and [ev_io_uring_periodic_init]. *)
Definition timespec_of_ms (ms : Z) : Z * Z := (Z.quot ms 1000, Z.rem ms 1000 * 1000000).

(** [ev_epoll_periodic_init]: the watcher with its timer, and the value and the interval that it is set to.  [clock] tells whether the
    clock could be read, [created] is the new descriptor, [set] whether it could be set. *)
Definition epoll_periodic_init (msec repeat_ms : Z) (clock : bool) (created : Z) (set : bool) (w : watcher)
  : ev_rc * watcher * option ((Z * Z) * (Z * Z)) :=
  if negb clock then (RC_ERROR, w, None)
  else
    let w := Watcher (w_type w) (w_fds w) (w_stopped w) (w_length w) created repeat_ms in
    if created =? -1 then (RC_ERROR, w, None)
    else if set then (RC_OK, w, Some (timespec_of_ms msec, timespec_of_ms repeat_ms))
    else (RC_ERROR, set_timer (-1) w, None).

(** [pgagroal_periodic_init]. *)
Definition periodic_init (msec repeat_ms : Z) (clock : bool) (created : Z) (set : bool) (w : watcher) : ev_rc * watcher * option ((Z * Z) * (Z * Z)) :=
  let w := Watcher EVENT_TYPE_PERIODIC (w_fds w) (w_stopped w) (w_length w) (w_timer w) (w_repeat_ms w) in
  let '(rc, w, ts) := epoll_periodic_init msec repeat_ms clock created set w in
  (if decide (rc = RC_OK) then RC_OK else RC_FATAL, w, ts).

(** The loop of [pgagroal_event_loop_destroy] that closes the timers of the table. *)
Fixpoint destroy_timers (es : list nat) (m : gmap nat watcher) : option (list Z * gmap nat watcher) :=
  match es with
  | [] => Some ([], m)
  | p :: es =>
      w ← m !! p;
      if decide (w_type w = EVENT_TYPE_PERIODIC) then
        if w_timer w =? -1 then destroy_timers es m
        else '(fds, m) ← destroy_timers es (<[p := set_timer (-1) w]> m); Some (w_timer w :: fds, m)
      else destroy_timers es m
  end.

(** ** Signals *)

(** [signal_callbacks] and the set of the loop. *)
Record signals := Signals { sg_callbacks : gmap Z nat; sg_set : gset Z }.

Section signals.
(** [PGAGROAL_NSIG]. *)
Context (nsig : Z).

(** [pgagroal_signal_start], with the results of [sigaction] and [sigaddset]; in a child it does nothing. *)
Definition signal_start (child : bool) (signum : Z) (cb : nat) (action added : bool) (s : signals) : ev_rc * signals :=
  if child then (RC_OK, s)
  else if (signum <=? 0) || (nsig <=? signum) then (RC_ERROR, s)
  else
    let s := Signals (<[signum := cb]> (sg_callbacks s)) (sg_set s) in
    if negb action then (RC_ERROR, s)
    else if negb added then (RC_ERROR, s)
    else (RC_OK, Signals (sg_callbacks s) ({[signum]} ∪ sg_set s)).

(** [pgagroal_signal_stop], with the results of [sigdelset] and [sigprocmask]. *)
Definition signal_stop (child : bool) (signum : Z) (removed unblocked : bool) (s : signals) : ev_rc * signals :=
  if child then (RC_OK, s)
  else if negb removed then (RC_ERROR, s)
  else
    let s := Signals (sg_callbacks s) (sg_set s ∖ {[signum]}) in
    let s := if (0 <? signum) && (signum <? nsig) then Signals (delete signum (sg_callbacks s)) (sg_set s) else s in
    (if unblocked then RC_OK else RC_FATAL, s).

(** [signal_handler]: the callback that is called. *)
Definition signal_handler (signum : Z) (s : signals) : option nat :=
  if (signum <? 0) || (nsig <=? signum) then None else sg_callbacks s !! signum.
End signals.
