(* ===== verification/EventLoopFacts.v ===== *)
(** * Facts about the event loop

    With epoll only watchers of the table are announced, unless a descriptor was closed or replaced
    while its watcher was in the table, and one that is stopped while a batch is
    handled is still called; with io_uring a worker that was stopped is not called before it is started
    again.  A break ends the loop after the batch. *)

From stdpp Require Import gmap.
From S2P Require Import Prelude Wire Frames EventLoop.

Local Open Scope Z_scope.

(** ** Operations *)

Section operations.
Context {K : Type} (B : backend K).
Implicit Types l : event_loop K.

(** A property of the loop that the four calls of the backend, the marks and a break keep is kept by a callback. *)
Lemma run_loop_ops_ind (P : event_loop K -> Prop) :
  (forall o l l', P l -> run_op B o l = Some l' -> P l') -> forall os l l', P l -> run_loop_ops B os l = Some l' -> P l'.
Proof.
  intros Hop os. induction os as [|o os IH]; intros l l' Hl H; [by injection H as <-|]. cbn [run_loop_ops] in H.
  apply bind_Some in H as (l1 & H1 & H). by eauto.
Qed.

Lemma call_backend_spec (f : nat -> watcher -> K -> option (ev_rc * watcher * K)) (p : nat) l rc l' :
  call_backend f p l = Some (rc, l') ->
  exists w w' k, memory l !! p = Some w /\ f p w (kernel l) = Some (rc, w', k) /\
    l' = Loop (running l) (forked l) (events l) (<[p := w']> (memory l)) k (marks l).
Proof.
  unfold call_backend. intros H. apply bind_Some in H as (w & Hw & H). apply bind_Some in H as ([[rc' w'] k] & Hf & [= <- <-]). by exists w, w', k.
Qed.

Lemma remove_event_in (p q : nat) (es : list nat) : q ∈ remove_event p es -> q ∈ es.
Proof. induction es as [|e es IH]; [done|]. cbn [remove_event]. destruct (Nat.eqb_spec p e); set_solver. Qed.

Lemma remove_event_other (p q : nat) (es : list nat) : q ∈ es -> q <> p -> q ∈ remove_event p es.
Proof. induction es as [|e es IH]; [done|]. cbn [remove_event]. destruct (Nat.eqb_spec p e); set_solver. Qed.

Lemma remove_event_length (p : nat) (es : list nat) : (length (remove_event p es) <= length es)%nat.
Proof. induction es as [|e es IH]; [done|]. cbn [remove_event]. destruct (p =? e)%nat; simpl; lia. Qed.

(** Nothing but [pgagroal_event_loop_start] makes a loop run. *)
Lemma run_op_running (o : loop_op) l l' : run_op B o l = Some l' -> running l = false -> running l' = false.
Proof.
  assert (Hs : forall k f p rc l2, start_watcher k f p l = Some (rc, l2) -> running l = false -> running l2 = false).
  { intros k f p rc l2. unfold start_watcher. destruct (forked l); [by intros [= _ <-]|]. destruct (MAX_EVENTS <=? length (events l))%nat; [by intros [= _ <-]|].
    intros H Hl. by apply call_backend_spec in H as (w & w' & k' & _ & _ & ->). }
  assert (Ht : forall k f p rc l2, stop_watcher k f p l = Some (rc, l2) -> running l = false -> running l2 = false).
  { intros k f p rc l2. unfold stop_watcher. destruct (forked l); [by intros [= _ <-]|]. destruct (negb _); [by intros [= _ <-]|].
    intros H Hl. apply bind_Some in H as ([rc' l3] & H & H'). apply call_backend_spec in H as (w & w' & k' & _ & _ & ->).
    destruct (decide (rc' = RC_OK)); by injection H' as _ <-. }
  destruct o as [| | | | |p rcv snd|fd]; cbn [run_op]; intros H Hl; try (apply bind_Some in H as ([rc l2] & H & [= <-]); by eauto).
  - by injection H as <-.
  - unfold worker_init in H. apply bind_Some in H as (w & _ & H). destruct (decide _); [|done]. destruct (_ && _); by injection H as <-.
  - injection H as <-. unfold close_fd. by destruct (fd =? -1), (fd_in_table fd l).
Qed.
End operations.

(** ** epoll *)

Section epoll_facts.
Context (E : epoll) {EL : EpollLaws E}.
Implicit Types l : event_loop (ep E).

(** What was entered under a descriptor is a watcher of the table with this descriptor; or the descriptor was closed, or another
    one given to the watcher, while the watcher was in the table. *)
Definition entry_ok l (fd : Z) (p : nat) : Prop :=
  Closed fd ∈ marks l \/ Redirected p ∈ marks l \/ (p ∈ events l /\ exists w, memory l !! p = Some w /\ fd_of w = Some fd).

Definition table_ok l : Prop :=
  (length (events l) <= MAX_EVENTS)%nat /\
  (forall fd p, watched E (kernel l) !! fd = Some p -> entry_ok l fd p) /\
  (forall fd p, (fd, p) ∈ orphans E (kernel l) -> Closed fd ∈ marks l \/ Redirected p ∈ marks l).

(** An entry stays in order when more has happened and its watcher is still there. *)
Lemma entry_ok_later l l' fd p :
  entry_ok l fd p -> (forall k, k ∈ marks l -> k ∈ marks l') ->
  (forall w, p ∈ events l -> memory l !! p = Some w -> fd_of w = Some fd -> p ∈ events l' /\ exists w', memory l' !! p = Some w' /\ fd_of w' = Some fd) ->
  entry_ok l' fd p.
Proof. intros [H|[H|(Hin & w & Hm & Hf)]] Hk Hw; [left; auto|right; left; auto|right; right]. by eapply Hw. Qed.

(** What the functions of the backend do to a watcher and to what is watched. *)
Definition starts_ok (f : nat -> watcher -> ep E -> option (ev_rc * watcher * ep E)) : Prop := forall p w k rc w' k',
  f p w k = Some (rc, w', k') ->
  w' = w /\ orphans E k' = orphans E k /\
  (watched E k' = watched E k \/ exists fd, fd_of w = Some fd /\ watched E k' = <[fd := p]> (watched E k)).

Definition stops_ok (f : nat -> watcher -> ep E -> option (ev_rc * watcher * ep E)) : Prop := forall p w k rc w' k',
  f p w k = Some (rc, w', k') ->
  orphans E k' = orphans E k /\
  ((rc <> RC_OK /\ w' = w /\ watched E k' = watched E k) \/ (rc = RC_OK /\ exists fd, fd_of w = Some fd /\ watched E k' = delete fd (watched E k))).

Lemma epoll_io_start_ok : starts_ok (epoll_io_start E).
Proof.
  intros p w k rc w' k'. unfold epoll_io_start, fd_of. destruct (io_fd w) as [fd|]; [|done].
  pose proof (add_orphans fd p k) as Ho. destruct (ctl_add E fd p k) as [[e|] k1] eqn:Ea; cbn [snd] in Ho.
  - pose proof (add_fails _ _ _ _ _ Ea) as Hk1. destruct e; try (intros [= _ <- <-]; auto).
    pose proof (mod_orphans fd p k1) as Ho'. destruct (ctl_mod E fd p k1) as [[e|] k2] eqn:Em; cbn [snd] in Ho'; intros [= _ <- <-];
      (split; [done|]; split; [congruence|]).
    + left. by rewrite (mod_fails _ _ _ _ _ Em).
    + right. exists fd. split; [done|]. by rewrite (mod_ok _ _ _ _ Em), Hk1.
  - intros [= _ <- <-]. split; [done|]. split; [done|]. right. exists fd. split; [done|]. by apply add_ok in Ea.
Qed.

Lemma epoll_periodic_start_ok : starts_ok (epoll_periodic_start E).
Proof.
  intros p w k rc w' k'. unfold epoll_periodic_start, fd_of, io_fd, timer_fd. destruct (w_type w); try done. cbn [mbind option_bind].
  pose proof (add_orphans (w_timer w) p k) as Ho. destruct (ctl_add E (w_timer w) p k) as [[e|] k1] eqn:Ea; cbn [snd] in Ho;
    intros [= _ <- <-]; (split; [done|]; split; [done|]).
  - left. by apply add_fails in Ea.
  - right. eexists. split; [done|]. by apply add_ok in Ea.
Qed.

Lemma epoll_io_stop_ok : stops_ok (epoll_io_stop E).
Proof.
  intros p w k rc w' k'. unfold epoll_io_stop, fd_of. destruct (io_fd w) as [fd|]; [|by intros [= <- <- <-]; split; [|left]].
  pose proof (del_orphans fd k) as Ho. destruct (ctl_del E fd k) as [[e|] k1] eqn:Ed; cbn [snd] in Ho.
  - pose proof (del_fails _ _ _ _ Ed) as Hk1.
    assert (Hgone : e = EBADF \/ e = ENOENT \/ e = EINVAL -> watched E k1 = delete fd (watched E k)).
    { intros He. rewrite delete_id; [done|]. by eapply del_unknown. }
    destruct e; intros [= <- <- <-]; (split; [done|]); try (left; done); right; (split; [done|]); exists fd; (split; [done|]); apply Hgone; tauto.
  - intros [= <- <- <-]. split; [done|]. right. split; [done|]. exists fd. split; [done|]. by apply del_ok in Ed.
Qed.

Lemma epoll_periodic_stop_ok : stops_ok (epoll_periodic_stop E).
Proof.
  intros p w k rc w' k'. unfold epoll_periodic_stop, fd_of, io_fd, timer_fd. destruct (w_type w); try done. cbn [mbind option_bind].
  pose proof (del_orphans (w_timer w) k) as Ho. destruct (ctl_del E (w_timer w) k) as [[e|] k1] eqn:Ed; cbn [snd] in Ho;
    intros [= <- <- <-]; (split; [done|]).
  - left. split_and!; [done|done|]. by apply del_fails in Ed.
  - right. split; [done|]. eexists. split; [done|]. by apply del_ok in Ed.
Qed.

Lemma table_ok_start f p l mk rc l' : starts_ok f -> table_ok l -> start_watcher mk f p l = Some (rc, l') -> table_ok l'.
Proof.
  intros Hf Hl. unfold start_watcher. destruct (forked l); [by intros [= _ <-]|].
  destruct (Nat.leb_spec MAX_EVENTS (length (events l))) as [Hfull|Hroom]; [by intros [= _ <-]|].
  intros H. apply call_backend_spec in H as (w & w' & k & Hm & Hc & ->). apply Hf in Hc as (-> & Ho & Hk). cbn [memory kernel events running forked marks set_events add_mark] in *.
  destruct Hl as (_ & Hw & Horph). rewrite insert_id by done.
  split_and!; cbn [events kernel memory marks]; [rewrite length_app; cbn [length]; lia| |intros fd q; rewrite Ho; intros Hq; destruct (Horph _ _ Hq); [left|right]; set_solver].
  intros fd q Hq. assert (Hcase : watched E (kernel l) !! fd = Some q \/ (q = p /\ fd_of w = Some fd)).
  { destruct Hk as [Hk|(fd' & Hfd & Hk)]; rewrite Hk in Hq; [by left|]. apply lookup_insert_Some in Hq as [[-> ->]|[_ Hq]]; [by right|by left]. }
  destruct Hcase as [Hq'|[-> Hfd]]; [|right; right; cbn [events memory]; split; [set_solver|by exists w]].
  eapply entry_ok_later; [by apply Hw|cbn [marks]; set_solver|]. intros w0 Hin Hm0 Hf0. cbn [events memory]. split; [set_solver|by exists w0].
Qed.

Lemma table_ok_stop f p l mk rc l' : stops_ok f -> table_ok l -> stop_watcher mk f p l = Some (rc, l') -> table_ok l'.
Proof.
  intros Hf (Hn & Hw & Horph). unfold stop_watcher. destruct (forked l); [by intros [= _ <-]|]. destruct (negb _); [by intros [= _ <-]|].
  intros H. apply bind_Some in H as ([rc' l1] & H & H'). apply call_backend_spec in H as (w & w' & k & Hm & Hc & ->).
  cbn [memory kernel events running forked marks add_mark] in *. apply Hf in Hc as [Ho Hc].
  assert (Horph' : forall fd q, (fd, q) ∈ orphans E k -> Closed fd ∈ marks l ++ [mk p] \/ Redirected q ∈ marks l ++ [mk p]).
  { intros fd q. rewrite Ho. intros Hq. destruct (Horph _ _ Hq); [left|right]; set_solver. }
  destruct Hc as [(Hrc & -> & Hk)|(-> & fd & Hfd & Hk)].
  - rewrite decide_False in H' by done. injection H' as _ <-. rewrite insert_id by done. split_and!; cbn [events kernel memory marks]; [done| |done].
    rewrite Hk. intros fd' q Hq. eapply entry_ok_later; [by apply Hw|cbn [marks]; set_solver|]. cbn [events memory]. eauto.
  - rewrite decide_True in H' by done. injection H' as _ <-. split_and!; cbn [set_events events kernel memory marks]; [|  |done].
    + pose proof (remove_event_length p (events l)). lia.
    + intros fd' q Hq. rewrite Hk in Hq. apply lookup_delete_Some in Hq as [Hne Hq].
      eapply entry_ok_later; [by apply Hw|cbn [set_events marks]; set_solver|]. intros w0 Hin Hw0 Hf0. cbn [set_events events memory].
      assert (q <> p) by (intros ->; rewrite Hm in Hw0; injection Hw0 as <-; congruence).
      split; [by apply remove_event_other|]. exists w0. by rewrite lookup_insert_ne.
Qed.

Lemma table_ok_init p rcv snd l l' : table_ok l -> worker_init p rcv snd l = Some l' -> table_ok l'.
Proof.
  intros (Hn & Hw & Horph). unfold worker_init. intros (w & Hm & H)%bind_Some. destruct (decide (w_type w = EVENT_TYPE_WORKER)) as [Ht|]; [|done].
  assert (Hfd : fd_of w = Some (rcv_fd w)) by (unfold fd_of, io_fd; by rewrite Ht).
  destruct (existsb (Nat.eqb p) (events l) && negb (rcv =? rcv_fd w)) eqn:Eb; injection H as <-;
    (split_and!; cbn [add_mark set_memory events kernel memory marks]; [done| |]).
  - intros fd q Hq. destruct (decide (q = p)) as [->|Hne]; [right; left; cbn [add_mark marks]; set_solver|].
    eapply entry_ok_later; [by apply Hw|cbn [add_mark marks set_memory]; set_solver|]. intros w0 Hin Hw0 Hf0. cbn [add_mark set_memory events memory].
    split; [done|]. exists w0. by rewrite lookup_insert_ne.
  - intros fd q Hq. destruct (Horph _ _ Hq); [left|right]; set_solver.
  - intros fd q Hq. eapply entry_ok_later; [by apply Hw|done|]. intros w0 Hin Hw0 Hf0. cbn [set_memory events memory]. split; [done|].
    destruct (decide (q = p)) as [->|Hne]; [|exists w0; by rewrite lookup_insert_ne]. rewrite lookup_insert_eq. eexists. split; [done|].
    rewrite Hm in Hw0. injection Hw0 as <-. rewrite <- Hf0, Hfd. unfold fd_of, io_fd. cbn [event_worker_init w_type rcv_fd w_fds fst].
    assert (existsb (Nat.eqb p) (events l) = true) as Hex by (apply existsb_exists; exists p; split; [by apply list_elem_of_In|apply Nat.eqb_refl]).
    rewrite Hex in Eb. apply negb_false_iff, Z.eqb_eq in Eb as ->. done.
  - done.
Qed.

Lemma table_ok_close fd l : table_ok l -> table_ok (close_fd (epoll_backend E) fd l).
Proof.
  intros (Hn & Hw & Horph). unfold close_fd. destruct (fd =? -1); [done|].
  assert (Hin : forall p w, p ∈ events l -> memory l !! p = Some w -> fd_of w = Some fd -> fd_in_table fd l = true).
  { intros p w Hp Hm Hf. apply existsb_exists. exists p. split; [by apply list_elem_of_In|]. rewrite Hm. by apply bool_decide_eq_true_2. }
  set (l' := Loop _ _ _ _ _ _). set (l2 := if fd_in_table fd l then add_mark (Closed fd) l' else l').
  assert (Hmarks : forall k, k ∈ marks l -> k ∈ marks l2) by (unfold l2; destruct (fd_in_table fd l); cbn; set_solver).
  assert (Hrest : events l2 = events l /\ memory l2 = memory l /\ kernel l2 = fd_closed E fd (kernel l)) by (unfold l2; by destruct (fd_in_table fd l)).
  destruct Hrest as (He & Hm & Hk). split_and!; rewrite ?He, ?Hk; [done| |].
  - intros fd' q. rewrite closed_watched. intros [_ Hq]%lookup_delete_Some. eapply entry_ok_later; [by apply Hw|done|]. rewrite He, Hm. eauto.
  - intros fd' q [Hq|[Hfd Hq]]%closed_orphans; [destruct (Horph _ _ Hq); auto|]. cbn [fst snd] in Hfd, Hq. subst fd'.
    destruct (Hw _ _ Hq) as [?|[?|(Hp & w & Hw0 & Hf)]]; [auto..|]. left. unfold l2. rewrite (Hin q w) by done. cbn [add_mark marks]. set_solver.
Qed.

Lemma table_ok_op (o : loop_op) l l' : table_ok l -> run_op (epoll_backend E) o l = Some l' -> table_ok l'.
Proof.
  intros Hl. destruct o; cbn [run_op]; intros H; try (apply bind_Some in H as ([rc l2] & H & [= <-]); cbn [snd]).
  - by eapply table_ok_start; [apply epoll_io_start_ok| |].
  - by eapply table_ok_stop; [apply epoll_io_stop_ok| |].
  - by eapply table_ok_start; [apply epoll_periodic_start_ok| |].
  - by eapply table_ok_stop; [apply epoll_periodic_stop_ok| |].
  - by injection H as <-.
  - by eapply table_ok_init.
  - injection H as <-. by apply table_ok_close.
Qed.

Lemma table_ok_mark k l : table_ok l -> table_ok (add_mark k l).
Proof.
  intros (Hn & Hw & Horph). split_and!; cbn [add_mark events kernel marks]; [done| |].
  - intros fd p Hp. eapply entry_ok_later; [by apply Hw|cbn; set_solver|]. cbn. eauto.
  - intros fd p Hp. destruct (Horph _ _ Hp); [left|right]; set_solver.
Qed.

Lemma table_ok_dispatch p ops l l' : table_ok l -> dispatch (epoll_backend E) p ops l = Some l' -> table_ok l'.
Proof. intros Hl. apply (run_loop_ops_ind (epoll_backend E) table_ok table_ok_op). by apply table_ok_mark. Qed.

Lemma table_ok_client p fd w l : table_ok l -> memory l !! p = Some w -> w_type w = EVENT_TYPE_MAIN -> table_ok (set_memory (<[p := set_client_fd fd w]> (memory l)) l).
Proof.
  intros (Hn & Hw & Horph) Hm Ht. split_and!; cbn [set_memory events kernel memory marks]; [done| |done]. intros fd' q Hq.
  eapply entry_ok_later; [by apply Hw|done|]. intros w0 Hin Hw0 Hf0. cbn [set_memory events memory]. split; [done|].
  destruct (decide (q = p)) as [->|Hne]; [|rewrite lookup_insert_ne by done; by exists w0].
  rewrite lookup_insert_eq. eexists. split; [done|]. rewrite Hm in Hw0. injection Hw0 as <-. revert Hf0. unfold fd_of, io_fd. cbn [set_client_fd w_type]. by rewrite Ht.
Qed.

Lemma table_ok_handler a l rc l' : table_ok l -> epoll_handler E a l = Some (rc, l') -> table_ok l'.
Proof.
  intros Hl H. unfold epoll_handler in H. apply bind_Some in H as (w & Hm & H).
  destruct (w_type w) eqn:Ht; try (by injection H as _ <-).
  - destruct (a_answer a); try (by injection H as _ <-). apply bind_Some in H as (l1 & H & [= _ <-]).
    eapply table_ok_dispatch; [|exact H]. by apply table_ok_client.
  - apply bind_Some in H as (l1 & H & [= _ <-]). by eapply table_ok_dispatch.
  - destruct (a_answer a); try (by injection H as _ <-). apply bind_Some in H as (l1 & H & [= _ <-]). by eapply table_ok_dispatch.
Qed.

Lemma table_ok_batch es rc l rc' l' : table_ok l -> epoll_batch E rc es l = Some (rc', l') -> table_ok l'.
Proof.
  revert rc l. induction es as [|a es IH]; intros rc l Hl H; [by injection H as _ <-|]. cbn [epoll_batch] in H.
  apply bind_Some in H as ([rc1 l1] & H1 & H). apply table_ok_handler in H1; [|done]. destruct (decide (rc1 = RC_OK)); [by eapply IH|].
  by injection H as _ <-.
Qed.

(** What epoll may announce. *)
Definition announceable l (fd : Z) (p : nat) : Prop := watched E (kernel l) !! fd = Some p \/ (fd, p) ∈ orphans E (kernel l).

(** What happens to a loop: an operation outside of it, a batch that the kernel announces, the end of a file in another process, and the return of a file
    under the number that was closed ([dup2]). *)
Inductive epoll_step : event_loop (ep E) -> event_loop (ep E) -> Prop :=
| es_op o l l' : run_op (epoll_backend E) o l = Some l' -> epoll_step l l'
| es_batch es rc rc' l l' : (forall a, a ∈ es -> exists fd, announceable l fd (a_watcher a)) ->
    epoll_batch E rc es l = Some (rc', l') -> epoll_step l l'
| es_gone k l : watched E k ⊆ watched E (kernel l) -> orphans E k ⊆ orphans E (kernel l) ->
    epoll_step l (Loop (running l) (forked l) (events l) (memory l) k (marks l))
| es_returns fd p k l : (fd, p) ∈ orphans E (kernel l) -> watched E k = <[fd := p]> (watched E (kernel l)) -> orphans E k ⊆ orphans E (kernel l) ->
    epoll_step l (Loop (running l) (forked l) (events l) (memory l) k (marks l)).

(** C29: However watchers are entered, removed and initialised again, by whom, and whatever calls to the kernel fail: what epoll may announce
    is a watcher that is in the table, with the descriptor that it was announced for, and the table has room for it; unless that
    descriptor was closed while a watcher of the table had it, which epoll does not notice as long as another process has the file
    open, or the watcher was given another descriptor while it was in the table. *)
Theorem announced_registered l0 l (fd : Z) (p : nat)
  (Hempty : events l0 = [] /\ watched E (kernel l0) = ∅ /\ orphans E (kernel l0) = ∅) (Hrun : rtc epoll_step l0 l)
  (Hann : announceable l fd p) :
  (length (events l) <= MAX_EVENTS)%nat /\
  (Closed fd ∈ marks l \/ Redirected p ∈ marks l \/ (p ∈ events l /\ exists w, memory l !! p = Some w /\ fd_of w = Some fd)).
Proof.
  assert (H0 : table_ok l0).
  { destruct Hempty as (He & Hk & Ho). split_and!; [rewrite He; simpl; lia|intros ? ?; by rewrite Hk, lookup_empty|intros ? ?; rewrite Ho; set_solver]. }
  assert (Hl : table_ok l).
  { clear -EL H0 Hrun. induction Hrun as [l|l l1 l2 Hs _ IH]; [done|]. apply IH. destruct Hs as [o l l' H|es rc rc' l l' _ H|k l Hk Ho|fd p k l Hp Hk Ho].
    - by eapply table_ok_op.
    - by eapply table_ok_batch.
    - destruct H0 as (Hn & Hw & Horph). split_and!; [done| |]; cbn [kernel events memory marks].
      + intros fd p Hp. apply Hw. by eapply lookup_weaken.
      + intros fd p Hp. apply Horph. set_solver.
    - destruct H0 as (Hn & Hw & Horph). split_and!; [done| |]; cbn [kernel events memory marks].
      + rewrite Hk. intros fd' q [[-> ->]|[_ Hq]]%lookup_insert_Some; [|by apply Hw].
        destruct (Horph _ _ Hp); [by left|by right; left].
      + intros fd' q Hq. apply Horph. set_solver. }
  destruct Hl as (Hn & Hw & Horph). split; [done|]. destruct Hann as [Hp|Hp]; [by apply Hw|]. destruct (Horph _ _ Hp); auto.
Qed.
End epoll_facts.

(** ** io_uring *)

(** Whether the last mark of a start or a stop of this watcher is a stop. *)
Definition mark_stops (p : nat) (b : bool) (k : mark) : bool :=
  match k with
  | Started q => if (p =? q)%nat then false else b
  | Stopped q => if (p =? q)%nat then true else b
  | _ => b
  end.

Definition stopped_in (p : nat) (ks : list mark) : bool := foldl (mark_stops p) false ks.

Lemma stopped_in_snoc (p : nat) (ks : list mark) (k : mark) : stopped_in p (ks ++ [k]) = mark_stops p (stopped_in p ks) k.
Proof. unfold stopped_in. by rewrite foldl_app. Qed.

Definition is_worker (l : event_loop ring) (p : nat) : Prop := exists w, memory l !! p = Some w /\ w_type w = EVENT_TYPE_WORKER.

(** Every call of this watcher comes when the last of its marks before it is not a stop. *)
Definition called_started (p : nat) (ks : list mark) : Prop := forall l1 l2, ks = l1 ++ Dispatched p :: l2 -> stopped_in p l1 = false.

Lemma called_started_snoc (p : nat) (ks : list mark) (k : mark) :
  called_started p ks -> (k = Dispatched p -> stopped_in p ks = false) -> called_started p (ks ++ [k]).
Proof.
  intros Hc Hk l1 l2 E. destruct l2 as [|x l2 _] using rev_ind.
  - apply app_inj_tail in E as [-> ->]. by apply Hk.
  - rewrite app_comm_cons, app_assoc in E. apply app_inj_tail in E as [-> _]. by eapply Hc.
Qed.

(** A worker whose last mark is a stop has its flag, and none was called while it was stopped. *)
Definition flag_ok (p : nat) (ks : list mark) (w : watcher) : Prop :=
  w_type w = EVENT_TYPE_WORKER -> (stopped_in p ks = true -> w_stopped w = true) /\ called_started p ks.

Definition flags_ok (l : event_loop ring) : Prop := forall p w, memory l !! p = Some w -> flag_ok p (marks l) w.

(** A mark that is not a call; the watcher that it is about, if any, has been set. *)
Lemma flag_ok_mark (p : nat) (ks : list mark) (k : mark) (w w' : watcher) :
  flag_ok p ks w -> w_type w' = w_type w -> k <> Dispatched p -> (mark_stops p (stopped_in p ks) k = true -> (stopped_in p ks = true -> w_stopped w = true) -> w_stopped w' = true) ->
  flag_ok p (ks ++ [k]) w'.
Proof.
  intros Hf Ht Hk Hs Hw. rewrite Ht in Hw. destruct (Hf Hw) as [Ha Hc]. split; [rewrite stopped_in_snoc; auto|]. by apply called_started_snoc.
Qed.

(** What the functions of the backend do to a watcher. *)
Lemma uring_io_start_spec p w k rc w' k' : uring_io_start p w k = Some (rc, w', k') -> w' = w \/ w' = set_stopped false w.
Proof.
  unfold uring_io_start. destruct (get_sqe k) as [[] k1]; [|by intros [= _ <- _]; left].
  cbn [set_stopped w_type]. destruct (w_type w); try done; intros [= _ <- _]; by right.
Qed.

Lemma uring_io_stop_spec p w k rc w' k' : uring_io_stop p w k = Some (rc, w', k') -> w' = set_stopped true w.
Proof. unfold uring_io_stop. destruct (retry_sqe 100 k) as [[] k1]; by intros [= _ <- _]. Qed.

Lemma uring_periodic_spec p w k rc w' k' : uring_periodic_start p w k = Some (rc, w', k') \/ uring_periodic_stop p w k = Some (rc, w', k') -> w' = w.
Proof. unfold uring_periodic_start, uring_periodic_stop. destruct (get_sqe k) as [[] k1]; by intros [[= _ <- _]|[= _ <- _]]. Qed.

(** A call of the backend behind a mark. *)
Lemma flags_ok_call f p k l rc l' :
  flags_ok l -> (forall q, k <> Dispatched q) ->
  (forall w kn rc w' kn', f p w kn = Some (rc, w', kn') -> w_type w' = w_type w /\
     (mark_stops p (stopped_in p (marks l)) k = true -> (stopped_in p (marks l) = true -> w_stopped w = true) -> w_stopped w' = true)) ->
  (forall q, q <> p -> mark_stops q (stopped_in q (marks l)) k = stopped_in q (marks l)) ->
  call_backend f p (add_mark k l) = Some (rc, l') -> flags_ok l'.
Proof.
  intros Hl Hk Hf Ho H. apply call_backend_spec in H as (w & w' & kn & Hm & Hc & ->). intros q wq. cbn [memory marks add_mark] in *. intros Hq.
  destruct (Hf _ _ _ _ _ Hc) as [Ht Hs]. destruct (decide (q = p)) as [->|Hne].
  - rewrite lookup_insert_eq in Hq. injection Hq as <-. eapply flag_ok_mark; [by apply Hl|done|done|done].
  - rewrite lookup_insert_ne in Hq by done. eapply flag_ok_mark; [by apply Hl|done|done|]. rewrite (Ho q Hne). auto.
Qed.

Lemma flags_ok_events es l : flags_ok l -> flags_ok (set_events es l).
Proof. done. Qed.

Lemma other_mark (p q : nat) b : q <> p -> mark_stops q b (Started p) = b /\ mark_stops q b (Stopped p) = b.
Proof. intros H. cbn [mark_stops]. by rewrite (proj2 (Nat.eqb_neq q p)). Qed.

(** A mark that is none of a start, a stop or a call. *)
Lemma flags_ok_mark k l : flags_ok l -> (forall q b, mark_stops q b k = b) -> (forall q, k <> Dispatched q) -> flags_ok (add_mark k l).
Proof.
  intros Hl Hs Hk q wq Hq. cbn [memory marks add_mark] in *. eapply flag_ok_mark; [by apply Hl|done|done|]. rewrite Hs. auto.
Qed.

Lemma flags_ok_init p rcv snd l l' : flags_ok l -> worker_init p rcv snd l = Some l' -> flags_ok l'.
Proof.
  intros Hl. unfold worker_init. intros (w & Hm & H)%bind_Some. destruct (decide (w_type w = EVENT_TYPE_WORKER)) as [Ht|]; [|done].
  assert (H1 : flags_ok (set_memory (<[p := event_worker_init rcv snd w]> (memory l)) l)).
  { intros q wq. cbn [memory marks set_memory]. destruct (decide (q = p)) as [->|Hne]; [|rewrite lookup_insert_ne by done; apply Hl].
    rewrite lookup_insert_eq. intros [= <-] _. by apply (Hl p w Hm Ht). }
  destruct (_ && _); injection H as <-; [by apply flags_ok_mark|done].
Qed.

Lemma flags_ok_close fd l : flags_ok l -> flags_ok (close_fd uring_backend fd l).
Proof. intros Hl. unfold close_fd. destruct (fd =? -1); [exact Hl|]. destruct (fd_in_table fd l); [by apply flags_ok_mark|exact Hl]. Qed.

Lemma flags_ok_op (o : loop_op) l l' : flags_ok l -> run_op uring_backend o l = Some l' -> flags_ok l'.
Proof.
  intros Hl. destruct o; cbn [run_op]; intros H; try (apply bind_Some in H as ([rc l2] & H & [= <-]); cbn [snd]);
    [..|by injection H as <-|by eapply flags_ok_init|injection H as <-; by apply flags_ok_close].
  1, 3: unfold io_start, periodic_start, start_watcher in H; destruct (forked l); [by injection H as _ <-|]; destruct (MAX_EVENTS <=? _)%nat; [by injection H as _ <-|];
    eapply flags_ok_call in H; [done|by apply flags_ok_events|done| |].
  - intros w kn rc' w' kn' Hc. apply uring_io_start_spec in Hc. split; [by destruct Hc as [-> | ->]|]. cbn [mark_stops]. by rewrite Nat.eqb_refl.
  - intros q Hq. by apply other_mark.
  - intros w kn rc' w' kn' Hc. rewrite (uring_periodic_spec _ _ _ _ _ _ (or_introl Hc)). split; [done|]. cbn [mark_stops]. auto.
  - done.
  - unfold io_stop, stop_watcher in H. destruct (forked l); [by injection H as _ <-|]. destruct (negb _); [by injection H as _ <-|].
    apply bind_Some in H as ([rc' l1] & H & H'). assert (flags_ok l1) as H1.
    { eapply flags_ok_call in H; [done|done|done| |].
      - intros w kn rc'' w' kn' Hc. apply uring_io_stop_spec in Hc as ->. by split.
      - intros q Hq. by apply other_mark. }
    destruct (decide (rc' = RC_OK)); by injection H' as _ <-.
  - unfold periodic_stop, stop_watcher in H. destruct (forked l); [by injection H as _ <-|]. destruct (negb _); [by injection H as _ <-|].
    apply bind_Some in H as ([rc' l1] & H & H'). assert (flags_ok l1) as H1.
    { eapply flags_ok_call in H; [done|done|done| |done].
      intros w kn rc'' w' kn' Hc. rewrite (uring_periodic_spec _ _ _ _ _ _ (or_intror Hc)). split; [done|]. cbn [mark_stops]. auto. }
    destruct (decide (rc' = RC_OK)); by injection H' as _ <-.
Qed.

Lemma flags_ok_ops os l l' : flags_ok l -> run_loop_ops uring_backend os l = Some l' -> flags_ok l'.
Proof. apply (run_loop_ops_ind uring_backend flags_ok flags_ok_op). Qed.

(** The call of a watcher, which is not stopped if it is a worker; its memory may have changed before. *)
Lemma flags_ok_dispatch p ops w w1 l l' :
  flags_ok l -> memory l !! p = Some w -> (w_type w = EVENT_TYPE_WORKER -> w_stopped w = false) -> w_type w1 = w_type w -> w_stopped w1 = w_stopped w ->
  dispatch uring_backend p ops (set_memory (<[p := w1]> (memory l)) l) = Some l' -> flags_ok l'.
Proof.
  intros Hl Hm Hw Ht Hs H. eapply flags_ok_ops; [|exact H]. intros q wq. cbn [memory marks add_mark set_memory]. intros Hq Hty.
  destruct (decide (q = p)) as [->|Hne].
  - rewrite lookup_insert_eq in Hq. injection Hq as <-. rewrite Ht in Hty. destruct (Hl p w Hm Hty) as [Ha Hc].
    assert (Hns : stopped_in p (marks l) = false) by (destruct (stopped_in p (marks l)); [rewrite Hw in Ha by done; by specialize (Ha eq_refl)|done]).
    split; [rewrite stopped_in_snoc; cbn [mark_stops]; by rewrite Hns|]. by apply called_started_snoc.
  - rewrite lookup_insert_ne in Hq by done. destruct (Hl q wq Hq Hty) as [Ha Hc]. split; [rewrite stopped_in_snoc; cbn [mark_stops]; done|].
    apply called_started_snoc; [done|]. by intros [= ->].
Qed.

(** A request that is made again: a worker has to be one that is not stopped. *)
Lemma flags_ok_rearm f p w l l' :
  flags_ok l -> memory l !! p = Some w -> (w_type w = EVENT_TYPE_WORKER -> w_stopped w = false) ->
  (forall w kn rc w' kn', f p w kn = Some (rc, w', kn') -> w_type w' = w_type w) -> rearm f p l = Some l' -> flags_ok l'.
Proof.
  intros Hl Hm Hw Hf H. apply bind_Some in H as ([rc l1] & H & [= <-]). apply call_backend_spec in H as (w0 & w' & kn & Hm0 & Hc & ->).
  rewrite Hm in Hm0. injection Hm0 as <-. intros q wq. cbn [memory marks snd]. intros Hq Hty. destruct (decide (q = p)) as [->|Hne].
  - rewrite lookup_insert_eq in Hq. injection Hq as <-. rewrite (Hf _ _ _ _ _ Hc) in Hty. destruct (Hl p w Hm Hty) as [Ha Hd]. split; [|done].
    intros Hst. specialize (Ha Hst). by rewrite Hw in Ha.
  - rewrite lookup_insert_ne in Hq by done. by apply Hl.
Qed.

(** The types of the watchers stay. *)
Definition same_types (l l' : event_loop ring) : Prop := forall p, w_type <$> memory l' !! p = w_type <$> memory l !! p.

Lemma same_types_call f p l rc l' :
  (forall w kn rc w' kn', f p w kn = Some (rc, w', kn') -> w_type w' = w_type w) -> call_backend f p l = Some (rc, l') -> same_types l l'.
Proof.
  intros Hf H q. apply call_backend_spec in H as (w & w' & kn & Hm & Hc & ->). cbn [memory]. destruct (decide (q = p)) as [->|Hne].
  - rewrite lookup_insert_eq, Hm. cbn. by rewrite (Hf _ _ _ _ _ Hc).
  - by rewrite lookup_insert_ne.
Qed.

Lemma uring_types (p : nat) w kn rc w' kn' :
  uring_io_start p w kn = Some (rc, w', kn') \/ uring_io_stop p w kn = Some (rc, w', kn') \/
  uring_periodic_start p w kn = Some (rc, w', kn') \/ uring_periodic_stop p w kn = Some (rc, w', kn') -> w_type w' = w_type w.
Proof.
  intros [H|[H|H]].
  - apply uring_io_start_spec in H. by destruct H as [-> | ->].
  - by apply uring_io_stop_spec in H as ->.
  - by apply uring_periodic_spec in H as ->.
Qed.

Lemma same_types_op (o : loop_op) l l' : run_op uring_backend o l = Some l' -> same_types l l'.
Proof.
  assert (Hs : forall mk f p rc l2, (forall w kn rc w' kn', f p w kn = Some (rc, w', kn') -> w_type w' = w_type w) -> start_watcher mk f p l = Some (rc, l2) -> same_types l l2).
  { intros mk f p rc l2 Hf. unfold start_watcher. destruct (forked l); [by intros [= _ <-]|]. destruct (MAX_EVENTS <=? _)%nat; [by intros [= _ <-]|].
    intros H. by apply same_types_call in H. }
  assert (Ht : forall mk f p rc l2, (forall w kn rc w' kn', f p w kn = Some (rc, w', kn') -> w_type w' = w_type w) -> stop_watcher mk f p l = Some (rc, l2) -> same_types l l2).
  { intros mk f p rc l2 Hf. unfold stop_watcher. destruct (forked l); [by intros [= _ <-]|]. destruct (negb _); [by intros [= _ <-]|].
    intros H. apply bind_Some in H as ([rc' l3] & H & H'). apply same_types_call in H; [|done]. destruct (decide (rc' = RC_OK)); by injection H' as _ <-. }
  destruct o; cbn [run_op]; intros H; try (apply bind_Some in H as ([rc l2] & H & [= <-]); cbn [snd]; first [eapply Hs in H|eapply Ht in H]; [done|intros; eapply uring_types; eauto 10]).
  - by injection H as <-.
  - unfold worker_init in H. apply bind_Some in H as (w & Hm & H). destruct (decide (w_type w = EVENT_TYPE_WORKER)) as [Hty|]; [|done].
    assert (H1 : same_types l (set_memory (<[p := event_worker_init rcv snd w]> (memory l)) l)).
    { intros q. cbn [memory set_memory]. destruct (decide (q = p)) as [->|Hne]; [|by rewrite lookup_insert_ne].
      rewrite lookup_insert_eq, Hm. cbn. by rewrite Hty. }
    destruct (_ && _); by injection H as <-.
  - injection H as <-. unfold close_fd. by destruct (fd =? -1), (fd_in_table fd l).
Qed.

Lemma same_types_ops os l l' : run_loop_ops uring_backend os l = Some l' -> same_types l l'.
Proof.
  intros H. apply (run_loop_ops_ind uring_backend (same_types l)) with (os := os) (l := l); [|done|done]. intros o l1 l2 H1 H2 q. by rewrite (same_types_op _ _ _ H2 q).
Qed.

Lemma dispatch_type p ops w w1 l l' : memory l !! p = Some w -> w_type w1 = w_type w ->
  dispatch uring_backend p ops (set_memory (<[p := w1]> (memory l)) l) = Some l' -> exists w', memory l' !! p = Some w' /\ w_type w' = w_type w.
Proof.
  intros Hm Ht H. apply same_types_ops in H. specialize (H p). cbn [memory set_memory add_mark] in H. rewrite lookup_insert_eq in H. cbn in H.
  apply fmap_Some in H as (w' & Hw' & E). exists w'. split; [done|]. congruence.
Qed.

Lemma flags_ok_handler c l rc l' : flags_ok l -> uring_handler c l = Some (rc, l') -> flags_ok l'.
Proof.
  intros Hl H. unfold uring_handler in H. destruct (q_watcher c) as [p|]; [|by injection H as _ <-]. destruct (q_res c =? - ECANCELED); [by injection H as _ <-|].
  apply bind_Some in H as (w & Hm & H).
  assert (Hre : forall l1 l2 (b : bool) f w1, flags_ok l1 -> memory l1 !! p = Some w1 -> (w_type w1 = EVENT_TYPE_WORKER -> b = true -> w_stopped w1 = false) ->
    (f = uring_io_start \/ f = uring_periodic_start) -> (if b then rearm f p l1 else Some l1) = Some l2 -> flags_ok l2).
  { intros l1 l2 b f w1 Hf Hm1 Hst Hff Hr. destruct b; [|by injection Hr as <-]. eapply flags_ok_rearm; [exact Hf|exact Hm1|auto| |exact Hr].
    intros; eapply uring_types; destruct Hff as [-> | ->]; eauto. }
  destruct (w_type w) eqn:Ht; try (by injection H as _ <-).
  - destruct (q_res c <? 0).
    + apply bind_Some in H as (l1 & H & [= _ <-]). eapply Hre; [exact Hl|exact Hm|congruence|by left|exact H].
    + apply bind_Some in H as (l1 & H1 & H). apply bind_Some in H as (l2 & H2 & [= _ <-]).
      pose proof H1 as Hd. eapply dispatch_type in Hd as (w' & Hw' & Ht'); [|exact Hm|reflexivity].
      eapply Hre; [eapply flags_ok_dispatch; [exact Hl|exact Hm|congruence| | |exact H1]; reflexivity|exact Hw'|congruence|by left|exact H2].
  - destruct (w_stopped w) eqn:Hst; [by injection H as _ <-|]. apply bind_Some in H as (l1 & H1 & H).
    assert (Hl1 : flags_ok l1) by (eapply flags_ok_dispatch; [exact Hl|exact Hm|done| | |exact H1]; reflexivity).
    destruct (q_res c <=? 0); [by injection H as _ <-|]. apply bind_Some in H as (w' & Hw' & H). apply bind_Some in H as (l2 & H2 & [= _ <-]).
    eapply Hre; [exact Hl1|exact Hw'| |by left|exact H2]. intros _ Hb. apply andb_prop in Hb as [_ Hb]. by apply negb_true_iff in Hb.
  - apply bind_Some in H as (l1 & H1 & H). apply bind_Some in H as (w' & Hw' & H). apply bind_Some in H as (l2 & H2 & [= _ <-]).
    assert (H1' : dispatch uring_backend p (q_ops c) (set_memory (<[p := w]> (memory l)) l) = Some l1) by (rewrite insert_id by done; by destruct l).
    destruct (dispatch_type _ _ _ _ _ _ Hm eq_refl H1') as (w2 & Hw2 & Ht2). rewrite Hw' in Hw2. injection Hw2 as <-.
    eapply Hre; [eapply flags_ok_dispatch; [exact Hl|exact Hm|congruence| | |exact H1']; reflexivity|exact Hw'|congruence|by right|exact H2].
Qed.

Lemma flags_ok_batch cs rc l rc' l' : flags_ok l -> uring_batch rc cs l = Some (rc', l') -> flags_ok l'.
Proof.
  revert rc l. induction cs as [|c cs IH]; intros rc l Hl H; [by injection H as _ <-|]. cbn [uring_batch] in H.
  apply bind_Some in H as ([rc1 l1] & H1 & H). apply flags_ok_handler in H1; [|done]. destruct (decide (rc1 = RC_OK)); [by eapply IH|].
  by injection H as _ <-.
Qed.

(** What happens to a loop: an operation outside of it, or completions, whatever they are. *)
Inductive uring_step : event_loop ring -> event_loop ring -> Prop :=
| us_op o l l' : run_op uring_backend o l = Some l' -> uring_step l l'
| us_batch cs rc rc' l l' : uring_batch rc cs l = Some (rc', l') -> uring_step l l'.

(** C30: With io_uring the callback of a worker is not called between a stop of its watcher and the next start, whatever completions were already queued or
    come late, whatever the callbacks do, and even when the stop fails for want of an entry in the ring. *)
Theorem stopped_not_called l0 l (p : nat) (w : watcher) (before after : list mark)
  (Hempty : marks l0 = []) (Hrun : rtc uring_step l0 l)
  (Hworker : memory l !! p = Some w /\ w_type w = EVENT_TYPE_WORKER) (Hcalled : marks l = before ++ Dispatched p :: after) :
  stopped_in p before = false.
Proof.
  assert (H0 : flags_ok l0) by (intros q wq _ _; rewrite Hempty; split; [done|intros l1 l2 E; by destruct l1]).
  assert (Hl : flags_ok l).
  { clear -H0 Hrun. induction Hrun as [l|l l1 l2 Hs _ IH]; [done|]. apply IH. destruct Hs as [o l l' H|cs rc rc' l l' H]; [by eapply flags_ok_op|by eapply flags_ok_batch]. }
  destruct Hworker as [Hm Ht]. destruct (Hl p w Hm Ht) as [_ Hc]. by eapply Hc.
Qed.

(** ** The end of a loop *)

Section ends.
Context (E : epoll).

Lemma dispatch_running p ops (l l' : event_loop (ep E)) : dispatch (epoll_backend E) p ops l = Some l' -> running l = false -> running l' = false.
Proof.
  intros H Hr. apply (run_loop_ops_ind (epoll_backend E) (fun l => running l = false)) with (os := ops) (l := add_mark (Dispatched p) l); [|done|done].
  intros o l1 l2 H1 H2. by eapply run_op_running.
Qed.

Lemma dispatch_break p ops (l l' : event_loop (ep E)) : dispatch (epoll_backend E) p ops l = Some l' -> Op_break ∈ ops -> running l' = false.
Proof.
  unfold dispatch. generalize (add_mark (Dispatched p) l). induction ops as [|o ops IH]; intros l1 H Hin; [set_solver|]. cbn [run_loop_ops] in H.
  apply bind_Some in H as (l2 & H2 & H). apply elem_of_cons in Hin as [<- | Hin]; [|by eapply IH].
  injection H2 as <-. apply (run_loop_ops_ind (epoll_backend E) (fun l => running l = false)) with (os := ops) (l := event_loop_break l1); [|done|done].
  intros o l3 l4 H3 H4. by eapply run_op_running.
Qed.

Lemma batch_stopped es rc (l : event_loop (ep E)) rc' l' : epoll_batch E rc es l = Some (rc', l') -> running l = false -> running l' = false.
Proof.
  revert rc l. induction es as [|a es IH]; intros rc l H Hr; [by injection H as _ <-|]. cbn [epoll_batch] in H.
  apply bind_Some in H as ([rc1 l1] & H1 & H).
  assert (Hr1 : running l1 = false).
  { unfold epoll_handler in H1. apply bind_Some in H1 as (w & Hm & H1). destruct (w_type w), (a_answer a); try (injection H1 as _ <-; exact Hr);
      apply bind_Some in H1 as (l2 & H2 & [= _ <-]); eapply dispatch_running in H2; done. }
  destruct (decide (rc1 = RC_OK)); [by eapply IH|]. by injection H as _ <-.
Qed.

Lemma batch_app es1 es2 rc (l l1 : event_loop (ep E)) :
  epoll_batch E rc es1 l = Some (RC_OK, l1) -> epoll_batch E rc (es1 ++ es2) l = epoll_batch E RC_OK es2 l1.
Proof.
  revert rc l. induction es1 as [|a es1 IH]; intros rc l H; [by injection H as -> ->|]. cbn [app epoll_batch] in *.
  apply bind_Some in H as ([rc2 l2] & -> & H). cbn [mbind option_bind]. destruct (decide (rc2 = RC_OK)); [by apply IH|]. by injection H as -> _.
Qed.

(** A callback that asks for the end of the loop ends it with the batch, whose other events are handled before: nothing is waited
    for any more. *)
Lemma break_ends_loop (rc rc' : ev_rc) (es1 es2 : list announced) (a : announced) (ws : list waited) (l l1 l' : event_loop (ep E)) (w : watcher) :
  running l = true -> epoll_batch E rc es1 l = Some (RC_OK, l1) ->
  memory l1 !! a_watcher a = Some w -> w_type w = EVENT_TYPE_WORKER -> Op_break ∈ a_ops a ->
  epoll_batch E RC_OK (a :: es2) l1 = Some (rc', l') ->
  epoll_rounds E rc (W_events (es1 ++ a :: es2) :: ws) l = Done (rc', l').
Proof.
  intros Hr H1 Hm Ht Hb H. cbn [epoll_rounds]. rewrite Hr. cbn [negb]. rewrite (batch_app es1 _ _ _ _ H1), H.
  assert (Hr' : running l' = false).
  { cbn [epoll_batch] in H. apply bind_Some in H as ([rc2 l2] & H2 & H).
    unfold epoll_handler in H2. rewrite Hm in H2. cbn [mbind option_bind] in H2. rewrite Ht in H2. apply bind_Some in H2 as (l3 & H3 & [= <- <-]).
    pose proof (dispatch_break _ _ _ _ H3 Hb) as Hr3. rewrite decide_True in H by done. by eapply batch_stopped. }
  destruct ws; cbn [epoll_rounds]; by rewrite Hr'.
Qed.
End ends.

(** ** Sending, timers and signals *)

(** A result that is not negative is how much of the message went out, from its start. *)
Lemma submit_send_prefix (rs : list send_answer) (data sent : list Z) (total r : Z) :
  0 <= total -> submit_send rs data total = Done (r, sent) -> 0 <= r -> take (Z.to_nat total) data ++ sent = take (Z.to_nat r) data.
Proof.
  revert total sent. induction rs as [|[|res] rs IH]; intros total sent Ht H Hr; cbn [submit_send] in H;
    (destruct (Z.leb_spec (Z.of_nat (length data)) total); [injection H as <- <-; by rewrite app_nil_r|]); [done|injection H as <- <-; lia|].
  destruct (Z.ltb_spec res 0); [injection H as <- <-; lia|]. destruct (Z.eqb_spec res 0); [injection H as <- <-; by rewrite app_nil_r|].
  destruct (2 ^ 31 - 1 - res <? total); [injection H as <- <-; unfold EOVERFLOW in Hr; lia|].
  destruct (submit_send rs data (total + res)) as [[r' sent']| |] eqn:E; [|done..]. injection H as <- <-.
  rewrite app_assoc, <- (IH (total + res) sent') by (done || lia). f_equal.
  replace (Z.to_nat (total + res)) with (Z.to_nat total + Z.to_nat res)%nat by lia. by rewrite take_take_drop.
Qed.

(** A time in milliseconds is kept, with less than a second of nanoseconds. *)
Lemma timespec_of_ms_spec (ms : Z) : 0 <= ms -> let '(s, ns) := timespec_of_ms ms in s * 1000000000 + ns = ms * 1000000 /\ 0 <= ns < 1000000000.
Proof.
  intros H. unfold timespec_of_ms. rewrite Z.quot_div_nonneg, Z.rem_mod_nonneg by lia. pose proof (Z.div_mod ms 1000). pose proof (Z.mod_pos_bound ms 1000). lia.
Qed.

(** Destroying the loop closes the timers that are open, and every one once, however often its watcher is in the table. *)
Lemma destroy_timers_once (es : list nat) (m m' : gmap nat watcher) (fds : list Z) :
  destroy_timers es m = Some (fds, m') ->
  (forall p q w w', m !! p = Some w -> m !! q = Some w' -> w_timer w = w_timer w' -> w_timer w <> -1 -> p = q) ->
  NoDup fds /\ (forall fd, fd ∈ fds -> fd <> -1 /\ exists p w, p ∈ es /\ m !! p = Some w /\ w_type w = EVENT_TYPE_PERIODIC /\ w_timer w = fd) /\
  forall p w, p ∈ es -> m !! p = Some w -> w_type w = EVENT_TYPE_PERIODIC -> w_timer w <> -1 -> w_timer w ∈ fds.
Proof.
  revert m fds. induction es as [|p es IH]; intros m fds H Hu; cbn [destroy_timers] in H.
  { injection H as <- <-. split; [constructor|]. split; set_solver. }
  apply bind_Some in H as (w & Hm & H).
  assert (Hskip : destroy_timers es m = Some (fds, m') -> w_type w <> EVENT_TYPE_PERIODIC \/ w_timer w = -1 ->
    NoDup fds /\ (forall fd, fd ∈ fds -> fd <> -1 /\ exists p0 w0, p0 ∈ p :: es /\ m !! p0 = Some w0 /\ w_type w0 = EVENT_TYPE_PERIODIC /\ w_timer w0 = fd) /\
    forall p0 w0, p0 ∈ p :: es -> m !! p0 = Some w0 -> w_type w0 = EVENT_TYPE_PERIODIC -> w_timer w0 <> -1 -> w_timer w0 ∈ fds).
  { intros H' Hw. destruct (IH m fds H' Hu) as (Hn & Ha & Hb). split; [done|]. split.
    - intros fd Hfd. destruct (Ha fd Hfd) as (? & q & wq & ? & ?). split; [done|]. exists q, wq. split; [set_solver|done].
    - intros q wq Hin Hq Ht Hne. apply elem_of_cons in Hin as [-> | Hin]; [|by eapply Hb]. rewrite Hm in Hq. injection Hq as <-. by destruct Hw. }
  destruct (decide (w_type w = EVENT_TYPE_PERIODIC)) as [Hty|Hty]; [|by apply Hskip; [|left]].
  destruct (Z.eqb_spec (w_timer w) (-1)) as [Hm1|Hm1]; [by apply Hskip; [|right]|].
  apply bind_Some in H as ([fds1 m1] & H & [= <- <-]).
  destruct (IH _ _ H) as (Hn & Ha & Hb).
  { intros q r wq wr Hq Hr. destruct (decide (q = p)) as [->|Hqp]; [rewrite lookup_insert_eq in Hq; injection Hq as <-; cbn; lia|].
    rewrite lookup_insert_ne in Hq by done. destruct (decide (r = p)) as [->|Hrp]; [rewrite lookup_insert_eq in Hr; injection Hr as <-; cbn; lia|].
    rewrite lookup_insert_ne in Hr by done. by eapply Hu. }
  assert (Hold : forall q wq, <[p := set_timer (-1) w]> m !! q = Some wq -> w_timer wq <> -1 -> m !! q = Some wq /\ q <> p).
  { intros q wq Hq Hne. destruct (decide (q = p)) as [->|Hqp]; [rewrite lookup_insert_eq in Hq; injection Hq as <-; by cbn in Hne|].
    by rewrite lookup_insert_ne in Hq. }
  split; [|split].
  - constructor; [|done]. intros Hin. destruct (Ha _ Hin) as (_ & q & wq & _ & Hq & _ & Eq). destruct (Hold q wq Hq) as [Hq' Hne]; [by rewrite Eq|].
    apply Hne. symmetry. by eapply Hu.
  - intros fd Hfd. apply elem_of_cons in Hfd as [-> | Hfd]; [split; [done|]; exists p, w; split; [set_solver|done]|].
    destruct (Ha fd Hfd) as (Hne & q & wq & Hin & Hq & Ht & <-). split; [done|]. destruct (Hold q wq Hq Hne) as [Hq' _]. exists q, wq. split; [set_solver|done].
  - intros q wq Hin Hq Ht Hne. destruct (decide (q = p)) as [->|Hqp]; [rewrite Hm in Hq; injection Hq as <-; set_solver|].
    apply elem_of_cons in Hin as [-> | Hin]; [done|]. apply list_elem_of_further. eapply Hb; [done| |done|done]. by rewrite lookup_insert_ne.
Qed.

(** A signal that was started is handled by its callback until it is stopped, whatever the system calls answer; no other signal is touched. *)
Lemma signal_start_handled (nsig signum other : Z) (cb : nat) (action added : bool) (s : signals) :
  0 < signum < nsig -> let s' := (signal_start nsig false signum cb action added s).2 in
  signal_handler nsig signum s' = Some cb /\ (other <> signum -> signal_handler nsig other s' = signal_handler nsig other s).
Proof.
  intros H. unfold signal_start. rewrite (proj2 (Z.leb_gt signum 0)), (proj2 (Z.leb_gt nsig signum)) by lia. cbn [orb].
  destruct action, added; cbn [negb snd]; unfold signal_handler; cbn [sg_callbacks];
    (split; [by rewrite (proj2 (Z.ltb_ge signum 0)), (proj2 (Z.leb_gt nsig signum)), lookup_insert_eq by lia|intros Hne; by rewrite lookup_insert_ne]).
Qed.

Lemma signal_stop_unhandled (nsig signum : Z) (unblocked : bool) (s : signals) :
  0 < signum < nsig -> signal_handler nsig signum (signal_stop nsig false signum true unblocked s).2 = None.
Proof.
  intros H. unfold signal_stop. rewrite (proj2 (Z.ltb_lt 0 signum)), (proj2 (Z.ltb_lt signum nsig)) by lia. cbn [negb andb snd].
  unfold signal_handler. cbn [sg_callbacks]. rewrite (proj2 (Z.ltb_ge signum 0)), (proj2 (Z.leb_gt nsig signum)) by lia. by rewrite lookup_delete_eq.
Qed.

(** ** Examples *)

(** A kernel that does what it is asked to. *)
Definition simple_epoll : epoll :=
  Epoll (gmap Z nat)
    (fun fd p k => match k !! fd with Some _ => (Some EEXIST, k) | None => (None, <[fd := p]> k) end)
    (fun fd p k => match k !! fd with Some _ => (None, <[fd := p]> k) | None => (Some ENOENT, k) end)
    (fun fd k => match k !! fd with Some _ => (None, delete fd k) | None => (Some ENOENT, k) end)
    (fun fd k => delete fd k) id (fun _ => ∅).

#[global] Instance simple_epoll_laws : EpollLaws simple_epoll.
Proof. split; cbn; intros *; try (destruct (_ !! _) eqn:Hk; intros; by simplify_eq); done. Qed.

(** One whose files are shared: a descriptor that is closed is announced for ever. *)
Definition shared_epoll : epoll :=
  Epoll (gmap Z nat * gset (Z * nat))
    (fun fd p k => match k.1 !! fd with Some _ => (Some EEXIST, k) | None => (None, (<[fd := p]> k.1, k.2)) end)
    (fun fd p k => match k.1 !! fd with Some _ => (None, (<[fd := p]> k.1, k.2)) | None => (Some ENOENT, k) end)
    (fun fd k => match k.1 !! fd with Some _ => (None, (delete fd k.1, k.2)) | None => (Some ENOENT, k) end)
    (fun fd k => (delete fd k.1, match k.1 !! fd with Some p => {[(fd, p)]} ∪ k.2 | None => k.2 end)) fst snd.

#[global] Instance shared_epoll_laws : EpollLaws shared_epoll.
Proof.
  split; cbn; intros *; try (destruct (_ !! _) eqn:Hk; intros; by simplify_eq); try done.
  destruct (_ !! _) eqn:Hk; [|by left]. destruct q as [fd' p]. cbn. intros [[= -> ->]%elem_of_singleton|Hq]%elem_of_union; [by right|by left].
Qed.

Definition worker_at (rcv snd : Z) : watcher := event_worker_init rcv snd (Watcher EVENT_TYPE_INVALID (-1, -1) false 0 (-1) 0).

(** A client and a server, as a worker has them. *)
Definition two_workers {K : Type} (k : K) : event_loop K := Loop true false [] {[1%nat := worker_at 7 8; 2%nat := worker_at 8 7]} k [].

Definition both_started : list loop_op := [Op_io_start 1; Op_io_start 2].

(** With epoll a watcher that an earlier callback of the same batch has stopped is still called. *)
Lemma stopped_in_batch_called :
  exists l rc l', run_loop_ops (epoll_backend simple_epoll) both_started (two_workers (∅ : gmap Z nat)) = Some l /\
    (forall p, p ∈ [1%nat; 2%nat] -> exists fd, watched simple_epoll (kernel l) !! fd = Some p) /\
    epoll_batch simple_epoll RC_OK [Announced 1 A_again [Op_io_stop 2]; Announced 2 A_again []] l = Some (rc, l') /\
    marks l' = [Started 1; Started 2; Dispatched 1; Stopped 2; Dispatched 2].
Proof.
  eexists _, _, _. split; [vm_compute; reflexivity|]. split; [|split; [vm_compute; reflexivity|done]].
  intros p [-> | [-> | Hp%elem_of_nil]%elem_of_cons]%elem_of_cons; [exists 7|exists 8|done]; done.
Qed.

(** A descriptor that is closed before its watcher is stopped is announced although the watcher has left the table. *)
Lemma closed_still_announced :
  exists l, run_loop_ops (epoll_backend shared_epoll) [Op_io_start 1; Op_close 7; Op_io_stop 1] (two_workers (∅, ∅)) = Some l /\
    events l = [] /\ announceable shared_epoll l 7 1.
Proof. eexists. split; [vm_compute; reflexivity|]. split; [done|]. right. cbn. set_solver. Qed.

(** A watcher that could not be started stays in the table. *)
Lemma failed_start_registered :
  exists l', io_start uring_backend 1 (two_workers (Ring [false] [])) = Some (RC_ERROR, l') /\ events l' = [1%nat] /\ r_requests (kernel l') = [].
Proof. eexists. split; [vm_compute; reflexivity|done]. Qed.

Lemma announced_registered_witness :
  exists l : event_loop (ep simple_epoll), rtc (epoll_step simple_epoll) (two_workers (∅ : gmap Z nat)) l /\ 2%nat ∈ events l.
Proof.
  destruct (run_loop_ops (epoll_backend simple_epoll) both_started (two_workers (∅ : gmap Z nat))) as [l|] eqn:El; [|vm_compute in El; discriminate].
  assert (Hr : rtc (epoll_step simple_epoll) (two_workers (∅ : gmap Z nat)) l).
  { cbn [run_loop_ops both_started] in El. apply bind_Some in El as (l1 & H1 & El). apply bind_Some in El as (l2 & H2 & [= <-]).
    eapply rtc_l; [eapply es_op; exact H1|]. eapply rtc_l; [eapply es_op; exact H2|]. apply rtc_refl. }
  exists l. split; [exact Hr|].
  assert (Hann : announceable simple_epoll l 8 2) by (vm_compute in El; injection El as <-; left; reflexivity).
  assert (Hmarks : marks l = [Started 1; Started 2]) by (vm_compute in El; injection El as <-; reflexivity).
  pose proof (announced_registered simple_epoll (two_workers (∅ : gmap Z nat)) l 8 2 ltac:(done) Hr Hann) as (_ & H).
  rewrite Hmarks in H. destruct H as [H|[H|[H _]]]; [set_solver|set_solver|exact H].
Defined.

Lemma stopped_not_called_witness :
  exists l : event_loop ring, rtc uring_step (two_workers (Ring [] [])) l /\
    marks l = [Started 1; Started 2; Dispatched 1; Stopped 2] /\ stopped_in 1 [Started 1; Started 2] = false.
Proof.
  destruct (run_loop_ops uring_backend both_started (two_workers (Ring [] []))) as [l|] eqn:El; [|vm_compute in El; discriminate].
  assert (Hr : rtc uring_step (two_workers (Ring [] [])) l).
  { cbn [run_loop_ops both_started] in El. apply bind_Some in El as (l1 & H1 & El). apply bind_Some in El as (l2 & H2 & [= <-]).
    eapply rtc_l; [eapply us_op; exact H1|]. eapply rtc_l; [eapply us_op; exact H2|]. apply rtc_refl. }
  destruct (uring_batch RC_OK [Cqe (Some 1%nat) 5 false [Op_io_stop 2]; Cqe (Some 2%nat) 5 false []] l) as [[rc l']|] eqn:Eb;
    [|vm_compute in El; injection El as <-; vm_compute in Eb; discriminate].
  assert (Hr' : rtc uring_step (two_workers (Ring [] [])) l') by (eapply rtc_r; [exact Hr|eapply us_batch; exact Eb]).
  assert (Em : marks l' = [Started 1; Started 2] ++ Dispatched 1 :: [Stopped 2])
    by (vm_compute in El; injection El as <-; vm_compute in Eb; injection Eb as _ <-; reflexivity).
  exists l'. split; [exact Hr'|]. split; [exact Em|].
  eapply (stopped_not_called (two_workers (Ring [] [])) l' 1); [done|exact Hr'| |exact Em].
  vm_compute in El. injection El as <-. vm_compute in Eb. injection Eb as _ <-. split; reflexivity.
Defined.
