(* ===== verification/Transfer.v ===== *)
(** * The transfer socket

    src/libpgagroal/connection.c with the messages between the processes, and from src/main.c the
    handler [accept_transfer_cb]: the main process keeps one descriptor for each
    connection in the pool, so that the processes that it forks inherit it, and counts the
    descriptors that it received in generations.  The static functions that read and write
    complete buffers are those of [Management]. *)

From stdpp Require Import gmap.
From S2P Require Import Prelude Utf8 Wire Frames Message Config Effects Management MainProcess.

Local Open Scope Z_scope.

(** ** Messages *)

(** The numbers of the messages. *)
Definition transfer_code (id : transfer_id) : Z :=
  match id with
  | CONNECTION_TRANSFER => 0
  | CONNECTION_RETURN => 1
  | CONNECTION_KILL => 2
  | CONNECTION_CLIENT_FD => 3
  | CONNECTION_REMOVE_FD => 4
  | CONNECTION_CLIENT_DONE => 5
  | CONNECTION_GET_FD => 6
  end.

(** What [recvmsg] answers: an error, the end of the stream, data with a descriptor, which
    gets a number here, and data without one. *)
Inductive recv := RecvFail | RecvEof | RecvFd (fd : Z) | RecvPlain.

(** What the main process reads from its socket. *)
Inductive request :=
| QTransfer (slot fd : Z)
| QReturn (slot : Z)
| QKill (slot generation : Z)
| QGetFd (slot : Z)
| QClientDone (pid : Z)
| QOther (id : Z).

Section messages.
Context (bigendian : bool).

(** [pgagroal_connection_id_write], [_slot_write] and [_pid_write]: four bytes each. *)
Definition int32_write (w : writer) (i : Z) : result (bool * list Z * writer) :=
  match write_int32 bigendian [0; 0; 0; 0] 0 i with Some buf => write_complete w buf | None => Undefined end.

Definition id_write (w : writer) (id : transfer_id) : result (bool * list Z * writer) := int32_write w (transfer_code id).
Definition slot_write (w : writer) (slot : Z) : result (bool * list Z * writer) := int32_write w slot.
Definition pid_write (w : writer) (pid : Z) : result (bool * list Z * writer) := int32_write w pid.

(** [pgagroal_connection_generation_write]: two halves. *)
Definition generation_write (w : writer) (generation : Z) : result (bool * list Z * writer) :=
  match
    (buf ← write_int32 bigendian (replicate 8 0) 0 (i32 (Z.shiftr (u64 generation) 32));
     write_int32 bigendian buf 4 (i32 (Z.land (u64 generation) 0xFFFFFFFF)))
  with
  | Some buf => write_complete w buf
  | None => Undefined
  end.

(** [pgagroal_connection_id_read], [_slot_read] and [_pid_read]. *)
Definition int32_read (rs : list rres) : result (option Z * list rres) :=
  match read_complete rs 4 0 [] with
  | Done (Some buf, rs) => match read_int32 bigendian buf 0 with Some i => Done (Some i, rs) | None => Undefined end
  | Done (None, rs) => Done (None, rs)
  | Undefined => Undefined
  | Running => Running
  end.

(** [pgagroal_connection_generation_read]. *)
Definition generation_read (rs : list rres) : result (option Z * list rres) :=
  match read_complete rs 8 0 [] with
  | Done (Some buf, rs) =>
      match read_int32 bigendian buf 0, read_int32 bigendian buf 4 with
      | Some a, Some b => Done (Some (i64 (Z.lor (u64 (Z.shiftl (u32 a) 32)) (u32 b))), rs)
      | _, _ => Undefined
      end
  | Done (None, rs) => Done (None, rs)
  | Undefined => Undefined
  | Running => Running
  end.

(** [pgagroal_connection_transfer_read]: slot and descriptor.  Data without a descriptor leaves the
    zeroed buffer of the control message: descriptor 0. *)
Definition transfer_read (rs : list rres) (r : recv) : result (option (Z * Z) * list rres) :=
  match int32_read rs with
  | Done (Some slot, rs) =>
      Done (match r with
            | RecvFail | RecvEof => None
            | RecvFd fd => Some (slot, fd)
            | RecvPlain => Some (slot, 0)
            end, rs)
  | Done (None, rs) => Done (None, rs)
  | Undefined => Undefined
  | Running => Running
  end.

(** The reads of [accept_transfer_cb]: [None] is an error. *)
Definition read_request (rs : list rres) (r : recv) : result (option request * list rres) :=
  match int32_read rs with
  | Done (Some id, rs) =>
      if id =? transfer_code CONNECTION_TRANSFER then
        match transfer_read rs r with
        | Done (q, rs) => Done ((fun '(slot, fd) => QTransfer slot fd) <$> q, rs)
        | Undefined => Undefined
        | Running => Running
        end
      else if id =? transfer_code CONNECTION_KILL then
        match int32_read rs with
        | Done (Some slot, rs) =>
            match generation_read rs with
            | Done (g, rs) => Done (QKill slot <$> g, rs)
            | Undefined => Undefined
            | Running => Running
            end
        | Done (None, rs) => Done (None, rs)
        | Undefined => Undefined
        | Running => Running
        end
      else
        let with_int mk :=
          match int32_read rs with
          | Done (i, rs) => Done (mk <$> i, rs)
          | Undefined => Undefined
          | Running => Running
          end in
        if id =? transfer_code CONNECTION_RETURN then with_int QReturn
        else if id =? transfer_code CONNECTION_GET_FD then with_int QGetFd
        else if id =? transfer_code CONNECTION_CLIENT_DONE then with_int QClientDone
        else Done (Some (QOther id), rs)
  | Done (None, rs) => Done (None, rs)
  | Undefined => Undefined
  | Running => Running
  end.
End messages.

(** ** Descriptors *)

(** The descriptors of a process: the open files, by number. *)
Notation table := (gmap Z Z).

(** [pgagroal_disconnect], and [dup2] when the system has room for it. *)
Definition disconnect (fd : Z) (t : table) : table := if fd =? -1 then t else delete fd t.

Definition dup2 (ok : bool) (oldfd newfd : Z) (t : table) : option table :=
  f ← t !! oldfd; if ok then Some (<[newfd := f]> t) else None.

(** [pgagroal_fd_base]: the numbers for the pool end at the limit for descriptors, or 1024 above
    [max_connections]. *)
Definition fd_base_of (rlim_cur max_connections : Z) : Z :=
  let top := if max_connections + 1024 <? rlim_cur then max_connections + 1024 else rlim_cur in
  i32 (top - max_connections).

(** The fields [fd] and [generation] of a connection in shared memory. *)
Record descriptor_slot := Slot { sl_fd : Z; sl_generation : Z }.

(** The main process: its descriptors, [pgagroal_known_fds], [known_generations],
    [pgagroal_fd_generation] and [clients]. *)
Record main_fds := MainFds {
  mf_table : table;
  mf_known : list Z;
  mf_known_generations : list Z;
  mf_generation : Z;
  mf_clients : list Z }.

Definition set_table (t : table) (m : main_fds) : main_fds :=
  MainFds t (mf_known m) (mf_known_generations m) (mf_generation m) (mf_clients m).

(** What the calls for a client answer: [pgagroal_connection_get_pid], the two writes, and
    [sendmsg]; and those of the handler: [dup2], and the reply to [CONNECTION_GET_FD]. *)
Record client_answers := ClientAnswers { ca_connect : bool; ca_id : bool; ca_slot : bool; ca_sendmsg : bool }.

Record transfer_answers := TransferAnswers {
  ta_dup2 : bool;
  ta_clients : Z -> client_answers;
  ta_generation : bool;
  ta_reply : client_answers }.

(** What a client gets. *)
Inductive sent := SentId (pid : Z) (id : transfer_id) | SentSlot (pid slot : Z) | SentFile (pid file : Z).

(** What a message does: the main process, the slots, what the clients got, the clients whose
    connection stays open, and the reply: a generation and a file. *)
Record outcome := Outcome {
  o_main : main_fds;
  o_slots : list descriptor_slot;
  o_sent : list sent;
  o_leaked : list Z;
  o_reply : option (Z * option Z) }.

(** [sendmsg] of [connections[slot].fd] needs an open descriptor. *)
Definition send_file (ok : bool) (t : table) (slots : list descriptor_slot) (slot : nat) : option Z :=
  c ← slots !! slot; f ← t !! sl_fd c; if ok then Some f else None.

(** One client is told about a slot: what it gets, whether its connection stays open, and
    success. *)
Definition tell (id : transfer_id) (slot : nat) (t : table) (slots : list descriptor_slot) (pid : Z) (a : client_answers)
  : list sent * bool * bool :=
  if negb (ca_connect a) then ([], false, false)
  else if negb (ca_id a) then ([], true, false)
  else if negb (ca_slot a) then ([SentId pid id], true, false)
  else
    let l := [SentId pid id; SentSlot pid (Z.of_nat slot)] in
    match send_file (ca_sendmsg a) t slots slot with
    | Some f => (l ++ [SentFile pid f], false, true)
    | None => (l, true, false)
    end.

(** The loop over [clients]: the first one that cannot be told ends it. *)
Fixpoint tell_clients (id : transfer_id) (slot : nat) (t : table) (slots : list descriptor_slot)
  (answers : Z -> client_answers) (clients : list Z) : list sent * list Z :=
  match clients with
  | [] => ([], [])
  | pid :: clients =>
      let '(l, leaked, ok) := tell id slot t slots pid (answers pid) in
      if ok then let '(l', leaks) := tell_clients id slot t slots answers clients in (l ++ l', leaks)
      else (l, if leaked then [pid] else [])
  end.

Section handler.
Context (fd_base : Z) (max_connections : nat) (transaction : bool).

Definition valid_slot (slot : Z) : bool := negb ((slot <? 0) || (Z.of_nat max_connections <=? slot)).

(** The clients are told when the pipeline is the one for transactions. *)
Definition notify (id : transfer_id) (slot : nat) (an : transfer_answers) (m : main_fds) (slots : list descriptor_slot) : outcome :=
  let '(l, leaks) := if transaction then tell_clients id slot (mf_table m) slots (ta_clients an) (mf_clients m) else ([], []) in
  Outcome m slots l leaks None.

(** The descriptor of a slot after [CONNECTION_TRANSFER] came with descriptor [fd]: an older copy under
    another number is closed, and the new one gets the number of its slot. *)
Definition place (an : transfer_answers) (slot : nat) (fd : Z) (m : main_fds) : table * option Z :=
  let known := mf_known m !!! slot in
  let own := fd_base + Z.of_nat slot in
  let t := if (0 <? known) && negb (known =? own) then disconnect known (mf_table m) else mf_table m in
  if (0 <? fd_base) && negb (fd =? own) then
    match dup2 (ta_dup2 an) fd own t with
    | Some t => (disconnect fd t, Some own)
    | None => (disconnect fd t, None)
    end
  else (t, Some fd).

(** [CONNECTION_TRANSFER]. *)
Definition receive_transfer (an : transfer_answers) (slot fd : Z) (m : main_fds) (slots : list descriptor_slot) : outcome :=
  if negb (valid_slot slot) then Outcome (set_table (disconnect fd (mf_table m)) m) slots [] [] None
  else
    let i := Z.to_nat slot in
    match place an i fd m with
    | (t, None) => Outcome (set_table t m) slots [] [] None
    | (t, Some fd) =>
        let g := mf_generation m + 1 in
        notify CONNECTION_CLIENT_FD i an
          (MainFds t (<[i := fd]> (mf_known m)) (<[i := g]> (mf_known_generations m)) g (mf_clients m))
          (<[i := Slot fd g]> slots)
    end.

(** [CONNECTION_KILL]: the descriptor is closed if it is the one that was killed. *)
Definition receive_kill (an : transfer_answers) (slot generation : Z) (m : main_fds) (slots : list descriptor_slot) : outcome :=
  if negb (valid_slot slot) then Outcome m slots [] [] None
  else
    let i := Z.to_nat slot in
    if (0 <? generation) && (mf_known_generations m !!! i =? generation) then
      let fd := mf_known m !!! i in
      let m := MainFds (disconnect fd (mf_table m)) (<[i := 0]> (mf_known m)) (<[i := 0]> (mf_known_generations m))
                 (mf_generation m) (mf_clients m) in
      if negb (fd =? -1) then notify CONNECTION_REMOVE_FD i an m slots else Outcome m slots [] [] None
    else Outcome m slots [] [] None.

(** [CONNECTION_GET_FD]. *)
Definition receive_get_fd (an : transfer_answers) (slot : Z) (m : main_fds) (slots : list descriptor_slot) : outcome :=
  if negb (valid_slot slot) then Outcome m slots [] [] None
  else
    let i := Z.to_nat slot in
    let held := match slots !! i with Some c => sl_fd c =? mf_known m !!! i | None => false end in
    let g := if held then mf_known_generations m !!! i else 0 in
    Outcome m slots [] []
      (if ta_generation an
       then Some (g, if (0 <? g) && ca_slot (ta_reply an) then send_file (ca_sendmsg (ta_reply an)) (mf_table m) slots i else None)
       else None).

(** [accept_transfer_cb] behind its reads. *)
Definition accept_transfer_cb (an : transfer_answers) (q : option request) (m : main_fds) (slots : list descriptor_slot) : outcome :=
  match q with
  | Some (QTransfer slot fd) => receive_transfer an slot fd m slots
  | Some (QKill slot generation) => receive_kill an slot generation m slots
  | Some (QGetFd slot) => receive_get_fd an slot m slots
  | Some (QClientDone pid) =>
      Outcome (MainFds (mf_table m) (mf_known m) (mf_known_generations m) (mf_generation m) (unlink_client pid (mf_clients m)))
        slots [] [] None
  | Some (QReturn _) | Some (QOther _) | None => Outcome m slots [] [] None
  end.
End handler.
