(* ===== verification/TransferFacts.v ===== *)
(** * Facts about the transfer socket

    Messages are read as they were written; a message to close a descriptor that comes late
    closes nothing else; a process that finds a generation up to its own has the
    descriptor; and the main process keeps no descriptor for a connection that is gone.  The slots to
    which a process writes without holding them, and those for which a descriptor arrives
    after its connection was killed, are excepted, and marked in the state. *)

From stdpp Require Import gmap.
From S2P Require Import Prelude Utf8 Wire Frames Message Config Effects Management ManagementFacts MainProcess Transfer.

Local Open Scope Z_scope.

(** ** Messages *)

(** The bytes of a number on the wire. *)
Definition word (i : Z) : list Z := rev (le_bytes 4 i).

Lemma length_word (i : Z) : length (word i) = 4%nat.
Proof. unfold word. by rewrite length_rev, length_le_bytes. Qed.

Lemma word_not_nil (i : Z) (d : list Z) : word i ++ d <> [].
Proof. intros E%(f_equal length). rewrite length_app, length_word in E. simpl in E. lia. Qed.

Lemma write_int32_word (big : bool) (i : Z) : write_int32 big [0; 0; 0; 0] 0 i = Some (word i).
Proof. apply write_uint32_bytes. Qed.

Lemma read_int32_word (big : bool) (i : Z) (pre post : list Z) :
  in_i 32 i -> read_int32 big (pre ++ word i ++ post) (len pre) = Some i.
Proof.
  intros Hi. unfold read_int32, region, len. rewrite !length_app, length_word.
  rewrite (proj2 (Z.leb_le 0 _)), (proj2 (Z.leb_le (_ + 4) _)) by lia. cbn [andb Z.leb Z.compare]. rewrite Nat2Z.id, drop_app_length.
  change (Z.to_nat 4) with 4%nat. rewrite take_app_le by (rewrite length_word; lia). rewrite take_ge by (rewrite length_word; lia).
  cbn [mbind option_bind]. unfold word. rewrite network_read_write. change (_ mod _) with (u32 i).
  by rewrite wraps_wrapu, wraps_id.
Qed.

Lemma wrapu_wraps (w x : Z) : 0 < w -> wrapu w (wraps w x) = wrapu w x.
Proof.
  intros Hw. unfold wraps, wrapu. assert (2 ^ (w - 1) > 0) by (apply Z.lt_gt, Z.pow_pos_nonneg; lia).
  rewrite Zminus_mod_idemp_l. f_equal. lia.
Qed.

(** The two halves of a generation. *)
Definition high (g : Z) : Z := i32 (Z.shiftr (u64 g) 32).
Definition low (g : Z) : Z := i32 (Z.land (u64 g) 0xFFFFFFFF).

Lemma halves (g : Z) :
  in_i 64 g -> in_i 32 (high g) /\ in_i 32 (low g) /\ i64 (Z.lor (u64 (Z.shiftl (u32 (high g)) 32)) (u32 (low g))) = g.
Proof.
  intros Hg. pose proof (wrapu_range 64 g ltac:(lia)) as Hu. unfold in_u in Hu.
  unfold high, low. split_and!; [by apply wraps_range; lia..|].
  change 0xFFFFFFFF with (Z.ones 32). rewrite Z.land_ones, Z.shiftr_div_pow2 by lia.
  assert (H : forall x, u32 (i32 x) = u32 x) by (intros x; apply wrapu_wraps; lia). rewrite !H.
  assert (0 <= u64 g / 2 ^ 32 < 2 ^ 32) by (split; [apply Z.div_pos; lia|apply Z.div_lt_upper_bound; lia]).
  pose proof (Z.mod_pos_bound (u64 g) (2 ^ 32) ltac:(lia)).
  rewrite (wrapu_id 32 (u64 g / 2 ^ 32)), (wrapu_id 32 (_ mod _)) by (done || lia).
  rewrite wrapu_id by (done || (unfold in_u; rewrite Z.shiftl_mul_pow2 by lia; lia)).
  rewrite lor_shiftl by lia. rewrite <- Z.div_mod by lia. by rewrite wraps_wrapu, wraps_id.
Qed.

(** The messages that a process sends to the main process; a descriptor goes with [MTransfer]. *)
Inductive message_out := MTransfer (slot : Z) | MReturn (slot : Z) | MKill (slot generation : Z) | MGetFd (slot : Z) | MClientDone (pid : Z).

(** The calls that send one. *)
Definition send (big : bool) (w : writer) (m : message_out) : result (bool * list Z * writer) :=
  let start id k := then_write (id_write big w id) k in
  match m with
  | MTransfer slot => start CONNECTION_TRANSFER (fun w => slot_write big w slot)
  | MReturn slot => start CONNECTION_RETURN (fun w => slot_write big w slot)
  | MKill slot g => start CONNECTION_KILL (fun w => then_write (slot_write big w slot) (fun w => generation_write big w g))
  | MGetFd slot => start CONNECTION_GET_FD (fun w => slot_write big w slot)
  | MClientDone pid => start CONNECTION_CLIENT_DONE (fun w => pid_write big w pid)
  end.

(** Numbers within their width. *)
Definition message_fits (m : message_out) : Prop :=
  match m with
  | MTransfer i | MReturn i | MGetFd i | MClientDone i => in_i 32 i
  | MKill i g => in_i 32 i /\ in_i 64 g
  end.

(** What the main process is to read, with descriptor [fd]. *)
Definition request_of (fd : Z) (m : message_out) : request :=
  match m with
  | MTransfer slot => QTransfer slot fd
  | MReturn slot => QReturn slot
  | MKill slot g => QKill slot g
  | MGetFd slot => QGetFd slot
  | MClientDone pid => QClientDone pid
  end.

Lemma int32_write_sent (big : bool) (w w' : writer) (i : Z) (sent : list Z) :
  int32_write big w i = Done (true, sent, w') -> sent = word i.
Proof. unfold int32_write. rewrite write_int32_word. apply write_complete_sent. Qed.

Lemma generation_write_sent (big : bool) (w w' : writer) (g : Z) (sent : list Z) :
  generation_write big w g = Done (true, sent, w') -> sent = word (high g) ++ word (low g).
Proof.
  unfold generation_write. fold (high g) (low g).
  assert (Hw : forall a b i, length a = 4%nat -> length b = 4%nat ->
    write_int32 big (a ++ b) 0 i = Some (word i ++ b) /\ write_int32 big (a ++ b) 4 i = Some (a ++ word i)).
  { intros a b i Ha Hb. unfold write_int32, Wire.store. rewrite host_network_bytes. fold (word i).
    rewrite length_app, length_word, Ha, Hb. split.
    - change ((0 <=? 0) && _) with true. cbn match. rewrite take_0, app_nil_l.
      change (Z.to_nat 0 + 4)%nat with 4%nat. by rewrite (drop_app_length' a b 4) by done.
    - change ((0 <=? 4) && _) with true. cbn match. change (Z.to_nat 4) with 4%nat.
      by rewrite (take_app_length' a b 4), drop_ge, app_nil_r by (rewrite ?length_app; lia). }
  change (replicate 8 0) with ([0; 0; 0; 0] ++ [0; 0; 0; 0]). rewrite (proj1 (Hw [0; 0; 0; 0] [0; 0; 0; 0] _ eq_refl eq_refl)). cbn [mbind option_bind].
  rewrite (proj2 (Hw (word (high g)) [0; 0; 0; 0] _ (length_word _) eq_refl)). apply write_complete_sent.
Qed.

Lemma then_write_sent (r : result (bool * list Z * writer)) (k : writer -> result (bool * list Z * writer)) (sent : list Z) (w : writer) :
  then_write r k = Done (true, sent, w) ->
  exists s1 s2 w1, r = Done (true, s1, w1) /\ k w1 = Done (true, s2, w) /\ sent = s1 ++ s2.
Proof.
  unfold then_write. destruct r as [[[[] s1] w1]| |]; try done.
  destruct (k w1) as [[[ok s2] w2]| |] eqn:E; try done. intros [= -> <- <-]. eauto 10.
Qed.

Lemma int32_read_arrives (big : bool) (rs : list rres) (i : Z) (d : list Z) (n : nat) :
  arrives rs (word i ++ d) n -> (n <= 101)%nat -> in_i 32 i ->
  exists rs' n', int32_read big rs = Done (Some i, rs') /\ arrives rs' d n' /\ (n' <= 101)%nat.
Proof.
  intros H Hn Hi.
  assert (Hw : word i <> []) by (intros E; pose proof (word_not_nil i []) as Hc; rewrite E in Hc; done).
  destruct (read_complete_arrives rs (word i) d n 0 [] H Hw ltac:(lia)) as (rs' & n' & E & Hr & Hle).
  exists rs', n'. unfold int32_read. replace (len (word i)) with 4 in E by (unfold len; by rewrite length_word).
  rewrite E. cbn match. rewrite app_nil_l. pose proof (read_int32_word big i [] [] Hi) as Hx. rewrite app_nil_r in Hx. simpl in Hx.
  change (len []) with 0 in Hx. rewrite Hx. split_and!; [done|done|lia].
Qed.

Lemma generation_read_arrives (big : bool) (rs : list rres) (g : Z) (d : list Z) (n : nat) :
  arrives rs ((word (high g) ++ word (low g)) ++ d) n -> (n <= 101)%nat -> in_i 64 g ->
  exists rs' n', generation_read big rs = Done (Some g, rs') /\ arrives rs' d n' /\ (n' <= 101)%nat.
Proof.
  intros H Hn Hg. destruct (halves g Hg) as (Hh & Hl & E64).
  destruct (read_complete_arrives rs _ d n 0 [] H (word_not_nil _ _) ltac:(lia)) as (rs' & n' & E & Hr & Hle).
  exists rs', n'. unfold generation_read.
  replace (len (word (high g) ++ word (low g))) with 8 in E by (unfold len; by rewrite length_app, !length_word).
  rewrite E. cbn match. rewrite app_nil_l.
  pose proof (read_int32_word big (high g) [] (word (low g)) Hh) as H1. change (len []) with 0 in H1. rewrite app_nil_l in H1. rewrite H1.
  pose proof (read_int32_word big (low g) (word (high g)) [] Hl) as H2. rewrite app_nil_r in H2. unfold len in H2. rewrite length_word in H2.
  change (Z.of_nat 4) with 4 in H2. rewrite H2, E64. split_and!; [done|done|lia].
Qed.

(** What a process sends to the main process in one message, on any host, is read there as
    that message, in at most 101 pieces and with any interruptions: the slot, all 64 bits of a
    generation, and the number under which a descriptor arrived. *)
Theorem transfer_messages_read (big big' : bool) (w w' : writer) (m : message_out) (sent : list Z) (rs : list rres) (n : nat) (fd : Z)
  (Hfit : message_fits m) (Hsend : send big w m = Done (true, sent, w')) (Hrs : arrives rs sent n) (Hn : (n <= 101)%nat) :
  exists rs', read_request big' rs (RecvFd fd) = Done (Some (request_of fd m), rs') /\ arrives rs' [] 0.
Proof.
  assert (Hnil : forall rs n, arrives rs [] n -> arrives rs [] 0).
  { intros rs0 n0 H. remember [] as d eqn:Ed. revert Ed. induction H; [constructor|constructor; auto|done]. }
  assert (Hid : forall id, in_i 32 (transfer_code id)) by (intros []; unfold in_i; simpl; lia).
  destruct m; simpl in Hsend; apply then_write_sent in Hsend as (s1 & s2 & w1 & E1 & E2 & ->); apply int32_write_sent in E1 as ->;
    destruct (int32_read_arrives big' _ _ _ _ Hrs Hn (Hid _)) as (rs1 & n1 & R1 & A1 & L1);
    unfold read_request; rewrite R1; cbn [transfer_code Z.eqb Pos.eqb request_of message_fits] in *.
  3: { destruct Hfit as [Hs Hg]. apply then_write_sent in E2 as (s3 & s4 & w2 & E2 & E3 & ->).
       apply int32_write_sent in E2 as ->. apply generation_write_sent in E3 as ->.
       destruct (int32_read_arrives big' _ _ _ _ A1 L1 Hs) as (rs2 & n2 & R2 & A2 & L2). rewrite R2.
       rewrite <- (app_nil_r (word _ ++ word _)) in A2.
       destruct (generation_read_arrives big' _ _ _ _ A2 L2 Hg) as (rs3 & n3 & R3 & A3 & L3). rewrite R3. eauto. }
  all: apply int32_write_sent in E2 as ->; rewrite <- (app_nil_r (word _)) in A1;
    destruct (int32_read_arrives big' _ _ _ _ A1 L1 Hfit) as (rs2 & n2 & R2 & A2 & L2); unfold transfer_read; rewrite R2; eauto.
Qed.

(** ** The handler *)

Section system.
Context (base : Z) (max : nat) (tx : bool).

(** The number of a slot's descriptor, and the numbers that are kept for slots. *)
Definition own (i : nat) : Z := base + Z.of_nat i.
Definition reserved (n : Z) : Prop := base <= n < base + Z.of_nat max.

Lemma notify_main (id : transfer_id) (i : nat) (an : transfer_answers) (m : main_fds) (slots : list descriptor_slot) :
  o_main (notify tx id i an m slots) = m /\ o_slots (notify tx id i an m slots) = slots.
Proof. unfold notify. by destruct (if tx then _ else _). Qed.

Lemma valid_slot_of_nat (i : nat) : (i < max)%nat -> valid_slot max (Z.of_nat i) = true.
Proof.
  intros Hi. unfold valid_slot.
  rewrite (proj2 (Z.ltb_ge _ _)), (proj2 (Z.leb_gt _ _)) by lia. done.
Qed.

(** Whether a descriptor that arrives as [fd] gets the number of slot [i]. *)
Definition placed (an : transfer_answers) (i : nat) (fd : Z) : bool := (fd =? own i) || ta_dup2 an.

(** The main process after the descriptor of file [f] was stored for slot [i]. *)
Definition stored (i : nat) (f : Z) (m : main_fds) : main_fds :=
  MainFds (<[own i := f]> (mf_table m)) (<[i := own i]> (mf_known m)) (<[i := mf_generation m + 1]> (mf_known_generations m))
    (mf_generation m + 1) (mf_clients m).

(** A descriptor that arrives: the descriptor table changes at the number of the slot and nowhere else. *)
Lemma receive_transfer_spec (an : transfer_answers) (i : nat) (fd f : Z) (m : main_fds) (slots : list descriptor_slot) :
  0 < base -> (i < max)%nat -> 0 <= fd -> mf_table m !! fd = None -> mf_known m !!! i = 0 \/ mf_known m !!! i = own i ->
  let o := receive_transfer base max tx an (Z.of_nat i) fd (set_table (<[fd := f]> (mf_table m)) m) slots in
  o_main o = (if placed an i fd then stored i f m else m) /\
  o_slots o = (if placed an i fd then <[i := Slot (own i) (mf_generation m + 1)]> slots else slots).
Proof.
  intros Hb Hi Hfd Hfree Hk. unfold receive_transfer, place. rewrite valid_slot_of_nat by done. cbn [negb set_table mf_known mf_table].
  rewrite Nat2Z.id. fold (own i).
  assert ((0 <? mf_known m !!! i) && negb (mf_known m !!! i =? own i) = false) as ->
    by (destruct Hk as [-> | ->]; [done|rewrite Z.eqb_refl; apply andb_false_r]).
  rewrite (proj2 (Z.ltb_lt 0 base)) by done. cbn [andb]. unfold placed.
  destruct (Z.eqb_spec fd (own i)) as [->|Hne]; cbn [negb orb].
  - rewrite !(proj1 (notify_main _ _ _ _ _)), !(proj2 (notify_main _ _ _ _ _)). split; [|done]. done.
  - unfold dup2, disconnect. rewrite lookup_insert_eq. cbn [mbind option_bind]. rewrite (proj2 (Z.eqb_neq fd (-1))) by lia.
    destruct (ta_dup2 an).
    + rewrite !(proj1 (notify_main _ _ _ _ _)), !(proj2 (notify_main _ _ _ _ _)). split; [|done]. unfold stored. f_equal.
      rewrite insert_insert_ne, delete_insert_id by (done || by rewrite lookup_insert_ne). done.
    + cbn [o_main o_slots]. split; [|done]. unfold set_table. cbn [mf_known mf_known_generations mf_generation mf_clients].
      rewrite delete_insert_id by done. by destruct m.
Qed.

(** The main process after the descriptor of slot [i] was closed. *)
Definition closed (i : nat) (m : main_fds) : main_fds :=
  MainFds (delete (own i) (mf_table m)) (<[i := 0]> (mf_known m)) (<[i := 0]> (mf_known_generations m)) (mf_generation m) (mf_clients m).

(** A message to close: its generation is the one of the descriptor, or nothing happens. *)
Lemma receive_kill_spec (an : transfer_answers) (i : nat) (g : Z) (m : main_fds) (slots : list descriptor_slot) :
  0 < base -> (i < max)%nat -> (0 < mf_known_generations m !!! i -> mf_known m !!! i = own i) ->
  let o := receive_kill max tx an (Z.of_nat i) g m slots in
  o_main o = (if (0 <? g) && (mf_known_generations m !!! i =? g) then closed i m else m) /\ o_slots o = slots.
Proof.
  intros Hb Hi Hk. unfold receive_kill. rewrite valid_slot_of_nat, Nat2Z.id by done. cbn [negb].
  destruct (Z.ltb_spec 0 g) as [Hg|Hg]; cbn [andb]; [|done].
  destruct (Z.eqb_spec (mf_known_generations m !!! i) g) as [E|E]; [|done].
  rewrite Hk by lia. assert (Hne : own i <> -1) by (unfold own; lia). unfold disconnect. rewrite (proj2 (Z.eqb_neq _ _) Hne). cbn [negb].
  by rewrite !(proj1 (notify_main _ _ _ _ _)), !(proj2 (notify_main _ _ _ _ _)).
Qed.

(** ** The system

    The slots with what became of their connections: none, one that a process made for
    itself, one whose descriptor is under way to the main process, or was dropped, one
    that the main process keeps, and one that is being killed.  Then the messages to close a
    descriptor that did not arrive yet, the marks below, and the processes that were forked, with
    their descriptors and their generation. *)
Inductive life := LDead | LNew (f : Z) | LPending (f : Z) (under_way : bool) | LParked (f : Z) | LDying.

Record proc := Proc { pr_generation : Z; pr_table : table }.

(** The descriptors that are still under way for a slot although the connection was killed
    ([mk_strays]), with two records of the past, which no step reads: the slots with a
    connection whose message to close could not be sent ([mk_unsent]), and the slots that
    were disturbed ([mk_disturbed]): such a descriptor arrived for them, or a process that
    did not hold them wrote to them.  A mark goes when the descriptor of a connection
    of the slot is stored. *)
Record marks := Marks { mk_strays : list (nat * Z); mk_unsent : gset nat; mk_disturbed : gset nat }.

Record system := System {
  sy_main : main_fds;
  sy_slots : list descriptor_slot;
  sy_lives : list life;
  sy_kills : list (Z * Z);
  sy_marks : marks;
  sy_procs : list proc }.

(** What a kill leaves under way. *)
Definition left_behind (i : nat) (l : life) : list (nat * Z) := match l with LPending f true => [(i, f)] | _ => [] end.

Definition add_strays (k : list (nat * Z)) (x : marks) : marks := Marks (k ++ mk_strays x) (mk_unsent x) (mk_disturbed x).
Definition mark_unsent (i : nat) (x : marks) : marks := Marks (mk_strays x) ({[i]} ∪ mk_unsent x) (mk_disturbed x).
Definition disturb (i : nat) (x : marks) : marks := Marks (mk_strays x) (mk_unsent x) ({[i]} ∪ mk_disturbed x).
Definition unmark (i : nat) (x : marks) : marks := Marks (mk_strays x) (mk_unsent x ∖ {[i]}) (mk_disturbed x ∖ {[i]}).

(** The steps: [pgagroal_get_connection] makes a connection; [pgagroal_return_connection] sends its
    descriptor away, or fails to; [pgagroal_kill_connection], by whatever process, at whatever time, the
    time when the descriptor is under way included, sends its message, or fails to, and
    then resets the slot; the main process handles the messages in any order,
    forks, and opens and closes descriptors below those of the slots, as the processes do; a process
    forks as well, and fetches a descriptor that it does not hold.  [step_foreign] is a
    process that works on a slot which it does not hold any more, because a flush of all connections or
    another worker killed it: it writes the fields of the slot or sends descriptors away for it; and
    [step_foreign_reset] one that resets the slot a second time, whoever uses it by then. *)
Inductive step : system -> system -> Prop :=
| step_create m slots lives kills x procs i c fd f :
    lives !! i = Some LDead -> slots !! i = Some c ->
    step (System m slots lives kills x procs)
      (System m (<[i := Slot fd (sl_generation c)]> slots) (<[i := LNew f]> lives) kills x procs)
| step_park m slots lives kills x procs i c f (sent : bool) :
    lives !! i = Some (LNew f) -> slots !! i = Some c ->
    step (System m slots lives kills x procs)
      (System m (<[i := Slot (sl_fd c) FD_GENERATION_PENDING]> slots) (<[i := LPending f sent]> lives) kills x procs)
| step_kill m slots lives kills x procs i c l :
    lives !! i = Some l -> l <> LDead -> slots !! i = Some c ->
    step (System m slots lives kills x procs)
      (System m slots (<[i := LDying]> lives) ((Z.of_nat i, sl_generation c) :: kills) (add_strays (left_behind i l) x) procs)
| step_kill_unsent m slots lives kills x procs i l :
    lives !! i = Some l -> l <> LDead ->
    step (System m slots lives kills x procs)
      (System m slots (<[i := LDying]> lives) kills (mark_unsent i (add_strays (left_behind i l) x)) procs)
| step_reset m slots lives kills x procs i :
    lives !! i = Some LDying ->
    step (System m slots lives kills x procs) (System m (<[i := Slot (-1) 0]> slots) (<[i := LDead]> lives) kills x procs)
| step_transfer m slots lives kills x procs i f fd an o :
    lives !! i = Some (LPending f true) -> 0 <= fd -> mf_table m !! fd = None -> mf_generation m + 1 < FD_GENERATION_PENDING ->
    o = accept_transfer_cb base max tx an (Some (QTransfer (Z.of_nat i) fd)) (set_table (<[fd := f]> (mf_table m)) m) slots ->
    step (System m slots lives kills x procs)
      (System (o_main o) (o_slots o) (<[i := if placed an i fd then LParked f else LPending f false]> lives) kills
         (if placed an i fd then unmark i x else x) procs)
| step_stray m slots lives kills k1 k2 u d procs i f fd an o :
    0 <= fd -> mf_table m !! fd = None -> mf_generation m + 1 < FD_GENERATION_PENDING ->
    o = accept_transfer_cb base max tx an (Some (QTransfer (Z.of_nat i) fd)) (set_table (<[fd := f]> (mf_table m)) m) slots ->
    step (System m slots lives kills (Marks (k1 ++ (i, f) :: k2) u d) procs)
      (System (o_main o) (o_slots o) lives kills
         (if placed an i fd then disturb i (Marks (k1 ++ k2) u d) else Marks (k1 ++ k2) u d) procs)
| step_foreign m slots lives kills x procs i c c' k :
    slots !! i = Some c -> sl_generation c' = sl_generation c \/ sl_generation c' = FD_GENERATION_PENDING -> Forall (fun p => p.1 = i) k ->
    step (System m slots lives kills x procs) (System m (<[i := c']> slots) lives kills (disturb i (add_strays k x)) procs)
| step_foreign_reset m slots lives kills x procs i l :
    lives !! i = Some l ->
    step (System m slots lives kills x procs)
      (System m (<[i := Slot (-1) 0]> slots) (<[i := LDead]> lives) kills (disturb i (add_strays (left_behind i l) x)) procs)
| step_close m slots lives k1 k2 x procs i g an o :
    o = accept_transfer_cb base max tx an (Some (QKill i g)) m slots ->
    step (System m slots lives (k1 ++ (i, g) :: k2) x procs) (System (o_main o) (o_slots o) lives (k1 ++ k2) x procs)
| step_fork m slots lives kills x procs :
    step (System m slots lives kills x procs)
      (System m slots lives kills x (Proc (mf_generation m) (mf_table m) :: procs))
| step_child m slots lives kills x p1 p2 p :
    step (System m slots lives kills x (p1 ++ p :: p2)) (System m slots lives kills x (p1 ++ p :: p :: p2))
| step_main m slots lives kills x procs n t clients :
    ~ reserved n -> (forall k, k <> n -> t !! k = mf_table m !! k) ->
    step (System m slots lives kills x procs)
      (System (MainFds t (mf_known m) (mf_known_generations m) (mf_generation m) clients) slots lives kills x procs)
| step_proc m slots lives kills x p1 p2 p n t :
    ~ reserved n -> (forall k, k <> n -> t !! k = pr_table p !! k) ->
    step (System m slots lives kills x (p1 ++ p :: p2)) (System m slots lives kills x (p1 ++ Proc (pr_generation p) t :: p2))
| step_fetch m slots lives kills x p1 p2 p i c f an :
    slots !! i = Some c -> pr_generation p < sl_generation c ->
    o_reply (accept_transfer_cb base max tx an (Some (QGetFd (Z.of_nat i))) m slots) = Some (sl_generation c, Some f) ->
    step (System m slots lives kills x (p1 ++ p :: p2))
      (System m slots lives kills x (p1 ++ Proc (pr_generation p) (<[sl_fd c := f]> (pr_table p)) :: p2))
| step_exit m slots lives kills x p1 p2 p :
    step (System m slots lives kills x (p1 ++ p :: p2)) (System m slots lives kills x (p1 ++ p2)).

(** The start: no slot is used. *)
Definition start (t : table) (clients : list Z) : system :=
  System (MainFds t (replicate max 0) (replicate max 0) 0 clients) (replicate max (Slot (-1) 0)) (replicate max LDead) []
    (Marks [] ∅ ∅) [].

Definition reachable (s : system) : Prop :=
  exists t clients, (forall n, reserved n -> t !! n = None) /\ rtc step (start t clients) s.

(** *** The invariant *)

(** A message for the descriptor that the main process has is under way, or could not be sent. *)
Definition late (m : main_fds) (kills : list (Z * Z)) (x : marks) (i : nat) : Prop :=
  i ∈ mk_unsent x \/ (mf_known m !!! i <> 0 -> (Z.of_nat i, mf_known_generations m !!! i) ∈ kills).

Definition kept (m : main_fds) (i : nat) : Prop :=
  (mf_known m !!! i = 0 /\ mf_known_generations m !!! i = 0 /\ mf_table m !! own i = None) \/
  (mf_known m !!! i = own i /\ 0 < mf_known_generations m !!! i <= mf_generation m /\ is_Some (mf_table m !! own i)).

Definition life_ok (m : main_fds) (kills : list (Z * Z)) (x : marks) (i : nat) (c : descriptor_slot) (l : life) : Prop :=
  match l with
  | LDead => c = Slot (-1) 0 /\ late m kills x i
  | LNew _ => sl_generation c = 0 /\ late m kills x i
  | LPending _ _ => sl_generation c = FD_GENERATION_PENDING /\ late m kills x i
  | LParked f =>
      c = Slot (own i) (mf_known_generations m !!! i) /\ mf_known m !!! i = own i /\ mf_table m !! own i = Some f /\
      (forall g, (Z.of_nat i, g) ∈ kills -> g <> mf_known_generations m !!! i)
  | LDying => late m kills x i
  end.

(** A generation that the main process gave, or that of a descriptor under way. *)
Definition given (m : main_fds) (g : Z) : Prop := 0 <= g <= mf_generation m \/ g = FD_GENERATION_PENDING.

Definition proc_ok (m : main_fds) (slots : list descriptor_slot) (lives : list life) (x : marks) (p : proc) : Prop :=
  pr_generation p <= mf_generation m /\
  forall i c f, i ∉ mk_disturbed x -> slots !! i = Some c -> lives !! i = Some (LParked f) -> sl_generation c <= pr_generation p ->
    pr_table p !! own i = Some f.

Record system_ok (s : system) : Prop := SystemOk {
  ok_generation : 0 <= mf_generation (sy_main s) < FD_GENERATION_PENDING;
  ok_known : length (mf_known (sy_main s)) = max;
  ok_known_generations : length (mf_known_generations (sy_main s)) = max;
  ok_slots : length (sy_slots s) = max;
  ok_lives : length (sy_lives s) = max;
  ok_kept : forall i, (i < max)%nat -> kept (sy_main s) i;
  ok_given : forall i c, sy_slots s !! i = Some c -> given (sy_main s) (sl_generation c);
  ok_life : forall i c l, sy_slots s !! i = Some c -> sy_lives s !! i = Some l -> i ∉ mk_disturbed (sy_marks s) ->
    life_ok (sy_main s) (sy_kills s) (sy_marks s) i c l;
  ok_kills : forall i g, (i, g) ∈ sy_kills s -> 0 <= i < Z.of_nat max /\ given (sy_main s) g;
  ok_strays : forall i f, (i, f) ∈ mk_strays (sy_marks s) -> (i < max)%nat;
  ok_procs : Forall (proc_ok (sy_main s) (sy_slots s) (sy_lives s) (sy_marks s)) (sy_procs s) }.

(** *** Every step keeps it *)

Lemma transfer_start_ok (t : table) (clients : list Z) : (forall n, reserved n -> t !! n = None) -> system_ok (start t clients).
Proof.
  intros Ht. constructor; cbn [start sy_main sy_slots sy_lives sy_kills sy_marks sy_procs mf_generation mf_known mf_known_generations];
    rewrite ?length_replicate; try done.
  - intros i Hi. left. simpl. rewrite !lookup_total_replicate_2 by done. split_and!; [done..|]. apply Ht. unfold reserved, own. lia.
  - intros i c [-> Hi]%lookup_replicate. by left.
  - intros i c l [-> Hi]%lookup_replicate [-> _]%lookup_replicate _. split; [done|]. right. intros Hk. simpl in Hk.
    by rewrite lookup_total_replicate_2 in Hk.
  - by intros i g ?%not_elem_of_nil.
  - by intros i g ?%not_elem_of_nil.
Qed.

(** A process does not mind when fewer slots are kept. *)
Lemma proc_ok_fewer (m : main_fds) (slots slots' : list descriptor_slot) (lives lives' : list life) (x x' : marks) (p : proc) :
  (forall i c f, i ∉ mk_disturbed x' -> slots' !! i = Some c -> lives' !! i = Some (LParked f) ->
     i ∉ mk_disturbed x /\ slots !! i = Some c /\ lives !! i = Some (LParked f)) ->
  proc_ok m slots lives x p -> proc_ok m slots' lives' x' p.
Proof. intros H [Hg Hp]. split; [done|]. intros i c f Hd Hc Hl. destruct (H i c f Hd Hc Hl) as (? & ? & ?). eauto. Qed.

(** The marks may only grow, and the strays be those of slots. *)
Definition marks_grow (x x' : marks) : Prop :=
  mk_unsent x ⊆ mk_unsent x' /\ mk_disturbed x ⊆ mk_disturbed x' /\
  forall i f, (i, f) ∈ mk_strays x' -> (i, f) ∈ mk_strays x \/ (i < max)%nat.

Lemma marks_grow_refl (x : marks) : marks_grow x x.
Proof. split_and!; auto. Qed.

Lemma left_behind_slot (i j : nat) (l : life) (f : Z) : (j, f) ∈ left_behind i l -> j = i.
Proof. destruct l as [| |? []| |]; simpl; try by intros ?%not_elem_of_nil. intros [= -> ->]%list_elem_of_singleton. done. Qed.

Lemma add_strays_grow (x : marks) (i : nat) (k : list (nat * Z)) :
  (i < max)%nat -> (forall j f, (j, f) ∈ k -> j = i) -> marks_grow x (add_strays k x).
Proof. intros Hi Hk. split_and!; [done..|]. intros j f [Hj|Hj]%elem_of_app; [|by left]. apply Hk in Hj as ->. by right. Qed.

Lemma mark_unsent_grow (x x' : marks) (i : nat) : marks_grow x x' -> marks_grow x (mark_unsent i x').
Proof. intros (H1 & H2 & H3). split_and!; simpl; [set_solver|done|done]. Qed.

Lemma disturb_grow (x x' : marks) (i : nat) : marks_grow x x' -> marks_grow x (disturb i x').
Proof. intros (H1 & H2 & H3). split_and!; simpl; [done|set_solver|done]. Qed.

Lemma late_grows (m : main_fds) (kills add : list (Z * Z)) (x x' : marks) (i : nat) :
  marks_grow x x' -> late m kills x i -> late m (add ++ kills) x' i.
Proof. intros (Hu & _) [H|H]; [left; set_solver|right]. intros Hk. apply elem_of_app. auto. Qed.

(** A slot gets another life that the main process has no part in. *)
Lemma system_ok_update (m : main_fds) (slots : list descriptor_slot) (lives : list life) (kills : list (Z * Z)) (x x' : marks) (procs : list proc)
  (i : nat) (c : descriptor_slot) (l : life) (add : list (Z * Z)) :
  system_ok (System m slots lives kills x procs) -> marks_grow x x' ->
  Forall (fun k => k.1 = Z.of_nat i /\ given m k.2) add ->
  (i < max)%nat -> given m (sl_generation c) ->
  (i ∉ mk_disturbed x' -> (forall f, l <> LParked f) /\ life_ok m (add ++ kills) x' i c l) ->
  system_ok (System m (<[i := c]> slots) (<[i := l]> lives) (add ++ kills) x' procs).
Proof.
  intros [] Hx Hadd Hi Hgiven Hl. cbn [sy_main sy_slots sy_lives sy_kills sy_marks sy_procs] in *.
  rewrite Forall_forall in Hadd.
  constructor; cbn [sy_main sy_slots sy_lives sy_kills sy_marks sy_procs]; rewrite ?length_insert; try done.
  - intros j c' [(-> & <- & _)|[_ Hc]]%list_lookup_insert_Some; eauto.
  - intros j c' l' Hc Hl' Hd. destruct (decide (j = i)) as [->|Hne].
    + rewrite list_lookup_insert_eq in Hl' by lia. rewrite list_lookup_insert_eq in Hc by lia. injection Hl' as <-. injection Hc as <-. by apply Hl.
    + rewrite list_lookup_insert_ne in Hl' by done. rewrite list_lookup_insert_ne in Hc by done. assert (Hd' : j ∉ mk_disturbed x) by (destruct Hx; set_solver).
      specialize (ok_life0 _ _ _ Hc Hl' Hd').
      assert (Hk : forall g, (Z.of_nat j, g) ∈ add ++ kills -> (Z.of_nat j, g) ∈ kills).
      { intros g [Hg|Hg]%elem_of_app; [|done]. destruct (Hadd _ Hg) as [Heq _]. simpl in Heq. lia. }
      destruct l'; simpl in *; intuition eauto using late_grows.
  - intros j g [Hg|Hg]%elem_of_app; [|auto]. destruct (Hadd _ Hg) as [Heq ?]. simpl in *. subst. split; [lia|done].
  - intros j f Hj. destruct Hx as (_ & _ & Hx). destruct (Hx j f Hj); eauto.
  - eapply Forall_impl; [exact ok_procs0|]. intros p. apply proc_ok_fewer. intros j c' f Hd Hc Hlj.
    destruct (decide (j = i)) as [->|Hne].
    + rewrite list_lookup_insert_eq in Hlj by lia. injection Hlj as ->. by destruct (proj1 (Hl Hd) f).
    + rewrite list_lookup_insert_ne in Hlj by done. rewrite list_lookup_insert_ne in Hc by done. split; [|done]. destruct Hx; set_solver.
Qed.

Lemma own_reserved (i : nat) : (i < max)%nat -> reserved (own i).
Proof. unfold reserved, own. lia. Qed.

Lemma own_inj (i j : nat) : own i = own j -> i = j.
Proof. unfold own. lia. Qed.

Lemma slot_in (A : Type) (l : list A) (i : nat) (x : A) : l !! i = Some x -> length l = max -> (i < max)%nat.
Proof. intros H%lookup_lt_Some <-. done. Qed.

(** The reply to [CONNECTION_GET_FD]. *)
Lemma get_fd_reply (an : transfer_answers) (m : main_fds) (slots : list descriptor_slot) (i : nat) (c : descriptor_slot) (g f : Z) :
  (i < max)%nat -> slots !! i = Some c ->
  o_reply (accept_transfer_cb base max tx an (Some (QGetFd (Z.of_nat i))) m slots) = Some (g, Some f) ->
  0 < g /\ g = mf_known_generations m !!! i /\ sl_fd c = mf_known m !!! i /\ mf_table m !! sl_fd c = Some f.
Proof.
  intros Hi Hc. cbn [accept_transfer_cb]. unfold receive_get_fd, send_file. rewrite valid_slot_of_nat, Nat2Z.id, Hc by done. cbn [negb o_reply].
  destruct (ta_generation an); [|done]. intros [= <- Hf].
  destruct (Z.eqb_spec (sl_fd c) (mf_known m !!! i)) as [E|E]; [|done].
  destruct (Z.ltb_spec 0 (mf_known_generations m !!! i)); [|done]. cbn [andb mbind option_bind] in Hf. destruct (ca_slot _); [|done].
  destruct (mf_table m !! sl_fd c) as [f'|]; [|done]. cbn [mbind option_bind] in Hf. destruct (ca_sendmsg _); naive_solver.
Qed.

(** The main process keeps its descriptors for slots and its counters: only the table outside of the reserved numbers
    and the clients change. *)
Lemma system_ok_main (m m' : main_fds) (slots : list descriptor_slot) (lives : list life) (kills : list (Z * Z)) (x : marks) (procs : list proc) :
  mf_known m' = mf_known m -> mf_known_generations m' = mf_known_generations m -> mf_generation m' = mf_generation m ->
  (forall i, (i < max)%nat -> mf_table m' !! own i = mf_table m !! own i) ->
  system_ok (System m slots lives kills x procs) -> system_ok (System m' slots lives kills x procs).
Proof.
  intros E1 E2 E3 E4 []. cbn [sy_main sy_slots sy_lives sy_kills sy_marks sy_procs] in *.
  constructor; cbn [sy_main sy_slots sy_lives sy_kills sy_marks sy_procs]; unfold given; rewrite ?E1, ?E2, ?E3; try done.
  - intros i Hi. unfold kept. rewrite E1, E2, E3, E4 by done. by apply ok_kept0.
  - intros i c l Hc Hl Hd. specialize (ok_life0 i c l Hc Hl Hd). unfold life_ok, late in *. rewrite E1, E2.
    rewrite E4 by (eapply slot_in; eauto). done.
  - eapply Forall_impl; [exact ok_procs0|]. intros p [Hg Hp]. split; [by rewrite E3|done].
Qed.

(** One process changes. *)
Lemma system_ok_proc (m : main_fds) (slots : list descriptor_slot) (lives : list life) (kills : list (Z * Z)) (x : marks)
  (p1 p2 ps ps' : list proc) :
  (Forall (proc_ok m slots lives x) ps -> Forall (proc_ok m slots lives x) ps') ->
  system_ok (System m slots lives kills x (p1 ++ ps ++ p2)) -> system_ok (System m slots lives kills x (p1 ++ ps' ++ p2)).
Proof.
  intros Hp []. cbn [sy_main sy_slots sy_lives sy_kills sy_marks sy_procs] in *.
  constructor; cbn [sy_main sy_slots sy_lives sy_kills sy_marks sy_procs]; try done.
  rewrite !Forall_app in *. naive_solver.
Qed.

(** A descriptor that is under way does not arrive. *)
Lemma system_ok_strays (m : main_fds) (slots : list descriptor_slot) (lives : list life) (kills : list (Z * Z)) (x x' : marks) (procs : list proc) :
  mk_unsent x' = mk_unsent x -> mk_disturbed x' = mk_disturbed x -> (forall k, k ∈ mk_strays x' -> k ∈ mk_strays x) ->
  system_ok (System m slots lives kills x procs) -> system_ok (System m slots lives kills x' procs).
Proof.
  destruct x as [k u d], x' as [k' u' d']. simpl. intros -> -> Hk []. cbn [sy_main sy_slots sy_lives sy_kills sy_marks sy_procs mk_strays mk_unsent mk_disturbed] in *.
  constructor; eauto.
Qed.

(** A descriptor arrives: for the connection of the slot, or for a slot that is disturbed by it. *)
Lemma system_ok_stored (m : main_fds) (slots : list descriptor_slot) (lives lives' : list life) (kills : list (Z * Z)) (x x' : marks)
  (procs : list proc) (i : nat) (f : Z) :
  (i < max)%nat -> mf_generation m + 1 < FD_GENERATION_PENDING ->
  length lives' = max -> (forall j, j <> i -> lives' !! j = lives !! j) -> i ∈ mk_disturbed x' \/ lives' !! i = Some (LParked f) ->
  (forall j, j <> i -> j ∈ mk_unsent x -> j ∈ mk_unsent x') -> (forall j, j <> i -> j ∈ mk_disturbed x -> j ∈ mk_disturbed x') ->
  mk_strays x' = mk_strays x ->
  system_ok (System m slots lives kills x procs) ->
  system_ok (System (stored i f m) (<[i := Slot (own i) (mf_generation m + 1)]> slots) lives' kills x' procs).
Proof.
  intros Hi Hlast Hlen Hother Hmine Hu Hd Hst []. cbn [sy_main sy_slots sy_lives sy_kills sy_marks sy_procs] in *.
  assert (Hsame : forall j, j <> i -> mf_known (stored i f m) !!! j = mf_known m !!! j /\
    mf_known_generations (stored i f m) !!! j = mf_known_generations m !!! j /\ mf_table (stored i f m) !! own j = mf_table m !! own j).
  { intros j Hj. cbn [stored mf_known mf_known_generations mf_table]. rewrite !list_lookup_total_insert_ne by done.
    rewrite lookup_insert_ne by (intros E%own_inj; done). done. }
  assert (Hself : mf_known (stored i f m) !!! i = own i /\ mf_known_generations (stored i f m) !!! i = mf_generation m + 1 /\
    mf_table (stored i f m) !! own i = Some f).
  { cbn [stored mf_known mf_known_generations mf_table]. rewrite !list_lookup_total_insert_eq, lookup_insert_eq by lia. done. }
  destruct Hself as (S1 & S2 & S3). assert (Hgiven : forall g, given m g -> given (stored i f m) g) by (unfold given; simpl; lia).
  constructor; cbn [sy_main sy_slots sy_lives sy_kills sy_marks sy_procs]; rewrite ?Hst; auto; cbn [stored mf_known mf_known_generations mf_generation];
    rewrite ?length_insert; try done.
  - lia.
  - intros j Hj. unfold kept. cbn [stored mf_generation]. destruct (decide (j = i)) as [->|Hne].
    + right. rewrite S1, S2, S3. split_and!; [done|lia|lia|done].
    + destruct (Hsame j Hne) as (-> & -> & ->). destruct (ok_kept0 j Hj) as [?|(? & ? & ?)]; [by left|right]. split_and!; [done|lia|lia|done].
  - intros j c [(-> & <- & _)|[_ Hc]]%list_lookup_insert_Some; [|eauto]. left. simpl. lia.
  - intros j c l Hc Hl Hdj. destruct (decide (j = i)) as [->|Hne].
    + destruct Hmine as [?|Hmine]; [done|]. rewrite list_lookup_insert_eq in Hc by lia. rewrite Hmine in Hl. injection Hc as <-. injection Hl as <-.
      cbn [life_ok]. rewrite S1, S2, S3.
      split_and!; [done..|]. intros g Hg ->. destruct (ok_kills0 _ _ Hg) as [_ [?|?]]; lia.
    + rewrite list_lookup_insert_ne in Hc by done. rewrite Hother in Hl by done. specialize (ok_life0 j c l Hc Hl ltac:(auto)).
      destruct (Hsame j Hne) as (E1 & E2 & E3).
      assert (late m kills x j -> late (stored i f m) kills x' j) by (unfold late; rewrite E1, E2; intros [?|?]; auto).
      destruct l; cbn [life_ok] in *; rewrite ?E1, ?E2, ?E3; tauto.
  - intros j g Hg. destruct (ok_kills0 j g Hg). auto.
  - eapply Forall_impl; [exact ok_procs0|]. intros p [Hg Hp]. split; cbn [stored mf_generation]; [lia|]. intros j c f' Hdj Hc Hl Hle.
    destruct (decide (j = i)) as [->|Hne].
    + rewrite list_lookup_insert_eq in Hc by lia. injection Hc as <-. simpl in Hle. lia.
    + rewrite list_lookup_insert_ne in Hc by done. rewrite Hother in Hl by done. eauto.
Qed.

(** A message to close is handled. *)
Lemma system_ok_closed (m : main_fds) (slots : list descriptor_slot) (lives : list life) (k1 k2 : list (Z * Z)) (x : marks) (procs : list proc) (i : nat) (g : Z) :
  (i < max)%nat ->
  system_ok (System m slots lives (k1 ++ (Z.of_nat i, g) :: k2) x procs) ->
  system_ok (System (if (0 <? g) && (mf_known_generations m !!! i =? g) then closed i m else m) slots lives (k1 ++ k2) x procs).
Proof.
  intros Hi []. cbn [sy_main sy_slots sy_lives sy_kills sy_marks sy_procs] in *. 
  set (m' := if (0 <? g) && (mf_known_generations m !!! i =? g) then closed i m else m).
  assert (Hgen : mf_generation m' = mf_generation m) by (unfold m'; by destruct (_ && _)).
  assert (Hlk : length (mf_known m') = max /\ length (mf_known_generations m') = max)
    by (unfold m'; destruct (_ && _); cbn [closed mf_known mf_known_generations]; rewrite ?length_insert; done).
  assert (Hsame : forall j, j <> i -> mf_known m' !!! j = mf_known m !!! j /\
    mf_known_generations m' !!! j = mf_known_generations m !!! j /\ mf_table m' !! own j = mf_table m !! own j).
  { intros j Hj. unfold m'. destruct (_ && _); [|done]. cbn [closed mf_known mf_known_generations mf_table].
    rewrite !list_lookup_total_insert_ne by done. rewrite lookup_delete_ne by (intros E%own_inj; done). done. }
  assert (Hself : (m' = m /\ (0 < mf_known_generations m !!! i -> g <> mf_known_generations m !!! i)) \/
    (0 < g /\ g = mf_known_generations m !!! i /\ mf_known m' !!! i = 0 /\ mf_known_generations m' !!! i = 0 /\ mf_table m' !! own i = None)).
  { unfold m'. destruct (Z.ltb_spec 0 g); cbn [andb]; [|left; split; [done|lia]].
    destruct (Z.eqb_spec (mf_known_generations m !!! i) g); [right|left; split; [done|congruence]].
    cbn [closed mf_known mf_known_generations mf_table]. rewrite !list_lookup_total_insert_eq, lookup_delete_eq by lia. done. }
  assert (Hsub : forall k, k ∈ k1 ++ k2 -> k ∈ k1 ++ (Z.of_nat i, g) :: k2)
    by (intros k; rewrite !elem_of_app, elem_of_cons; tauto).
  assert (Hrest : forall k, k ∈ k1 ++ (Z.of_nat i, g) :: k2 -> k <> (Z.of_nat i, g) -> k ∈ k1 ++ k2)
    by (intros k; rewrite !elem_of_app, elem_of_cons; tauto).
  assert (Hlate : forall j, (j < max)%nat -> late m (k1 ++ (Z.of_nat i, g) :: k2) x j -> late m' (k1 ++ k2) x j).
  { intros j Hj [?|Hl]; [by left|right]. intros Hk. destruct (decide (j = i)) as [->|Hne].
    - destruct Hself as [[E Hg]|(_ & _ & E & _)]; [|congruence]. rewrite E in *. apply Hrest; [by apply Hl|]. intros [= Eg].
      destruct (ok_kept0 i Hi) as [(? & _)|(_ & ? & _)]; [done|]. by apply Hg; [lia|].
    - destruct (Hsame j Hne) as (E1 & E2 & _). rewrite E2. rewrite E1 in Hk. apply Hrest; [by apply Hl|]. intros [= E _]. lia. }
  constructor; cbn [sy_main sy_slots sy_lives sy_kills sy_marks sy_procs]; unfold given; rewrite ?Hgen; try tauto.
  - intros j Hj. unfold kept. rewrite Hgen. destruct (decide (j = i)) as [->|Hne].
    + destruct Hself as [[-> _]|(_ & _ & H)]; [by apply ok_kept0|by left].
    + destruct (Hsame j Hne) as (-> & -> & ->). by apply ok_kept0.
  - intros j c l Hc Hl Hd. pose proof (ok_life0 j c l Hc Hl Hd) as Hold. pose proof (slot_in _ _ _ _ Hc ok_slots0) as Hj.
    destruct l; cbn [life_ok] in *; rewrite ?Hgen; try (destruct Hold; split; [done|auto]); [|auto].
    destruct Hold as (E1 & E2 & E3 & E4). destruct (decide (j = i)) as [->|Hne].
    + destruct Hself as [[-> _]|(_ & Hg & _)]; [split_and!; auto|].
      exfalso. apply (E4 g); [|done]. apply elem_of_app. right. by left.
    + destruct (Hsame j Hne) as (-> & -> & ->). split_and!; auto.
  - intros j g' Hg'. exact (ok_kills0 j g' (Hsub _ Hg')).
  - eapply Forall_impl; [exact ok_procs0|]. intros p [Hg Hp]. split; [by rewrite Hgen|done].
Qed.

(** A slot and its life are replaced. *)
Lemma system_ok_set (m : main_fds) (slots : list descriptor_slot) (lives : list life) (kills : list (Z * Z)) (x x' : marks) (procs : list proc)
  (i : nat) (c : descriptor_slot) (l l' : life) :
  lives !! i = Some l' -> marks_grow x x' -> given m (sl_generation c) ->
  (i ∉ mk_disturbed x' -> (forall f, l <> LParked f) /\ life_ok m kills x' i c l) ->
  system_ok (System m slots lives kills x procs) -> system_ok (System m (<[i := c]> slots) (<[i := l]> lives) kills x' procs).
Proof.
  intros Hl' Hx Hg Hok H. pose proof H as [_ _ _ Os Ol _ _ _ _ _ _]. cbn [sy_slots sy_lives] in *. assert (Hi : (i < max)%nat) by eauto using slot_in.
  by apply (system_ok_update m slots lives kills x x' procs i c l []).
Qed.

(** A slot whose life ends: a message to close was sent, or is known not to have been. *)
Lemma system_ok_killed (m : main_fds) (slots : list descriptor_slot) (lives : list life) (kills add : list (Z * Z)) (x x' : marks) (procs : list proc)
  (i : nat) (c : descriptor_slot) (l : life) :
  system_ok (System m slots lives kills x procs) -> lives !! i = Some l -> slots !! i = Some c -> marks_grow x x' ->
  add = [(Z.of_nat i, sl_generation c)] \/ add = [] /\ i ∈ mk_unsent x' ->
  system_ok (System m slots (<[i := LDying]> lives) (add ++ kills) x' procs).
Proof.
  intros Hok Hl Hc Hx Hadd. pose proof Hok as [_ _ _ Os Ol Okept Ogiven Olife _ _ _]. cbn [sy_main sy_slots sy_lives sy_kills sy_marks] in *.
  assert (Hi : (i < max)%nat) by eauto using slot_in.
  rewrite <- (list_insert_id slots i c) by done.
  apply (system_ok_update m slots lives kills x x' procs i c LDying add); eauto.
  - destruct Hadd as [-> | [-> _]]; [|done]. constructor; [|done]. simpl. eauto.
  - intros Hd. split; [done|]. cbn [life_ok]. destruct Hadd as [-> | [-> Hu]]; [|by left].
    destruct Hx as (Hu & Hdx & _). assert (Hd' : i ∉ mk_disturbed x) by set_solver.
    specialize (Olife _ _ _ Hc Hl Hd'). assert (Hg : marks_grow x x) by apply marks_grow_refl.
    assert (Hlate : late m kills x i -> late m ([(Z.of_nat i, sl_generation c)] ++ kills) x' i).
    { intros [?|?]; [left; set_solver|right]. intros. apply elem_of_app. auto. }
    destruct l; cbn [life_ok] in Olife; try (apply Hlate; tauto).
    destruct Olife as (-> & _). right. intros _. by left.
Qed.

Lemma transfer_step_ok (s s' : system) : 0 < base -> step s s' -> system_ok s -> system_ok s'.
Proof.
  intros Hb Hs Hok. pose proof Hok as Hold. destruct Hold as [Og Ok1 Ok2 Os Ol Okept Ogiven Olife Okills Ostrays Oprocs].
  assert (H0g : given (sy_main s) 0) by (left; lia).
  destruct Hs; cbn [sy_main sy_slots sy_lives sy_kills sy_marks sy_procs] in *.
  - eapply (system_ok_set m slots lives kills x x); [exact H|apply marks_grow_refl|exact (Ogiven i c H0)| |done].
    intros Hd. destruct (Olife _ _ _ H0 H Hd) as [-> Hl]. done.
  - eapply (system_ok_set m slots lives kills x x); [exact H|apply marks_grow_refl|by right| |done].
    intros Hd. by destruct (Olife _ _ _ H0 H Hd) as [_ Hl].
  - apply (system_ok_killed m slots lives kills [_] x _ procs i c l); eauto.
    apply (add_strays_grow _ i); eauto using slot_in, left_behind_slot.
  - assert (Hi : (i < max)%nat) by eauto using slot_in. destruct (lookup_lt_is_Some_2 slots i ltac:(lia)) as [c Hc].
    apply (system_ok_killed m slots lives kills [] x _ procs i c l); eauto.
    + apply mark_unsent_grow, (add_strays_grow _ i); eauto using left_behind_slot.
    + right. split; [done|]. simpl. set_solver.
  - assert (Hi : (i < max)%nat) by eauto using slot_in. destruct (lookup_lt_is_Some_2 slots i ltac:(lia)) as [c Hc].
    eapply (system_ok_set m slots lives kills x x); [exact H|apply marks_grow_refl|done| |done].
    intros Hd. by specialize (Olife _ _ _ Hc H Hd).
  - assert (Hi : (i < max)%nat) by eauto using slot_in.
    destruct (receive_transfer_spec an i fd f m slots Hb Hi H0 H1) as [Em Es]; [destruct (Okept i Hi); tauto|].
    subst o. cbn [accept_transfer_cb]. rewrite Em, Es. destruct (placed an i fd).
    + apply (system_ok_stored m slots lives _ kills x); try done; simpl; rewrite ?length_insert; try done.
      * intros j Hj. by rewrite list_lookup_insert_ne.
      * right. by rewrite list_lookup_insert_eq by lia.
      * set_solver.
      * set_solver.
    + destruct (lookup_lt_is_Some_2 slots i ltac:(lia)) as [c Hc].
      rewrite <- (list_insert_id slots i c) by done.
      eapply (system_ok_set m slots lives kills x x); [exact H|apply marks_grow_refl|exact (Ogiven i c Hc)| |done].
      intros Hd. split; [done|]. exact (Olife _ _ _ Hc H Hd).
  - assert (Hi : (i < max)%nat) by (apply (Ostrays i f), elem_of_app; right; by left).
    destruct (receive_transfer_spec an i fd f m slots Hb Hi H H0) as [Em Es]; [destruct (Okept i Hi); tauto|].
    assert (Hfewer : system_ok (System m slots lives kills (Marks (k1 ++ k2) u d) procs)).
    { eapply system_ok_strays; [| | |exact Hok]; [done..|]. intros k. simpl. rewrite !elem_of_app, elem_of_cons. tauto. }
    subst o. cbn [accept_transfer_cb]. rewrite Em, Es. destruct (placed an i fd); [|done].
    apply (system_ok_stored m slots lives lives kills (Marks (k1 ++ k2) u d)); try done; simpl; set_solver.
  - rewrite <- (list_insert_id lives i (default LDead (lives !! i))).
    2:{ destruct (lookup_lt_is_Some_2 lives i) as [l ->]; [|done]. apply lookup_lt_Some in H. lia. }
    assert (Hi : (i < max)%nat) by eauto using slot_in. destruct (lookup_lt_is_Some_2 lives i ltac:(lia)) as [l Hl].
    eapply system_ok_set; eauto.
    + apply disturb_grow, (add_strays_grow _ i); [done|]. intros j f Hj. rewrite Forall_forall in H1. by specialize (H1 _ Hj).
    + destruct H0 as [-> | ->]; [eauto|by right].
    + intros Hd. simpl in Hd. set_solver.
  - assert (Hi : (i < max)%nat) by eauto using slot_in.
    eapply system_ok_set; eauto; [apply disturb_grow, (add_strays_grow _ i); eauto using left_behind_slot|].
    intros Hd. simpl in Hd. set_solver.
  - destruct (Okills i g) as [Hi Hg]; [apply elem_of_app; right; by left|].
    replace i with (Z.of_nat (Z.to_nat i)) in * by lia.
    destruct (receive_kill_spec an (Z.to_nat i) g m slots Hb ltac:(lia)) as [Em Es]; [destruct (Okept (Z.to_nat i)); [lia|lia|tauto]|].
    subst o. cbn [accept_transfer_cb]. rewrite Em, Es. apply system_ok_closed; [lia|done].
  - apply (system_ok_proc m slots lives kills x [] procs [] [Proc (mf_generation m) (mf_table m)]); [|done]. intros _. constructor; [|constructor].
    split; [simpl; lia|]. intros i c f Hd Hc Hl _. by destruct (Olife _ _ _ Hc Hl Hd) as (_ & _ & ? & _).
  - apply (system_ok_proc m slots lives kills x p1 p2 [p] [p; p]); [|done]. intros [Hp _]%Forall_cons. apply Forall_cons_2; [exact Hp|]. apply Forall_cons_2; [exact Hp|apply Forall_nil_2].
  - apply (system_ok_main m); [done..| |done]. intros i Hi. apply H0. intros E. apply H. rewrite <- E. by apply own_reserved.
  - apply (system_ok_proc m slots lives kills x p1 p2 [p] [Proc (pr_generation p) t]); [|done]. intros [[Hg Hp] _]%Forall_cons.
    constructor; [|constructor]. split; [done|]. intros i c f Hd Hc Hl Hle. simpl. rewrite H0; [by eapply Hp|]. intros E. apply H. rewrite <- E. apply own_reserved. eauto using slot_in.
  - assert (Hi : (i < max)%nat) by eauto using slot_in.
    destruct (get_fd_reply an m slots i c _ f Hi H H1) as (G1 & G2 & G3 & G4).
    assert (Efd : sl_fd c = own i) by (destruct (Okept i Hi) as [?|(? & _)]; [lia|congruence]). rewrite Efd.
    apply (system_ok_proc m slots lives kills x p1 p2 [p] [Proc (pr_generation p) (<[own i := f]> (pr_table p))]); [|done].
    intros [[Hg Hp] _]%Forall_cons. constructor; [|constructor]. split; [done|]. intros j c' f' Hd Hc Hl Hle. cbn [pr_generation pr_table] in *. destruct (decide (j = i)) as [->|Hne].
    + replace c' with c in Hle by congruence. lia.
    + rewrite lookup_insert_ne by (intros E%own_inj; done). by eapply Hp.
  - apply (system_ok_proc m slots lives kills x p1 p2 [p] []); [|done]. intros _. constructor.
Qed.

Lemma transfer_reachable_ok (s : system) : 0 < base -> reachable s -> system_ok s.
Proof.
  intros Hb (t & clients & Ht & Hr). pose proof (transfer_start_ok t clients Ht) as Hok.
  induction Hr as [|s1 s2 s3 Hs Hr IH]; [done|]. apply IH. by eapply transfer_step_ok.
Qed.


(** C5: in every such state the main process knows each descriptor that it has for a slot,
    which is at most one; and once every message to close a descriptor was handled, it has one for
    a slot exactly when a connection is kept for it, and it is that connection's: none
    is lost and none stays behind, except for a slot that is disturbed (see the claim above) or had a
    connection whose message to close could not be sent, as long as no other descriptor
    was stored for the slot. *)
Theorem no_descriptor_leaked (s : system) (i : nat) (Hb : 0 < base) (Hs : reachable s) (Hi : (i < max)%nat) :
  (is_Some (mf_table (sy_main s) !! own i) <-> mf_known (sy_main s) !!! i = own i) /\
  (sy_kills s = [] -> i ∉ mk_disturbed (sy_marks s) -> i ∉ mk_unsent (sy_marks s) ->
    (is_Some (mf_table (sy_main s) !! own i) <-> exists f, sy_lives s !! i = Some (LParked f)) /\
    (forall f, sy_lives s !! i = Some (LParked f) -> mf_table (sy_main s) !! own i = Some f)).
Proof.
  destruct (transfer_reachable_ok s Hb Hs) as [_ _ _ Os Ol Okept _ Olife _ _ _]. split.
  { destruct (Okept i Hi) as [(-> & _ & ->)|(-> & _ & H)]; [|tauto]. split; [by intros []|]. unfold own. lia. }
  intros Hk Hd Hu.
  destruct (lookup_lt_is_Some_2 (sy_lives s) i ltac:(lia)) as [l El]. destruct (lookup_lt_is_Some_2 (sy_slots s) i ltac:(lia)) as [c Ec].
  pose proof (Olife i c l Ec El Hd) as H. rewrite Hk in H.
  assert (Hlate : late (sy_main s) [] (sy_marks s) i -> mf_table (sy_main s) !! own i = None).
  { intros [?|Hx]; [done|]. destruct (Okept i Hi) as [(_ & _ & ?)|(E & _)]; [done|]. rewrite E in Hx.
    specialize (Hx ltac:(unfold own; lia)). by apply not_elem_of_nil in Hx. }
  rewrite El. destruct l as [|f|f b|f|]; cbn [life_ok] in H;
    [destruct H as [_ H]|destruct H as [_ H]|destruct H as [_ H]|destruct H as (_ & _ & E & _)|];
    try (rewrite (Hlate H); split; [split; [by intros []|naive_solver]|naive_solver]).
  rewrite E. split; [split; eauto|naive_solver].
Qed.

(** A process that asks for the descriptor of a slot that is not being killed and not disturbed, and is answered with
    the generation that it found there, gets the connection of the slot; and for a
    connection that the main process keeps, the answer is that generation and that connection. *)
Theorem fetched_descriptor (s : system) (i : nat) (c : descriptor_slot) (an : transfer_answers)
  (Hb : 0 < base) (Hs : reachable s) (Hc : sy_slots s !! i = Some c) (Hd : i ∉ mk_disturbed (sy_marks s))
  (Hl : sy_lives s !! i <> Some LDying) :
  let reply := o_reply (accept_transfer_cb base max tx an (Some (QGetFd (Z.of_nat i))) (sy_main s) (sy_slots s)) in
  (forall f, reply = Some (sl_generation c, Some f) -> sy_lives s !! i = Some (LParked f)) /\
  (forall f, sy_lives s !! i = Some (LParked f) -> ta_generation an = true -> ca_slot (ta_reply an) = true -> ca_sendmsg (ta_reply an) = true ->
     reply = Some (sl_generation c, Some f)).
Proof.
  destruct (transfer_reachable_ok s Hb Hs) as [Og _ _ Os Ol Okept _ Olife _ _ _]. cbv zeta.
  destruct (lookup_lt_is_Some_2 (sy_lives s) i) as [l El]; [apply lookup_lt_Some in Hc; lia|]. pose proof (Olife i c l Hc El Hd) as H.
  assert (Hi : (i < max)%nat) by eauto using slot_in. split.
  - intros f Hr. destruct (get_fd_reply an _ _ i c _ f Hi Hc Hr) as (G1 & G2 & G3 & G4).
    destruct (Okept i Hi) as [?|(E & Hg & _)]; [lia|].
    destruct l as [|f'|f' b|f'|]; cbn [life_ok] in H; [destruct H as [-> _]; simpl in *; lia|lia|lia| |congruence].
    destruct H as (-> & _ & E' & _). simpl in G4. congruence.
  - intros f Ef A1 A2 A3. replace l with (LParked f) in * by congruence. cbn [life_ok] in H. destruct H as (-> & Ek & Et & _).
    cbn [accept_transfer_cb]. unfold receive_get_fd, send_file. rewrite valid_slot_of_nat, Nat2Z.id, Hc by done. cbn [negb o_reply sl_fd sl_generation].
    rewrite A1, A2, A3, Ek, Z.eqb_refl. destruct (Okept i Hi) as [(E & _)|(_ & Hg & _)]; [unfold own in *; lia|].
    rewrite (proj2 (Z.ltb_lt _ _)) by lia. cbn [andb mbind option_bind sl_fd]. by rewrite Et.
Qed.
End system.

(** ** The clients *)

(** When the pool uses transactions and a descriptor is closed, no client gets the
    descriptor that it is to close: the main process closed its own copy first, and its number in the
    slot is that copy or was reset.  The message for the first client is cut off, its connection stays open, and
    the other clients hear nothing. *)
Theorem kill_notice_lost (fd_base : Z) (max : nat) (an : transfer_answers) (i : nat) (g : Z) (m : main_fds) (slots : list descriptor_slot)
  (c : descriptor_slot) (first : Z) (others : list Z)
  (Hb : 0 < fd_base) (Hi : (i < max)%nat) (Hg : 0 < g) (Hkg : mf_known_generations m !!! i = g) (Hk : mf_known m !!! i = own fd_base i)
  (Hc : slots !! i = Some c) (Hfd : sl_fd c = own fd_base i \/ sl_fd c = -1) (Hneg : mf_table m !! (-1) = None)
  (Hcl : mf_clients m = first :: others) :
  let o := accept_transfer_cb fd_base max true an (Some (QKill (Z.of_nat i) g)) m slots in
  (o_sent o = [] \/ o_sent o = [SentId first CONNECTION_REMOVE_FD] \/ o_sent o = [SentId first CONNECTION_REMOVE_FD; SentSlot first (Z.of_nat i)]) /\
  (ca_connect (ta_clients an first) = true -> o_leaked o = [first]).
Proof.
  cbn [accept_transfer_cb]. unfold receive_kill. rewrite valid_slot_of_nat, Nat2Z.id by done. cbn [negb].
  rewrite Hkg, Z.eqb_refl, (proj2 (Z.ltb_lt 0 g)) by done. cbn [andb]. rewrite Hk.
  assert (Hne : own fd_base i <> -1) by (unfold own; lia). unfold disconnect. rewrite (proj2 (Z.eqb_neq _ _) Hne). cbn [negb].
  unfold notify. cbn [mf_table mf_clients]. rewrite Hcl. cbn [tell_clients].
  assert (Hno : forall b, send_file b (delete (own fd_base i) (mf_table m)) slots i = None).
  { intros b. unfold send_file. rewrite Hc. cbn [mbind option_bind].
    destruct Hfd as [-> | ->]; [by rewrite lookup_delete_eq|]. rewrite lookup_delete_ne by done. by rewrite Hneg. }
  unfold tell. rewrite Hno. destruct (ta_clients an first) as [[] [] [] sm]; cbn; split; auto; discriminate.
Qed.

(** A descriptor that arrives is stored in its slot, whoever uses the slot by then. *)
Lemma late_transfer_overwrites (fd_base : Z) (max : nat) (tx : bool) (an : transfer_answers) (i : nat) (fd f : Z) (m : main_fds)
  (slots : list descriptor_slot) :
  0 < fd_base -> (i < max)%nat -> (i < length slots)%nat -> 0 <= fd -> mf_table m !! fd = None ->
  mf_known m !!! i = 0 \/ mf_known m !!! i = own fd_base i -> ta_dup2 an = true ->
  o_slots (accept_transfer_cb fd_base max tx an (Some (QTransfer (Z.of_nat i) fd)) (set_table (<[fd := f]> (mf_table m)) m) slots) !! i =
    Some (Slot (own fd_base i) (mf_generation m + 1)).
Proof.
  intros Hb Hi Hl Hfd Hf Hk Hd. destruct (receive_transfer_spec fd_base max tx an i fd f m slots Hb Hi Hfd Hf Hk) as [_ E].
  cbn [accept_transfer_cb]. rewrite E. unfold placed. rewrite Hd, orb_true_r. by rewrite list_lookup_insert_eq.
Qed.

(** The numbers for slots leave at least thirty others, at most 1024, when the limit of the system
    admits [max_connections]. *)
Lemma fd_base_bounds (rlim_cur max_connections : Z) :
  0 <= max_connections -> max_connections <= rlim_cur - 30 -> 30 <= fd_base_of rlim_cur max_connections <= 1024.
Proof.
  intros H0 H. unfold fd_base_of. destruct (Z.ltb_spec (max_connections + 1024) rlim_cur);
    rewrite wraps_id by (lia || (unfold in_i; lia)); lia.
Qed.

(** ** Examples *)

Definition reachable_client : client_answers := ClientAnswers true true true true.
Definition answers_fine : transfer_answers := TransferAnswers true (fun _ => reachable_client) true reachable_client.

Lemma transfer_messages_read_witness :
  exists sent w', send false (PlainWriter [Wrote 4%N; Wrote 4%N; Wrote 8%N]) (MKill 3 5000000000) = Done (true, sent, w') /\
    exists rs', read_request true [RData 0 (take 6 (drop 1 sent)); RFail EAGAIN; RData (sent !!! 7%nat) (drop 8 sent)] (RecvFd 0) =
      Done (Some (QKill 3 5000000000), rs').
Proof.
  eexists _, _. split; [vm_compute; reflexivity|].
  destruct (transfer_messages_read false true (PlainWriter [Wrote 4%N; Wrote 4%N; Wrote 8%N]) (PlainWriter []) (MKill 3 5000000000)
    [0; 0; 0; 2; 0; 0; 0; 3; 0; 0; 0; 1; 42; 5; 242; 0]
    [RData 0 [0; 0; 2; 0; 0; 0]; RFail EAGAIN; RData 3 [0; 0; 0; 1; 42; 5; 242; 0]] 2 0) as (rs' & H & _).
  - split; unfold in_i; simpl; lia.
  - vm_compute. reflexivity.
  - apply (arrives_data 0 [0; 0; 2; 0; 0; 0]). constructor. apply (arrives_data 3 [0; 0; 0; 1; 42; 5; 242; 0] _ []). constructor.
  - lia.
  - exists rs'. exact H.
Defined.

(** A connection is made, kept, and inherited by a process. *)
Definition main_example : main_fds := MainFds {[100 := 9]} [100; 0] [1; 0] 1 [].
Definition inherited_example : system :=
  System main_example [Slot 100 1; Slot (-1) 0] [LParked 9; LDead] [] (Marks [] ∅ ∅) [Proc 1 {[100 := 9]}].

Lemma inherited_reachable : reachable 100 2 false inherited_example.
Proof.
  exists ∅, []. split; [done|].
  eapply rtc_l; [apply (step_create 100 2 false _ _ _ _ _ _ 0%nat (Slot (-1) 0) 7 9); reflexivity|].
  eapply rtc_l; [eapply (step_park 100 2 false _ _ _ _ _ _ 0%nat _ _ true); reflexivity|].
  eapply rtc_l; [eapply (step_transfer 100 2 false _ _ _ _ _ _ 0%nat 9 5 answers_fine); try reflexivity; done|].
  eapply rtc_l; [apply step_fork|].
  match goal with |- rtc _ ?s _ => replace s with inherited_example; [constructor|] end.
  vm_compute. reflexivity.
Qed.


Lemma no_descriptor_leaked_witness :
  mf_known main_example !!! 0%nat = own 100 0 /\ is_Some (mf_table main_example !! own 100 0) /\ mf_table main_example !! own 100 1 = None.
Proof.
  destruct (no_descriptor_leaked 100 2 false inherited_example 0) as [H1 H2]; [lia|apply inherited_reachable|lia|].
  destruct (no_descriptor_leaked 100 2 false inherited_example 1) as [_ H3]; [lia|apply inherited_reachable|lia|].
  destruct H2 as [H2 _]; [done|apply not_elem_of_empty..|]. destruct H3 as [H3 _]; [done|apply not_elem_of_empty..|].
  split; [apply H1; by eexists|]. split; [apply H2; by eexists|].
  destruct (mf_table main_example !! own 100 1) eqn:E; [|done]. destruct H3 as [H3 _]. destruct H3 as [f Hf]; [by eexists|done].
Defined.

(** The exception is real: a flush kills the connection 9 while its descriptor is under way,
    another process makes the connection 8 in the slot, and when the descriptor arrives the slot
    names it. *)
Lemma late_transfer_reached :
  exists s, reachable 100 2 false s /\ sy_lives s !! 0%nat = Some (LNew 8) /\ sy_slots s !! 0%nat = Some (Slot 100 1) /\
    mf_table (sy_main s) !! 100 = Some 9 /\ 0%nat ∈ mk_disturbed (sy_marks s).
Proof.
  eexists. split.
  - exists ∅, []. split; [done|].
    eapply rtc_l; [apply (step_create 100 2 false _ _ _ _ _ _ 0%nat (Slot (-1) 0) 7 9); reflexivity|].
    eapply rtc_l; [eapply (step_park 100 2 false _ _ _ _ _ _ 0%nat _ _ true); reflexivity|].
    eapply rtc_l; [eapply (step_kill 100 2 false _ _ _ _ _ _ 0%nat _ (LPending 9 true)); [reflexivity|done|reflexivity]|].
    eapply rtc_l; [apply (step_reset 100 2 false _ _ _ _ _ _ 0%nat); reflexivity|].
    eapply rtc_l; [apply (step_create 100 2 false _ _ _ _ _ _ 0%nat (Slot (-1) 0) 6 8); reflexivity|].
    eapply rtc_l; [|constructor].
    eapply (step_stray 100 2 false _ _ _ _ [] [] _ _ _ 0%nat 9 5 answers_fine); [done|reflexivity|done|reflexivity].
  - split_and!; [reflexivity..|]. simpl. set_solver.
Qed.

Lemma fetched_descriptor_witness :
  o_reply (accept_transfer_cb 100 2 false answers_fine (Some (QGetFd 0)) main_example [Slot 100 1; Slot (-1) 0]) = Some (1, Some 9).
Proof.
  apply (fetched_descriptor 100 2 false inherited_example 0 (Slot 100 1) answers_fine); [lia|apply inherited_reachable|done|apply not_elem_of_empty|done..].
Defined.

Lemma kill_notice_lost_witness :
  o_leaked (accept_transfer_cb 100 2 true answers_fine (Some (QKill 0 1)) (MainFds {[100 := 9]} [100; 0] [1; 0] 1 [41; 42])
    [Slot 100 1; Slot (-1) 0]) = [41].
Proof.
  apply (kill_notice_lost 100 2 answers_fine 0 1 (MainFds {[100 := 9]} [100; 0] [1; 0] 1 [41; 42]) [Slot 100 1; Slot (-1) 0]
    (Slot 100 1) 41 [42]); try done; [lia..|by left].
Defined.
