(* ===== verification/Tls.v ===== *)
(** * TLS records ([libpgagroal/tls.c])

    A connection to a server is kept in the pool together with its TLS session: after the
    handshake pgagroal takes the traffic secrets from OpenSSL and seals and opens the
    records of TLS 1.3 itself.  Such a context is a few numbers, which are stored in the slot
    of the connection and picked up by the next process.

    Key derivation and the cipher are functions of OpenSSL, given as a record.  The engine that
    does the handshake is a parameter too; its memory BIOs are lists of bytes. *)

From Stdlib Require Import Ascii.
From S2P Require Import Prelude Utf8 Wire Frames Message.

Local Open Scope Z_scope.

(** ** Constants *)

Inductive tls_status := PGAGROAL_TLS_OK | PGAGROAL_TLS_WANT_IO | PGAGROAL_TLS_CLOSED | PGAGROAL_TLS_ERROR.

#[global] Instance tls_status_eq_dec : EqDecision tls_status.
Proof. solve_decision. Defined.

Definition PGAGROAL_TLS_AEAD_AES_128_GCM : Z := 1.
Definition PGAGROAL_TLS_AEAD_AES_256_GCM : Z := 2.
Definition PGAGROAL_TLS_RECORD_MAX : Z := 16645.
Definition TLS_CONTEXT_BUFFER_SIZE : Z := 256.

(** The sizes of [inner] in [pgagroal_tls_record_seal] and [_open], and of [secret]. *)
Definition INNER_SIZE : Z := 16384.
Definition SECRET_SIZE : nat := 48.

(** ** OpenSSL *)

(** [hkdf] is HKDF-Expand with a digest, a key, the info and the length of the output.
    [gcm_seal] takes the cipher of a suite, the key, the nonce, the additional data and
    the text, and answers the cipher text and the tag; [gcm_open] is its inverse, and
    fails when the tag does not fit. *)
Record tls_library := TlsLibrary {
  hkdf : string -> list Z -> list Z -> nat -> option (list Z);
  gcm_seal : Z -> list Z -> list Z -> list Z -> list Z -> option (list Z * list Z);
  gcm_open : Z -> list Z -> list Z -> list Z -> list Z -> list Z -> option (list Z) }.

(** ** Record contexts *)

(** [struct tls_record_dir]; the length of the secret is that of the list. *)
Record tls_record_dir := TlsRecordDir { d_secret : list Z; d_key : list Z; d_iv : list Z; d_seq : Z }.

(** [struct tls_record]. *)
Record tls_record := TlsRecord { r_aead : Z; r_read : tls_record_dir; r_write : tls_record_dir }.

Definition set_read (d : tls_record_dir) (r : tls_record) : tls_record := TlsRecord (r_aead r) d (r_write r).
Definition set_write (d : tls_record_dir) (r : tls_record) : tls_record := TlsRecord (r_aead r) (r_read r) d.
Definition set_seq (s : Z) (d : tls_record_dir) : tls_record_dir := TlsRecordDir (d_secret d) (d_key d) (d_iv d) s.

(** [aead_lookup]: the length of the key and the digest. *)
Definition aead_lookup (aead : Z) : option (nat * string) :=
  if aead =? PGAGROAL_TLS_AEAD_AES_128_GCM then Some (16%nat, "SHA256")
  else if aead =? PGAGROAL_TLS_AEAD_AES_256_GCM then Some (32%nat, "SHA384")
  else None.

(** [build_nonce]: the sequence number is added to the last eight bytes. *)
Definition build_nonce (iv : list Z) (seq : Z) : list Z :=
  imap (fun j b => if (4 <=? j)%nat then Z.lxor b (u8 (Z.shiftr seq (8 * (11 - Z.of_nat j)))) else b) (take 12 iv).

Section records.
Context (L : tls_library).

(** [hkdf_expand_label]. *)
Definition hkdf_expand_label (hash : string) (secret : list Z) (label : string) (out_len : nat) : option (list Z) :=
  let full := str ("tls13 " +:+ label) in
  hkdf L hash secret
    ([u8 (Z.shiftr (Z.of_nat out_len) 8); Z.land (Z.of_nat out_len) 0xff; u8 (len full)] ++ full ++ [0]) out_len.

(** [pgagroal_tls_record_dir_init]. *)
Definition record_dir_init (aead : Z) (secret : list Z) : option tls_record_dir :=
  if (SECRET_SIZE <? length secret)%nat then None
  else
    '(key_len, hash) ← aead_lookup aead;
    key ← hkdf_expand_label hash secret "key" key_len;
    iv ← hkdf_expand_label hash secret "iv" 12;
    Some (TlsRecordDir secret key iv 0).

(** The header of a record with [n] bytes behind it. *)
Definition record_header (n : Z) : list Z := [0x17; 0x03; 0x03; u8 (Z.shiftr n 8); Z.land n 0xff].

(** [pgagroal_tls_record_seal]: the record, and the context after it. *)
Definition record_seal (r : tls_record) (plaintext : list Z) (cap : Z) : option (list Z * tls_record) :=
  _ ← aead_lookup (r_aead r);
  let inner_len := len plaintext + 1 in
  if (INNER_SIZE <? inner_len) || (cap <? 5 + inner_len + 16) then None
  else
    let header := record_header (inner_len + 16) in
    let d := r_write r in
    '(ct, tag) ← gcm_seal L (r_aead r) (d_key d) (build_nonce (d_iv d) (d_seq d)) header (plaintext ++ [0x17]);
    Some (header ++ ct ++ tag, set_write (set_seq (u64 (d_seq d + 1)) d) r).

(** The padding of zeros at the end of a text. *)
Fixpoint strip_zeros (rev_inner : list Z) : list Z :=
  match rev_inner with
  | b :: l => if b =? 0 then strip_zeros l else b :: l
  | [] => []
  end.

(** The length in the header of a record. *)
Definition body_length (rec : list Z) : Z := Z.lor (Z.shiftl (rec !!! 3%nat) 8) (rec !!! 4%nat).

(** [pgagroal_tls_record_open]: the text, unless it fails, and the context; a failure leaves it. *)
Definition record_open (r : tls_record) (rec : list Z) (cap : Z) : option (list Z) * tls_record :=
  (* what is opened, and the sequence number advances only then *)
  let opened :=
    if len rec <? 5 + 16 + 1 then None
    else
      _ ← aead_lookup (r_aead r);
      let body_len := body_length rec in
      if (body_len <? 16) || (len rec <? 5 + body_len) || (INNER_SIZE <? body_len - 16) then None
      else
        let ct_len := Z.to_nat (body_len - 16) in
        let d := r_read r in
        inner ← gcm_open L (r_aead r) (d_key d) (build_nonce (d_iv d) (d_seq d)) (take 5 rec)
                  (take ct_len (drop 5 rec)) (take 16 (drop (5 + ct_len) rec));
        match strip_zeros (rev inner) with
        | ty :: content => if (ty =? 0x17) && (len content <=? cap) then Some (rev content) else None
        | [] => None
        end in
  match opened with
  | Some t => (Some t, set_read (set_seq (u64 (d_seq (r_read r) + 1)) (r_read r)) r)
  | None => (None, r)
  end.

(** ** Contexts in a slot *)

(** The eight bytes of a sequence number, highest first, and back. *)
Definition seq_bytes (s : Z) : list Z := map (fun i => u8 (Z.shiftr s (8 * (7 - i)))) [0; 1; 2; 3; 4; 5; 6; 7].
Definition seq_value (bs : list Z) : Z := fold_left (fun s b => Z.lor (u64 (Z.shiftl s 8)) b) bs 0.

(** [export_dir]. *)
Definition export_dir (d : tls_record_dir) : list Z :=
  u8 (Z.of_nat (length (d_secret d))) :: d_secret d ++ seq_bytes (d_seq d).

(** [import_dir]: the direction, and what follows it. *)
Definition import_dir (aead : Z) (p : list Z) : option (tls_record_dir * list Z) :=
  match p with
  | [] => None
  | sl :: p =>
      let n := Z.to_nat sl in
      if (SECRET_SIZE <? n)%nat || (length p <? n + 8)%nat then None
      else
        d ← record_dir_init aead (take n p);
        Some (set_seq (seq_value (take 8 (drop n p))) d, drop (n + 8) p)
  end.

(** [pgagroal_tls_record_export] and [pgagroal_tls_record_import]. *)
Definition record_export (r : tls_record) (cap : Z) : option (list Z) :=
  if cap <? 2 + (1 + len (d_secret (r_read r)) + 8) + (1 + len (d_secret (r_write r)) + 8) then None
  else Some (1 :: u8 (r_aead r) :: export_dir (r_read r) ++ export_dir (r_write r)).

Definition record_import (buf : list Z) : option tls_record :=
  match buf with
  | version :: aead :: p =>
      if negb (version =? 1) then None
      else
        '(rd, p) ← import_dir aead p;
        '(wr, _) ← import_dir aead p;
        Some (TlsRecord aead rd wr)
  | _ => None
  end.

(** ** The handshake is over *)

(** What a context has of its handshake: its role, whether it is complete, the secrets that were
    captured (a mask of 1 for the client's and 2 for the server's), the number of the cipher suite,
    and what is left in the BIO for input. *)
Record handshake := Handshake {
  hs_server : bool;
  hs_complete : bool;
  hs_client_secret : list Z;
  hs_server_secret : list Z;
  hs_secret_mask : Z;
  hs_cipher : Z;
  hs_rbio : list Z }.

(** [pgagroal_tls_harvest]. *)
Definition harvest (h : handshake) : option tls_record :=
  if negb (hs_complete h) || negb (hs_secret_mask h =? 3) then None
  else
    aead ← (if hs_cipher h =? 0x1301 then Some PGAGROAL_TLS_AEAD_AES_128_GCM
            else if hs_cipher h =? 0x1302 then Some PGAGROAL_TLS_AEAD_AES_256_GCM else None);
    let '(wsec, rsec) := if hs_server h then (hs_server_secret h, hs_client_secret h) else (hs_client_secret h, hs_server_secret h) in
    wr ← record_dir_init aead wsec;
    rd ← record_dir_init aead rsec;
    Some (TlsRecord aead rd wr).

(** An owned context: the record context, and the bytes in [rbuf]. *)
Record owned := Owned { o_record : tls_record; o_rbuf : list Z }.

(** [pgagroal_tls_own]: what OpenSSL did not consume is taken over, as much as fits [rbuf]. *)
Definition tls_own (h : handshake) : option owned :=
  r ← harvest h; Some (Owned r (take (Z.to_nat PGAGROAL_TLS_RECORD_MAX) (hs_rbio h))).

(** ** Sockets *)

(** What a call of [read] and of [write] answers. *)
Inductive sock_read := SData (b : Z) (bs : list Z) | SEof | SIntr | SFail.
Inductive sock_write := SWritten (n : positive) | SWIntr | SWFail.

(** [socket_write_all]: success, the bytes that were sent and the answers that are left. *)
Fixpoint socket_write_all (ws : list sock_write) (buf : list Z) : result (bool * list Z * list sock_write) :=
  match buf with
  | [] => Done (true, [], ws)
  | _ =>
      match ws with
      | [] => Running
      | SWritten n :: ws =>
          let k := Nat.min (Pos.to_nat n) (length buf) in
          match socket_write_all ws (drop k buf) with
          | Done (ok, sent, ws) => Done (ok, take k buf ++ sent, ws)
          | Undefined => Undefined
          | Running => Running
          end
      | SWIntr :: ws => socket_write_all ws buf
      | SWFail :: ws => Done (false, [], ws)
      end
  end.

(** One record of [rbuf], if it is complete: [None] is an error, [Some None] asks for more. *)
Definition tls_frame (rbuf : list Z) : option (option (list Z)) :=
  if len rbuf <? 5 then Some None
  else
    let total := 5 + body_length rbuf in
    if PGAGROAL_TLS_RECORD_MAX <? total then None
    else if len rbuf <? total then Some None
    else Some (Some (take (Z.to_nat total) rbuf)).

(** [read] into [room] bytes, again after an interruption; what does not fit stays in the
    socket. *)
Fixpoint read_room (room : nat) (rs : list sock_read) : result (sock_read * list sock_read) :=
  match rs with
  | [] => Running
  | SIntr :: rs => read_room room rs
  | SData b bs :: rs =>
      Done (SData b (take (room - 1) bs), match drop (room - 1) bs with [] => rs | b' :: bs' => SData b' bs' :: rs end)
  | r :: rs => Done (r, rs)
  end.

(** [owned_read]: the status, the text, the context, and the answers that are left. *)
Fixpoint owned_read_loop (fuel : nat) (rs : list sock_read) (t : owned) (cap : Z)
  : result (tls_status * list Z * owned * list sock_read) :=
  match tls_frame (o_rbuf t) with
  | None => Done (PGAGROAL_TLS_ERROR, [], t, rs)
  | Some (Some rec) =>
      let '(o, r) := record_open (o_record t) rec cap in
      let t := Owned r (drop (length rec) (o_rbuf t)) in
      Done (match o with
            | Some text => (PGAGROAL_TLS_OK, text, t, rs)
            | None => (PGAGROAL_TLS_ERROR, [], t, rs)
            end)
  | Some None =>
      let room := PGAGROAL_TLS_RECORD_MAX - len (o_rbuf t) in
      if room <=? 0 then Done (PGAGROAL_TLS_ERROR, [], t, rs)
      else
        match fuel with
        | O => Running
        | S fuel =>
            match read_room (Z.to_nat room) rs with
            | Done (SData b bs, rs) => owned_read_loop fuel rs (Owned (o_record t) (o_rbuf t ++ b :: bs)) cap
            | Done (SEof, rs) => Done (PGAGROAL_TLS_CLOSED, [], t, rs)
            | Done (_, rs) => Done (PGAGROAL_TLS_ERROR, [], t, rs)
            | Undefined => Undefined
            | Running => Running
            end
        end
  end.

(** A round adds a byte to a buffer of [PGAGROAL_TLS_RECORD_MAX] bytes. *)
Definition owned_read (rs : list sock_read) (t : owned) (cap : Z) : result (tls_status * list Z * owned * list sock_read) :=
  owned_read_loop (Z.to_nat PGAGROAL_TLS_RECORD_MAX) rs t cap.

(** [owned_write]: chunks of at most 16384 bytes. *)
Fixpoint owned_write_loop (fuel : nat) (ws : list sock_write) (r : tls_record) (buf : list Z)
  : result (tls_status * list Z * tls_record * list sock_write) :=
  match buf with
  | [] => Done (PGAGROAL_TLS_OK, [], r, ws)
  | _ =>
      match fuel with
      | O => Running
      | S fuel =>
          match record_seal r (take (Z.to_nat 16384) buf) PGAGROAL_TLS_RECORD_MAX with
          | None => Done (PGAGROAL_TLS_ERROR, [], r, ws)
          | Some (rec, r) =>
              match socket_write_all ws rec with
              | Done (true, sent, ws) =>
                  match owned_write_loop fuel ws r (drop (Z.to_nat 16384) buf) with
                  | Done (st, sent', r, ws) => Done (st, sent ++ sent', r, ws)
                  | Undefined => Undefined
                  | Running => Running
                  end
              | Done (false, sent, ws) => Done (PGAGROAL_TLS_ERROR, sent, r, ws)
              | Undefined => Undefined
              | Running => Running
              end
          end
      end
  end.

Definition owned_write (ws : list sock_write) (t : owned) (buf : list Z) : result (tls_status * list Z * owned * list sock_write) :=
  match owned_write_loop (S (length buf)) ws (o_record t) buf with
  | Done (st, sent, r, ws) => Done (st, sent, Owned r (o_rbuf t), ws)
  | Undefined => Undefined
  | Running => Running
  end.
End records.

(** ** The engine *)

(** What a call of OpenSSL answers; [SSL_get_error] tells the failures apart. *)
Inductive ssl_answer (A : Type) := SslOk (a : A) | SslWantIo | SslZeroReturn | SslFail.
Arguments SslOk {A}. Arguments SslWantIo {A}. Arguments SslZeroReturn {A}. Arguments SslFail {A}.

(** An SSL object over two memory BIOs: a call may consume input and queue output. *)
Record engine := Engine {
  ssl_state : Type;
  ssl_do_handshake : ssl_state -> list Z -> ssl_answer unit * ssl_state * list Z * list Z;
  ssl_write : ssl_state -> list Z -> list Z -> ssl_answer nat * ssl_state * list Z * list Z;
  ssl_read : ssl_state -> list Z -> nat -> ssl_answer (list Z) * ssl_state * list Z * list Z }.

Section pump.
Context (E : engine).

(** [struct tls] while OpenSSL moves the traffic. *)
Record wrapper := Wrapper { w_ssl : ssl_state E; w_rbio : list Z; w_wbio : list Z; w_complete : bool }.

(** [classify]. *)
Definition classify {A} (a : ssl_answer A) : tls_status :=
  match a with
  | SslOk _ => PGAGROAL_TLS_OK
  | SslWantIo => PGAGROAL_TLS_WANT_IO
  | SslZeroReturn => PGAGROAL_TLS_CLOSED
  | SslFail => PGAGROAL_TLS_ERROR
  end.

(** [pgagroal_tls_feed] and [pgagroal_tls_drain]. *)
Definition tls_feed (t : wrapper) (buf : list Z) : wrapper := Wrapper (w_ssl t) (w_rbio t ++ buf) (w_wbio t) (w_complete t).

Definition tls_drain (t : wrapper) (cap : nat) : list Z * wrapper :=
  (take cap (w_wbio t), Wrapper (w_ssl t) (w_rbio t) (drop cap (w_wbio t)) (w_complete t)).

(** [pgagroal_tls_handshake]. *)
Definition tls_handshake (t : wrapper) : tls_status * wrapper :=
  if w_complete t then (PGAGROAL_TLS_OK, t)
  else
    let '(a, s, rbio, out) := ssl_do_handshake E (w_ssl t) (w_rbio t) in
    (classify a, Wrapper s rbio (w_wbio t ++ out) (match a with SslOk _ => true | _ => false end)).

(** [pgagroal_tls_write] and [pgagroal_tls_read]. *)
Definition tls_write (t : wrapper) (buf : list Z) : tls_status * nat * wrapper :=
  match buf with
  | [] => (PGAGROAL_TLS_OK, O, t)
  | _ =>
      let '(a, s, rbio, out) := ssl_write E (w_ssl t) (w_rbio t) buf in
      (classify a, match a with SslOk n => n | _ => O end, Wrapper s rbio (w_wbio t ++ out) (w_complete t))
  end.

Definition tls_read (t : wrapper) (cap : nat) : tls_status * list Z * wrapper :=
  match cap with
  | O => (PGAGROAL_TLS_OK, [], t)
  | _ =>
      let '(a, s, rbio, out) := ssl_read E (w_ssl t) (w_rbio t) cap in
      (classify a, match a with SslOk bs => bs | _ => [] end, Wrapper s rbio (w_wbio t ++ out) (w_complete t))
  end.

(** [socket_flush]: success, what was sent, the context, and the answers that are left. *)
Fixpoint flush_loop (fuel : nat) (ws : list sock_write) (t : wrapper) : result (bool * list Z * wrapper * list sock_write) :=
  match tls_drain t (Z.to_nat 16384) with
  | ([], t) => Done (true, [], t, ws)
  | (buf, t) =>
      match fuel with
      | O => Running
      | S fuel =>
          match socket_write_all ws buf with
          | Done (true, sent, ws) =>
              match flush_loop fuel ws t with
              | Done (ok, sent', t, ws) => Done (ok, sent ++ sent', t, ws)
              | Undefined => Undefined
              | Running => Running
              end
          | Done (false, sent, ws) => Done (false, sent, t, ws)
          | Undefined => Undefined
          | Running => Running
          end
      end
  end.

Definition socket_flush (ws : list sock_write) (t : wrapper) : result (bool * list Z * wrapper * list sock_write) :=
  flush_loop (length (w_wbio t)) ws t.

(** [socket_fill]. *)
Definition socket_fill (rs : list sock_read) (t : wrapper) : result (bool * wrapper * list sock_read) :=
  match read_room (Z.to_nat 16384) rs with
  | Done (SData b bs, rs) => Done (true, tls_feed t (b :: bs), rs)
  | Done (_, rs) => Done (false, t, rs)
  | Undefined => Undefined
  | Running => Running
  end.

(** What a loop over the socket leaves: the status, the text that was read, the bytes that were
    sent, the context, and the answers of the socket. *)
Record pumped := Pumped {
  pu_status : tls_status;
  pu_text : list Z;
  pu_sent : list Z;
  pu_tls : wrapper;
  pu_reads : list sock_read;
  pu_writes : list sock_write }.

Definition sent_before (sent : list Z) (r : result pumped) : result pumped :=
  match r with
  | Done p => Done (Pumped (pu_status p) (pu_text p) (sent ++ pu_sent p) (pu_tls p) (pu_reads p) (pu_writes p))
  | Undefined => Undefined
  | Running => Running
  end.

(** Flush, and then either go on or fail. *)
Definition flush_then (rs : list sock_read) (ws : list sock_write) (t : wrapper)
  (k : wrapper -> list sock_write -> result pumped) : result pumped :=
  match socket_flush ws t with
  | Done (true, sent, t, ws) => sent_before sent (k t ws)
  | Done (false, sent, t, ws) => Done (Pumped PGAGROAL_TLS_ERROR [] sent t rs ws)
  | Undefined => Undefined
  | Running => Running
  end.

Definition fill_then (rs : list sock_read) (ws : list sock_write) (t : wrapper)
  (k : wrapper -> list sock_read -> result pumped) : result pumped :=
  match socket_fill rs t with
  | Done (true, t, rs) => k t rs
  | Done (false, t, rs) => Done (Pumped PGAGROAL_TLS_ERROR [] [] t rs ws)
  | Undefined => Undefined
  | Running => Running
  end.

(** [pgagroal_tls_socket_handshake]. *)
Fixpoint socket_handshake (fuel : nat) (rs : list sock_read) (ws : list sock_write) (t : wrapper) : result pumped :=
  match fuel with
  | O => Running
  | S fuel =>
      let '(rc, t) := tls_handshake t in
      flush_then rs ws t (fun t ws =>
        match rc with
        | PGAGROAL_TLS_OK => Done (Pumped PGAGROAL_TLS_OK [] [] t rs ws)
        | PGAGROAL_TLS_WANT_IO => fill_then rs ws t (fun t rs => socket_handshake fuel rs ws t)
        | _ => Done (Pumped PGAGROAL_TLS_ERROR [] [] t rs ws)
        end)
  end.

(** [pgagroal_tls_socket_read], when the context is not owned. *)
Fixpoint socket_read (fuel : nat) (rs : list sock_read) (ws : list sock_write) (t : wrapper) (cap : nat) : result pumped :=
  match fuel with
  | O => Running
  | S fuel =>
      let '(rc, text, t) := tls_read t cap in
      match rc with
      | PGAGROAL_TLS_OK | PGAGROAL_TLS_CLOSED => Done (Pumped rc text [] t rs ws)
      | PGAGROAL_TLS_WANT_IO =>
          flush_then rs ws t (fun t ws => fill_then rs ws t (fun t rs => socket_read fuel rs ws t cap))
      | PGAGROAL_TLS_ERROR => Done (Pumped PGAGROAL_TLS_ERROR [] [] t rs ws)
      end
  end.

(** [pgagroal_tls_socket_write], when the context is not owned. *)
Fixpoint socket_write (fuel : nat) (rs : list sock_read) (ws : list sock_write) (t : wrapper) (buf : list Z) : result pumped :=
  match buf with
  | [] => Done (Pumped PGAGROAL_TLS_OK [] [] t rs ws)
  | _ =>
      match fuel with
      | O => Running
      | S fuel =>
          let '(rc, written, t) := tls_write t buf in
          match rc with
          | PGAGROAL_TLS_OK => flush_then rs ws t (fun t ws => socket_write fuel rs ws t (drop written buf))
          | PGAGROAL_TLS_WANT_IO =>
              flush_then rs ws t (fun t ws => fill_then rs ws t (fun t rs => socket_write fuel rs ws t buf))
          | _ => Done (Pumped PGAGROAL_TLS_ERROR [] [] t rs ws)
          end
      end
  end.
End pump.
