(* ===== verification/TlsFacts.v ===== *)
(** * Facts about TLS records

    What one side seals the other opens, however the bytes arrive; a context that is stored in
    a slot and picked up again is the same; no nonce is used twice; and the records of full
    size, which the code neither writes nor reads. *)

From Stdlib Require Import Ascii.
From S2P Require Import Prelude Utf8 Wire Frames Message Tls.

Local Open Scope Z_scope.

(** What is documented of OpenSSL: a derived key has the length that was asked for, and a
    text that is sealed under a key and a nonce is opened under them. *)
Class tls_laws (L : tls_library) := {
  law_hkdf (hash : string) (secret info out : list Z) (n : nat) : hkdf L hash secret info n = Some out -> length out = n;
  law_seal (aead : Z) (key nonce aad text : list Z) (n : nat) (hash : string) :
    aead_lookup aead = Some (n, hash) -> length key = n -> length nonce = 12%nat ->
    exists ct tag, gcm_seal L aead key nonce aad text = Some (ct, tag) /\ length ct = length text /\ length tag = 16%nat /\
      gcm_open L aead key nonce aad ct tag = Some text }.

(** ** Numbers in bytes *)

Lemma byte_below (x : Z) : 0 <= x < 2 ^ 64 -> Z.lor (u64 (Z.shiftl (x / 256) 8)) (u8 x) = x.
Proof.
  intros Hx. assert (0 <= x / 256 < 2 ^ 56) by (split; [apply Z.div_pos; lia|apply Z.div_lt_upper_bound; lia]).
  rewrite wrapu_id by (unfold in_u; rewrite Z.shiftl_mul_pow2 by lia; lia).
  unfold wrapu. change (2 ^ 8) with 256. rewrite lor_shiftl by (try lia; pose proof (Z.mod_pos_bound x 256); lia).
  change (2 ^ 8) with 256. symmetry. apply Z.div_mod. lia.
Qed.

Lemma seq_bytes_value (s : Z) : 0 <= s < 2 ^ 64 -> seq_value (seq_bytes s) = s.
Proof.
  intros Hs. change (seq_bytes s) with (map (fun k => u8 (Z.shiftr s k)) [56; 48; 40; 32; 24; 16; 8; 0]). unfold seq_value. cbn [map fold_left].
  assert (Hstep : forall a k, a = k + 8 -> 0 <= k -> Z.lor (u64 (Z.shiftl (Z.shiftr s a) 8)) (u8 (Z.shiftr s k)) = Z.shiftr s k).
  { intros a k -> Hk. rewrite !Z.shiftr_div_pow2 by lia. pose proof (Z.pow_pos_nonneg 2 k ltac:(lia) ltac:(lia)).
    replace (s / 2 ^ (k + 8)) with (s / 2 ^ k / 256) by (rewrite Z.div_div, Z.pow_add_r by lia; done).
    apply byte_below. split; [by apply Z.div_pos; lia|]. apply Z.div_lt_upper_bound; [lia|]. nia. }
  assert (H64 : Z.shiftr s 64 = 0) by (rewrite Z.shiftr_div_pow2 by lia; by apply Z.div_small).
  rewrite <- H64 at 1.
  rewrite (Hstep 64 56), (Hstep 56 48), (Hstep 48 40), (Hstep 40 32), (Hstep 32 24), (Hstep 24 16), (Hstep 16 8), (Hstep 8 0) by lia.
  apply Z.shiftr_0_r.
Qed.

Lemma seq_bytes_inj (s s' : Z) : 0 <= s < 2 ^ 64 -> 0 <= s' < 2 ^ 64 -> seq_bytes s = seq_bytes s' -> s = s'.
Proof. intros H H' E. by rewrite <- (seq_bytes_value s H), <- (seq_bytes_value s' H'), E. Qed.

(** ** Nonces *)

Lemma length_nonce (iv : list Z) (s : Z) : length iv = 12%nat -> length (build_nonce iv s) = 12%nat.
Proof. intros H. unfold build_nonce. rewrite length_imap, length_take. lia. Qed.

Lemma nonce_inj (iv : list Z) (s s' : Z) :
  length iv = 12%nat -> 0 <= s < 2 ^ 64 -> 0 <= s' < 2 ^ 64 -> build_nonce iv s = build_nonce iv s' -> s = s'.
Proof.
  intros Hl Hs Hs' E. apply seq_bytes_inj; [done..|].
  destruct iv as [|b0 [|b1 [|b2 [|b3 [|b4 [|b5 [|b6 [|b7 [|b8 [|b9 [|b10 [|b11 [|]]]]]]]]]]]]]; try done.
  assert (Hn : forall x, build_nonce [b0; b1; b2; b3; b4; b5; b6; b7; b8; b9; b10; b11] x =
    [b0; b1; b2; b3] ++ zip_with Z.lxor [b4; b5; b6; b7; b8; b9; b10; b11] (seq_bytes x)) by done.
  rewrite !Hn in E. apply app_inj_1 in E as [_ E]; [|done]. unfold seq_bytes in *. cbn [map zip_with] in *.
  assert (Hx : forall b x y, Z.lxor b x = Z.lxor b y -> x = y).
  { intros b x y H. apply (f_equal (Z.lxor b)) in H. by rewrite <- !Z.lxor_assoc, Z.lxor_nilpotent, !Z.lxor_0_l in H. }
  injection E as E0 E1 E2 E3 E4 E5 E6 E7. apply Hx in E0, E1, E2, E3, E4, E5, E6, E7. congruence.
Qed.

Section facts.
Context (L : tls_library) {Laws : tls_laws L}.

(** A direction that was made from its secret, whatever its sequence number. *)
Definition dir_ok (aead : Z) (d : tls_record_dir) : Prop :=
  record_dir_init L aead (d_secret d) = Some (set_seq 0 d) /\ 0 <= d_seq d < 2 ^ 64.

Definition record_ok (r : tls_record) : Prop := dir_ok (r_aead r) (r_read r) /\ dir_ok (r_aead r) (r_write r).

Lemma dir_ok_lengths (aead : Z) (d : tls_record_dir) :
  dir_ok aead d ->
  (length (d_secret d) <= SECRET_SIZE)%nat /\ length (d_iv d) = 12%nat /\
  exists n hash, aead_lookup aead = Some (n, hash) /\ length (d_key d) = n.
Proof.
  intros [H _]. unfold record_dir_init in H. destruct (SECRET_SIZE <? length (d_secret d))%nat eqn:Es; [done|].
  apply Nat.ltb_ge in Es. destruct (aead_lookup aead) as [[n hash]|]; [|done]. cbn [mbind option_bind] in H.
  destruct (hkdf_expand_label L hash _ "key" n) as [key|] eqn:Ek; [|done]. cbn [mbind option_bind] in H.
  destruct (hkdf_expand_label L hash _ "iv" 12) as [iv|] eqn:Ei; [|done]. injection H as <- <-.
  apply law_hkdf in Ek, Ei. eauto 10.
Qed.

(** ** Contexts in a slot *)

Lemma import_export_dir (aead : Z) (d : tls_record_dir) (rest : list Z) :
  dir_ok aead d -> import_dir L aead (export_dir d ++ rest) = Some (d, rest).
Proof.
  intros Hd. destruct (dir_ok_lengths aead d Hd) as (Hl & _ & _). destruct Hd as [Hi Hs]. unfold SECRET_SIZE in *.
  unfold export_dir. cbn [app import_dir].
  rewrite (wrapu_id 8) by (unfold in_u; lia). rewrite Nat2Z.id. unfold SECRET_SIZE.
  assert (Hb : length (seq_bytes (d_seq d)) = 8%nat) by apply length_map.
  rewrite (proj2 (Nat.ltb_ge 48 _)), (proj2 (Nat.ltb_ge _ (_ + 8))) by (rewrite ?length_app; lia). cbn [orb].
  rewrite <- app_assoc, take_app_length, drop_app_length, Hi. cbn [mbind option_bind].
  rewrite (take_app_length' (seq_bytes (d_seq d)) rest 8) by exact Hb.
  rewrite seq_bytes_value by exact Hs.
  rewrite app_assoc, (drop_app_length' _ _ (length (d_secret d) + 8)) by (rewrite length_app; lia). by destruct d.
Qed.

Lemma record_export_import (r : tls_record) :
  record_ok r -> exists buf, record_export r TLS_CONTEXT_BUFFER_SIZE = Some buf /\ record_import L buf = Some r /\ len buf <= 116.
Proof.
  intros [Hrd Hwr]. destruct (dir_ok_lengths _ _ Hrd) as (L1 & _ & n & hash & Ea & _).
  destruct (dir_ok_lengths _ _ Hwr) as (L2 & _). unfold SECRET_SIZE in *.
  unfold record_export, TLS_CONTEXT_BUFFER_SIZE. rewrite (proj2 (Z.ltb_ge _ _)) by (unfold len; lia). eexists. split; [done|].
  assert (Hae : u8 (r_aead r) = r_aead r).
  { unfold aead_lookup in Ea. destruct (Z.eqb_spec (r_aead r) PGAGROAL_TLS_AEAD_AES_128_GCM) as [-> |]; [done|].
    destruct (Z.eqb_spec (r_aead r) PGAGROAL_TLS_AEAD_AES_256_GCM) as [-> |]; done. }
  rewrite Hae. split.
  - cbn [record_import]. change (negb (1 =? 1)) with false. cbv iota. rewrite import_export_dir by done. cbn [mbind option_bind].
    rewrite <- (app_nil_r (export_dir (r_write r))), import_export_dir by done. cbn [mbind option_bind]. by destruct r.
  - unfold len, export_dir. cbn [length]. rewrite length_app. cbn [length]. rewrite !length_app. unfold seq_bytes. rewrite !length_map. cbn [length]. lia.
Qed.

(** A TLS context that is stored in the slot of its connection fits there, and the process that
    picks it up has the same keys and goes on with the same sequence numbers. *)
Theorem context_parked (r : tls_record) (Hr : record_ok r) :
  exists buf, record_export r TLS_CONTEXT_BUFFER_SIZE = Some buf /\ record_import L buf = Some r /\ len buf <= 116.
Proof. by apply record_export_import. Qed.

(** ** Records *)

(** The reader of a stream that a writer seals. *)
Definition peer (w r : tls_record) : Prop :=
  r_aead w = r_aead r /\ d_key (r_write w) = d_key (r_read r) /\ d_iv (r_write w) = d_iv (r_read r) /\ d_seq (r_write w) = d_seq (r_read r).

Lemma header_length (n : Z) (rest : list Z) : 0 <= n < 2 ^ 16 -> body_length (record_header n ++ rest) = n.
Proof.
  intros Hn. change (Z.lor (Z.shiftl (u8 (Z.shiftr n 8)) 8) (Z.land n 0xff) = n).
  change 0xff with (Z.ones 8). rewrite Z.land_ones, Z.shiftr_div_pow2 by lia.
  assert (0 <= n / 2 ^ 8 < 2 ^ 8) by (split; [apply Z.div_pos; lia|apply Z.div_lt_upper_bound; lia]).
  rewrite wrapu_id by done. rewrite lor_shiftl by (try lia; apply Z.mod_pos_bound; lia). symmetry. apply Z.div_mod. lia.
Qed.

(** What a record is made of. *)
Lemma seal_spec (w w' : tls_record) (text rec : list Z) (cap : Z) :
  record_ok w -> record_seal L w text cap = Some (rec, w') ->
  exists ct tag, rec = record_header (len text + 17) ++ ct ++ tag /\ length ct = S (length text) /\ length tag = 16%nat /\
    len text < 16384 /\ w' = set_write (set_seq (u64 (d_seq (r_write w) + 1)) (r_write w)) w /\
    gcm_open L (r_aead w) (d_key (r_write w)) (build_nonce (d_iv (r_write w)) (d_seq (r_write w))) (record_header (len text + 17)) ct tag =
      Some (text ++ [0x17]).
Proof.
  intros [_ Hw] H. destruct (dir_ok_lengths _ _ Hw) as (_ & Hiv & n & hash & Ea & Hk). unfold record_seal in H. rewrite Ea in H. cbn [mbind option_bind] in H.
  unfold INNER_SIZE in H. destruct (Z.ltb_spec 16384 (len text + 1)); [done|]. cbn [orb] in H. destruct (Z.ltb_spec cap (5 + (len text + 1) + 16)); [done|].
  replace (len text + 1 + 16) with (len text + 17) in H by lia.
  destruct (law_seal (r_aead w) (d_key (r_write w)) (build_nonce (d_iv (r_write w)) (d_seq (r_write w))) (record_header (len text + 17))
    (text ++ [0x17]) n hash Ea Hk (length_nonce _ _ Hiv)) as (ct & tag & Es & Hct & Htag & Eo).
  rewrite Es in H. cbn [mbind option_bind] in H. injection H as <- <-. exists ct, tag.
  rewrite length_app in Hct. simpl in Hct. split_and!; [done|lia|done|lia|done|done].
Qed.

(** A text that is short enough is sealed. *)
Lemma seal_total (w : tls_record) (text : list Z) :
  record_ok w -> len text < 16384 -> exists rec w', record_seal L w text PGAGROAL_TLS_RECORD_MAX = Some (rec, w').
Proof.
  intros [_ Hw] Hl. destruct (dir_ok_lengths _ _ Hw) as (_ & Hiv & n & hash & Ea & Hk). unfold record_seal. rewrite Ea. cbn [mbind option_bind].
  unfold INNER_SIZE, PGAGROAL_TLS_RECORD_MAX. rewrite !(proj2 (Z.ltb_ge _ _)) by lia. cbn [orb].
  destruct (law_seal (r_aead w) (d_key (r_write w)) (build_nonce (d_iv (r_write w)) (d_seq (r_write w))) (record_header (len text + 1 + 16))
    (text ++ [0x17]) n hash Ea Hk (length_nonce _ _ Hiv)) as (ct & tag & Es & _). rewrite Es. eexists _, _. done.
Qed.

(** The other side opens it. *)
Lemma open_sealed (w w' r : tls_record) (text rec : list Z) (cap cap' : Z) :
  record_ok w -> peer w r -> record_seal L w text cap = Some (rec, w') -> len text <= cap' ->
  exists r', record_open L r rec cap' = (Some text, r') /\ peer w' r' /\ r_write r' = r_write r.
Proof.
  intros Hok (P1 & P2 & P3 & P4) Hs Hc. pose proof Hok as [_ Hw]. destruct (dir_ok_lengths _ _ Hw) as (_ & _ & n & hash & Ea & _).
  destruct (seal_spec _ _ _ _ _ Hok Hs) as (ct & tag & -> & Hct & Htag & Hl & -> & Eo).
  assert (Hlen : len (record_header (len text + 17) ++ ct ++ tag) = 5 + (len text + 17)).
  { unfold len in *. rewrite !length_app, Hct, Htag. simpl. lia. }
  unfold record_open. rewrite (proj2 (Z.ltb_ge _ _)) by (rewrite Hlen; unfold len; lia). rewrite <- P1, Ea. cbn [mbind option_bind].
  rewrite header_length by (unfold len in *; lia). rewrite Hlen. unfold INNER_SIZE. rewrite !(proj2 (Z.ltb_ge _ _)) by (unfold len in *; lia). cbn [orb].
  rewrite <- P2, <- P3, <- P4.
  replace (Z.to_nat (len text + 17 - 16)) with (length ct) by (unfold len; lia).
  rewrite (take_app_length' (record_header _) _ 5) by done. rewrite (drop_app_length' (record_header _) _ 5) by done.
  rewrite take_app_length, app_assoc, (drop_app_length' (record_header _ ++ ct) tag) by (rewrite length_app; simpl; lia).
  rewrite take_ge by lia. rewrite Eo. cbn [mbind option_bind]. rewrite rev_unit. cbn [strip_zeros]. change (0x17 =? 0) with false. cbv iota.
  change (0x17 =? 0x17) with true. cbn [andb]. rewrite (proj2 (Z.leb_le _ _)) by (unfold len in *; rewrite length_rev; lia).
  rewrite rev_involutive. eexists. split; [done|]. split; [|done]. done.
Qed.

(** ** The stream *)

(** The answers of a socket bring these bytes, in any pieces and with any interruptions. *)
Inductive sock_arrives : list sock_read -> list Z -> Prop :=
| sock_arrives_nil : sock_arrives [] []
| sock_arrives_intr rs d : sock_arrives rs d -> sock_arrives (SIntr :: rs) d
| sock_arrives_data b bs rs d : sock_arrives rs d -> sock_arrives (SData b bs :: rs) ((b :: bs) ++ d).

Lemma read_room_arrives (room : nat) (rs : list sock_read) (d : list Z) :
  sock_arrives rs d -> d <> [] -> (0 < room)%nat ->
  exists b bs rs' d', read_room room rs = Done (SData b bs, rs') /\ d = (b :: bs) ++ d' /\ sock_arrives rs' d' /\ (length (b :: bs) <= room)%nat.
Proof.
  intros H Hd Hr. induction H as [|rs d H IH|b bs rs d H IH]; [done|by apply IH|].
  cbn [read_room]. exists b, (take (room - 1) bs). eexists _, (drop (room - 1) bs ++ d). split; [done|]. split_and!.
  - cbn [app]. f_equal. by rewrite app_assoc, take_drop.
  - destruct (drop (room - 1) bs) as [|b' bs'] eqn:E; [done|]. by apply (sock_arrives_data b' bs').
  - simpl. rewrite length_take. lia.
Qed.

(** The length of a record, from its own header. *)
Lemma sealed_length (w w' : tls_record) (text rec rest : list Z) (cap : Z) :
  record_ok w -> record_seal L w text cap = Some (rec, w') ->
  len rec = len text + 22 /\ (5 <= length rec)%nat /\ len rec <= PGAGROAL_TLS_RECORD_MAX /\ body_length (rec ++ rest) = len rec - 5.
Proof.
  intros Hok Hs. destruct (seal_spec _ _ _ _ _ Hok Hs) as (ct & tag & -> & Hct & Htag & Hl & _).
  assert (E : len (record_header (len text + 17) ++ ct ++ tag) = len text + 22)
    by (unfold len in *; rewrite !length_app, Hct, Htag; simpl; lia).
  unfold PGAGROAL_TLS_RECORD_MAX. split_and!; [done|rewrite length_app; simpl; lia|lia|].
  rewrite <- app_assoc, header_length by (unfold len in *; lia). lia.
Qed.

(** A buffer that starts with a record, and one that is the start of a record. *)
Lemma frame_record (w w' : tls_record) (text rec rest : list Z) (cap : Z) :
  record_ok w -> record_seal L w text cap = Some (rec, w') -> tls_frame (rec ++ rest) = Some (Some rec).
Proof.
  intros Hok Hs. destruct (sealed_length _ _ _ _ rest _ Hok Hs) as (E1 & E2 & E3 & E4). unfold tls_frame. rewrite E4.
  assert (len (rec ++ rest) = len rec + len rest) as -> by (unfold len; rewrite length_app; lia).
  assert (0 <= len rest) by (unfold len; lia). assert (5 <= len rec) by (unfold len; lia).
  rewrite !(proj2 (Z.ltb_ge _ _)) by lia. replace (5 + (len rec - 5)) with (len rec) by lia. unfold len. by rewrite Nat2Z.id, take_app_length.
Qed.

Lemma frame_partial (w w' : tls_record) (text rec part more : list Z) (cap : Z) :
  record_ok w -> record_seal L w text cap = Some (rec, w') -> rec = part ++ more -> more <> [] -> tls_frame part = Some None.
Proof.
  intros Hok Hs -> Hm. destruct (sealed_length _ _ _ _ [] _ Hok Hs) as (E1 & E2 & E3 & E4). unfold tls_frame.
  destruct (Z.ltb_spec (len part) 5) as [Hlt|Hge]; [done|].
  assert (Hb : body_length part = len (part ++ more) - 5).
  { rewrite <- E4, app_nil_r. unfold body_length. unfold len in Hge.
    rewrite !lookup_total_app_l by lia. done. }
  assert (Hlen : len (part ++ more) = len part + len more) by (unfold len; rewrite length_app; lia).
  assert (0 < len more) by (unfold len; destruct more; [done|simpl; lia]).
  rewrite Hb, Hlen in *. rewrite (proj2 (Z.ltb_ge _ _)), (proj2 (Z.ltb_lt _ _)) by lia. done.
Qed.

(** A record that is in the buffer. *)
Lemma owned_read_ready (fuel : nat) (rs : list sock_read) (t : owned) (w w' : tls_record) (text rec rest : list Z) (cap' cap : Z) :
  record_ok w -> peer w (o_record t) -> record_seal L w text cap' = Some (rec, w') -> len text <= cap -> o_rbuf t = rec ++ rest ->
  exists r', owned_read_loop L fuel rs t cap = Done (PGAGROAL_TLS_OK, text, Owned r' rest, rs) /\ peer w' r' /\ r_write r' = r_write (o_record t).
Proof.
  intros Hok Hp Hs Hc Hb. destruct (open_sealed w w' (o_record t) text rec cap' cap Hok Hp Hs Hc) as (r' & Eo & Hp' & Hw').
  exists r'. split; [|done]. destruct fuel; cbn [owned_read_loop]; rewrite Hb, (frame_record w w' text rec rest cap' Hok Hs), Eo;
    by rewrite drop_app_length.
Qed.

(** One record is read from what is in the buffer and what arrives. *)
Lemma owned_read_record (fuel : nat) (rs : list sock_read) (t : owned) (w w' : tls_record) (text rec d rest : list Z) (cap' cap : Z) :
  record_ok w -> peer w (o_record t) -> record_seal L w text cap' = Some (rec, w') -> len text <= cap ->
  sock_arrives rs d -> o_rbuf t ++ d = rec ++ rest -> (length rec <= fuel + length (o_rbuf t))%nat ->
  exists r' rs' d' rbuf', owned_read_loop L fuel rs t cap = Done (PGAGROAL_TLS_OK, text, Owned r' rbuf', rs') /\ peer w' r' /\
    r_write r' = r_write (o_record t) /\ sock_arrives rs' d' /\ rbuf' ++ d' = rest.
Proof.
  intros Hok Hp Hs Hc. revert rs t d Hp. induction fuel as [|fuel IH]; intros rs t d Hp Hrs Hd Hf.
  all: apply app_eq_inv in Hd as [(k & E1 & E2)|(k & E1 & E2)].
  - destruct (owned_read_ready 0 rs t w w' text rec k cap' cap Hok Hp Hs Hc E1) as (r' & E & Hp' & Hw').
    eexists r', rs, d, k. by rewrite E2.
  - assert (k = []) as -> by (rewrite E1, length_app in Hf; destruct k; [done|simpl in Hf; lia]). rewrite app_nil_r in E1.
    destruct (owned_read_ready 0 rs t w w' text rec [] cap' cap Hok Hp Hs Hc ltac:(by rewrite app_nil_r)) as (r' & E & Hp' & Hw').
    eexists r', rs, d, []. by simpl in E2.
  - destruct (owned_read_ready (S fuel) rs t w w' text rec k cap' cap Hok Hp Hs Hc E1) as (r2 & E3 & Hp2 & Hw2). eexists r2, rs, d, k. by rewrite E2.
  - destruct (decide (k = [])) as [->|Hk].
    { rewrite app_nil_r in E1. destruct (owned_read_ready (S fuel) rs t w w' text rec [] cap' cap Hok Hp Hs Hc ltac:(by rewrite app_nil_r)) as (r' & E & Hp' & Hw').
      eexists r', rs, d, []. by simpl in E2. }
    destruct (sealed_length _ _ _ _ [] _ Hok Hs) as (_ & _ & Hmax & _).
    assert (Hlen : len rec = len (o_rbuf t) + len k) by (rewrite E1; unfold len; rewrite length_app; lia).
    assert (0 < len k) by (unfold len; destruct k; [done|simpl; lia]).
    cbn [owned_read_loop]. rewrite (frame_partial w w' text rec (o_rbuf t) k cap' Hok Hs E1 Hk). cbv zeta.
    rewrite (proj2 (Z.leb_gt _ _)) by lia.
    destruct (read_room_arrives (Z.to_nat (PGAGROAL_TLS_RECORD_MAX - len (o_rbuf t))) rs d Hrs) as (b & bs & rs1 & d1 & E & Ed & Hrs1 & Hl); [by rewrite E2; destruct k|lia|].
    rewrite E. destruct (IH rs1 (Owned (o_record t) (o_rbuf t ++ b :: bs)) d1 Hp Hrs1) as (r' & rs' & d' & rbuf' & ER & HP); [..|by eauto 10].
    + cbn [o_rbuf]. rewrite <- app_assoc, <- Ed, E2, E1, app_assoc. done.
    + cbn [o_rbuf]. rewrite length_app. simpl. lia.
Qed.

Lemma socket_write_all_sent (ws ws' : list sock_write) (buf sent : list Z) :
  socket_write_all ws buf = Done (true, sent, ws') -> sent = buf.
Proof.
  revert buf sent. induction ws as [|[n| |] ws IH]; intros [|b buf] sent; cbn [socket_write_all]; try (by intros [= <- _]).
  - destruct (socket_write_all ws _) as [[[ok s] w]| |] eqn:E; try done. intros [= -> <- ->]. apply IH in E as ->. apply take_drop.
  - apply IH.
Qed.

Lemma seal_ok (w w' : tls_record) (text rec : list Z) (cap : Z) : record_ok w -> record_seal L w text cap = Some (rec, w') -> record_ok w'.
Proof.
  intros Hok Hs. destruct (seal_spec _ _ _ _ _ Hok Hs) as (ct & tag & _ & _ & _ & _ & -> & _). destruct Hok as [Hr [Hi Hq]].
  split; [done|]. split; [by destruct w as [a r []]|]. cbn [set_write r_write set_seq d_seq]. by apply wrapu_range.
Qed.

(** A short text is written as one record. *)
Lemma owned_write_short (ws ws' : list sock_write) (t t' : owned) (text sent : list Z) (st : tls_status) :
  record_ok (o_record t) -> text <> [] -> len text < 16384 -> owned_write L ws t text = Done (st, sent, t', ws') -> st = PGAGROAL_TLS_OK ->
  exists rec, record_seal L (o_record t) text PGAGROAL_TLS_RECORD_MAX = Some (rec, o_record t') /\ sent = rec.
Proof.
  intros Hok Hne Hl H ->. unfold owned_write in H. destruct text as [|b text]; [done|]. cbn [owned_write_loop] in H.
  rewrite take_ge in H by (unfold len in Hl; lia). rewrite drop_ge in H by (unfold len in Hl; lia).
  destruct (record_seal L (o_record t) (b :: text) PGAGROAL_TLS_RECORD_MAX) as [[rec r]|]; [|done]. exists rec.
  destruct (socket_write_all ws rec) as [[[[] s] w]| |] eqn:E; try done. apply socket_write_all_sent in E as ->.
  cbn [owned_write_loop] in H. destruct (length (b :: text)); simpl in H; injection H as <- <- _; by rewrite app_nil_r.
Qed.

(** The texts that one side writes, and as many reads of the other. *)
Fixpoint write_texts (ws : list sock_write) (t : owned) (texts : list (list Z)) : result (bool * list Z * owned) :=
  match texts with
  | [] => Done (true, [], t)
  | x :: texts =>
      match owned_write L ws t x with
      | Done (PGAGROAL_TLS_OK, sent, t, ws) =>
          match write_texts ws t texts with
          | Done (ok, sent', t) => Done (ok, sent ++ sent', t)
          | Undefined => Undefined
          | Running => Running
          end
      | Done (_, sent, t, _) => Done (false, sent, t)
      | Undefined => Undefined
      | Running => Running
      end
  end.

Fixpoint read_texts (n : nat) (rs : list sock_read) (t : owned) (cap : Z) : result (bool * list (list Z) * owned) :=
  match n with
  | O => Done (true, [], t)
  | S n =>
      match owned_read L rs t cap with
      | Done (PGAGROAL_TLS_OK, x, t, rs) =>
          match read_texts n rs t cap with
          | Done (ok, l, t) => Done (ok, x :: l, t)
          | Undefined => Undefined
          | Running => Running
          end
      | Done (_, _, t, _) => Done (false, [], t)
      | Undefined => Undefined
      | Running => Running
      end
  end.

(** C9: the texts of up to 16383 bytes that one side writes to a connection whose records it seals
    itself are read on the other side one by one and unchanged, however the bytes are cut on the
    way; afterwards both sides agree on the next record. *)
Theorem tls_stream (ws : list sock_write) (rs : list sock_read) (w w' : owned) (r : tls_record) (rbuf d : list Z) (texts : list (list Z)) (sent : list Z) (cap : Z)
  (Hok : record_ok (o_record w)) (Hp : peer (o_record w) r) (Ht : Forall (fun x => x <> [] /\ len x < 16384 /\ len x <= cap) texts)
  (Hw : write_texts ws w texts = Done (true, sent, w')) (Hrs : sock_arrives rs d) (Hd : rbuf ++ d = sent) :
  exists r', read_texts (length texts) rs (Owned r rbuf) cap = Done (true, texts, Owned r' []) /\ peer (o_record w') r'.
Proof.
  revert ws rs w r rbuf d sent Hok Hp Hw Hrs Hd. induction Ht as [|x texts (Hx & Hl & Hc) _ IH]; intros ws rs w r rbuf d sent Hok Hp Hw Hrs Hd.
  { injection Hw as <- <-. apply app_nil in Hd as [-> _]. by exists r. }
  cbn [write_texts] in Hw. destruct (owned_write L ws w x) as [[[[[] s1] w1] ws1]| |] eqn:Ew; try done.
  destruct (write_texts ws1 w1 texts) as [[[ok s2] w2]| |] eqn:Er; try done. injection Hw as -> <- ->.
  destruct (owned_write_short _ _ _ _ _ _ _ Hok Hx Hl Ew eq_refl) as (rec & Es & ->).
  destruct (sealed_length _ _ _ _ [] _ Hok Es) as (_ & _ & Hmax & _).
  destruct (owned_read_record (Z.to_nat PGAGROAL_TLS_RECORD_MAX) rs (Owned r rbuf) _ _ _ _ d s2 _ cap Hok Hp Es Hc Hrs Hd) as
    (r1 & rs1 & d1 & rb1 & E1 & Hp1 & _ & Hrs1 & Hd1); [unfold len in Hmax; lia|].
  cbn [read_texts length]. unfold owned_read. rewrite E1.
  destruct (IH ws1 rs1 w1 r1 rb1 d1 s2 (seal_ok _ _ _ _ _ Hok Es) Hp1 Er Hrs1 Hd1) as (r' & E2 & Hp2).
  unfold owned_read in E2. rewrite E2. eauto.
Qed.

(** ** Nonces *)

(** What happens to a context: a record is sealed, or it is stored in a slot and picked up. *)
Inductive tls_op := OpSeal (text : list Z) | OpPark.

(** The nonces that are used. *)
Fixpoint run_ops (r : tls_record) (ops : list tls_op) : option (list (list Z) * tls_record) :=
  match ops with
  | [] => Some ([], r)
  | OpSeal text :: ops =>
      '(_, r') ← record_seal L r text PGAGROAL_TLS_RECORD_MAX;
      '(ns, r'') ← run_ops r' ops;
      Some (build_nonce (d_iv (r_write r)) (d_seq (r_write r)) :: ns, r'')
  | OpPark :: ops => buf ← record_export r TLS_CONTEXT_BUFFER_SIZE; r' ← record_import L buf; run_ops r' ops
  end.

Lemma run_ops_nonces (ops : list tls_op) (r r' : tls_record) (ns : list (list Z)) :
  record_ok r -> run_ops r ops = Some (ns, r') -> d_seq (r_write r) + Z.of_nat (length ops) < 2 ^ 64 ->
  NoDup ns /\ forall n, n ∈ ns -> exists s, d_seq (r_write r) <= s < 2 ^ 64 /\ n = build_nonce (d_iv (r_write r)) s.
Proof.
  revert r ns. induction ops as [|[text|] ops IH]; intros r ns Hok H Hlt; cbn [run_ops] in H.
  - injection H as <- _. split; [constructor|]. by intros n ?%not_elem_of_nil.
  - destruct (record_seal L r text PGAGROAL_TLS_RECORD_MAX) as [[rec r1]|] eqn:Es; [|done]. cbn [mbind option_bind] in H.
    destruct (run_ops r1 ops) as [[ns1 r2]|] eqn:Er; [|done]. injection H as <- ->. cbn [length] in Hlt.
    pose proof Hok as [_ [Hi Hq]]. pose proof (seal_ok _ _ _ _ _ Hok Es) as Hok1.
    assert (E1 : d_iv (r_write r1) = d_iv (r_write r) /\ d_seq (r_write r1) = d_seq (r_write r) + 1).
    { destruct (seal_spec _ _ _ _ _ Hok Es) as (ct & tag & _ & _ & _ & _ & -> & _). cbn [set_write set_seq r_write d_iv d_seq].
      split; [done|]. apply wrapu_id. unfold in_u. lia. }
    destruct E1 as [Ei Eq]. destruct (IH r1 ns1 Hok1 Er ltac:(lia)) as [Hnd Hns]. rewrite Ei, Eq in Hns.
    destruct (dir_ok_lengths _ _ (proj2 Hok)) as (_ & Hiv & _). split.
    + constructor; [|done]. intros Hin. destruct (Hns _ Hin) as (s & Hs & E). apply nonce_inj in E; [lia|done|lia|lia].
    + intros n [-> |Hin]%elem_of_cons; [exists (d_seq (r_write r)); split; [lia|done]|].
      destruct (Hns n Hin) as (s & Hs & ->). exists s. split; [lia|done].
  - destruct (record_export_import r Hok) as (buf & E1 & E2 & _). rewrite E1 in H. cbn [mbind option_bind] in H. rewrite E2 in H. cbn [mbind option_bind] in H.
    cbn [length] in Hlt. apply (IH r ns Hok H). lia.
Qed.

(** C10: no two records of a connection are sealed with the same nonce, also when the context moves between
    processes through the slot in between. *)
Theorem nonces_never_reused (r r' : tls_record) (ops : list tls_op) (ns : list (list Z))
  (Hok : record_ok r) (Hrun : run_ops r ops = Some (ns, r')) (Hlt : d_seq (r_write r) + Z.of_nat (length ops) < 2 ^ 64) : NoDup ns.
Proof. by destruct (run_ops_nonces ops r r' ns Hok Hrun Hlt). Qed.

(** ** Records of full size *)

Lemma seal_full (r : tls_record) (text : list Z) (cap : Z) : 16384 <= len text -> record_seal L r text cap = None.
Proof.
  intros H. unfold record_seal. destruct (aead_lookup _); [|done]. cbn [mbind option_bind]. unfold INNER_SIZE.
  rewrite (proj2 (Z.ltb_lt _ _)) by lia. done.
Qed.

Lemma owned_write_loop_refused (fuel : nat) (r : tls_record) (ws : list sock_write) (buf : list Z) :
  buf <> [] -> record_seal L r (take (Z.to_nat 16384) buf) PGAGROAL_TLS_RECORD_MAX = None ->
  owned_write_loop L (S fuel) ws r buf = Done (PGAGROAL_TLS_ERROR, [], r, ws).
Proof. destruct buf as [|b buf]; [done|]. intros _. cbn [owned_write_loop]. generalize (Z.to_nat 16384). intros n Hs. by rewrite Hs. Qed.

Lemma owned_write_refused (t : owned) (ws : list sock_write) (buf : list Z) :
  16384 <= len buf -> owned_write L ws t buf = Done (PGAGROAL_TLS_ERROR, [], t, ws).
Proof.
  intros Hbuf. assert (Hne : buf <> []) by (intros ->; unfold len in Hbuf; simpl in Hbuf; lia).
  assert (Hs : record_seal L (o_record t) (take (Z.to_nat 16384) buf) PGAGROAL_TLS_RECORD_MAX = None).
  { apply seal_full. unfold len in *. rewrite length_take. lia. }
  unfold owned_write. rewrite (owned_write_loop_refused _ _ ws buf Hne Hs). by destruct t.
Qed.

Lemma record_open_refused (r : tls_record) (rec : list Z) (cap : Z) :
  16384 + 16 < body_length rec -> record_open L r rec cap = (None, r).
Proof.
  intros H. unfold record_open. destruct (len rec <? _); [done|]. destruct (aead_lookup _); [|done]. cbn [mbind option_bind]. unfold INNER_SIZE.
  rewrite (proj2 (Z.ltb_lt 16384 _)) by lia. rewrite !orb_true_r. done.
Qed.

(** C28: a write of 16384 bytes or more fails and sends nothing: its first chunk has as many bytes as the
    buffer in which the type of the record is to be put behind them.  A record with as much text
    as TLS allows, which the other side may send, is refused as well. *)
Theorem full_records_refused (t : owned) (ws : list sock_write) (buf rec : list Z) (cap : Z)
  (Hbuf : 16384 <= len buf) (Hrec : body_length rec = 16384 + 1 + 16) :
  owned_write L ws t buf = Done (PGAGROAL_TLS_ERROR, [], t, ws) /\ record_open L (o_record t) rec cap = (None, o_record t).
Proof. split; [by apply owned_write_refused|apply record_open_refused; lia]. Qed.

(** Two records that arrive together: the second one is in the buffer after the first read, and nothing is left
    in the socket that would announce it. *)
Lemma second_record_waits (w w1 w2 r : tls_record) (text1 text2 rec1 rec2 : list Z) (b : Z) (bs : list Z) (cap cap' : Z) :
  record_ok w -> peer w r -> record_seal L w text1 cap' = Some (rec1, w1) -> record_seal L w1 text2 cap' = Some (rec2, w2) ->
  len text1 <= cap -> rec1 ++ rec2 = b :: bs -> len (b :: bs) <= PGAGROAL_TLS_RECORD_MAX ->
  exists r', owned_read L [SData b bs] (Owned r []) cap = Done (PGAGROAL_TLS_OK, text1, Owned r' rec2, []).
Proof.
  intros Hok Hp H1 H2 Hc E Hl. unfold owned_read. assert (exists f, Z.to_nat PGAGROAL_TLS_RECORD_MAX = S f) as [f ->] by (by eexists; vm_compute).
  cbn [owned_read_loop o_rbuf]. change (tls_frame []) with (Some (@None (list Z))). cbv zeta iota. change (len []) with 0. rewrite Z.sub_0_r.
  change (PGAGROAL_TLS_RECORD_MAX <=? 0) with false. cbv iota. cbn [read_room].
  assert (Hbs : (length bs <= Z.to_nat PGAGROAL_TLS_RECORD_MAX - 1)%nat) by (unfold len in Hl; simpl in Hl; lia).
  rewrite take_ge, drop_ge by done. cbn [o_record]. rewrite app_nil_l.
  destruct (owned_read_ready f [] (Owned r (b :: bs)) w w1 text1 rec1 rec2 cap' cap Hok Hp H1 Hc (eq_sym E)) as (r' & -> & _). eauto.
Qed.
End facts.

(** ** The pump *)

Section pump_facts.
Context (E : engine).

Lemma take_pos_nil (n : nat) (l : list Z) : (0 < n)%nat -> take n l = [] -> l = [].
Proof. destruct n, l; [lia|lia|done|done]. Qed.

(** What is queued is sent, in order and once; nothing is left. *)
Lemma flush_loop_sent (fuel : nat) (ws ws' : list sock_write) (t t' : wrapper E) (sent : list Z) :
  flush_loop E fuel ws t = Done (true, sent, t', ws') ->
  sent = w_wbio E t /\ t' = Wrapper E (w_ssl E t) (w_rbio E t) [] (w_complete E t).
Proof.
  revert ws t sent. induction fuel as [|fuel IH]; intros ws t sent; cbn [flush_loop]; unfold tls_drain.
  all: assert (Hn : (0 < Z.to_nat 16384)%nat) by lia; revert Hn; generalize (Z.to_nat 16384); intros n Hn.
  all: destruct (take n (w_wbio E t)) as [|b bs] eqn:Et; [apply (take_pos_nil n _ Hn) in Et; rewrite Et, drop_nil; by intros [= <- <- _]|try done].
  destruct (socket_write_all ws (b :: bs)) as [[[[] s1] ws1]| |] eqn:Ew; try done. apply socket_write_all_sent in Ew as ->.
  destruct (flush_loop E fuel ws1 _) as [[[[[] s2] t2] ws2]| |] eqn:Ef; try done. intros [= <- <- <-].
  apply IH in Ef as [-> ->]. split; [|done]. cbn [w_wbio]. by rewrite app_comm_cons, <- Et, take_drop.
Qed.

(** A handshake that succeeds is complete, and the last flight has been sent. *)
Lemma socket_handshake_complete (fuel : nat) (rs : list sock_read) (ws : list sock_write) (t : wrapper E) (p : pumped E) :
  socket_handshake E fuel rs ws t = Done p -> pu_status E p = PGAGROAL_TLS_OK ->
  w_complete E (pu_tls E p) = true /\ w_wbio E (pu_tls E p) = [].
Proof.
  revert rs ws t p. induction fuel as [|fuel IH]; intros rs ws t p H Hst; [done|]. cbn [socket_handshake] in H.
  assert (Hc : forall rc t1, tls_handshake E t = (rc, t1) -> rc = PGAGROAL_TLS_OK -> w_complete E t1 = true).
  { unfold tls_handshake. intros rc t1 Ht ->. destruct (w_complete E t) eqn:Ec; [by injection Ht as <-|].
    destruct (ssl_do_handshake E _ _) as [[[[] s] rb] out]; by simplify_eq/=. }
  destruct (tls_handshake E t) as [rc t1]. unfold flush_then in H.
  destruct (socket_flush E ws t1) as [[[[[] sent] t2] ws2]| |] eqn:Ef; try done; [|by injection H as <-].
  apply flush_loop_sent in Ef as [-> ->]. unfold sent_before in H. destruct rc; simpl in H.
  - injection H as <-. simpl. split; [by apply (Hc _ _ eq_refl)|done].
  - destruct (fill_then E _ _ _ _) as [q| |] eqn:Eq; try done. injection H as <-. cbn [pu_status pu_tls] in *. unfold fill_then in Eq.
    destruct (socket_fill E rs _) as [[[[] t3] rs3]| |]; try done; [by apply (IH _ _ _ _ Eq)|by injection Eq as <-].
  - by injection H as <-.
  - by injection H as <-.
Qed.
End pump_facts.

(** ** Witnesses *)

(** A library that hides nothing, which is enough for the laws. *)
Definition plain_tls : tls_library :=
  TlsLibrary (fun _ _ _ n => Some (replicate n 7)) (fun _ _ _ _ text => Some (text, replicate 16 0)) (fun _ _ _ _ ct _ => Some ct).

#[global] Instance plain_tls_laws : tls_laws plain_tls.
Proof.
  split.
  - intros hash secret info out n [= <-]. apply length_replicate.
  - intros aead key nonce aad text n hash _ _ _. exists text, (replicate 16 0). done.
Qed.

Definition plain_dir (secret : list Z) : tls_record_dir := TlsRecordDir secret (replicate 16 7) (replicate 12 7) 5.
Definition plain_record : tls_record := TlsRecord 1 (plain_dir [1; 2; 3]) (plain_dir [4; 5]).
Definition plain_reader : tls_record := TlsRecord 1 (plain_dir [4; 5]) (plain_dir [1; 2; 3]).

Lemma plain_record_ok : record_ok plain_tls plain_record.
Proof. split; split; [done|cbn; lia|done|cbn; lia]. Qed.

Lemma context_parked_witness :
  exists buf, record_export plain_record TLS_CONTEXT_BUFFER_SIZE = Some buf /\ record_import plain_tls buf = Some plain_record /\ len buf <= 116.
Proof. exact (context_parked plain_tls plain_record plain_record_ok). Defined.

(** Two texts, in two records of 24 and 23 bytes. *)
Definition two_texts : list (list Z) := [[81; 9]; [90]].
Definition two_records : list Z :=
  [0x17; 3; 3; 0; 19; 81; 9; 0x17] ++ replicate 16 0 ++ [0x17; 3; 3; 0; 18; 90; 0x17] ++ replicate 16 0.
Definition two_reads : list sock_read :=
  [SData 0x17 [3]; SIntr; SData 3 (drop 3 (take 40 two_records)); SData 0 (drop 41 two_records)].

Lemma tls_stream_witness :
  exists r', read_texts plain_tls (length two_texts) two_reads (Owned plain_reader []) 100 = Done (true, two_texts, Owned r' []) /\
    peer (TlsRecord 1 (plain_dir [1; 2; 3]) (set_seq 7 (plain_dir [4; 5]))) r'.
Proof.
  refine (tls_stream plain_tls [SWritten 10; SWIntr; SWritten 100; SWritten 50] two_reads (Owned plain_record [])
    (Owned (TlsRecord 1 (plain_dir [1; 2; 3]) (set_seq 7 (plain_dir [4; 5]))) []) plain_reader [] two_records two_texts two_records 100
    plain_record_ok _ _ _ _ _).
  - done.
  - repeat constructor; done.
  - vm_compute. reflexivity.
  - refine (sock_arrives_data 0x17 [3] _ _ (sock_arrives_intr _ _ (sock_arrives_data _ _ _ _ (sock_arrives_data _ _ _ _ sock_arrives_nil)))).
  - done.
Defined.

Lemma nonces_never_reused_witness :
  exists ns r', run_ops plain_tls plain_record [OpSeal [1]; OpPark; OpSeal [2]; OpSeal []] = Some (ns, r') /\ length ns = 3%nat /\ NoDup ns.
Proof.
  eexists _, _. split; [reflexivity|]. split; [reflexivity|].
  refine (nonces_never_reused plain_tls plain_record _ [OpSeal [1]; OpPark; OpSeal [2]; OpSeal []] _ plain_record_ok _ _); [reflexivity|cbn; lia].
Defined.

Lemma full_records_refused_witness :
  owned_write plain_tls [] (Owned plain_record []) (replicate (Z.to_nat 20000) 65) = Done (PGAGROAL_TLS_ERROR, [], Owned plain_record [], []) /\
  record_open plain_tls plain_record [0x17; 3; 3; 64; 17] 65536 = (None, plain_record).
Proof.
  apply (full_records_refused plain_tls (Owned plain_record []) [] (replicate (Z.to_nat 20000) 65) [0x17; 3; 3; 64; 17] 65536).
  - unfold len. rewrite length_replicate. lia.
  - reflexivity.
Defined.
