(* ===== verification/AuthQuery.v ===== *)
(** * The query for a password ([libpgagroal/security.c])

    With [auth_query] pgagroal connects to the server as the superuser, asks for the
    stored password of the user, and lets the client prove that it knows it.  One
    connection at a time: [su_connection] is taken with a compare and exchange
    ([SuAcquire]) and stored free again ([SuRelease]). *)

From Stdlib Require Import Ascii.
From stdpp Require Import pretty.
From S2P Require Import Prelude Wire Frames Message Text Config Pool Hba Scram.

Local Open Scope Z_scope.

(** [establish_client_tls_connection]: whether the connection is encrypted afterwards; the
    callers do not look at the status.  [tls] is that of the server, the set up of the TLS
    connection is a call. *)
Definition establish_client_tls_connection (p : peer) (tls : bool) : conv bool :=
  if negb tls then Ret false
  else
    ok <- write p false (create_ssl_message false) ;;
    if negb ok then Ret false
    else
      msg <- ask (ReadMsg p false) ;;
      match msg with
      | None => Ret false
      | Some msg => if m_kind msg =? chr "S" then ask (ConnectTls p) else Ret false
      end.

(** The fields of a stored password.  When there is no third part, [strtok] goes on in the
    second one. *)
Record shadow := Shadow {
  sh_iterations : option (list Z);
  sh_salt : option (list Z);
  sh_stored_key : option (list Z);
  sh_server_key : option (list Z) }.

Definition split_shadow (s : list Z) : option (list Z) * shadow :=
  let parts := tokens (chr "$") (upto_nul s) [] in
  let t1 := match parts !! 1%nat with Some s1 => tokens (chr ":") s1 [] | None => [] end in
  let t2 := match parts !! 2%nat with Some s2 => tokens (chr ":") s2 [] | None => drop 2 t1 end in
  (parts !! 0%nat, Shadow (t1 !! 0%nat) (t1 !! 1%nat) (t2 !! 0%nat) (t2 !! 1%nat)).

Section query.
Context (K : crypto).

(** The last messages of [pgagroal_scram_client_auth]. *)
Definition client_auth_final (p : peer) (tls : bool) (password salt : list Z) (iteration : Z)
  (bare first wo_proof : list Z) : conv (Z * option message) :=
  msg <- ask (ReadComplete p tls) ;;
  match msg with
  | None => Ret (AUTH_ERROR, None)
  | Some msg =>
      if SECURITY_BUFFER_SIZE <? m_length msg then Ret (AUTH_ERROR, None)
      else if m_kind msg =? chr "E" then Ret (AUTH_BAD_PASSWORD, None)
      else
        sasl_final <- loop (extract_message (S (length (m_data msg))) (chr "R") msg) ;;
        match sasl_final with
        | None => Ret (AUTH_ERROR, None)
        | Some sasl_final =>
            if m_length sasl_final <=? 11 then Ret (AUTH_ERROR, None)
            else
              match server_signature K (Some password) salt iteration [] bare first wo_proof with
              | None => Ret (AUTH_ERROR, None)
              | Some signature =>
                  if negb (bool_decide (base64_decode K (drop 11 (m_data sasl_final)) = signature))
                  then Ret (AUTH_BAD_PASSWORD, None)
                  else Ret (AUTH_SUCCESS, Some msg)
              end
        end
  end.

(** [pgagroal_scram_client_auth], with the last message of the server. *)
Definition scram_client_auth (p : peer) (tls : bool) (password : list Z) : conv (Z * option message) :=
  let error := Ret (AUTH_ERROR, None) in
  match sasl_prep (Some password) with
  | None => error
  | Some password =>
      client_nounce <- generate_nounce K ;;
      client_nounce <- need client_nounce ;;
      response <- need (create_auth_scram256_response false client_nounce) ;;
      ok <- ask (WriteMsg p tls response) ;;
      if negb ok then error
      else
        msg <- ask (ReadComplete p tls) ;;
        match msg with
        | None => error
        | Some msg =>
            if SECURITY_BUFFER_SIZE <? m_length msg then error
            else if (m_data msg !!! O =? chr "E") || (m_length msg <=? 9) then error
            else
              match read_server_first K msg with
              | None => error
              | Some sf =>
                  let wo_proof := snprintf 58 (str "c=biws,r=" ++ sf_nounce sf) in
                  let bare := drop 26 (m_data response) in
                  let first := drop 9 (m_data msg) in
                  match client_proof K password (sf_salt sf) (sf_iteration sf) bare first wo_proof with
                  | None => error
                  | Some proof =>
                      m <- need (create_auth_scram256_continue_response false wo_proof (base64_encode K proof)) ;;
                      ok <- ask (WriteMsg p tls m) ;;
                      if negb ok then error
                      else client_auth_final p tls password (sf_salt sf) (sf_iteration sf) bare first wo_proof
                  end
              end
        end
  end.

(** The query of [auth_query_get_password]; the name is copied as it is. *)
Definition password_message (username : list Z) : option message :=
  let size := 53 + len username in
  b ← put_byte 0 (chr "Q") (zeroed size);
  b ← put_int32 false 1 (size - 1) b;
  b ← put_string 5 (str "SELECT * FROM public.pgagroal_get_password('") b;
  b ← put_string 49 username b;
  b ← put_string (49 + len username) (str "');") b;
  Some (Message (chr "Q") size b).

(** The value of the only column of the first row. *)
Definition read_password (tmsg : message) : conv (option (list Z)) :=
  dmsg <- loop (extract_message (S (length (m_data tmsg))) (chr "D") tmsg) ;;
  match dmsg with
  | None => Ret None
  | Some dmsg => Ret (if m_length dmsg <? 11 then None else Some (upto_nul (drop 11 (m_data dmsg))))
  end.

Definition auth_query_get_password (tls : bool) (username : list Z) : conv (option (list Z)) :=
  ok <- write Superuser tls (password_message username) ;;
  if negb ok then Ret None
  else
    tmsg <- ask (ReadMsg Superuser tls) ;;
    match tmsg with
    | None => Ret None
    | Some tmsg => read_password tmsg
    end.

(** [auth_query_get_connection] once the connection is there: the startup of the superuser
    and its SCRAM exchange. *)
Definition su_login (tls : bool) (su : user) (database : list Z) : conv Z :=
  ok <- write Superuser tls (create_startup_message false (str (u_username su)) database) ;;
  if negb ok then Ret AUTH_ERROR
  else
    msg <- ask (ReadMsg Superuser tls) ;;
    match msg with
    | None => Ret AUTH_ERROR
    | Some msg =>
        auth_type <- need (get_auth_type msg) ;;
        if auth_type =? SECURITY_SCRAM256
        then r <- scram_client_auth Superuser tls (str (u_password su)) ;; Ret r.1
        else Ret AUTH_ERROR
    end.

(** Taking [su_connection]: [Some true] when it is held and connected, [Some false] when
    the server cannot be reached, [None] after the blocking timeout. *)
Fixpoint su_acquire (tries : nat) (blocking : bool) : conv (option bool) :=
  free <- ask SuAcquire ;;
  if free then
    ok <- ask SuConnect ;;
    if ok then Ret (Some true) else ask SuRelease ;;; Ret (Some false)
  else if blocking then
    in_time <- ask BlockingLeft ;;
    if in_time then match tries with O => More | S tries => su_acquire tries blocking end else Ret None
  else Ret None.

(** [auth_query_get_connection]: the status, and whether the connection is encrypted. *)
Definition auth_query_get_connection (cfg : security) (tls_server : Z -> bool) (tries : nat) (database : list Z)
  : conv (Z * bool) :=
  primary <- ask GetPrimary ;;
  match primary with
  | None => Ret (AUTH_ERROR, false)
  | Some server =>
      got <- su_acquire tries (time_is_valid (blocking_timeout (s_config cfg))) ;;
      match got with
      | None => Ret (AUTH_TIMEOUT, false)
      | Some false => Ret (AUTH_ERROR, false)
      | Some true =>
          tls <- establish_client_tls_connection Superuser (tls_server server) ;;
          status <- su_login tls (superuser cfg) database ;;
          if (status =? AUTH_BAD_PASSWORD) || (status =? AUTH_ERROR)
          then ask SuDisconnect ;;; Ret (status, tls)
          else Ret (AUTH_SUCCESS, tls)
      end
  end.

(** The server-first-message that enters the proof, in 89 bytes; the message that is sent
    always says [i=4096]. *)
Definition query_first (client_nounce server_nounce salt64 : list Z) (iterations : Z) : list Z :=
  snprintf 89 (str "r=" ++ client_nounce ++ server_nounce ++ str ",s=" ++ salt64 ++ str ",i=" ++ str (pretty iterations)).

(** The exchange of [auth_query_client_scram256] after the first message of the client, for the
    buffer of the stored key and the length of the key. *)
Definition check_stored (c_tls : bool) (iterations : Z) (salt64 stored : list Z) (stored_length : nat) (server_key bare client_nounce : list Z) : conv Z :=
  server_nounce <- generate_nounce K ;;
  server_nounce <- need server_nounce ;;
  let first := query_first client_nounce server_nounce salt64 iterations in
  ok <- write Client c_tls (create_auth_scram256_continue false client_nounce server_nounce salt64) ;;
  if negb ok then Ret AUTH_ERROR
  else
    msg <- ask (ReadMsg Client c_tls) ;;
    match msg with
    | None => Ret AUTH_ERROR
    | Some msg =>
        if m_length msg <? 62 then Ret AUTH_ERROR
        else
          match get_scram_attribute (chr "p") (drop 5 (m_data msg)) with
          | None => Ret AUTH_ERROR
          | Some proof64 =>
              let wo_proof := upto_nul (take 57 (drop 5 (m_data msg))) in
              verified <- need (verify_client_proof K stored stored_length (base64_buffer K proof64) bare first wo_proof) ;;
              if negb verified then Ret AUTH_BAD_PASSWORD
              else
                match server_signature K None [] iterations server_key bare first wo_proof with
                | None => Ret AUTH_ERROR
                | Some signature =>
                    ok <- write Client c_tls (create_auth_scram256_final false (base64_encode K signature)) ;;
                    Ret (if ok then AUTH_SUCCESS else AUTH_ERROR)
                end
          end
    end.

(** [auth_query_client_scram256]. *)
Definition auth_query_client_scram256 (tries : nat) (c_tls : bool) (stored_password : list Z) : conv Z :=
  ok <- write Client c_tls (write_auth_scram256 false c_tls false) ;;
  if negb ok then Ret AUTH_ERROR
  else
    msg <- read_retry tries c_tls ;;
    match msg with
    | None => Ret AUTH_ERROR
    | Some msg =>
        let '(name, sh) := split_shadow stored_password in
        if negb (bool_decide (name = Some (str "SCRAM-SHA-256"))) then Ret AUTH_ERROR
        else
          match sh_iterations sh ≫= scram_parse_iterations with
          | None => Ret AUTH_ERROR
          | Some iterations =>
              salt64 <- need (sh_salt sh) ;;
              stored64 <- need (sh_stored_key sh) ;;
              server64 <- need (sh_server_key sh) ;;
              if m_length msg <=? 26 then Ret AUTH_ERROR
              else
                let bare := drop 26 (m_data msg) in
                match get_scram_attribute (chr "r") bare with
                | None => Ret AUTH_ERROR
                | Some client_nounce =>
                    check_stored c_tls iterations salt64 (base64_buffer K stored64) (length (base64_decode K stored64))
                      (base64_decode K server64) (upto_nul bare) client_nounce
                end
          end
    end.

(** [auth_query]. *)
Definition auth_query (cfg : security) (tls_server : Z -> bool) (tries : nat) (c_tls : bool)
  (username database : list Z) (c : connection) : conv Z :=
  let refuse := write Client c_tls (write_connection_refused false) ;;; write Client c_tls write_empty ;;; Ret tt in
  r <- auth_query_get_connection cfg tls_server tries database ;;
  let '(ret, su_tls) := r in
  if ret =? AUTH_BAD_PASSWORD then refuse ;;; ask SuRelease ;;; Ret AUTH_BAD_PASSWORD
  else if (ret =? AUTH_ERROR) || (ret =? AUTH_TIMEOUT) then refuse ;;; ask SuRelease ;;; Ret AUTH_ERROR
  else
    shadow <- auth_query_get_password su_tls username ;;
    match shadow with
    | None => refuse ;;; ask SuRelease ;;; Ret AUTH_ERROR
    | Some shadow =>
        ask SuDisconnect ;;; ask SuRelease ;;;
        if c_has_security c =? SECURITY_SCRAM256 then
          ret <- auth_query_client_scram256 tries c_tls shadow ;;
          if ret =? AUTH_BAD_PASSWORD
          then write Client c_tls (write_bad_password false username) ;;; write Client c_tls write_empty ;;;
               Ret AUTH_BAD_PASSWORD
          else if ret =? AUTH_ERROR then Ret AUTH_ERROR
          else
            ok <- client_ok c_tls c ;;
            if ok then Ret AUTH_SUCCESS else refuse ;;; Ret AUTH_ERROR
        else refuse ;;; Ret AUTH_ERROR
    end.
End query.
