(* ===== verification/Auth.v ===== *)
(** * The authentication of a client ([libpgagroal/security.c])

    [pgagroal_authenticate] and the two functions that it ends in, for a slot whose
    connection was authenticated before and for a new one.  The connection is passed
    along; the acquisition of the slot, the TLS set up and the update of the server are
    calls.  Metrics, tracking and log lines are dropped.

    A name that is copied into the slot without a test of its length is a crash when it is
    longer than the field; so is a startup packet without a user. *)

From Stdlib Require Import Ascii.
From S2P Require Import Prelude Wire Frames Message Text Config Hba Scram Pool AuthQuery.

Local Open Scope Z_scope.

Definition MAX_APPLICATION_NAME : nat := 64.

(** The C string with these bytes. *)
Definition cstr (bs : list Z) : string := String.string_of_list_ascii (map (fun b => ascii_of_nat (Z.to_nat b)) bs).

(** [memset] and [memcpy(dst, s, strlen(s))] for a field of [n] bytes. *)
Definition copied (n : nat) (s : list Z) : option string := if (length s <=? n)%nat then Some (cstr s) else None.

Section authenticate.
Context (K : crypto) (cfg : security) (binding required tls_server : Z -> bool) (tries : nat).

(** The password that a client has to know: that of a frontend user, or of a user. *)
Definition client_secret (username : list Z) : option (list Z) :=
  match get_frontend_password cfg (cstr username) with
  | Some p => Some (str p)
  | None => str <$> get_user_password cfg (cstr username)
  end.

(** An error message and an empty message. *)
Definition refuse (c_tls : bool) (m : option message) : conv unit :=
  write Client c_tls m ;;; write Client c_tls write_empty ;;; Ret tt.

(** The method of the entry, with a client whose password is known. *)
Definition prove (c_tls : bool) (username password : list Z) (hba_method : Z) : conv (option Z) :=
  if hba_method =? SECURITY_TRUST then r <- client_trust ;; Ret (Some r)
  else if hba_method =? SECURITY_PASSWORD then r <- client_password tries c_tls username password ;; Ret (Some r)
  else if hba_method =? SECURITY_SCRAM256 then r <- client_scram256 K tries c_tls password ;; Ret (Some r)
  else if hba_method =? SECURITY_CERT then Ret (Some AUTH_SUCCESS)
  else Ret None.

(** A client without a known password on a pooled connection: it repeats what the first
    client said. *)
Definition replay (c_tls : bool) (username : list Z) (c : connection) : conv Z :=
  auth_msg <- need (kept 0 c) ;;
  ok <- ask (WriteMsg Client c_tls auth_msg) ;;
  if negb ok then Ret AUTH_ERROR
  else if c_has_security c =? SECURITY_TRUST then Ret AUTH_SUCCESS
  else
    msg <- ask (ReadMsg Client c_tls) ;;
    match msg with
    | None => Ret AUTH_ERROR
    | Some msg =>
        auth_msg <- need (kept 1 c) ;;
        same <- need (compare_auth_response auth_msg msg (c_has_security c)) ;;
        if negb same then refuse c_tls (write_bad_password false username) ;;; Ret AUTH_ERROR
        else
          auth_msg <- need (kept 2 c) ;;
          ok <- ask (WriteMsg Client c_tls auth_msg) ;;
          Ret (if ok then AUTH_SUCCESS else AUTH_ERROR)
    end.

(** [use_pooled_connection] after the certificate and the TLS session. *)
Definition pooled_login (c_tls : bool) (username database : list Z) (hba_method : Z) (c : connection) : conv Z :=
  let hba_method := if hba_method =? SECURITY_ALL then c_has_security c else hba_method in
  if authquery (s_config cfg) then
    status <- auth_query K cfg tls_server tries c_tls username database c ;;
    Ret (if (status =? AUTH_BAD_PASSWORD) || (status =? AUTH_ERROR) then status else AUTH_SUCCESS)
  else
    match client_secret username with
    | None => replay c_tls username c
    | Some password =>
        status <- prove c_tls username password hba_method ;;
        match status with
        | None => Ret AUTH_ERROR
        | Some status =>
            if (status =? AUTH_BAD_PASSWORD) || (status =? AUTH_ERROR) then Ret status
            else ok <- client_ok c_tls c ;; Ret (if ok then AUTH_SUCCESS else AUTH_ERROR)
        end
    end.

Definition use_pooled_connection (c_tls : bool) (username database : list Z) (hba_method : Z) (c : connection)
  : conv Z :=
  let database := str (resolve_database_alias (s_config cfg) (cstr username) (cstr database)) in
  status <- (if hba_method =? SECURITY_CERT then client_cert c_tls username else Ret AUTH_SUCCESS) ;;
  if negb (status =? AUTH_SUCCESS) then Ret AUTH_BAD_PASSWORD
  else
    ok <- (match c_tls_context c with [] => Ret true | _ => ask ResumeTls end) ;;
    if negb ok then Ret AUTH_ERROR else pooled_login c_tls username database hba_method c.

(** The error of the server for the client, when the server refused pgagroal. *)
Definition forward_error (c_tls : bool) (auth_type : Z) (c : connection) : conv unit :=
  valid <- ask (SocketValid Client) ;;
  if negb valid then Ret tt
  else
    emsg <- (match final_index auth_type with
             | Some i =>
                 if 0 <? c_security_lengths c !!! i then
                   smsg <- need (kept i c) ;; loop (extract_message (S (length (m_data smsg))) (chr "E") smsg)
                 else Ret None
             | None => Ret None
             end) ;;
    match emsg with
    | Some emsg =>
        write Client c_tls (write_auth_success false) ;;;
        write Client c_tls (Some emsg) ;;;
        write Client c_tls write_empty ;;; Ret tt
    | None => refuse c_tls (write_connection_refused false)
    end.

(** The label [bad_password] of [use_unpooled_connection]. *)
Definition report_bad_password (c_tls : bool) (username : list Z) (hba_method : Z) : conv unit :=
  if hba_method =? SECURITY_CERT then Ret tt
  else
    valid <- ask (SocketValid Client) ;;
    if negb valid then Ret tt
    else
      write Client c_tls (write_bad_password false username) ;;;
      if hba_method =? SECURITY_SCRAM256 then write Client c_tls write_empty ;;; Ret tt else Ret tt.

(** The authentication of the client and then of pgagroal, with a known password. *)
Definition unpooled_login (c_tls s_tls : bool) (username password : list Z) (hba_method auth_type : Z)
  (auth_msg : message) (c : connection) : conv (Z * connection) :=
  let hba_method := if hba_method =? SECURITY_ALL then auth_type else hba_method in
  status <- prove c_tls username password hba_method ;;
  match status with
  | None => refuse c_tls (write_connection_refused false) ;;; Ret (AUTH_ERROR, c)
  | Some status =>
      if status =? AUTH_BAD_PASSWORD then
        report_bad_password c_tls username hba_method ;;; Ret (AUTH_BAD_PASSWORD, c)
      else if status =? AUTH_ERROR then Ret (AUTH_ERROR, c)
      else
        r <- server_authenticate K s_tls (binding (c_server c)) (required (c_server c)) auth_msg auth_type
               (str <$> get_user_password cfg (cstr username)) c ;;
        let '(ret, c) := r in
        if negb (ret =? AUTH_SUCCESS) then forward_error c_tls auth_type c ;;; Ret (AUTH_ERROR, c)
        else ok <- client_ok c_tls c ;; Ret (if ok then AUTH_SUCCESS else AUTH_ERROR, c)
  end.

(** The names of the startup packet go into the slot. *)
Definition store_names (st : startup) (c : connection) : option connection :=
  u ← match s_username st with Some u => Some <$> copied MAX_USERNAME_LENGTH u | None => Some None end;
  d ← match s_database st with Some d => Some <$> copied MAX_DATABASE_LENGTH d | None => Some None end;
  a ← match s_appname st with Some a => Some <$> copied MAX_APPLICATION_NAME a | None => Some None end;
  Some (from_option set_c_appname id a (from_option set_c_database id d (from_option set_c_username id u c))).

(** The exchange with the server, once the connection is there. *)
Definition unpooled_exchange (request : message) (c_tls : bool) (username : list Z) (password : option (list Z))
  (hba_method : Z) (c : connection) : conv (Z * connection) :=
  s_tls <- establish_client_tls_connection Backend (tls_server (c_server c)) ;;
  st <- need (extract_username_database request) ;;
  client_username <- need (s_username st) ;;
  client_database <- need (s_database st) ;;
  let real := resolve_database_alias (s_config cfg) (cstr client_username) (cstr client_database) in
  c <- need (store_names st c) ;;
  ok <- write Backend s_tls (create_startup_message false client_username (str real)) ;;
  if negb ok then Ret (AUTH_ERROR, c)
  else
    msg <- ask (ReadMsg Backend s_tls) ;;
    match msg with
    | None => Ret (AUTH_ERROR, c)
    | Some msg =>
        auth_type <- need (get_auth_type msg) ;;
        if auth_type =? -1 then refuse c_tls (Some msg) ;;; Ret (AUTH_ERROR, c)
        else if negb (auth_type =? SECURITY_TRUST) && negb (auth_type =? SECURITY_PASSWORD)
                && negb (auth_type =? SECURITY_SCRAM256)
        then refuse c_tls (write_unsupported_security_model false username) ;;; Ret (AUTH_ERROR, c)
        else
          r <- (match password with
                | None => r <- server_passthrough c_tls s_tls msg auth_type c ;;
                          Ret (if r.1 : bool then AUTH_SUCCESS else AUTH_ERROR, r.2)
                | Some password => unpooled_login c_tls s_tls username password hba_method auth_type msg c
                end) ;;
          if r.1 =? AUTH_SUCCESS then ask UpdateServer ;;; Ret r else Ret r
    end.

Definition use_unpooled_connection (request : message) (c_tls : bool) (username : list Z) (hba_method : Z)
  (c : connection) : conv (Z * connection) :=
  let password := client_secret username in
  if bool_decide (password = None) && negb (allow_unknown_users (s_config cfg))
  then refuse c_tls (write_connection_refused false) ;;; Ret (AUTH_ERROR, c)
  else
    status <- (if hba_method =? SECURITY_CERT then client_cert c_tls username else Ret AUTH_SUCCESS) ;;
    if negb (status =? AUTH_SUCCESS) then
      report_bad_password c_tls username hba_method ;;; Ret (AUTH_BAD_PASSWORD, c)
    else unpooled_exchange request c_tls username password hba_method c.

(** A request of version 3, with the entry of [pgagroal_hba.conf] that allows it. *)
Definition login (request : message) (c_tls : bool) (st : startup) (username database : list Z) (hba_method : Z)
  : conv (Z * option connection) :=
  r <- ask (GetConnection username database) ;;
  let '(ret, c) := r in
  if ret =? 1 then refuse c_tls (write_pool_full false) ;;; Ret (AUTH_BAD_PASSWORD, None)
  else if negb (ret =? 0) then refuse c_tls (write_connection_refused false) ;;; Ret (AUTH_ERROR, None)
  else
    c <- need (match s_appname st with
               | None => Some c
               | Some a => a ← copied MAX_APPLICATION_NAME a; Some (set_c_appname a c)
               end) ;;
    if negb (c_has_security c =? SECURITY_INVALID) then
      status <- use_pooled_connection c_tls username database hba_method c ;; Ret (status, Some c)
    else
      r <- use_unpooled_connection request c_tls username hba_method c ;;
      Ret (r.1, Some r.2).

(** The tests of [pgagroal_authenticate] before a connection is taken. *)
Definition admit_client (gracefully : bool) (address : string) (request : message) (c_tls : bool)
  : conv (Z * option connection) :=
  st <- need (extract_username_database request) ;;
  username <- need (s_username st) ;;
  database <- need (s_database st) ;;
  let refused := refuse c_tls (write_connection_refused false) ;;; Ret (AUTH_BAD_PASSWORD, None) in
  if is_tls_user cfg (cstr username) (cstr database) && negb c_tls then refused
  else
    allowed <- need (is_allowed cfg (cstr username) (cstr database) address) ;;
    match allowed with
    | None => refuse c_tls (write_no_hba_entry false username database (str address)) ;;; Ret (AUTH_BAD_PASSWORD, None)
    | Some hba_method =>
        if hba_method =? SECURITY_REJECT then refused
        else if gracefully then refused
        else if is_disabled cfg (cstr database) then refused
        else login request c_tls st username database hba_method
    end.

(** A request after the one for TLS. *)
Definition start_request (gracefully : bool) (address : string) (msg : message) (c_tls : bool)
  : conv (Z * option connection) :=
  request <- need (get_request (Some msg)) ;;
  if request =? 196608 then admit_client gracefully address msg c_tls
  else if request =? -1 then Ret (AUTH_ERROR, None)
  else refuse c_tls write_connection_refused_old ;;; Ret (AUTH_BAD_PASSWORD, None).

(** The answer "no" to a request for encryption, and the next message. *)
Definition decline : conv (option message) :=
  ok <- write Client false write_notice ;;
  if negb ok then Ret None else ask (ReadMsg Client false).

(** A request for TLS: the message that follows and whether it came through TLS. *)
Definition tls_request : conv (option (message * bool)) :=
  if s_tls cfg then
    setup <- ask TlsSetup ;;
    if setup =? 1 then Ret None
    else if negb (setup =? 0) then refuse false (write_connection_refused false) ;;; Ret None
    else
      ok <- write Client false write_tls ;;
      if negb ok then Ret None
      else
        ok <- ask TlsHandshake ;;
        if negb ok then Ret None
        else m <- ask (ReadMsg Client true) ;; Ret (m ← m; Some (m, true))
  else m <- decline ;; Ret (m ← m; Some (m, false)).

(** [pgagroal_authenticate]. *)
Definition authenticate (gracefully : bool) (address : string) : conv (Z * option connection) :=
  let error := Ret (AUTH_ERROR, None) in
  msg <- ask (ReadMsg Client false) ;;
  match msg with
  | None => error
  | Some msg =>
      request <- need (get_request (Some msg)) ;;
      if request =? 80877102 then
        primary <- ask GetPrimary ;;
        match primary with
        | None => refuse false (write_connection_refused false) ;;; error
        | Some _ => ok <- ask (CancelTo msg) ;; if ok then Ret (AUTH_BAD_PASSWORD, None) else error
        end
      else
        msg <- (if request =? 80877104 then decline else Ret (Some msg)) ;;
        match msg with
        | None => error
        | Some msg =>
            request <- need (get_request (Some msg)) ;;
            next <- (if request =? 80877103 then tls_request else Ret (Some (msg, false))) ;;
            match next with
            | None => error
            | Some (msg, c_tls) => start_request gracefully address msg c_tls
            end
        end
  end.
End authenticate.
