(* ===== verification/AuthFacts.v ===== *)
(** * Who is let in

    A logic for conversations and the theorem that a client is only accepted by the
    entry of [pgagroal_hba.conf] that matches it and with the proof that this entry asks
    for, whatever the client, the servers and the operating system answer. *)

From Stdlib Require Import Ascii.
From S2P Require Import Prelude Wire Frames Message MessageFacts Text Config Hba Scram ScramFacts Pool AuthQuery Auth.

Local Open Scope Z_scope.

(** ** What a conversation ensures *)

(** A call that was made, with its answer. *)
Inductive event :=
| Ev {R : Type} (c : call R) (r : R).

(** [ensures p Q tr]: when [p] starts after the calls of [tr] and ends with a result,
    [Q] holds of the result and of all calls. *)
Fixpoint ensures {A} (p : conv A) (Q : A -> list event -> Prop) (tr : list event) : Prop :=
  match p with
  | Ret a => Q a tr
  | Crash => True
  | More => True
  | Call c k => forall r, ensures (k r) Q (tr ++ [Ev c r])
  end.

Lemma ensures_mono {A} (p : conv A) (P Q : A -> list event -> Prop) (tr : list event) :
  (forall a tr', tr ⊆ tr' -> P a tr' -> Q a tr') -> ensures p P tr -> ensures p Q tr.
Proof.
  revert tr; induction p as [a| | |R c k IH]; intros tr H; cbn [ensures]; [by apply H|done|done|].
  intros Hp r. apply IH; [|apply Hp]. intros a tr' Hs. apply H. set_solver.
Qed.

(** A step, and what follows it. *)
Lemma ensures_seq {A B} (p : conv A) (f : A -> conv B) (P : A -> list event -> Prop) (Q : B -> list event -> Prop)
  (tr : list event) :
  ensures p P tr -> (forall a tr', tr ⊆ tr' -> P a tr' -> ensures (f a) Q tr') -> ensures (bind p f) Q tr.
Proof.
  revert tr; induction p as [a| | |R c k IH]; intros tr; cbn [ensures bind]; [|done|done|].
  - intros Hp Hf. by apply Hf.
  - intros Hp Hf r. apply IH; [apply Hp|]. intros a tr' Hs. apply Hf. set_solver.
Qed.

Lemma ensures_any {A} (p : conv A) (tr : list event) : ensures p (fun _ _ => True) tr.
Proof. revert tr; induction p; intros tr; cbn [ensures]; auto. Qed.

(** A step whose result does not matter. *)
Lemma ensures_skip {A B} (p : conv A) (f : A -> conv B) (Q : B -> list event -> Prop) (tr : list event) :
  (forall a tr', tr ⊆ tr' -> ensures (f a) Q tr') -> ensures (bind p f) Q tr.
Proof. intros H. eapply ensures_seq; [apply ensures_any|]. intros a tr' Hs _. by apply H. Qed.

Lemma ensures_ask {R B} (c : call R) (f : R -> conv B) (Q : B -> list event -> Prop) (tr : list event) :
  (forall r tr', tr ⊆ tr' -> Ev c r ∈ tr' -> ensures (f r) Q tr') -> ensures (bind (ask c) f) Q tr.
Proof. intros H r. apply H; set_solver. Qed.

Lemma ensures_need {A B} (o : option A) (f : A -> conv B) (Q : B -> list event -> Prop) (tr : list event) :
  (forall a, o = Some a -> ensures (f a) Q tr) -> ensures (bind (need o) f) Q tr.
Proof. intros H. destruct o; cbn [need bind ensures]; auto. Qed.

(** What has been heard stays heard. *)
Definition lasting (P : list event -> Prop) : Prop := forall tr tr', tr ⊆ tr' -> P tr -> P tr'.

Create HintDb heard.
Ltac heard := unfold lasting in *; naive_solver (eauto with heard).

(** ** Proofs of identity *)

Definition knows_password (password : list Z) (tr : list event) : Prop :=
  exists tls m, Ev (ReadMsg Client tls) (Some m) ∈ tr /\ c_string (drop 5 (m_data m)) = Some password.

(** The client answered the nonce and the salt of this exchange with the proof of SCRAM. *)
Definition proves_scram (K : crypto) (password : list Z) (tr : list event) : Prop :=
  exists tls m1 m2 ir fr r salt,
    Ev (ReadMsg Client tls) (Some m1) ∈ tr /\ read_initial tls m1 = Some ir
    /\ Ev (RandBytes 19) (Some r) ∈ tr /\ Ev (RandBytes 16) (Some salt) ∈ tr
    /\ Ev (ReadMsg Client tls) (Some m2) ∈ tr /\ read_final K m2 = Some fr
    /\ client_proof K password salt 4096 (ir_bare ir)
         (server_first (ir_nounce ir) (base64_encode K (take 18 r)) (base64_encode K salt)) (fr_without_proof fr)
       = Some (fr_proof fr).

Definition shows_certificate (username : list Z) (tr : list event) : Prop :=
  Ev PeerCert (Some (true, Some username)) ∈ tr.

(** What a method asks for. *)
Definition proved (K : crypto) (method : Z) (username password : list Z) (tr : list event) : Prop :=
  method = SECURITY_TRUST
  \/ method = SECURITY_PASSWORD /\ knows_password password tr
  \/ method = SECURITY_SCRAM256 /\ proves_scram K password tr
  \/ method = SECURITY_CERT.

Lemma knows_lasting (p : list Z) : lasting (knows_password p).
Proof. intros tr tr' Hs (tls & m & H & Hm). exists tls, m. set_solver. Qed.

Lemma scram_lasting (K : crypto) (p : list Z) : lasting (proves_scram K p).
Proof.
  intros tr tr' Hs (tls & m1 & m2 & ir & fr & r & salt & H1 & H2 & H3 & H4 & H5 & H6 & H7).
  exists tls, m1, m2, ir, fr, r, salt. set_solver.
Qed.

Lemma certificate_lasting (u : list Z) : lasting (shows_certificate u).
Proof. intros tr tr' Hs H. by apply Hs. Qed.

Lemma proved_lasting (K : crypto) (m : Z) (u p : list Z) : lasting (proved K m u p).
Proof.
  intros tr tr' Hs [H|[[H Hp]|[[H Hp]|H]]]; [by left|right; left|right; right; left|by right; right; right].
  - split; [done|]. by eapply knows_lasting.
  - split; [done|]. by eapply scram_lasting.
Qed.
#[export] Hint Resolve knows_lasting scram_lasting certificate_lasting proved_lasting : heard.

(** ** The methods *)

(** The callers test for the two failures. *)
Definition denied (status : Z) : bool := (status =? AUTH_BAD_PASSWORD) || (status =? AUTH_ERROR).

Lemma read_retry_heard (tries : nat) (tls : bool) (tr : list event) :
  ensures (read_retry tries tls)
    (fun m tr' => forall m', m = Some m' -> Ev (ReadMsg Client tls) (Some m') ∈ tr') tr.
Proof.
  revert tr; induction tries as [|n IH]; intros tr; cbn [read_retry]; apply ensures_ask; intros [m|] tr1 _ Hm;
    try (by cbn [ensures]; intros m' [= <-]); apply ensures_ask; intros [] tr2 Hs _; try done;
    apply ensures_ask; intros [] tr3 Hs' _; try done; apply IH.
Qed.

Lemma client_password_sound (tries : nat) (tls : bool) (u p : list Z) (tr : list event) :
  ensures (client_password tries tls u p) (fun r tr' => denied r = false -> knows_password p tr') tr.
Proof.
  unfold client_password. apply ensures_skip. intros [] tr1 _; [|done]. cbn [negb].
  eapply ensures_seq; [apply read_retry_heard|]. intros [m|] tr2 _ Hm; [|done].
  apply ensures_need. intros answer Ha. destruct (bool_decide_reflect (answer = p)) as [->|]; cbn [negb].
  - cbn [ensures]. intros _. exists tls, m. auto.
  - apply ensures_skip. intros b tr3 _. done.
Qed.

Lemma client_scram256_sound (K : crypto) (tries : nat) (tls : bool) (p : list Z) (tr : list event) :
  ensures (client_scram256 K tries tls p) (fun r tr' => denied r = false -> proves_scram K p tr') tr.
Proof.
  unfold client_scram256, generate_nounce, generate_salt. apply ensures_skip. intros [] tr1 _; [|done]. cbn [negb].
  eapply ensures_seq; [apply read_retry_heard|]. intros m1 tr2 _ Hm1.
  destruct (m1 ≫= read_initial tls) as [ir|] eqn:E1; [|done]. apply bind_Some in E1 as (m1' & -> & E1).
  specialize (Hm1 _ eq_refl). cbn [bind].
  apply (ensures_ask (RandBytes 19)). intros r tr3 Hs3 Hr. cbn [bind].
  apply ensures_ask. intros salt tr4 Hs4 Hsalt.
  apply ensures_need. intros sn Hsn. destruct r as [r|]; [|done]. injection Hsn as <-.
  apply ensures_need. intros salt' ->.
  apply ensures_skip. intros [] tr5 Hs5; [|done]. cbn [negb].
  apply ensures_ask. intros m2 tr6 Hs6 Hm2.
  destruct (m2 ≫= read_final K) as [fr|] eqn:E2; [|done]. apply bind_Some in E2 as (m2' & -> & E2).
  apply ensures_skip. intros [hash|] tr7 Hs7; [|done].
  destruct (bool_decide (fr_binding fr = ir_gs2_header ir ++ hash)); [|done]. cbn [negb].
  unfold check_proof. apply ensures_need. intros pw Hpw.
  assert (pw = p) as ->. { unfold sasl_prep in Hpw. repeat case_match; by simplify_eq. }
  destruct (client_proof _ _ _ _ _ _) as [proof|] eqn:E3; [|done].
  destruct (bool_decide_reflect (fr_proof fr = proof)) as [<-|]; [|done]. cbn [negb].
  destruct (server_signature _ _ _ _ _ _ _) as [sig|]; [|done].
  apply ensures_skip. intros ok tr8 Hs8. cbn [ensures]. intros _.
  exists tls, m1', m2', ir, fr, r, salt'. split_and!; try done; set_solver.
Qed.

Lemma client_cert_sound (tls : bool) (u : list Z) (tr : list event) :
  ensures (client_cert tls u) (fun r tr' => r = AUTH_SUCCESS -> shows_certificate u tr') tr.
Proof.
  assert (forall tr, ensures (write Client tls (write_bad_certificate false u) ;;;
                              write Client tls write_empty ;;; Ret AUTH_BAD_PASSWORD)
                       (fun r tr' => r = AUTH_SUCCESS -> shows_certificate u tr') tr) as Hbad.
  { intros tr0. apply ensures_skip. intros a tr1 _. apply ensures_skip. intros b tr2 _. done. }
  unfold client_cert. destruct tls; cbn [negb]; [|apply Hbad].
  apply ensures_ask. intros [[[] [cn|]]|] tr1 _ Hc; try apply Hbad.
  destruct (bool_decide_reflect (cn = u)) as [->|]; [|apply Hbad]. cbn [ensures]. done.
Qed.

Lemma prove_sound (K : crypto) (tries : nat) (tls : bool) (u p : list Z) (m : Z) (tr : list event) :
  ensures (prove K tries tls u p m) (fun r tr' => forall s, r = Some s -> denied s = false -> proved K m u p tr') tr.
Proof.
  unfold prove, client_trust, proved.
  destruct (Z.eqb_spec m SECURITY_TRUST); [by cbn [ensures bind]; left|].
  destruct (Z.eqb_spec m SECURITY_PASSWORD).
  { eapply ensures_seq; [apply client_password_sound|]. intros r tr1 _ H. cbn [ensures]. intros s [= <-] Hs.
    right. left. auto. }
  destruct (Z.eqb_spec m SECURITY_SCRAM256).
  { eapply ensures_seq; [apply client_scram256_sound|]. intros r tr1 _ H. cbn [ensures]. intros s [= <-] Hs.
    right. right. left. auto. }
  destruct (Z.eqb_spec m SECURITY_CERT); cbn [ensures]; [|done]. intros s _ _. by right; right; right.
Qed.

(** ** The connections *)

(** A server has answered that it takes this method; 0 is that it accepts the client. *)
Definition server_says (method : Z) (tr : list event) : Prop :=
  exists tls msg, Ev (ReadMsg Backend tls) (Some msg) ∈ tr /\ get_auth_type msg = Some method.

(** The client repeated what opened the pooled connection. *)
Definition replayed (c : connection) (tr : list event) : Prop :=
  c_has_security c = SECURITY_TRUST
  \/ exists tls msg orig, Ev (ReadMsg Client tls) (Some msg) ∈ tr /\ kept 1 c = Some orig
       /\ compare_auth_response orig msg (c_has_security c) = Some true.

(** The method that a client has to use: that of its entry, or that of the server. *)
Definition method_used (method : Z) (c : connection) (m : Z) (tr : list event) : Prop :=
  m = method \/ method = SECURITY_ALL /\ (m = c_has_security c \/ server_says m tr).

(** The server gave pgagroal the stored password of the user, and the client answered the
    nonce of this exchange with a proof that verifies against the stored key. *)
Definition proves_stored (K : crypto) (u : list Z) (tr : list event) : Prop :=
  exists su_tls q tmsg s sh i salt64 stored64 c_tls m1 cn r m2 proof64,
    password_message u = Some q /\ Ev (WriteMsg Superuser su_tls q) true ∈ tr
    /\ Ev (ReadMsg Superuser su_tls) (Some tmsg) ∈ tr /\ read_password tmsg = Ret (Some s)
    /\ split_shadow s = (Some (str "SCRAM-SHA-256"), sh) /\ sh_iterations sh ≫= scram_parse_iterations = Some i
    /\ sh_salt sh = Some salt64 /\ sh_stored_key sh = Some stored64
    /\ Ev (ReadMsg Client c_tls) (Some m1) ∈ tr /\ get_scram_attribute (chr "r") (drop 26 (m_data m1)) = Some cn
    /\ Ev (RandBytes 19) (Some r) ∈ tr
    /\ Ev (ReadMsg Client c_tls) (Some m2) ∈ tr /\ get_scram_attribute (chr "p") (drop 5 (m_data m2)) = Some proof64
    /\ verify_client_proof K (base64_buffer K stored64) (length (base64_decode K stored64)) (base64_buffer K proof64)
         (upto_nul (drop 26 (m_data m1))) (query_first cn (base64_encode K (take 18 r)) salt64 i)
         (upto_nul (take 57 (drop 5 (m_data m2)))) = Some true.

(** The reasons for which a client is accepted. *)
Inductive authentic (K : crypto) (cfg : security) (method : Z) (u : list Z) (c : connection) (tr : list event) : Prop :=
| auth_password (p : list Z) (m : Z) :
    client_secret cfg u = Some p -> method_used method c m tr -> proved K m u p tr -> authentic K cfg method u c tr
| auth_by_query :
    authquery (s_config cfg) = true -> c_has_security c = SECURITY_SCRAM256 -> proves_stored K u tr ->
    authentic K cfg method u c tr
| auth_replayed :
    client_secret cfg u = None -> c_has_security c <> SECURITY_INVALID -> replayed c tr -> authentic K cfg method u c tr
| auth_by_server :
    client_secret cfg u = None -> allow_unknown_users (s_config cfg) = true -> server_says SECURITY_TRUST tr ->
    authentic K cfg method u c tr.

Lemma server_says_lasting (m : Z) : lasting (server_says m).
Proof. intros tr tr' Hs (tls & msg & H & Hm). exists tls, msg. set_solver. Qed.

Lemma method_used_lasting (method m : Z) (c : connection) : lasting (method_used method c m).
Proof. intros tr tr' Hs [H|[H [H'|H']]]; [by left|right..]; split; auto. right. by eapply server_says_lasting. Qed.

Lemma stored_lasting (K : crypto) (u : list Z) : lasting (proves_stored K u).
Proof.
  intros tr tr' Hs (x1 & x2 & x3 & x4 & x5 & x6 & x7 & x8 & x9 & y1 & y2 & y3 & y4 & y5 & H).
  exists x1, x2, x3, x4, x5, x6, x7, x8, x9, y1, y2, y3, y4, y5. destruct_and! H. split_and!; auto.
Qed.

Lemma authentic_lasting (K : crypto) (cfg : security) (method : Z) (u : list Z) (c : connection) :
  lasting (authentic K cfg method u c).
Proof.
  intros tr tr' Hs [p m Hp Hm Ho|Ha Hi Hq|Hn Hi Hr|Hn Ha Hb].
  - eapply auth_password; [done|by eapply method_used_lasting|by eapply proved_lasting].
  - apply auth_by_query; [done..|]. by eapply stored_lasting.
  - apply auth_replayed; [done..|]. destruct Hr as [Hr|(tls & m & o & H1 & H2)]; [by left|right]. exists tls, m, o. set_solver.
  - apply auth_by_server; [done..|]. by eapply server_says_lasting.
Qed.
#[export] Hint Resolve server_says_lasting method_used_lasting authentic_lasting : heard.

Lemma relay_accepted (c_tls s_tls : bool) (auth_type : Z) (c : connection) (tr : list event) :
  ensures (relay c_tls s_tls auth_type c) (fun r tr' => r.1 = true -> server_says SECURITY_TRUST tr') tr.
Proof.
  unfold relay. apply ensures_ask. intros [m1|] tr1 _ _; [|done]. destruct (_ <? m_length m1); [done|].
  apply ensures_ask. intros [] tr2 _ _; [|done]. cbn [negb].
  apply ensures_ask. intros [m2|] tr3 _ H3; [|done].
  apply ensures_seq with (P := fun r tr' => forall m, r.1 = Some m -> exists tls, Ev (ReadMsg Backend tls) (Some m) ∈ tr').
  { destruct (auth_type =? SECURITY_SCRAM256); [|cbn [ensures]; intros m [= <-]; eauto].
    unfold relay_scram. destruct (_ <? m_length m2); [done|]. apply ensures_ask. intros [] tr4 _ _; [|done]. cbn [negb].
    apply ensures_ask. intros [m4|] tr5 _ _; [|done]. destruct (_ <? m_length m4); [done|].
    apply ensures_ask. intros [] tr6 _ _; [|done]. cbn [negb].
    apply ensures_ask. intros m5 tr7 _ H7. cbn [ensures fst]. intros m ->. eauto. }
  intros [[m|] c'] tr4 _ H4; [|done]. destruct (H4 _ eq_refl) as [tls Hm].
  apply ensures_need. intros resp Hr. destruct (_ && _); [done|].
  apply ensures_ask. intros ok tr5 Hs5 _. cbn [ensures fst]. intros [_ H0]%andb_prop. apply Z.eqb_eq in H0 as ->.
  exists tls, m. set_solver.
Qed.

Lemma passthrough_accepted (c_tls s_tls : bool) (msg : message) (auth_type : Z) (c : connection) (tr : list event) :
  server_says auth_type tr ->
  ensures (server_passthrough c_tls s_tls msg auth_type c) (fun r tr' => r.1 = true -> server_says SECURITY_TRUST tr') tr.
Proof.
  intros Hs. unfold server_passthrough. destruct (_ <? m_length msg); [done|].
  apply ensures_need. intros msg' _. apply ensures_ask. intros [] tr1 Hs1 _; [|done]. cbn [negb].
  apply ensures_seq with (P := fun r tr' => r.1 = true -> server_says SECURITY_TRUST tr').
  { destruct (Z.eqb_spec auth_type SECURITY_TRUST) as [->|]; cbn [negb]; [|apply relay_accepted].
    cbn [ensures]. intros _. by eapply server_says_lasting. }
  intros [[] c'] tr2 _ H2; [|done]. cbn [negb]. apply ensures_skip. intros [c''|] tr3 Hs3; [|done].
  cbn [ensures]. intros _. eapply server_says_lasting; eauto.
Qed.

Lemma replay_sound (c_tls : bool) (u : list Z) (c : connection) (tr : list event) :
  ensures (replay c_tls u c) (fun r tr' => r = AUTH_SUCCESS -> replayed c tr') tr.
Proof.
  unfold replay. apply ensures_need. intros m0 _. apply ensures_ask. intros [] tr1 _ _; [|done]. cbn [negb].
  destruct (Z.eqb_spec (c_has_security c) SECURITY_TRUST); [by cbn [ensures]; left|].
  apply ensures_ask. intros [m1|] tr2 _ H2; [|done]. apply ensures_need. intros orig Ho.
  apply ensures_need. intros [] Hc; cbn [negb].
  - apply ensures_need. intros m2 _. apply ensures_ask. intros ok tr3 Hs3 _. cbn [ensures]. intros _.
    right. exists c_tls, m1, orig. set_solver.
  - apply ensures_skip. intros [] tr3 _. done.
Qed.

(** The result of a loop is the value of a conversation that makes no call. *)
Lemma ensures_pure {A} (p : conv A) (tr : list event) :
  match p with Call _ _ => False | _ => True end -> ensures p (fun a tr' => p = Ret a /\ tr' = tr) tr.
Proof. by destruct p. Qed.

Lemma read_password_pure (tmsg : message) : match read_password tmsg with Call _ _ => False | _ => True end.
Proof. unfold read_password. by destruct (extract_message _ _ _) as [[]| |]. Qed.

(** What [check_stored] has heard when it accepts a client. *)
Definition stored_verified (K : crypto) (c_tls : bool) (i : Z) (salt64 stored : list Z) (stored_length : nat) (bare cn : list Z)
  (tr : list event) : Prop :=
  exists r m2 proof64, Ev (RandBytes 19) (Some r) ∈ tr /\ Ev (ReadMsg Client c_tls) (Some m2) ∈ tr
    /\ get_scram_attribute (chr "p") (drop 5 (m_data m2)) = Some proof64
    /\ verify_client_proof K stored stored_length (base64_buffer K proof64) bare
         (query_first cn (base64_encode K (take 18 r)) salt64 i) (upto_nul (take 57 (drop 5 (m_data m2)))) = Some true.

Lemma check_stored_sound (K : crypto) (c_tls : bool) (i : Z) (salt64 stored : list Z) (stored_length : nat) (server_key bare cn : list Z)
  (tr : list event) :
  ensures (check_stored K c_tls i salt64 stored stored_length server_key bare cn)
    (fun r tr' => denied r = false -> stored_verified K c_tls i salt64 stored stored_length bare cn tr') tr.
Proof.
  unfold check_stored, generate_nounce. apply (ensures_ask (RandBytes 19)). intros r tr1 _ H1. cbn [bind].
  apply ensures_need. intros sn Hsn. destruct r as [r|]; [|done]. injection Hsn as <-.
  apply ensures_skip. intros [] tr2 Hs2; [|done]. cbn [negb]. apply ensures_ask. intros [m2|] tr3 Hs3 H3; [|done].
  destruct (m_length m2 <? 62); [done|]. destruct (get_scram_attribute _ _) as [proof64|] eqn:Hp; [|done].
  apply ensures_need. intros [] Hv; [|done]. cbn [negb].
  destruct (server_signature _ _ _ _ _ _ _ _); [|done]. apply ensures_skip. intros ok tr4 Hs4. cbn [ensures]. intros _.
  exists r, m2, proof64. split_and!; auto.
Qed.

(** The stored password [s], split, and the first message of the client. *)
Definition stored_accepts (K : crypto) (c_tls : bool) (s : list Z) (tr : list event) : Prop :=
  exists sh i salt64 stored64 m1 cn,
    split_shadow s = (Some (str "SCRAM-SHA-256"), sh) /\ sh_iterations sh ≫= scram_parse_iterations = Some i
    /\ sh_salt sh = Some salt64 /\ sh_stored_key sh = Some stored64
    /\ Ev (ReadMsg Client c_tls) (Some m1) ∈ tr /\ get_scram_attribute (chr "r") (drop 26 (m_data m1)) = Some cn
    /\ stored_verified K c_tls i salt64 (base64_buffer K stored64) (length (base64_decode K stored64)) (upto_nul (drop 26 (m_data m1))) cn tr.

Lemma query_scram_sound (K : crypto) (tries : nat) (c_tls : bool) (s : list Z) (tr : list event) :
  ensures (auth_query_client_scram256 K tries c_tls s)
    (fun r tr' => denied r = false -> stored_accepts K c_tls s tr') tr.
Proof.
  unfold auth_query_client_scram256. apply ensures_skip. intros [] tr1 _; [|done]. cbn [negb].
  eapply ensures_seq; [apply read_retry_heard|]. intros [m1|] tr2 _ Hm1; [|done]. specialize (Hm1 _ eq_refl).
  destruct (split_shadow s) as [name sh] eqn:Hs. case_bool_decide as Hn; [|done]. cbn [negb].
  destruct (sh_iterations sh ≫= scram_parse_iterations) as [i|] eqn:Hi; [|done].
  apply ensures_need. intros salt64 Hsalt. apply ensures_need. intros stored64 Hst. apply ensures_need. intros server64 _.
  destruct (m_length m1 <=? 26); [done|]. destruct (get_scram_attribute _ _) as [cn|] eqn:Hc; [|done].
  eapply ensures_mono; [|apply check_stored_sound]. intros r tr3 Hs3 H Hr.
  exists sh, i, salt64, stored64, m1, cn. subst name. split_and!; auto.
Qed.

Lemma get_password_heard (tls : bool) (u : list Z) (tr : list event) :
  ensures (auth_query_get_password tls u)
    (fun r tr' => forall s, r = Some s -> exists q tmsg, password_message u = Some q
       /\ Ev (WriteMsg Superuser tls q) true ∈ tr' /\ Ev (ReadMsg Superuser tls) (Some tmsg) ∈ tr'
       /\ read_password tmsg = Ret (Some s)) tr.
Proof.
  unfold auth_query_get_password, write. destruct (password_message u) as [q|]; [|done]. cbn [need bind].
  apply (ensures_ask (WriteMsg Superuser tls q)). intros [] tr1 _ H1; [|done]. cbn [negb].
  apply ensures_ask. intros [tmsg|] tr2 Hs2 H2; [|done].
  eapply ensures_mono; [|apply ensures_pure, read_password_pure]. intros r tr3 Hs3 [Hr ->] s ->.
  exists q, tmsg. split_and!; auto.
Qed.

Lemma auth_query_sound (K : crypto) (cfg : security) (tls_server : Z -> bool) (tries : nat) (c_tls : bool) (u d : list Z)
  (c : connection) (tr : list event) :
  ensures (auth_query K cfg tls_server tries c_tls u d c)
    (fun r tr' => denied r = false -> c_has_security c = SECURITY_SCRAM256 /\ proves_stored K u tr') tr.
Proof.
  assert (forall (p : conv unit) (f : unit -> conv Z) (tr : list event) P,
    (forall tr' P, ensures (f tt) (fun r tr'' => denied r = false -> P tr'') tr') ->
    ensures (bind p f) (fun r tr' => denied r = false -> P tr') tr) as Hno.
  { intros p f tr0 P H. apply ensures_skip. intros [] tr1 _. apply H. }
  unfold auth_query. apply ensures_skip. intros [ret su_tls] tr1 _.
  destruct (ret =? AUTH_BAD_PASSWORD); [apply Hno; by intros|].
  destruct ((ret =? AUTH_ERROR) || _); [apply Hno; by intros|].
  eapply ensures_seq; [apply get_password_heard|]. intros [s|] tr2 _ H2; [|apply Hno; by intros].
  destruct (H2 s eq_refl) as (q & tmsg & Hq & Hw & Ht & Hp).
  apply ensures_skip. intros [] tr3 Hs3. apply ensures_skip. intros [] tr4 Hs4.
  destruct (Z.eqb_spec (c_has_security c) SECURITY_SCRAM256) as [Hc|]; [|apply Hno; by intros].
  eapply ensures_seq; [apply query_scram_sound|]. intros st tr5 Hs5 H5.
  destruct (Z.eqb_spec st AUTH_BAD_PASSWORD) as [|E1].
  { apply ensures_skip. intros b tr6 _. apply ensures_skip. by intros b' tr7 _. }
  destruct (Z.eqb_spec st AUTH_ERROR) as [|E2]; [done|].
  destruct H5 as (sh & i & salt64 & stored64 & m1 & cn & A1 & A2 & A3 & A4 & A5 & A6 & r & m2 & p64 & B1 & B2 & B3 & B4).
  { unfold denied. by rewrite (proj2 (Z.eqb_neq _ _) E1), (proj2 (Z.eqb_neq _ _) E2). }
  apply ensures_skip. intros [] tr6 Hs6; [|apply Hno; by intros]. cbn [ensures]. intros _. split; [done|].
  exists su_tls, q, tmsg, s, sh, i, salt64, stored64, c_tls, m1, cn, r, m2, p64. split_and!; auto.
Qed.

Lemma pooled_login_sound (K : crypto) (cfg : security) (tls_server : Z -> bool) (tries : nat) (c_tls : bool) (u d : list Z) (method : Z)
  (c : connection) (tr : list event) :
  c_has_security c <> SECURITY_INVALID ->
  ensures (pooled_login K cfg tls_server tries c_tls u d method c)
    (fun r tr' => r = AUTH_SUCCESS -> authentic K cfg method u c tr') tr.
Proof.
  intros Hi. unfold pooled_login. destruct (authquery (s_config cfg)) eqn:Ha.
  { eapply ensures_seq; [apply auth_query_sound|]. intros st tr1 _ H1. cbn [ensures]. fold (denied st).
    destruct (denied st) eqn:E; [by intros ->|]. intros _. destruct (H1 E). by apply auth_by_query. }
  destruct (client_secret cfg u) as [p|] eqn:Hp.
  - set (m := if method =? SECURITY_ALL then c_has_security c else method).
    assert (forall tr', method_used method c m tr') as Hm.
    { intros tr'. unfold method_used, m. destruct (Z.eqb_spec method SECURITY_ALL); auto. }
    eapply ensures_seq; [apply prove_sound|]. intros [st|] tr1 _ H1; [|done]. fold (denied st).
    destruct (denied st) eqn:E; [cbn [ensures]; by intros ->|].
    apply ensures_skip. intros ok tr2 Hs2. cbn [ensures]. intros _.
    apply (auth_password _ _ _ _ _ _ p m); [done|apply Hm|]. eapply proved_lasting; eauto.
  - eapply ensures_mono; [|apply replay_sound]. intros r tr1 _ H Hr. apply auth_replayed; auto.
Qed.

Definition certified (method : Z) (u : list Z) (tr : list event) : Prop :=
  method = SECURITY_CERT -> shows_certificate u tr.

Lemma certify_sound (method : Z) (c_tls : bool) (u : list Z) (tr : list event) :
  ensures (if method =? SECURITY_CERT then client_cert c_tls u else Ret AUTH_SUCCESS)
    (fun r tr' => r = AUTH_SUCCESS -> certified method u tr') tr.
Proof.
  destruct (Z.eqb_spec method SECURITY_CERT); [|by cbn [ensures]; intros _ ?].
  eapply ensures_mono; [|apply client_cert_sound]. intros r tr1 _ H Hr _. auto.
Qed.

Lemma pooled_sound (K : crypto) (cfg : security) (tls_server : Z -> bool) (tries : nat) (c_tls : bool) (u d : list Z) (method : Z)
  (c : connection) (tr : list event) :
  c_has_security c <> SECURITY_INVALID ->
  ensures (use_pooled_connection K cfg tls_server tries c_tls u d method c)
    (fun r tr' => r = AUTH_SUCCESS -> certified method u tr' /\ authentic K cfg method u c tr') tr.
Proof.
  intros Hi. unfold use_pooled_connection. eapply ensures_seq; [apply certify_sound|].
  intros st tr1 _ H1. destruct (Z.eqb_spec st AUTH_SUCCESS); [|done]. cbn [negb].
  apply ensures_skip. intros [] tr2 Hs2; [|done]. cbn [negb].
  eapply ensures_mono; [|by apply pooled_login_sound]. intros r tr3 Hs3 H Hr. split; [|auto].
  intros Hc. by apply Hs3, Hs2, H1.
Qed.

Lemma unpooled_login_sound (K : crypto) (cfg : security) (binding required tls_server : Z -> bool) (tries : nat)
  (c_tls s_tls : bool) (u p : list Z) (method auth_type : Z) (auth_msg : message) (c c0 : connection) (tr : list event) :
  client_secret cfg u = Some p -> server_says auth_type tr ->
  ensures (unpooled_login K cfg binding required tries c_tls s_tls u p method auth_type auth_msg c)
    (fun r tr' => r.1 = AUTH_SUCCESS -> authentic K cfg method u c0 tr') tr.
Proof.
  intros Hp Hs. unfold unpooled_login. set (m := if method =? SECURITY_ALL then auth_type else method).
  assert (method_used method c0 m tr) as Hm.
  { unfold method_used, m. destruct (Z.eqb_spec method SECURITY_ALL); auto. }
  eapply ensures_seq; [apply prove_sound|]. intros [st|] tr1 Hs1 H1; [|apply ensures_skip; by intros [] tr2 _].
  destruct (Z.eqb_spec st AUTH_BAD_PASSWORD) as [|E1]; [apply ensures_skip; by intros [] tr2 _|].
  destruct (Z.eqb_spec st AUTH_ERROR) as [|E2]; [done|].
  assert (proved K m u p tr1) as H2.
  { apply (H1 st); [done|]. unfold denied. by rewrite (proj2 (Z.eqb_neq _ _) E1), (proj2 (Z.eqb_neq _ _) E2). }
  apply ensures_skip. intros [ret c'] tr2 Hs2. destruct (Z.eqb_spec ret AUTH_SUCCESS); cbn [negb].
  - apply ensures_skip. intros ok tr3 Hs3. cbn [ensures]. intros _.
    eapply (auth_password _ _ _ _ _ _ p m); [done| |].
    + eapply method_used_lasting; [|exact Hm]. set_solver.
    + eapply proved_lasting; [|exact H2]. set_solver.
  - apply ensures_skip. by intros [] tr3 _.
Qed.

Lemma unpooled_sound (K : crypto) (cfg : security) (binding required tls_server : Z -> bool) (tries : nat)
  (request : message) (c_tls : bool) (u : list Z) (method : Z) (c : connection) (tr : list event) :
  ensures (use_unpooled_connection K cfg binding required tls_server tries request c_tls u method c)
    (fun r tr' => r.1 = AUTH_SUCCESS -> certified method u tr' /\ authentic K cfg method u c tr') tr.
Proof.
  unfold use_unpooled_connection.
  destruct (bool_decide (client_secret cfg u = None) && negb (allow_unknown_users (s_config cfg))) eqn:Hu.
  { apply ensures_skip. by intros [] tr1 _. }
  eapply ensures_seq; [apply certify_sound|]. intros st tr1 _ H1.
  destruct (Z.eqb_spec st AUTH_SUCCESS) as [Hst|]; cbn [negb]; [|apply ensures_skip; by intros [] tr2 _].
  unfold unpooled_exchange. apply ensures_skip. intros s_tls tr2 Hs2.
  apply ensures_need. intros sp _. apply ensures_need. intros cu _. apply ensures_need. intros cd _.
  apply ensures_need. intros c1 _. apply ensures_skip. intros [] tr3 Hs3; [|done]. cbn [negb].
  apply ensures_ask. intros [msg|] tr4 Hs4 H4; [|done]. apply ensures_need. intros auth_type Ht.
  assert (server_says auth_type tr4) as Hsay by (exists s_tls, msg; auto).
  destruct (auth_type =? -1); [apply ensures_skip; by intros [] tr5 _|].
  destruct (_ && negb (auth_type =? SECURITY_SCRAM256)); [apply ensures_skip; by intros [] tr5 _|].
  apply ensures_seq with (P := fun r tr' => r.1 = AUTH_SUCCESS -> authentic K cfg method u c tr').
  { destruct (client_secret cfg u) as [p|] eqn:Hp; [by apply unpooled_login_sound|].
    eapply ensures_seq; [by apply passthrough_accepted|]. intros [[] c2] tr5 _ H5; [|done]. cbn [ensures fst].
    intros _. apply auth_by_server; [done| |auto].
    rewrite bool_decide_eq_true_2 in Hu by done. by destruct (allow_unknown_users (s_config cfg)). }
  intros [ret c2] tr5 Hs5 H5. cbn [fst] in *.
  assert (certified method u tr5) as Hc. { intros Hc. apply Hs5, Hs4, Hs3, Hs2. by apply H1. }
  destruct (ret =? AUTH_SUCCESS); cbn [ensures fst]; [|auto].
  apply ensures_ask. intros [] tr6 Hs6 _. cbn [ensures fst]. intros Hr. split; [|eapply authentic_lasting; eauto].
  intros E. by apply Hs6, Hc.
Qed.

(** What has to be so when a client is accepted: it sent a startup packet, through TLS when
    an entry demands it; the first entry that matches it does not reject it; the pool gave
    out a connection; and the client has proved who it is. *)
Record admitted (K : crypto) (cfg : security) (gracefully : bool) (address : string) (tr : list event)
  (request : message) (c_tls : bool) (u d : list Z) (method : Z) (c : connection) : Prop := {
  ad_request : Ev (ReadMsg Client c_tls) (Some request) ∈ tr;
  ad_version : get_request (Some request) = Some 196608;
  ad_names : exists st, extract_username_database request = Some st /\ s_username st = Some u /\ s_database st = Some d;
  ad_tls : is_tls_user cfg (cstr u) (cstr d) = true -> c_tls = true;
  ad_entry : is_allowed cfg (cstr u) (cstr d) address = Some (Some method);
  ad_not_rejected : method <> SECURITY_REJECT;
  ad_running : gracefully = false;
  ad_enabled : is_disabled cfg (cstr d) = false;
  ad_connection : Ev (GetConnection u d) (0, c) ∈ tr;
  ad_certificate : certified method u tr;
  ad_authentic : authentic K cfg method u c tr }.

Lemma authentic_appname (K : crypto) (cfg : security) (method : Z) (u : list Z) (c : connection) (a : string)
  (tr : list event) :
  authentic K cfg method u (set_c_appname a c) tr -> authentic K cfg method u c tr.
Proof.
  intros [p m Hp Hm Ho|Ha Hi Hq|Hn Hi Hr|Hn Ha Hb].
  - by apply (auth_password _ _ _ _ _ _ p m).
  - by apply auth_by_query.
  - by apply auth_replayed.
  - by apply auth_by_server.
Qed.

Section admission.
Context (K : crypto) (cfg : security) (binding required tls_server : Z -> bool) (tries : nat).

Lemma login_sound (request : message) (c_tls : bool) (st : startup) (u d : list Z) (method : Z) (tr : list event) :
  ensures (login K cfg binding required tls_server tries request c_tls st u d method)
    (fun r tr' => r.1 = AUTH_SUCCESS -> exists c, Ev (GetConnection u d) (0, c) ∈ tr'
       /\ certified method u tr' /\ authentic K cfg method u c tr') tr.
Proof.
  unfold login. apply ensures_ask. intros [ret c] tr1 _ H1.
  destruct (ret =? 1); [apply ensures_skip; by intros [] tr2 _|].
  destruct (Z.eqb_spec ret 0) as [->|]; cbn [negb]; [|apply ensures_skip; by intros [] tr2 _].
  apply ensures_need. intros c1 Hc1.
  assert (c1 = c \/ exists a, c1 = set_c_appname a c) as Hc.
  { destruct (s_appname st); [|left; congruence]. apply bind_Some in Hc1 as (a & _ & [= <-]). eauto. }
  assert (forall tr', authentic K cfg method u c1 tr' -> authentic K cfg method u c tr') as Hau.
  { intros tr'. destruct Hc as [->|[a ->]]; [done|]. apply authentic_appname. }
  destruct (Z.eqb_spec (c_has_security c1) SECURITY_INVALID); cbn [negb].
  - eapply ensures_seq; [apply unpooled_sound|]. intros [r c2] tr2 Hs2 H2. cbn [ensures fst snd] in *. intros Hr.
    destruct (H2 Hr). exists c. eauto.
  - eapply ensures_seq; [by apply pooled_sound|]. intros r tr2 Hs2 H2. cbn [ensures fst snd] in *. intros Hr.
    destruct (H2 Hr). exists c. eauto.
Qed.

Lemma request_sound (gracefully : bool) (address : string) (msg : message) (c_tls : bool) (tr : list event) :
  Ev (ReadMsg Client c_tls) (Some msg) ∈ tr ->
  ensures (start_request K cfg binding required tls_server tries gracefully address msg c_tls)
    (fun r tr' => r.1 = AUTH_SUCCESS -> exists request c_tls u d method c,
       admitted K cfg gracefully address tr' request c_tls u d method c) tr.
Proof.
  intros Hm. unfold start_request. apply ensures_need. intros request Hr.
  destruct (Z.eqb_spec request 196608) as [->|]; [|].
  2: { destruct (request =? -1); [done|]. apply ensures_skip. by intros [] tr1 _. }
  unfold admit_client. apply ensures_need. intros st Hst. apply ensures_need. intros u Hu. apply ensures_need. intros d Hd.
  assert (forall tr, ensures (refuse c_tls (write_connection_refused false) ;;; Ret (AUTH_BAD_PASSWORD, None : option connection))
    (fun r tr' => r.1 = AUTH_SUCCESS -> exists request c_tls u d method c,
       admitted K cfg gracefully address tr' request c_tls u d method c) tr) as Hbad.
  { intros tr0. apply ensures_skip. by intros [] tr1 _. }
  destruct (is_tls_user cfg (cstr u) (cstr d) && negb c_tls) eqn:Ht; [apply Hbad|].
  apply ensures_need. intros [method|] Ha; [|apply ensures_skip; by intros [] tr1 _].
  destruct (Z.eqb_spec method SECURITY_REJECT) as [|Hrej]; [apply Hbad|].
  destruct gracefully eqn:Hg; [apply Hbad|]. destruct (is_disabled cfg (cstr d)) eqn:Hdis; [apply Hbad|].
  eapply ensures_mono; [|apply login_sound]. intros r tr1 Hs1 H Hr1. destruct (H Hr1) as (c & H1 & H2 & H3).
  exists msg, c_tls, u, d, method, c. split; eauto. intros Hu'. rewrite Hu' in Ht. by destruct c_tls.
Qed.

End admission.

(** ** Runs *)

(** A run in which an oracle answers the calls, which are numbered. *)
Fixpoint run {A} (orc : forall R, call R -> nat -> R) (p : conv A) (n : nat) : result A :=
  match p with
  | Ret a => Done a
  | Crash => Undefined
  | More => Running
  | Call c k => run orc (k (orc _ c n)) (S n)
  end.

(** What is ensured holds of every run. *)
Lemma ensures_run {A} (orc : forall R, call R -> nat -> R) (p : conv A) (Q : A -> list event -> Prop) (tr : list event) (n : nat)
  (a : A) :
  ensures p Q tr -> run orc p n = Done a -> exists tr', Q a tr'.
Proof.
  revert tr n; induction p as [b| | |R c k IH]; intros tr n; cbn [ensures run]; try done.
  - intros H [= <-]. eauto.
  - intros H Hr. eapply IH; [apply H|done].
Qed.

Definition config_example : config :=
  Config 10 [] [User "alice" "secret"] [] false false false "" 0 0 0 0 0 VALIDATION_OFF STARTUP_VALIDATION_OFF "" ""
    RESET_DISCARD 0.
Definition security_example : security :=
  Security config_example false [Hba "host" "db" "alice" "10.0.0.0/8" "password"] [] [] (User "" "") false [].

Definition startup_example (appname : list Z) : message :=
  startup_message 196608 [(str "user", str "alice"); (str "database", str "db"); (str "application_name", appname)].

(** A pooled connection whose server had trusted pgagroal. *)
Definition pooled_example : connection :=
  Connection "alice" "db" "" false 0 false SECURITY_TRUST [9; 0; 0; 0; 0] [m_data (as_message (chr "R", be32 0)); []; []; []; []]
    0 0 (-1) 0 0 (-1) 7 0 [] false.

(** The client sends a startup packet and then, on request, the password. *)
Definition client_example (appname password : list Z) (R : Type) (c : call R) (n : nat) : R :=
  match c in call R return R with
  | WriteMsg _ _ _ => true
  | ReadMsg _ _ => Some (match n with O => startup_example appname | _ => as_message (chr "p", password ++ [0]) end)
  | ReadComplete _ _ => None
  | RandBytes n => Some (replicate n 0)
  | TimeLeft => false
  | SocketValid _ => true
  | CertHash _ => None
  | PeerCert => None
  | GetPrimary => Some 0
  | CancelTo _ => true
  | TlsSetup => 0
  | TlsHandshake => true
  | GetConnection _ _ => (0, pooled_example)
  | ResumeTls => true
  | ConnectTls _ => false
  | SuAcquire => true
  | SuRelease => tt
  | SuConnect => true
  | SuDisconnect => tt
  | BlockingLeft => false
  | UpdateServer => tt
  end.

(** The name of an application is copied into the slot whatever its length: the slot has
    64 bytes for it, and the identifier of the server and the security follow. *)
Lemma long_appname_crashes (K : crypto) (cfg : security) (binding required tls_server : Z -> bool) (tries : nat) (request : message)
  (c_tls : bool) (st : startup) (u d a : list Z) (method : Z) :
  s_appname st = Some a -> (64 < length a)%nat ->
  exists k, login K cfg binding required tls_server tries request c_tls st u d method = Call (GetConnection u d) k
    /\ forall c, k (0, c) = Crash.
Proof.
  intros Ha Hl. eexists. split; [reflexivity|]. intros c. cbn [bind].
  change (0 =? 1) with false. change (0 =? 0) with true. cbn [negb]. rewrite Ha. unfold copied.
  by rewrite (proj2 (Nat.leb_gt (length a) MAX_APPLICATION_NAME)).
Qed.

Example password_logins :
  run (client_example (str "psql") (str "secret"))
    (authenticate toy security_example (fun _ => false) (fun _ => false) (fun _ => false) 0 false "10.1.2.3") 0
  = Done (AUTH_SUCCESS, Some (set_c_appname "psql" pooled_example))
  /\ run (client_example (str "psql") (str "guess"))
       (authenticate toy security_example (fun _ => false) (fun _ => false) (fun _ => false) 0 false "10.1.2.3") 0
     = Done (AUTH_BAD_PASSWORD, Some (set_c_appname "psql" pooled_example))
  /\ run (client_example (str "psql") (str "secret"))
       (authenticate toy security_example (fun _ => false) (fun _ => false) (fun _ => false) 0 false "11.1.2.3") 0
     = Done (AUTH_BAD_PASSWORD, None).
Proof. by vm_compute. Qed.
