(* ===== verification/AuthQueryFacts.v ===== *)
(** * What the query for a password promises

    The key that the server stores verifies the proofs of the clients that know the
    password, and the lock of the superuser connection is given up by those that do not
    hold it. *)

From Stdlib Require Import Ascii.
From stdpp Require Import pretty.
From S2P Require Import Prelude Wire Frames Message MessageFacts Text Config Pool Hba Scram ScramFacts AuthQuery Auth AuthFacts.

Local Open Scope Z_scope.

(** ** The stored key *)

(** The calls of a run that ends with a result. *)
Inductive trace {A} : conv A -> list event -> A -> Prop :=
| trace_ret (a : A) : trace (Ret a) [] a
| trace_call {R} (c : call R) (k : R -> conv A) (r : R) (tr : list event) (a : A) :
    trace (k r) tr a -> trace (Call c k) (Ev c r :: tr) a.

Section stored.
Context (K : crypto) `{HK : !CryptoLaws K}.

(** The key that PostgreSQL stores for a password. *)
Definition stored_key_of (password salt : list Z) (iterations : Z) : option (list Z) :=
  s_p ← salted_password K password salt iterations;
  c_k ← salted_password_key K s_p (str "Client Key");
  stored_key K c_k.

Lemma xor_cancel (a b : list Z) : length a = length b -> xor_bytes (xor_bytes a b) b = a.
Proof.
  unfold xor_bytes. revert b; induction a as [|x a IH]; intros [|y b] H; try done. cbn [zip_with].
  rewrite Z.lxor_assoc, Z.lxor_nilpotent, Z.lxor_0_r. f_equal. apply IH. by injection H.
Qed.

Lemma stored_key_total (password salt : list Z) (iterations : Z) : exists key, stored_key_of password salt iterations = Some key.
Proof.
  unfold stored_key_of, stored_key, salted_password_key. destruct (salted_total K password salt iterations) as [sp ->].
  cbn [mbind option_bind]. destruct (hmac_total sp (str "Client Key")) as (ck & -> & _). apply sha256_total.
Qed.

Lemma stored_key_length (password salt key : list Z) :
  (forall m h, sha256 K m = Some h -> length h = 32%nat) -> stored_key_of password salt 4096 = Some key -> length key = 32%nat.
Proof.
  intros Hsha. unfold stored_key_of, stored_key. destruct (salted_password _ _ _ _); [|done]. cbn [mbind option_bind].
  destruct (salted_password_key _ _ _); [|done]. cbn [mbind option_bind]. apply Hsha.
Qed.

Lemma query_first_whole (cn sn salt64 : list Z) :
  (length cn + length sn + length salt64 <= 76)%nat -> query_first cn sn salt64 4096 = first_of cn sn salt64.
Proof.
  intros H. unfold query_first, snprintf. change (str (pretty 4096)) with (str "4096"). rewrite <- first_text.
  change (str ",i=4096") with (str ",i=" ++ str "4096"). apply take_ge.
  rewrite !length_app. cbn [length str map String.list_ascii_of_string]. lia.
Qed.

(** What a client sends behind the nonces. *)
Definition client_final (nounces proof : list Z) : message :=
  as_message (chr "p", final_of (base64_encode K (str "n,,")) nounces ++ str ",p=" ++ base64_encode K proof).

Lemma client_final_proof (n proof : list Z) :
  Forall plain_byte n -> bytes_ok proof -> length n = 48%nat -> length proof = 32%nat ->
  let msg := client_final n proof in
  m_length msg = 109 /\ get_scram_attribute (chr "p") (drop 5 (m_data msg)) = Some (base64_encode K proof) /\
  upto_nul (take 57 (drop 5 (m_data msg))) = final_of (base64_encode K (str "n,,")) n.
Proof.
  intros Hn Hp Hln Hlp. cbv zeta. unfold client_final. rewrite base64_gs2. rewrite message_length. cbn [snd].
  assert (Ha : Forall plain_attribute [(chr "c", str "biws"); (chr "r", n); (chr "p", base64_encode K proof)]).
  { repeat apply Forall_cons_2; try apply Forall_nil_2; split; cbn [fst snd]; try done;
      try (by vm_compute); [literal|by apply base64_plain]. }
  assert (Hl : length (final_of (str "biws") n) = 57%nat).
  { change (final_of (str "biws") n) with (str "c=biws,r=" ++ n). by rewrite length_app, Hln. }
  rewrite (message_payload _ 0), drop_0. cbn [snd]. split_and!.
  - rewrite !len_app. unfold len. rewrite Hl, base64_length, Hlp. done.
  - assert (final_of (str "biws") n ++ str ",p=" ++ base64_encode K proof
            = attributes [(chr "c", str "biws"); (chr "r", n); (chr "p", base64_encode K proof)]) as ->.
    { unfold final_of. cbn [attributes attribute fst snd app]. by rewrite <- !app_assoc. }
    rewrite get_attribute by done. done.
  - rewrite take_app_length' by done. apply upto_nul_whole, attributes_text.
    rewrite !Forall_cons in Ha. repeat apply Forall_cons_2; try apply Forall_nil_2; tauto.
Qed.

Lemma buffer_of_proof (proof : list Z) :
  bytes_ok proof -> length proof = 32%nat -> base64_buffer K (base64_encode K proof) = proof ++ [0; 0].
Proof. intros Hp Hl. unfold base64_buffer. by rewrite base64_inverse, base64_length, Hl by done. Qed.

Context (Hsha : forall m h, sha256 K m = Some h -> length h = 32%nat).

(** The verification for the buffers of a stored key and of a proof. *)
Lemma verify_buffers (key pad proof rest bare first wo_proof signature : list Z) :
  length key = 32%nat -> length proof = 32%nat -> hmac_sha256 K key (auth_message bare first wo_proof) = Some signature ->
  verify_client_proof K (key ++ pad) 32 (proof ++ rest) bare first wo_proof
  = Some (bool_decide (sha256 K (xor_bytes proof signature) = Some key)).
Proof.
  intros Hk Hp Hs. unfold verify_client_proof, stored_key. rewrite take_app_length', Hs by done.
  rewrite (proj2 (Nat.ltb_ge _ _)) by (rewrite length_app; lia). rewrite take_app_length' by done.
  destruct (sha256_total (xor_bytes proof signature)) as [h Hh]. rewrite Hh.
  rewrite (proj2 (Nat.ltb_ge _ _)) by (rewrite length_app; lia). rewrite !(take_ge h) by (by rewrite (Hsha _ _ Hh)).
  f_equal. apply bool_decide_ext. split; congruence.
Qed.

End stored.

(** ** The messages *)

(** The query contains the name of the user as the client sent it, quotes included. *)
Lemma password_query_text (u : list Z) :
  password_message u
  = Some (as_message (chr "Q", str "SELECT * FROM public.pgagroal_get_password('" ++ u ++ str "');" ++ [0])).
Proof. unfold password_message. build_frame. Qed.

Lemma str_inj (a b : string) : str a = str b -> a = b.
Proof.
  unfold str. intros H. rewrite <- (String.string_of_list_ascii_of_string a), <- (String.string_of_list_ascii_of_string b).
  f_equal. revert H. apply list_fmap_eq_inj. intros x y E. unfold code in E.
  rewrite <- (ascii_nat_embedding x), <- (ascii_nat_embedding y). f_equal. lia.
Qed.

Lemma take_prefix_inv (n : nat) (pre s t : list Z) :
  take n (pre ++ s) = pre ++ t -> (length pre + length t < n)%nat -> s = t.
Proof.
  intros E Hn. rewrite take_app_ge in E by lia. apply app_inv_head in E.
  assert (length (take (n - length pre) s) = length t) as Hl by by rewrite E. rewrite length_take in Hl.
  rewrite take_ge in E by lia. done.
Qed.

(** The text that enters the proof is not the one that was sent when the stored password
    was made with another number of iterations. *)
Lemma query_first_differs (cn sn salt64 : list Z) (i : Z) :
  (length cn + length sn + length salt64 <= 75)%nat -> i <> 4096 -> query_first cn sn salt64 i <> first_of cn sn salt64.
Proof.
  intros Hl Hi E. apply Hi, (inj pretty), str_inj. change (str (pretty 4096)) with (str "4096").
  apply (take_prefix_inv 88 (str "r=" ++ cn ++ sn ++ str ",s=" ++ salt64 ++ str ",i=")).
  - rewrite <- !app_assoc. unfold query_first, snprintf in E. change (89 - 1)%nat with 88%nat in E. rewrite E.
    rewrite <- first_text. change (str ",i=4096") with (str ",i=" ++ str "4096"). done.
  - rewrite !length_app. cbn [length str map String.list_ascii_of_string]. lia.
Qed.

(** ** The lock of the superuser connection *)

Definition acquires (e : event) : bool :=
  match e with
  | Ev c r => (match c in call R return R -> bool with SuAcquire => fun b => b | _ => fun _ => false end) r
  end.

(** A client that could not take the superuser connection stores it free, although
    another one holds it. *)
Lemma su_lock_freed_by_waiter (K : crypto) (cfg : security) (tls_server : Z -> bool) (tries : nat) (c_tls : bool)
  (u d : list Z) (c : connection) :
  time_is_valid (blocking_timeout (s_config cfg)) = false ->
  exists tr, trace (auth_query K cfg tls_server tries c_tls u d c) tr AUTH_ERROR
    /\ Ev SuAcquire false ∈ tr /\ Forall (fun e => acquires e = false) tr /\ Ev SuRelease tt ∈ tr.
Proof.
  intros Hb. destruct (write_connection_refused false) as [m|] eqn:Em; [|done]. destruct write_empty as [m'|] eqn:Em'; [|done].
  exists [Ev GetPrimary (Some 0); Ev SuAcquire false; Ev (WriteMsg Client c_tls m) true; Ev (WriteMsg Client c_tls m') true;
     Ev SuRelease tt].
  split_and!; [|set_solver|by repeat constructor|set_solver].
  unfold auth_query, auth_query_get_connection. apply trace_call. cbn [bind]. rewrite Hb.
  destruct tries; cbn [su_acquire]; apply trace_call; cbn [bind]; change (AUTH_TIMEOUT =? AUTH_BAD_PASSWORD) with false;
    change ((AUTH_TIMEOUT =? AUTH_ERROR) || (AUTH_TIMEOUT =? AUTH_TIMEOUT)) with true; cbn [bind];
    unfold write; rewrite Em, Em'; cbn [need bind]; repeat apply trace_call; apply trace_ret.
Qed.

Lemma b64_plain_65 : plain_byte 65.
Proof. unfold plain_byte. change (chr ",") with 44. lia. Qed.

