(* ===== verification/Queries.v ===== *)
(** * Queries that pgagroal sends itself ([libpgagroal/server.c], [libpgagroal/queries.c])

    To check a server, to compare the servers and to report on them pgagroal connects as the
    user of the health check, logs in, sends one query and takes the reply apart.  A
    connection is what its socket answers; the conversation of the login is the one
    of [AuthQuery].  The messages are read into one buffer of the process, which is
    cleared between messages but not between the messages of a login. *)

From Stdlib Require Import Ascii.
From S2P Require Import Prelude Wire Frames Message Text Config Hba Scram AuthQuery.

Local Open Scope Z_scope.

Definition HEALTH_CHECK_AUTH_TRUST : Z := 1.
Definition HEALTH_CHECK_AUTH_SCRAM : Z := 3.
Definition HEALTH_CHECK_AUTH_ERROR : Z := 4.

(** ** Connections *)

(** The answers of the socket to [read] and to [write], [errno], the answers of the random
    generator, what was sent, and the buffer of the process up to its last byte that is not 0. *)
Record link := Link {
  l_reads : list rres;
  l_writes : list wres;
  l_errno : option errno;
  l_random : list (option (list Z));
  l_sent : list Z;
  l_buffer : list Z }.

(** Code that uses a connection. *)
Definition io (A : Type) : Type := link -> result (A * link).

Definition io_ret {A} (a : A) : io A := fun l => Done (a, l).
Definition io_bind {A B} (p : io A) (f : A -> io B) : io B := fun l =>
  match p l with Done (a, l) => f a l | Undefined => Undefined | Running => Running end.

(** A value that is used without a test, and a loop. *)
Definition io_need {A} (o : option A) : io A := fun l => match o with Some a => Done (a, l) | None => Undefined end.
Definition io_loop {A} (r : result A) : io A := fun l =>
  match r with Done a => Done (a, l) | Undefined => Undefined | Running => Running end.

Declare Scope io_scope.
Delimit Scope io_scope with io.
Notation "'let!' x := p 'in' q" := (io_bind p (fun x => q)) (at level 200, x name, p at level 100, q at level 200) : io_scope.
Local Open Scope io_scope.

(** The buffer after a message was read into it. *)
Definition overwrite (data buffer : list Z) : list Z := data ++ drop (length data) buffer.

Definition set_buffer (b : list Z) (l : link) : link := Link (l_reads l) (l_writes l) (l_errno l) (l_random l) (l_sent l) b.

(** [pgagroal_read_timeout_message] without TLS; [None] is any status but OK. *)
Definition read_timeout_message : io (option message) := fun l =>
  match read_message (l_reads l) true (l_errno l) with
  | Done (_, Some m, rs, err) => Done (Some m, Link rs (l_writes l) err (l_random l) (l_sent l) (overwrite (m_data m) (l_buffer l)))
  | Done (_, None, rs, err) => Done (None, Link rs (l_writes l) err (l_random l) (l_sent l) (l_buffer l))
  | Undefined => Undefined
  | Running => Running
  end.

Definition io_read_complete : io (option message) := fun l =>
  match read_complete_message false (l_reads l) (l_errno l) with
  | Done (_, Some m, rs) => Done (Some m, Link rs (l_writes l) (l_errno l) (l_random l) (l_sent l) (overwrite (m_data m) (l_buffer l)))
  | Done (_, None, rs) => Done (None, Link rs (l_writes l) (l_errno l) (l_random l) (l_sent l) (l_buffer l))
  | Undefined => Undefined
  | Running => Running
  end.

(** [pgagroal_clear_message]. *)
Definition clear_message : io unit := fun l => Done (tt, set_buffer [] l).

(** [pgagroal_write_message] without TLS. *)
Definition io_write (m : message) : io bool := fun l =>
  match write_message (l_writes l) m with
  | Done (status, sent, ws) => Done (status =? MESSAGE_STATUS_OK, Link (l_reads l) ws (l_errno l) (l_random l) (l_sent l ++ sent) (l_buffer l))
  | Undefined => Undefined
  | Running => Running
  end.

(** [pgagroal_write_socket]: one call of [write]; the callers take a part for a failure. *)
Definition write_socket (bs : list Z) : io bool := fun l =>
  match l_writes l with
  | [] => Running
  | w :: ws =>
      let sent := match w with Wrote n => take (N.to_nat n) bs | WFail _ => [] end in
      Done (len sent =? len bs, Link (l_reads l) ws (l_errno l) (l_random l) (l_sent l ++ sent) (l_buffer l))
  end.

(** What a conversation with the server asks for; the other calls of [Scram] are not made. *)
Definition answer {R} (c : call R) : io R :=
  match c in call R return io R with
  | WriteMsg _ _ m => io_write m
  | ReadMsg _ _ => read_timeout_message
  | ReadComplete _ _ => io_read_complete
  | RandBytes _ => fun l =>
      match l_random l with
      | [] => Running
      | r :: rs => Done (r, Link (l_reads l) (l_writes l) (l_errno l) rs (l_sent l) (l_buffer l))
      end
  | _ => fun _ => Undefined
  end.

Fixpoint run_conv {A} (p : conv A) : io A :=
  match p with
  | Ret a => io_ret a
  | Crash => fun _ => Undefined
  | More => fun _ => Running
  | Call c k => io_bind (answer c) (fun r => run_conv (k r))
  end.

(** ** The buffer *)

(** [n] bytes of it; outside of its 131072 bytes the behaviour is undefined. *)
Definition buffer_region (buf : list Z) (off n : Z) : option (list Z) :=
  if (0 <=? off) && (0 <=? n) && (off + n <=? DEFAULT_BUFFER_SIZE)
  then Some (take (Z.to_nat n) (drop (Z.to_nat off) buf ++ zeroed n))
  else None.

Definition buffer_byte (buf : list Z) (off : Z) : option Z := bs ← buffer_region buf off 1; read_byte bs 0.
Definition buffer_int16 (buf : list Z) (off : Z) : option Z := bs ← buffer_region buf off 2; read_int16 false bs 0.
Definition buffer_int32 (buf : list Z) (off : Z) : option Z := bs ← buffer_region buf off 4; read_int32 false bs 0.

(** ** Replies *)

(** What the code does with one message of a reply: go on, stop, or jump to its error label. *)
Inductive flow (S : Type) := Next (s : S) | Stop (s : S) | Fail.
Arguments Next {S} s.
Arguments Stop {S} s.
Arguments Fail {S}.

(** The loops over the messages of one read: the kind, the length and the offset of a message
    are given to [step].  The sum of an offset and a length that does not fit an [int] is
    undefined. *)
Fixpoint walk {S} (step : Z -> Z -> Z -> S -> option (flow S)) (buf : list Z) (length : Z) (fuel : nat) (offset : Z) (s : S)
  : result (flow S) :=
  if offset <? length then
    match fuel with
    | O => Running
    | Datatypes.S fuel =>
        match (kind ← buffer_byte buf offset; n ← buffer_int32 buf (offset + 1); r ← step kind n offset s; Some (n, r)) with
        | None => Undefined
        | Some (n, Next s) => if offset + 1 + n <? 2 ^ 31 then walk step buf length fuel (offset + 1 + n) s else Undefined
        | Some (_, r) => Done r
        end
    end
  else Done (Next s).

(** A message that is not empty advances the offset. *)
Definition walk_message {S} (step : list Z -> Z -> Z -> Z -> S -> option (flow S)) (m : message) (s : S) : io (flow S) := fun l =>
  io_loop (walk (step (l_buffer l)) (l_buffer l) (m_length m) (Z.to_nat (m_length m)) 0 s) l.

(** The bytes that are still to be read. *)
Definition bytes_left (rs : list rres) : nat :=
  list_sum (map (fun r => match r with RData _ bs => S (length bs) | _ => O end) rs).

(** The loops over the reads, until [step] stops; every read takes a byte off the socket. *)
Fixpoint read_reply {S} (step : list Z -> Z -> Z -> Z -> S -> option (flow S)) (fuel : nat) (s : S) : io (option S) :=
  match fuel with
  | O => fun _ => Running
  | Datatypes.S fuel =>
      let! m := read_timeout_message in
      match m with
      | None => io_ret None
      | Some m =>
          let! r := walk_message step m s in
          let! _ := clear_message in
          match r with
          | Next s => read_reply step fuel s
          | Stop s => io_ret (Some s)
          | Fail => io_ret None
          end
      end
  end.

Definition whole_reply {S} (step : list Z -> Z -> Z -> Z -> S -> option (flow S)) (s : S) : io (option S) := fun l =>
  read_reply step (Datatypes.S (bytes_left (l_reads l))) s l.

(** ** [pgagroal_server_query_execute] *)

Section queries.
Context (K : crypto) (cfg : security).

(** The loop that waits for [ReadyForQuery]. *)
Definition session_step (_ : list Z) (kind _ _ : Z) (_ : unit) : option (flow unit) :=
  Some (if kind =? chr "Z" then Stop tt else if kind =? chr "E" then Fail else Next tt).

Definition wait_ready (m : message) : io bool :=
  let! r := walk_message session_step m tt in
  let! _ := clear_message in
  match r with
  | Next _ => let! r := whole_reply session_step tt in io_ret (bool_decide (is_Some r))
  | Stop _ => io_ret true
  | Fail => io_ret false
  end.

(** The query, in a buffer of 1024 bytes. *)
Definition send_query (query : string) : io bool :=
  if 1024 <? 1 + 4 + len (str query) + 1 then io_ret false
  else
    let! b := io_need (b ← put_byte 0 (chr "Q") (zeroed 1024);
                       b ← put_int32 false 1 (4 + len (str query) + 1) b;
                       put_string 5 (str query) b) in
    write_socket (take (Z.to_nat (1 + 4 + len (str query) + 1)) b).

(** The first answer of the server: the kind of the login and the message that is in the
    buffer then. *)
Definition server_login (user : string) (m : message) : io (option (Z * message)) := fun l =>
  if negb (m_kind m =? chr "R") then Done (None, l)
  else
    (let! auth := io_need (buffer_int32 (l_buffer l) 5) in
     if auth =? 0 then io_ret (Some (HEALTH_CHECK_AUTH_TRUST, m))
     else if auth =? 10 then
       match get_user_password cfg user with
       | None => io_ret None
       | Some password =>
           let! r := run_conv (scram_client_auth K Backend false (str password)) in
           match r with
           | (status, Some m) => io_ret (if status =? AUTH_SUCCESS then Some (HEALTH_CHECK_AUTH_SCRAM, m) else None)
           | (_, None) => io_ret None
           end
       end
     else io_ret None) l.

(** With the connection that [pgagroal_connect] made: the kind of the login when the query
    was sent. *)
Definition server_query_execute (user database query : string) : io (option Z) :=
  let! startup := io_need (create_startup_message false (str user) (str database)) in
  let! ok := io_write startup in
  if negb ok then io_ret None
  else
    let! m := read_timeout_message in
    match m with
    | None => io_ret None
    | Some m =>
        let! r := server_login user m in
        match r with
        | None => let! _ := clear_message in io_ret None
        | Some (auth, m) =>
            let! ready := wait_ready m in
            if negb ready then io_ret None
            else
              let! ok := send_query query in
              io_ret (if ok then Some auth else None)
        end
    end.

(** [pgagroal_write_terminate]; its result is not used. *)
Definition terminate : io unit :=
  let! m := io_need write_terminate in
  let! _ := io_write m in
  io_ret tt.

(** ** Rows *)

(** [pgagroal_read_query_multiple_columns_text]: one column of a row, which [goto error] when
    it does not fit the buffer that it is copied to. *)
Fixpoint row_columns (buf : list Z) (sizes : list Z) (off : Z) : option (option (list (list Z))) :=
  match sizes with
  | [] => Some (Some [])
  | size :: sizes =>
      col_len ← buffer_int32 buf off;
      if col_len <=? 0 then
        r ← row_columns buf sizes (off + 4); Some (option_map (cons []) r)
      else if size <=? col_len then Some None
      else
        v ← buffer_region buf (off + 4) col_len;
        r ← row_columns buf sizes (off + 4 + col_len); Some (option_map (cons v) r)
  end.

(** The values that were read, if any were. *)
Definition columns_step (sizes : list Z) (buf : list Z) (kind n offset : Z) (s : option (list (list Z)))
  : option (flow (option (list (list Z)))) :=
  if n <=? 0 then Some Fail
  else if kind =? chr "D" then
    num_cols ← buffer_int16 buf (offset + 5);
    if num_cols =? Z.of_nat (length sizes) then
      r ← row_columns buf sizes (offset + 7);
      Some (match r with Some vs => Next (Some vs) | None => Fail end)
    else Some Fail
  else if kind =? chr "E" then Some Fail
  else if kind =? chr "Z" then Some (Stop s)
  else Some (Next s).

Definition read_query_multiple_columns_text (sizes : list Z) : io (option (list (list Z))) :=
  if existsb (fun size => size <=? 0) sizes || bool_decide (sizes = []) then io_ret None
  else
    let! r := whole_reply (columns_step sizes) None in
    io_ret (mjoin r).

(** [pgagroal_read_query_first_column_text]. *)
Definition first_column_step (value_size : Z) (buf : list Z) (kind n offset : Z) (s : option (list Z))
  : option (flow (option (list Z))) :=
  if n <=? 0 then Some Fail
  else if kind =? chr "D" then
    num_cols ← buffer_int16 buf (offset + 5);
    if 1 <=? num_cols then
      col_len ← buffer_int32 buf (offset + 7);
      if (col_len =? -1) || (col_len =? 0) then Some (Next (Some []))
      else if 0 <? col_len then
        if value_size <=? col_len then Some Fail
        else v ← buffer_region buf (offset + 11) col_len; Some (Next (Some v))
      else Some (Next s)
    else Some (Next s)
  else if kind =? chr "E" then Some Fail
  else if kind =? chr "Z" then Some (Stop s)
  else Some (Next s).

Definition read_query_first_column_text (value_size : Z) : io (option (list Z)) :=
  if value_size =? 0 then io_ret None
  else
    let! r := whole_reply (first_column_step value_size) None in
    io_ret (mjoin r).

(** ** The checks *)

(** A connection that could not be made is [None]. *)
Definition connected {A} (c : option link) (failed : A) (p : io A) : result A :=
  match c with
  | None => Done failed
  | Some l => match p l with Done (a, _) => Done a | Undefined => Undefined | Running => Running end
  end.

(** [config->health_check_user]. *)
Let check_user : string := health_check_user (s_config cfg).

(** [server_probe]: the status, whether the server is up, and the kind of the login. *)
Definition probe_step (_ : list Z) (kind _ _ : Z) (success : bool) : option (flow bool) :=
  Some (if (kind =? chr "T") || (kind =? chr "C") || (kind =? chr "D") then Next true
        else if kind =? chr "E" then Next false
        else if kind =? chr "Z" then Stop success
        else Next success).

Definition server_probe (c : option link) : result (option (bool * Z)) :=
  connected c None
    (let! auth := server_query_execute check_user check_user "SELECT 1" in
     match auth with
     | None => io_ret None
     | Some auth =>
         let! r := whole_reply probe_step false in
         match r with
         | None => io_ret None
         | Some up => let! _ := terminate in io_ret (Some (up, auth))
         end
     end).

(** [atoi] and [strtoll]: blanks, a sign and digits. *)
Definition strtoll (s : list Z) : Z * list Z :=
  let s := upto_nul s in
  let s' := String.string_of_list_ascii (map (fun b => ascii_of_nat (Z.to_nat b)) s) in
  let r := skip_space s' in
  let '(sg, r) := match r with
                  | String "-" r' => (-1, r')
                  | String "+" r' => (1, r')
                  | _ => (1, r)
                  end%char in
  match r with
  | String c _ => if is_digit c then let '(v, rest) := scan_digits 0 r in (sg * v, str rest) else (0, s)
  | EmptyString => (0, s)
  end.

Definition atoi (s : list Z) : Z := i32 (Z.max (- 2 ^ 63) (Z.min (2 ^ 63 - 1) (strtoll s).1)).

(** [query_system_identifier]: one row with the identifier and the version; both are kept when a row
    does not have them. *)
Definition identifier_step (id_size : Z) (buf : list Z) (kind n offset : Z) (s : list Z * Z) : option (flow (list Z * Z)) :=
  let '(identifier, version) := s in
  if kind =? chr "D" then
    num_cols ← buffer_int16 buf (offset + 5);
    '(identifier, off) ← (if 1 <=? num_cols then
                            col_len ← buffer_int32 buf (offset + 7);
                            identifier ← (if (0 <? col_len) && (col_len <? id_size)
                                          then buffer_region buf (offset + 11) col_len else Some identifier);
                            Some (identifier, offset + 11 + Z.max 0 col_len)
                          else Some (identifier, offset + 7));
    version ← (if 2 <=? num_cols then
                 col_len2 ← buffer_int32 buf off;
                 if 0 <? col_len2 then
                   ver ← buffer_region buf (off + 4) (Z.min col_len2 31);
                   Some (Z.quot (atoi ver) 100)
                 else Some version
               else Some version);
    Some (Next (identifier, version))
  else if kind =? chr "Z" then Some (Stop s)
  else if kind =? chr "E" then Some Fail
  else Some (Next s).

Definition queries_system_identifier : string :=
  "SELECT system_identifier, current_setting( 'server_version_num' ) FROM pg_control_system()".

(** The identifier and the version, when the identifier is not empty. *)
Definition query_system_identifier (c : option link) : result (option (list Z * Z)) :=
  connected c None
    (let! auth := server_query_execute check_user check_user queries_system_identifier in
     match auth with
     | None => io_ret None
     | Some _ =>
         let! r := whole_reply (identifier_step 64) ([], 0) in
         match r with
         | None => io_ret None
         | Some (identifier, version) =>
             let! _ := terminate in
             io_ret (match upto_nul identifier with [] => None | id => Some (id, version) end)
         end
     end).

(** [pgagroal_server_get_connectivity_info], for a server that exists: the status, whether it is the primary, and how far
    it is behind.  Two queries, each with a connection of its own. *)
Definition queries_is_in_recovery : string := "SELECT pg_is_in_recovery();".
Definition queries_replication_lag_bytes : string :=
  "SELECT COALESCE(pg_wal_lsn_diff(pg_last_wal_receive_lsn(), pg_last_wal_replay_lsn()), 0)::bigint;".

Definition behind_bytes (value : option (list Z)) : Z :=
  match value with
  | None | Some [] => -1
  | Some v =>
      let '(n, rest) := strtoll v in
      if (- 2 ^ 63 <=? n) && (n <? 2 ^ 63) && bool_decide (rest = []) && negb (bool_decide (upto_nul v = [])) then n else -1
  end.

Definition query_text (query : string) (size : Z) : io (bool * option (list Z)) :=
  let! auth := server_query_execute check_user check_user query in
  match auth with
  | None => io_ret (false, None)
  | Some _ =>
      let! v := read_query_first_column_text size in
      let! _ := terminate in
      io_ret (true, v)
  end.

Definition server_get_connectivity_info (c1 c2 : option link) : result (string * string * Z) :=
  if streq check_user "" then Done ("Down", "Unknown", -1)
  else
    match connected c1 (false, None) (query_text queries_is_in_recovery 16) with
    | Done (false, _) => Done ("Down", "Unknown", -1)
    | Done (true, None) => Done ("Running", "Unknown", -1)
    | Done (true, Some v) =>
        if negb (v !!! O =? chr "t") then Done ("Running", "Yes", -1)
        else
          match connected c2 (false, None) (query_text queries_replication_lag_bytes 64) with
          | Done (false, _) => Done ("Running", "No", -1)
          | Done (true, v) => Done ("Running", "No", behind_bytes v)
          | Undefined => Undefined
          | Running => Running
          end
    | Undefined => Undefined
    | Running => Running
    end.

(** [pgagroal_server_get_wal_receiver_status], for a server that exists. *)
Definition queries_wal_receiver_status : string :=
  "SELECT status, slot_name, sender_host, sender_port FROM pg_stat_wal_receiver;".

Definition server_get_wal_receiver_status (sizes : list Z) (c : option link) : result (option (list (list Z))) :=
  if streq check_user "" then Done None
  else
    connected c None
      (let! auth := server_query_execute check_user check_user queries_wal_receiver_status in
       match auth with
       | None => io_ret None
       | Some _ =>
           let! r := read_query_multiple_columns_text sizes in
           let! _ := terminate in
           io_ret r
       end).
End queries.
