(* ===== verification/QueriesFacts.v ===== *)
(** * Facts about the queries of pgagroal and the health checks

    A reply whose messages arrive whole is taken apart as it was put together, however many of them come
    with a read.  A server is reported down after three probes in a row that failed.  And two
    ways in which a check does not end. *)

From Stdlib Require Import Ascii.
From S2P Require Import Prelude Wire Frames Message MessageFacts Text Config Effects Hba Scram ScramFacts AuthQuery Queries.

Local Open Scope Z_scope.
Local Open Scope io_scope.

(** ** The buffer *)

Lemma buffer_region_app (pre mid post : list Z) (off n : Z) :
  off = len pre -> n = len mid -> len (pre ++ mid ++ post) <= DEFAULT_BUFFER_SIZE ->
  buffer_region (pre ++ mid ++ post) off n = Some mid.
Proof.
  intros -> -> Hl. unfold buffer_region, len in *. rewrite !length_app in Hl.
  rewrite !(proj2 (Z.leb_le _ _)) by lia. cbn [andb].
  by rewrite !Nat2Z.id, drop_app_length, <- app_assoc, take_app_length.
Qed.

Lemma region_whole (mid : list Z) (n : Z) : n = len mid -> region mid 0 n = Some mid.
Proof. intros ->. pose proof (region_app [] mid [] 0 (len mid) eq_refl eq_refl) as H. by rewrite app_nil_r in H. Qed.

(** The three kinds of integers where they were put. *)
Lemma buffer_byte_at (pre post : list Z) (b off : Z) :
  off = len pre -> 0 <= b < 128 -> len (pre ++ [b] ++ post) <= DEFAULT_BUFFER_SIZE -> buffer_byte (pre ++ [b] ++ post) off = Some b.
Proof.
  intros E Hb Hl. unfold buffer_byte. rewrite (buffer_region_app pre [b] post off 1 E eq_refl Hl). cbn [mbind option_bind].
  exact (read_byte_at [] [] b 0 eq_refl Hb).
Qed.

Lemma buffer_int32_at (pre post : list Z) (v off : Z) :
  off = len pre -> in_i 32 v -> len (pre ++ be32 v ++ post) <= DEFAULT_BUFFER_SIZE -> buffer_int32 (pre ++ be32 v ++ post) off = Some v.
Proof.
  intros E Hv Hl. unfold buffer_int32. rewrite (buffer_region_app pre (be32 v) post off 4 E eq_refl Hl). cbn [mbind option_bind].
  pose proof (read_int32_at [] [] v 0 eq_refl Hv) as H. by rewrite app_nil_r in H.
Qed.

Definition be16 (v : Z) : list Z := rev (le_bytes 2 v).

Lemma buffer_int16_at (pre post : list Z) (v off : Z) :
  off = len pre -> in_i 16 v -> len (pre ++ be16 v ++ post) <= DEFAULT_BUFFER_SIZE -> buffer_int16 (pre ++ be16 v ++ post) off = Some v.
Proof.
  intros E Hv Hl. unfold buffer_int16. rewrite (buffer_region_app pre (be16 v) post off 2 E eq_refl Hl). cbn [mbind option_bind].
  unfold read_int16. rewrite region_whole by done. cbn [mbind option_bind]. unfold be16. rewrite network_read_write.
  change (_ mod _) with (u16 v). by rewrite wraps_wrapu, wraps_id.
Qed.

(** ** Whole messages *)

Section frames.
Context {S : Type} (step : list Z -> Z -> Z -> Z -> S -> option (flow S)) (g : S -> Z * list Z -> flow S) (good : Z * list Z -> Prop).

(** On a message that is whole in the buffer the step does what [g] says. *)
Definition follows : Prop :=
  forall (pre post : list Z) (f : Z * list Z) (s : S),
    frame_ok f -> good f -> len (pre ++ frame f ++ post) <= DEFAULT_BUFFER_SIZE ->
    step (pre ++ frame f ++ post) f.1 (4 + len f.2) (len pre) s = Some (g s f).

Fixpoint fold_flow (s : S) (fs : list (Z * list Z)) : flow S :=
  match fs with
  | [] => Next s
  | f :: fs => match g s f with Next s => fold_flow s fs | r => r end
  end.

Lemma fold_flow_app (s : S) (fs fs' : list (Z * list Z)) :
  fold_flow s (fs ++ fs') = match fold_flow s fs with Next s => fold_flow s fs' | r => r end.
Proof. revert s; induction fs as [|f fs IH]; intros s; [done|]. cbn [fold_flow app]. destruct (g s f); [apply IH|done|done]. Qed.

Lemma walk_frames (Hstep : follows) (fs : list (Z * list Z)) (pre buf : list Z) (fuel : nat) (s : S) :
  Forall frame_ok fs -> Forall good fs -> buf = pre ++ frames fs -> len buf <= DEFAULT_BUFFER_SIZE -> (length fs <= fuel)%nat ->
  walk (step buf) buf (len buf) fuel (len pre) s = Done (fold_flow s fs).
Proof.
  intros Hok. revert pre fuel s. induction Hok as [|f fs Hf _ IH]; intros pre fuel s Hg E Hl Hfu.
  { unfold frames in E. simpl in E. rewrite app_nil_r in E. subst pre. destruct fuel; cbn [walk]; by rewrite Z.ltb_irrefl. }
  apply Forall_cons in Hg as [Hgf Hg]. destruct fuel as [|fuel]; [simpl in Hfu; lia|].
  change (frames (f :: fs)) with (frame f ++ frames fs) in E. cbn [walk].
  assert (Hlen : len buf = len pre + (5 + len f.2) + len (frames fs)).
  { subst buf. unfold len. rewrite !length_app, length_frame. lia. }
  rewrite (proj2 (Z.ltb_lt _ _)) by (rewrite Hlen; unfold len; lia).
  assert (Hk : buffer_byte buf (len pre) = Some f.1).
  { rewrite E. change (frame f ++ frames fs) with ([f.1] ++ (be32 (4 + len f.2) ++ f.2) ++ frames fs).
    apply buffer_byte_at; [done|apply Hf|]. subst buf. done. }
  assert (Hn : buffer_int32 buf (len pre + 1) = Some (4 + len f.2)).
  { assert (E' : buf = (pre ++ [f.1]) ++ be32 (4 + len f.2) ++ (f.2 ++ frames fs)) by (rewrite E; unfold frame; by rewrite <- !app_assoc).
    rewrite E'. apply buffer_int32_at; [by rewrite len_app| |by rewrite <- E'].
    unfold in_i. destruct Hf as [_ Hf]. unfold len in *. lia. }
  rewrite Hk, Hn. cbn [mbind option_bind]. rewrite E at 1. rewrite Hstep by (done || by rewrite <- E). cbn [mbind option_bind fold_flow].
  destruct (g s f) as [s'| |]; [|done|done].
  replace (len pre + 1 + (4 + len f.2)) with (len (pre ++ frame f)) by (unfold len; rewrite length_app, length_frame; lia).
  rewrite (proj2 (Z.ltb_lt _ _)).
  - apply IH; [done|by rewrite E, app_assoc|done|simpl in Hfu; lia].
  - apply (Z.le_lt_trans _ DEFAULT_BUFFER_SIZE); [|done]. rewrite Hlen in Hl. unfold len in *. rewrite length_app, length_frame. lia.
Qed.

(** The reads that bring these messages, one or more whole ones each. *)
Definition read_of (fs : list (Z * list Z)) : list rres := match frames fs with [] => [] | b :: bs => [RData b bs] end.
Definition reads_of (chunks : list (list (Z * list Z))) : list rres := concat (map read_of chunks).

Definition chunk_ok (fs : list (Z * list Z)) : Prop :=
  fs <> [] /\ Forall frame_ok fs /\ Forall good fs /\ len (frames fs) <= MESSAGE_PARSE_BUFFER_SIZE.

(** The connection after some reads. *)
Definition after (l : link) (rs : list rres) (buf : list Z) : link := Link rs (l_writes l) (l_errno l) (l_random l) (l_sent l) buf.

Lemma length_frames_ge (fs : list (Z * list Z)) : (5 * length fs <= length (frames fs))%nat.
Proof. induction fs as [|f fs IH]; [done|]. change (frames (f :: fs)) with (frame f ++ frames fs). rewrite length_app, length_frame. simpl. lia. Qed.

Lemma read_chunk (fs : list (Z * list Z)) (rs : list rres) (l : link) :
  chunk_ok fs -> l_buffer l = [] -> l_reads l = read_of fs ++ rs ->
  exists kind, read_timeout_message l = Done (Some (Message kind (len (frames fs)) (frames fs)), after l rs (frames fs)) /\
    kind = default 0 (fst <$> head fs).
Proof.
  intros (Hne & Hok & _ & Hl) Hb Hr. destruct fs as [|f fs]; [done|]. apply Forall_cons in Hok as [[Hf _] _].
  unfold read_timeout_message. rewrite Hr, Hb. unfold read_of. change (frames (f :: fs)) with (f.1 :: (be32 (4 + len f.2) ++ f.2) ++ frames fs) in *.
  set (bs := (be32 (4 + len f.2) ++ f.2) ++ frames fs) in *. cbn [app read_message]. unfold read_data.
  assert (Hn : (length (f.1 :: bs) <= Z.to_nat MESSAGE_PARSE_BUFFER_SIZE)%nat) by (unfold len in Hl; lia).
  rewrite take_ge, drop_ge by exact Hn. cbn [m_data]. unfold overwrite. rewrite drop_nil, app_nil_r. eexists. split; [done|].
  cbn. apply wraps_id; [lia|]. unfold in_i. simpl. lia.
Qed.

Lemma walk_chunk (Hstep : follows) (fs : list (Z * list Z)) (kind : Z) (s : S) (l : link) :
  chunk_ok fs -> l_buffer l = frames fs ->
  walk_message step (Message kind (len (frames fs)) (frames fs)) s l = Done (fold_flow s fs, l).
Proof.
  intros (Hne & Hok & Hg & Hl) Hb. unfold walk_message. cbn [m_length]. rewrite Hb.
  pose proof (length_frames_ge fs) as Hge.
  rewrite (walk_frames Hstep fs [] (frames fs) _ s Hok Hg eq_refl); [done| |unfold len; lia].
  unfold MESSAGE_PARSE_BUFFER_SIZE, RECV_BUFFER_HEADROOM in Hl. lia.
Qed.

(** What [read_reply] makes of it. *)
Lemma read_reply_chunk (Hstep : follows) (fs : list (Z * list Z)) (rs : list rres) (l : link) (fuel : nat) (s : S) :
  chunk_ok fs -> l_buffer l = [] -> l_reads l = read_of fs ++ rs ->
  read_reply step (Datatypes.S fuel) s l =
    match fold_flow s fs with
    | Next s1 => read_reply step fuel s1 (after l rs [])
    | Stop s1 => Done (Some s1, after l rs [])
    | Fail => Done (None, after l rs [])
    end.
Proof.
  intros Hfs Hb Hr. cbn [read_reply]. destruct (read_chunk fs _ l Hfs Hb Hr) as (kind & E & _). unfold io_bind at 1. rewrite E.
  unfold io_bind at 1. rewrite (walk_chunk Hstep fs kind s (after l rs (frames fs)) Hfs eq_refl).
  change (io_bind clear_message ?f ?l1) with (f tt (set_buffer [] l1)). cbv beta.
  change (set_buffer [] (after l rs (frames fs))) with (after l rs []). by destruct (fold_flow s fs).
Qed.

Lemma read_reply_chunks (Hstep : follows) (chunks : list (list (Z * list Z))) (rs : list rres) (l : link) (fuel : nat) (s : S) :
  Forall chunk_ok chunks -> l_buffer l = [] -> l_reads l = reads_of chunks ++ rs -> (length chunks <= fuel)%nat ->
  match fold_flow s (concat chunks) with
  | Next _ => True
  | Stop s' => exists rs', read_reply step fuel s l = Done (Some s', after l rs' [])
  | Fail => exists rs', read_reply step fuel s l = Done (None, after l rs' [])
  end.
Proof.
  intros Hok. revert l fuel s. induction Hok as [|fs chunks Hfs _ IH]; intros l fuel s Hb Hr Hfu; [done|].
  destruct fuel as [|fuel]; [simpl in Hfu; lia|]. change (reads_of (fs :: chunks)) with (read_of fs ++ reads_of chunks) in Hr. rewrite <- app_assoc in Hr.
  rewrite (read_reply_chunk Hstep fs _ l fuel s Hfs Hb Hr). cbn [concat]. rewrite fold_flow_app.
  destruct (fold_flow s fs) as [s1|s1|]; [|by eexists|by eexists].
  apply (IH (after l (reads_of chunks ++ rs) []) fuel s1 eq_refl eq_refl). simpl in Hfu. lia.
Qed.

(** A reply that ends with the message that stops it is read to its end and not further. *)
Lemma read_reply_exact (Hstep : follows) (chunks : list (list (Z * list Z))) (rs : list rres) (l : link) (fuel : nat) (s s1 s2 : S)
  (init : list (Z * list Z)) (z : Z * list Z) :
  Forall chunk_ok chunks -> l_buffer l = [] -> l_reads l = reads_of chunks ++ rs -> (length chunks <= fuel)%nat ->
  concat chunks = init ++ [z] -> fold_flow s init = Next s1 -> g s1 z = Stop s2 ->
  read_reply step fuel s l = Done (Some s2, after l rs []).
Proof.
  intros Hok. revert l fuel s init. induction Hok as [|fs chunks Hfs Hcs IH]; intros l fuel s init Hb Hr Hfu Hc Hi Hz; [by destruct init|].
  destruct fuel as [|fuel]; [simpl in Hfu; lia|]. change (reads_of (fs :: chunks)) with (read_of fs ++ reads_of chunks) in Hr. rewrite <- app_assoc in Hr.
  rewrite (read_reply_chunk Hstep fs _ l fuel s Hfs Hb Hr). cbn [concat] in Hc.
  destruct chunks as [|fs' chunks].
  - rewrite app_nil_r in Hc. subst fs. rewrite fold_flow_app, Hi. cbn [fold_flow]. by rewrite Hz.
  - assert (concat (fs' :: chunks) <> []) as Hne.
    { apply Forall_cons in Hcs as [(Hne & _) _]. cbn [concat]. by destruct fs'. }
    destruct (exists_last Hne) as (x & z' & Ex). rewrite Ex, app_assoc in Hc. apply app_inj_tail in Hc as [<- ->].
    rewrite fold_flow_app in Hi. destruct (fold_flow s fs) as [s'| |]; try done.
    rewrite (IH (after l (reads_of (fs' :: chunks) ++ rs) []) fuel s' x eq_refl eq_refl ltac:(simpl in *; lia) Ex Hi Hz). done.
Qed.

Lemma bytes_left_chunks (chunks : list (list (Z * list Z))) (rs : list rres) :
  Forall chunk_ok chunks -> (length chunks <= bytes_left (reads_of chunks ++ rs))%nat.
Proof.
  induction 1 as [|fs chunks (Hne & _) _ IH]; [simpl; lia|]. change (reads_of (fs :: chunks)) with (read_of fs ++ reads_of chunks).
  rewrite <- app_assoc. destruct fs as [|f fs]; [done|]. unfold bytes_left in *. cbn [length]. simpl. lia.
Qed.

Lemma reply_chunks (Hstep : follows) (chunks : list (list (Z * list Z))) (rs : list rres) (l : link) (s : S) :
  Forall chunk_ok chunks -> l_buffer l = [] -> l_reads l = reads_of chunks ++ rs ->
  match fold_flow s (concat chunks) with
  | Next _ => True
  | Stop s' => exists rs', whole_reply step s l = Done (Some s', after l rs' [])
  | Fail => exists rs', whole_reply step s l = Done (None, after l rs' [])
  end.
Proof.
  intros Hok Hb Hr. unfold whole_reply. rewrite Hr. pose proof (bytes_left_chunks chunks rs Hok).
  apply (read_reply_chunks Hstep chunks rs); [done|done|done|lia].
Qed.

Lemma reply_exact (Hstep : follows) (chunks : list (list (Z * list Z))) (rs : list rres) (l : link) (s s1 s2 : S)
  (init : list (Z * list Z)) (z : Z * list Z) :
  Forall chunk_ok chunks -> l_buffer l = [] -> l_reads l = reads_of chunks ++ rs -> concat chunks = init ++ [z] ->
  fold_flow s init = Next s1 -> g s1 z = Stop s2 -> whole_reply step s l = Done (Some s2, after l rs []).
Proof.
  intros Hok Hb Hr. unfold whole_reply. rewrite Hr. pose proof (bytes_left_chunks chunks rs Hok).
  apply (read_reply_exact Hstep chunks rs); [done|done|done|lia].
Qed.
End frames.

(** ** Logging in *)

Lemma write_whole (n : N) (ws : list wres) (m : message) :
  m_length m = len (m_data m) -> m_length m <= Z.of_N n -> write_message (Wrote n :: ws) m = Done (MESSAGE_STATUS_OK, m_data m, ws).
Proof.
  intros E Hn. unfold write_message. cbn [write_loop]. rewrite Z.min_r by done. rewrite region_whole by done.
  by rewrite Z.eqb_refl.
Qed.

Lemma io_write_whole (l : link) (n : N) (ws : list wres) (m : message) :
  l_writes l = Wrote n :: ws -> m_length m = len (m_data m) -> m_length m <= Z.of_N n ->
  io_write m l = Done (true, Link (l_reads l) ws (l_errno l) (l_random l) (l_sent l ++ m_data m) (l_buffer l)).
Proof. intros E Hm Hn. unfold io_write. rewrite E, write_whole by done. done. Qed.

Lemma startup_length (u d : list Z) :
  let m := startup_message 196608 [(str "user", u); (str "database", d); (str "application_name", str "pgagroal")] in
  m_length m = len (m_data m) /\ m_length m = 51 + len u + len d.
Proof.
  cbv zeta. unfold startup_message. cbn [m_length m_data]. fold (len (encode_params [(str "user", u); (str "database", d); (str "application_name", str "pgagroal")])).
  unfold encode_params. cbn [map concat fst snd]. split; len_solve.
Qed.

(** The query as it is sent. *)
Lemma send_query_whole (q : string) (l : link) (n : N) (ws : list wres) :
  len (str q) <= 1018 -> l_writes l = Wrote n :: ws -> 1024 <= Z.of_N n ->
  send_query q l = Done (true, Link (l_reads l) ws (l_errno l) (l_random l) (l_sent l ++ frame (chr "Q", str q ++ [0])) (l_buffer l)).
Proof.
  intros Hq Hw Hn. pose proof (len_nonneg (str q)). unfold send_query. rewrite (proj2 (Z.ltb_ge _ _)) by lia.
  set (size := 1024). assert (Hs : size = 1024) by done.
  assert (E : (b ← put_byte 0 (chr "Q") (zeroed size); b ← put_int32 false 1 (4 + len (str q) + 1) b; put_string 5 (str q) b) =
    Some (frame (chr "Q", str q ++ [0]) ++ zeroed (size - 6 - len (str q)))).
  { rewrite zeroed_start. put. put. rewrite put_string_store, store_next_0 by len_solve. f_equal.
    assert (Hf : frame (chr "Q", str q ++ [0]) = [chr "Q"] ++ be32 (4 + len (str q) + 1) ++ str q ++ [0]).
    { unfold frame, be32. cbn [fst snd]. replace (4 + Z.of_nat (length (str q ++ [0]))) with (4 + len (str q) + 1); [done|].
      unfold len. rewrite length_app. simpl. lia. }
    rewrite Hf, <- !app_assoc. cbn [app]. do 3 f_equal.
    replace (size - _) with (1 + (size - 6 - len (str q))) by len_solve. by rewrite zeroed_app by lia. }
  rewrite E. unfold io_bind. cbn [io_need]. unfold write_socket. rewrite Hw.
  assert (Hl : len (frame (chr "Q", str q ++ [0])) = 1 + 4 + len (str q) + 1) by (unfold len; rewrite length_frame; cbn [snd]; rewrite length_app; simpl; lia).
  rewrite <- Hl.
  assert (Ht : forall (a b : list Z), take (Z.to_nat (len a)) (a ++ b) = a) by (intros a b; unfold len; rewrite Nat2Z.id; apply take_app_length).
  rewrite Ht, take_ge by (unfold len in *; lia). by rewrite Z.eqb_refl.
Qed.

Section login.
Context (K : crypto) (cfg : security).

Definition any_frame (_ : Z * list Z) : Prop := True.

Definition session_flow (_ : unit) (f : Z * list Z) : flow unit :=
  if f.1 =? chr "Z" then Stop tt else if f.1 =? chr "E" then Fail else Next tt.

Lemma session_follows : follows session_step session_flow any_frame.
Proof. intros pre post f s _ _ _. done. Qed.

(** What a server says to a user that it trusts: the first message, others, and that it is
    ready for a query. *)
Record trusts (chunks : list (list (Z * list Z))) : Prop := {
  trusts_ok : Forall (chunk_ok any_frame) chunks;
  trusts_first : exists others ready, concat chunks = (chr "R", be32 0) :: others ++ [(chr "Z", ready)] /\
    Forall (fun f => f.1 <> chr "Z" /\ f.1 <> chr "E") others }.

Lemma session_others (others : list (Z * list Z)) :
  Forall (fun f => f.1 <> chr "Z" /\ f.1 <> chr "E") others -> fold_flow session_flow tt others = Next tt.
Proof.
  induction 1 as [|f fs [Hz He] _ IH]; [done|]. cbn [fold_flow]. unfold session_flow at 1.
  by rewrite (proj2 (Z.eqb_neq _ _) Hz), (proj2 (Z.eqb_neq _ _) He).
Qed.

(** The login of such a server. *)
Lemma wait_ready_trust (fs : list (Z * list Z)) (chunks : list (list (Z * list Z))) (rs : list rres) (l : link) (kind : Z) :
  trusts (fs :: chunks) -> l_buffer l = frames fs -> l_reads l = reads_of chunks ++ rs ->
  wait_ready (Message kind (len (frames fs)) (frames fs)) l = Done (true, after l rs []).
Proof.
  intros [Hok (others & ready & Hc & Ho)] Hb Hr. apply Forall_cons in Hok as [Hfs Hok]. unfold wait_ready, io_bind at 1.
  rewrite (walk_chunk session_step session_flow any_frame session_follows fs kind tt l Hfs Hb).
  assert (Hfirst : fold_flow session_flow tt ((chr "R", be32 0) :: others) = Next tt) by (cbn [fold_flow]; by apply session_others).
  cbn [concat] in Hc. rewrite app_comm_cons in Hc.
  change (io_bind clear_message ?f l) with (f tt (set_buffer [] l)). cbv beta.
  destruct chunks as [|fs' chunks].
  - rewrite app_nil_r in Hc. rewrite Hc, fold_flow_app, Hfirst. cbn [fold_flow]. change (session_flow tt (chr "Z", ready)) with (@Stop unit tt). cbv iota beta.
    unfold io_ret, set_buffer, after. by rewrite Hr.
  - assert (concat (fs' :: chunks) <> []) as Hne.
    { apply Forall_cons in Hok as [(Hne & _) _]. cbn [concat]. by destruct fs'. }
    destruct (exists_last Hne) as (x & z & Ex). rewrite Ex, app_assoc in Hc. apply app_inj_tail in Hc as [Hc ->].
    rewrite <- Hc, fold_flow_app in Hfirst. destruct (fold_flow session_flow tt fs) as [[]| |] eqn:Ef; try done.
    unfold io_bind. erewrite (reply_exact session_step session_flow any_frame session_follows (fs' :: chunks) rs (set_buffer [] l)); try done.
Qed.

(** A socket that takes the next [k] writes whole. *)
Definition willing (k : nat) (size : Z) (ws : list wres) : Prop :=
  exists ns rest, ws = map Wrote ns ++ rest /\ length ns = k /\ Forall (fun n => size <= Z.of_N n) ns.

Lemma willing_S (k : nat) (size : Z) (ws : list wres) :
  willing (S k) size ws -> exists n ws', ws = Wrote n :: ws' /\ size <= Z.of_N n /\ willing k size ws'.
Proof. intros (ns & rest & -> & Hk & Hns). destruct ns as [|n ns]; [done|]. apply Forall_cons in Hns as [Hn Hns]. injection Hk as Hk. exists n, (map Wrote ns ++ rest). split_and!; [done|done|]. by exists ns, rest. Qed.

(** A query to such a server. *)
Lemma query_execute_trust (user query : string) (chunks : list (list (Z * list Z))) (rs : list rres) (l : link) (k : nat) (size : Z) :
  trusts chunks -> l_buffer l = [] -> l_reads l = reads_of chunks ++ rs -> willing (S (S k)) size (l_writes l) ->
  1024 <= size -> 51 + 2 * len (str user) <= size -> len (str query) <= 1018 ->
  exists l', server_query_execute K cfg user user query l = Done (Some HEALTH_CHECK_AUTH_TRUST, l') /\
    l_reads l' = rs /\ l_buffer l' = [] /\ willing k size (l_writes l').
Proof.
  intros Ht Hb Hr Hw Hs Hu Hq. destruct (willing_S _ _ _ Hw) as (n1 & ws1 & E1 & Hn1 & Hw1). destruct (willing_S _ _ _ Hw1) as (n2 & ws2 & E2 & Hn2 & Hw2).
  pose proof Ht as [Hok (others & ready & Hc & _)]. destruct chunks as [|fs chunks]; [done|]. apply Forall_cons in Hok as [Hfs _].
  unfold server_query_execute, io_bind at 1. rewrite startup_layout. cbn [io_need].
  destruct (startup_length (str user) (str user)) as [L1 L2]. set (m := startup_message _ _) in *.
  unfold io_bind at 1. rewrite (io_write_whole l n1 ws1 m E1 L1) by lia. cbn [negb]. set (l1 := Link _ _ _ _ _ _).
  change (reads_of (fs :: chunks)) with (read_of fs ++ reads_of chunks) in Hr. rewrite <- app_assoc in Hr.
  destruct (read_chunk any_frame fs (reads_of chunks ++ rs) l1 Hfs Hb Hr) as (kind & Er & Ek). unfold io_bind at 1. rewrite Er.
  destruct fs as [|f fs]; [by destruct Hfs|]. cbn [concat app] in Hc. injection Hc as -> Hc. cbn in Ek. subst kind.
  set (l2 := after l1 _ _). unfold io_bind at 1, server_login at 1. cbn [m_kind]. change (negb (chr "R" =? chr "R")) with false. cbv iota.
  assert (E5 : buffer_int32 (l_buffer l2) 5 = Some 0).
  { change (l_buffer l2) with ([chr "R"; 0; 0; 0; 8] ++ be32 0 ++ frames fs). apply buffer_int32_at; [done|by vm_compute|].
    destruct Hfs as (_ & _ & _ & Hl). unfold MESSAGE_PARSE_BUFFER_SIZE, RECV_BUFFER_HEADROOM in Hl.
    change (len (frames ((chr "R", be32 0) :: fs)) <= DEFAULT_BUFFER_SIZE). lia. }
  rewrite E5. unfold io_bind at 1. cbn [io_need]. change (0 =? 0) with true. cbv iota. unfold io_ret at 1.
  unfold io_bind at 1. rewrite (wait_ready_trust _ chunks rs l2 _ Ht eq_refl eq_refl). cbn [negb].
  unfold io_bind at 1. rewrite (send_query_whole query (after l2 rs []) n2 ws2 Hq E2) by lia.
  eexists. split; [done|]. done.
Qed.
End login.

(** ** The probe *)

Section probe.
Context (K : crypto) (cfg : security).

Definition probe_flow (s : bool) (f : Z * list Z) : flow bool :=
  if (f.1 =? chr "T") || (f.1 =? chr "C") || (f.1 =? chr "D") then Next true
  else if f.1 =? chr "E" then Next false
  else if f.1 =? chr "Z" then Stop s
  else Next s.

Lemma probe_follows : follows probe_step probe_flow any_frame.
Proof. intros pre post f s _ _ _. done. Qed.

(** What the messages of a reply say about the server: the last one that tells is not an
    error. *)
Definition tells (f : Z * list Z) : bool := (f.1 =? chr "T") || (f.1 =? chr "C") || (f.1 =? chr "D") || (f.1 =? chr "E").
Definition healthy (fs : list (Z * list Z)) : bool :=
  match last (List.filter tells fs) with Some f => negb (f.1 =? chr "E") | None => false end.

Lemma probe_others (fs : list (Z * list Z)) :
  Forall (fun f => f.1 <> chr "Z") fs -> fold_flow probe_flow false fs = Next (healthy fs).
Proof.
  induction fs as [|f fs IH] using rev_ind; intros H; [done|]. apply Forall_app in H as [H Hf]. rewrite Forall_singleton in Hf.
  rewrite fold_flow_app, (IH H). cbn [fold_flow]. unfold healthy. rewrite List.filter_app. cbn [List.filter]. unfold probe_flow.
  assert (Et : tells f = (f.1 =? chr "T") || (f.1 =? chr "C") || (f.1 =? chr "D") || (f.1 =? chr "E")) by done.
  destruct (Z.eqb_spec (f.1) (chr "E")) as [He|He].
  - assert (tells f = true) as -> by (rewrite Et, He; done). rewrite last_snoc, He. done.
  - destruct ((f.1 =? chr "T") || (f.1 =? chr "C") || (f.1 =? chr "D")); rewrite Et; cbn [orb].
    + rewrite last_snoc. by rewrite (proj2 (Z.eqb_neq _ _) He).
    + rewrite (proj2 (Z.eqb_neq _ _) Hf), app_nil_r. done.
Qed.

Lemma terminate_whole (l : link) (size : Z) : willing 1 size (l_writes l) -> 5 <= size -> exists l', terminate l = Done (tt, l').
Proof.
  intros Hw Hs. destruct (willing_S _ _ _ Hw) as (n & ws & E & Hn & _). unfold terminate. rewrite terminate_layout. unfold io_bind at 1. cbn [io_need].
  unfold io_bind. rewrite (io_write_whole l n ws _ E); [by eexists|done|]. change (m_length (as_message (chr "X", []))) with 5. lia.
Qed.

(** C16: A server that trusts the user of the health check and whose messages arrive whole is probed to the end, and
    it is reported up exactly when the last message of the reply that tells is not an error, in how many reads the
    messages come does not matter. *)
Theorem probe_verdict (l : link) (login reply_chunks : list (list (Z * list Z))) (fs : list (Z * list Z)) (ready : list Z) (rs : list rres) (size : Z)
  (Hl : trusts login) (Hok : Forall (chunk_ok any_frame) reply_chunks) (Hc : concat reply_chunks = fs ++ [(chr "Z", ready)])
  (Hfs : Forall (fun f => f.1 <> chr "Z") fs) (Hr : l_reads l = reads_of login ++ reads_of reply_chunks ++ rs) (Hb : l_buffer l = [])
  (Hw : willing 3 size (l_writes l)) (Hs : 1024 <= size) (Hu : 51 + 2 * len (str (health_check_user (s_config cfg))) <= size) :
  server_probe K cfg (Some l) = Done (Some (healthy fs, HEALTH_CHECK_AUTH_TRUST)).
Proof.
  destruct (query_execute_trust K cfg (health_check_user (s_config cfg)) "SELECT 1" login _ l 1 size Hl Hb Hr Hw Hs Hu ltac:(by vm_compute)) as (l1 & E1 & Hr1 & Hb1 & Hw1).
  unfold server_probe, connected, io_bind at 1. rewrite E1. unfold io_bind at 1.
  rewrite (reply_exact probe_step probe_flow any_frame probe_follows reply_chunks rs l1 false (healthy fs) (healthy fs) fs (chr "Z", ready) Hok Hb1 Hr1 Hc (probe_others fs Hfs) eq_refl).
  destruct (terminate_whole (after l1 rs []) size Hw1 ltac:(lia)) as (l2 & E2). unfold io_bind. by rewrite E2.
Qed.
End probe.

(** ** Rows *)

(** A row as the server sends it; [None] is NULL. *)
Definition column (c : option (list Z)) : list Z := match c with None => be32 (-1) | Some v => be32 (len v) ++ v end.
Definition data_row (cols : list (option (list Z))) : Z * list Z :=
  (chr "D", be16 (Z.of_nat (length cols)) ++ concat (map column cols)).

(** A value that fits a buffer of this size with its final zero. *)
Definition fits (c : option (list Z)) (size : Z) : Prop := match c with None => True | Some v => len v < size end.

Lemma row_columns_read (cols : list (option (list Z))) (sizes : list Z) (pre post buf : list Z) :
  Forall2 fits cols sizes -> buf = pre ++ concat (map column cols) ++ post -> len buf <= DEFAULT_BUFFER_SIZE ->
  row_columns buf sizes (len pre) = Some (Some (map (default []) cols)).
Proof.
  intros H. revert pre. induction H as [|c size cols sizes Hc _ IH]; intros pre E Hl; [done|]. cbn [row_columns map concat] in *.
  assert (Hlen : len buf = len pre + len (column c) + len (concat (map column cols) ++ post)) by (rewrite E, !len_app; lia).
  pose proof (len_nonneg pre). pose proof (len_nonneg (concat (map column cols) ++ post)).
  assert (IH' : forall off, off = len pre + len (column c) -> row_columns buf sizes off = Some (Some (map (default []) cols))).
  { intros off ->. rewrite <- len_app. apply IH; [|done]. by rewrite E, <- !app_assoc. }
  destruct c as [v|]; cbn [column fits default] in *.
  - assert (Hcv : len (be32 (len v) ++ v) = 4 + len v) by (rewrite len_app, len_be32; lia). rewrite Hcv in *. pose proof (len_nonneg v). unfold DEFAULT_BUFFER_SIZE in Hl.
    assert (buffer_int32 buf (len pre) = Some (len v)) as ->.
    { rewrite E, <- !app_assoc. apply buffer_int32_at; [done|unfold in_i; lia|]. rewrite <- !app_assoc in E. rewrite <- E. unfold DEFAULT_BUFFER_SIZE. lia. }
    cbn [mbind option_bind]. destruct (Z.leb_spec (len v) 0).
    + assert (v = []) as -> by (destruct v; [done|unfold len in *; simpl in *; lia]). rewrite IH' by (change (len []) with 0; lia). done.
    + rewrite (proj2 (Z.leb_gt _ _)) by lia.
      assert (buffer_region buf (len pre + 4) (len v) = Some v) as ->.
      { assert (E' : buf = (pre ++ be32 (len v)) ++ v ++ (concat (map column cols) ++ post)) by (rewrite E; by rewrite <- !app_assoc).
        rewrite E'. apply buffer_region_app; [by rewrite len_app, len_be32|done|]. rewrite <- E'. unfold DEFAULT_BUFFER_SIZE. lia. }
      cbn [mbind option_bind]. rewrite IH' by lia. done.
  - rewrite len_be32 in *.
    assert (buffer_int32 buf (len pre) = Some (-1)) as ->.
    { rewrite E, <- app_assoc. apply buffer_int32_at; [done|by vm_compute|]. rewrite <- app_assoc in E. by rewrite <- E. }
    cbn [mbind option_bind]. rewrite IH' by lia. done.
Qed.

Section rows.
Context (cols : list (option (list Z))) (sizes : list Z) (Hfit : Forall2 fits cols sizes) (Hn : Z.of_nat (length cols) < 2 ^ 15).

Definition row_frame (f : Z * list Z) : Prop := f.1 = chr "D" -> f = data_row cols.

Definition columns_flow (s : option (list (list Z))) (f : Z * list Z) : flow (option (list (list Z))) :=
  if f.1 =? chr "D" then Next (Some (map (default []) cols))
  else if f.1 =? chr "E" then Fail
  else if f.1 =? chr "Z" then Stop s
  else Next s.

Lemma columns_follows : follows (columns_step sizes) columns_flow row_frame.
Proof.
  intros pre post f s Hok Hrow Hl. unfold columns_step, columns_flow. pose proof (len_nonneg f.2). rewrite (proj2 (Z.leb_gt _ _)) by lia.
  destruct (Z.eqb_spec f.1 (chr "D")) as [Hd|Hd]; [|by repeat case_if]. rewrite (Hrow Hd) in *. clear Hrow Hd.
  pose proof (Forall2_length _ _ _ Hfit) as Hlen.
  set (hd := [chr "D"] ++ be32 (4 + len (data_row cols).2)).
  assert (E : pre ++ frame (data_row cols) ++ post = (pre ++ hd) ++ be16 (Z.of_nat (length cols)) ++ (concat (map column cols) ++ post)).
  { unfold frame, hd, data_row, be32, len. cbn [fst snd]. by rewrite <- !app_assoc. }
  rewrite E in *. rewrite buffer_int16_at; [|by rewrite len_app|unfold in_i; lia|done]. cbn [mbind option_bind].
  rewrite <- Hlen, Z.eqb_refl. rewrite app_assoc in *.
  replace (len pre + 7) with (len ((pre ++ hd) ++ be16 (Z.of_nat (length cols)))) by (rewrite !len_app; change (len hd) with 5; change (len (be16 _)) with 2; lia).
  by rewrite (row_columns_read cols sizes _ post _ Hfit eq_refl Hl).
Qed.

Lemma columns_others (s : option (list (list Z))) (fs : list (Z * list Z)) :
  Forall (fun f => f.1 <> chr "D" /\ f.1 <> chr "E" /\ f.1 <> chr "Z") fs -> fold_flow columns_flow s fs = Next s.
Proof.
  induction 1 as [|f fs (Hd & He & Hz) _ IH]; [done|]. cbn [fold_flow]. unfold columns_flow at 1.
  by rewrite (proj2 (Z.eqb_neq _ _) Hd), (proj2 (Z.eqb_neq _ _) He), (proj2 (Z.eqb_neq _ _) Hz).
Qed.
End rows.

(** The row of a reply is read as the server sent it: every column that fits its buffer, an empty
    one for NULL, with other messages before and after it and in any number of reads. *)
Theorem row_read (cols : list (option (list Z))) (sizes : list Z) (l : link) (chunks : list (list (Z * list Z))) (before behind : list (Z * list Z)) (ready : list Z) (rs : list rres)
  (Hne : cols <> []) (Hfit : Forall2 (fun c size => 0 < size /\ fits c size) cols sizes) (Hn : Z.of_nat (length cols) < 2 ^ 15)
  (Hok : Forall (chunk_ok (row_frame cols)) chunks) (Hc : concat chunks = before ++ [data_row cols] ++ behind ++ [(chr "Z", ready)])
  (Ho : Forall (fun f => f.1 <> chr "D" /\ f.1 <> chr "E" /\ f.1 <> chr "Z") (before ++ behind))
  (Hr : l_reads l = reads_of chunks ++ rs) (Hb : l_buffer l = []) :
  read_query_multiple_columns_text sizes l = Done (Some (map (default []) cols), after l rs []).
Proof.
  assert (Hf : Forall2 fits cols sizes) by (eapply Forall2_impl; [exact Hfit|by intros c size []]).
  apply Forall_app in Ho as [H1 H2]. unfold read_query_multiple_columns_text.
  assert (existsb (fun size => size <=? 0) sizes || bool_decide (sizes = []) = false) as ->.
  { apply orb_false_iff. split; [|apply bool_decide_eq_false; intros ->; by inversion Hfit; subst].
    apply Forall2_flip in Hfit. clear -Hfit. induction Hfit as [|size c sizes cols [Hs _] _ IH]; [done|]. cbn [existsb]. rewrite IH. by rewrite (proj2 (Z.leb_gt _ _)) by lia. }
  unfold io_bind. rewrite (reply_exact _ _ _ (columns_follows cols sizes Hf Hn) chunks rs l None (Some (map (default []) cols)) (Some (map (default []) cols))
    (before ++ [data_row cols] ++ behind) (chr "Z", ready) Hok Hb Hr); [done|by rewrite Hc, <- !app_assoc| |done].
  rewrite fold_flow_app, (columns_others cols None before H1). cbn [fold_flow app].
  change (columns_flow cols None (data_row cols)) with (Next (Some (map (default []) cols))). by apply columns_others.
Qed.

(** ** Witnesses *)

(** A server that trusts, in two reads, and a reply with a row, in two more. *)
Definition login_example : list (list (Z * list Z)) :=
  [[(chr "R", be32 0); (chr "S", str "TimeZone" ++ [0] ++ str "UTC" ++ [0])]; [(chr "K", be32 7 ++ be32 9); (chr "Z", [chr "I"])]].

Definition row_example : list (option (list Z)) := [Some (str "streaming"); None; Some []; Some (str "5432")].
Definition reply_example : list (list (Z * list Z)) := [[(chr "T", be16 4); data_row row_example]; [(chr "C", str "SELECT 1" ++ [0]); (chr "Z", [chr "I"])]].

(** No users are needed for a login by trust. *)
Definition query_security : security :=
  Security (Config 10 [] [] [] false false false "" 0 0 0 0 0 VALIDATION_OFF STARTUP_VALIDATION_OFF "health" "" RESET_DISCARD 0)
    false [] [] [] (User "" "") false [].

Definition link_example (reads : list rres) : link := Link reads [Wrote 4000; Wrote 4000; Wrote 4000] None [] [] [].

Lemma chunks_example_ok (good : Z * list Z -> Prop) (chunks : list (list (Z * list Z))) :
  Forall (Forall good) chunks -> forallb (fun fs => (negb (bool_decide (fs = []))) && forallb (fun f => (0 <=? f.1) && (f.1 <? 128) && (len f.2 <? 1000)) fs && (len (frames fs) <=? 100000)) chunks = true ->
  Forall (chunk_ok good) chunks.
Proof.
  intros Hg Hb. apply Forall_forall. intros fs Hin. rewrite forallb_forall in Hb. specialize (Hb fs (proj1 (list_elem_of_In _ _) Hin)).
  apply andb_true_iff in Hb as [[H1 H2]%andb_true_iff H3]. apply negb_true_iff, bool_decide_eq_false in H1. split_and!; [done| | |].
  - rewrite forallb_forall in H2. apply Forall_forall. intros f Hf. specialize (H2 f (proj1 (list_elem_of_In _ _) Hf)).
    apply andb_true_iff in H2 as [[Ha Hb']%andb_true_iff Hc]. split; unfold len in Hc; lia.
  - rewrite Forall_forall in Hg. by apply Hg.
  - unfold MESSAGE_PARSE_BUFFER_SIZE, DEFAULT_BUFFER_SIZE, RECV_BUFFER_HEADROOM. lia.
Qed.

Lemma willing_example (k : nat) (reads : list rres) : (k <= 3)%nat -> willing k 4000 (l_writes (link_example reads)).
Proof.
  intros Hk. exists (replicate k 4000%N), (map Wrote (replicate (3 - k) 4000%N)). rewrite <- map_app, <- replicate_add, length_replicate.
  replace (k + (3 - k))%nat with 3%nat by lia. split_and!; [done|done|]. by apply Forall_replicate.
Qed.

Lemma login_example_trusts : trusts login_example.
Proof.
  split; [by apply chunks_example_ok; repeat constructor|]. eexists [_; _], _. split; [reflexivity|]. by repeat constructor.
Qed.

Lemma probe_verdict_witness :
  server_probe toy query_security (Some (link_example (reads_of login_example ++ reads_of reply_example ++ []))) =
    Done (Some (true, HEALTH_CHECK_AUTH_TRUST)).
Proof.
  apply (probe_verdict toy query_security (link_example (reads_of login_example ++ reads_of reply_example ++ [])) login_example reply_example
    [(chr "T", be16 4); data_row row_example; (chr "C", str "SELECT 1" ++ [0])] [chr "I"] [] 4000).
  - exact login_example_trusts.
  - apply chunks_example_ok; [by repeat constructor|by vm_compute].
  - reflexivity.
  - by repeat constructor.
  - reflexivity.
  - reflexivity.
  - by apply willing_example.
  - lia.
  - by vm_compute.
Defined.

Lemma row_read_witness :
  read_query_multiple_columns_text [64; 64; 128; 16] (link_example (reads_of reply_example ++ [])) =
    Done (Some [str "streaming"; []; []; str "5432"], link_example []).
Proof.
  apply (row_read row_example [64; 64; 128; 16] (link_example (reads_of reply_example ++ [])) reply_example [(chr "T", be16 4)] [(chr "C", str "SELECT 1" ++ [0])] [chr "I"] []).
  - done.
  - by repeat constructor.
  - by vm_compute.
  - apply chunks_example_ok; [by repeat constructor|by vm_compute].
  - reflexivity.
  - by repeat constructor.
  - reflexivity.
  - reflexivity.
Defined.

(** A message that is cut by the end of a read is not put together again: here the three bytes of the [CommandComplete] that came
    with the row are skipped one by one, its other bytes are taken for a message of their own, and the
    [ReadyForQuery] behind them is lost.  The probe goes on reading. *)
Definition cut_example : list rres :=
  let bs := frames (concat reply_example) in
  match take 46 bs, drop 46 bs with b :: bs, b' :: bs' => [RData b bs; RData b' bs'] | _, _ => [] end.

Lemma cut_message_lost :
  server_probe toy query_security (Some (link_example (reads_of login_example ++ cut_example))) = Running.
Proof. vm_compute. reflexivity. Qed.
