(* ===== verification/Health.v ===== *)
(** * Health checks ([libpgagroal/health.c])

    A process of its own probes the servers in turn and stores in the shared segment whether a
    server is up, how it lets the user of the check log in, and whether a replica is
    streaming. *)

From Stdlib Require Import Ascii.
From S2P Require Import Prelude Wire Frames Message Text Config Effects Hba Scram AuthQuery Queries.

Local Open Scope Z_scope.

Definition SERVER_HEALTH_UP : Z := 1.
Definition SERVER_HEALTH_DOWN : Z := 2.
Definition SERVER_STREAMING_PRIMARY : Z := -1.
Definition SERVER_STREAMING_NO : Z := 0.
Definition SERVER_STREAMING_YES : Z := 1.
Definition HEALTH_CHECK_MAX_RETRIES : Z := 3.

(** The fields of [struct server] that the process writes, and its own [previous_state]. *)
Record server_health := ServerHealth {
  health_state : Z;
  failures : Z;
  auth_type : Z;
  streaming_state : Z;
  previous_state : Z }.

(** The first part of the body of the loop, with the outcome of [server_probe]. *)
Definition after_probe (probe : option (bool * Z)) (h : server_health) : server_health :=
  let '(up, auth) := match probe with Some p => p | None => (false, HEALTH_CHECK_AUTH_ERROR) end in
  let streaming := streaming_state h in
  if up : bool then ServerHealth SERVER_HEALTH_UP 0 auth streaming SERVER_HEALTH_UP
  else
    let failures := u32 (failures h + 1) in
    if HEALTH_CHECK_MAX_RETRIES <=? failures
    then ServerHealth SERVER_HEALTH_DOWN failures auth streaming SERVER_HEALTH_DOWN
    else ServerHealth (health_state h) failures auth streaming (previous_state h).

Definition set_streaming (s : Z) (h : server_health) : server_health :=
  ServerHealth (health_state h) (failures h) (auth_type h) s (previous_state h).

(** What a round finds for a server: whether it is valid, its state, and the connections for the
    two queries. *)
Record probed := Probed { pr_valid : bool; pr_state : server_state; pr_conn : option link; pr_wal : option link }.

Section health.
Context (K : crypto) (cfg : security).

(** The body of the loop for a server. *)
Definition check_server (p : probed) (h : server_health) : server_health * result unit :=
  match server_probe K cfg (pr_conn p) with
  | Undefined => (h, Undefined)
  | Running => (h, Running)
  | Done probe =>
      let h := after_probe probe h in
      if bool_decide (pr_state p = SERVER_PRIMARY) || bool_decide (pr_state p = SERVER_NOTINIT_PRIMARY)
      then (set_streaming SERVER_STREAMING_PRIMARY h, Done tt)
      else if match probe with Some (up, _) => up | None => false end then
        match server_get_wal_receiver_status K cfg [64; 64; 128; 16] (pr_wal p) with
        | Undefined => (h, Undefined)
        | Running => (h, Running)
        | Done r =>
            let streaming := match r with Some (status :: _) => bool_decide (upto_nul status = str "streaming") | _ => false end in
            (set_streaming (if streaming then SERVER_STREAMING_YES else SERVER_STREAMING_NO) h, Done tt)
        end
      else (set_streaming SERVER_STREAMING_NO h, Done tt)
  end.

(** [FOREACH_VALID_SERVER]: the shared segment afterwards, or when the round does not end. *)
Fixpoint health_round (ps : list probed) (hs : list server_health) : list server_health * result unit :=
  match ps, hs with
  | p :: ps, h :: hs =>
      let '(h, r) := if pr_valid p then check_server p h else (h, Done tt) in
      match r with
      | Done _ => let '(hs, r) := health_round ps hs in (h :: hs, r)
      | _ => (h :: hs, r)
      end
  | _, _ => (hs, Done tt)
  end.

(** The sleep of [t] seconds; the flags [keep_running && health_check] are read before every
    second.  [None] is a sleep that is not over. *)
Fixpoint sleep_loop (t : nat) (flags : list bool) : option (list bool) :=
  match t with
  | O => Some flags
  | S t =>
      match flags with
      | [] => None
      | false :: flags => Some flags
      | true :: flags => sleep_loop t flags
      end
  end.

(** [health_check_loop], over the periods and the servers of its rounds and the values of the flags when
    they are read. *)
Fixpoint health_check_loop (rounds : list (Z * list probed)) (flags : list bool) (hs : list server_health)
  : list server_health * result unit :=
  match flags with
  | [] => (hs, Running)
  | false :: _ => (hs, Done tt)
  | true :: flags =>
      match rounds with
      | [] => (hs, Running)
      | (period, ps) :: rounds =>
          match sleep_loop (Z.to_nat (time_convert period FORMAT_TIME_S)) flags with
          | None => (hs, Running)
          | Some [] => (hs, Running)
          | Some (false :: _) => (hs, Done tt)
          | Some (true :: flags) =>
              match health_round ps hs with
              | (hs, Done _) => health_check_loop rounds flags hs
              | (hs, r) => (hs, r)
              end
          end
      end
  end.
End health.
