(* ===== verification/HealthFacts.v ===== *)
(** * Facts about the health checks

    When a server is reported down, and the two ways in which a check never ends. *)

From Stdlib Require Import Ascii.
From S2P Require Import Prelude Wire Frames Message MessageFacts Text Config Effects Hba Scram ScramFacts AuthQuery Queries QueriesFacts Health.

Local Open Scope Z_scope.

(** ** What is reported *)

(** The probes of a server, the last one first. *)
Fixpoint trailing (h : list bool) : nat := match h with false :: h => S (trailing h) | _ => O end.

Definition verdict (h : list bool) : Z :=
  if (3 <=? trailing h)%nat then SERVER_HEALTH_DOWN
  else if existsb id h then SERVER_HEALTH_UP else SERVER_HEALTH_UNKNOWN.

(** The shared segment when the process starts. *)
Definition health_start : server_health := ServerHealth SERVER_HEALTH_UNKNOWN 0 HEALTH_CHECK_AUTH_UNKNOWN SERVER_STREAMING_NO (-2).

Definition agrees (h : list bool) (s : server_health) : Prop :=
  failures s = Z.of_nat (trailing h) mod 2 ^ 32 /\ health_state s = verdict h.

Definition is_up (probe : option (bool * Z)) : bool := match probe with Some (up, _) => up | None => false end.

Lemma after_probe_agrees (h : list bool) (probe : option (bool * Z)) (s : server_health) :
  agrees h s -> agrees (is_up probe :: h) (after_probe probe s).
Proof.
  intros [Hf Hv]. unfold after_probe. destruct probe as [[up auth]|]; cbn [is_up]; [destruct up; [done|]|].
  all: unfold agrees; cbn [trailing]; set (f := u32 (failures s + 1)).
  all: assert (Ef : f = Z.of_nat (S (trailing h)) mod 2 ^ 32) by (unfold f, wrapu; rewrite Hf, Zplus_mod_idemp_l; f_equal; lia).
  all: assert (Hle : f <= Z.of_nat (S (trailing h))) by (rewrite Ef; apply Z.mod_le; lia).
  all: unfold HEALTH_CHECK_MAX_RETRIES; destruct (Z.leb_spec 3 f); cbn [failures health_state]; (split; [done|]); unfold verdict; cbn [trailing existsb id orb].
  all: try (rewrite (proj2 (Nat.leb_le _ _)) by lia; done).
  all: rewrite Hv; unfold verdict; destruct (Z.lt_ge_cases (Z.of_nat (S (trailing h))) (2 ^ 32)) as [Hsm|Hbig].
  1,3: rewrite Z.mod_small in Ef by lia; rewrite !(proj2 (Nat.leb_gt _ _)) by lia; done.
  all: assert (2 ^ 32 = 4294967296) by done; rewrite !(proj2 (Nat.leb_le _ _)) by lia; done.
Qed.

Section health.
Context (K : crypto) (cfg : security).

Notation user := (health_check_user (s_config cfg)).

(** The checks of one server, as long as they end. *)
Fixpoint checks (ps : list probed) (h : server_health) : option server_health :=
  match ps with
  | [] => Some h
  | p :: ps => match check_server K cfg p h with (h, Done _) => checks ps h | _ => None end
  end.

(** What the probe of a check says. *)
Definition probe_up (p : probed) : bool :=
  match server_probe K cfg (pr_conn p) with Done probe => is_up probe | _ => false end.

Lemma check_server_agrees (p : probed) (h : list bool) (s s' : server_health) :
  check_server K cfg p s = (s', Done tt) -> agrees h s -> agrees (probe_up p :: h) s'.
Proof.
  unfold check_server, probe_up. destruct (server_probe K cfg (pr_conn p)) as [probe| |]; try done. intros H Ha.
  apply (after_probe_agrees h probe) in Ha. destruct (_ || _); [by injection H as <-|].
  destruct (match probe with Some (up, _) => up | None => false end); [|by injection H as <-].
  destruct (server_get_wal_receiver_status _ _ _ _); try done. by injection H as <-.
Qed.

(** C15: However often a server is checked, it is reported down exactly when its last three probes failed, up when
    a probe succeeded and fewer failed since then, and unknown before that; the counter of the failures
    may wrap around. *)
Theorem health_verdict (ps : list probed) (s : server_health) (Hs : checks ps health_start = Some s) :
  health_state s = verdict (rev (map probe_up ps)).
Proof.
  enough (H : forall h s0, agrees h s0 -> checks ps s0 = Some s -> agrees (rev (map probe_up ps) ++ h) s).
  { rewrite <- (app_nil_r (rev _)). apply (H [] health_start); done. }
  clear Hs. induction ps as [|p ps IH]; intros h s0 Ha Hs; [by injection Hs as <-|]. cbn [checks] in Hs.
  destruct (check_server K cfg p s0) as [s1 [[]| |]] eqn:E; try done. cbn [map rev]. rewrite <- app_assoc.
  apply (IH (probe_up p :: h) s1); [|done]. by apply (check_server_agrees p h s0).
Qed.

(** ** Checks that do not end *)

Lemma read_silent (n : nat) (err : option errno) : read_message (replicate n (RFail EAGAIN)) true err = Running.
Proof. revert err. induction n as [|n IH]; intros err; [done|]. apply IH. Qed.

(** A server that accepts the connection and then says nothing, however often the timeout of the socket passes. *)
Definition silent (l : link) : Prop := exists n, l_reads l = replicate n (RFail EAGAIN).

Lemma probe_silent (l : link) (size : Z) :
  silent l -> willing 1 size (l_writes l) -> 51 + 2 * len (str user) <= size -> server_probe K cfg (Some l) = Running.
Proof.
  intros [n Hn] Hw Hs. destruct (willing_S _ _ _ Hw) as (k & ws & E & Hk & _). destruct (startup_length (str user) (str user)) as [L1 L2].
  unfold server_probe, connected, io_bind at 1, server_query_execute, io_bind at 1. rewrite startup_layout. cbn [io_need]. unfold io_bind at 1.
  rewrite (io_write_whole l k ws _ E L1) by lia. cbn [negb]. unfold io_bind at 1, read_timeout_message. cbn [l_reads]. rewrite Hn.
  by rewrite read_silent.
Qed.

Lemma health_round_app (ps ps' : list probed) (hs hs' : list server_health) :
  length ps = length hs -> (health_round K cfg ps hs).2 = Done tt ->
  health_round K cfg (ps ++ ps') (hs ++ hs') =
    ((health_round K cfg ps hs).1 ++ (health_round K cfg ps' hs').1, (health_round K cfg ps' hs').2).
Proof.
  revert hs. induction ps as [|p ps IH]; intros [|h hs] Hl; try done.
  { intros _. simpl. by destruct (health_round K cfg ps' hs'). }
  cbn [health_round app]. destruct (if pr_valid p then _ else _) as [h1 [[]| |]]; try done.
  destruct (health_round K cfg ps hs) as [hs1 r1] eqn:E. cbn [fst snd]. intros ->. rewrite IH by (simpl in Hl; (lia || by rewrite E)). by rewrite E.
Qed.

(** C27: The timeout of the health check does not end a read: a server that accepts connections and does not answer is
    never reported down, and none of the servers behind it is checked any more. *)
Theorem silent_server_stalls (ps ps' : list probed) (p : probed) (hs hs' : list server_health) (h : server_health) (l : link) (size : Z)
  (Hl : length ps = length hs) (Hr : (health_round K cfg ps hs).2 = Done tt) (Hv : pr_valid p = true) (Hc : pr_conn p = Some l)
  (Hsil : silent l) (Hw : willing 1 size (l_writes l)) (Hs : 51 + 2 * len (str user) <= size) :
  health_round K cfg (ps ++ p :: ps') (hs ++ h :: hs') = ((health_round K cfg ps hs).1 ++ h :: hs', Running).
Proof.
  rewrite health_round_app by done. cbn [health_round]. rewrite Hv. unfold check_server. rewrite Hc, (probe_silent l size) by done. done.
Qed.
End health.

(** ** Witnesses *)

(** Checks of a primary: one that works, and ones without a connection. *)
Definition check_up : probed :=
  Probed true SERVER_PRIMARY (Some (link_example (reads_of login_example ++ reads_of reply_example ++ []))) None.
Definition check_failed : probed := Probed true SERVER_PRIMARY None None.

Lemma health_verdict_witness :
  exists s, checks toy query_security [check_up; check_failed; check_failed; check_failed] health_start = Some s /\ health_state s = SERVER_HEALTH_DOWN.
Proof.
  eexists. split; [vm_compute; reflexivity|].
  apply (health_verdict toy query_security [check_up; check_failed; check_failed; check_failed] (ServerHealth 2 3 4 (-1) 2)). vm_compute. reflexivity.
Defined.

(** The second of three servers is silent. *)
Definition check_silent : probed := Probed true SERVER_REPLICA (Some (link_example (replicate 100 (RFail EAGAIN)))) None.

Lemma silent_server_stalls_witness :
  health_round toy query_security ([check_up] ++ check_silent :: [check_failed]) ([health_start] ++ health_start :: [health_start]) =
    ((health_round toy query_security [check_up] [health_start]).1 ++ health_start :: [health_start], Running).
Proof.
  apply (silent_server_stalls toy query_security [check_up] [check_failed] check_silent [health_start] [health_start] health_start
    (link_example (replicate 100 (RFail EAGAIN))) 4000).
  - reflexivity.
  - vm_compute. reflexivity.
  - reflexivity.
  - reflexivity.
  - by exists 100%nat.
  - by apply willing_example; lia.
  - by vm_compute.
Defined.
