(* ===== verification/Metrics.v ===== *)
(** * Metrics ([libpgagroal/prometheus.c])

    Counters in a shared segment that every process adds to, the text that Prometheus
    reads, and the page with it, which is kept in a second shared segment for a while.
    A counter is updated by single atomic operations; the cache has a lock. *)

From Stdlib Require Import Ascii.
From stdpp Require Import pretty.
From S2P Require Import Prelude Wire Frames Message Text Config ConfFile Effects Pool Art ArtFacts ArtMap Scram Queries Health.

Local Open Scope Z_scope.

(** ** Counters *)

(** The fields of [struct main_prometheus] and of its base. *)
Inductive counter :=
| P_logging_info | P_logging_warn | P_logging_error | P_logging_fatal | P_client_sockets | P_self_sockets
| P_session_time (i : nat) | P_session_time_sum
| P_connection_error | P_connection_kill | P_connection_remove | P_connection_timeout | P_connection_return
| P_connection_invalid | P_connection_get | P_connection_idletimeout | P_connection_max_connection_age
| P_connection_flush | P_connection_success
| P_connections_awaiting (i : nat) | P_connections_awaiting_total
| P_auth_user_success | P_auth_user_bad_password | P_auth_user_error
| P_client_wait | P_client_active | P_client_wait_time
| P_query_count | P_tx_count | P_network_sent | P_network_received
| P_server_error (i : nat) | P_failed_servers | P_connection_query_count (slot : nat).

#[global] Instance counter_eq_dec : EqDecision counter.
Proof. solve_decision. Defined.

Definition counters : Type := counter -> Z.

(** Two of them are an [atomic_int], the others have 64 bits. *)
Definition wrap_counter (c : counter) (v : Z) : Z :=
  match c with P_client_sockets | P_self_sockets => i32 v | _ => u64 v end.

(** [atomic_store], [atomic_fetch_add] and [atomic_fetch_sub]. *)
Definition store_counter (c : counter) (v : Z) (p : counters) : counters :=
  fun c' => if decide (c' = c) then wrap_counter c v else p c'.
Definition fetch_add (c : counter) (n : Z) (p : counters) : counters := store_counter c (p c + n) p.
Definition fetch_sub (c : counter) (n : Z) (p : counters) : counters := store_counter c (p c - n) p.

(** [pgagroal_init_prometheus]. *)
Definition init_prometheus : counters := fun _ => 0.

Section counting.
(** [config->metrics]; the segment is there. *)
Context (metrics_port : Z).

Definition is_prometheus_enabled : bool := 0 <? metrics_port.

Definition when_enabled (f : counters -> counters) (p : counters) : counters := if is_prometheus_enabled then f p else p.

Definition prometheus_connection_error := when_enabled (fetch_add P_connection_error 1).
Definition prometheus_connection_kill := when_enabled (fetch_add P_connection_kill 1).
Definition prometheus_connection_remove := when_enabled (fetch_add P_connection_remove 1).
Definition prometheus_connection_timeout := when_enabled (fetch_add P_connection_timeout 1).
Definition prometheus_connection_return := when_enabled (fetch_add P_connection_return 1).
Definition prometheus_connection_invalid := when_enabled (fetch_add P_connection_invalid 1).
Definition prometheus_connection_get := when_enabled (fetch_add P_connection_get 1).
Definition prometheus_connection_idletimeout := when_enabled (fetch_add P_connection_idletimeout 1).
Definition prometheus_connection_max_connection_age := when_enabled (fetch_add P_connection_max_connection_age 1).
Definition prometheus_connection_flush := when_enabled (fetch_add P_connection_flush 1).
Definition prometheus_connection_success := when_enabled (fetch_add P_connection_success 1).
Definition prometheus_auth_user_success := when_enabled (fetch_add P_auth_user_success 1).
Definition prometheus_auth_user_bad_password := when_enabled (fetch_add P_auth_user_bad_password 1).
Definition prometheus_auth_user_error := when_enabled (fetch_add P_auth_user_error 1).
Definition prometheus_client_wait_add := when_enabled (fetch_add P_client_wait 1).
Definition prometheus_client_wait_sub := when_enabled (fetch_sub P_client_wait 1).
Definition prometheus_client_active_add := when_enabled (fetch_add P_client_active 1).
Definition prometheus_client_active_sub := when_enabled (fetch_sub P_client_active 1).
Definition prometheus_query_count_add := when_enabled (fetch_add P_query_count 1).
Definition prometheus_query_count_specified_add (slot : nat) := when_enabled (fetch_add (P_connection_query_count slot) 1).
Definition prometheus_query_count_specified_reset (slot : nat) := when_enabled (store_counter (P_connection_query_count slot) 0).
Definition prometheus_tx_count_add := when_enabled (fetch_add P_tx_count 1).
Definition prometheus_network_sent_add (s : Z) := when_enabled (fetch_add P_network_sent s).
Definition prometheus_network_received_add (s : Z) := when_enabled (fetch_add P_network_received s).
Definition prometheus_client_sockets_add := when_enabled (fetch_add P_client_sockets 1).
Definition prometheus_client_sockets_sub := when_enabled (fetch_sub P_client_sockets 1).
Definition prometheus_self_sockets_add := when_enabled (fetch_add P_self_sockets 1).
Definition prometheus_self_sockets_sub := when_enabled (fetch_sub P_self_sockets 1).
Definition prometheus_server_error (server : nat) := when_enabled (fetch_add (P_server_error server) 1).

(** The limit of a connection that waits; a negative index is none. *)
Definition prometheus_connection_awaiting (limit_index : Z) : counters -> counters :=
  when_enabled (fun p =>
    let p := if 0 <=? limit_index then fetch_add (P_connections_awaiting (Z.to_nat limit_index)) 1 p else p in
    fetch_add P_connections_awaiting_total 1 p).

Definition sub_positive (c : counter) (p : counters) : counters := if 0 <? p c then fetch_sub c 1 p else p.

(** Without another process in between; [wait_step] below has the loads as steps of their own. *)
Definition prometheus_connection_unawaiting (limit_index : Z) : counters -> counters :=
  when_enabled (fun p =>
    let p := if 0 <=? limit_index then sub_positive (P_connections_awaiting (Z.to_nat limit_index)) p else p in
    sub_positive P_connections_awaiting_total p).

(** [pgagroal_prometheus_failed_servers], with the servers as they are loaded. *)
Definition prometheus_failed_servers (servers : list (bool * server_state)) : counters -> counters :=
  when_enabled (store_counter P_failed_servers
    (Z.of_nat (length (List.filter (fun s : bool * server_state => s.1 && bool_decide (s.2 = SERVER_FAILED)) servers)))).

(** [pgagroal_prometheus_logging], with the four levels that are counted. *)
Inductive log_level := LEVEL_INFO | LEVEL_WARN | LEVEL_ERROR | LEVEL_FATAL | LEVEL_OTHER.

Definition prometheus_logging (type : log_level) : counters -> counters :=
  when_enabled (match type with
                | LEVEL_INFO => fetch_add P_logging_info 1
                | LEVEL_WARN => fetch_add P_logging_warn 1
                | LEVEL_ERROR => fetch_add P_logging_error 1
                | LEVEL_FATAL => fetch_add P_logging_fatal 1
                | LEVEL_OTHER => id
                end).

(** The bounds of the histogram; what is above the last one has a bucket too. *)
Definition session_bounds : list Z :=
  [5; 10; 20; 30; 45; 60; 300; 600; 1200; 1800; 2700; 3600; 7200; 14400; 21600; 43200; 86400].

Fixpoint session_bucket (bounds : list Z) (t : Z) : nat :=
  match bounds with
  | [] => O
  | b :: bounds => if t <=? b then O else S (session_bucket bounds t)
  end.

(** [pgagroal_prometheus_session_time], with the whole seconds. *)
Definition prometheus_session_time (t : Z) : counters -> counters :=
  when_enabled (fun p => fetch_add (P_session_time (session_bucket session_bounds t)) 1 (fetch_add P_session_time_sum t p)).

(** The counters that [pgagroal_prometheus_clear] stores 0 in. *)
Definition cleared (max_connections : nat) (c : counter) : bool :=
  match c with
  | P_session_time i => (i <? 18)%nat
  | P_connections_awaiting i => (i <? NUMBER_OF_LIMITS)%nat
  | P_server_error i => (i <? 64)%nat
  | P_connection_query_count slot => (slot <? max_connections)%nat
  | P_failed_servers => false
  | _ => true
  end.

Definition prometheus_clear (max_connections : nat) : counters -> counters :=
  when_enabled (fun p c => if cleared max_connections c then 0 else p c).
End counting.

(** What the calls of the pool do. *)
Definition count_metric (port : Z) (servers : list (bool * server_state)) (m : metric) : counters -> counters :=
  match m with
  | M_connection_get => prometheus_connection_get port
  | M_connection_awaiting rule => prometheus_connection_awaiting port rule
  | M_connection_unawaiting rule => prometheus_connection_unawaiting port rule
  | M_client_wait_time s => when_enabled port (store_counter P_client_wait_time s)
  | M_connection_success => prometheus_connection_success port
  | M_connection_timeout => prometheus_connection_timeout port
  | M_connection_error => prometheus_connection_error port
  | M_connection_return => prometheus_connection_return port
  | M_connection_kill => prometheus_connection_kill port
  | M_connection_remove => prometheus_connection_remove port
  | M_connection_idletimeout => prometheus_connection_idletimeout port
  | M_connection_max_connection_age => prometheus_connection_max_connection_age port
  | M_connection_invalid => prometheus_connection_invalid port
  | M_connection_flush => prometheus_connection_flush port
  | M_server_error server => prometheus_server_error port (Z.to_nat server)
  | M_failed_servers => prometheus_failed_servers port servers
  end.

(** ** Texts *)

Definition nl : string := String (ascii_of_nat 10) "".
Definition dq : string := String (ascii_of_nat 34) "".
Definition crlf : string := String (ascii_of_nat 13) (String (ascii_of_nat 10) "").

(** A line of the format: a name, labels in braces and a value. *)
Record sample := Sample { sm_name : string; sm_labels : list (string * string); sm_value : string }.

Definition label_text (l : string * string) : string := l.1 +:+ "=" +:+ dq +:+ l.2 +:+ dq.

Definition sample_text (s : sample) : string :=
  sm_name s +:+ (match sm_labels s with [] => "" | ls => "{" +:+ String.concat "," (map label_text ls) +:+ "}" end) +:+ " " +:+
  sm_value s +:+ nl.

(** The two comments in front of the samples of a metric. *)
Record family := Family { f_name : string; f_help : string; f_type : string; f_samples : list sample }.

Definition family_text (f : family) : string :=
  "# HELP " +:+ f_name f +:+ " " +:+ f_help f +:+ nl +:+ "# TYPE " +:+ f_name f +:+ " " +:+ f_type f +:+ nl +:+
  String.concat "" (map sample_text (f_samples f)).

(** What the page is made from: the shared segment of the configuration and the counters, as they are
    loaded. *)
Record server_view := ServerView { v_valid : bool; v_name : string; v_state : server_state; v_health : server_health; v_version : Z }.
Record limit_view := LimitView { v_limit : limit; v_active : Z; v_backend : Z }.
Record view := View {
  v_gracefully : bool;
  v_pipeline : Z;
  v_reset_behavior : Z;
  v_servers : list server_view;
  v_connections : list (slot_state * connection);
  v_limits : list limit_view;
  v_os : option (string * Z * Z * Z);
  v_counters : counters }.

(** An entry of a container: the key and the text. *)
Definition entry (f : family) : string * string := (f_name f, family_text f).

Definition plain_metric (name help type value : string) : family := Family name help type [Sample name [] value].

(** A metric that shows a counter. *)
Definition counter_metric (v : view) (name help type : string) (c : counter) : string * string :=
  entry (plain_metric name help type (pretty (v_counters v c))).

Definition server_state_text (s : server_state) : string :=
  match s with
  | SERVER_NOTINIT | SERVER_NOTINIT_PRIMARY => "not_init"
  | SERVER_PRIMARY => "primary"
  | SERVER_REPLICA => "replica"
  | SERVER_FAILOVER => "failover"
  | SERVER_FAILED => "failed"
  end.

Definition health_value (h : Z) : Z := if h =? SERVER_HEALTH_UP then 1 else if h =? SERVER_HEALTH_DOWN then 0 else 2.

Definition health_auth_text (a : Z) : string :=
  if a =? HEALTH_CHECK_AUTH_TRUST then "trust"
  else if a =? HEALTH_CHECK_AUTH_SCRAM then "scram-sha-256"
  else if a =? HEALTH_CHECK_AUTH_ERROR then "error"
  else "unknown".

(** The valid servers with their index. *)
Definition valid_servers (v : view) : list (nat * server_view) := List.filter (fun p : nat * server_view => v_valid p.2) (imap pair (v_servers v)).

(** [general_information]. *)
Definition general_information (v : view) : list (string * string) :=
  [ entry (plain_metric "pgagroal_state" "The state of pgagroal" "gauge" (if v_gracefully v then "2" else "1"));
    entry (plain_metric "pgagroal_pipeline_mode" "The mode of pipeline" "gauge" (pretty (v_pipeline v)));
    entry (plain_metric "pgagroal_server_reset_query_behavior_on_failure" "The failure behavior of server_reset_query (0=discard, 1=ignore, 2=try)" "gauge"
      (pretty (v_reset_behavior v)));
    entry (Family "pgagroal_server_error" "The number of errors for servers" "counter"
      (map (fun p : nat * server_view => Sample "pgagroal_server_error" [("name", v_name p.2); ("state", server_state_text (v_state p.2))] (pretty (v_counters v (P_server_error p.1))))
        (valid_servers v)));
    entry (Family "pgagroal_server_streaming" "Whether a standby is actively streaming from its primary (-1=primary, 0=no, 1=yes)" "gauge"
      (map (fun p : nat * server_view => Sample "pgagroal_server_streaming" [("name", v_name p.2)] (pretty (streaming_state (v_health p.2)))) (valid_servers v)));
    counter_metric v "pgagroal_logging_info" "The number of INFO logging statements" "gauge" P_logging_info;
    counter_metric v "pgagroal_logging_warn" "The number of WARN logging statements" "gauge" P_logging_warn;
    counter_metric v "pgagroal_logging_error" "The number of ERROR logging statements" "gauge" P_logging_error;
    counter_metric v "pgagroal_logging_fatal" "The number of FATAL logging statements" "gauge" P_logging_fatal;
    counter_metric v "pgagroal_failed_servers" "The number of failed servers" "gauge" P_failed_servers;
    (* three metrics under one key *)
    ("pgagroal_wait_time",
      family_text (Family "pgagroal_server_health" "The health state of the server (0 = DOWN, 1 = UP, 2 = UNKNOWN)" "gauge"
        (map (fun p : nat * server_view =>
                Sample "pgagroal_server_health" [("server", v_name p.2); ("auth", health_auth_text (auth_type (v_health p.2)))]
                  (pretty (health_value (health_state (v_health p.2))))) (valid_servers v))) +:+ nl +:+
      family_text (Family "pgagroal_server_version" "The PostgreSQL major version for each server" "gauge"
        (map (fun p : nat * server_view => Sample "pgagroal_server_version" [("server", v_name p.2)] (pretty (v_version p.2)))
          (List.filter (fun p : nat * server_view => 0 <? v_version p.2) (valid_servers v)))) +:+ nl +:+
      family_text (plain_metric "pgagroal_wait_time" "The waiting time of clients" "gauge" (pretty (v_counters v P_client_wait_time))));
    counter_metric v "pgagroal_query_count" "The number of queries" "counter" P_query_count;
    entry (Family "pgagroal_connection_query_count" "The number of queries per connection" "counter"
      (imap (fun i p => Sample "pgagroal_connection_query_count"
          [("id", pretty (Z.of_nat i)); ("user", c_username p.2); ("database", c_database p.2); ("application_name", c_appname p.2)]
          (pretty (v_counters v (P_connection_query_count i)))) (v_connections v)));
    counter_metric v "pgagroal_tx_count" "The number of transactions" "counter" P_tx_count ].

(** [connection_information]. *)
Definition is_active (s : slot_state) : bool := match s with STATE_IN_USE | STATE_GRACEFULLY => true | _ => false end.
Definition is_counted (s : slot_state) : bool := match s with STATE_NOTINIT => false | _ => true end.

Definition slot_state_text (s : slot_state) : string :=
  match s with
  | STATE_NOTINIT => "not_init" | STATE_INIT => "init" | STATE_FREE => "free" | STATE_IN_USE => "in_use" | STATE_GRACEFULLY => "gracefully"
  | STATE_FLUSH => "flush" | STATE_IDLE_CHECK => "idle_check" | STATE_MAX_CONNECTION_AGE => "max_connection_age" | STATE_VALIDATION => "validation"
  | STATE_REMOVE => "remove"
  end.

Definition count_slots (p : slot_state -> bool) (v : view) : Z := Z.of_nat (length (List.filter (fun c : slot_state * connection => p c.1) (v_connections v))).

Definition connection_information (v : view) : list (string * string) :=
  [ entry (plain_metric "pgagroal_active_connections" "The number of active connections" "gauge" (pretty (count_slots is_active v)));
    entry (plain_metric "pgagroal_total_connections" "The total number of connections" "gauge" (pretty (count_slots is_counted v)));
    entry (plain_metric "pgagroal_max_connections" "The maximum number of connections" "counter" (pretty (Z.of_nat (length (v_connections v)))));
    entry (Family "pgagroal_connection" "The connection information" "gauge"
      (imap (fun i p => Sample "pgagroal_connection"
          [("id", pretty (Z.of_nat i)); ("user", c_username p.2); ("database", c_database p.2); ("application_name", c_appname p.2); ("state", slot_state_text p.1)]
          (if is_counted p.1 then "1" else "0")) (v_connections v))) ].

(** [limit_information]. *)
Definition limit_samples (l : limit_view) : list sample :=
  map (fun t : string * Z => Sample "pgagroal_limit" [("user", l_username (v_limit l)); ("database", l_database (v_limit l)); ("type", t.1)] (pretty t.2))
    [("min", l_min_size (v_limit l)); ("initial", l_initial_size (v_limit l)); ("max", l_max_size (v_limit l)); ("active", v_active l); ("backend", v_backend l)].

Definition limit_information (v : view) : list (string * string) :=
  match v_limits v with
  | [] => []
  | ls => [entry (Family "pgagroal_limit" "The limit information" "gauge" (concat (map limit_samples ls)))]
  end.

(** [session_information]: every bucket shows the sessions of those before it too. *)
Fixpoint session_samples (p : counters) (bounds : list string) (i : nat) (counter : Z) : list sample * Z :=
  match bounds with
  | [] => ([], counter)
  | b :: bounds =>
      let counter := u64 (counter + p (P_session_time i)) in
      let '(ss, total) := session_samples p bounds (S i) counter in
      (Sample "pgagroal_session_time_seconds_bucket" [("le", b)] (pretty counter) :: ss, total)
  end.

Definition session_information (v : view) : list (string * string) :=
  let '(ss, total) := session_samples (v_counters v) (map pretty session_bounds ++ ["+Inf"]) 0 0 in
  [entry (Family "pgagroal_session_time_seconds" "The session times" "histogram"
     (ss ++ [Sample "pgagroal_session_time_seconds_sum" [] (pretty (v_counters v P_session_time_sum));
             Sample "pgagroal_session_time_seconds_count" [] (pretty total)]))].

(** [pool_information], [auth_information], [client_information] and [internal_information]. *)
Definition pool_information (v : view) : list (string * string) :=
  [ counter_metric v "pgagroal_connection_error" "Number of connection errors" "counter" P_connection_error;
    counter_metric v "pgagroal_connection_kill" "Number of connection kills" "counter" P_connection_kill;
    counter_metric v "pgagroal_connection_remove" "Number of connection removes" "counter" P_connection_remove;
    counter_metric v "pgagroal_connection_timeout" "Number of connection time outs" "counter" P_connection_timeout;
    counter_metric v "pgagroal_connection_return" "Number of connection returns" "counter" P_connection_return;
    counter_metric v "pgagroal_connection_invalid" "Number of connection invalids" "counter" P_connection_invalid;
    counter_metric v "pgagroal_connection_get" "Number of connection gets" "counter" P_connection_get;
    counter_metric v "pgagroal_connection_idletimeout" "Number of connection idle timeouts" "counter" P_connection_idletimeout;
    counter_metric v "pgagroal_connection_max_connection_age" "Number of connection max age timeouts" "counter" P_connection_max_connection_age;
    counter_metric v "pgagroal_connection_flush" "Number of connection flushes" "counter" P_connection_flush;
    counter_metric v "pgagroal_connection_success" "Number of connection successes" "counter" P_connection_success ].

Definition auth_information (v : view) : list (string * string) :=
  [ counter_metric v "pgagroal_auth_user_success" "Number of successful user authentications" "counter" P_auth_user_success;
    counter_metric v "pgagroal_auth_user_bad_password" "Number of bad passwords during user authentication" "counter" P_auth_user_bad_password;
    counter_metric v "pgagroal_auth_user_error" "Number of errors during user authentication" "counter" P_auth_user_error ].

Definition client_information (v : view) : list (string * string) :=
  [ counter_metric v "pgagroal_client_wait" "Number of waiting clients" "gauge" P_client_wait;
    counter_metric v "pgagroal_client_active" "Number of active clients" "gauge" P_client_active ].

Definition internal_information (v : view) : list (string * string) :=
  [ counter_metric v "pgagroal_network_sent" "Bytes sent by clients" "gauge" P_network_sent;
    counter_metric v "pgagroal_network_received" "Bytes received from servers" "gauge" P_network_received;
    counter_metric v "pgagroal_client_sockets" "Number of sockets the client used" "gauge" P_client_sockets;
    counter_metric v "pgagroal_self_sockets" "Number of sockets used by pgagroal itself" "gauge" P_self_sockets ].

(** [connection_awaiting_information]. *)
Definition connection_awaiting_information (v : view) : list (string * string) :=
  counter_metric v "pgagroal_connection_awaiting" "Number of connection on-hold (awaiting)" "gauge" P_connections_awaiting_total ::
  match v_limits v with
  | [] => []
  | ls => [entry (Family "pgagroal_limit_awaiting" "The connections on-hold (awaiting) information" "gauge"
      (imap (fun i l => Sample "pgagroal_limit_awaiting" [("user", l_username (v_limit l)); ("database", l_database (v_limit l))]
                (pretty (v_counters v (P_connections_awaiting i)))) ls))]
  end.

(** [write_os_kernel_version]: the labels are separated by a comma and a blank here. *)
Definition write_os_kernel_version (v : view) : list (string * string) :=
  match v_os v with
  | None => []
  | Some (os, major, minor, patch) =>
      [("pgagroal_os_info",
        "# HELP pgagroal_os_info Operating system version information" +:+ nl +:+ "# TYPE pgagroal_os_info gauge" +:+ nl +:+
        "pgagroal_os_info{" +:+
        String.concat ", " (map label_text [("os", os); ("major", pretty major); ("minor", pretty minor); ("patch", pretty patch)]) +:+ "} 1" +:+ nl)]
  end.

(** ** The cache *)

Definition PROMETHEUS_MAX_CACHE_SIZE : Z := 1024 * 1024.

(** [struct prometheus_cache]; [pc_data] has [size] bytes. *)
Record metrics_cache := Cache { pc_valid_until : Z; pc_locked : bool; pc_data : list Z }.

Definition pc_size (c : metrics_cache) : Z := len (pc_data c).

Section cache.
(** [config->metrics], [metrics_cache_max_age] in seconds and [metrics_cache_max_size]. *)
Context (port max_age max_size : Z).

Definition is_metrics_cache_configured : bool := if port =? 0 then false else time_is_valid max_age.

Definition metrics_cache_size_to_alloc : Z :=
  if is_metrics_cache_configured then
    if 0 <? max_size then Z.min max_size PROMETHEUS_MAX_CACHE_SIZE else PROMETHEUS_DEFAULT_CACHE_SIZE
  else 0.

Definition init_prometheus_cache : metrics_cache := Cache 0 false (zeroed metrics_cache_size_to_alloc).

(** [strlen(cache->data)]; without a zero the behaviour is undefined. *)
Definition cache_strlen (c : metrics_cache) : option nat :=
  if existsb (Z.eqb 0) (pc_data c) then Some (length (upto_nul (pc_data c))) else None.

Definition is_metrics_cache_valid (now : Z) (c : metrics_cache) : option bool :=
  if pc_valid_until c =? 0 then Some false
  else n ← cache_strlen c; Some (if (n =? 0)%nat then false else now <=? pc_valid_until c).

Definition metrics_cache_invalidate (c : metrics_cache) : metrics_cache := Cache 0 (pc_locked c) (zeroed (pc_size c)).

(** The zero is stored one byte behind the end of the text. *)
Definition metrics_cache_append (data : list Z) (c : metrics_cache) : option (bool * metrics_cache) :=
  if negb is_metrics_cache_configured then Some (false, c)
  else
    origin ← cache_strlen c;
    if pc_size c <=? Z.of_nat origin + len data then Some (false, metrics_cache_invalidate c)
    else
      d ← store (pc_data c) (Z.of_nat origin) data;
      d ← store d (Z.of_nat origin + len data + 1) [0];
      Some (true, Cache (pc_valid_until c) (pc_locked c) d).

Definition metrics_cache_finalize (now : Z) (c : metrics_cache) : bool * metrics_cache :=
  if negb is_metrics_cache_configured then (false, c)
  else let until := now + time_convert max_age FORMAT_TIME_S in (now <? until, Cache until (pc_locked c) (pc_data c)).

(** ** Pages *)

(** [add_metric_to_art] for the entries of a container, and the iterator of [output_art_metrics]. *)
Definition container_tree (es : list (string * string)) : option (art string) :=
  foldl (fun t e => t ← t; r ← tree_insert t (c_key e.1) e.2; Some r.1) (Some art_create) es.

Definition container_values (es : list (string * string)) : option (list string) :=
  t ← container_tree es; l ← drain (S (length es)) (art_iterator_create t); Some l.*2.

(** [%zX]. *)
Definition hex_upper (d : N) : ascii := ascii_of_N (if (d <? 10)%N then d + 48 else d + 55).

Fixpoint hex_go (fuel : nat) (n : N) (acc : string) : string :=
  let acc := String (hex_upper (n mod 16)%N) acc in
  match fuel with
  | O => acc
  | S fuel => if (n <? 16)%N then acc else hex_go fuel (n / 16)%N acc
  end.

Definition hex (n : N) : string := hex_go (N.to_nat (N.log2 n)) n "".

(** [send_chunk]. *)
Definition chunk (data : string) : list Z := str (hex (N.of_nat (String.length data)) +:+ crlf +:+ data +:+ crlf).

(** [output_art_metrics]: every text is sent as a chunk, which is not looked at, and appended to the
    cache, which is not looked at either. *)
Fixpoint output_values (values : list string) (c : metrics_cache) : option (list (list Z) * metrics_cache) :=
  match values with
  | [] => Some ([], c)
  | x :: values =>
      r ← metrics_cache_append (str x) c;
      '(ms, c) ← output_values values r.2;
      Some (chunk x :: ms, c)
  end.

Definition metrics_head (date : string) : string :=
  "HTTP/1.1 200 OK" +:+ crlf +:+ "Content-Type: text/plain; version=0.0.3; charset=utf-8" +:+ crlf +:+ "Date: " +:+ date +:+ crlf.

(** The page: the messages that are sent, and the cache.  [None] is undefined. *)
Record page := Page { pg_messages : list (list Z); pg_cache : metrics_cache }.

(** The containers in the order in which they are sent. *)
Definition metrics_containers (v : view) (certificates : list (string * string)) : list (list (string * string)) :=
  [general_information v; connection_information v; limit_information v; session_information v; pool_information v; auth_information v;
   client_information v; internal_information v; connection_awaiting_information v; write_os_kernel_version v; certificates].

Definition metrics_values (v : view) (certificates : list (string * string)) : option (list string) :=
  ls ← mapM container_values (metrics_containers v certificates); Some (concat ls).

(** [metrics_page] with the lock in its hands: what it sends while it holds it, and the last message, which
    it sends when the lock is free again.  [head_ok] tells whether the first message could be written; [now] and [later] are
    the times of the test and of the end. *)
Definition build_page (date : string) (later : Z) (head_ok : bool) (values : list string) (c : metrics_cache) : option (list (list Z) * option (list Z) * metrics_cache) :=
  let c := metrics_cache_invalidate c in
  r ← metrics_cache_append (str (metrics_head date)) c;
  let head := str (metrics_head date +:+ "Transfer-Encoding: chunked" +:+ crlf +:+ crlf) in
  if negb head_ok then Some ([], None, metrics_cache_invalidate r.2)
  else
    '(ms, c) ← output_values values r.2;
    Some (head :: ms, Some (str ("0" +:+ crlf +:+ crlf)), (metrics_cache_finalize later c).2).

Definition metrics_page (date : string) (now later : Z) (head_ok : bool) (values : list string) (c : metrics_cache) : option page :=
  hit ← (if is_metrics_cache_configured then is_metrics_cache_valid now c else Some false);
  if (hit : bool) then Some (Page [upto_nul (pc_data c)] c)
  else
    '(ms, final, c) ← build_page date later head_ok values c;
    Some (Page (ms ++ match final with Some m => [m] | None => [] end) c).

(** [resolve_page]: the bytes are those of the buffer of the process. *)
Inductive page_name := PAGE_UNKNOWN | PAGE_HOME | PAGE_METRICS | BAD_REQUEST.

(** The loop to the next blank: the bytes before it. *)
Fixpoint until_blank (bs : list Z) : option (list Z) :=
  match bs with
  | [] => None
  | b :: bs => if b =? 32 then Some [] else l ← until_blank bs; Some (b :: l)
  end.

Definition resolve_page (msg : message) : option page_name :=
  if (m_length msg <? 3) || negb (bool_decide (take 3 (m_data msg) = str "GET")) then Some BAD_REQUEST
  else
    (* the buffer is zero behind the message and ends without a blank *)
    path ← until_blank (drop 4 (m_data msg));
    let from := upto_nul path in
    Some (if bool_decide (from = str "/") || bool_decide (from = str "/index.html") then PAGE_HOME
          else if bool_decide (from = str "/metrics") then PAGE_METRICS
          else PAGE_UNKNOWN).

(** [badrequest_page], [unknown_page] and [redirect_page]. *)
Definition status_page (status date : string) : list Z := str ("HTTP/1.1 " +:+ status +:+ crlf +:+ "Date: " +:+ date +:+ crlf).
Definition badrequest_page (date : string) : list Z := status_page "400 Bad Request" date.
Definition unknown_page (date : string) : list Z := status_page "403 Forbidden" date.
Definition redirect_page (path date : string) : list Z :=
  str ("HTTP/1.1 301 Moved Permanently" +:+ crlf +:+ "Location: " +:+ path +:+ crlf +:+ "Date: " +:+ date +:+ crlf +:+
       "Content-Length: 0" +:+ crlf +:+ "Connection: close" +:+ crlf +:+ crlf).
End cache.
