(* ===== verification/MetricsFacts.v ===== *)
(** * Facts about the metrics

    The gauge of the waiting connections is exact as long as it is not cleared; the histogram
    counts every session in the buckets it belongs to; a page that is built is what the
    chunks say; and what the cache makes of it. *)

From Stdlib Require Import Ascii Sorted.
From stdpp Require Import pretty.
From S2P Require Import Prelude Wire Frames Message MessageFacts Text Config ConfFile Effects Pool Art ArtFacts ArtMap Scram ScramFacts Queries Health Metrics.

Local Open Scope Z_scope.

(** ** The gauge of the waiting connections *)

(** A process that does not wait, one that waits, and one that has loaded the counter to subtract from
    it. *)
Inductive waiter := W_out | W_in | W_loaded (v : Z).

Definition waits (w : waiter) : bool := match w with W_out => false | _ => true end.

(** The atomic steps of [pgagroal_prometheus_connection_awaiting] and [_unawaiting] for the total. *)
Inductive wait_step : counters * list waiter -> counters * list waiter -> Prop :=
| wait_enters p ws i : ws !! i = Some W_out -> wait_step (p, ws) (fetch_add P_connections_awaiting_total 1 p, <[i := W_in]> ws)
| wait_loads p ws i : ws !! i = Some W_in -> wait_step (p, ws) (p, <[i := W_loaded (p P_connections_awaiting_total)]> ws)
| wait_leaves p ws i v : ws !! i = Some (W_loaded v) ->
    wait_step (p, ws) (if 0 <? v then fetch_sub P_connections_awaiting_total 1 p else p, <[i := W_out]> ws)
| wait_other p ws c n : c <> P_connections_awaiting_total -> wait_step (p, ws) (fetch_add c n p, ws).

(** The same with [pgagroal_prometheus_clear]. *)
Inductive wait_or_clear : counters * list waiter -> counters * list waiter -> Prop :=
| wc_step s s' : wait_step s s' -> wait_or_clear s s'
| wc_clear p ws port max : wait_or_clear (p, ws) (prometheus_clear port max p, ws).

Definition waiting (ws : list waiter) : nat := length (List.filter waits ws).

Definition gauge_ok (s : counters * list waiter) : Prop :=
  s.1 P_connections_awaiting_total = Z.of_nat (waiting s.2) /\ Forall (fun w => forall v, w = W_loaded v -> 0 < v) s.2.

Lemma waiting_insert (ws : list waiter) (i : nat) (w w' : waiter) :
  ws !! i = Some w -> (waiting (<[i := w']> ws) + (if waits w then 1 else 0) = waiting ws + (if waits w' then 1 else 0))%nat.
Proof.
  intros H. unfold waiting. rewrite insert_take_drop by (by apply lookup_lt_Some in H).
  rewrite <- (take_drop_middle ws i w H) at 3. rewrite !List.filter_app, !length_app. cbn [List.filter].
  destruct (waits w), (waits w'); cbn [length]; lia.
Qed.

Lemma store_same (c : counter) (v : Z) (p : counters) : store_counter c v p c = wrap_counter c v.
Proof. unfold store_counter. by rewrite decide_True. Qed.

Lemma store_other (c c' : counter) (v : Z) (p : counters) : c <> c' -> store_counter c v p c' = p c'.
Proof. intros H. unfold store_counter. by rewrite decide_False. Qed.

Lemma waiting_le (ws : list waiter) : (waiting ws <= length ws)%nat.
Proof. unfold waiting. induction ws as [|w ws IH]; [done|]. cbn [List.filter]. destruct (waits w); simpl; lia. Qed.

Lemma gauge_step (s s' : counters * list waiter) :
  wait_step s s' -> Z.of_nat (length s.2) < 2 ^ 64 -> gauge_ok s -> gauge_ok s' /\ length s'.2 = length s.2.
Proof.
  intros Hs Hl [Hg Hw]. destruct Hs as [p ws i H|p ws i H|p ws i v H|p ws c n H]; cbn [fst snd] in *.
  - pose proof (waiting_insert ws i W_out W_in H) as E. cbn [waits] in E. pose proof (waiting_le (<[i := W_in]> ws)) as Hle. rewrite length_insert in Hle.
    split; [|apply length_insert]. split; cbn [fst snd]; [|apply Forall_insert; done]. unfold fetch_add. rewrite store_same, Hg. cbn [wrap_counter].
    rewrite wrapu_id by (unfold in_u; lia). lia.
  - pose proof (waiting_insert ws i W_in (W_loaded (p P_connections_awaiting_total)) H) as E. cbn [waits] in E. split; [|apply length_insert].
    split; cbn [fst snd]; [lia|]. apply Forall_insert; [done|]. intros v [= <-]. rewrite Hg.
    enough (0 < waiting ws)%nat by lia. pose proof (waiting_insert ws i W_in W_out H) as E'. cbn [waits] in E'. lia.
  - assert (0 < v) by (by apply (Forall_lookup_1 _ _ _ _ Hw H v)). rewrite (proj2 (Z.ltb_lt _ _)) by done.
    pose proof (waiting_insert ws i (W_loaded v) W_out H) as E. cbn [waits] in E. pose proof (waiting_le ws) as Hle. split; [|apply length_insert].
    split; cbn [fst snd]; [|by apply Forall_insert]. unfold fetch_sub. rewrite store_same, Hg. cbn [wrap_counter]. rewrite wrapu_id by (unfold in_u; lia). lia.
  - split; [|done]. split; [|done]. cbn [fst]. unfold fetch_add. by rewrite store_other.
Qed.

(** C32: In every interleaving of processes that wait for a connection and stop to wait the gauge is the number of those
    that wait, so that it never goes below zero; the load and the subtraction are two steps. *)
Theorem gauge_exact (n : nat) (p : counters) (ws : list waiter)
  (Hn : Z.of_nat n < 2 ^ 64) (Hr : rtc wait_step (init_prometheus, replicate n W_out) (p, ws)) :
  p P_connections_awaiting_total = Z.of_nat (waiting ws).
Proof.
  assert (Hall : forall s s', rtc wait_step s s' -> Z.of_nat (length s.2) < 2 ^ 64 -> gauge_ok s -> gauge_ok s').
  { intros s s' H. induction H as [s|s s1 s' H1 _ IH]; intros Hl Hs; [done|].
    destruct (gauge_step s s1 H1 Hl Hs) as [Hs1 Hl1]. apply IH; [by rewrite Hl1|done]. }
  apply (Hall _ _ Hr); [cbn [snd]; by rewrite length_replicate|]. split; cbn [fst snd]; [|by apply Forall_replicate].
  unfold waiting. clear. by induction n.
Qed.

(** When the counters are cleared while processes wait, two of them that leave at the same time take the
    gauge below zero. *)
Lemma clear_breaks_gauge : exists p ws,
  rtc wait_or_clear (init_prometheus, replicate 3 W_out) (p, ws) /\ waiting ws = 1%nat /\ p P_connections_awaiting_total = 2 ^ 64 - 1.
Proof.
  eexists _, _. split; [|split].
  - eapply rtc_l; [apply wc_step, (wait_enters _ _ 0); reflexivity|]. eapply rtc_l; [apply wc_step, (wait_enters _ _ 1); reflexivity|].
    eapply rtc_l; [apply (wc_clear _ _ 2346 10)|]. eapply rtc_l; [apply wc_step, (wait_enters _ _ 2); reflexivity|].
    eapply rtc_l; [apply wc_step, (wait_loads _ _ 0); reflexivity|]. eapply rtc_l; [apply wc_step, (wait_loads _ _ 1); reflexivity|].
    eapply rtc_l; [apply wc_step, (wait_leaves _ _ 0 1); reflexivity|]. eapply rtc_l; [apply wc_step, (wait_leaves _ _ 1 1); reflexivity|].
    apply rtc_refl.
  - reflexivity.
  - vm_compute. reflexivity.
Qed.

(** ** The histogram *)

Definition at_most (b : Z) (ts : list Z) : Z := Z.of_nat (length (List.filter (fun t => t <=? b) ts)).

(** The counters after these sessions. *)
Definition after_sessions (port : Z) (ts : list Z) : counters := foldr (prometheus_session_time port) init_prometheus ts.

Definition below (i : nat) (ts : list Z) : Z :=
  Z.of_nat (length (List.filter (fun t => (session_bucket session_bounds t <? i)%nat) ts)).

Lemma below_range (i : nat) (ts : list Z) : 0 <= below i ts <= Z.of_nat (length ts).
Proof. unfold below. induction ts as [|t ts IH]; [simpl; lia|]. cbn [List.filter]. destruct (_ <? _)%nat; cbn [length]; lia. Qed.

Lemma below_mono (i : nat) (ts : list Z) : below i ts <= below (S i) ts.
Proof.
  unfold below. induction ts as [|t ts IH]; [done|]. cbn [List.filter].
  destruct (Nat.ltb_spec (session_bucket session_bounds t) i), (Nat.ltb_spec (session_bucket session_bounds t) (S i)); cbn [length]; lia.
Qed.

Lemma below_S (i : nat) (ts : list Z) (port : Z) :
  0 < port -> Z.of_nat (length ts) < 2 ^ 64 -> after_sessions port ts (P_session_time i) = below (S i) ts - below i ts.
Proof.
  intros Hp. induction ts as [|t ts IH]; intros Hl; [done|]. cbn [length] in Hl. specialize (IH ltac:(lia)).
  unfold after_sessions in *. cbn [foldr]. unfold prometheus_session_time at 1, when_enabled, is_prometheus_enabled. rewrite (proj2 (Z.ltb_lt _ _) Hp).
  unfold fetch_add. set (p := foldr _ _ _) in *. set (k := session_bucket session_bounds t).
  pose proof (below_range (S i) ts). pose proof (below_range i ts). pose proof (below_mono i ts).
  unfold below in *. cbn [List.filter]. fold k. destruct (decide (k = i)) as [->|Hk].
  - rewrite store_same, store_other, IH by done. cbn [wrap_counter]. rewrite (proj2 (Nat.ltb_lt _ _)), (proj2 (Nat.ltb_ge i i)) by lia. cbn [length].
    rewrite wrapu_id by (unfold in_u; lia). lia.
  - rewrite !store_other by (intros [=]; done). rewrite IH.
    destruct (Nat.ltb_spec k (S i)), (Nat.ltb_spec k i); cbn [length]; lia.
Qed.

Lemma bucket_sorted (bounds : list Z) (t b : Z) (i : nat) :
  StronglySorted Z.le bounds -> bounds !! i = Some b -> (session_bucket bounds t <? S i)%nat = (t <=? b).
Proof.
  revert i. induction bounds as [|b0 bounds IH]; intros i Hs Hb; [done|]. apply StronglySorted_inv in Hs as [Hs Hall]. cbn [session_bucket].
  destruct i as [|i]; [injection Hb as ->|].
  - destruct (t <=? b); [done|]. by apply Nat.ltb_ge; lia.
  - cbn [lookup list_lookup] in Hb. rewrite <- (IH i Hs Hb). destruct (Z.leb_spec t b0) as [Hle|Hgt].
    + symmetry. rewrite (IH i Hs Hb). apply Z.leb_le. assert (b0 <= b) by (by apply (Forall_lookup_1 _ _ _ _ Hall Hb)). lia.
    + destruct (Nat.ltb_spec (session_bucket bounds t) (S i)); [apply Nat.ltb_lt|apply Nat.ltb_ge]; lia.
Qed.

Lemma session_bounds_sorted : StronglySorted Z.le session_bounds.
Proof. apply Sorted_StronglySorted; [intros x y z; lia|]. repeat (constructor; [|try (constructor; lia)]). all: by constructor. Qed.

Lemma below_bound (ts : list Z) (i : nat) (b : Z) : session_bounds !! i = Some b -> below (S i) ts = at_most b ts.
Proof.
  intros Hb. unfold below, at_most. do 2 f_equal. apply List.filter_ext. intros t. by apply bucket_sorted; [apply session_bounds_sorted|].
Qed.

Lemma below_all (ts : list Z) : below 18 ts = Z.of_nat (length ts).
Proof.
  unfold below. assert (Hb : forall bounds t, (session_bucket bounds t <= length bounds)%nat).
  { induction bounds as [|b bounds IH]; intros t; [done|]. cbn [session_bucket length]. destruct (t <=? b); [lia|]. specialize (IH t). lia. }
  f_equal. induction ts as [|t ts IH]; [done|]. cbn [List.filter]. specialize (Hb session_bounds t). change (length session_bounds) with 17%nat in Hb.
  rewrite (proj2 (Nat.ltb_lt _ _)) by lia. cbn [length]. by rewrite IH.
Qed.

Definition bucket_sample (label : string) (n : Z) : sample := Sample "pgagroal_session_time_seconds_bucket" [("le", label)] (pretty n).

Lemma session_samples_below (port : Z) (ts : list Z) (labels : list string) (i : nat) :
  0 < port -> Z.of_nat (length ts) < 2 ^ 64 ->
  session_samples (after_sessions port ts) labels i (below i ts) =
    (imap (fun j l => bucket_sample l (below (S (i + j)) ts)) labels, below (i + length labels) ts).
Proof.
  intros Hp Hl. revert i. induction labels as [|l labels IH]; intros i; cbn [session_samples imap length]; [by rewrite Nat.add_0_r|].
  rewrite below_S by done. replace (below i ts + (below (S i) ts - below i ts)) with (below (S i) ts) by lia.
  pose proof (below_range (S i) ts). rewrite wrapu_id by (unfold in_u; lia). rewrite IH. rewrite Nat.add_0_r, <- Nat.add_succ_comm. f_equal. f_equal.
  apply imap_ext. intros j x _. cbn. by rewrite <- Nat.add_succ_comm.
Qed.

(** The histogram shows, for every bound, how many of the sessions lasted at most so long, and for the last bucket and the
    count all of them, whatever the sessions were. *)
Theorem histogram_exact (port : Z) (ts : list Z) (Hp : 0 < port) (Hl : Z.of_nat (length ts) < 2 ^ 64) :
  session_samples (after_sessions port ts) (map pretty session_bounds ++ ["+Inf"]) 0 0 =
    (map (fun b => bucket_sample (pretty b) (at_most b ts)) session_bounds ++ [bucket_sample "+Inf" (Z.of_nat (length ts))], Z.of_nat (length ts)).
Proof.
  assert (H0 : below 0 ts = 0) by (unfold below; clear; by induction ts).
  rewrite <- H0, session_samples_below by done. rewrite length_app, length_map. change (0 + (length session_bounds + length ["+Inf"]))%nat with 18%nat.
  rewrite below_all. f_equal. rewrite imap_app. f_equal.
  - change (map pretty session_bounds) with (pretty <$> session_bounds). rewrite imap_fmap. unfold compose. cbn [Nat.add].
    assert (forall j b, session_bounds !! j = Some b -> bucket_sample (pretty b) (below (S j) ts) = bucket_sample (pretty b) (at_most b ts)) as Hb
      by (intros j b Hjb; by rewrite (below_bound ts j b Hjb)).
    rewrite (imap_ext _ (fun _ b => bucket_sample (pretty b) (at_most b ts))) by done.
    generalize session_bounds. intros l. induction l as [|b l IH]; [done|]. cbn [imap map]. f_equal. exact IH.
  - cbn. rewrite <- below_all. done.
Qed.

(** ** The cache *)

Definition no_nul (s : list Z) : Prop := Forall (fun b => b <> 0) s.

(** A cache of this size with this text. *)
Definition filled (locked : bool) (size : Z) (text : list Z) : metrics_cache := Cache 0 locked (text ++ zeroed (size - len text)).

Lemma filled_size (locked : bool) (size : Z) (text : list Z) : len text <= size -> pc_size (filled locked size text) = size.
Proof. intros H. unfold pc_size, filled. cbn [pc_data]. rewrite len_app, len_zeroed. lia. Qed.

Lemma filled_strlen (locked : bool) (size : Z) (text : list Z) :
  no_nul text -> len text < size -> cache_strlen (filled locked size text) = Some (length text).
Proof.
  intros Hn Hl. unfold cache_strlen, filled. cbn [pc_data].
  replace (zeroed (size - len text)) with (0 :: zeroed (size - len text - 1)).
  - rewrite existsb_app. cbn [existsb]. change (0 =? 0) with true. rewrite orb_true_r. rewrite upto_nul_app by done.
    cbn. by rewrite app_nil_r.
  - change (0 :: zeroed (size - len text - 1)) with (zeroed 1 ++ zeroed (size - len text - 1)). rewrite <- zeroed_app by lia. f_equal. lia.
Qed.

Lemma invalidate_filled (c : metrics_cache) : metrics_cache_invalidate c = filled (pc_locked c) (pc_size c) [].
Proof. unfold metrics_cache_invalidate, filled. cbn [app]. change (len []) with 0. by rewrite Z.sub_0_r. Qed.

Section cache_facts.
Context (port max_age : Z) (Hconf : is_metrics_cache_configured port max_age = true).

(** What an append makes of it: a text that does not fit empties the cache, and one that fits exactly with its final
    zero is an access behind the end. *)
Lemma append_filled (locked : bool) (size : Z) (text x : list Z) :
  no_nul text -> len text < size ->
  metrics_cache_append port max_age x (filled locked size text) =
    if size <=? len text + len x then Some (false, filled locked size [])
    else if len text + len x + 1 =? size then None
    else Some (true, filled locked size (text ++ x)).
Proof.
  intros Hn Hl. unfold metrics_cache_append. rewrite Hconf. cbn [negb]. rewrite filled_strlen by done. cbn [mbind option_bind].
  rewrite filled_size by lia. fold (len text). destruct (Z.leb_spec size (len text + len x)) as [Hov|Hfit].
  { rewrite invalidate_filled, filled_size by lia. done. }
  pose proof (len_nonneg x). pose proof (len_nonneg text).
  assert (E1 : store (pc_data (filled locked size text)) (len text) x = Some (text ++ x ++ zeroed (size - len text - len x))).
  { unfold filled. cbn [pc_data]. replace (size - len text) with (len x + (size - len text - len x)) at 1 by lia. rewrite zeroed_app by lia.
    apply store_app; [done|]. unfold zeroed, len. rewrite length_replicate. lia. }
  rewrite E1. cbn [mbind option_bind]. destruct (Z.eqb_spec (len text + len x + 1) size) as [He|Hne].
  - unfold store. rewrite !length_app. unfold zeroed. rewrite length_replicate. cbn [length].
    rewrite (proj2 (Z.leb_gt (_ + Z.of_nat 1) _)) by (unfold len in *; lia). by rewrite andb_false_r.
  - replace (zeroed (size - len text - len x)) with (zeroed 1 ++ zeroed 1 ++ zeroed (size - len text - len x - 2)).
    + rewrite !app_assoc, <- (app_assoc ((text ++ x) ++ zeroed 1)). rewrite store_app; [|rewrite !len_app, len_zeroed; lia|done].
      cbn [mbind option_bind]. unfold filled. do 3 f_equal. rewrite <- !app_assoc. f_equal. f_equal. change [0] with (zeroed 1).
      rewrite <- !zeroed_app by lia. f_equal. rewrite len_app. lia.
    + rewrite <- !zeroed_app by lia. f_equal. lia.
Qed.

(** The texts that are left in a cache of this size after these were appended; [None] when one was stored behind the end. *)
Fixpoint kept (size : Z) (text : list Z) (xs : list (list Z)) : option (list Z) :=
  match xs with
  | [] => Some text
  | x :: xs =>
      if size <=? len text + len x then kept size [] xs
      else if len text + len x + 1 =? size then None
      else kept size (text ++ x) xs
  end.

Lemma kept_spec (size : Z) (xs : list (list Z)) (text text' : list Z) :
  0 < size -> Forall no_nul xs -> no_nul text -> len text < size -> kept size text xs = Some text' -> no_nul text' /\ len text' < size.
Proof.
  intros Hs Hx. revert text. induction Hx as [|x xs Hx _ IH]; intros text Ht Hl H; [by injection H as <-|]. cbn [kept] in H.
  destruct (Z.leb_spec size (len text + len x)); [apply (IH [] ltac:(constructor)); [change (len []) with 0; lia|done]|].
  destruct (len text + len x + 1 =? size); [done|]. apply (IH (text ++ x)); [by apply Forall_app|rewrite len_app; lia|done].
Qed.

Lemma output_values_kept (locked : bool) (size : Z) (values : list string) (text : list Z) :
  0 < size -> Forall (fun v => no_nul (str v)) values -> no_nul text -> len text < size ->
  output_values port max_age values (filled locked size text) =
    (text' ← kept size text (map str values); Some (map chunk values, filled locked size text')).
Proof.
  intros Hs Hv. revert text. induction Hv as [|x values Hx _ IH]; intros text Ht Hl; [done|]. cbn [output_values map kept].
  rewrite append_filled by done. destruct (size <=? len text + len (str x)) eqn:Ele.
  - cbn [mbind option_bind snd]. rewrite (IH [] ltac:(constructor)) by (change (len []) with 0; lia).
    by destruct (kept size [] (map str values)).
  - destruct (len text + len (str x) + 1 =? size); [done|]. cbn [mbind option_bind snd]. apply Z.leb_gt in Ele.
    rewrite IH; [|by apply Forall_app|rewrite len_app; lia]. by destruct (kept size (text ++ str x) (map str values)).
Qed.
End cache_facts.

(** ** Chunks *)

(** How a client reads a body in chunks: the length in hexadecimal digits, the bytes, until the length is 0. *)
Definition hex_value (b : Z) : option N :=
  if (48 <=? b) && (b <=? 57) then Some (Z.to_N (b - 48)) else if (65 <=? b) && (b <=? 70) then Some (Z.to_N (b - 55)) else None.

Fixpoint read_hex (bs : list Z) (acc : N) : option (N * list Z) :=
  match bs with
  | [] => None
  | b :: bs =>
      match hex_value b with
      | Some v => read_hex bs (16 * acc + v)%N
      | None => match bs with c :: rest => if (b =? 13) && (c =? 10) then Some (acc, rest) else None | [] => None end
      end
  end.

Fixpoint dechunk (fuel : nat) (bs : list Z) : option (list Z) :=
  match fuel with
  | O => None
  | S fuel =>
      '(n, rest) ← read_hex bs 0%N;
      if (n =? 0)%N then (if bool_decide (rest = str crlf) then Some [] else None)
      else if bool_decide (take 2 (drop (N.to_nat n) rest) = str crlf) then
        l ← dechunk fuel (drop (N.to_nat n + 2) rest); Some (take (N.to_nat n) rest ++ l)
      else None
  end.

Lemma str_app (a b : string) : str (a +:+ b) = str a ++ str b.
Proof. induction a as [|c a IH]; [done|]. change (Z.of_nat (nat_of_ascii c) :: str (a +:+ b) = (Z.of_nat (nat_of_ascii c) :: str a) ++ str b). by rewrite IH. Qed.

Lemma length_str (s : string) : length (str s) = String.length s.
Proof. induction s as [|c s IH]; [done|]. change (length (str (String c s))) with (S (length (str s))). cbn [String.length]. by rewrite IH. Qed.

Lemma hex_digit_value (d : N) : (d < 16)%N -> hex_value (Z.of_nat (nat_of_ascii (hex_upper d))) = Some d.
Proof.
  intros Hd. assert (H : Forall (fun d => hex_value (Z.of_nat (nat_of_ascii (hex_upper d))) = Some d) (map N.of_nat (seq 0 16))) by (repeat constructor).
  rewrite Forall_forall in H. apply H. apply list_elem_of_fmap. exists (N.to_nat d). split; [lia|]. apply elem_of_seq. lia.
Qed.

Lemma read_hex_digit (d : N) (s : string) (t : list Z) (a : N) :
  (d < 16)%N -> read_hex (str (String (hex_upper d) s) ++ t) a = read_hex (str s ++ t) (16 * a + d)%N.
Proof. intros Hd. change (str (String (hex_upper d) s)) with (Z.of_nat (nat_of_ascii (hex_upper d)) :: str s). cbn [app read_hex]. by rewrite hex_digit_value. Qed.

Lemma read_hex_go (fuel : nat) (n : N) (s : string) :
  (n < 16 ^ N.of_nat (S fuel))%N -> exists k, forall t a, read_hex (str (hex_go fuel n s) ++ t) a = read_hex (str s ++ t) (16 ^ k * a + n)%N.
Proof.
  revert n s. induction fuel as [|fuel IH]; intros n s Hn; cbn [hex_go].
  - exists 1%N. intros t a. assert (n < 16)%N by (change (16 ^ N.of_nat 1)%N with 16%N in Hn; lia).
    rewrite read_hex_digit by (apply N.mod_lt; lia). rewrite N.mod_small by lia. f_equal; lia.
  - destruct (N.ltb_spec n 16) as [Hs|Hb].
    + exists 1%N. intros t a. rewrite read_hex_digit by (apply N.mod_lt; lia). rewrite N.mod_small by lia. f_equal; lia.
    + destruct (IH (n / 16)%N (String (hex_upper (n mod 16)) s)) as [k Hk].
      { apply N.Div0.div_lt_upper_bound. rewrite Nat2N.inj_succ, N.pow_succ_r' in Hn. exact Hn. }
      exists (N.succ k). intros t a. rewrite Hk, read_hex_digit by (apply N.mod_lt; lia). f_equal.
      rewrite N.pow_succ_r'. pose proof (N.div_mod n 16 ltac:(lia)). nia.
Qed.

Lemma read_hex_hex (n : N) (t : list Z) : read_hex (str (hex n) ++ str crlf ++ t) 0 = Some (n, t).
Proof.
  unfold hex. destruct (read_hex_go (N.to_nat (N.log2 n)) n "") as [k Hk].
  { rewrite Nat2N.inj_succ, N2Nat.id. destruct (decide (n = 0%N)) as [->|Hn]; [done|].
    destruct (N.log2_spec n ltac:(lia)) as [_ H]. eapply N.lt_le_trans; [exact H|]. apply N.pow_le_mono_l. lia. }
  rewrite Hk. cbn. rewrite N.mul_0_r. done.
Qed.

Lemma dechunk_chunks (values : list string) :
  Forall (fun v => v <> "") values ->
  dechunk (S (length values)) (concat (map chunk values) ++ str ("0" +:+ crlf +:+ crlf)) = Some (concat (map str values)).
Proof.
  induction 1 as [|v values Hv _ IH]; [done|]. set (end_ := str ("0" +:+ crlf +:+ crlf)) in *.
  cbn [length map concat]. set (rest := concat (map chunk values) ++ end_) in *.
  assert (E : (chunk v ++ concat (map chunk values)) ++ end_ = str (hex (N.of_nat (String.length v))) ++ str crlf ++ str v ++ str crlf ++ rest).
  { unfold chunk, rest. rewrite !str_app, <- !app_assoc. done. }
  rewrite E. clear E. change (dechunk (S (S (length values))) ?x) with
    ('(n, rest) ← read_hex x 0%N;
      if (n =? 0)%N then (if bool_decide (rest = str crlf) then Some [] else None)
      else if bool_decide (take 2 (drop (N.to_nat n) rest) = str crlf) then
        l ← dechunk (S (length values)) (drop (N.to_nat n + 2) rest); Some (take (N.to_nat n) rest ++ l)
      else None).
  rewrite read_hex_hex. cbn [mbind option_bind]. rewrite Nat2N.id, <- length_str.
  rewrite (proj2 (N.eqb_neq _ _)).
  - rewrite drop_app_length, take_app_length. rewrite (take_app_length' (str crlf) rest 2) by done. rewrite bool_decide_true by done.
    rewrite <- drop_drop, drop_app_length, (drop_app_length' (str crlf) rest 2) by done. rewrite IH. done.
  - rewrite length_str. destruct v; [done|]. simpl. lia.
Qed.

(** ** The containers *)

Lemma container_tree_fold (es : list (string * string)) (t : art string) (m : gmap (list Z) string) :
  denotes t m -> NoDup (map (fun e => c_key e.1) es) -> (forall e, e ∈ es -> m !! c_key e.1 = None) ->
  exists t' m', foldl (fun t e => t ← t; r ← tree_insert t (c_key e.1) e.2; Some r.1) (Some t) es = Some t' /\ denotes t' m' /\
    map_to_list m' ≡ₚ map_to_list m ++ map (fun e => (c_key e.1, e.2)) es.
Proof.
  revert t m. induction es as [|e es IH]; intros t m Ht Hn Hm; [exists t, m; by rewrite app_nil_r|].
  cbn [foldl map]. destruct (tree_insert_refines t m (c_key e.1) e.2 Ht (c_key_ok _)) as (t1 & E & Ht1). cbn [mbind option_bind]. rewrite E. cbn [mbind option_bind fst].
  cbn [map] in Hn. apply NoDup_cons in Hn as [Hni Hn].
  destruct (IH t1 _ Ht1 Hn) as (t' & m' & E' & Ht' & P).
  { intros e' He'. rewrite lookup_insert_ne; [apply Hm; set_solver|]. intros Ek. apply Hni. rewrite Ek. apply list_elem_of_fmap. by exists e'. }
  exists t', m'. split; [done|]. split; [done|]. rewrite P, map_to_list_insert by (apply Hm; set_solver). cbn [app]. by rewrite Permutation_middle.
Qed.

(** The texts of a container whose keys differ come out once each. *)
Lemma container_values_perm (es : list (string * string)) :
  NoDup (map (fun e => c_key e.1) es) -> Z.of_nat (length es) < 2 ^ 32 -> exists vs, container_values es = Some vs /\ vs ≡ₚ es.*2.
Proof.
  intros Hn Hl. destruct (container_tree_fold es art_create ∅ create_denotes Hn) as (t & m & E & Ht & P); [intros; apply lookup_empty|].
  rewrite map_to_list_empty in P. cbn [app] in P.
  assert (Hs : size m = length es) by (rewrite <- length_map_to_list, P, length_map; done).
  destruct (art_iterator_complete t m Ht ltac:(lia)) as (l & El & Pl). rewrite Hs in El.
  exists l.*2. unfold container_values, container_tree. rewrite E. cbn [mbind option_bind]. rewrite El. cbn [mbind option_bind]. split; [done|].
  rewrite Pl, P. change (map (fun e => (c_key e.1, e.2)) es) with ((fun e : string * string => (c_key e.1, e.2)) <$> es). rewrite <- list_fmap_compose. done.
Qed.

Definition container_ok (es : list (string * string)) : Prop := NoDup (map (fun e => c_key e.1) es) /\ Z.of_nat (length es) < 2 ^ 32.

Lemma containers_perm (ess : list (list (string * string))) :
  Forall container_ok ess -> exists ls, mapM container_values ess = Some ls /\ concat ls ≡ₚ (concat ess).*2.
Proof.
  induction 1 as [|es ess [Hn Hl] _ (ls & E & P)]; [by exists []|]. destruct (container_values_perm es Hn Hl) as (vs & E1 & P1).
  exists (vs :: ls). cbn [mapM]. rewrite E1. cbn [mbind option_bind]. rewrite E. split; [done|]. cbn [concat]. by rewrite fmap_app, P1, P.
Qed.

Ltac distinct_keys := split; [apply (bool_decide_unpack _); exact I|apply Z.ltb_lt; reflexivity].

Lemma containers_ok (v : view) (certificates : list (string * string)) :
  container_ok certificates -> Forall container_ok (metrics_containers v certificates).
Proof.
  intros Hc. unfold metrics_containers.
  assert (container_ok (general_information v)) by distinct_keys.
  assert (container_ok (connection_information v)) by distinct_keys.
  assert (container_ok (session_information v)) by (unfold session_information; destruct (session_samples _ _ _ _); distinct_keys).
  assert (container_ok (pool_information v)) by distinct_keys.
  assert (container_ok (auth_information v)) by distinct_keys.
  assert (container_ok (client_information v)) by distinct_keys.
  assert (container_ok (internal_information v)) by distinct_keys.
  assert (container_ok (limit_information v)) by (unfold limit_information; destruct (v_limits v); distinct_keys).
  assert (container_ok (connection_awaiting_information v)) by (unfold connection_awaiting_information; destruct (v_limits v); distinct_keys).
  assert (container_ok (write_os_kernel_version v)) by (unfold write_os_kernel_version; destruct (v_os v) as [[[[? ?] ?] ?]|]; (split; [first [apply NoDup_nil_2|apply NoDup_singleton]|cbn [length]; lia])).
  repeat (apply Forall_cons; split); try assumption. by apply Forall_nil.
Qed.

Lemma metrics_values_perm (v : view) (certificates : list (string * string)) :
  container_ok certificates -> exists vs, metrics_values v certificates = Some vs /\ vs ≡ₚ (concat (metrics_containers v certificates)).*2.
Proof.
  intros Hc. destruct (containers_perm _ (containers_ok v _ Hc)) as (ls & E & P). exists (concat ls). unfold metrics_values. rewrite E. split; [reflexivity|exact P].
Qed.

(** ** The page *)

Section pages.
Context (port max_age max_size : Z) (date : string).

(** What the cache is after a page was built at that time: the texts that fitted, valid for its age; [None] when a zero was stored
    behind its end. *)
Definition cache_after (later : Z) (values : list string) (c : metrics_cache) : option metrics_cache :=
  if is_metrics_cache_configured port max_age then
    text ← kept (pc_size c) [] (str (metrics_head date) :: map str values);
    Some (Cache (later + max_age) (pc_locked c) (text ++ zeroed (pc_size c - len text)))
  else Some (metrics_cache_invalidate c).

Definition page_head : list Z := str (metrics_head date +:+ "Transfer-Encoding: chunked" +:+ crlf +:+ crlf).
Definition page_end : list Z := str ("0" +:+ crlf +:+ crlf).

Lemma no_cache_values (values : list string) (c : metrics_cache) :
  is_metrics_cache_configured port max_age = false -> output_values port max_age values c = Some (map chunk values, c).
Proof.
  intros Hc. induction values as [|x values IH]; [done|]. cbn [output_values map]. unfold metrics_cache_append. rewrite Hc.
  cbn [negb mbind option_bind snd]. by rewrite IH.
Qed.

Lemma build_page_exact (later : Z) (values : list string) (c : metrics_cache) :
  no_nul (str date) -> Forall (fun v => no_nul (str v)) values -> (is_metrics_cache_configured port max_age = true -> 0 < pc_size c) ->
  build_page port max_age date later true values c =
    (c' ← cache_after later values c; Some (page_head :: map chunk values, Some page_end, c')).
Proof.
  intros Hd Hv Hs. unfold build_page, cache_after, metrics_cache_finalize. cbn [negb]. fold page_head page_end.
  destruct (is_metrics_cache_configured port max_age) eqn:Hc.
  - assert (Hh : no_nul (str (metrics_head date))).
    { unfold metrics_head. rewrite !str_app. repeat (apply Forall_app; split); try done; repeat constructor; done. }
    specialize (Hs eq_refl). rewrite invalidate_filled.
    assert (E := output_values_kept port max_age Hc (pc_locked c) (pc_size c)).
    rewrite (append_filled port max_age Hc) by (done || constructor). change (len []) with 0. cbn [kept app]. change (len []) with 0. rewrite Z.add_0_l.
    destruct (Z.leb_spec (pc_size c) (len (str (metrics_head date)))) as [Hov|Hfit]; [|destruct (Z.eqb_spec (len (str (metrics_head date)) + 1) (pc_size c)); [done|]];
      cbn [mbind option_bind snd]; (rewrite E; [|done|done|first [exact Hh|exact (List.Forall_nil _)]|try (change (len []) with 0); lia]);
      (destruct (kept _ _ _) as [text|]; [|done]); cbn [mbind option_bind snd negb filled pc_locked pc_data]; done.
  - unfold metrics_cache_append. rewrite Hc. cbn [negb mbind option_bind snd]. rewrite no_cache_values by done. done.
Qed.

Lemma miss_builds (now later : Z) (values : list string) (c : metrics_cache) :
  no_nul (str date) -> Forall (fun v => no_nul (str v)) values -> (is_metrics_cache_configured port max_age = true -> 0 < pc_size c) ->
  (is_metrics_cache_configured port max_age = true -> is_metrics_cache_valid now c = Some false) ->
  metrics_page port max_age date now later true values c =
    (c' ← cache_after later values c; Some (Page (page_head :: map chunk values ++ [page_end]) c')).
Proof.
  intros Hd Hv Hs Hm. unfold metrics_page. rewrite build_page_exact by done.
  assert (E : (if is_metrics_cache_configured port max_age then is_metrics_cache_valid now c else Some false) = Some false)
    by (destruct (is_metrics_cache_configured port max_age); [by apply Hm|done]).
  rewrite E. cbn [mbind option_bind]. by destruct (cache_after later values c).
Qed.

(** A cache that was filled answers with its text until its time is over. *)
Lemma hit_answers (now later until : Z) (locked head_ok : bool) (values : list string) (size : Z) (text : list Z) :
  is_metrics_cache_configured port max_age = true -> no_nul text -> text <> [] -> len text < size -> until <> 0 -> now <= until ->
  let c := Cache until locked (text ++ zeroed (size - len text)) in
  metrics_page port max_age date now later head_ok values c = Some (Page [text] c).
Proof.
  intros Hc Hn Hne Hl Hu Hnow c. unfold metrics_page. rewrite Hc. unfold is_metrics_cache_valid. cbn [pc_valid_until c].
  rewrite (proj2 (Z.eqb_neq _ _)) by done.
  assert (E := filled_strlen locked size text Hn Hl). unfold cache_strlen, filled in E. cbn [pc_data] in E.
  unfold cache_strlen. cbn [pc_data c]. rewrite E. cbn [mbind option_bind]. destruct text as [|b text]; [done|]. cbn [length Nat.eqb].
  rewrite (proj2 (Z.leb_le _ _)) by done. unfold c. cbn [pc_data]. rewrite upto_nul_app by done.
  replace (upto_nul (zeroed (size - len (b :: text)))) with (@nil Z); [by rewrite app_nil_r|].
  unfold zeroed. by destruct (Z.to_nat _).
Qed.
End pages.

(** Without an overflow the cache keeps everything. *)
Lemma kept_whole (size : Z) (xs : list (list Z)) (text : list Z) :
  len text + len (concat xs) + 1 < size -> kept size text xs = Some (text ++ concat xs).
Proof.
  revert text. induction xs as [|x xs IH]; intros text H; cbn [kept concat]; [by rewrite app_nil_r|].
  cbn [concat] in H. rewrite len_app in H. pose proof (len_nonneg (concat xs)).
  rewrite (proj2 (Z.leb_gt _ _)) by lia. rewrite (proj2 (Z.eqb_neq _ _)) by lia. rewrite IH by (rewrite len_app; lia). by rewrite app_assoc.
Qed.

(** After an overflow it keeps what comes behind the text that did not fit. *)
Lemma kept_tail (size : Z) (xs ys : list (list Z)) (y : list Z) :
  len (concat xs) + 1 < size -> size <= len (concat xs) + len y -> len (concat ys) + 1 < size -> kept size [] (xs ++ y :: ys) = Some (concat ys).
Proof.
  intros Hx Hy Hys. assert (E : forall text xs, len text + len (concat xs) + 1 < size -> kept size text (xs ++ y :: ys) = kept size (text ++ concat xs) (y :: ys)).
  { clear. intros text xs. revert text. induction xs as [|x xs IH]; intros text H; cbn [app concat]; [by rewrite app_nil_r|].
    cbn [kept concat] in *. rewrite len_app in H. pose proof (len_nonneg (concat xs)).
    rewrite (proj2 (Z.leb_gt size (len text + len x))) by lia. rewrite (proj2 (Z.eqb_neq (len text + len x + 1) size)) by lia.
    rewrite IH by (rewrite len_app; lia). by rewrite app_assoc. }
  rewrite E by (change (len []) with 0; lia). cbn [kept app]. rewrite (proj2 (Z.leb_le _ _)) by lia. rewrite kept_whole by (change (len []) with 0; lia). done.
Qed.

(** The bytes behind the first empty line of an answer. *)
Fixpoint http_body (bs : list Z) : option (list Z) :=
  match bs with
  | [] => None
  | b :: rest => if bool_decide (take 4 bs = [13; 10; 13; 10]) then Some (drop 3 rest) else http_body rest
  end.

Lemma http_body_skip (bs : list Z) (rest : list Z) : Forall (fun b => b <> 13) bs -> http_body (bs ++ rest) = http_body rest.
Proof. induction 1 as [|b bs Hb _ IH]; [done|]. cbn [app http_body]. rewrite bool_decide_false; [done|]. by intros [= ? _]. Qed.

Lemma http_body_line (rest : list Z) : (forall r, rest <> 13 :: r) -> http_body (str crlf ++ rest) = http_body rest.
Proof.
  intros H. change (str crlf) with [13; 10]. cbn [app]. cbn [http_body].
  rewrite bool_decide_false; [|destruct rest as [|b rest]; [done|]; cbn [take]; intros [= E]; subst; by apply (H rest)].
  by rewrite bool_decide_false.
Qed.

Definition no_cr (s : list Z) : Prop := Forall (fun b => b <> 13) s.

Lemma http_body_head (date : string) (rest : list Z) :
  no_cr (str date) -> http_body (str (metrics_head date) ++ rest) = http_body (str crlf ++ rest).
Proof.
  intros Hd. unfold metrics_head. rewrite !str_app, <- !app_assoc.
  rewrite http_body_skip by (repeat constructor; done). rewrite http_body_line by done.
  rewrite http_body_skip by (repeat constructor; done). rewrite http_body_line by done.
  rewrite http_body_skip by (repeat constructor; done). by rewrite http_body_skip.
Qed.

Lemma http_body_page (date : string) (rest : list Z) : no_cr (str date) -> http_body (page_head date ++ rest) = Some rest.
Proof.
  intros Hd. unfold page_head. rewrite !str_app, <- !app_assoc. rewrite http_body_head by done. rewrite http_body_line by done.
  rewrite http_body_skip by (repeat constructor; done). done.
Qed.

Lemma texts_not_empty (v : view) (certificates : list (string * string)) :
  Forall (fun e => e.2 <> "") certificates -> Forall (fun e => e.2 <> "") (concat (metrics_containers v certificates)).
Proof.
  intros Hc. unfold metrics_containers, limit_information, session_information, connection_awaiting_information, write_os_kernel_version.
  destruct (session_samples _ _ _ _) as [ss total]. rewrite Forall_concat.
  repeat (apply Forall_cons; split); try done; try apply Forall_nil; try destruct (v_limits v); try destruct (v_os v) as [[[[? ?] ?] ?]|];
    repeat (apply Forall_cons; split); try apply Forall_nil; try discriminate; exact I.
Qed.

Lemma alloc_positive (port max_age max_size : Z) : is_metrics_cache_configured port max_age = true -> 0 < metrics_cache_size_to_alloc port max_age max_size.
Proof.
  intros H. unfold metrics_cache_size_to_alloc. rewrite H. unfold PROMETHEUS_MAX_CACHE_SIZE, PROMETHEUS_DEFAULT_CACHE_SIZE.
  destruct (Z.ltb_spec 0 max_size); lia.
Qed.

(** C31: A page that is built has the text of every metric of every container exactly once: what is sent is a header, an empty line
    and chunks from which a client reads these texts; and the cache is left with those that fitted, whatever was in it. *)
Theorem metrics_answer (port max_age max_size now later : Z) (date : string) (v : view) (certificates : list (string * string)) (c : metrics_cache)
  (Hsize : pc_size c = metrics_cache_size_to_alloc port max_age max_size)
  (Hmiss : is_metrics_cache_configured port max_age = true -> is_metrics_cache_valid now c = Some false)
  (Hcert : container_ok certificates /\ Forall (fun e => e.2 <> "") certificates)
  (Hdate : no_nul (str date) /\ no_cr (str date))
  (Htexts : Forall (fun e => no_nul (str e.2)) (concat (metrics_containers v certificates))) :
  exists values, metrics_values v certificates = Some values /\ values ≡ₚ (concat (metrics_containers v certificates)).*2 /\
    metrics_page port max_age date now later true values c =
      (c' ← cache_after port max_age date later values c; Some (Page (page_head date :: map chunk values ++ [page_end]) c')) /\
    (body ← http_body (concat (page_head date :: map chunk values ++ [page_end])); dechunk (S (length values)) body) = Some (concat (map str values)).
Proof.
  destruct Hcert as [Hok Hne], Hdate as [Hd Hcr]. destruct (metrics_values_perm v certificates Hok) as (values & E & P).
  exists values. split; [done|]. split; [done|]. pose proof (texts_not_empty v certificates Hne) as Hne'. split.
  - apply miss_builds; [done| |intros Hc; rewrite Hsize; by apply alloc_positive|done]. rewrite P. by apply Forall_fmap.
  - cbn [concat]. rewrite http_body_page by done. cbn [mbind option_bind]. rewrite concat_app. cbn [concat]. rewrite app_nil_r.
    apply dechunk_chunks. rewrite P. by apply Forall_fmap.
Qed.

(** C33: While the cache is valid, a request is answered with what the last page left in it, and with nothing else; but as the empty line behind
    the header was not put there, a client finds no body in a page that was kept as a whole. *)
Theorem cached_answer (port max_age now now' later later' : Z) (date date' : string) (values values' : list string) (head_ok : bool) (c : metrics_cache)
  (Hconf : is_metrics_cache_configured port max_age = true)
  (Hmiss : is_metrics_cache_valid now c = Some false)
  (Hdate : no_nul (str date) /\ no_cr (str date))
  (Htexts : Forall (fun v => no_nul (str v) /\ no_cr (str v)) values)
  (Hfits : len (str (metrics_head date)) + len (concat (map str values)) + 1 < pc_size c)
  (Hnow : 0 <= later /\ now' <= later + max_age) :
  exists p, metrics_page port max_age date now later true values c = Some p /\
    metrics_page port max_age date' now' later' head_ok values' (pg_cache p) =
      Some (Page [str (metrics_head date) ++ concat (map str values)] (pg_cache p)) /\
    http_body (str (metrics_head date) ++ concat (map str values)) = None.
Proof.
  destruct Hdate as [Hd Hcr]. pose proof (len_nonneg (str (metrics_head date))) as H0. pose proof (len_nonneg (concat (map str values))) as H1.
  assert (Hv : Forall (fun v => no_nul (str v)) values) by (eapply Forall_impl; [exact Htexts|]; by intros v (? & _)).
  assert (Hr : no_cr (concat (map str values))).
  { apply Forall_concat, Forall_fmap. eapply Forall_impl; [exact Htexts|]. by intros v (_ & ?). }
  rewrite (miss_builds port max_age date now later values c) by (done || lia). unfold cache_after. rewrite Hconf.
  rewrite kept_whole by (cbn [concat]; rewrite len_app; change (len []) with 0; lia). cbn [mbind option_bind concat app pg_cache].
  eexists. split; [reflexivity|]. split.
  - cbn [pg_cache]. apply hit_answers; [done| | | |unfold is_metrics_cache_configured, time_is_valid in Hconf; destruct (port =? 0); [done|]; apply Z.ltb_lt in Hconf; lia|lia].
    + apply Forall_app; split; [|apply Forall_concat, Forall_fmap; eapply Forall_impl; [exact Htexts|]; by intros v (? & _)].
      unfold metrics_head. rewrite !str_app. repeat (apply Forall_app; split); try done; repeat constructor; done.
    + intros Hnil. by apply app_nil in Hnil as [? _].
    + rewrite len_app. lia.
  - rewrite http_body_head by done. rewrite http_body_line.
    + rewrite <- (app_nil_r (concat (map str values))). by rewrite http_body_skip.
    + intros r E. rewrite E in Hr. by apply Forall_cons_1 in Hr as [? _].
Qed.

(** A page that overflows is kept from the text behind the one that did not fit on, and answered so: the header is lost. *)
Lemma cached_tail (port max_age now now' later later' : Z) (date date' : string) (pre post values' : list string) (v : string) (head_ok : bool) (c : metrics_cache) :
  is_metrics_cache_configured port max_age = true -> is_metrics_cache_valid now c = Some false -> no_nul (str date) ->
  Forall (fun v => no_nul (str v)) (pre ++ v :: post) -> concat (map str post) <> [] ->
  len (str (metrics_head date)) + len (concat (map str pre)) + 1 < pc_size c ->
  pc_size c <= len (str (metrics_head date)) + len (concat (map str pre)) + len (str v) ->
  len (concat (map str post)) + 1 < pc_size c -> 0 <= later -> now' <= later + max_age ->
  exists p, metrics_page port max_age date now later true (pre ++ v :: post) c = Some p /\
    metrics_page port max_age date' now' later' head_ok values' (pg_cache p) = Some (Page [concat (map str post)] (pg_cache p)).
Proof.
  intros Hconf Hmiss Hd Hv Hne H1 H2 H3 Hl Hn. pose proof (len_nonneg (concat (map str post))).
  rewrite (miss_builds port max_age date now later (pre ++ v :: post) c) by (done || lia). unfold cache_after. rewrite Hconf, !map_app. cbn [map].
  assert (E := kept_tail (pc_size c) (str (metrics_head date) :: map str pre) (map str post) (str v)). cbn [concat app] in E. rewrite len_app in E.
  rewrite E by lia. cbn [mbind option_bind pg_cache]. eexists. split; [reflexivity|]. cbn [pg_cache].
  apply hit_answers; [done| |done|lia|unfold is_metrics_cache_configured, time_is_valid in Hconf; destruct (port =? 0); [done|]; apply Z.ltb_lt in Hconf; lia|lia].
  apply Forall_app in Hv as [_ Hv]. apply Forall_cons in Hv as [_ Hv]. by apply Forall_concat, Forall_fmap.
Qed.

(** A reload may turn the cache on, but has no room for it: the first append looks for the end of a text that is not there. *)
Lemma reloaded_cache_undefined (port old_age max_age max_size now later : Z) (date : string) (values : list string) :
  is_metrics_cache_configured port old_age = false -> is_metrics_cache_configured port max_age = true ->
  metrics_page port max_age date now later true values (init_prometheus_cache port old_age max_size) = None.
Proof.
  intros Ho Hc. unfold init_prometheus_cache, metrics_cache_size_to_alloc. rewrite Ho. unfold metrics_page. rewrite Hc. cbn [is_metrics_cache_valid].
  unfold is_metrics_cache_valid. cbn. unfold build_page, metrics_cache_append. rewrite Hc. done.
Qed.

(** ** Examples *)

Definition example_connection : connection := set_c_appname "psql" new_connection.

Definition example_view : view :=
  View false 1 0 [] [(STATE_FREE, example_connection)] [] None (fetch_add P_query_count 7 init_prometheus).

Lemma gauge_exact_witness : exists p : counters, p P_connections_awaiting_total = 1.
Proof.
  eexists. apply (gauge_exact 2 _ [W_out; W_in]); [done|].
  eapply rtc_l; [by apply (wait_enters _ _ 0)|]. eapply rtc_l; [by apply (wait_enters _ _ 1)|]. eapply rtc_l; [by apply (wait_loads _ _ 0)|].
  eapply rtc_l; [by apply (wait_leaves _ _ 0 2)|]. apply rtc_refl.
Defined.

Lemma histogram_exact_witness :
  (session_samples (after_sessions 2346 [7; 3; 90000]) (map pretty session_bounds ++ ["+Inf"]) 0 0).2 = 3.
Proof. rewrite (histogram_exact 2346 [7; 3; 90000]) by done. done. Defined.

Lemma metrics_answer_witness :
  exists values, metrics_values example_view [] = Some values /\
    (body ← http_body (concat (page_head "Thu Jan  1 00:00:00 1970" :: map chunk values ++ [page_end])); dechunk (S (length values)) body) =
      Some (concat (map str values)).
Proof.
  destruct (metrics_answer 2346 60 0 100 101 "Thu Jan  1 00:00:00 1970" example_view [] (init_prometheus_cache 2346 60 0)) as (values & E & _ & _ & H).
  - unfold pc_size, init_prometheus_cache. cbn [pc_data]. apply len_zeroed.
  - done.
  - split; [split; [constructor|done]|constructor].
  - split; apply (bool_decide_unpack _); vm_compute; exact I.
  - apply (bool_decide_unpack _). vm_compute. exact I.
  - exists values. split; [exact E|exact H].
Defined.

Lemma cached_answer_witness :
  exists p, metrics_page 2346 60 "Thu" 100 101 true ["pgagroal_state 1"] (init_prometheus_cache 2346 60 200) = Some p /\
    http_body (str (metrics_head "Thu") ++ concat (map str ["pgagroal_state 1"])) = None.
Proof.
  destruct (cached_answer 2346 60 100 110 101 111 "Thu" "Fri" ["pgagroal_state 1"] ["pgagroal_state 2"] true (init_prometheus_cache 2346 60 200))
    as (p & E & _ & H); try done.
  - split; apply (bool_decide_unpack _); vm_compute; exact I.
  - apply (bool_decide_unpack _). vm_compute. exact I.
  - exists p. split; [exact E|exact H].
Defined.
