(* ===== verification/PoolFacts.v ===== *)
(** * Theorems about the rules, the back-off and the life of a slot *)

From S2P Require Import Prelude Config Effects Server Pool.

Local Open Scope Z_scope.
Local Open Scope prog_scope.

(** ** The back-off *)

Definition clamp_cap (cap_ms : Z) : Z :=
  Z.min (Z.max cap_ms MIN_CONNECTION_RETRY_DELAY) MAX_CONNECTION_RETRY_DELAY.

(** The delay before retry [n], as [pgagroal_get_connection] iterates it. *)
Definition delay_sequence (cap_ms : Z) (n : nat) : Z :=
  Nat.iter n (fun d => next_retry_delay d cap_ms) 0.

Lemma next_retry_delay_eq (d cap_ms : Z) :
  d <= 2 ^ 60 ->
  next_retry_delay d cap_ms =
    Z.min (if d <=? 0 then 1000000 else 2 * d) (clamp_cap cap_ms * 1000000).
Proof.
  intros Hd. unfold next_retry_delay, clamp_cap, MIN_CONNECTION_RETRY_DELAY, MAX_CONNECTION_RETRY_DELAY.
  set (c := if cap_ms <? 1 then 1 else if 999 <? cap_ms then 999 else cap_ms).
  replace (Z.min (Z.max cap_ms 1) 999) with c by (subst c; repeat case_if; bool_prop; lia).
  assert (1 <= c <= 999) by (subst c; repeat case_if; bool_prop; lia).
  rewrite (wraps_id 64 (c * 1000000)) by (unfold in_i; lia).
  destruct (d <=? 0) eqn:E; bool_prop.
  - case_if; bool_prop; lia.
  - rewrite (wraps_id 64 (d * 2)) by (unfold in_i; lia). case_if; bool_prop; lia.
Qed.

(** The delays of consecutive blocking retries are 1ms, 2ms, 4ms, ... cut off
    at the configured cap (itself clamped to 1..999 ms), computed without
    overflow of [long]. *)
Theorem delay_sequence_closed (cap_ms : Z) (n : nat) :
  delay_sequence cap_ms (S n) = Z.min (1000000 * 2 ^ Z.of_nat n) (clamp_cap cap_ms * 1000000).
Proof.
  assert (1 <= clamp_cap cap_ms <= 999)
    by (unfold clamp_cap, MIN_CONNECTION_RETRY_DELAY, MAX_CONNECTION_RETRY_DELAY; lia).
  induction n as [|n IH]; unfold delay_sequence in *; rewrite Nat.iter_succ.
  - rewrite next_retry_delay_eq by (simpl; lia). simpl; lia.
  - rewrite IH, next_retry_delay_eq, Nat2Z.inj_succ, Z.pow_succ_r by lia.
    assert (0 < 2 ^ Z.of_nat n) by (apply Z.pow_pos_nonneg; lia).
    destruct (_ <=? 0) eqn:E; bool_prop; lia.
Qed.

(** ** Rules *)

Section best_rule.
Context (cfg : config) (username database : string).

Definition rule_matches (r : Z) : Prop :=
  0 <= r < number_of_limits cfg /\
  username_match username (limit_at cfg r) = true /\
  database_match database (limit_at cfg r) = true.

(** A rule that names the user, and the database or one of its aliases. *)
Definition rule_precise (r : Z) : Prop :=
  0 <= r < number_of_limits cfg /\
  l_username (limit_at cfg r) = username /\
  (l_database (limit_at cfg r) = database \/ database ∈ l_aliases (limit_at cfg r)).

Lemma existsb_streq (x : string) (l : list string) : existsb (streq x) l = true <-> x ∈ l.
Proof.
  rewrite existsb_exists. setoid_rewrite streq_true. split.
  - intros (y & Hy & ->). by apply list_elem_of_In.
  - intros Hx. exists x; split; [by apply list_elem_of_In|done].
Qed.

Definition precise_b (r : Z) : bool :=
  streq username (l_username (limit_at cfg r)) &&
  (streq database (l_database (limit_at cfg r)) || is_alias_of_limit cfg database r).

Lemma precise_b_spec (r : Z) :
  0 <= r < number_of_limits cfg -> precise_b r = true <-> rule_precise r.
Proof.
  intros Hr. unfold precise_b, rule_precise, is_alias_of_limit.
  replace ((r <? 0) || (number_of_limits cfg <=? r)) with false
    by (symmetry; rewrite Bool.orb_false_iff; bool_prop; lia).
  rewrite Bool.andb_true_iff, Bool.orb_true_iff, existsb_streq, !streq_true. intuition congruence.
Qed.

(** What the loop knows after the rules below [n]. *)
Definition best_upto (n : nat) (b : Z) : Prop :=
  (b = -1 /\ forall j, j < Z.of_nat n -> ~ rule_matches j) \/
  (rule_matches b /\ b < Z.of_nat n).

Lemma best_rule_step_inv (n : nat) (b : Z) :
  Z.of_nat n < number_of_limits cfg -> best_upto n b ->
  best_upto (S n) (best_rule_step cfg username database b n).
Proof.
  intros Hn Hb. unfold best_rule_step.
  destruct (username_match _ _ && _) eqn:M.
  - assert (rule_matches (Z.of_nat n)) as Hm
      by (apply Bool.andb_true_iff in M; split; [lia|exact M]).
    assert (best_upto (S n) (Z.of_nat n)) by (right; split; [exact Hm|lia]).
    destruct Hb as [[-> _]|[Hb Hlt]]; [simpl; assumption|].
    assert (best_upto (S n) b) by (right; split; [exact Hb|lia]).
    repeat case_if; assumption.
  - destruct Hb as [[-> Hnone]|[Hb Hlt]]; [left; split; [done|]|right; split; [done|lia]].
    intros j Hj. destruct (decide (j = Z.of_nat n)) as [->|]; [|apply Hnone; lia].
    intros (_ & H1 & H2). rewrite H1, H2 in M. done.
Qed.

Lemma foldl_upto_inv {S : Type} (f : S -> nat -> S) (P : nat -> S -> Prop) (n : nat) (s : S) :
  P O s -> (forall i t, (i < n)%nat -> P i t -> P (Datatypes.S i) (f t i)) ->
  P n (foldl f s (seq 0 n)).
Proof.
  intros H0 Hstep. induction n as [|n IH]; [done|].
  rewrite seq_S, foldl_app; simpl. apply Hstep; [lia|]. apply IH. intros; apply Hstep; [lia|done].
Qed.

Lemma find_best_rule_inv :
  best_upto (length (limits cfg)) (find_best_rule cfg username database).
Proof.
  unfold find_best_rule, upto, number_of_limits. rewrite Nat2Z.id.
  apply (foldl_upto_inv _ best_upto).
  - left; split; [done|]. intros j Hj (Hr & _); lia.
  - intros i t Hi Ht. apply best_rule_step_inv; [unfold number_of_limits; lia|done].
Qed.

(** [find_best_rule] answers -1 exactly when no limit entry matches the user
    and the database (by name, by alias or by "all"), and otherwise a rule of the
    table that does match. *)
Theorem find_best_rule_sound :
  (find_best_rule cfg username database = -1 /\ (forall r, ~ rule_matches r)) \/
  rule_matches (find_best_rule cfg username database).
Proof.
  destruct find_best_rule_inv as [[-> Hnone]|[Hm _]]; [left; split; [done|]|by right].
  intros r Hr. apply (Hnone r); [|done]. destruct Hr as [Hr _]; unfold number_of_limits in Hr; lia.
Qed.

Lemma precise_matches (r : Z) : rule_precise r -> rule_matches r.
Proof.
  intros (Hr & Hu & Hd). split; [done|]. unfold username_match, database_match.
  rewrite !Bool.orb_true_iff, existsb_streq, !streq_true. intuition congruence.
Qed.

(** A matching rule that is not precise has "all" in one of its fields. *)
Lemma matches_not_precise (r : Z) :
  rule_matches r -> precise_b r = false ->
  l_username (limit_at cfg r) = "all" \/ l_database (limit_at cfg r) = "all".
Proof.
  intros (Hr & Hu & Hd) Hp. unfold username_match, database_match in *.
  rewrite Bool.orb_true_iff, !streq_true in Hu.
  rewrite !Bool.orb_true_iff, existsb_streq, !streq_true in Hd.
  destruct Hu as [Hu|Hu]; [by left|]. destruct Hd as [[Hd|Hd]|Hd]; [by right| |];
    exfalso; apply Bool.not_true_iff_false in Hp; apply Hp, precise_b_spec; [done| |done|];
    split_and!; intuition congruence.
Qed.

(** What the parser of the limit file enforces: an entry for the database "all"
    has no aliases. *)
Definition no_aliases_of_all : Prop :=
  forall l, l ∈ limits cfg -> l_database l = "all" -> l_aliases l = [].

Lemma limit_at_elem (r : Z) : 0 <= r < number_of_limits cfg -> limit_at cfg r ∈ limits cfg.
Proof.
  intros Hr. unfold number_of_limits in Hr. apply list_elem_of_lookup. exists (Z.to_nat r).
  apply list_lookup_lookup_total_lt. lia.
Qed.

Definition precise_upto (n : nat) (b : Z) : Prop :=
  best_upto n b /\ ((exists j, j < Z.of_nat n /\ rule_precise j) -> rule_precise b).

Lemma best_rule_step_keeps_precise (n : nat) (b : Z) :
  rule_precise b -> best_rule_step cfg username database b n = b.
Proof.
  intros Hp. pose proof Hp as (Hr & _). apply precise_b_spec in Hp; [|done].
  unfold precise_b in Hp. unfold best_rule_step.
  destruct (_ && _) in |- *; [|done]. replace (b =? -1) with false by (symmetry; bool_prop; lia).
  by rewrite Hp.
Qed.

Lemma best_rule_step_takes_precise (n : nat) (b : Z) :
  username <> "all" -> no_aliases_of_all -> best_upto n b -> rule_precise (Z.of_nat n) ->
  rule_precise (best_rule_step cfg username database b n).
Proof.
  intros Hall Hna Hb Hp.
  pose proof (precise_matches _ Hp) as (Hr & Hu & Hd).
  pose proof Hp as (_ & Hpu & Hpd).
  assert (l_username (limit_at cfg (Z.of_nat n)) <> "all") by congruence.
  unfold best_rule_step. rewrite Hu, Hd; simpl.
  destruct Hb as [[-> _]|[Hb _]]; [done|].
  pose proof Hb as (Hbr & _).
  replace (b =? -1) with false by (symmetry; bool_prop; lia).
  fold (precise_b b). destruct (precise_b b) eqn:Pb; [by apply precise_b_spec|].
  destruct (streq "all" (l_username (limit_at cfg b))) eqn:Ub.
  { replace (streq "all" (l_username (limit_at cfg (Z.of_nat n)))) with false
      by (symmetry; apply streq_false; congruence). done. }
  destruct (matches_not_precise b Hb Pb) as [Hx|Hx];
    [apply streq_false in Ub; congruence|].
  replace (streq "all" (l_database (limit_at cfg b))) with true
    by (symmetry; apply streq_true; congruence).
  destruct (streq "all" (l_database (limit_at cfg (Z.of_nat n)))) eqn:Dn; [|done].
  exfalso. apply streq_true in Dn. apply Bool.not_true_iff_false in Pb. apply Pb.
  apply precise_b_spec; [done|]. destruct Hb as (_ & Hbu & _).
  unfold username_match in Hbu. rewrite Bool.orb_true_iff, !streq_true in Hbu.
  rewrite (Hna _ (limit_at_elem _ Hr) (eq_sym Dn)), elem_of_nil in Hpd.
  apply streq_false in Ub. split_and!; [lia|lia|intuition congruence|left; intuition congruence].
Qed.

Lemma find_best_rule_precise_inv :
  username <> "all" -> no_aliases_of_all ->
  precise_upto (length (limits cfg)) (find_best_rule cfg username database).
Proof.
  intros Hall Hna. unfold find_best_rule, upto, number_of_limits. rewrite Nat2Z.id.
  apply (foldl_upto_inv _ precise_upto).
  - split; [left; split; [done|]; intros j Hj (Hr & _); lia|].
    intros (j & Hj & (Hr & _)); lia.
  - intros i t Hi (Hb & Hpre). split; [apply best_rule_step_inv; [unfold number_of_limits; lia|done]|].
    intros (j & Hj & Hp). destruct (decide (j = Z.of_nat i)) as [->|].
    + by apply best_rule_step_takes_precise.
    + assert (rule_precise t) by (apply Hpre; exists j; split; [lia|done]).
      by rewrite best_rule_step_keeps_precise.
Qed.

(** When some limit entry names the user, and the database or one of its
    aliases, the rule that is chosen is such an entry, in whatever order the
    entries are written. *)
Theorem precise_rule_wins (r : Z) (Hall : username <> "all") (Hna : no_aliases_of_all)
  (Hr : rule_precise r) : rule_precise (find_best_rule cfg username database).
Proof.
  apply (find_best_rule_precise_inv Hall Hna). exists r; split; [|done].
  destruct Hr as [Hr _]; unfold number_of_limits in Hr; lia.
Qed.

(** *** The name of the database *)

Lemma resolve_name_alias (r : Z) :
  resolve_database_name cfg database r =
  if is_alias_of_limit cfg database r then l_database (limit_at cfg r) else database.
Proof. unfold resolve_database_name, is_alias_of_limit. by case_if. Qed.

Lemma alias_of_limit_spec (r : Z) :
  is_alias_of_limit cfg database r = true ->
  exists l, limits cfg !! Z.to_nat r = Some l /\ limit_at cfg r = l /\ database ∈ l_aliases l.
Proof.
  unfold is_alias_of_limit. destruct (_ || _) eqn:Hr; [done|]. rewrite existsb_streq. intros Hin.
  exists (limit_at cfg r). split; [|done]. apply list_lookup_lookup_total_lt.
  bool_prop. unfold number_of_limits in Hr. lia.
Qed.

(** With valid limits, the database the pool records for a connection and the one
    named in its startup message are the same exactly when the chosen rule lists the
    requested name as an alias or no entry for the user does: a rule without the alias
    that is preferred over the entry with it makes them differ. *)
Theorem alias_names_agree (VL : ValidLimits cfg) :
  let r := find_best_rule cfg username database in
  resolve_database_name cfg database r = resolve_database_alias cfg username database <->
  is_alias_of_limit cfg database r = true \/
  forall l, l ∈ limits cfg -> username_match username l = true -> database ∉ l_aliases l.
Proof.
  intros r. rewrite resolve_name_alias. unfold resolve_database_alias.
  destruct (List.find _ (limits cfg)) as [l|] eqn:F; simpl.
  - apply find_some in F as [Hl (Hu & Ha)%andb_prop]. apply list_elem_of_In in Hl. apply existsb_streq in Ha.
    destruct (is_alias_of_limit cfg database r) eqn:E.
    + split; [by left|]. intros _. apply alias_of_limit_spec in E as (k & Hk & -> & Hin).
      apply list_elem_of_lookup in Hl as [i Hi]. pose proof (vl_alias_owner _ _ _ _ _ Hk Hi Hin Ha) as <-. congruence.
    + split; [|intros [|Hn]; [done|]; by destruct (Hn l Hl Hu)].
      intros ->. by destruct (vl_alias_not_database l l Hl Hl).
  - pose proof (find_none _ _ F) as Hn. assert (forall l, l ∈ limits cfg -> username_match username l = true ->
      database ∉ l_aliases l) as Hno.
    { intros l Hl Hu Hin. specialize (Hn l (proj1 (list_elem_of_In _ _) Hl)). simpl in Hn.
      apply existsb_streq in Hin. by rewrite Hu, Hin in Hn. }
    split; [by right|]. intros _. destruct (is_alias_of_limit cfg database r) eqn:E; [|done].
    destruct find_best_rule_inv as [[Hb _]|[(Hr & Hu & _) _]].
    + fold r in Hb. rewrite Hb in E. done.
    + fold r in Hr, Hu. apply alias_of_limit_spec in E as (k & Hk & Hlk & Hin).
      destruct (Hno k); [by apply list_elem_of_lookup; eexists|by rewrite <- Hlk|done].
Qed.
End best_rule.

(** ** Killing a connection *)

Section kill.
Context (cfg : config) (self : process).

(** What [pgagroal_kill_connection] does to the shared segment. *)
Definition killed (slot : nat) (m : shm) : shm :=
  let c := conn_at m slot in
  let m := if 0 <=? c_limit_rule c then add_rule_backend (c_limit_rule c) (-1) m else m in
  let m :=
    if negb (c_pid c =? -1) then
      add_active (-1) (if 0 <=? c_limit_rule c then add_rule_active (c_limit_rule c) (-1) m else m)
    else m in
  upd_state slot STATE_NOTINIT (upd_conn slot reset_connection m).

Lemma wp_graceful (Q : unit -> shm -> Prop) (m : shm) :
  Q tt m -> wp (check_graceful_shutdown_trigger self) Q m.
Proof.
  intros HQ. unfold check_graceful_shutdown_trigger.
  repeat (wp_step; try assumption).
Qed.

(** The notification of main and the closing of the descriptor. *)
Lemma wp_kill_notify (slot : nat) (s : option ssl) (fd : Z) (Q : Z -> shm -> Prop) (m : shm) :
  (fd <> -1 -> Q 0 m) -> Q 1 m ->
  wp (if negb (fd =? -1) then
       t <- sys ConnectionGet ;;
       let transfer_fd := default (-1) t in
       e1 <- sys (IdWrite transfer_fd CONNECTION_KILL) ;;
       e2 <- sys (SlotWrite transfer_fd slot) ;;
       c <- act (GetConn slot) ;;
       e3 <- sys (GenerationWrite transfer_fd (c_generation c)) ;;
       sys (Disconnect transfer_fd) ;;;
       (match s with Some s => sys (ReleaseSsl s) | None => Ret tt end) ;;;
       err <- sys (SocketHasError fd) ;;
       (when negb err do
          (c <- act (GetConn slot) ;;
           v <- sys (SocketIsValid (c_fd c)) ;;
           (when v do sys (WriteTerminate None (c_fd c))) ;;;
           sys (Disconnect fd))) ;;;
       Ret (if bool_decide (t = None) || e1 || e2 || e3 then 1 else 0)
     else Ret 1) Q m.
Proof.
  intros H0 H1. destruct (Z.eqb_spec fd (-1)) as [|Hfd]; cbn [negb]; [done|].
  assert (forall b : bool, Q (if b then 1 else 0) m) by (intros []; auto).
  repeat (wp_step; cbv zeta; try solve [eauto]).
Qed.

Lemma wp_kill (slot : nat) (s : option ssl) (Q : Z -> shm -> Prop) (m : shm) :
  (c_fd (conn_at m slot) <> -1 -> Q 0 (killed slot m)) -> Q 1 (killed slot m) ->
  wp (kill_connection self slot s) Q m.
Proof.
  intros H0 H1. unfold kill_connection.
  assert (forall r, Q r (killed slot m) ->
    wp (c <- act (GetConn slot) ;;
        (when 0 <=? c_limit_rule c do (act (FetchAddRuleBackend (c_limit_rule c) (-1)) ;;; Ret tt)) ;;;
        c <- act (GetConn slot) ;;
        (when negb (c_pid c =? -1) do
           ((when 0 <=? c_limit_rule c do (act (FetchAddRuleActive (c_limit_rule c) (-1)) ;;; Ret tt)) ;;;
            act (FetchAddActive (-1)) ;;;
            check_graceful_shutdown_trigger self)) ;;;
        act (SetConn slot reset_connection) ;;;
        act (StoreState slot STATE_NOTINIT) ;;;
        sys (Metric M_connection_kill) ;;;
        Ret r) Q m) as Htail.
  { intros r. unfold killed. intros HQ.
    repeat (wp_step; try (apply wp_graceful)); unfold conn_at in *; simpl in *;
      rewrite ?E, ?E0, ?E1 in HQ; try congruence; exact HQ. }
  do 5 wp_step. apply wp_kill_notify; [intros Hfd|]; apply Htail; auto.
Qed.

(** Whatever the calls to main and to the socket answer,
    [pgagroal_kill_connection] releases the backend reservation of the slot's rule,
    releases the two active counters exactly when a process is attached, resets
    every field of the connection and leaves the slot uninitialised; it answers 0
    only for a slot with a descriptor and 1 otherwise. *)
Theorem kill_connection_exact (slot : nat) (s : option ssl) (m : shm) :
  wp (kill_connection self slot s)
    (fun r m' => m' = killed slot m /\ (r = 0 /\ c_fd (conn_at m slot) <> -1 \/ r = 1)) m.
Proof. apply wp_kill; auto. Qed.
End kill.

(** ** Sweeps *)

Section sweep.
Context (cfg : config) (self : process).

(** A slot the sweep takes: free, and the process holds its descriptor. *)
Definition sweepable (m : shm) (i : nat) : bool :=
  bool_decide (state_at m i = STATE_FREE) && (c_generation (conn_at m i) <=? p_fd_generation self).

(** What one iteration does to the segment, for a test on the connection. *)
Definition swept (test : connection -> bool) (m : shm) (i : nat) : shm :=
  if sweepable m i && test (conn_at m i) then killed i m else m.

Lemma upd_state_twice (i : nat) (s s' : slot_state) (m : shm) :
  upd_state i s (upd_state i s' m) = upd_state i s m.
Proof. unfold upd_state; simpl. by rewrite list_insert_insert_eq. Qed.

Lemma upd_state_id (i : nat) (m : shm) : upd_state i (state_at m i) m = m.
Proof. unfold upd_state, state_at. rewrite insert_lookup_total. by destruct m. Qed.

Lemma killed_upd_state (i : nat) (s : slot_state) (m : shm) : killed i (upd_state i s m) = killed i m.
Proof.
  unfold killed, conn_at. simpl. repeat case_if; unfold upd_state; simpl;
    by rewrite list_insert_insert_eq.
Qed.

Lemma state_upd_in (i : nat) (s : slot_state) (m : shm) :
  (i < length (m_states m))%nat -> state_at (upd_state i s m) i = s.
Proof. intros. unfold state_at; simpl. by apply lookup_total_insert_eq. Qed.

Lemma wp_sweep_slot (mark : slot_state) (expired : nat -> prog bool) (test : connection -> bool)
  (mt : metric) (e : tracker_event) (i : nat) (prefill : bool) (Q : bool -> shm -> Prop) (m : shm) :
  (i < length (m_states m))%nat ->
  (forall m (P : bool -> shm -> Prop), P (test (conn_at m i)) m -> wp (expired i) P m) ->
  (forall b, Q b (swept test m i)) ->
  wp (sweep_slot self mark expired mt e i prefill) Q m.
Proof.
  intros Hi Hx HQ. unfold sweep_slot. unfold swept, sweepable in HQ.
  wp_step. wp_step; [|rewrite bool_decide_eq_false_2 in HQ by done; wp_step; apply HQ].
  match goal with H : state_at m i = STATE_FREE |- _ => rename H into Hst end.
  rewrite bool_decide_eq_true_2 in HQ by done. cbn [andb] in HQ.
  wp_step. unfold holds_descriptor. do 3 wp_step.
  change (conn_at (upd_state i mark m) i) with (conn_at m i).
  destruct (c_generation (conn_at m i) <=? p_fd_generation self); cbn [negb andb] in *.
  - wp_step. apply Hx. change (conn_at (upd_state i mark m) i) with (conn_at m i).
    assert (forall m', killed i m' = killed i m -> (forall b, Q b (killed i m)) ->
      wp (sys (Metric mt) ;;; sys (Track e i) ;;; kill_connection self i None ;;; Ret true) Q m') as Hkill.
    { intros m' Hm HQ'. do 5 wp_step. apply wp_kill; [intros _|]; wp_step; rewrite Hm; apply HQ'. }
    destruct (test (conn_at m i)); [apply Hkill; [apply killed_upd_state|done]|].
    wp_step. wp_step.
    + wp_step. rewrite upd_state_twice, <- Hst, upd_state_id. apply HQ.
    + rewrite state_upd_in in * by done. congruence.
  - do 3 wp_step. rewrite upd_state_twice, <- Hst, upd_state_id. apply HQ.
Qed.

Lemma length_states_killed (i : nat) (m : shm) : length (m_states (killed i m)) = length (m_states m).
Proof. unfold killed. simpl. rewrite length_insert. by repeat case_if. Qed.

Lemma length_states_swept (test : connection -> bool) (m : shm) (i : nat) :
  length (m_states (swept test m i)) = length (m_states m).
Proof. unfold swept. case_if; [apply length_states_killed|done]. Qed.

Lemma wp_sweep_loop (mark : slot_state) (expired : nat -> prog bool) (test : connection -> bool)
  (mt : metric) (e : tracker_event) (l : list nat) (prefill : bool) (Q : bool -> shm -> Prop) (m : shm) :
  (forall i, i ∈ l -> (i < length (m_states m))%nat) ->
  (forall i m (P : bool -> shm -> Prop), P (test (conn_at m i)) m -> wp (expired i) P m) ->
  (forall b, Q b (foldl (swept test) m l)) ->
  wp (for_each l prefill (sweep_slot self mark expired mt e)) Q m.
Proof.
  revert m prefill; induction l as [|i l IH]; intros m prefill Hl Hx HQ; [apply HQ|].
  cbn [for_each]. wp_step.
  apply (wp_sweep_slot mark expired test); [apply Hl; left|apply Hx|]. intros b. apply IH; [|done|done].
  intros j Hj. rewrite length_states_swept. apply Hl. by right.
Qed.

Lemma readonly_prefill (initial : bool) : readonly (prefill_if_can_fork cfg initial).
Proof. unfold prefill_if_can_fork, get_primary, find_server. solve_readonly. Qed.

(** A kill touches one slot. *)
Lemma killed_other (i j : nat) (m : shm) :
  j <> i -> state_at (killed i m) j = state_at m j /\ conn_at (killed i m) j = conn_at m j.
Proof.
  intros Hj. unfold killed, state_at, conn_at; simpl. unfold list_upd.
  rewrite !lookup_total_insert_ne by done. by repeat case_if.
Qed.

Lemma killed_same (i : nat) (m : shm) :
  (i < length (m_states m))%nat -> (i < length (m_connections m))%nat ->
  state_at (killed i m) i = STATE_NOTINIT /\ conn_at (killed i m) i = reset_connection (conn_at m i).
Proof.
  intros Hs Hc. unfold killed, state_at, conn_at; simpl. unfold list_upd.
  rewrite !lookup_total_insert_eq; [done|by repeat case_if|by repeat case_if].
Qed.

Lemma length_conns_swept (test : connection -> bool) (m : shm) (i : nat) :
  length (m_connections (swept test m i)) = length (m_connections m).
Proof.
  unfold swept, killed. case_if; [|done]. simpl. unfold list_upd. rewrite length_insert.
  by repeat case_if.
Qed.

(** The whole sweep, slot by slot. *)
Lemma swept_loop (test : connection -> bool) (l : list nat) (m : shm) (i : nat) :
  NoDup l -> (i < length (m_states m))%nat -> (i < length (m_connections m))%nat ->
  let m' := foldl (swept test) m l in
  if bool_decide (i ∈ l) && sweepable m i && test (conn_at m i)
  then state_at m' i = STATE_NOTINIT /\ conn_at m' i = reset_connection (conn_at m i)
  else state_at m' i = state_at m i /\ conn_at m' i = conn_at m i.
Proof.
  revert m; induction l as [|j l IH]; intros m Hnd Hs Hc; cbv zeta; [done|].
  apply NoDup_cons in Hnd as [Hj Hnd]. cbn [foldl].
  specialize (IH (swept test m j) Hnd). rewrite length_states_swept, length_conns_swept in IH.
  specialize (IH Hs Hc). cbv zeta in IH.
  destruct (decide (j = i)) as [->|Hne].
  - rewrite (bool_decide_eq_false_2 (i ∈ l)) in IH by done. cbn [andb] in IH.
    rewrite bool_decide_eq_true_2 by left. cbn [andb]. destruct IH as [-> ->].
    unfold swept. destruct (sweepable m i && test (conn_at m i)); [by apply killed_same|done].
  - assert (state_at (swept test m j) i = state_at m i /\ conn_at (swept test m j) i = conn_at m i)
      as [Es Ec] by (unfold swept; case_if; [by apply killed_other|done]).
    unfold sweepable in *. rewrite Es, Ec in IH.
    replace (bool_decide (i ∈ j :: l)) with (bool_decide (i ∈ l)); [exact IH|].
    apply bool_decide_ext. rewrite elem_of_cons. intuition congruence.
Qed.

(** What a sweep leaves, for a test on the connection. *)
Definition swept_all (test : connection -> bool) (m m' : shm) : Prop :=
  forall i, Z.of_nat i < max_connections cfg ->
    if sweepable m i && test (conn_at m i)
    then state_at m' i = STATE_NOTINIT /\ conn_at m' i = reset_connection (conn_at m i)
    else state_at m' i = state_at m i /\ conn_at m' i = conn_at m i.

Lemma foldl_swept_all (test : connection -> bool) (m : shm) :
  shm_wf cfg m -> swept_all test m (foldl (swept test) m (slots_down cfg)).
Proof.
  intros Hwf i Hi. pose proof (wf_states _ _ Hwf). pose proof (wf_connections _ _ Hwf).
  pose proof (swept_loop test (slots_down cfg) m i (NoDup_downfrom _) ltac:(lia) ltac:(lia)) as Hl.
  cbv zeta in Hl. rewrite bool_decide_eq_true_2 in Hl by by apply elem_of_downfrom. exact Hl.
Qed.

Lemma wp_sweep_all (mark : slot_state) (expired : nat -> prog bool) (test : connection -> bool)
  (mt : metric) (e : tracker_event) (prefill : bool) (m : shm) :
  shm_wf cfg m ->
  (forall i m (P : bool -> shm -> Prop), P (test (conn_at m i)) m -> wp (expired i) P m) ->
  wp (p <- for_each (slots_down cfg) prefill (sweep_slot self mark expired mt e) ;;
      when p do prefill_if_can_fork cfg false) (fun _ m' => swept_all test m m') m.
Proof.
  intros Hwf Hx. pose proof (wf_states _ _ Hwf). wp_step. apply (wp_sweep_loop mark expired test).
  - intros i Hi. apply elem_of_downfrom in Hi. lia.
  - exact Hx.
  - intros b. apply readonly_wp; [destruct b; [apply readonly_prefill|done]|]. intros _. by apply foldl_swept_all.
Qed.

(** After the idle sweep, every free slot whose descriptor the process holds,
    that is not in transaction mode and has been idle for [idle_timeout] seconds
    or more by the clock the sweep read, is killed and reset; every other slot keeps
    its state and its connection. *)
Theorem idle_timeout_sweeps (orc : oracle) (w : world) (Hwf : shm_wf cfg (w_shm w)) :
  let now := orc Z Time (w_tick w) in
  swept_all (fun c => (idle_timeout cfg <=? now - c_timestamp c) && negb (c_tx_mode c))
    (w_shm w) (w_shm (snd (run orc (pool_idle_timeout cfg self) w))).
Proof.
  cbv zeta. set (test := fun c => _).
  refine (wp_run _ (fun _ m' => swept_all test (w_shm w) m') orc
    (World (w_shm w) (w_trace w ++ [Ev Time]) (S (w_tick w))) _).
  apply wp_sweep_all; [exact Hwf|]. intros i m P HP. unfold idle_expired. by do 2 wp_step.
Qed.

(** After the age sweep, every free slot whose descriptor the process holds, that is
    not in transaction mode and was established [max_connection_age] seconds ago or
    more by the clock the sweep read, is killed and reset; every other slot keeps its
    state and its connection. *)
Theorem max_connection_age_sweeps (orc : oracle) (w : world) (Hwf : shm_wf cfg (w_shm w)) :
  let now := orc Z Time (w_tick w) in
  swept_all (fun c => (max_connection_age cfg <=? now - c_start_time c) && negb (c_tx_mode c))
    (w_shm w) (w_shm (snd (run orc (pool_max_connection_age cfg self) w))).
Proof.
  cbv zeta. set (test := fun c => _).
  refine (wp_run _ (fun _ m' => swept_all test (w_shm w) m') orc
    (World (w_shm w) (w_trace w ++ [Ev Time]) (S (w_tick w))) _).
  apply wp_sweep_all; [exact Hwf|]. intros i m P HP. unfold age_expired. by do 2 wp_step.
Qed.
End sweep.

(** ** Flush *)

Section flush.
Context (cfg : config) (self : process).

(** No connection is on a server that has failed. *)
Definition servers_up (m : shm) : Prop :=
  forall i, Z.of_nat i < max_connections cfg ->
    c_server (conn_at m i) = -1 \/ server_state_at m (c_server (conn_at m i)) <> SERVER_FAILED.

Lemma wp_flush_slot (mode : flush_mode) (database : string) (i : nat) (prefill : bool)
  (Q : bool -> shm -> Prop) (m : shm) :
  (c_server (conn_at m i) = -1 \/ server_state_at m (c_server (conn_at m i)) <> SERVER_FAILED) ->
  (if streq database "all" || streq (c_database (conn_at m i)) database
   then wp (flush_considered self mode i prefill) Q m else Q prefill m) ->
  wp (flush_slot self mode database i prefill) Q m.
Proof.
  intros Hs HQ. unfold flush_slot. do 3 wp_step.
  assert (wp (c <- act (GetConn i) ;;
    if streq database "all" || streq (c_database c) database
    then flush_considered self mode i prefill else Ret prefill) Q m) as Hgo
    by (do 2 wp_step; destruct (_ || _); [exact HQ|by wp_step]).
  destruct (Z.eqb_spec (c_server (conn_at m i)) (-1)) as [E|E]; cbn [negb]; [by wp_step|].
  do 3 wp_step. rewrite bool_decide_eq_false_2 by tauto. exact Hgo.
Qed.

(** A flush request that names no database asks for the database "*"; with no
    failed server and no database of that name it leaves every connection alone,
    whatever the mode. *)
Theorem request_flush_without_database (mode : flush_mode) (m : shm) (Hs : servers_up m)
  (Hd : forall i, Z.of_nat i < max_connections cfg -> c_database (conn_at m i) <> "*") :
  wp (request_flush cfg self mode None) (fun _ m' => m' = m) m.
Proof.
  unfold request_flush, pool_flush. wp_step.
  assert (forall l prefill, (forall i, i ∈ l -> Z.of_nat i < max_connections cfg) ->
    wp (for_each l prefill (flush_slot self mode "*")) (fun p m' => p = prefill /\ m' = m) m) as Hloop.
  { induction l as [|i l IH]; intros prefill Hl; [done|]. cbn [for_each]. wp_step.
    assert (Z.of_nat i < max_connections cfg) as Hi by (apply Hl; by left).
    apply wp_flush_slot; [by apply Hs|].
    replace (_ || _) with false by (symmetry; apply Bool.orb_false_iff; split; [done|by apply streq_false, Hd]).
    apply IH. intros j Hj. apply Hl. by right. }
  eapply wp_mono; [|apply Hloop; intros i Hi; by apply elem_of_downfrom in Hi]. intros p m' [-> ->]. by wp_step.
Qed.

Lemma wp_flush_considered (i : nat) (prefill : bool) (Q : bool -> shm -> Prop) (m : shm) :
  (forall b, Q b (swept self (fun _ => true) m i)) ->
  wp (flush_considered self FLUSH_IDLE i prefill) Q m.
Proof.
  intros HQ. unfold flush_considered. unfold swept, sweepable in HQ.
  wp_step. wp_step; [|rewrite bool_decide_eq_false_2 in HQ by done; wp_step; apply HQ].
  rewrite bool_decide_eq_true_2 in HQ by done. cbn [andb] in HQ.
  wp_step. unfold holds_descriptor. do 3 wp_step.
  change (conn_at (upd_state i STATE_FLUSH m) i) with (conn_at m i).
  destruct (c_generation (conn_at m i) <=? p_fd_generation self); cbn [negb andb] in *.
  - do 4 wp_step. wp_step. apply readonly_wp; [by destruct r|]. intros _. do 5 wp_step.
    apply wp_kill; [intros _|]; wp_step; rewrite killed_upd_state; apply HQ.
  - do 3 wp_step. match goal with H : state_at m i = _ |- _ => rewrite upd_state_twice, <- H, upd_state_id end.
    apply HQ.
Qed.

(** While no server has failed, "flush idle all" kills every free connection whose
    descriptor the process holds, and no other. *)
Theorem flush_idle_all (m : shm) (Hwf : shm_wf cfg m) (Hs : servers_up m) :
  wp (pool_flush cfg self FLUSH_IDLE "all") (fun _ m' => swept_all cfg self (fun _ => true) m m') m.
Proof.
  unfold pool_flush. wp_step.
  assert (forall l prefill m0, NoDup l -> (forall i, i ∈ l -> Z.of_nat i < max_connections cfg) ->
    (forall i, i ∈ l -> conn_at m0 i = conn_at m i) -> m_server_states m0 = m_server_states m ->
    wp (for_each l prefill (flush_slot self FLUSH_IDLE "all"))
      (fun _ m' => m' = foldl (swept self (fun _ => true)) m0 l) m0) as Hloop.
  { induction l as [|i l IH]; intros prefill m0 Hnd Hl Hc Hst; [done|]. cbn [for_each foldl]. wp_step.
    apply NoDup_cons in Hnd as [Hni Hnd]. assert (Z.of_nat i < max_connections cfg) as Hi by (apply Hl; by left).
    apply wp_flush_slot.
    { unfold server_state_at. rewrite Hc, Hst by (by left). by apply Hs. }
    cbn [streq bool_decide orb]. change (streq "all" "all" || _) with true. cbv iota.
    apply wp_flush_considered. intros b. apply IH; [done| | |].
    - intros j Hj. apply Hl. by right.
    - intros j Hj. unfold swept. case_if; [|apply Hc; by right].
      rewrite (proj2 (killed_other i j m0 ltac:(intros ->; done))). apply Hc. by right.
    - unfold swept, killed. case_if; [|done]. simpl. by repeat case_if. }
  eapply wp_mono; [|apply (Hloop _ false m (NoDup_downfrom _)); try done; intros i Hi; by apply elem_of_downfrom in Hi].
  intros b m' ->. apply readonly_wp; [destruct b; [apply readonly_prefill|done]|]. intros _. by apply foldl_swept_all.
Qed.
End flush.

(** ** Termination *)

(** [everywhere p Q]: on every path of the program, whatever each access and each call
    answers, the result satisfies [Q].  In particular this holds in every interleaving
    with other processes. *)
Fixpoint everywhere {A} (p : prog A) (Q : A -> Prop) : Prop :=
  match p with
  | Ret a => Q a
  | Vis o k => forall r, everywhere (k r) Q
  end.

Lemma everywhere_bind {A B} (p : prog A) (f : A -> prog B) (P : A -> Prop) (Q : B -> Prop) :
  everywhere p P -> (forall a, P a -> everywhere (f a) Q) -> everywhere (bind p f) Q.
Proof. intros Hp Hf. induction p as [a|R o k IH]; [by apply Hf|]. intros r. apply IH, Hp. Qed.

Lemma everywhere_any {A} (p : prog A) (Q : A -> Prop) : (forall a, Q a) -> everywhere p Q.
Proof. intros HQ. induction p as [a|R o k IH]; [apply HQ|done]. Qed.

Lemma everywhere_seq {A B} (p : prog A) (f : A -> prog B) (Q : B -> Prop) :
  (forall a, everywhere (f a) Q) -> everywhere (bind p f) Q.
Proof. intros Hf. apply (everywhere_bind _ _ (fun _ => True)); [by apply everywhere_any|auto]. Qed.

Section terminates.
Context (cfg : config) (self : process).

(** Without a blocking timeout a session retries at most [max_retries] times. *)
Lemma retry_again_counts (u d : string) (rule start retries delay : Z) :
  time_is_valid (blocking_timeout cfg) = false ->
  everywhere (retry_again cfg self u d false rule start retries delay)
    (fun r => match r with Some (n, _) => n = retries + 1 /\ retries < max_retries cfg | None => True end).
Proof.
  intros Hb. unfold retry_again. rewrite Hb. cbn [negb]. destruct (rule =? -1).
  - apply everywhere_seq. intros removed. cbn [everywhere]. destruct (removed && _) eqn:E; [|done].
    bool_prop. destruct E. auto.
  - cbn [everywhere]. destruct (retries <? max_retries cfg) eqn:E; [|done]. bool_prop. auto.
Qed.

Lemma loop_terminates (u d : string) (reuse : bool) (rule start : Z) (fuel : nat) (retries delay : Z) :
  time_is_valid (blocking_timeout cfg) = false ->
  0 <= retries -> Z.max 0 (max_retries cfg - retries) < Z.of_nat fuel ->
  everywhere (get_connection_loop cfg self u d reuse false rule fuel start retries delay) (fun r => r <> None).
Proof.
  intros Hb. revert retries delay. induction fuel as [|fuel IH]; intros retries delay Hr Hf; [simpl in Hf; lia|].
  assert (forall slot, everywhere (r <- retry_again cfg self u d false rule start retries delay ;;
    match r with
    | Some (retries, retry_delay) => get_connection_loop cfg self u d reuse false rule fuel start retries retry_delay
    | None => r <- finish_timeout cfg u d rule start slot ;; Ret (Some r)
    end) (fun r => r <> None)) as Hagain.
  { intros slot. eapply everywhere_bind; [by apply retry_again_counts|]. intros [[n dl]|] H.
    - destruct H as [-> Hlt]. apply IH; lia.
    - by apply everywhere_seq. }
  cbn [get_connection_loop]. apply everywhere_seq. intros [slot|slot lock|slot|slot|slot]; [by apply everywhere_seq| |apply Hagain
    |by apply everywhere_seq|by apply everywhere_seq].
  apply everywhere_seq. intros _. apply Hagain.
Qed.

(** C36: in session pooling without a blocking timeout, [pgagroal_get_connection]
    answers after at most [max_retries + 1] passes, whatever the other processes, the
    servers and the clock do. *)
Theorem get_connection_terminates (u d : string) (reuse : bool) (fuel : nat)
  (Hb : blocking_timeout cfg <= 0) (Hf : Z.max 0 (max_retries cfg) < Z.of_nat fuel) :
  everywhere (get_connection cfg self fuel u d reuse false) (fun r => r <> None).
Proof.
  unfold get_connection. apply everywhere_seq. intros _. apply everywhere_seq. intros start.
  apply everywhere_seq. intros _. apply loop_terminates; [|lia|lia].
  unfold time_is_valid. apply Z.ltb_ge. lia.
Qed.
End terminates.
