(* ===== verification/PoolConc.v ===== *)
(** * Interleavings: the counters and the slots under concurrency

    Every pgagroal worker is a process; they share the slot states, the
    connections and three kinds of [atomic_ushort] counters and synchronise by
    compare-and-swap and fetch-and-add alone.  This file gives the programs of
    [Pool] an interleaving semantics, in which each single access of any of the
    processes may come next and everything that is not part of the protocol
    (descriptors, generations, server states, ...) may change at any time, and a
    small logic with ghost state: what a process holds is the slot it took out
    of the pool, its reservation of a backend and its share of the counters.

    The programs covered are the ones whose accesses follow the ownership
    discipline: acquisition in session mode, return, kill, the three sweeps and
    the removal of an idle connection. *)

From S2P Require Import Prelude Config Effects Server Pool.

Local Open Scope Z_scope.
Local Open Scope prog_scope.

(** ** Ghost state *)

(** The token for rule [r]; connections without a rule need none. *)
Definition tok (r : Z) : option Z := if 0 <=? r then Some r else None.

(** What one process holds: a slot (with the [pid] and [limit_rule] fields it
    last wrote there), a granted reservation of a backend, a reservation beyond
    [max_size] that it is about to undo, and its increments of the global and of
    a rule's [active_connections]. *)
Record ghost := Ghost {
  g_own : option (nat * Z * Z);
  g_back : option Z;
  g_over : option Z;
  g_act : bool;
  g_ract : option Z
}.

Definition idle : ghost := Ghost None None None false None.

(** A process that owns slot [i]: checked out when [pid] is set. *)
Definition holding (i : nat) (pid rule : Z) : ghost :=
  Ghost (Some (i, pid, rule)) (tok rule) None (negb (pid =? -1))
    (if pid =? -1 then None else tok rule).

(** A state in which a slot belongs to a process. *)
Definition busy (s : slot_state) : bool :=
  match s with STATE_NOTINIT | STATE_FREE => false | _ => true end.

Section conc.
Context (cfg : config).

Definition valid_rule (r : Z) : Prop := 0 <= r < number_of_limits cfg.
Definition rule_or_none (r : Z) : Prop := -1 <= r < number_of_limits cfg.
Definition slot_ok (i : nat) : Prop := Z.of_nat i < max_connections cfg.

(** ** The logic

    [vc o g Psi]: a process that holds [g] may do [o], and [Psi] holds of every
    answer and of what the process holds afterwards. *)

Definition vc {R : Type} (o : op R) (g : ghost) : (R -> ghost -> Prop) -> Prop :=
  match o in op R return (R -> ghost -> Prop) -> Prop with
  | LoadActive => fun Psi => forall v, Psi v g
  | FetchAddActive d => fun Psi =>
      (d = 1 /\ g_act g = false /\
       forall v, Psi v (Ghost (g_own g) (g_back g) (g_over g) true (g_ract g))) \/
      (d = -1 /\ g_act g = true /\
       forall v, Psi v (Ghost (g_own g) (g_back g) (g_over g) false (g_ract g)))
  | FetchAddRuleActive r d => fun Psi =>
      (d = 1 /\ valid_rule r /\ g_ract g = None /\
       forall v, Psi v (Ghost (g_own g) (g_back g) (g_over g) (g_act g) (Some r))) \/
      (d = -1 /\ g_ract g = Some r /\
       forall v, Psi v (Ghost (g_own g) (g_back g) (g_over g) (g_act g) None))
  | FetchAddRuleBackend r d => fun Psi =>
      (d = 1 /\ valid_rule r /\ g_own g = None /\ g_back g = None /\ g_over g = None /\
       (forall v, v < l_max_size (limit_at cfg r) ->
          Psi v (Ghost (g_own g) (Some r) None (g_act g) (g_ract g))) /\
       (forall v, l_max_size (limit_at cfg r) <= v ->
          Psi v (Ghost (g_own g) None (Some r) (g_act g) (g_ract g)))) \/
      (d = -1 /\ g_back g = Some r /\
       forall v, Psi v (Ghost (g_own g) None (g_over g) (g_act g) (g_ract g))) \/
      (d = -1 /\ g_over g = Some r /\
       forall v, Psi v (Ghost (g_own g) (g_back g) None (g_act g) (g_ract g)))
  | LoadState _ => fun Psi => forall s, Psi s g
  | StoreState i s => fun Psi =>
      exists pid rule, g_own g = Some (i, pid, rule) /\
      match s with
      | STATE_NOTINIT =>
          pid = -1 /\ rule = -1 /\ Psi tt (Ghost None (g_back g) (g_over g) (g_act g) (g_ract g))
      | STATE_FREE =>
          pid = -1 /\ g_back g = tok rule /\
          Psi tt (Ghost None None (g_over g) (g_act g) (g_ract g))
      | _ => Psi tt g
      end
  | CasState i e d => fun Psi =>
      match g_own g with
      | Some (j, pid, rule) =>
          i = j /\ busy e = true /\ Psi false g /\
          match d with
          | STATE_NOTINIT => False
          | STATE_FREE =>
              pid = -1 /\ g_back g = tok rule /\
              Psi true (Ghost None None (g_over g) (g_act g) (g_ract g))
          | _ => Psi true g
          end
      | None =>
          slot_ok i /\ busy d = true /\ g_over g = None /\ Psi false g /\
          match e with
          | STATE_FREE =>
              g_back g = None /\
              forall rule, rule_or_none rule ->
                Psi true (Ghost (Some (i, -1, rule)) (tok rule) (g_over g) (g_act g) (g_ract g))
          | STATE_NOTINIT =>
              Psi true (Ghost (Some (i, -1, -1)) (g_back g) (g_over g) (g_act g) (g_ract g))
          | _ => False
          end
      end
  | GetConn i => fun Psi =>
      forall c, (forall pid rule, g_own g = Some (i, pid, rule) ->
                   c_pid c = pid /\ c_limit_rule c = rule) -> Psi c g
  | SetConn i f => fun Psi =>
      exists pid rule pid' rule', g_own g = Some (i, pid, rule) /\
      (forall c, c_pid c = pid -> c_limit_rule c = rule ->
                 c_pid (f c) = pid' /\ c_limit_rule (f c) = rule') /\
      rule_or_none rule' /\
      Psi tt (Ghost (Some (i, pid', rule')) (g_back g) (g_over g) (g_act g) (g_ract g))
  | LoadServer _ => fun Psi => forall s, Psi s g
  | StoreServer _ _ => fun Psi => Psi tt g
  | XchgServer _ _ => fun Psi => forall s, Psi s g
  | CasServer _ _ _ => fun Psi => forall b, Psi b g
  | ServerValid _ => fun Psi => forall b, Psi b g
  | SetServerValid _ _ => fun Psi => Psi tt g
  | SetServerVersion _ _ _ => fun Psi => Psi tt g
  | SetServerIdentifier _ _ _ => fun Psi => Psi tt g
  | LoadGracefully => fun Psi => forall b, Psi b g
  | LoadKeepRunning => fun Psi => forall b, Psi b g
  | Sys c => fun Psi => forall r, Psi r g
  end.

Fixpoint wpg {A} (g : ghost) (p : prog A) (Q : A -> ghost -> Prop) : Prop :=
  match p with
  | Ret a => Q a g
  | Vis o k => vc o g (fun r g' => wpg g' (k r) Q)
  end.

(** ** The protocol invariant *)

Definition count (b : bool) : Z := if b then 1 else 0.

Definition holds_back (r : Z) (g : ghost) : Z := count (bool_decide (g_back g = Some r)).
Definition holds_over (r : Z) (g : ghost) : Z := count (bool_decide (g_over g = Some r)).
Definition holds_ract (r : Z) (g : ghost) : Z := count (bool_decide (g_ract g = Some r)).
Definition holds_act (g : ghost) : Z := count (g_act g).

Definition total {A} (f : A -> Z) (l : list A) : Z := foldr (fun x a => f x + a) 0 l.

(** The idle connections of rule [r] in the pool. *)
Definition free_at (m : shm) (r : Z) (i : nat) : Z :=
  count (bool_decide (state_at m i = STATE_FREE) && (c_limit_rule (conn_at m i) =? r)).

Definition free_connections (m : shm) (r : Z) : Z := total (free_at m r) (upto (max_connections cfg)).

(** What is known of a slot that no process owns. *)
Definition slot_inv (s : slot_state) (c : connection) : Prop :=
  match s with
  | STATE_FREE => c_pid c = -1 /\ rule_or_none (c_limit_rule c)
  | STATE_NOTINIT => c_pid c = -1 /\ c_limit_rule c = -1
  | _ => True
  end.

Record inv (m : shm) (gs : list ghost) : Prop := {
  inv_states : Z.of_nat (length (m_states m)) >= max_connections cfg;
  inv_conns : Z.of_nat (length (m_connections m)) >= max_connections cfg;
  inv_lact : length (m_limit_active m) = length (limits cfg);
  inv_lback : length (m_limit_backend m) = length (limits cfg);
  inv_active : m_active_connections m = total holds_act gs;
  inv_ract r : valid_rule r -> rule_active m r = total (holds_ract r) gs;
  inv_backend r : valid_rule r ->
    rule_backend m r = free_connections m r + total (holds_back r) gs + total (holds_over r) gs;
  inv_cap r : valid_rule r ->
    free_connections m r + total (holds_back r) gs <= l_max_size (limit_at cfg r);
  inv_slots i : slot_ok i -> slot_inv (state_at m i) (conn_at m i);
  inv_own t g i pid rule : gs !! t = Some g -> g_own g = Some (i, pid, rule) ->
    slot_ok i /\ busy (state_at m i) = true /\
    c_pid (conn_at m i) = pid /\ c_limit_rule (conn_at m i) = rule /\ rule_or_none rule;
  inv_excl t1 t2 g1 g2 i p1 p2 r1 r2 : gs !! t1 = Some g1 -> gs !! t2 = Some g2 ->
    g_own g1 = Some (i, p1, r1) -> g_own g2 = Some (i, p2, r2) -> t1 = t2
}.

(** The processes are few enough for the [unsigned short] counters. *)
Definition few (n : nat) : Prop :=
  Z.of_nat n < 2 ^ 16 /\
  forall r, valid_rule r -> l_max_size (limit_at cfg r) + Z.of_nat n < 2 ^ 16.

(** ** Interleaving *)

(** Everything the protocol relies on is unchanged. *)
Record same_protocol (m m' : shm) : Prop := {
  sp_states : m_states m' = m_states m;
  sp_len : length (m_connections m') = length (m_connections m);
  sp_pid i : c_pid (conn_at m' i) = c_pid (conn_at m i);
  sp_rule i : c_limit_rule (conn_at m' i) = c_limit_rule (conn_at m i);
  sp_active : m_active_connections m' = m_active_connections m;
  sp_lact : m_limit_active m' = m_limit_active m;
  sp_lback : m_limit_backend m' = m_limit_backend m
}.

Definition stepf (p : prog unit) (answer : forall Q, syscall Q -> Q) (m : shm) :
  option (prog unit * shm) :=
  match p with
  | Ret _ => None
  | Vis o k => let '(r, m') := exec_shm o answer m in Some (k r, m')
  end.

(** A system: the processes with what is left of their programs. *)
Inductive step : list (prog unit) * shm -> list (prog unit) * shm -> Prop :=
| step_process ts m t p p' m' answer :
    ts !! t = Some p -> stepf p answer m = Some (p', m') ->
    step (ts, m) (<[t := p']> ts, m')
| step_environment ts m m' : same_protocol m m' -> step (ts, m) (ts, m').

(** ** Sums *)

Lemma total_insert {A} (f : A -> Z) (l : list A) (t : nat) (x y : A) :
  l !! t = Some x -> total f (<[t := y]> l) = total f l - f x + f y.
Proof.
  revert t; induction l as [|z l IH]; intros [|t] H; simplify_eq/=; [lia|].
  rewrite (IH t) by done; lia.
Qed.

Lemma total_ext {A} (f f' : A -> Z) (l : list A) :
  (forall x, x ∈ l -> f' x = f x) -> total f' l = total f l.
Proof.
  induction l as [|x l IH]; intros Hf; simpl; [done|].
  rewrite IH, (Hf x); [done|left|]. intros y Hy. apply Hf. by right.
Qed.

Lemma total_change (f f' : nat -> Z) (l : list nat) (i : nat) :
  NoDup l -> i ∈ l -> (forall j, j <> i -> f' j = f j) -> total f' l = total f l - f i + f' i.
Proof.
  intros Hnd Hi Hf. induction l as [|j l IH]; [by apply elem_of_nil in Hi|].
  apply NoDup_cons in Hnd as [Hj Hnd]. simpl.
  destruct (decide (j = i)) as [->|Hne].
  - rewrite (total_ext f f' l); [lia|]. intros k Hk. apply Hf. by intros ->.
  - apply elem_of_cons in Hi as [Hi|Hi]; [congruence|].
    rewrite IH, (Hf j) by done. lia.
Qed.

Lemma total_bounds {A} (f : A -> Z) (l : list A) :
  (forall x, 0 <= f x <= 1) -> 0 <= total f l <= Z.of_nat (length l).
Proof.
  intros Hf. induction l as [|x l IH]; simpl; [lia|]. specialize (Hf x). lia.
Qed.

Lemma count_bounds (b : bool) : 0 <= count b <= 1.
Proof. destruct b; simpl; lia. Qed.

(** Distinct elements that count one each. *)
Lemma total_at_least {A} (f : A -> Z) (l : list A) (us : list nat) :
  (forall x, 0 <= f x <= 1) -> NoDup us -> (forall t, t ∈ us -> exists x, l !! t = Some x /\ f x = 1) ->
  Z.of_nat (length us) <= total f l.
Proof.
  intros Hf. revert us. induction l as [|x l IH]; intros us Hnd Hus.
  - destruct us as [|t us]; [done|]. destruct (Hus t) as (? & ? & _); [left|done].
  - set (vs := pred <$> filter (fun t => t <> 0%nat) us).
    assert (NoDup vs) as Hvs.
    { apply NoDup_fmap_2_strong; [|by apply NoDup_filter]. intros a b Ha Hb.
      apply list_elem_of_filter in Ha as [? _], Hb as [? _]. lia. }
    specialize (IH vs Hvs). simpl.
    assert (forall t, t ∈ vs -> exists y, l !! t = Some y /\ f y = 1) as Hl.
    { intros t (u & -> & [Hu Hin]%list_elem_of_filter)%list_elem_of_fmap.
      destruct (Hus u Hin) as (y & Hy & ?). destruct u as [|u]; [done|]. by exists y. }
    specialize (IH Hl).
    assert (length us <= length vs + (if decide (0 ∈ us) then 1 else 0))%nat as Hlen.
    { unfold vs. rewrite length_fmap. clear -Hnd. induction Hnd as [|t us Ht _ IH]; simpl; [lia|].
      case_decide; rewrite filter_cons; repeat case_decide; simpl; set_solver || lia. }
    destruct (decide (0%nat ∈ us)) as [H0|]; [|specialize (Hf x); lia].
    destruct (Hus 0%nat H0) as (y & [= <-] & Hx). lia.
Qed.

Lemma free_nonneg (m : shm) (r : Z) : 0 <= free_connections m r.
Proof. apply (total_bounds (free_at m r)). intros; apply count_bounds. Qed.

(** ** One access preserves the invariant *)

(** [m'] differs from [m], for the protocol, at most in slot [i]. *)
Definition only_slot (i : nat) (m m' : shm) : Prop :=
  forall j, j <> i -> state_at m' j = state_at m j /\
    c_pid (conn_at m' j) = c_pid (conn_at m j) /\
    c_limit_rule (conn_at m' j) = c_limit_rule (conn_at m j).

Lemma free_only_slot (m m' : shm) (i : nat) (r : Z) :
  slot_ok i -> only_slot i m m' ->
  free_connections m' r = free_connections m r - free_at m r i + free_at m' r i.
Proof.
  intros Hi Ho. apply total_change; [apply NoDup_upto|by apply elem_of_upto|].
  intros j Hj. unfold free_at. destruct (Ho j Hj) as (-> & _ & ->). done.
Qed.

(** The change of the segment is matched by the change of what process [t]
    holds. *)
Record balanced (m m' : shm) (gs : list ghost) (g g' : ghost) : Prop := {
  bal_states : length (m_states m') = length (m_states m);
  bal_conns : length (m_connections m') = length (m_connections m);
  bal_lact : length (m_limit_active m') = length (m_limit_active m);
  bal_lback : length (m_limit_backend m') = length (m_limit_backend m);
  bal_active : m_active_connections m' = m_active_connections m + holds_act g' - holds_act g;
  bal_ract r : valid_rule r ->
    rule_active m' r = rule_active m r + holds_ract r g' - holds_ract r g;
  bal_backend r : valid_rule r ->
    rule_backend m' r - free_connections m' r =
    rule_backend m r - free_connections m r
    + (holds_back r g' - holds_back r g) + (holds_over r g' - holds_over r g);
  bal_cap r : valid_rule r ->
    free_connections m' r + holds_back r g' <= free_connections m r + holds_back r g \/
    free_connections m' r + total (holds_back r) gs + holds_back r g' - holds_back r g
      <= l_max_size (limit_at cfg r);
  bal_slots i : slot_ok i -> slot_inv (state_at m' i) (conn_at m' i);
  bal_own i pid rule : g_own g' = Some (i, pid, rule) ->
    slot_ok i /\ busy (state_at m' i) = true /\
    c_pid (conn_at m' i) = pid /\ c_limit_rule (conn_at m' i) = rule /\ rule_or_none rule;
  bal_others i : busy (state_at m i) = true -> (forall p r, g_own g <> Some (i, p, r)) ->
    state_at m' i = state_at m i /\ c_pid (conn_at m' i) = c_pid (conn_at m i) /\
    c_limit_rule (conn_at m' i) = c_limit_rule (conn_at m i);
  bal_new i p r : g_own g' = Some (i, p, r) ->
    (exists p0 r0, g_own g = Some (i, p0, r0)) \/ busy (state_at m i) = false
}.

Lemma balanced_inv (m m' : shm) (gs : list ghost) (t : nat) (g g' : ghost) :
  inv m gs -> gs !! t = Some g -> balanced m m' gs g g' -> inv m' (<[t := g']> gs).
Proof.
  intros I Ht B. pose proof (lookup_lt_Some _ _ _ Ht) as Hlt.
  assert (forall t' h i p r, t <> t' -> gs !! t' = Some h -> g_own h = Some (i, p, r) ->
            forall p0 r0, g_own g <> Some (i, p0, r0)) as Hsep.
  { intros t' h i p r Hne Hh Ho p0 r0 Hg.
    apply Hne. exact (inv_excl _ _ I _ _ _ _ _ _ _ _ _ Ht Hh Hg Ho). }
  assert (forall t' h i p r, t <> t' -> gs !! t' = Some h -> g_own h = Some (i, p, r) ->
            forall p' r', g_own g' <> Some (i, p', r')) as Hsep'.
  { intros t' h i p r Hne Hh Ho p' r' Hg'.
    destruct (bal_new _ _ _ _ _ B _ _ _ Hg') as [(p0 & r0 & Hg)|Hb].
    - by apply (Hsep t' h i p r Hne Hh Ho p0 r0).
    - destruct (inv_own _ _ I _ _ _ _ _ Hh Ho) as (_ & Hbusy & _). congruence. }
  split.
  - rewrite (bal_states _ _ _ _ _ B). apply I.
  - rewrite (bal_conns _ _ _ _ _ B). apply I.
  - rewrite (bal_lact _ _ _ _ _ B). apply I.
  - rewrite (bal_lback _ _ _ _ _ B). apply I.
  - rewrite (bal_active _ _ _ _ _ B), (inv_active _ _ I), (total_insert _ _ _ g g') by done. lia.
  - intros r Hr. rewrite (bal_ract _ _ _ _ _ B r Hr), (inv_ract _ _ I r Hr).
    rewrite (total_insert _ _ _ g g') by done. lia.
  - intros r Hr. pose proof (bal_backend _ _ _ _ _ B r Hr). pose proof (inv_backend _ _ I r Hr).
    rewrite !(total_insert _ _ _ g g') by done. lia.
  - intros r Hr. pose proof (inv_cap _ _ I r Hr).
    rewrite (total_insert _ _ _ g g') by done.
    destruct (bal_cap _ _ _ _ _ B r Hr); lia.
  - apply (bal_slots _ _ _ _ _ B).
  - intros t' h i p r Hh Ho. destruct (decide (t = t')) as [<-|Hne].
    + rewrite list_lookup_insert_eq in Hh by done. simplify_eq. by apply (bal_own _ _ _ _ _ B).
    + rewrite list_lookup_insert_ne in Hh by done.
      destruct (inv_own _ _ I _ _ _ _ _ Hh Ho) as (Hs & Hb & Hp & Hr & Hv).
      destruct (bal_others _ _ _ _ _ B i Hb (Hsep _ _ _ _ _ Hne Hh Ho)) as (-> & -> & ->). done.
  - intros t1 t2 h1 h2 i p1 p2 r1 r2 H1 H2 O1 O2.
    destruct (decide (t = t1)) as [E1|N1], (decide (t = t2)) as [E2|N2]; subst; [done| | |].
    + rewrite list_lookup_insert_eq in H1 by done. rewrite list_lookup_insert_ne in H2 by done.
      simplify_eq. exfalso. by apply (Hsep' _ _ _ _ _ N2 H2 O2 p1 r1).
    + rewrite list_lookup_insert_eq in H2 by done. rewrite list_lookup_insert_ne in H1 by done.
      simplify_eq. exfalso. by apply (Hsep' _ _ _ _ _ N1 H1 O1 p2 r2).
    + rewrite list_lookup_insert_ne in H1, H2 by done.
      exact (inv_excl _ _ I _ _ _ _ _ _ _ _ _ H1 H2 O1 O2).
Qed.

(** *** Accesses outside the protocol *)

Lemma slot_inv_ext (s : slot_state) (c c' : connection) :
  c_pid c' = c_pid c -> c_limit_rule c' = c_limit_rule c -> slot_inv s c -> slot_inv s c'.
Proof. intros Hp Hr. unfold slot_inv. rewrite Hp, Hr. done. Qed.

Lemma inv_same (m m' : shm) (gs : list ghost) : same_protocol m m' -> inv m gs -> inv m' gs.
Proof.
  intros S I.
  assert (forall i, state_at m' i = state_at m i) as Hst
    by (intros; unfold state_at; by rewrite (sp_states _ _ S)).
  assert (forall r, free_connections m' r = free_connections m r) as Hfree.
  { intros r. apply total_ext. intros i _. unfold free_at. by rewrite Hst, (sp_rule _ _ S). }
  split.
  - rewrite (sp_states _ _ S); apply I.
  - rewrite (sp_len _ _ S); apply I.
  - rewrite (sp_lact _ _ S); apply I.
  - rewrite (sp_lback _ _ S); apply I.
  - rewrite (sp_active _ _ S); apply I.
  - intros r Hr. unfold rule_active. rewrite (sp_lact _ _ S). by apply (inv_ract _ _ I).
  - intros r Hr. unfold rule_backend. rewrite (sp_lback _ _ S), Hfree. by apply (inv_backend _ _ I).
  - intros r Hr. rewrite Hfree. by apply (inv_cap _ _ I).
  - intros i Hi. rewrite Hst. apply (slot_inv_ext _ (conn_at m i)); [apply S|apply S|by apply I].
  - intros t g i p r Ht Hg. rewrite Hst, (sp_pid _ _ S), (sp_rule _ _ S). by apply (inv_own _ _ I t g).
  - apply I.
Qed.

(** *** Counters *)

Lemma total_delta {A} (f : A -> Z) (l : list A) (t : nat) (x y : A) :
  (forall z, 0 <= f z <= 1) -> l !! t = Some x ->
  0 <= total f l - f x + f y <= Z.of_nat (length l).
Proof.
  intros Hf Ht. rewrite <- (total_insert f l t x y) by done.
  rewrite <- (length_insert l t y). by apply total_bounds.
Qed.

(** [g'] differs from [g] in counters only; the slots are untouched. *)
Lemma balanced_counters (m m' : shm) (gs : list ghost) (t : nat) (g g' : ghost) :
  inv m gs -> gs !! t = Some g ->
  m_states m' = m_states m -> m_connections m' = m_connections m ->
  length (m_limit_active m') = length (m_limit_active m) ->
  length (m_limit_backend m') = length (m_limit_backend m) ->
  g_own g' = g_own g ->
  m_active_connections m' = m_active_connections m + holds_act g' - holds_act g ->
  (forall r, valid_rule r -> rule_active m' r = rule_active m r + holds_ract r g' - holds_ract r g) ->
  (forall r, valid_rule r ->
     rule_backend m' r = rule_backend m r
       + (holds_back r g' - holds_back r g) + (holds_over r g' - holds_over r g)) ->
  (forall r, valid_rule r -> holds_back r g' <= holds_back r g \/
     free_connections m r + total (holds_back r) gs + holds_back r g' - holds_back r g
       <= l_max_size (limit_at cfg r)) ->
  balanced m m' gs g g'.
Proof.
  intros I Ht Hst Hcn Hla Hlb Hown Ha Hra Hb Hc.
  assert (forall i, state_at m' i = state_at m i) as Es by (intros; unfold state_at; by rewrite Hst).
  assert (forall i, conn_at m' i = conn_at m i) as Ec by (intros; unfold conn_at; by rewrite Hcn).
  assert (forall r, free_connections m' r = free_connections m r) as Ef.
  { intros r. apply total_ext. intros i _. unfold free_at. by rewrite Es, Ec. }
  split; rewrite ?Hst, ?Hcn; try done.
  - intros r Hr. rewrite Ef, (Hb r Hr). lia.
  - intros r Hr. rewrite Ef. destruct (Hc r Hr); [left|right]; lia.
  - intros i Hi. rewrite Es, Ec. by apply I.
  - intros i p r Hg. rewrite Hown in Hg. rewrite Es, Ec. by apply (inv_own _ _ I t g).
  - intros i _ _. by rewrite Es, Ec.
  - intros i p r Hg. left. rewrite Hown in Hg. eauto.
Qed.

Lemma rule_lookup_upd (l : list Z) (f : Z -> Z) (r r' : Z) :
  length l = length (limits cfg) -> valid_rule r -> valid_rule r' ->
  list_upd f (Z.to_nat r) l !!! Z.to_nat r' =
    if decide (r = r') then f (l !!! Z.to_nat r) else l !!! Z.to_nat r'.
Proof.
  unfold valid_rule, number_of_limits, list_upd. intros Hl Hr Hr'. case_decide as E.
  - subst. rewrite lookup_total_insert_eq; [done|lia].
  - rewrite lookup_total_insert_ne; [done|lia].
Qed.

Lemma length_list_upd `{Inhabited A} (f : A -> A) (i : nat) (l : list A) :
  length (list_upd f i l) = length l.
Proof. apply length_insert. Qed.

Lemma step_active (m : shm) (gs : list ghost) (t : nat) (g g' : ghost) (d : Z) :
  inv m gs -> few (length gs) -> gs !! t = Some g ->
  g_own g' = g_own g -> g_back g' = g_back g -> g_over g' = g_over g -> g_ract g' = g_ract g ->
  d = holds_act g' - holds_act g -> inv (add_active d m) (<[t := g']> gs).
Proof.
  intros I [Hf _] Ht Ho Hb Hv Hr ->. apply (balanced_inv m _ gs t g g' I Ht).
  pose proof (total_delta holds_act gs t g g' (fun z => count_bounds _) Ht).
  eapply (balanced_counters _ _ _ t); simpl; eauto.
  - rewrite (inv_active _ _ I), wrapu_id; unfold in_u; lia.
  - intros r _. unfold rule_active, holds_ract; simpl. rewrite Hr. lia.
  - intros r _. unfold rule_backend, holds_back, holds_over; simpl. rewrite Hb, Hv. lia.
  - intros r _. left. unfold holds_back. rewrite Hb. lia.
Qed.

Lemma step_rule_active (m : shm) (gs : list ghost) (t : nat) (g g' : ghost) (r d : Z) :
  inv m gs -> few (length gs) -> gs !! t = Some g -> valid_rule r ->
  g_own g' = g_own g -> g_back g' = g_back g -> g_over g' = g_over g -> g_act g' = g_act g ->
  d = holds_ract r g' - holds_ract r g ->
  (forall r', r' <> r -> holds_ract r' g' = holds_ract r' g) ->
  inv (add_rule_active r d m) (<[t := g']> gs).
Proof.
  intros I [Hf _] Ht Hr Ho Hb Hv Ha -> Hother. apply (balanced_inv m _ gs t g g' I Ht).
  eapply (balanced_counters _ _ _ t); simpl; eauto using length_list_upd.
  - unfold holds_act. rewrite Ha. lia.
  - intros r' Hr'. unfold rule_active; simpl.
    rewrite rule_lookup_upd by (done || apply I). case_decide as E; [subst r'|rewrite Hother by done; lia].
    pose proof (total_delta (holds_ract r) gs t g g' (fun z => count_bounds _) Ht).
    fold (rule_active m r). rewrite (inv_ract _ _ I r Hr), wrapu_id; unfold in_u; lia.
  - intros r' _. unfold rule_backend, holds_back, holds_over; simpl. rewrite Hb, Hv. lia.
  - intros r' _. left. unfold holds_back. rewrite Hb. lia.
Qed.

Lemma step_rule_backend (m : shm) (gs : list ghost) (t : nat) (g g' : ghost) (r d : Z) :
  inv m gs -> few (length gs) -> gs !! t = Some g -> valid_rule r ->
  g_own g' = g_own g -> g_ract g' = g_ract g -> g_act g' = g_act g ->
  d = (holds_back r g' - holds_back r g) + (holds_over r g' - holds_over r g) ->
  (forall r', r' <> r -> holds_back r' g' = holds_back r' g /\ holds_over r' g' = holds_over r' g) ->
  (holds_back r g' <= holds_back r g \/
   (rule_backend m r < l_max_size (limit_at cfg r) /\ holds_over r g' = holds_over r g)) ->
  inv (add_rule_backend r d m) (<[t := g']> gs).
Proof.
  intros I [_ Hf] Ht Hr Ho Hra Ha -> Hother Hgrant. apply (balanced_inv m _ gs t g g' I Ht).
  pose proof (total_delta (holds_back r) gs t g g' (fun z => count_bounds _) Ht).
  pose proof (total_delta (holds_over r) gs t g g' (fun z => count_bounds _) Ht).
  pose proof (count_bounds (bool_decide (g_back g' = Some r))) as Hb'. fold (holds_back r g') in Hb'.
  pose proof (count_bounds (bool_decide (g_back g = Some r))) as Hb. fold (holds_back r g) in Hb.
  pose proof (total_bounds (holds_over r) gs (fun z => count_bounds _)).
  pose proof (free_nonneg m r). pose proof (inv_cap _ _ I r Hr). pose proof (inv_backend _ _ I r Hr).
  specialize (Hf r Hr).
  eapply (balanced_counters _ _ _ t); simpl; eauto using length_list_upd.
  - unfold holds_act. rewrite Ha. lia.
  - intros r' _. unfold rule_active, holds_ract; simpl. rewrite Hra. lia.
  - intros r' Hr'. unfold rule_backend; simpl.
    rewrite rule_lookup_upd by (done || apply I). case_decide as E; [subst r'|destruct (Hother r'); [done|lia]].
    fold (rule_backend m r). rewrite wrapu_id; unfold in_u; lia.
  - intros r' Hr'. destruct (decide (r' = r)) as [->|Hne]; [|destruct (Hother r' Hne); left; lia].
    destruct Hgrant as [|[Hlt _]]; [by left|right; lia].
Qed.

(** *** Slots *)

(** A process changes the slot [i], which it owns or just takes; the counters
    stay. *)
Lemma step_slot (m m' : shm) (gs : list ghost) (t : nat) (g g' : ghost) (i : nat) :
  inv m gs -> gs !! t = Some g -> slot_ok i -> only_slot i m m' ->
  length (m_states m') = length (m_states m) ->
  length (m_connections m') = length (m_connections m) ->
  m_active_connections m' = m_active_connections m ->
  m_limit_active m' = m_limit_active m -> m_limit_backend m' = m_limit_backend m ->
  g_over g' = g_over g -> g_act g' = g_act g -> g_ract g' = g_ract g ->
  (forall r, valid_rule r -> free_at m' r i + holds_back r g' = free_at m r i + holds_back r g) ->
  slot_inv (state_at m' i) (conn_at m' i) ->
  (forall j p r, g_own g' = Some (j, p, r) ->
     j = i /\ busy (state_at m' i) = true /\ c_pid (conn_at m' i) = p /\
     c_limit_rule (conn_at m' i) = r /\ rule_or_none r) ->
  ((exists p r, g_own g = Some (i, p, r)) \/ busy (state_at m i) = false) ->
  inv m' (<[t := g']> gs).
Proof.
  intros I Ht Hi Ho Hls Hlc Ha Hla Hlb Hov Hac Hra Hfree Hsi Hown Hnew.
  apply (balanced_inv m _ gs t g g' I Ht). split; rewrite ?Hla, ?Hlb; try done.
  - unfold holds_act. rewrite Hac. lia.
  - intros r _. unfold rule_active, holds_ract. rewrite Hla, Hra. lia.
  - intros r Hr. unfold rule_backend, holds_over. rewrite Hlb, Hov.
    rewrite (free_only_slot m m' i r) by done. specialize (Hfree r Hr). lia.
  - intros r Hr. left. rewrite (free_only_slot m m' i r) by done. specialize (Hfree r Hr). lia.
  - intros j Hj. destruct (decide (j = i)) as [->|Hne]; [done|].
    destruct (Ho j Hne) as (-> & Hp & Hr). apply (slot_inv_ext _ (conn_at m j)); [done|done|by apply I].
  - intros j p r Hg. destruct (Hown j p r Hg) as (-> & Hx). done.
  - intros j Hb Hn. apply Ho. intros ->.
    destruct Hnew as [(p & r & Hg)|Hnb]; [by apply (Hn p r)|congruence].
  - intros j p r Hg. destruct (Hown j p r Hg) as (-> & _). done.
Qed.

Lemma state_upd_eq (m : shm) (gs : list ghost) (i : nat) (s : slot_state) :
  inv m gs -> slot_ok i -> state_at (upd_state i s m) i = s.
Proof.
  intros I Hi. unfold state_at; simpl. apply lookup_total_insert_eq.
  pose proof (inv_states _ _ I). unfold slot_ok in Hi. lia.
Qed.

Lemma only_slot_state (i : nat) (s : slot_state) (m : shm) : only_slot i m (upd_state i s m).
Proof.
  intros j Hj. unfold state_at, conn_at; simpl. by rewrite lookup_total_insert_ne.
Qed.

Lemma conn_upd_eq (m : shm) (gs : list ghost) (i : nat) (f : connection -> connection) :
  inv m gs -> slot_ok i -> conn_at (upd_conn i f m) i = f (conn_at m i).
Proof.
  intros I Hi. unfold conn_at; simpl. apply lookup_total_insert_eq.
  pose proof (inv_conns _ _ I). unfold slot_ok in Hi. lia.
Qed.

Lemma only_slot_conn (i : nat) (f : connection -> connection) (m : shm) :
  only_slot i m (upd_conn i f m).
Proof.
  intros j Hj. unfold state_at, conn_at; simpl. unfold list_upd. by rewrite lookup_total_insert_ne.
Qed.

Lemma free_at_busy (m : shm) (r : Z) (i : nat) : busy (state_at m i) = true -> free_at m r i = 0.
Proof. unfold free_at. by destruct (state_at m i). Qed.

Lemma count_tok (rule r : Z) :
  valid_rule r -> count (bool_decide (tok rule = Some r)) = count (rule =? r).
Proof.
  intros Hr. f_equal. apply Bool.eq_iff_eq_true. rewrite bool_decide_eq_true, Z.eqb_eq.
  unfold tok, valid_rule in *. case_if; bool_prop.
  - split; [by intros [= ->]|by intros ->].
  - split; [done|lia].
Qed.

Lemma free_at_free (m : shm) (r : Z) (i : nat) :
  state_at m i = STATE_FREE -> free_at m r i = count (c_limit_rule (conn_at m i) =? r).
Proof. intros E. unfold free_at. by rewrite E. Qed.

Lemma free_at_notinit (m : shm) (r : Z) (i : nat) : state_at m i = STATE_NOTINIT -> free_at m r i = 0.
Proof. intros E. unfold free_at. by rewrite E. Qed.

(** The state of an owned slot changes to a state of its own. *)
Lemma step_store_busy (m : shm) (gs : list ghost) (t : nat) (g : ghost) (i : nat) (p r : Z) (s : slot_state) :
  inv m gs -> gs !! t = Some g -> g_own g = Some (i, p, r) -> busy s = true ->
  inv (upd_state i s m) (<[t := g]> gs).
Proof.
  intros I Ht Hg Hs. destruct (inv_own _ _ I t g i p r Ht Hg) as (Hi & Hb & Hp & Hr & Hv).
  eapply (step_slot m _ gs t g g i); eauto using only_slot_state; simpl; try done.
  - by rewrite length_insert.
  - intros r' _. rewrite !free_at_busy by (rewrite ?(state_upd_eq _ gs) by done; done). done.
  - rewrite (state_upd_eq _ gs) by done. by destruct s.
  - intros j p' r' Hg'. rewrite Hg in Hg'. simplify_eq. by rewrite (state_upd_eq _ gs) by done.
Qed.

(** An owned slot goes back to the pool. *)
Lemma step_release_free (m : shm) (gs : list ghost) (t : nat) (g : ghost) (i : nat) (r : Z) :
  inv m gs -> gs !! t = Some g -> g_own g = Some (i, -1, r) -> g_back g = tok r ->
  inv (upd_state i STATE_FREE m) (<[t := Ghost None None (g_over g) (g_act g) (g_ract g)]> gs).
Proof.
  intros I Ht Hg Hbk. destruct (inv_own _ _ I t g i _ r Ht Hg) as (Hi & Hb & Hp & Hr & Hv).
  eapply (step_slot m _ gs t g _ i); eauto using only_slot_state; simpl; try done.
  - by rewrite length_insert.
  - intros r' Hr'. rewrite (free_at_busy m) by done.
    rewrite free_at_free by by rewrite (state_upd_eq _ gs).
    unfold holds_back. rewrite Hbk, count_tok by done. simpl.
    unfold conn_at in *; simpl. rewrite Hr. lia.
  - rewrite (state_upd_eq _ gs) by done. unfold conn_at in *; simpl. by rewrite Hr.
Qed.

Lemma step_release_notinit (m : shm) (gs : list ghost) (t : nat) (g : ghost) (i : nat) :
  inv m gs -> gs !! t = Some g -> g_own g = Some (i, -1, -1) ->
  inv (upd_state i STATE_NOTINIT m) (<[t := Ghost None (g_back g) (g_over g) (g_act g) (g_ract g)]> gs).
Proof.
  intros I Ht Hg. destruct (inv_own _ _ I t g i _ _ Ht Hg) as (Hi & Hb & Hp & Hr & Hv).
  eapply (step_slot m _ gs t g _ i); eauto using only_slot_state; simpl; try done.
  - by rewrite length_insert.
  - intros r' Hr'. rewrite (free_at_busy m) by done.
    rewrite free_at_notinit by by rewrite (state_upd_eq _ gs). done.
  - rewrite (state_upd_eq _ gs) by done. done.
Qed.

(** A process takes an idle connection, or an empty slot, out of the pool. *)
Lemma step_acquire_free (m : shm) (gs : list ghost) (t : nat) (g : ghost) (i : nat) (s : slot_state) :
  inv m gs -> gs !! t = Some g -> g_own g = None -> g_back g = None ->
  slot_ok i -> busy s = true -> state_at m i = STATE_FREE ->
  exists rule, rule_or_none rule /\
    inv (upd_state i s m)
      (<[t := Ghost (Some (i, -1, rule)) (tok rule) (g_over g) (g_act g) (g_ract g)]> gs).
Proof.
  intros I Ht Hg Hbk Hi Hs Hst. pose proof (inv_slots _ _ I i Hi) as Hsi.
  rewrite Hst in Hsi. destruct Hsi as [Hp Hv].
  exists (c_limit_rule (conn_at m i)). split; [done|].
  eapply (step_slot m _ gs t g _ i); eauto using only_slot_state; simpl; try done.
  - by rewrite length_insert.
  - intros r' Hr'. rewrite (free_at_free m) by done.
    rewrite free_at_busy by by rewrite (state_upd_eq _ gs).
    unfold holds_back. simpl. rewrite Hbk, count_tok by done. simpl. lia.
  - rewrite (state_upd_eq _ gs) by done. by destruct s.
  - intros j p r [= <- <- <-]. by rewrite (state_upd_eq _ gs) by done.
  - right. by rewrite Hst.
Qed.

Lemma step_acquire_notinit (m : shm) (gs : list ghost) (t : nat) (g : ghost) (i : nat) (s : slot_state) :
  inv m gs -> gs !! t = Some g -> g_own g = None ->
  slot_ok i -> busy s = true -> state_at m i = STATE_NOTINIT ->
  inv (upd_state i s m)
    (<[t := Ghost (Some (i, -1, -1)) (g_back g) (g_over g) (g_act g) (g_ract g)]> gs).
Proof.
  intros I Ht Hg Hi Hs Hst. pose proof (inv_slots _ _ I i Hi) as Hsi.
  rewrite Hst in Hsi. destruct Hsi as [Hp Hv].
  eapply (step_slot m _ gs t g _ i); eauto using only_slot_state; simpl; try done.
  - by rewrite length_insert.
  - intros r' Hr'. rewrite (free_at_notinit m) by done.
    rewrite free_at_busy by by rewrite (state_upd_eq _ gs). done.
  - rewrite (state_upd_eq _ gs) by done. by destruct s.
  - intros j p r [= <- <- <-]. rewrite (state_upd_eq _ gs) by done.
    split_and!; try done. unfold rule_or_none, number_of_limits. lia.
  - right. by rewrite Hst.
Qed.

(** A process writes the connection of a slot it owns. *)
Lemma step_setconn (m : shm) (gs : list ghost) (t : nat) (g : ghost) (i : nat) (p r p' r' : Z)
  (f : connection -> connection) :
  inv m gs -> gs !! t = Some g -> g_own g = Some (i, p, r) ->
  (forall c, c_pid c = p -> c_limit_rule c = r -> c_pid (f c) = p' /\ c_limit_rule (f c) = r') ->
  rule_or_none r' ->
  inv (upd_conn i f m)
    (<[t := Ghost (Some (i, p', r')) (g_back g) (g_over g) (g_act g) (g_ract g)]> gs).
Proof.
  intros I Ht Hg Hf Hv'. destruct (inv_own _ _ I t g i p r Ht Hg) as (Hi & Hb & Hp & Hr & Hv).
  destruct (Hf (conn_at m i) Hp Hr) as [Hp' Hr'].
  assert (state_at (upd_conn i f m) i = state_at m i) as Es by done.
  eapply (step_slot m _ gs t g _ i); eauto using only_slot_conn; simpl; try done.
  - by rewrite length_list_upd.
  - intros r0 _. rewrite !free_at_busy by (rewrite ?Es; done). done.
  - rewrite Es. by destruct (state_at m i).
  - intros j q s [= <- <- <-]. by rewrite Es, (conn_upd_eq _ gs).
Qed.

(** *** Soundness of the logic *)

Lemma holds_other (o : option Z) (r r' : Z) :
  r' <> r -> o = None \/ o = Some r ->
  count (bool_decide (o = Some r')) = 0.
Proof.
  intros Hne Ho. rewrite bool_decide_eq_false_2; [done|].
  destruct Ho as [->| ->]; congruence.
Qed.

(** The tokens of a process are for rules of the table, and a process that is about to
    undo a reservation owns no slot. *)
Definition tokens_ok (g : ghost) : Prop :=
  (forall r, g_back g = Some r -> valid_rule r) /\
  (forall r, g_over g = Some r -> valid_rule r) /\
  (forall r, g_ract g = Some r -> valid_rule r) /\
  (g_own g = None \/ g_over g = None).

Lemma tok_valid (rule r : Z) : rule_or_none rule -> tok rule = Some r -> valid_rule r.
Proof.
  unfold tok, rule_or_none, valid_rule. intros Hv. case_if; [|done]. intros [= <-]. bool_prop. lia.
Qed.

Ltac tokens :=
  unfold tokens_ok; simpl; split_and!; try done; try (by auto);
  try match goal with
      | K : _ \/ g_over _ = None |- _ \/ _ => destruct K; [congruence|by right]
      end;
  try (intros ?; try by intros [= <-]).

(** An access that [vc] allows keeps the invariant, with what the process holds after it. *)
Definition preserves {R} (o : op R) : Prop :=
  forall (m m' : shm) (gs : list ghost) (t : nat) (g : ghost) (Psi : R -> ghost -> Prop) (r : R)
    (answer : forall Q, syscall Q -> Q),
    inv m gs -> few (length gs) -> gs !! t = Some g -> tokens_ok g ->
    vc o g Psi -> exec_shm o answer m = (r, m') ->
    exists g', Psi r g' /\ inv m' (<[t := g']> gs) /\ tokens_ok g'.

Ltac open_preserves :=
  intros m m' gs t g Psi r answer I F Ht (Kb & Kv & Kr & Ko); cbn [vc exec_shm]; intros H.

Lemma preserves_active (d : Z) : preserves (FetchAddActive d).
Proof.
  open_preserves. intros [= <- <-]. destruct H as [(-> & Ha & H)|(-> & Ha & H)]; (eexists; split; [apply H|]);
    (split; [|tokens]); eapply step_active; eauto; unfold holds_act; rewrite Ha; done.
Qed.

Lemma preserves_rule_active (rule d : Z) : preserves (FetchAddRuleActive rule d).
Proof.
  open_preserves. intros [= <- <-]. destruct H as [(-> & Hr & Ha & H)|(-> & Ha & H)];
    (eexists; split; [apply H|]); (split; [|tokens]);
    (eapply step_rule_active; eauto; unfold holds_ract; simpl; rewrite ?Ha;
     [by rewrite bool_decide_eq_true_2|intros r' Hne; by rewrite !(holds_other _ rule) by auto]).
Qed.

Lemma preserves_rule_backend (rule d : Z) : preserves (FetchAddRuleBackend rule d).
Proof.
  open_preserves. intros [= <- <-].
  destruct H as [(-> & Hr & Hn & Hb & Ho & Hlt & Hge)|[(-> & Hb & H)|(-> & Ho & H)]].
  - destruct (Z.lt_ge_cases (rule_backend m rule) (l_max_size (limit_at cfg rule))) as [L|L];
      [exists (Ghost (g_own g) (Some rule) None (g_act g) (g_ract g)); split; [by apply Hlt|]
      |exists (Ghost (g_own g) None (Some rule) (g_act g) (g_ract g)); split; [by apply Hge|]];
      (split; [|tokens]);
      (eapply step_rule_backend; eauto; unfold holds_back, holds_over; simpl; rewrite ?Hb, ?Ho;
       [by rewrite (bool_decide_eq_true_2 (Some rule = Some rule))
       |intros r' Hne; by rewrite !(holds_other _ rule) by auto|]).
    + right. done.
    + left. done.
  - eexists; split; [apply H|]. split; [|tokens].
    eapply step_rule_backend; eauto; unfold holds_back, holds_over; simpl; rewrite ?Hb.
    + rewrite bool_decide_eq_true_2 by done. simpl. lia.
    + intros r' Hne; by rewrite !(holds_other _ rule) by auto.
    + left. apply count_bounds.
  - eexists; split; [apply H|]. split; [|tokens].
    eapply step_rule_backend; eauto; unfold holds_back, holds_over; simpl; rewrite ?Ho.
    + rewrite (bool_decide_eq_true_2 (Some rule = Some rule)) by done. simpl. lia.
    + intros r' Hne; split; [done|]. by rewrite !(holds_other _ rule) by auto.
    + by left.
Qed.

Lemma preserves_store (i : nat) (s : slot_state) : preserves (StoreState i s).
Proof.
  open_preserves. intros [= <- <-]. destruct H as (pid & rule & Hg & H).
  destruct s; try by (exists g; split; [done|]; split; [eapply step_store_busy; eauto|tokens]).
  - destruct H as (-> & -> & H). eexists; split; [apply H|]. split; [by eapply step_release_notinit|tokens].
  - destruct H as (-> & Hb & H). eexists; split; [apply H|]. split; [by eapply step_release_free|tokens].
Qed.

Lemma preserves_cas (i : nat) (expected desired : slot_state) : preserves (CasState i expected desired).
Proof.
  open_preserves. destruct (g_own g) as [[[j pid] rule]|] eqn:Hg.
  - destruct H as (<- & He & Hf & Hd). case_decide as Hst; intros [= <- <-];
      [|exists g; rewrite list_insert_id by done; split; [done|]; split; [done|tokens]].
    destruct desired; try done;
      try by (exists g; split; [done|]; split; [eapply step_store_busy; eauto|tokens]).
    destruct Hd as (-> & Hb & Hd). eexists; split; [apply Hd|].
    split; [by eapply step_release_free|tokens].
  - destruct H as (Hi & Hd & Hno & Hf & He). case_decide as Hst; intros [= <- <-];
      [|exists g; rewrite list_insert_id by done; split; [done|]; split; [done|tokens]].
    destruct expected; try done.
    + eexists; split; [apply He|]. split; [by apply step_acquire_notinit|tokens].
    + destruct He as (Hb & He).
      destruct (step_acquire_free m gs t g i desired) as (rule & Hv & I'); try done.
      eexists; split; [by apply (He rule)|]. split; [done|]. tokens. by apply tok_valid.
Qed.

Lemma vc_sound {R} (o : op R) : preserves o.
Proof.
  destruct o; try (by apply preserves_active || apply preserves_rule_active || apply preserves_rule_backend
    || apply preserves_store || apply preserves_cas).
  all: intros m m' gs t g Psi r answer I F Ht K; pose proof K as (Kb & Kv & Kr & Ko);
    cbn [vc exec_shm]; intros H.
  all: assert (forall v, Psi v g -> (v, m) = (r, m') ->
      exists g', Psi r g' /\ inv m' (<[t := g']> gs) /\ tokens_ok g') as Hread
    by (intros v HP [= -> ->]; exists g; rewrite list_insert_id by done; by split_and!).
  all: assert (forall v m2, same_protocol m m2 -> Psi v g -> (v, m2) = (r, m') ->
      exists g', Psi r g' /\ inv m' (<[t := g']> gs) /\ tokens_ok g') as Hsame
    by (intros v m2 S HP [= -> ->]; exists g; rewrite list_insert_id by done;
        split; [done|]; split; [by eapply inv_same|done]).
  all: try (by eapply Hread; [apply H; by auto|]); try (eapply Hsame; [|apply H]; by split).
  - (* GetConn *)
    intros [= <- <-]. exists g. rewrite list_insert_id by done.
    split; [|split; [done|tokens]]. apply H. intros pid rule Hg.
    destruct (inv_own _ _ I t g i pid rule Ht Hg) as (_ & _ & Hp & Hr & _). done.
  - (* SetConn *)
    intros [= <- <-]. destruct H as (pid & rule & pid' & rule' & Hg & Hf & Hv & H).
    eexists; split; [apply H|]. split; [by eapply step_setconn|tokens].
  - (* CasServer *)
    case_decide; intros E; [eapply Hsame; [|apply H|exact E]; by split|by eapply Hread; [apply H|]].
  - (* SetServerIdentifier *)
    eapply Hsame; [|apply H]. unfold upd_server_identifier. by destruct (0 <? version); split.
Qed.

(** A step of a process that respects the protocol keeps the system invariant. *)
Definition system_ok (s : list (prog unit) * shm) : Prop :=
  exists gs, length gs = length s.1 /\ few (length gs) /\ inv s.2 gs /\
    (forall t g, gs !! t = Some g -> tokens_ok g) /\
    forall t p g, s.1 !! t = Some p -> gs !! t = Some g -> wpg g p (fun _ g' => g' = idle).

Lemma step_ok (s s' : list (prog unit) * shm) : step s s' -> system_ok s -> system_ok s'.
Proof.
  intros St (gs & Hl & F & I & K & W). destruct St as [ts m t p p' m' answer Hp Hs|ts m m' S]; simpl in *.
  - destruct (lookup_lt_is_Some_2 gs t) as [g Hg].
    { rewrite Hl. by eapply lookup_lt_Some. }
    pose proof (W t p g Hp Hg) as Hw. destruct p as [|R o k]; [done|]. simpl in Hs, Hw.
    destruct (exec_shm o answer m) as [r m1] eqn:E. simplify_eq.
    destruct (vc_sound o m m' gs t g _ r answer I F Hg (K _ _ Hg) Hw E) as (g' & Hw' & I' & K').
    exists (<[t := g']> gs). simpl. rewrite !length_insert.
    split; [done|]. split; [done|]. split; [done|]. split.
    + intros t2 h Hh. destruct (decide (t = t2)) as [<-|Hne].
      * rewrite list_lookup_insert_eq in Hh by (by eapply lookup_lt_Some). by simplify_eq.
      * rewrite list_lookup_insert_ne in Hh by done. by eapply K.
    + intros t2 q h Hq Hh. simpl in Hq. destruct (decide (t = t2)) as [<-|Hne].
      * rewrite list_lookup_insert_eq in Hh by (by eapply lookup_lt_Some).
        rewrite list_lookup_insert_eq in Hq by (by eapply lookup_lt_Some). by simplify_eq.
      * rewrite list_lookup_insert_ne in Hh by done.
        rewrite list_lookup_insert_ne in Hq by done. by eapply W.
  - exists gs. split; [done|]. split; [done|]. split; [by eapply inv_same|done].
Qed.

Lemma reachable_ok (s s' : list (prog unit) * shm) : rtc step s s' -> system_ok s -> system_ok s'.
Proof. induction 1; eauto using step_ok. Qed.

(** ** Rules for programs *)

Lemma wpg_bind {A B} (g : ghost) (p : prog A) (f : A -> prog B) (Q : B -> ghost -> Prop) :
  wpg g (bind p f) Q <-> wpg g p (fun a g' => wpg g' (f a) Q).
Proof.
  revert g; induction p as [a|R o k IH]; intros g; [done|]. cbn [bind wpg].
  destruct o; cbn [vc]; try (by setoid_rewrite IH).
  - destruct s; by setoid_rewrite IH.
  - destruct (g_own g) as [[[j pid] rule]|]; [destruct desired|destruct expected]; by setoid_rewrite IH.
Qed.

Lemma vc_mono {R} (o : op R) (g : ghost) (P Q : R -> ghost -> Prop) :
  (forall r g', P r g' -> Q r g') -> vc o g P -> vc o g Q.
Proof.
  intros HPQ. destruct o; cbn [vc]; try (by eauto); try naive_solver.
  - destruct s; naive_solver.
  - destruct (g_own g) as [[[j pid] rule]|]; [destruct desired|destruct expected]; naive_solver.
Qed.

Lemma wpg_mono {A} (g : ghost) (p : prog A) (P Q : A -> ghost -> Prop) :
  (forall a g', P a g' -> Q a g') -> wpg g p P -> wpg g p Q.
Proof.
  intros HPQ. revert g; induction p as [a|R o k IH]; intros g; cbn [wpg]; [by auto|].
  apply vc_mono. intros r g'. apply IH.
Qed.

(** Accesses that do not belong to the protocol are allowed to everyone. *)
Definition neutral_op {R} (o : op R) : Prop :=
  match o with
  | FetchAddActive _ | FetchAddRuleActive _ _ | FetchAddRuleBackend _ _
  | StoreState _ _ | CasState _ _ _ | SetConn _ _ => False
  | _ => True
  end.

Fixpoint neutral {A} (p : prog A) : Prop :=
  match p with
  | Ret _ => True
  | Vis o k => neutral_op o /\ forall r, neutral (k r)
  end.

Lemma neutral_wpg {A} (g : ghost) (p : prog A) (Q : A -> ghost -> Prop) :
  neutral p -> (forall a, Q a g) -> wpg g p Q.
Proof.
  intros N HQ. induction p as [a|R o k IH]; [apply HQ|]. destruct N as [No Nk].
  destruct o; try done; cbn [wpg vc]; intros; apply IH, Nk.
Qed.

Lemma neutral_bind {A B} (p : prog A) (f : A -> prog B) :
  neutral p -> (forall a, neutral (f a)) -> neutral (bind p f).
Proof.
  intros N Nf. induction p as [a|R o k IH]; [apply Nf|]. destruct N as [No Nk].
  split; [done|]. intros r. apply IH, Nk.
Qed.

Lemma neutral_for_until {A B} (l : list A) (body : A -> prog (option B)) :
  (forall x, neutral (body x)) -> neutral (for_until l body).
Proof.
  intros N. induction l as [|x l IH]; [done|]. apply neutral_bind; [apply N|]. by intros [].
Qed.

Lemma neutral_for_each {A S} (l : list A) (s : S) (body : A -> S -> prog S) :
  (forall x s, neutral (body x s)) -> neutral (for_each l s body).
Proof.
  intros N. revert s; induction l as [|x l IH]; intros s; [done|]. apply neutral_bind; [apply N|]. done.
Qed.
End conc.

#[export] Hint Resolve neutral_for_until neutral_for_each : pgagroal.

(** Proves [neutral] of a program without protocol accesses. *)
Ltac solve_neutral :=
  repeat first
    [ done
    | apply neutral_bind; [|intros ?]
    | apply neutral_for_until; intros ?
    | apply neutral_for_each; intros ? ?
    | match goal with
      | |- neutral (act _) => split; [exact I|done]
      | |- neutral (sys _) => split; [exact I|done]
      | |- neutral (if ?b then _ else _) => destruct b
      | |- neutral (match ?x with _ => _ end) => destruct x
      end
    | progress cbv zeta ].

Lemma neutral_find_server (f : server_state -> bool) (l : list nat) : neutral (find_server f l).
Proof. unfold find_server. solve_neutral. Qed.

Lemma neutral_get_primary (cfg : config) : neutral (get_primary cfg).
Proof. unfold get_primary. repeat (solve_neutral; try apply neutral_find_server). Qed.

Lemma neutral_notify (cfg : config) (i j : nat) : neutral (notify_standbys cfg i j).
Proof. unfold notify_standbys. solve_neutral. Qed.

Lemma neutral_failover (cfg : config) (i : nat) : neutral (do_failover cfg i).
Proof.
  unfold do_failover. repeat (solve_neutral; try apply neutral_find_server; try apply neutral_notify).
Qed.

Lemma neutral_force_failover (cfg : config) (i : nat) : neutral (server_force_failover cfg i).
Proof. unfold server_force_failover. repeat (solve_neutral; try apply neutral_failover). Qed.

Lemma neutral_graceful (self : process) : neutral (check_graceful_shutdown_trigger self).
Proof. unfold check_graceful_shutdown_trigger. solve_neutral. Qed.

Lemma neutral_prefill (cfg : config) (initial : bool) : neutral (prefill_if_can_fork cfg initial).
Proof. unfold prefill_if_can_fork. repeat (solve_neutral; try apply neutral_get_primary). Qed.

Lemma neutral_holds (self : process) (i : nat) : neutral (holds_descriptor self i).
Proof. unfold holds_descriptor. solve_neutral. Qed.

Lemma neutral_fetch (self : process) (i : nat) : neutral (fetch_descriptor self i).
Proof. unfold fetch_descriptor, fetch_error. solve_neutral. Qed.

Lemma neutral_send (id : transfer_id) (payload : Z -> syscall bool) : neutral (send_request id payload).
Proof. unfold send_request. solve_neutral. Qed.

#[export] Hint Resolve neutral_find_server neutral_get_primary neutral_force_failover neutral_graceful
  neutral_prefill neutral_holds neutral_fetch neutral_send : pgagroal.
