(* ===== verification/PoolSafe.v ===== *)
(** * The pool operations respect the ownership protocol

    Each operation of [Pool] is checked against the logic of [PoolConc]; the
    theorems then speak about every interleaving of any number of workers. *)

From S2P Require Import Prelude Config Effects Server Pool PoolFacts PoolConc.

Local Open Scope Z_scope.
Local Open Scope prog_scope.

Section safe.
Context (cfg : config) (self : process).
Context (Hpid : p_pid self <> -1).

Abbreviation wpg := (wpg cfg).
Abbreviation rule_or_none := (rule_or_none cfg).

(** ** Rules of use *)

Lemma wpg_act {R} (o : op R) (g : ghost) (Q : R -> ghost -> Prop) :
  vc cfg o g Q -> wpg g (act o) Q.
Proof. done. Qed.

Lemma wpg_sys {R} (c : syscall R) (g : ghost) (Q : R -> ghost -> Prop) :
  (forall r, Q r g) -> wpg g (sys c) Q.
Proof. done. Qed.

Lemma wpg_neutral_bind {A B} (p : prog A) (f : A -> prog B) (g : ghost) (Q : B -> ghost -> Prop) :
  neutral p -> (forall a, wpg g (f a) Q) -> wpg g (bind p f) Q.
Proof. intros N H. apply wpg_bind, neutral_wpg; done. Qed.

Lemma tok_some (r : Z) : 0 <= r -> tok r = Some r.
Proof. intros H. unfold tok. by rewrite (proj2 (Z.leb_le 0 r) H). Qed.

Lemma rule_valid (r : Z) : rule_or_none r -> (0 <=? r) = true -> valid_rule cfg r.
Proof. unfold PoolConc.rule_or_none, valid_rule. intros H E. bool_prop. lia. Qed.

(** Give back the reservation of a rule, when there is a rule. *)
Lemma wpg_release_back (r : Z) (own : option (nat * Z * Z)) (act : bool) (ract : option Z)
  (Q : unit -> ghost -> Prop) :
  Q tt (Ghost own None None act ract) ->
  wpg (Ghost own (tok r) None act ract)
    (when 0 <=? r do (Effects.act (FetchAddRuleBackend r (-1)) ;;; Ret tt)) Q.
Proof.
  intros HQ. unfold tok. case_if; [|done]. apply wpg_bind, wpg_act. right; left. by split_and!.
Qed.

Lemma wpg_release_ract (r : Z) (own : option (nat * Z * Z)) (back over : option Z) (act : bool)
  (Q : unit -> ghost -> Prop) :
  Q tt (Ghost own back over act None) ->
  wpg (Ghost own back over act (tok r))
    (when 0 <=? r do (Effects.act (FetchAddRuleActive r (-1)) ;;; Ret tt)) Q.
Proof.
  intros HQ. unfold tok. case_if; [|done]. apply wpg_bind, wpg_act. right. by split_and!.
Qed.

Lemma wpg_release_active (r : Z) (own : option (nat * Z * Z)) (back over : option Z)
  (Q : unit -> ghost -> Prop) :
  Q tt (Ghost own back over false None) ->
  wpg (Ghost own back over true (tok r)) (release_active r) Q.
Proof.
  intros HQ. unfold release_active. apply wpg_bind, wpg_release_ract.
  apply wpg_bind, wpg_act. right. by split_and!.
Qed.

(** Reading the connection of the slot one owns. *)
Lemma wpg_getconn (i : nat) (pid rule : Z) (g : ghost) (Q : connection -> ghost -> Prop) :
  g_own g = Some (i, pid, rule) ->
  (forall c, c_pid c = pid -> c_limit_rule c = rule -> Q c g) ->
  wpg g (act (GetConn i)) Q.
Proof. intros Hg HQ. apply wpg_act. intros c Hc. destruct (Hc pid rule Hg). by apply HQ. Qed.

(** Writing fields other than [pid] and [limit_rule] of the slot one owns. *)
Lemma wpg_setconn_same (i : nat) (pid rule : Z) (g : ghost) (f : connection -> connection)
  (Q : unit -> ghost -> Prop) :
  g_own g = Some (i, pid, rule) -> rule_or_none rule ->
  (forall c, c_pid (f c) = c_pid c /\ c_limit_rule (f c) = c_limit_rule c) ->
  Q tt g -> wpg g (act (SetConn i f)) Q.
Proof.
  intros Hg Hv Hf HQ. apply wpg_act. exists pid, rule, pid, rule. split_and!; try done.
  - intros c <- <-. apply Hf.
  - destruct g; simpl in *. by subst.
Qed.

(** ** Kill *)

Lemma wpg_kill (i : nat) (pid rule : Z) (s : option ssl) :
  rule_or_none rule ->
  wpg (holding i pid rule) (kill_connection self i s) (fun _ g => g = idle).
Proof.
  intros Hv. unfold kill_connection.
  apply wpg_neutral_bind; [by solve_neutral|intros _].
  apply wpg_neutral_bind; [by solve_neutral|intros c0].
  apply wpg_neutral_bind; [by solve_neutral|intros result].
  apply wpg_bind, (wpg_getconn i pid rule); [done|]. intros c _ ->.
  apply wpg_bind, wpg_release_back.
  apply wpg_bind, (wpg_getconn i pid rule); [done|]. intros c' -> ->.
  apply wpg_bind.
  assert (forall Q : unit -> ghost -> Prop,
    Q tt (Ghost (Some (i, pid, rule)) None None false None) ->
    wpg (Ghost (Some (i, pid, rule)) None None (negb (pid =? -1)) (if pid =? -1 then None else tok rule))
      (when negb (pid =? -1) do
         ((when 0 <=? rule do (act (FetchAddRuleActive rule (-1)) ;;; Ret tt)) ;;;
          act (FetchAddActive (-1)) ;;; check_graceful_shutdown_trigger self)) Q) as Hact.
  { intros Q HQ. destruct (pid =? -1); cbn [negb]; [done|].
    apply wpg_bind, wpg_release_ract, wpg_bind, wpg_act. right. split_and!; [done|done|].
    intros _. apply neutral_wpg; [apply neutral_graceful|]. by intros []. }
  apply Hact. clear Hact.
  apply wpg_bind, wpg_act. exists pid, rule, (-1), (-1). split_and!; try done.
  { unfold PoolConc.rule_or_none, number_of_limits. lia. }
  apply wpg_bind, wpg_act. exists (-1), (-1). by split_and!.
Qed.

(** ** Idle connections: removal and the sweeps *)

Lemma wpg_for_each_idle {A S} (l : list A) (s : S) (body : A -> S -> prog S) :
  (forall x s, x ∈ l -> wpg idle (body x s) (fun _ g => g = idle)) ->
  wpg idle (for_each l s body) (fun _ g => g = idle).
Proof.
  revert s; induction l as [|x l IH]; intros s H; [done|].
  apply wpg_bind. eapply wpg_mono; [|apply H; left]. intros s' g ->. apply IH.
  intros y s'' Hy. apply H. by right.
Qed.

Lemma wpg_for_until_idle {A B} (l : list A) (body : A -> prog (option B)) :
  (forall x, x ∈ l -> wpg idle (body x) (fun _ g => g = idle)) ->
  wpg idle (for_until l body) (fun _ g => g = idle).
Proof.
  induction l as [|x l IH]; intros H; [done|].
  apply wpg_bind. eapply wpg_mono; [|apply H; left]. intros [b|] g ->; [done|]. apply IH.
  intros y Hy. apply H. by right.
Qed.

(** Taking a free slot. *)
Lemma wpg_cas_free (i : nat) (s : slot_state) (Q : bool -> ghost -> Prop) :
  slot_ok cfg i -> busy s = true -> Q false idle ->
  (forall rule, rule_or_none rule -> Q true (holding i (-1) rule)) ->
  wpg idle (act (CasState i STATE_FREE s)) Q.
Proof. intros Hi Hs Hf Ht. apply wpg_act. by split_and!. Qed.

(** Putting it back. *)
Lemma wpg_store_free (i : nat) (rule : Z) (Q : unit -> ghost -> Prop) :
  Q tt idle -> wpg (holding i (-1) rule) (act (StoreState i STATE_FREE)) Q.
Proof. intros HQ. apply wpg_act. exists (-1), rule. by split_and!. Qed.

Lemma wpg_cas_back (i : nat) (rule : Z) (s : slot_state) (Q : bool -> ghost -> Prop) :
  busy s = true -> Q false (holding i (-1) rule) -> Q true idle ->
  wpg (holding i (-1) rule) (act (CasState i s STATE_FREE)) Q.
Proof. intros Hs Hf Ht. apply wpg_act. by split_and!. Qed.

Lemma wpg_sweep_slot (mark : slot_state) (expired : nat -> prog bool) (m : metric) (e : tracker_event)
  (i : nat) (prefill : bool) :
  slot_ok cfg i -> busy mark = true -> neutral (expired i) ->
  wpg idle (sweep_slot self mark expired m e i prefill) (fun _ g => g = idle).
Proof.
  intros Hi Hm Hx. unfold sweep_slot.
  apply wpg_bind, wpg_cas_free; [done|done|done|]. intros rule Hv.
  assert (wpg (holding i (-1) rule)
    (sys (Metric m) ;;; sys (Track e i) ;;; kill_connection self i None ;;; Ret true)
    (fun _ g => g = idle)) as Hkill.
  { do 2 (apply wpg_bind, wpg_sys; intros _). apply wpg_bind.
    eapply wpg_mono; [|by apply wpg_kill]. by intros _ g ->. }
  apply wpg_neutral_bind; [apply neutral_holds|]. intros held. destruct held; cbn [negb].
  - apply wpg_neutral_bind; [done|]. intros [|]; [done|].
    apply wpg_bind, wpg_cas_back; done.
  - apply wpg_bind, wpg_store_free. done.
Qed.

Lemma slots_down_ok (i : nat) : i ∈ slots_down cfg -> slot_ok cfg i.
Proof. apply elem_of_downfrom. Qed.

Lemma slots_up_ok (i : nat) : i ∈ slots_up cfg -> slot_ok cfg i.
Proof. apply elem_of_upto. Qed.

Lemma wpg_sweep (mark : slot_state) (expired : nat -> prog bool) (m : metric) (e : tracker_event)
  (prefill : bool) :
  busy mark = true -> (forall i, neutral (expired i)) ->
  wpg idle (p <- for_each (slots_down cfg) prefill (sweep_slot self mark expired m e) ;;
            when p do prefill_if_can_fork cfg false) (fun _ g => g = idle).
Proof.
  intros Hm Hx. apply wpg_bind. eapply wpg_mono; [|apply wpg_for_each_idle].
  - intros p g ->. destruct p; [|done]. apply neutral_wpg; [apply neutral_prefill|done].
  - intros i s Hi. apply wpg_sweep_slot; [by apply slots_down_ok|done|apply Hx].
Qed.

Lemma wpg_idle_timeout : wpg idle (pool_idle_timeout cfg self) (fun _ g => g = idle).
Proof.
  apply wpg_bind, wpg_sys. intros now. apply wpg_sweep; [done|].
  intros i. unfold idle_expired. solve_neutral.
Qed.

Lemma wpg_max_connection_age : wpg idle (pool_max_connection_age cfg self) (fun _ g => g = idle).
Proof.
  apply wpg_bind, wpg_sys. intros now. apply wpg_sweep; [done|].
  intros i. unfold age_expired. solve_neutral.
Qed.

Lemma wpg_validation : wpg idle (pool_validation cfg self) (fun _ g => g = idle).
Proof.
  apply wpg_bind, wpg_sys. intros now. apply wpg_sweep; [done|].
  intros i. unfold validation_failed. solve_neutral.
Qed.

Lemma wpg_remove_connection (username database : string) :
  wpg idle (remove_connection cfg self username database) (fun _ g => g = idle).
Proof.
  unfold remove_connection. apply wpg_bind.
  eapply wpg_mono; [|apply wpg_for_until_idle]; [by intros r g ->|].
  intros i Hi. unfold remove_slot. apply wpg_bind, wpg_cas_free; [by apply slots_down_ok|done|done|].
  intros rule Hv.
  assert (wpg (holding i (-1) rule)
    (sys (Metric M_connection_remove) ;;; sys (Track TRACKER_REMOVE_CONNECTION i) ;;;
     kill_connection self i None ;;; Ret (Some tt)) (fun _ g => g = idle)) as Hkill.
  { do 2 (apply wpg_bind, wpg_sys; intros _). apply wpg_bind.
    eapply wpg_mono; [|by apply wpg_kill]. by intros _ g ->. }
  apply wpg_neutral_bind; [apply neutral_holds|]. intros held. destruct held; cbn [negb].
  - apply wpg_neutral_bind; [by solve_neutral|]. intros c. cbv zeta. case_if; [|done].
    apply wpg_bind, wpg_cas_back; done.
  - apply wpg_bind, wpg_store_free. done.
Qed.

(** ** Acquisition in session mode *)

Section get.
Context (username database : string) (reuse : bool) (best : Z).
Context (Hbest : rule_or_none best).

(** The increments of both [active_connections]. *)
Lemma wpg_increase (own : option (nat * Z * Z)) (back : option Z) (Q : bool -> ghost -> Prop) :
  Q false (Ghost own back None false None) -> Q true (Ghost own back None true (tok best)) ->
  wpg (Ghost own back None false None) (increase_connections cfg best) Q.
Proof.
  intros Hf Ht. unfold increase_connections.
  apply wpg_bind, wpg_act. left. split_and!; [done|done|]. intros v. case_if.
  - apply wpg_bind, wpg_act. right. by split_and!.
  - apply wpg_bind. unfold tok in Ht. destruct (0 <=? best) eqn:Eb; [|done].
    apply wpg_bind, wpg_act. left. split_and!; [done|by apply rule_valid|done|done].
Qed.

Definition acquired_post (own_rule : Z) (none : ghost) (a : acquired) (g : ghost) : Prop :=
  match a with
  | Acquired i => g = Ghost (Some (i, -1, own_rule)) (tok best) None true (tok best)
  | Saturated => g = idle
  | NoSlot => g = none
  end.

Lemma wpg_reuse_loop (l : list nat) :
  (forall i, i ∈ l -> slot_ok cfg i) ->
  wpg idle (reuse_loop cfg self username database false best l) (acquired_post best idle).
Proof.
  induction l as [|i l IH]; intros Hl; [done|].
  assert (wpg idle (reuse_loop cfg self username database false best l) (acquired_post best idle))
    by (apply IH; intros j Hj; apply Hl; by right).
  cbn [reuse_loop]. apply wpg_bind, wpg_cas_free; [apply Hl; left|done|done|]. intros rule Hv.
  apply wpg_bind, (wpg_getconn i (-1) rule); [done|]. intros c _ Hrule. apply wpg_bind.
  destruct (slot_matches cfg username database best c) eqn:M; cbn [andb negb];
    [|by apply wpg_bind, wpg_store_free].
  unfold slot_matches in M. rewrite !Bool.andb_true_iff, Z.eqb_eq in M.
  destruct M as [[M _] _]. assert (rule = best) as -> by congruence.
  assert (forall b : bool, wpg (holding i (-1) best)
    (if b then
       inc <- increase_connections cfg best ;;
       if inc : bool then Ret (Acquired i) else act (StoreState i STATE_FREE) ;;; Ret Saturated
     else act (StoreState i STATE_FREE) ;;; reuse_loop cfg self username database false best l)
    (acquired_post best idle)) as Htail.
  { intros [|]; [|by apply wpg_bind, wpg_store_free].
    apply wpg_bind, wpg_increase; [|done]. apply wpg_bind, (wpg_store_free i best). done. }
  apply wpg_neutral_bind; [apply neutral_holds|]. intros [|]; [apply Htail|].
  apply neutral_wpg; [apply neutral_fetch|]. apply Htail.
Qed.

Lemma wpg_create_loop (l : list nat) :
  (forall i, i ∈ l -> slot_ok cfg i) ->
  wpg (Ghost None (tok best) None false None) (create_loop cfg best l)
    (acquired_post (-1) (Ghost None (tok best) None false None)).
Proof.
  induction l as [|i l IH]; intros Hl; [done|]. cbn [create_loop].
  apply wpg_bind, wpg_act. split_and!; [apply Hl; left|done|done| |].
  - apply IH. intros j Hj. apply Hl. by right.
  - apply wpg_bind, wpg_increase; [|done].
    apply wpg_bind, wpg_act. exists (-1), (-1). split_and!; [done|done|done|].
    apply wpg_bind, wpg_release_back. done.
Qed.

Lemma wpg_create_slot : wpg idle (create_slot cfg best) (acquired_post (-1) idle).
Proof.
  assert (wpg (Ghost None (tok best) None false None)
    (r <- create_loop cfg best (slots_up cfg) ;;
     match r with
     | NoSlot =>
         (when 0 <=? best do (act (FetchAddRuleBackend best (-1)) ;;; Ret tt)) ;;; Ret NoSlot
     | r => Ret r
     end) (acquired_post (-1) idle)) as Hcreate.
  { apply wpg_bind. eapply wpg_mono; [|apply wpg_create_loop; apply slots_up_ok].
    intros [i| |] g ->; [done|done|]. apply wpg_bind, wpg_release_back. done. }
  unfold create_slot. apply wpg_bind. unfold tok in Hcreate.
  destruct (0 <=? best) eqn:Eb; [|done].
  apply wpg_bind, wpg_act. left. split_and!; [done|by apply rule_valid|done|done|done| |]; intros v Hv.
  - replace (_ <=? v) with false by (symmetry; bool_prop; lia). done.
  - replace (_ <=? v) with true by (symmetry; bool_prop; lia).
    apply wpg_bind, wpg_act. right; right. by split_and!.
Qed.

(** What the process holds at the labels of [pgagroal_get_connection]. *)
Definition attempt_post (a : attempt) (g : ghost) : Prop :=
  match a with
  | Success i => g = holding i (p_pid self) best
  | GotoRetry _ true | GotoError _ => g = Ghost None None None true (tok best)
  | _ => g = idle
  end.

Lemma holding_self (i : nat) :
  holding i (p_pid self) best = Ghost (Some (i, p_pid self, best)) (tok best) None true (tok best).
Proof. unfold holding. by rewrite (proj2 (Z.eqb_neq _ _) Hpid). Qed.

Lemma wpg_undo_slot (i : nat) (Q : unit -> ghost -> Prop) :
  Q tt (Ghost None None None true (tok best)) ->
  wpg (holding i (p_pid self) best) (undo_slot best i) Q.
Proof.
  intros HQ. rewrite holding_self. unfold undo_slot. apply wpg_bind, wpg_release_back.
  apply wpg_bind, wpg_act. exists (p_pid self), best, (-1), (-1).
  split_and!; try done. { unfold PoolConc.rule_or_none, number_of_limits. lia. }
  apply wpg_act. exists (-1), (-1). by split_and!.
Qed.

Lemma wpg_establish (i : nat) :
  wpg (holding i (p_pid self) best) (establish cfg username database best i) attempt_post.
Proof.
  unfold establish. apply wpg_neutral_bind; [apply neutral_get_primary|]. intros [server|].
  - cbv zeta. apply wpg_neutral_bind; [by solve_neutral|]. intros [fd|].
    + apply wpg_bind, (wpg_setconn_same i (p_pid self) best); [done|done|done|].
      apply wpg_bind, wpg_act. exists (p_pid self), best. by split_and!.
    + apply wpg_bind, wpg_undo_slot. do 2 (apply wpg_bind, wpg_sys; intros _).
      case_if; [|done]. apply wpg_neutral_bind; [apply neutral_force_failover|]. intros _.
      apply wpg_bind, wpg_sys. done.
  - apply wpg_bind, wpg_undo_slot, wpg_bind, wpg_sys. done.
Qed.

Lemma wpg_verify (i : nat) :
  wpg (holding i (p_pid self) best) (verify cfg self false i) attempt_post.
Proof.
  unfold verify. apply wpg_neutral_bind; [by solve_neutral|]. intros c.
  apply wpg_bind, wpg_sys. intros valid. rewrite Bool.andb_false_r.
  apply wpg_neutral_bind; [by solve_neutral|]. intros [|]; [|done].
  apply wpg_bind, wpg_sys. intros _. apply wpg_bind.
  eapply wpg_mono; [|by apply wpg_kill]. intros status g ->.
  apply wpg_neutral_bind; [apply neutral_prefill|]. intros _. case_if; done.
Qed.

Lemma wpg_attempt :
  wpg idle (attempt_connection cfg self username database reuse false best) attempt_post.
Proof.
  assert (forall i rule (b : bool),
    wpg (Ghost (Some (i, -1, rule)) (tok best) None true (tok best))
      (act (SetConn i (fun c => set_c_pid (p_pid self) (set_c_limit_rule best c))) ;;;
       if b then establish cfg username database best i else verify cfg self false i)
      attempt_post) as Hset.
  { intros i rule b. apply wpg_bind, wpg_act.
    exists (-1), rule, (p_pid self), best. split_and!; [done|done|done|].
    cbn [g_back g_over g_act g_ract]. rewrite <- holding_self.
    destruct b; [apply wpg_establish|apply wpg_verify]. }
  unfold attempt_connection. apply wpg_neutral_bind; [by solve_neutral|]. intros connections.
  case_if; [done|]. apply wpg_bind.
  eapply (wpg_mono _ _ _ (acquired_post best idle)).
  - intros [i| |] g ->; cbn [negb].
    + apply wpg_bind. apply Hset.
    + apply wpg_bind. done.
    + apply wpg_bind, wpg_bind. eapply wpg_mono; [|apply wpg_create_slot].
      intros [i| |] g ->; [apply Hset|done|done].
  - destruct reuse; [|done]. apply wpg_reuse_loop. apply slots_up_ok.
Qed.

Lemma wpg_retry_again (start_time retries retry_delay : Z) :
  wpg idle (retry_again cfg self username database false best start_time retries retry_delay)
    (fun _ g => g = idle).
Proof.
  unfold retry_again. case_if.
  - cbv zeta. apply wpg_bind, wpg_sys. intros _. apply wpg_bind, wpg_sys. intros now. case_if; [done|].
    apply wpg_bind. case_if; [|done]. apply wpg_bind.
    eapply wpg_mono; [|apply wpg_remove_connection]. by intros b g ->.
  - cbn [negb]. case_if; [|done]. apply wpg_bind.
    eapply wpg_mono; [|apply wpg_remove_connection]. by intros b g ->.
Qed.

(** What the process holds when [pgagroal_get_connection] returns. *)
Definition get_post (r : option (Z * option nat)) (g : ghost) : Prop :=
  match r with
  | Some (0, Some i) => g = holding i (p_pid self) best
  | Some (0, None) => False
  | _ => g = idle
  end.

Lemma wpg_get_loop (fuel : nat) (start_time retries retry_delay : Z) :
  wpg idle (get_connection_loop cfg self username database reuse false best fuel
              start_time retries retry_delay) get_post.
Proof.
  revert retries retry_delay; induction fuel as [|fuel IH]; intros retries retry_delay; [done|].
  cbn [get_connection_loop]. apply wpg_bind. eapply wpg_mono; [|apply wpg_attempt].
  assert (forall slot, wpg idle
    (r <- finish_timeout cfg username database best start_time slot ;; Ret (Some r)) get_post) as Htimeout.
  { intros slot. apply wpg_bind, wpg_neutral_bind; [by solve_neutral|]. intros _.
    do 3 (apply wpg_bind, wpg_sys; intros _). done. }
  assert (forall slot, wpg idle
    (r <- retry_again cfg self username database false best start_time retries retry_delay ;;
     match r with
     | Some (retries, retry_delay) =>
         get_connection_loop cfg self username database reuse false best fuel start_time retries retry_delay
     | None => r <- finish_timeout cfg username database best start_time slot ;; Ret (Some r)
     end) get_post) as Hagain.
  { intros slot. apply wpg_bind. eapply wpg_mono; [|apply wpg_retry_again].
    intros [[? ?]|] g ->; [apply IH|apply Htimeout]. }
  intros [i|slot [|]|slot|slot|slot] g ->.
  - apply wpg_bind. unfold finish_success.
    apply wpg_neutral_bind; [by solve_neutral|]. intros c. apply wpg_bind.
    assert (forall now (Q : unit -> ghost -> Prop), Q tt (holding i (p_pid self) best) ->
      wpg (holding i (p_pid self) best) (act (SetConn i (set_c_timestamp now))) Q) as Hts
      by (intros; by apply (wpg_setconn_same i (p_pid self) best)).
    assert (wpg (holding i (p_pid self) best)
      (when c_start_time c =? -1 do (now <- sys Time ;; act (SetConn i (set_c_start_time now))))
      (fun _ g => g = holding i (p_pid self) best)) as Hst.
    { case_if; [|done]. apply wpg_bind, wpg_sys. intros now.
      by apply (wpg_setconn_same i (p_pid self) best). }
    eapply wpg_mono; [|exact Hst]. intros _ g ->.
    apply wpg_bind, wpg_sys. intros now. apply wpg_bind, Hts.
    apply wpg_neutral_bind; [by solve_neutral|]. intros _.
    do 3 (apply wpg_bind, wpg_sys; intros _). done.
  - apply wpg_bind, wpg_release_active. apply Hagain.
  - apply Hagain.
  - apply Hagain.
  - apply Htimeout.
  - apply wpg_bind, wpg_bind, wpg_release_active.
    apply wpg_neutral_bind; [by solve_neutral|]. intros _.
    do 3 (apply wpg_bind, wpg_sys; intros _). done.
Qed.
End get.

Lemma find_best_rule_ok (username database : string) :
  rule_or_none (find_best_rule cfg username database).
Proof.
  unfold PoolConc.rule_or_none.
  destruct (find_best_rule_inv cfg username database) as [[-> _]|[[H _] _]]; [|lia].
  unfold number_of_limits. lia.
Qed.

Lemma wpg_get_connection (fuel : nat) (username database : string) (reuse : bool) :
  wpg idle (get_connection cfg self fuel username database reuse false)
    (get_post (find_best_rule cfg username database)).
Proof.
  unfold get_connection. apply wpg_bind, wpg_sys. intros _. cbv zeta.
  apply wpg_bind, wpg_sys. intros start_time. apply wpg_bind, wpg_sys. intros _.
  apply wpg_get_loop, find_best_rule_ok.
Qed.

(** ** Return *)

Section return_.
Context (i : nat) (pid rule : Z) (Hp : pid <> -1) (Hv : rule_or_none rule).

Lemma holding_out :
  holding i pid rule = Ghost (Some (i, pid, rule)) (tok rule) None true (tok rule).
Proof. unfold holding. by rewrite (proj2 (Z.eqb_neq _ _) Hp). Qed.

Lemma wpg_return_kill (s : option ssl) (fd : Z) :
  wpg (holding i pid rule) (return_kill self i s fd) (fun _ g => g = idle).
Proof.
  unfold return_kill. do 2 (apply wpg_bind, wpg_sys; intros _). by apply wpg_kill.
Qed.

Lemma wpg_age_check :
  wpg (holding i pid rule) (return_age_check cfg i) (fun _ g => g = holding i pid rule).
Proof.
  unfold return_age_check. case_if; [|done]. apply wpg_bind, wpg_sys. intros now.
  apply wpg_bind, wpg_act. split_and!; [done|done|done|].
  apply wpg_neutral_bind; [by solve_neutral|]. intros c. apply wpg_bind.
  assert (forall b : bool, wpg (holding i pid rule)
    (if b then
       sys (Metric M_connection_max_connection_age) ;;;
       sys (Track TRACKER_MAX_CONNECTION_AGE i) ;;; Ret true
     else Ret false) (fun _ g => g = holding i pid rule)) as Htail.
  { intros [|]; [|done]. by do 2 (apply wpg_bind, wpg_sys; intros _). }
  case_if; [apply Htail|]. apply wpg_bind, wpg_act. split_and!; [done|done| |]; apply Htail.
Qed.

Lemma wpg_own_setconn (f : connection -> connection) (Q : unit -> ghost -> Prop) :
  (forall c, c_pid (f c) = c_pid c /\ c_limit_rule (f c) = c_limit_rule c) ->
  Q tt (holding i pid rule) -> wpg (holding i pid rule) (act (SetConn i f)) Q.
Proof. intros Hf HQ. by apply (wpg_setconn_same i pid rule). Qed.

Lemma wpg_return_reset (s : option ssl) (Q : bool -> ghost -> Prop) :
  (forall b, Q b (holding i pid rule)) ->
  wpg (holding i pid rule) (return_reset cfg i s) Q.
Proof.
  intros HQ. unfold return_reset. apply wpg_neutral_bind; [by solve_neutral|]. intros c.
  case_if; [|apply HQ]. apply wpg_bind, wpg_sys. intros [|]; [|apply HQ].
  destruct (server_reset_query_behavior cfg); [apply HQ| |apply HQ].
  apply wpg_bind, wpg_own_setconn; [done|apply HQ].
Qed.

Lemma wpg_return_park (t : option tls) (owned : bool) (Q : bool -> ghost -> Prop) :
  (forall b, Q b (holding i pid rule)) ->
  wpg (holding i pid rule) (return_park i t owned) Q.
Proof.
  intros HQ. unfold return_park. destruct t as [t|]; [|apply HQ]. do 2 (case_if; [apply HQ|]).
  apply wpg_bind, wpg_sys. intros [ctx|]; [|apply HQ]. apply wpg_bind, wpg_own_setconn; [done|apply HQ].
Qed.

(** The last part of a successful return. *)
Lemma wpg_give_back :
  wpg (holding i pid rule)
    (c <- act (GetConn i) ;;
     (when 0 <=? c_limit_rule c do
        (act (FetchAddRuleActive (c_limit_rule c) (-1)) ;;; Ret tt)) ;;;
     act (SetConn i (fun c =>
       set_c_appname "" (set_c_tx_mode false (set_c_pid (-1) (set_c_new false c))))) ;;;
     act (StoreState i STATE_FREE) ;;;
     act (FetchAddActive (-1)) ;;;
     check_graceful_shutdown_trigger self ;;;
     sys (Metric M_connection_return) ;;;
     Ret 0) (fun _ g => g = idle).
Proof.
  rewrite holding_out. apply wpg_bind, (wpg_getconn i pid rule); [done|]. intros c _ ->.
  apply wpg_bind, wpg_release_ract.
  apply wpg_bind, wpg_act. exists pid, rule, (-1), rule. split_and!; [done|done|done|].
  apply wpg_bind, wpg_act. exists (-1), rule. split_and!; [done|done|done|].
  apply wpg_bind, wpg_act. right. split_and!; [done|done|]. intros _.
  apply wpg_neutral_bind; [apply neutral_graceful|]. intros _. apply wpg_bind, wpg_sys. done.
Qed.

Lemma wpg_return_in_use (s : option ssl) (t : option tls) (owned : bool) :
  wpg (holding i pid rule) (return_in_use cfg self i s t owned false) (fun _ g => g = idle).
Proof.
  unfold return_in_use. cbn [negb]. apply wpg_bind, wpg_return_reset.
  intros [|]; [apply wpg_return_kill|]. apply wpg_bind, wpg_return_park.
  intros [|]; [apply wpg_return_kill|].
  apply wpg_bind, wpg_sys. intros _. apply wpg_bind, wpg_sys. intros now.
  apply wpg_bind, wpg_own_setconn; [done|].
  apply wpg_neutral_bind; [by solve_neutral|]. intros c. apply wpg_bind.
  assert (forall e : option Z, wpg (holding i pid rule)
    (match e with
     | Some fd => return_kill self i s fd
     | None =>
         e <- send_request CONNECTION_RETURN (fun fd => SlotWrite fd i) ;;
         match e with
         | Some fd => return_kill self i s fd
         | None =>
             c <- act (GetConn i) ;;
             (when 0 <=? c_limit_rule c do
                (act (FetchAddRuleActive (c_limit_rule c) (-1)) ;;; Ret tt)) ;;;
             act (SetConn i (fun c =>
               set_c_appname "" (set_c_tx_mode false (set_c_pid (-1) (set_c_new false c))))) ;;;
             act (StoreState i STATE_FREE) ;;;
             act (FetchAddActive (-1)) ;;;
             check_graceful_shutdown_trigger self ;;;
             sys (Metric M_connection_return) ;;;
             Ret 0
         end
     end) (fun _ g => g = idle)) as Htail.
  { intros [fd|]; [apply wpg_return_kill|]. apply wpg_neutral_bind; [apply neutral_send|].
    intros [fd|]; [apply wpg_return_kill|apply wpg_give_back]. }
  destruct (c_new c); [|apply Htail]. apply wpg_bind, wpg_own_setconn; [done|].
  apply neutral_wpg; [apply neutral_send|apply Htail].
Qed.

Lemma wpg_return (s : option ssl) :
  wpg (holding i pid rule) (return_connection cfg self i s false) (fun _ g => g = idle).
Proof.
  unfold return_connection. cbv zeta. apply wpg_bind.
  eapply wpg_mono; [|apply wpg_age_check]. intros [|] g ->; [apply wpg_return_kill|].
  cbn [negb]. apply wpg_bind, wpg_neutral_bind; [by solve_neutral|]. intros c.
  apply wpg_bind, wpg_sys. intros v.
  assert (wpg (holding i pid rule)
    (when negb v do act (SetConn i (set_c_has_security SECURITY_INVALID)))
    (fun _ g => g = holding i pid rule)) as Hsec
    by (case_if; [by apply wpg_own_setconn|done]).
  eapply wpg_mono; [|exact Hsec]. intros _ g ->.
  apply wpg_neutral_bind; [by solve_neutral|]. intros c'. case_if; [|apply wpg_return_kill].
  apply wpg_neutral_bind; [by solve_neutral|].
  intros []; try apply wpg_return_kill; [apply wpg_return_in_use|].
  apply wpg_neutral_bind; [by solve_neutral|]. intros c''. apply wpg_bind, wpg_sys. intros _.
  apply wpg_neutral_bind; [apply neutral_graceful|]. intros _. apply wpg_return_kill.
Qed.
End return_.
End safe.

(** ** Systems of workers and sweeps *)

(** A worker between the success of [pgagroal_get_connection] and the end: the
    authentication stores what it learnt in the connection, the client is served, and
    the connection is returned or killed. *)
Definition serve (cfg : config) (self : process) (slot : nat)
  (has_security backend_pid backend_secret : Z) (s : option ssl) (kill : bool) : prog unit :=
  act (SetConn slot (fun c =>
    set_c_has_security has_security
      (set_c_backend_pid backend_pid (set_c_backend_secret backend_secret c)))) ;;;
  (if kill : bool then kill_connection self slot s else return_connection cfg self slot s false) ;;;
  Ret tt.

(** What a process of the system runs. *)
Inductive job :=
| JWorker (fuel : nat) (username database : string) (reuse : bool)
    (has_security backend_pid backend_secret : Z) (s : option ssl) (kill : bool)
| JIdleTimeout
| JMaxConnectionAge
| JValidation
| JRemove (username database : string).

Definition job_prog (cfg : config) (self : process) (j : job) : prog unit :=
  match j with
  | JWorker fuel username database reuse has_security backend_pid backend_secret s kill =>
      r <- get_connection cfg self fuel username database reuse false ;;
      match r with
      | Some (0, Some slot) => serve cfg self slot has_security backend_pid backend_secret s kill
      | _ => Ret tt
      end
  | JIdleTimeout => pool_idle_timeout cfg self
  | JMaxConnectionAge => pool_max_connection_age cfg self
  | JValidation => pool_validation cfg self
  | JRemove username database => remove_connection cfg self username database ;;; Ret tt
  end.

(** *** A worker that serves a client holds a granted reservation *)

Lemma kill_backed (cfg : config) (self : process) (g : ghost) (slot : nat) (s : option ssl) (pid rule : Z)
  (Q : Z -> ghost -> Prop) :
  g_own g = Some (slot, pid, rule) -> g_over g = None -> 0 <= rule ->
  wpg cfg g (kill_connection self slot s) Q -> g_back g = Some rule.
Proof.
  intros Ho Hv Hr H. unfold kill_connection in H.
  set (c := set_c_fd (-1) (set_c_pid pid (set_c_limit_rule rule inhabitant))) in *.
  assert (forall p r, g_own g = Some (slot, p, r) -> c_pid c = p /\ c_limit_rule c = r) as Hc
    by (intros p r E; rewrite Ho in E; by simplify_eq).
  apply wpg_bind in H. specialize (H tt). apply wpg_bind in H. specialize (H c Hc). cbn in H.
  specialize (H c Hc). cbn in H.
  rewrite (proj2 (Z.leb_le 0 rule) Hr) in H. destruct H as [(? & _)|[(_ & Hb & _)|(_ & Hb & _)]]; [lia|done|].
  congruence.
Qed.

(** The age check may find that the slot has another state. *)
Lemma age_check_passes (cfg : config) (g : ghost) (slot : nat) (pid rule : Z) (P : bool -> ghost -> Prop) :
  g_own g = Some (slot, pid, rule) -> wpg cfg g (return_age_check cfg slot) P -> P false g.
Proof.
  intros Ho. unfold return_age_check. case_if; [|done]. intros H. specialize (H 0). cbn in H.
  rewrite Ho in H. by destruct H as (_ & _ & H & _).
Qed.

Lemma return_backed (cfg : config) (self : process) (g : ghost) (slot : nat) (s : option ssl) (pid rule : Z)
  (Q : Z -> ghost -> Prop) :
  g_own g = Some (slot, pid, rule) -> g_over g = None -> 0 <= rule ->
  wpg cfg g (return_connection cfg self slot s false) Q -> g_back g = Some rule.
Proof.
  intros Ho Hv Hr H. unfold return_connection in H. cbv zeta in H.
  set (c := set_c_has_security SECURITY_INVALID (set_c_pid pid (set_c_limit_rule rule inhabitant))) in *.
  assert (forall p r, g_own g = Some (slot, p, r) -> c_pid c = p /\ c_limit_rule c = r) as Hc
    by (intros p r E; rewrite Ho in E; by simplify_eq).
  apply wpg_bind, (age_check_passes _ _ _ _ _ _ Ho) in H. cbn [negb] in H.
  apply wpg_bind in H. specialize (H c Hc false). cbn [negb] in H.
  destruct H as (p & r & p' & r' & E & Hf & _ & H). rewrite Ho in E. injection E as <- <-.
  destruct (Hf c) as [<- <-]; [done|done|]. specialize (H c). cbn in H.
  specialize (H ltac:(by intros ? ? [= <- <-]) tt tt).
  exact (kill_backed cfg self (Ghost (Some (slot, pid, rule)) (g_back g) (g_over g) (g_act g) (g_ract g))
    slot s pid rule Q eq_refl Hv Hr H).
Qed.

Lemma serve_backed (cfg : config) (self : process) (g : ghost) (slot : nat) (hs bp bs : Z) (s : option ssl)
  (kill : bool) (pid rule : Z) (Q : unit -> ghost -> Prop) :
  g_own g = Some (slot, pid, rule) -> g_over g = None -> 0 <= rule ->
  wpg cfg g (serve cfg self slot hs bp bs s kill) Q -> g_back g = Some rule.
Proof.
  intros Ho Hv Hr H. unfold serve in H. apply wpg_bind in H.
  destruct H as (p & r & p' & r' & E & Hf & _ & H). rewrite Ho in E. injection E as <- <-.
  destruct (Hf (set_c_pid pid (set_c_limit_rule rule inhabitant))) as [<- <-]; [done|done|].
  apply wpg_bind in H. change (wpg cfg (Ghost (Some (slot, pid, rule)) (g_back g) (g_over g) (g_act g) (g_ract g))
    ((if kill then kill_connection self slot s else return_connection cfg self slot s false) ;;; Ret tt) Q) in H.
  apply wpg_bind in H. destruct kill; [by eapply kill_backed in H|by eapply return_backed in H].
Qed.

(** [p] serves a client over a connection of rule [r]. *)
Definition serving (cfg : config) (r : Z) (m : shm) (p : prog unit) : Prop :=
  exists self slot hs bp bs s kill,
    p = serve cfg self slot hs bp bs s kill /\ c_limit_rule (conn_at m slot) = r.


Lemma wpg_job (cfg : config) (self : process) (j : job) :
  p_pid self <> -1 -> wpg cfg idle (job_prog cfg self j) (fun _ g => g = idle).
Proof.
  intros Hpid. destruct j; cbn [job_prog].
  - apply wpg_bind. eapply wpg_mono; [|by apply wpg_get_connection].
    pose proof (find_best_rule_ok cfg username database) as Hb.
    intros [[[|p|p] [slot|]]|] g; cbn [get_post]; try done; try (by intros ->).
    intros ->. unfold serve. apply wpg_bind, (wpg_own_setconn cfg _ _ _ Hb); [done|].
    apply wpg_bind. destruct kill.
    + eapply wpg_mono; [|by apply wpg_kill]. by intros _ g ->.
    + eapply wpg_mono; [|by apply wpg_return]. by intros _ g ->.
  - apply wpg_idle_timeout.
  - apply wpg_max_connection_age.
  - apply wpg_validation.
  - apply wpg_bind. eapply wpg_mono; [|apply wpg_remove_connection]. by intros b g ->.
Qed.

(** A pool after [pgagroal_pool_init]: no connection, all counters zero. *)
Record fresh_pool (cfg : config) (m : shm) : Prop := {
  fp_states : Z.of_nat (length (m_states m)) >= max_connections cfg;
  fp_conns : Z.of_nat (length (m_connections m)) >= max_connections cfg;
  fp_notinit i : Z.of_nat i < max_connections cfg -> state_at m i = STATE_NOTINIT;
  fp_conn i : Z.of_nat i < max_connections cfg ->
    c_pid (conn_at m i) = -1 /\ c_limit_rule (conn_at m i) = -1;
  fp_active : m_active_connections m = 0;
  fp_lact : m_limit_active m = replicate (length (limits cfg)) 0;
  fp_lback : m_limit_backend m = replicate (length (limits cfg)) 0
}.

Lemma total_idle (f : ghost -> Z) (n : nat) : f idle = 0 -> total f (replicate n idle) = 0.
Proof. intros Hf. induction n as [|n IH]; [done|]. simpl. rewrite Hf. lia. Qed.

Lemma fresh_pool_inv (cfg : config) (m : shm) (n : nat) :
  fresh_pool cfg m -> (forall r, valid_rule cfg r -> 0 <= l_max_size (limit_at cfg r)) ->
  inv cfg m (replicate n idle).
Proof.
  intros F Hmax.
  assert (forall f : ghost -> Z, f idle = 0 -> total f (replicate n idle) = 0) as Hzero
    by (intros; by apply total_idle).
  assert (forall r, free_connections cfg m r = 0) as Hfree.
  { intros r. unfold free_connections.
    rewrite (total_ext (fun _ => 0)); [|intros i Hi; apply free_at_notinit, (fp_notinit _ _ F);
      by apply elem_of_upto].
    induction (upto (max_connections cfg)); simpl; lia. }
  assert (forall r, valid_rule cfg r -> replicate (length (limits cfg)) 0 !!! Z.to_nat r = 0) as Hcnt.
  { intros r Hr. apply lookup_total_replicate_2. unfold valid_rule, number_of_limits in Hr. lia. }
  split.
  - apply F.
  - apply F.
  - by rewrite (fp_lact _ _ F), length_replicate.
  - by rewrite (fp_lback _ _ F), length_replicate.
  - rewrite (fp_active _ _ F). by rewrite Hzero.
  - intros r Hr. unfold rule_active. rewrite (fp_lact _ _ F), Hcnt by done. by rewrite Hzero.
  - intros r Hr. unfold rule_backend. rewrite (fp_lback _ _ F), Hcnt, Hfree by done. by rewrite !Hzero.
  - intros r Hr. rewrite Hfree, Hzero by done. specialize (Hmax r Hr). lia.
  - intros i Hi. rewrite (fp_notinit _ _ F i Hi). by apply (fp_conn _ _ F).
  - intros t g i p r Ht. apply lookup_replicate_1 in Ht as [-> _]. done.
  - intros t1 t2 g1 g2 i p1 p2 r1 r2 Ht. apply lookup_replicate_1 in Ht as [-> _]. done.
Qed.

Section system.
Context (cfg : config) `{VL : ValidLimits cfg} (procs : list (process * job)) (m0 : shm).

Definition system : list (prog unit) := (fun '(self, j) => job_prog cfg self j) <$> procs.

(** A pool that starts fresh, and a number of processes that the 16 bit
    counters can count. *)
Record well_formed_system : Prop := {
  ws_fresh : fresh_pool cfg m0;
  ws_few : max_connections cfg + Z.of_nat (length procs) < 2 ^ 16;
  ws_pids self j : (self, j) ∈ procs -> p_pid self <> -1
}.

Lemma valid_sizes (r : Z) :
  valid_rule cfg r -> 0 < l_max_size (limit_at cfg r) <= max_connections cfg.
Proof using VL.
  intros Hr. pose proof (limit_at_elem cfg r Hr) as Hl. split; [by apply vl_max|].
  pose proof (total_max_size_elem _ _ vl_max Hl). pose proof vl_total. lia.
Qed.

Lemma valid_few : well_formed_system -> few cfg (length procs).
Proof using VL.
  intros WS. pose proof (ws_few WS). pose proof (total_max_size_nonneg _ vl_max). pose proof vl_total.
  split; [lia|]. intros r Hr. pose proof (valid_sizes r Hr). lia.
Qed.

Lemma system_reachable_ok (ts : list (prog unit)) (m : shm) :
  well_formed_system -> rtc (step) (system, m0) (ts, m) -> system_ok cfg (ts, m).
Proof.
  intros WS Hr. apply (reachable_ok cfg _ _ Hr). unfold system_ok.
  assert (length system = length procs) as Hlen by apply length_fmap.
  exists (replicate (length procs) idle). simpl. rewrite length_replicate, Hlen.
  split; [done|]. split; [by apply valid_few|]. split.
  { apply fresh_pool_inv; [apply WS|]. intros r Hv. pose proof (valid_sizes r Hv). lia. }
  split.
  - intros t g Ht. apply lookup_replicate_1 in Ht as [-> _]. split_and!; try done. by left.
  - intros t p g Hp Ht. apply lookup_replicate_1 in Ht as [-> _].
    apply list_lookup_fmap_Some in Hp as ([self j] & -> & Hj).
    apply wpg_job. apply (ws_pids WS self j). apply list_elem_of_lookup; by exists t.
Qed.

Lemma system_length (ts : list (prog unit)) (m : shm) :
  rtc (step) (system, m0) (ts, m) -> length ts = length procs.
Proof.
  intros Hr. assert (length system = length procs) as <- by apply length_fmap.
  remember (system, m0) as s eqn:Es. remember (ts, m) as s' eqn:Es'.
  assert (length s'.1 = length s.1) as H; [|by subst].
  clear Es Es'. induction Hr as [|x y z Hs _ IH]; [done|]. rewrite IH.
  destruct Hs; simpl; by rewrite ?length_insert.
Qed.

(** The reservation counted by a process that serves a client. *)
Lemma serving_backed (gs : list ghost) (ts : list (prog unit)) (m : shm) (r : Z) (t : nat) (p : prog unit) (g : ghost) :
  inv cfg m gs -> (forall t g, gs !! t = Some g -> tokens_ok cfg g) ->
  (forall t p g, ts !! t = Some p -> gs !! t = Some g -> wpg cfg g p (fun _ g' => g' = idle)) ->
  valid_rule cfg r -> ts !! t = Some p -> gs !! t = Some g -> serving cfg r m p -> g_back g = Some r.
Proof.
  intros I K W Hv Hp Hg (self & slot & hs & bp & bs & s & kill & -> & Hr).
  specialize (W t _ g Hp Hg). pose proof W as (pid & rule & _ & _ & Ho & _).
  destruct (inv_own _ _ _ I t g slot pid rule Hg Ho) as (_ & _ & _ & Hr' & _).
  destruct (K t g Hg) as (_ & _ & _ & [|Hno]); [congruence|].
  assert (rule = r) as -> by congruence. eapply serve_backed; try done. apply Hv.
Qed.



(** The slot the next access of a process writes. *)
Definition next_write (p : prog unit) : option nat :=
  match p with
  | Vis (SetConn i _) _ | Vis (StoreState i _) _ => Some i
  | _ => None
  end.

End system.
