(* ===== verification/PoolExamples.v ===== *)
(** * Concrete pools: runs of the model and instances of the pool theorems *)

From S2P Require Import Prelude Config Limits Effects Server ServerFacts Pool PoolFacts PoolConc PoolSafe.

Local Open Scope Z_scope.
Local Open Scope prog_scope.

(** An environment in which every call succeeds: the clock shows 1000, sockets are
    valid, connecting gives descriptor 7. *)
Definition answer_ok (Q : Type) (c : syscall Q) : Q :=
  match c in syscall Q return Q with
  | Time => 1000
  | Sleep _ | Fork _ | Kill _ _ | Disconnect _ | WriteTerminate _ _ | ReleaseSsl _
  | NotifyStandbys _ _ _ | Metric _ | Track _ _ | TrackBasic _ _ _ => tt
  | SocketIsValid _ | ConnectionIsValid _ => true
  | SocketHasError _ | WriteResetQuery _ _ | IdWrite _ _ | SlotWrite _ _ | TransferWrite _ _
  | GenerationWrite _ _ | FdIsOpen _ | Dup2 _ _ => false
  | ConnectUnix _ _ | ConnectTcp _ _ => Some 7
  | TlsRecordExport _ => Some []
  | ConnectionGet => Some 9
  | GenerationRead _ => Some 1
  | TransferRead _ => None
  | FailoverScript _ _ => ScriptExit 0
  | QuerySystemIdentifier _ => (false, "id", 1700)
  | StartupExchange _ _ _ => Some SECURITY_TRUST
  | ServerAuthenticate _ t _ _ => Some (AuthData t [] [] 55 66)
  | RecoveryByte _ => Some 102
  | ServerParameters _ => Some []
  end.

Definition oracle_ok : oracle := fun Q c _ => answer_ok Q c.

(** The same environment, but sockets are found broken. *)
Definition answer_broken (Q : Type) (c : syscall Q) : Q :=
  match c in syscall Q return Q with
  | SocketIsValid _ => false
  | c => answer_ok _ c
  end.

Definition limit_example : limit := Limit "db" "alice" ["alias"] 2 0 0 1.
Definition limit_all : limit := Limit "all" "all" [] 1 0 0 2.

Definition config_example : config :=
  Config 3 [limit_all; limit_example] [User "alice" "secret"] [Server "primary" "localhost" 5432]
    false false false "" 0 250 60 0 5 VALIDATION_OFF STARTUP_VALIDATION_OFF "" "" RESET_DISCARD 0.

#[local] Instance limits_example : ValidLimits config_example.
Proof. by apply (validate_valid config_example [limit_all; limit_example]). Qed.

Definition shm_example : shm :=
  Shm 0 (replicate 3 STATE_NOTINIT) (replicate 3 (reset_connection inhabitant)) [0; 0] [0; 0]
    [SERVER_PRIMARY] [true] [0] [0] [""] false true.

Definition self_example : process := Process 100 1 0 [0; 0; 0].

(** Run process [t] of a system for [n] accesses. *)
Fixpoint drive (n : nat) (answer : forall Q, syscall Q -> Q) (t : nat) (s : list (prog unit) * shm) :
  list (prog unit) * shm :=
  match n with
  | O => s
  | S n =>
      match s.1 !! t with
      | Some p =>
          match stepf p answer s.2 with
          | Some (p', m') => drive n answer t (<[t := p']> s.1, m')
          | None => s
          end
      | None => s
      end
  end.

Lemma drive_rtc (n : nat) (answer : forall Q, syscall Q -> Q) (t : nat) (s : list (prog unit) * shm) :
  rtc step s (drive n answer t s).
Proof.
  revert s; induction n as [|n IH]; intros [ts m]; [done|]. simpl.
  destruct (ts !! t) as [p|] eqn:Hp; [|done]. destruct (stepf p answer m) as [[p' m']|] eqn:E; [|done].
  eapply rtc_l; [by eapply step_process|]. apply IH.
Qed.

Definition worker_example (kill : bool) : job :=
  JWorker 3 "alice" "alias" true SECURITY_TRUST 55 66 None kill.

Definition procs_example : list (process * job) :=
  [(self_example, worker_example false); (Process 101 1 0 [0; 0; 0], worker_example true);
   (Process 102 1 0 [0; 0; 0], JIdleTimeout)].

Lemma well_formed_example : well_formed_system config_example procs_example shm_example.
Proof.
  assert (forall r, valid_rule config_example r -> r = 0 \/ r = 1) as Hr
    by (intros r; unfold valid_rule, number_of_limits; simpl; lia).
  assert (forall i, Z.of_nat i < max_connections config_example -> i = 0%nat \/ i = 1%nat \/ i = 2%nat)
    as Hi by (intros i; simpl; lia).
  split.
  - split; try done.
    + intros i H. by destruct (Hi i H) as [->|[->| ->]].
    + intros i H. by destruct (Hi i H) as [->|[->| ->]].
  - done.
  - intros self j Hin. repeat (apply elem_of_cons in Hin as [[= -> ->]|Hin]; [done|]).
    by apply elem_of_nil in Hin.
Qed.

(** The first worker has its connection, the second holds a reservation. *)
Definition busy_example : list (prog unit) * shm :=
  drive 12 answer_ok 1 (drive 25 answer_ok 0 (system config_example procs_example, shm_example)).

(** Both workers and the sweep have ended. *)
Definition done_example : list (prog unit) * shm :=
  drive 300 answer_ok 2
    (drive 300 answer_ok 1 (drive 300 answer_ok 0 (system config_example procs_example, shm_example))).

(** ** A slot given back twice *)

(** The server refuses connections. *)
Definition answer_refused (Q : Type) (c : syscall Q) : Q :=
  match c in syscall Q return Q with
  | ConnectTcp _ _ => None
  | c => answer_ok _ c
  end.

(** A prefill and two workers. *)
Definition prefill_system : list (prog unit) :=
  [prefill_auth config_example (Process 102 1 0 [0; 0; 0]) 3 "alice" "secret" "db" ;;; Ret tt;
   job_prog config_example self_example (worker_example false);
   job_prog config_example (Process 101 1 0 [0; 0; 0]) (worker_example false)].

(** The prefill is refused and gives its slot back; the first worker takes that slot; the
    prefill kills it; the second worker takes it again. *)
Definition shared_slot : list (prog unit) * shm :=
  drive 25 answer_ok 2 (drive 40 answer_refused 0
    (drive 25 answer_ok 1 (drive 23 answer_refused 0 (prefill_system, shm_example)))).

(** [pgagroal_get_connection] leaves the slot number in its argument when it fails to
    connect, although it has given the slot back, and [pgagroal_prefill_auth] kills the
    slot with that number: a schedule of one prefill and two workers ends with both
    workers serving their clients over the same slot, and one backend counted. *)
Theorem prefill_kills_foreign_slot :
  rtc step (prefill_system, shm_example) shared_slot /\
  shared_slot.1 !! 0%nat = Some (Ret tt) /\
  shared_slot.1 !! 1%nat = Some (serve config_example self_example 0 SECURITY_TRUST 55 66 None false) /\
  shared_slot.1 !! 2%nat =
    Some (serve config_example (Process 101 1 0 [0; 0; 0]) 0 SECURITY_TRUST 55 66 None false) /\
  rule_backend shared_slot.2 1 = 1 /\ m_active_connections shared_slot.2 = 1.
Proof.
  split; [unfold shared_slot; repeat (etrans; [|apply drive_rtc]); done|].
  repeat split; vm_compute; reflexivity.
Qed.

(** ** Instances of the pool theorems *)

(** At the alias of the precise rule: ["alice"] on ["alias"] is counted under rule 1,
    although the catch-all rule 0 comes first. *)
Lemma precise_rule_wins_witness :
  rule_precise config_example "alice" "alias" (find_best_rule config_example "alice" "alias").
Proof.
  apply (precise_rule_wins config_example "alice" "alias" 1).
  - discriminate.
  - intros l Hl Hd. repeat (apply elem_of_cons in Hl as [->|Hl]; [done || discriminate|]).
    by apply elem_of_nil in Hl.
  - split; [|split]; [vm_compute; split; congruence|reflexivity|]. right. by apply list_elem_of_here.
Defined.

(** The entry with the alias is for every user, the entry of the user for every
    database: the pool records the alias, the startup message names the database. *)
Definition config_alias : config :=
  Config 3 [Limit "db" "all" ["alias"] 2 0 0 1; Limit "all" "alice" [] 1 0 0 2] [User "alice" "secret"] []
    false false false "" 0 250 60 0 5 VALIDATION_OFF STARTUP_VALIDATION_OFF "" "" RESET_DISCARD 0.

Lemma limits_alias : ValidLimits config_alias.
Proof. by apply (validate_valid config_alias (limits config_alias)). Qed.

Lemma alias_names_agree_witness :
  resolve_database_name config_alias "alias" (find_best_rule config_alias "alice" "alias") = "alias" /\
  resolve_database_alias config_alias "alice" "alias" = "db" /\
  ~ (is_alias_of_limit config_alias "alias" (find_best_rule config_alias "alice" "alias") = true \/
     forall l, l ∈ limits config_alias -> username_match "alice" l = true -> "alias" ∉ l_aliases l).
Proof.
  split; [reflexivity|]. split; [reflexivity|]. intros H.
  apply (alias_names_agree config_alias "alice" "alias" limits_alias) in H. discriminate.
Defined.

Lemma busy_example_reachable :
  rtc step (system config_example procs_example, shm_example) (busy_example.1, busy_example.2).
Proof. rewrite <- surjective_pairing. etrans; apply drive_rtc. Qed.

Lemma done_example_reachable :
  rtc step (system config_example procs_example, shm_example) (done_example.1, done_example.2).
Proof.
  rewrite <- surjective_pairing.
  etrans; [|apply drive_rtc]. etrans; apply drive_rtc.
Qed.




(** The pool with an old idle connection in slot 0 and a fresh one in slot 2. *)
Definition idle_connection (t : Z) : connection :=
  Connection "alice" "db" "" false 0 false SECURITY_TRUST [] [] 55 66 1 t t (-1) 7 0 [] false.

Definition shm_idle : shm :=
  Shm 0 [STATE_FREE; STATE_NOTINIT; STATE_FREE]
    [idle_connection 900; reset_connection inhabitant; idle_connection 990] [0; 0] [0; 2]
    [SERVER_PRIMARY] [true] [0] [0] [""] false true.

Lemma shm_idle_wf : shm_wf config_example shm_idle.
Proof. split; vm_compute; congruence. Qed.

(** The sweeps of that pool, by a clock that shows 1000. *)
Lemma idle_timeout_sweeps_witness :
  swept_all config_example self_example (fun c => (60 <=? 1000 - c_timestamp c) && negb (c_tx_mode c)) shm_idle
    (w_shm (snd (run oracle_ok (pool_idle_timeout config_example self_example) (World shm_idle [] 0)))).
Proof. exact (idle_timeout_sweeps config_example self_example oracle_ok (World shm_idle [] 0) shm_idle_wf). Defined.

Lemma max_connection_age_sweeps_witness :
  swept_all config_example self_example (fun c => (0 <=? 1000 - c_start_time c) && negb (c_tx_mode c)) shm_idle
    (w_shm (snd (run oracle_ok (pool_max_connection_age config_example self_example) (World shm_idle [] 0)))).
Proof. exact (max_connection_age_sweeps config_example self_example oracle_ok (World shm_idle [] 0) shm_idle_wf). Defined.

Lemma small_index (i : nat) : Z.of_nat i < max_connections config_example -> i = 0%nat \/ i = 1%nat \/ i = 2%nat.
Proof. simpl. lia. Qed.

Lemma servers_up_idle : servers_up config_example shm_idle.
Proof. intros i Hi. destruct (small_index i Hi) as [->|[->| ->]]; [right|left|right]; vm_compute; congruence. Qed.

(** Both idle connections survive a flush request without a database. *)
Lemma request_flush_without_database_witness :
  wp (request_flush config_example self_example FLUSH_ALL None) (fun _ m' => m' = shm_idle) shm_idle.
Proof.
  apply (request_flush_without_database config_example self_example FLUSH_ALL shm_idle servers_up_idle).
  intros i Hi. destruct (small_index i Hi) as [->|[->| ->]]; vm_compute; congruence.
Defined.

Lemma flush_idle_all_witness :
  wp (pool_flush config_example self_example FLUSH_IDLE "all")
    (fun _ m' => swept_all config_example self_example (fun _ => true) shm_idle m') shm_idle.
Proof. exact (flush_idle_all config_example self_example shm_idle shm_idle_wf servers_up_idle). Defined.

Lemma get_connection_terminates_witness :
  everywhere (get_connection config_example self_example 6 "alice" "db" true false) (fun r => r <> None).
Proof. apply (get_connection_terminates config_example self_example); vm_compute; [discriminate|reflexivity]. Defined.

(** ** Transaction pooling and a broken socket *)

Definition oracle_broken : oracle := fun Q c _ => answer_broken Q c.

Definition take_example : prog attempt :=
  a <- attempt_connection config_example self_example "alice" "db" true true 1 ;;
  (match a with GotoRetry _ true => release_active 1 | _ => Ret tt end) ;;;
  Ret a.

(** A client in transaction mode takes the idle connection 0 and finds its socket
    broken; afterwards the idle sweep runs. *)
Definition after_take : attempt * world := run oracle_broken take_example (World shm_idle [] 0).
Definition after_sweep : unit * world :=
  run oracle_broken (pool_idle_timeout config_example self_example) (snd after_take).

(** The slot is left free with the process still attached, so killing it later
    releases the active counters a second time: they wrap around to 65535, and from
    then on the pool is full for everyone. *)
Theorem broken_socket_releases_twice :
  fst after_take = GotoRetry (Some 0%nat) true /\
  state_at (w_shm (snd after_take)) 0 = STATE_FREE /\
  c_pid (conn_at (w_shm (snd after_take)) 0) = 100 /\
  m_active_connections (w_shm (snd after_take)) = 0 /\
  m_active_connections (w_shm (snd after_sweep)) = 65535 /\
  rule_active (w_shm (snd after_sweep)) 1 = 65535 /\
  wp (attempt_connection config_example self_example "alice" "db" true false 1)
    (fun a _ => a = GotoRetry None false) (w_shm (snd after_sweep)).
Proof.
  assert (m_active_connections (w_shm (snd after_sweep)) = 65535) as Ha by (vm_compute; reflexivity).
  do 4 (split; [vm_compute; reflexivity|]). split; [exact Ha|]. split; [vm_compute; reflexivity|].
  unfold attempt_connection. do 2 wp_step. by rewrite Ha.
Qed.

(** ** Three servers *)

Definition config_servers : config :=
  Config 3 [limit_all; limit_example] [User "alice" "secret"]
    [Server "first" "a" 5432; Server "second" "b" 5432; Server "third" "c" 5432]
    true false false "" 0 250 60 0 5 VALIDATION_OFF STARTUP_VALIDATION_OFF "" "" RESET_DISCARD 0.

(** The first server is the primary, the other two are replicas. *)
Definition shm_servers : shm :=
  Shm 0 [STATE_FREE; STATE_NOTINIT; STATE_FREE]
    [idle_connection 900; reset_connection inhabitant; idle_connection 990] [0; 0] [0; 2]
    [SERVER_PRIMARY; SERVER_REPLICA; SERVER_REPLICA] [true; true; true] [0; 0; 0] [0; 0; 0] [""; ""; ""] false true.

Lemma shm_servers_wf : shm_wf config_servers shm_servers.
Proof. split; vm_compute; congruence. Qed.

Lemma server_failover_effect_witness :
  wp (server_failover config_servers 0) (gave_up config_servers shm_servers 0) shm_servers.
Proof.
  exact (server_failover_effect config_servers 0 0 shm_servers shm_servers_wf eq_refl ltac:(simpl; lia)).
Defined.

(** The second server is given up while it is a replica. *)
Lemma server_force_failover_effect_witness :
  wp (server_force_failover config_servers 1)
    (fun r m' => sstate m' 1 = SERVER_FAILED /\ (r = 0 \/ r = 1) /\
       forall i, (i < 3)%nat -> i <> 1%nat ->
         sstate m' i = sstate shm_servers i \/
         candidate (sstate shm_servers i) = true /\ valid_at shm_servers i = true /\ r = 0 /\
         (sstate m' i = SERVER_PRIMARY \/ sstate m' i = SERVER_FAILED)) shm_servers.
Proof.
  exact (server_force_failover_effect config_servers 1 shm_servers shm_servers_wf ltac:(simpl; lia)).
Defined.

Lemma unique_primary_servers : unique_primary config_servers shm_servers.
Proof.
  intros i j Hi Hj _ _. simpl in Hi, Hj.
  destruct i as [|[|[|]]], j as [|[|[|]]]; try lia; vm_compute; congruence.
Qed.

Lemma server_switch_moves_primary_witness :
  wp (server_switch config_servers "third")
    (fun r m' =>
       if r =? 0
       then unique_primary config_servers m' /\
            exists new, (new < 3)%nat /\ s_name (servers config_servers !!! new) = "third" /\
              switched config_servers shm_servers new m'
       else m' = shm_servers /\ forall i, (i < 3)%nat -> named config_servers shm_servers "third" i = false)
    shm_servers.
Proof.
  exact (server_switch_moves_primary config_servers "third" shm_servers shm_servers_wf unique_primary_servers).
Defined.

(** The two replicas turn out to be the same cluster. *)
Lemma duplicates_pruned_witness :
  wp (check_duplicates config_servers false ["1"; "2"; "2"] (server_indices config_servers))
    (fun ok m' => ok = true /\ pruned ["1"; "2"; "2"] shm_servers m' /\
       forall i j, (i < j < 3)%nat -> checked ["1"; "2"; "2"] m' i -> checked ["1"; "2"; "2"] m' j ->
         ["1"; "2"; "2"] !!! i <> ["1"; "2"; "2"] !!! j) shm_servers.
Proof. exact (duplicates_pruned config_servers ["1"; "2"; "2"] shm_servers shm_servers_wf). Defined.
